(* ===== verification/_CoqProject ===== *)
-Q . S2P
Prelude.v
Msgpack.v
Wire.v
Treap.v
Timing.v
Queue.v
NetAddr.v
Nodes.v
Events.v
Packet.v
State.v
Lifecycle.v
Membership.v
Beliefs.v
Typing.v
Protocol.v
Merge.v
Security.v
Checksum.v
HostPort.v
Acks.v
Net.v
Streams.v
Ingest.v
Exchange.v
Cluster.v
Probe.v
Detect.v
LockQueue.v
NetTransport.v
Setup.v
Join.v
Schedule.v
Quiesce.v
Shutdown.v
Calls.v
Mock.v
Retry.v
CheckDeps.v
BenchCmp.v
Schema.v
Alternatives.v
Oracle.v
Observers.v
Stack.v
Cidr.v
Goid.v
