(* ===== verification/Prelude.v ===== *)
(** * Mori: gossip-based cluster membership and failure detection

    This library models the Go package in [src/] and proves what makes it
    correct. A node keeps a table of the cluster's members, learns of changes
    from messages that nodes gossip to each other, suspects and declares dead
    the nodes that stop answering, and reports changes to its user.

    ** The program's parts and their files

    Data and containers:
    - [Prelude] (this file): machine integers, bytes, results, shared lemmas,
      tactics and hint databases.
    - [Msgpack]: the codec of [src/internal/msgpack/msgpack.go], append
      functions and decoder in its slice and stream modes.
    - [Wire]: the protocol messages of [src/internal/wire/wire.go].
    - [Treap], [Queue]: the broadcast queue of [src/queue.go], first the treap
      it is ordered by, then [TransmitLimitedQueue]; the broadcasts of
      [src/broadcast.go].
    - [Timing]: the formulas of [src/util.go], the health score of
      [src/awareness.go] and the suspicion timer of [src/suspicion.go].
    - [NetAddr], [HostPort]: addresses, the advertised address of
      [src/netaddr.go], the CIDR filter of [src/config.go], the parsing and
      printing of IP addresses, host and port strings of [src/util.go];
      [Cidr]: the parsing of that filter's CIDR strings.
    - [Nodes]: the data of [src/state.go] and the list functions on nodes of
      [src/util.go]; the protocol version check.
    - [Events]: the event queue and its dispatcher, [src/events.go].
    - [Packet], [Checksum]: message types, compound messages, labels,
      compression and checksums: [src/net.go], [src/util.go],
      [src/label.go], [src/peeked_conn.go].
    - [Security]: payload encryption, [src/security.go], and the keyring,
      [src/keyring.go].

    Membership:
    - [State]: the membership state and its handlers, [src/state.go].
    - [Lifecycle]: the critical sections of announcing, updating, leaving and
      shutting down, [src/memberlist.go]; [Calls]: the calls around them, with
      their waits.
    - [Membership]: the handlers as the steps of one system, its invariant and
      its refinement of the precedence rules of the protocol.
    - [Beliefs]: where what a node believes and gossips comes from.
    - [Typing]: the widths of what a node stores and says.
    - [Protocol], [Merge]: what holds over whole executions, and what merging
      a peer's state does.

    The network, [src/net.go] and [src/state.go]:
    - [Acks]: the table of ack handlers and the channels of probes.
    - [Net]: sending and receiving packets.
    - [Streams], [Exchange]: stream connections; push/pull and stream pings
      between two nodes; [Cluster]: many nodes whose messages may be lost,
      repeated and reordered.
    - [Ingest]: a node against arbitrary input, and packets from one node to
      another.
    - [Probe], [Detect]: probing, gossip and push/pull cycles, and what they
      detect.

    A node from start to end, [src/memberlist.go]:
    - [LockQueue]: operations waiting for the node lock under a context.
    - [NetTransport]: the sockets of [src/net_transport.go]; [Stack]: sends
      and dials through the transport's layers, [src/transport.go].
    - [Setup], [Join]: building and creating a node, joining a cluster.
    - [Schedule]: the periodic triggers of [src/state.go].
    - [Quiesce], [Shutdown]: background goroutines, callbacks and Shutdown as
      interleaved steps; [Goid]: the goroutine ids it goes by, [src/util.go].

    Beside the node:
    - [Mock]: the in-memory transport, [src/mock_transport.go].
    - [Retry]: the retry helper, [src/internal/retry/retry.go].
    - [CheckDeps], [BenchCmp]: the tools under [src/tools/].
    - [Observers]: the event channel of [src/event_delegate.go] and the
      metrics of [src/metrics.go].
    - [Schema], [Alternatives], [Oracle]: the messages as schemas, other
      encodings of them, and the program that compares the codec with a
      third-party one, [src/internal/wire/testdata/oracle/main.go].

    ** How the code is modelled

    Go integers are [Z] with the conversions of [Prelude] written where the
    code converts or can overflow. Strings are [string], byte slices [bytes],
    and [slice] where nil and empty differ. A fallible function returns a
    [result]; a panic or nil dereference is [None], and the theorems rule it
    out. Structs are records and enumerations inductive types. Pointers shared
    between structures are locations of a heap ([State], [Security], [Mock]).

    Goroutines communicate under locks. A handler is what one critical section
    does, and an execution is a sequence of handlers in any order: the steps of
    [Membership.step], with messages, timers, their callbacks and lifecycle
    calls as inputs; of [Ingest.runNet], with packets, streams and queued
    messages; of [Events.event_step], [LockQueue] and [Quiesce], where single
    operations on channels, locks and wait groups interleave. Time is an
    argument, in nanoseconds, and so is how a wait ends.

    Code outside [src/] is a parameter with laws: logarithms ([MathLog]), the
    random source ([Rand]), LZW ([LZW]), AES-GCM ([GCM]), sockets ([Sockets]),
    DNS ([Resolver]), the network ([Internet]), the transport and the
    application as a node uses them ([Transport], [Delegates]). Each class
    has an instance that the examples run with.

    ** What the theorems show

    Codec: messages decode to what was encoded, in both decoder modes, on
    every input the modes agree, skipping consumes exactly one value and a
    declared length never buys memory; the other encodings a message may have
    (wider integers, binary for strings, nil for empty values, fields in any
    order, repeated or unknown) decode to the same, but for a boolean that is
    repeated. Queue: the treap implements a sorted list, a packet is filled by
    tier within its limit, and broadcasts finish once. Membership: an
    invariant of every reachable state, widths of every stored and gossiped
    field, refinement of the precedence rules, refutation, what the nodes of a
    cluster can believe of each other, survival of the local node, the end of
    every suspicion, agreement of events and members, finality of leave and
    shutdown. Framing and security: round trips of compound messages, labels,
    compression and encryption, the keyring's contract, refusal of damaged and
    foreign packets. Network: no input makes a node panic or breaks its
    invariant, what one node sends the other handles, a push/pull merges on
    each side what the other had, packets stay within their budget. Detection:
    a silent node is suspected, one that answers is not, and every member is
    probed in time. Lifecycle: a created node is sound, Join and the lifecycle
    calls report what happened, the node lock is exclusive, Shutdown quiesces
    and returns. Tools: the audit passes exactly when the policy holds, the
    exact test counts the orders it means. Observers: the channel tells the
    member list, the gauges count the nodes.

    Some theorems prove that the code does not do what it could be expected
    to: a transport left running by a failed build, sockets left open by a
    failed start, a Shutdown that blocks in a receiver's callback, a probe's
    timeout put back in place of an ack, a compound message of 256 parts,
    keyrings shared with a caller.

    ** Bounds and fuel

    The recursions with fuel take it from their input (the length of a buffer
    or list, the size of a tree, the bits of an integer), of which each round
    consumes some; where a theorem depends on that, a lemma says it is enough.
    Halving the receive buffer of a socket has fuel for the 64 bits of its
    size. The nesting of packets is bounded by the envelopes a message may
    have, and the search for a node to probe by the length of the
    node list. That Shutdown returns is by a measure of the work left
    ([Shutdown.shutdownWork]); that a retry ends, by the count or the deadline
    of its retryer. The broadcast queue numbers its entries with an int64:
    theorems about handlers ask for room for the broadcasts they queue.

    ** Not modelled

    Log lines, and the metrics that operations emit along the way, other than
    the node gauges and the queue depth: no decision reads them. Reading from
    and writing to sockets, DNS and clocks, which are the operating system's
    and appear as interfaces or arguments. The interfaces of the delegates,
    which hold no code. Floating-point rounding, in the timing formulas and
    the benchmark comparison, whose p-value for large or tied samples is left
    as its arguments. What JSON, the go command and the Go parser make of
    their input in the dependency check. The texts of errors and of printed
    reports. The golden file that the oracle writes, and the third-party codec
    it runs, which is a parameter. *)

From Stdlib Require Export ZArith NArith Lia Strings.Byte String.
From stdpp Require Export base tactics list numbers strings gmap.
(* stdpp's String equality instances are used; list notations win over string's. *)
#[global] Open Scope list_scope.
#[global] Open Scope Z_scope.

(** ** Machine integers

    Go's fixed-width conversions on [Z]: [uN z] is what [uintN(z)] keeps of
    [z], [iN z] is [intN(z)]. [int] is 64 bits wide. *)

Definition u8 (z : Z) : Z := z mod 256.
Definition u16 (z : Z) : Z := z mod 65536.
Definition u32 (z : Z) : Z := z mod 4294967296.
Definition u64 (z : Z) : Z := z mod 18446744073709551616.
Definition i8 (z : Z) : Z := (z + 128) mod 256 - 128.
Definition i16 (z : Z) : Z := (z + 32768) mod 65536 - 32768.
Definition i32 (z : Z) : Z := (z + 2147483648) mod 4294967296 - 2147483648.
Definition i64 (z : Z) : Z :=
  (z + 9223372036854775808) mod 18446744073709551616 - 9223372036854775808.

Definition MaxUint8 : Z := 255.
Definition MaxUint16 : Z := 65535.
Definition MaxUint32 : Z := 4294967295.
Definition MaxUint64 : Z := 18446744073709551615.
Definition MaxInt8 : Z := 127.
Definition MinInt8 : Z := -128.
Definition MaxInt16 : Z := 32767.
Definition MinInt16 : Z := -32768.
Definition MaxInt32 : Z := 2147483647.
Definition MinInt32 : Z := -2147483648.
Definition MaxInt64 : Z := 9223372036854775807.
Definition MinInt64 : Z := -9223372036854775808.

(** ** Bytes

    A Go [byte] is Rocq's [Byte.byte]; [b2z] is [int(c)] and [z2b] is
    [byte(z)], which keeps the low eight bits. A Go string is a
    [String.string], i.e. a sequence of eight-bit characters. *)

Definition b2z (b : byte) : Z := Z.of_N (Byte.to_N b).
Definition z2b (z : Z) : byte :=
  match Byte.of_N (Z.to_N (z mod 256)) with
  | Some b => b
  | None => Byte.x00
  end.

Abbreviation bytes := (list byte).

(** A [[]byte] value where the code tells [nil] from an empty slice. *)
Abbreviation slice := (option (list byte)).

Definition slice_bytes (s : slice) : bytes :=
  match s with
  | Some b => b
  | None => []
  end.

Definition str2b (s : string) : bytes := list_byte_of_string s.
Definition b2str (b : bytes) : string := string_of_list_byte b.

(** Go's [len]. *)
Definition len {A} (l : list A) : Z := Z.of_nat (length l).

#[global] Instance byte_eq_dec : EqDecision byte.
Proof. intros x y. apply Byte.byte_eq_dec. Defined.

(** ** Big-endian integers ([encoding/binary]) *)

(** [be n v] is the [n] low bytes of [v], most significant first. *)
Fixpoint be (n : nat) (v : Z) : bytes :=
  match n with
  | O => []
  | S n' => z2b (Z.shiftr v (8 * Z.of_nat n')) :: be n' v
  end.

(** The loop [v = v<<8 | uint64(c)]. *)
Definition be_step (v : Z) (c : byte) : Z := Z.lor (u64 (Z.shiftl v 8)) (b2z c).
Definition be_value (l : bytes) : Z := fold_left be_step l 0.

(** ** Results

    A fallible Go function returns [Ok] with its values or [Err] with its
    error; [let!] is the [if err != nil { return err }] idiom. *)

Inductive result (E A : Type) : Type :=
| Ok (a : A)
| Err (e : E).
Arguments Ok {E A} a.
Arguments Err {E A} e.

Definition rbind {E A B} (c : result E A) (k : A -> result E B) : result E B :=
  match c with
  | Ok a => k a
  | Err e => Err e
  end.

Definition rmap_err {E F A} (f : E -> F) (c : result E A) : result F A :=
  match c with
  | Ok a => Ok a
  | Err e => Err (f e)
  end.

Definition is_ok {E A} (c : result E A) : bool :=
  match c with
  | Ok _ => true
  | Err _ => false
  end.

Declare Scope mori_scope.
Delimit Scope mori_scope with mori.
Notation "'let!' x ':=' c 'in' k" := (rbind c (fun x => k))
  (at level 10, x pattern, c at level 100, k at level 200,
   format "'[v' 'let!'  x  ':='  c  'in' '/' k ']'") : mori_scope.
#[global] Open Scope mori_scope.
#[export] Set Warnings "-clear-no-such-hyp".

(** ** Tactics *)

Create HintDb mori discriminated.
Create Rewrite HintDb len.

(** Split the innermost [match], [if] or [let!] of a hypothesis or the goal. *)
Ltac split_match :=
  match goal with
  | H : context [rbind ?c _] |- _ => destruct c eqn:?; cbn [rbind] in H
  | |- context [rbind ?c _] => destruct c eqn:?; cbn [rbind]
  | |- context [if ?b then _ else _] => destruct b eqn:?
  | H : context [if ?b then _ else _] |- _ => destruct b eqn:?
  | _ => case_match
  end.

Ltac unfold_ints :=
  unfold u8, u16, u32, u64, i8, i16, i32, i64, MaxUint8, MaxUint16, MaxUint32,
    MaxUint64, MaxInt8, MinInt8, MaxInt16, MinInt16, MaxInt32, MinInt32,
    MaxInt64, MinInt64 in *.

(** Linear arithmetic with constant [mod] and [/], and [len]. *)
Ltac len_norm :=
  unfold len in *; rewrite ?length_app, ?length_nil, ?length_cons in *;
  cbn [length] in *.
Ltac ints := unfold_ints; Z.to_euclidean_division_equations; lia.

(** ** Generic lemmas *)

Lemma u8_small z : 0 <= z < 256 -> u8 z = z.
Proof. apply Z.mod_small. Qed.
Lemma u16_small z : 0 <= z < 65536 -> u16 z = z.
Proof. apply Z.mod_small. Qed.
Lemma u32_small z : 0 <= z < 4294967296 -> u32 z = z.
Proof. apply Z.mod_small. Qed.
Lemma u64_small z : 0 <= z < 18446744073709551616 -> u64 z = z.
Proof. apply Z.mod_small. Qed.
Lemma i64_small z : MinInt64 <= z <= MaxInt64 -> i64 z = z.
Proof. intros. unfold_ints. rewrite Z.mod_small; lia. Qed.

Lemma b2z_range b : 0 <= b2z b < 256.
Proof. unfold b2z. pose proof (Byte.to_N_bounded b). lia. Qed.

Lemma b2z_z2b z : b2z (z2b z) = z mod 256.
Proof.
  unfold b2z, z2b. pose proof (Z.mod_pos_bound z 256 ltac:(lia)).
  destruct (Byte.of_N _) as [b|] eqn:E.
  - apply Byte.to_of_N in E. lia.
  - pose proof (Byte.to_of_N_option_map (Z.to_N (z mod 256))) as H'.
    rewrite E in H'. cbn [option_map] in H'.
    destruct (N.leb_spec (Z.to_N (z mod 256)) 255); [done|lia].
Qed.

Lemma b2z_z2b_small z : 0 <= z < 256 -> b2z (z2b z) = z.
Proof. intros. rewrite b2z_z2b. by apply Z.mod_small. Qed.

Lemma b2z_inj a b : b2z a = b2z b -> a = b.
Proof.
  unfold b2z. intros H%N2Z.inj. apply (f_equal Byte.of_N) in H.
  rewrite !Byte.of_to_N in H. congruence.
Qed.

Lemma z2b_b2z b : z2b (b2z b) = b.
Proof. apply b2z_inj, b2z_z2b_small, b2z_range. Qed.

Lemma str2b_b2str b : str2b (b2str b) = b.
Proof. apply list_byte_of_string_of_list_byte. Qed.

Lemma b2str_str2b s : b2str (str2b s) = s.
Proof. apply string_of_list_byte_of_string. Qed.

Lemma str2b_inj s t : str2b s = str2b t -> s = t.
Proof. intros H. by rewrite <- (b2str_str2b s), H, b2str_str2b. Qed.

#[global] Instance byte_countable : Countable byte.
Proof.
  apply (inj_countable' b2z z2b). exact z2b_b2z.
Defined.

Lemma len_nil {A} : len (@nil A) = 0.
Proof. done. Qed.
Lemma len_cons {A} (x : A) l : len (x :: l) = 1 + len l.
Proof. unfold len. cbn [length]. lia. Qed.
Lemma len_app {A} (l k : list A) : len (l ++ k) = len l + len k.
Proof. unfold len. rewrite length_app. lia. Qed.
Lemma len_nonneg {A} (l : list A) : 0 <= len l.
Proof. unfold len. lia. Qed.
Lemma len_0_nil {A} (l : list A) : len l = 0 -> l = [].
Proof. destruct l; [done|]. rewrite len_cons. pose proof (len_nonneg l). lia. Qed.
Lemma len_take {A} (l : list A) n : 0 <= n <= len l -> len (take (Z.to_nat n) l) = n.
Proof. unfold len. rewrite length_take. lia. Qed.
Lemma len_drop {A} (l : list A) n : 0 <= n <= len l -> len (drop (Z.to_nat n) l) = len l - n.
Proof. unfold len. rewrite length_drop. lia. Qed.
#[export] Hint Rewrite @len_nil @len_cons @len_app : len.

Lemma length_be n v : length (be n v) = n.
Proof. by induction n; cbn; f_equal. Qed.

Lemma delete_beyond {A} (l : list A) i : l !! i = None -> delete i l = l.
Proof. revert i. induction l as [|x l IH]; intros [|i]; cbn; try done. intros H. f_equal. by apply IH. Qed.

Lemma len_be n v : len (be n v) = Z.of_nat n.
Proof. unfold len. by rewrite length_be. Qed.
#[export] Hint Rewrite len_be : len.

(** [len] arithmetic: normalise with the [len] rewrites, then [lia]. *)
Ltac lens := autorewrite with len in *; lia.

(** Disjoint bits: or-ing in [k] low bits is addition. *)
Lemma lor_low_bits k a c : 0 <= k -> 0 <= c < 2 ^ k -> Z.lor (a * 2 ^ k) c = a * 2 ^ k + c.
Proof.
  intros Hk Hc. rewrite <- Z.add_nocarry_lor; [done|].
  rewrite <- Z.shiftl_mul_pow2 by lia.
  apply Z.bits_inj'. intros i Hi. rewrite Z.land_spec, Z.bits_0.
  destruct (Z.ltb_spec i k).
  - by rewrite Z.shiftl_spec_low by lia.
  - rewrite <- (Z.mod_small c (2 ^ k)) by lia.
    rewrite Z.mod_pow2_bits_high by lia. by rewrite andb_false_r.
Qed.

Lemma lor_shift8 v c : 0 <= c < 256 -> Z.lor (Z.shiftl v 8) c = v * 256 + c.
Proof.
  intros Hc. rewrite Z.shiftl_mul_pow2 by lia.
  by rewrite (lor_low_bits 8) by lia.
Qed.

Lemma be_step_small v c : 0 <= v < 72057594037927936 -> be_step v c = v * 256 + b2z c.
Proof.
  intros Hv. unfold be_step, u64. pose proof (b2z_range c).
  rewrite Z.mod_small; [by apply lor_shift8|].
  rewrite Z.shiftl_mul_pow2 by lia. lia.
Qed.

Lemma be_value_snoc l c : be_value (l ++ [c]) = be_step (be_value l) c.
Proof. unfold be_value. by rewrite fold_left_app. Qed.

(** Reading back what [be] wrote, after an accumulated prefix [a]. *)
Lemma fold_be n v a :
  0 <= a -> (a + 1) * 256 ^ Z.of_nat n <= 18446744073709551616 ->
  fold_left be_step (be n v) a = a * 256 ^ Z.of_nat n + v mod 256 ^ Z.of_nat n.
Proof.
  revert a. induction n as [|n IH]; intros a Ha Hb.
  - cbn [be fold_left]. change (256 ^ Z.of_nat 0) with 1. rewrite Z.mod_1_r. lia.
  - cbn [be fold_left]. rewrite Nat2Z.inj_succ, Z.pow_succ_r in * by lia.
    set (p := 256 ^ Z.of_nat n) in *.
    assert (Hp : 0 < p) by (unfold p; lia).
    rewrite be_step_small by nia. rewrite b2z_z2b.
    rewrite Z.shiftr_div_pow2 by lia.
    replace (2 ^ (8 * Z.of_nat n)) with p by (unfold p; by rewrite Z.pow_mul_r by lia).
    pose proof (Z.mod_pos_bound (v / p) 256 ltac:(lia)).
    rewrite IH by nia. fold p.
    rewrite (Z.mul_comm 256 p), Z.rem_mul_r by lia. lia.
Qed.

Lemma be_value_be n v :
  (n <= 8)%nat -> be_value (be n v) = v mod 256 ^ Z.of_nat n.
Proof.
  intros Hn. unfold be_value.
  assert (256 ^ Z.of_nat n <= 256 ^ 8) by (apply Z.pow_le_mono_r; lia).
  change (256 ^ 8) with 18446744073709551616 in *.
  rewrite fold_be; lia.
Qed.

Lemma be_value_range l :
  (length l <= 8)%nat -> 0 <= be_value l < 256 ^ len l.
Proof.
  induction l as [|c l IH] using rev_ind; [done|].
  rewrite length_app. cbn [length]. intros Hl. rewrite be_value_snoc.
  assert (256 ^ len l <= 256 ^ 7) by (apply Z.pow_le_mono_r; unfold len; lia).
  change (256 ^ 7) with 72057594037927936 in *.
  specialize (IH ltac:(lia)). rewrite be_step_small by lia.
  pose proof (b2z_range c). rewrite len_app.
  rewrite Z.pow_add_r by (unfold len; lia).
  change (256 ^ len [c]) with 256. nia.
Qed.

Lemma take_app_len {A} (p q : list A) : take (length p) (p ++ q) = p.
Proof. by rewrite take_app_length. Qed.

Lemma be_snoc n v : be (S n) v = be n (Z.shiftr v 8) ++ [z2b v].
Proof.
  induction n as [|n IH]; [done|].
  change (be (S (S n)) v) with (z2b (Z.shiftr v (8 * Z.of_nat (S n))) :: be (S n) v).
  rewrite IH. cbn [be app]. do 2 f_equal. rewrite Z.shiftr_shiftr by lia. f_equal. lia.
Qed.

(** Writing back what was read. *)
Lemma be_be_value l : (length l <= 8)%nat -> be (length l) (be_value l) = l.
Proof.
  induction l as [|c l IH] using rev_ind; [done|].
  rewrite length_app. cbn [length]. intros Hl. rewrite be_value_snoc.
  pose proof (be_value_range l ltac:(lia)) as Hr.
  assert (256 ^ len l <= 256 ^ 7) by (apply Z.pow_le_mono_r; unfold len; lia).
  change (256 ^ 7) with 72057594037927936 in *. pose proof (b2z_range c).
  rewrite be_step_small, Nat.add_1_r, be_snoc by lia. f_equal.
  - rewrite Z.shiftr_div_pow2 by lia. change (2 ^ 8) with 256.
    rewrite Z.div_add_l, Z.div_small, Z.add_0_r by lia. apply IH. lia.
  - f_equal. apply b2z_inj. rewrite b2z_z2b, Z.add_comm, Z.mod_add, Z.mod_small by lia. done.
Qed.

(** Where the element [x] of a list lies relative to the element [e]. *)
Lemma middle_inv {A} (a b l1 l2 : list A) e x :
  a ++ e :: b = l1 ++ x :: l2 ->
  (exists l, a = l1 ++ x :: l /\ l2 = l ++ e :: b) \/
  (a = l1 /\ e = x /\ b = l2) \/
  (exists l, l1 = a ++ e :: l /\ b = l ++ x :: l2).
Proof.
  intros (l & [[-> E]|[-> E]])%app_eq_app; destruct l as [|y l]; cbn in E; simplify_eq;
    rewrite ?app_nil_r; eauto 6.
Qed.

(** ** Measures *)

(** The weights of the values of a map together. *)
Definition totalWeight {A} (weight : A -> nat) (m : gmap Z A) : nat := map_fold (fun _ x n => (weight x + n)%nat) 0%nat m.

Lemma totalWeight_delete {A} (weight : A -> nat) m c x :
  m !! c = Some x -> (totalWeight weight m = weight x + totalWeight weight (delete c m))%nat.
Proof. intros H. unfold totalWeight. rewrite (map_fold_delete_L _ _ c x m); [done| |done]. intros. lia. Qed.

Lemma totalWeight_new {A} (weight : A -> nat) m c x :
  m !! c = None -> (totalWeight weight (<[c := x]> m) = weight x + totalWeight weight m)%nat.
Proof. intros H. rewrite (totalWeight_delete weight (<[c := x]> m) c x) by apply lookup_insert_eq. by rewrite delete_insert_id. Qed.

Lemma totalWeight_insert {A} (weight : A -> nat) m c x x' :
  m !! c = Some x -> (totalWeight weight (<[c := x']> m) + weight x = totalWeight weight m + weight x')%nat.
Proof.
  intros H. rewrite (totalWeight_delete weight m c x H), (totalWeight_delete weight (<[c := x']> m) c x') by apply lookup_insert_eq.
  rewrite delete_insert_eq. lia.
Qed.

(** Steps that lower a measure end. *)
Lemma nsteps_measure {A} (R : relation A) (measure : A -> nat) :
  (forall x y, R x y -> (measure y < measure x)%nat) -> forall n x y, nsteps R n x y -> (n <= measure x)%nat.
Proof. intros HR. induction 1 as [|n x y z H _ IH]; [lia|]. apply HR in H. lia. Qed.

(** ** Randomness

    [math/rand/v2]: a generator state and what a draw makes of it. *)

Class Rand (G : Type) := {
  Uint64 : G -> Z * G;
  IntN : Z -> G -> Z * G;
}.

Class RandLaws (G : Type) `{Rand G} : Prop := {
  Uint64_range g : 0 <= (Uint64 g).1 <= MaxUint64;
  IntN_range n g : 0 < n -> 0 <= (IntN n g).1 < n;
}.

(** A linear congruential generator: it meets the laws, and runs. *)
Definition lcg_next (g : Z) : Z := u64 (g * 6364136223846793005 + 1442695040888963407).

#[global] Instance lcg : Rand Z := {|
  Uint64 g := (lcg_next g, lcg_next g);
  IntN n g := (lcg_next g mod n, lcg_next g);
|}.

#[global] Instance lcg_laws : RandLaws Z.
Proof.
  constructor; cbn.
  - intros g. unfold lcg_next, u64, MaxUint64.
    pose proof (Z.mod_pos_bound (g * 6364136223846793005 + 1442695040888963407) 18446744073709551616). lia.
  - intros n g Hn. apply Z.mod_pos_bound. lia.
Qed.
