(* ===== verification/Msgpack.v ===== *)
(** The MessagePack subset of [src/internal/msgpack/msgpack.go].

    [Encoding] holds the append functions, [Decoder] the decoder in its two
    modes (over a byte slice and over a stream), both as executable
    definitions. The theorems show that decoding reverses encoding, that
    every read stays inside its input and honours its limit, that the two
    modes agree, and that a declared length never buys memory in stream
    mode. *)

From S2P Require Import Prelude.

(** ** Format bytes *)

Definition posFixintMax : Z := 0x7f.
Definition fixmapMin : Z := 0x80.
Definition fixmapMax : Z := 0x8f.
Definition fixarrayMin : Z := 0x90.
Definition fixarrayMax : Z := 0x9f.
Definition fixstrMin : Z := 0xa0.
Definition fixstrMax : Z := 0xbf.
Definition nilByte : Z := 0xc0.
Definition falseByte : Z := 0xc2.
Definition trueByte : Z := 0xc3.
Definition bin8 : Z := 0xc4.
Definition bin16 : Z := 0xc5.
Definition bin32 : Z := 0xc6.
Definition ext8 : Z := 0xc7.
Definition ext16 : Z := 0xc8.
Definition ext32 : Z := 0xc9.
Definition float32Byte : Z := 0xca.
Definition float64Byte : Z := 0xcb.
Definition uint8Byte : Z := 0xcc.
Definition uint16Byte : Z := 0xcd.
Definition uint32Byte : Z := 0xce.
Definition uint64Byte : Z := 0xcf.
Definition int8Byte : Z := 0xd0.
Definition int16Byte : Z := 0xd1.
Definition int32Byte : Z := 0xd2.
Definition int64Byte : Z := 0xd3.
Definition fixext1 : Z := 0xd4.
Definition fixext16 : Z := 0xd8.
Definition str8 : Z := 0xd9.
Definition str16 : Z := 0xda.
Definition str32 : Z := 0xdb.
Definition array16 : Z := 0xdc.
Definition array32 : Z := 0xdd.
Definition map16 : Z := 0xde.
Definition map32 : Z := 0xdf.
Definition negFixintMin : Z := 0xe0.

(** ** Encoding *)

Definition AppendNil (b : bytes) : bytes := b ++ [z2b nilByte].

Definition AppendBool (b : bytes) (v : bool) : bytes :=
  if v then b ++ [z2b trueByte] else b ++ [z2b falseByte].

Definition AppendUint (b : bytes) (v : Z) : bytes :=
  if v <=? posFixintMax then b ++ [z2b v]
  else if v <=? MaxUint8 then b ++ [z2b uint8Byte; z2b v]
  else if v <=? MaxUint16 then (b ++ [z2b uint16Byte]) ++ be 2 (u16 v)
  else if v <=? MaxUint32 then (b ++ [z2b uint32Byte]) ++ be 4 (u32 v)
  else (b ++ [z2b uint64Byte]) ++ be 8 v.

Definition AppendInt (b : bytes) (v : Z) : bytes :=
  if v >? MaxInt8 then
    if v <=? MaxInt16 then (b ++ [z2b int16Byte]) ++ be 2 (u16 v)
    else if v <=? MaxInt32 then (b ++ [z2b int32Byte]) ++ be 4 (u32 v)
    else (b ++ [z2b int64Byte]) ++ be 8 (u64 v)
  else if v >=? -32 then b ++ [z2b v]
  else if v >=? MinInt8 then b ++ [z2b int8Byte; z2b v]
  else if v >=? MinInt16 then (b ++ [z2b int16Byte]) ++ be 2 (u16 v)
  else if v >=? MinInt32 then (b ++ [z2b int32Byte]) ++ be 4 (u32 v)
  else (b ++ [z2b int64Byte]) ++ be 8 (u64 v).

Definition appendRawHeader (b : bytes) (n : Z) : bytes :=
  if n <? 32 then b ++ [z2b (Z.lor fixstrMin n)]
  else if n <? 65536 then (b ++ [z2b str16]) ++ be 2 (u16 n)
  else (b ++ [z2b str32]) ++ be 4 (u32 n).

Definition AppendString (b : bytes) (s : string) : bytes :=
  appendRawHeader b (len (str2b s)) ++ str2b s.

Definition AppendBytes (b : bytes) (p : slice) : bytes :=
  match p with
  | None => AppendNil b
  | Some p => appendRawHeader b (len p) ++ p
  end.

Definition AppendMapHeader (b : bytes) (n : Z) : bytes :=
  if n <? 16 then b ++ [z2b (Z.lor fixmapMin n)]
  else if n <? 65536 then (b ++ [z2b map16]) ++ be 2 (u16 n)
  else (b ++ [z2b map32]) ++ be 4 (u32 n).

(** ** Decoding: inputs and errors *)

(** What a reader reports when it has no more bytes. *)
Inductive io_error : Type :=
| EOF
| ErrUnexpectedEOF
| IOError (what : string).

(** A [Source] as the decoder sees it: the bytes it will still deliver and
    the error it reports after them. *)
Record source : Type := Source { src_data : bytes; src_err : io_error }.

Inductive error : Type :=
| ErrTruncated
| ErrIO (e : io_error)
| ErrNegativeRawLength (n : Z)
| ErrType (want : string) (c : Z)
| ErrMapCount (n : Z)
| ErrValueTooLong (n limit : Z)
| ErrNegative (v : Z)
| ErrOverflow (v limit : Z)
| ErrSignedOverflow (v : Z)
| ErrOutside (i lo hi : Z)
| ErrDepth
| ErrIn (context : string) (e : error)  (* fmt.Errorf("<context>: %w", e) *)
| ErrOutOfFuel.  (* of the model only; the theorems rule it out *)

(** [key] and [tmp], the scratch buffers of the Go struct, are not observable. *)
Record decoder : Type := Decoder {
  d_buf : bytes;            (* slice mode input *)
  d_off : Z;
  d_src : option source;    (* stream mode input *)
}.

Definition maxSkipDepth : Z := 32.
Definition streamChunk : Z := Z.shiftl 64 10.
Definition maxKeyLen : Z := 64.

Definition NewDecoder (b : bytes) : decoder := Decoder b 0 None.
Definition NewStreamDecoder (src : source) : decoder := Decoder [] 0 (Some src).
Definition ResetDecoder (d : decoder) (b : bytes) : decoder := Decoder b 0 None.

Definition Remaining (d : decoder) : Z :=
  match d_src d with
  | Some _ => -1
  | None => len (d_buf d) - d_off d
  end.

Definition set_off (d : decoder) (off : Z) : decoder := Decoder (d_buf d) off (d_src d).
Definition set_src (d : decoder) (s : source) : decoder := Decoder (d_buf d) (d_off d) (Some s).

Definition eofAsTruncated (e : io_error) : error :=
  match e with
  | EOF | ErrUnexpectedEOF => ErrTruncated
  | IOError _ => ErrIO e
  end.

(** [io.ReadFull]: exactly [n] bytes, or an error. *)
Definition ReadFull (s : source) (n : Z) : result io_error (bytes * source) :=
  if len (src_data s) <? n then
    Err (match src_err s with
         | EOF => if len (src_data s) =? 0 then EOF else ErrUnexpectedEOF
         | e => e
         end)
  else Ok (take (Z.to_nat n) (src_data s), Source (drop (Z.to_nat n) (src_data s)) (src_err s)).

Definition readByte (d : decoder) : result error (byte * decoder) :=
  match d_src d with
  | Some s =>
      match src_data s with
      | [] => Err (eofAsTruncated (src_err s))
      | c :: rest => Ok (c, set_src d (Source rest (src_err s)))
      end
  | None =>
      match d_buf d !! Z.to_nat (d_off d) with
      | None => Err ErrTruncated
      | Some c => Ok (c, set_off d (d_off d + 1))
      end
  end.

(** Bytes [lo, hi) of a slice. *)
Definition subslice (b : bytes) (lo hi : Z) : bytes :=
  take (Z.to_nat (hi - lo)) (drop (Z.to_nat lo) b).

Definition readFixed (n : Z) (d : decoder) : result error (Z * decoder) :=
  match d_src d with
  | Some s =>
      let! (p, s') := rmap_err eofAsTruncated (ReadFull s n) in
      Ok (be_value p, set_src d s')
  | None =>
      if len (d_buf d) - d_off d <? n then Err ErrTruncated
      else Ok (be_value (subslice (d_buf d) (d_off d) (d_off d + n)), set_off d (d_off d + n))
  end.

(** The stream loop of [readInto]. [out] has arrived, [cap] is the capacity
    requested so far; it is returned with the outcome. Each round reads at
    least one byte or fails, so [fuel] above the pending bytes is enough. *)
Fixpoint readIntoLoop (fuel : nat) (n : Z) (out : bytes) (cap : Z) (s : source)
    : Z * result error (bytes * source) :=
  if len out <? n then
    match fuel with
    | O => (cap, Err ErrOutOfFuel)
    | S fuel =>
        let cap :=
          if len out =? cap then len out + Z.min (n - len out) (Z.max (len out) streamChunk)
          else cap in
        match ReadFull s (Z.min cap n - len out) with
        | Err e => (cap, Err (eofAsTruncated e))
        | Ok (chunk, s') => readIntoLoop fuel n (out ++ chunk) cap s'
        end
    end
  else (cap, Ok (out, s)).

Definition readIntoStream (n : Z) (s : source) : Z * result error (bytes * source) :=
  readIntoLoop (S (length (src_data s))) n [] (Z.min n streamChunk) s.

Definition readInto (n : Z) (d : decoder) : result error (bytes * decoder) :=
  match d_src d with
  | None =>
      if len (d_buf d) - d_off d <? n then Err ErrTruncated
      else Ok (subslice (d_buf d) (d_off d) (d_off d + n), set_off d (d_off d + n))
  | Some s =>
      let! (out, s') := (readIntoStream n s).2 in
      Ok (out, set_src d s')
  end.

Definition discard (n : Z) (d : decoder) : result error (unit * decoder) :=
  match d_src d with
  | None =>
      if u64 (len (d_buf d) - d_off d) <? n then Err ErrTruncated
      else Ok (tt, set_off d (d_off d + n))
  | Some s =>
      let! (_, s') := rmap_err eofAsTruncated (ReadFull s (Z.min n MaxInt64)) in
      Ok (tt, set_src d s')
  end.

Definition ReadRaw (n : Z) (d : decoder) : result error (bytes * decoder) :=
  if n <? 0 then Err (ErrNegativeRawLength n) else readInto n d.

(** ** Decoding: headers and values *)

Definition ReadMapHeader (d : decoder) : result error (Z * decoder) :=
  let! (cb, d) := readByte d in
  let c := b2z cb in
  if (fixmapMin <=? c) && (c <=? fixmapMax) then Ok (Z.land c 0x0f, d)
  else if c =? nilByte then Ok (0, d)
  else
    let! (n, d) :=
      if c =? map16 then readFixed 2 d
      else if c =? map32 then readFixed 4 d
      else Err (ErrType "map" c) in
    if n >? MaxInt32 then Err (ErrMapCount n)
    else if (Remaining d >=? 0) && (n >? Remaining d / 2) then Err ErrTruncated
    else Ok (n, d).

(** [(n, isNil)]. *)
Definition rawLen (want : string) (d : decoder) : result error (Z * bool * decoder) :=
  let! (cb, d) := readByte d in
  let c := b2z cb in
  if (fixstrMin <=? c) && (c <=? fixstrMax) then Ok (Z.land c 0x1f, false, d)
  else if c =? nilByte then Ok (0, true, d)
  else
    let! (n, d) :=
      if (c =? str8) || (c =? bin8) then readFixed 1 d
      else if (c =? str16) || (c =? bin16) then readFixed 2 d
      else if (c =? str32) || (c =? bin32) then readFixed 4 d
      else Err (ErrType want c) in
    Ok (n, false, d).

Definition ReadBytes (limit : Z) (d : decoder) : result error (slice * decoder) :=
  let! (n, isNil, d) := rawLen "bytes" d in
  if isNil : bool then Ok (None, d)
  else if n >? u64 limit then Err (ErrValueTooLong n limit)
  else if n =? 0 then Ok (Some [], d)
  else let! (p, d) := readInto n d in Ok (Some p, d).

Definition ReadString (limit : Z) (d : decoder) : result error (string * decoder) :=
  let! (n, isNil, d) := rawLen "string" d in
  if (isNil : bool) || (n =? 0) then Ok (EmptyString, d)
  else if n >? u64 limit then Err (ErrValueTooLong n limit)
  else
    match d_src d with
    | None =>
        if u64 (len (d_buf d) - d_off d) <? n then Err ErrTruncated
        else Ok (b2str (subslice (d_buf d) (d_off d) (d_off d + n)), set_off d (d_off d + n))
    | Some _ => let! (b, d) := readInto n d in Ok (b2str b, d)
    end.

(** A [None] key is Go's [nil]: it matches no field. *)
Definition ReadKey (d : decoder) : result error (slice * decoder) :=
  let! (n, isNil, d) := rawLen "map key" d in
  if isNil : bool then Ok (None, d)
  else if n >? maxKeyLen then let! (_, d) := discard n d in Ok (None, d)
  else
    match d_src d with
    | None =>
        if u64 (len (d_buf d) - d_off d) <? n then Err ErrTruncated
        else Ok (Some (subslice (d_buf d) (d_off d) (d_off d + n)), set_off d (d_off d + n))
    | Some s =>
        let! (k, s') := rmap_err eofAsTruncated (ReadFull s n) in
        Ok (Some k, set_src d s')
    end.

(** [(v, neg)]: a negative [v] is its [int64] bits. *)
Definition readInteger (want : string) (d : decoder) : result error (Z * bool * decoder) :=
  let! (cb, d) := readByte d in
  let c := b2z cb in
  if c <=? posFixintMax then Ok (c, false, d)
  else if c >=? negFixintMin then Ok (u64 (i8 c), true, d)
  else if c =? nilByte then Ok (0, false, d)
  else if c =? uint8Byte then let! (v, d) := readFixed 1 d in Ok (v, false, d)
  else if c =? uint16Byte then let! (v, d) := readFixed 2 d in Ok (v, false, d)
  else if c =? uint32Byte then let! (v, d) := readFixed 4 d in Ok (v, false, d)
  else if c =? uint64Byte then let! (v, d) := readFixed 8 d in Ok (v, false, d)
  else if c =? int8Byte then let! (v, d) := readFixed 1 d in Ok (u64 (i8 v), i8 v <? 0, d)
  else if c =? int16Byte then let! (v, d) := readFixed 2 d in Ok (u64 (i16 v), i16 v <? 0, d)
  else if c =? int32Byte then let! (v, d) := readFixed 4 d in Ok (u64 (i32 v), i32 v <? 0, d)
  else if c =? int64Byte then let! (v, d) := readFixed 8 d in Ok (v, i64 v <? 0, d)
  else Err (ErrType want c).

Definition ReadUint (limit : Z) (d : decoder) : result error (Z * decoder) :=
  let! (v, neg, d) := readInteger "unsigned integer" d in
  if neg : bool then Err (ErrNegative (i64 v))
  else if v >? limit then Err (ErrOverflow v limit)
  else Ok (v, d).

Definition ReadInt (lo hi : Z) (d : decoder) : result error (Z * decoder) :=
  let! (v, neg, d) := readInteger "signed integer" d in
  if negb neg && (v >? MaxInt64) then Err (ErrSignedOverflow v)
  else
    let i := i64 v in
    if (i <? lo) || (i >? hi) then Err (ErrOutside i lo hi) else Ok (i, d).

Definition ReadBool (d : decoder) : result error (bool * decoder) :=
  let! (cb, d) := readByte d in
  let c := b2z cb in
  if (c =? trueByte) || (c =? 1) then Ok (true, d)
  else if (c =? falseByte) || (c =? 0) || (c =? nilByte) then Ok (false, d)
  else Err (ErrType "bool" c).

(** ** Skipping *)

(** The switch of [skip]: [None] when the value is the format byte alone,
    else the payload bytes and the number of elements. *)
Definition skipHeader (c : Z) (d : decoder) : result error (option (Z * Z) * decoder) :=
  let payload (w : Z) := let! (n, d) := readFixed w d in Ok (Some (n, 0), d) in
  let extension (w : Z) := let! (n, d) := readFixed w d in Ok (Some (u64 (n + 1), 0), d) in
  let elements (w k : Z) := let! (n, d) := readFixed w d in Ok (Some (0, u64 (n * k)), d) in
  if (c <=? posFixintMax) || (c >=? negFixintMin) || (c =? nilByte) || (c =? falseByte)
     || (c =? trueByte) then Ok (None, d)
  else if (fixmapMin <=? c) && (c <=? fixmapMax) then Ok (Some (0, 2 * Z.land c 0x0f), d)
  else if (fixarrayMin <=? c) && (c <=? fixarrayMax) then Ok (Some (0, Z.land c 0x0f), d)
  else if (fixstrMin <=? c) && (c <=? fixstrMax) then Ok (Some (Z.land c 0x1f, 0), d)
  else if (c =? uint8Byte) || (c =? int8Byte) then Ok (Some (1, 0), d)
  else if (c =? uint16Byte) || (c =? int16Byte) then Ok (Some (2, 0), d)
  else if (c =? uint32Byte) || (c =? int32Byte) || (c =? float32Byte) then Ok (Some (4, 0), d)
  else if (c =? uint64Byte) || (c =? int64Byte) || (c =? float64Byte) then Ok (Some (8, 0), d)
  else if (fixext1 <=? c) && (c <=? fixext16) then Ok (Some (1 + Z.shiftl 1 (c - fixext1), 0), d)
  else if (c =? str8) || (c =? bin8) then payload 1
  else if (c =? str16) || (c =? bin16) then payload 2
  else if (c =? str32) || (c =? bin32) then payload 4
  else if c =? ext8 then extension 1
  else if c =? ext16 then extension 2
  else if c =? ext32 then extension 4
  else if c =? array16 then elements 2 1
  else if c =? array32 then elements 4 1
  else if c =? map16 then elements 2 2
  else if c =? map32 then elements 4 2
  else Err (ErrType "any value" c).

(** [for range n]: run [f] [n] times, stopping at the first error. The
    bodies consume input, so [fuel] above the pending bytes is enough. *)
Fixpoint repeatR {A : Type} (f : A -> decoder -> result error (A * decoder)) (fuel : nat)
    (n : Z) (a : A) (d : decoder) : result error (A * decoder) :=
  if n <=? 0 then Ok (a, d)
  else match fuel with
       | O => Err ErrOutOfFuel
       | S fuel => let! (a, d) := f a d in repeatR f fuel (n - 1) a d
       end.

(** The unread input of either mode. *)
Definition pending (d : decoder) : bytes :=
  match d_src d with
  | Some s => src_data s
  | None => drop (Z.to_nat (d_off d)) (d_buf d)
  end.

(** [levels] counts down where Go's [depth] counts up: it is
    [maxSkipDepth + 1 - depth]. *)
Fixpoint skip (levels : nat) (d : decoder) : result error (unit * decoder) :=
  match levels with
  | O => Err ErrDepth
  | S levels =>
      let! (cb, d) := readByte d in
      let! (h, d) := skipHeader (b2z cb) d in
      match h with
      | None => Ok (tt, d)
      | Some (n, elems) =>
          if elems =? 0 then discard n d
          else if (Remaining d >=? 0) && (elems >? Remaining d) then Err ErrTruncated
          else repeatR (fun _ => skip levels) (S (length (pending d))) elems tt d
      end
  end.

Definition Skip (d : decoder) : result error (unit * decoder) :=
  skip (Z.to_nat (maxSkipDepth + 1)) d.

(** ** Reading as a function of the pending bytes *)

(** The error of a read past the end of the input. *)
Definition end_error (d : decoder) : error :=
  match d_src d with
  | Some s => eofAsTruncated (src_err s)
  | None => ErrTruncated
  end.

(** [d] after [n] more bytes. *)
Definition consume (n : Z) (d : decoder) : decoder :=
  match d_src d with
  | Some s => set_src d (Source (drop (Z.to_nat n) (src_data s)) (src_err s))
  | None => set_off d (d_off d + n)
  end.

(** The slice-mode invariant: the offset stays inside the buffer, whose
    length is an [int]. *)
Definition dec_ok (d : decoder) : Prop :=
  match d_src d with
  | Some _ => True
  | None => 0 <= d_off d <= len (d_buf d) /\ len (d_buf d) <= MaxInt64
  end.

(** The primitive all reads are made of. *)
Definition takeN (n : Z) (d : decoder) : result error (bytes * decoder) :=
  if len (pending d) <? n then Err (end_error d)
  else Ok (take (Z.to_nat n) (pending d), consume n d).

(** [f] decodes [enc] to [a], leaving whatever follows. *)
Definition reads {A} (f : decoder -> result error (A * decoder)) (enc : bytes) (a : A) : Prop :=
  forall d rest, dec_ok d -> pending d = enc ++ rest -> f d = Ok (a, consume (len enc) d).

(** [f] depends on the pending bytes only, whatever the mode; when it
    succeeds it has consumed at least [k] and at most all of them and its
    value satisfies [P]; it never runs out of fuel. *)
Class Reader {A} (k : Z) (P : A -> Prop) (f : decoder -> result error (A * decoder)) : Prop :=
  reader_spec : forall bs,
    (exists a n, P a /\ k <= n <= len bs /\
       forall d, dec_ok d -> pending d = bs -> f d = Ok (a, consume n d)) \/
    (forall d, dec_ok d -> pending d = bs -> exists e, f d = Err e /\ e <> ErrOutOfFuel).

(** Whenever [f] succeeds it has consumed an [e] that [R] relates to its
    value. *)
Definition accepts {A} (f : decoder -> result error (A * decoder)) (R : bytes -> A -> Prop) : Prop :=
  forall d a d', dec_ok d -> f d = Ok (a, d') ->
    exists e rest, pending d = e ++ rest /\ R e a /\ d' = consume (len e) d.

(** ** The MessagePack grammar

    [Value k b]: [b] is one well-formed MessagePack value whose elements
    nest at most [k] deep. [Values k n b]: [b] is [n] elements of such a
    value. *)

Definition atom_byte (c : Z) : Prop :=
  0 <= c <= 0x7f \/ 0xe0 <= c <= 0xff \/ c = 0xc0 \/ c = 0xc2 \/ c = 0xc3.

(** Formats of a fixed payload size. *)
Inductive fixed_payload : Z -> Z -> Prop :=
| fp_fixstr n : 0 <= n < 32 -> fixed_payload (0xa0 + n) n
| fp_8 c : c = 0xcc \/ c = 0xd0 -> fixed_payload c 1
| fp_16 c : c = 0xcd \/ c = 0xd1 -> fixed_payload c 2
| fp_32 c : c = 0xce \/ c = 0xd2 \/ c = 0xca -> fixed_payload c 4
| fp_64 c : c = 0xcf \/ c = 0xd3 \/ c = 0xcb -> fixed_payload c 8
| fp_ext i : 0 <= i <= 4 -> fixed_payload (0xd4 + i) (1 + 2 ^ i).

(** Formats that declare a payload size in [w] bytes; [extra] more bytes
    follow for the extension types. *)
Inductive sized_payload : Z -> nat -> Z -> Prop :=
| sp_8 c : c = 0xd9 \/ c = 0xc4 -> sized_payload c 1 0
| sp_16 c : c = 0xda \/ c = 0xc5 -> sized_payload c 2 0
| sp_32 c : c = 0xdb \/ c = 0xc6 -> sized_payload c 4 0
| sp_ext8 : sized_payload 0xc7 1 1
| sp_ext16 : sized_payload 0xc8 2 1
| sp_ext32 : sized_payload 0xc9 4 1.

(** Formats that declare a count in [w] bytes; a map entry is two values. *)
Inductive sized_container : Z -> nat -> Z -> Prop :=
| sc_array16 : sized_container 0xdc 2 1
| sc_array32 : sized_container 0xdd 4 1
| sc_map16 : sized_container 0xde 2 2
| sc_map32 : sized_container 0xdf 4 2.

Inductive Value : nat -> bytes -> Prop :=
| V_atom k c : atom_byte c -> Value k [z2b c]
| V_fixed k c n p : fixed_payload c n -> len p = n -> Value k (z2b c :: p)
| V_sized k c w extra n p :
    sized_payload c w extra -> 0 <= n < 256 ^ Z.of_nat w -> len p = n + extra ->
    Value k (z2b c :: be w n ++ p)
| V_fixmap k n b : 0 <= n < 16 -> Values k (2 * n) b -> Value k (z2b (0x80 + n) :: b)
| V_fixarray k n b : 0 <= n < 16 -> Values k n b -> Value k (z2b (0x90 + n) :: b)
| V_container k c w m n b :
    sized_container c w m -> 0 <= n < 256 ^ Z.of_nat w -> Values k (n * m) b ->
    Value k (z2b c :: be w n ++ b)
with Values : nat -> Z -> bytes -> Prop :=
| Vs_nil k : Values k 0 []
| Vs_cons k n v b :
    0 <= n -> Value k v -> Values (S k) n b -> Values (S k) (n + 1) (v ++ b).

Scheme Value_mut := Induction for Value Sort Prop
with Values_mut := Induction for Values Sort Prop.
Combined Scheme Value_Values_ind from Value_mut, Values_mut.

(** The header formats, as [skip] classifies them. *)
Inductive Header (c : Z) : bytes -> option (Z * Z) -> Prop :=
| H_atom : atom_byte c -> Header c [] None
| H_fixed n : fixed_payload c n -> Header c [] (Some (n, 0))
| H_sized w extra n :
    sized_payload c w extra -> 0 <= n < 256 ^ Z.of_nat w ->
    Header c (be w n) (Some (n + extra, 0))
| H_fixmap n : 0 <= n < 16 -> c = 0x80 + n -> Header c [] (Some (0, 2 * n))
| H_fixarray n : 0 <= n < 16 -> c = 0x90 + n -> Header c [] (Some (0, n))
| H_container w m n :
    sized_container c w m -> 0 <= n < 256 ^ Z.of_nat w ->
    Header c (be w n) (Some (0, n * m)).

(** ** Lemmas *)

(** *** Positions *)

Lemma len_pending_slice d :
  dec_ok d -> d_src d = None -> len (pending d) = len (d_buf d) - d_off d.
Proof.
  unfold dec_ok, pending. intros Hd E. rewrite E in *. rewrite len_drop; lia.
Qed.

Lemma Remaining_eq d :
  dec_ok d -> Remaining d = match d_src d with Some _ => -1 | None => len (pending d) end.
Proof.
  intros Hd. unfold Remaining. destruct (d_src d) eqn:E; [done|].
  by rewrite len_pending_slice.
Qed.

Lemma pending_consume n d :
  dec_ok d -> 0 <= n -> pending (consume n d) = drop (Z.to_nat n) (pending d).
Proof.
  unfold pending, consume, dec_ok. intros Hd Hn.
  destruct d as [b off [s|]]; cbn in *; [done|].
  rewrite drop_drop. f_equal. lia.
Qed.

Lemma dec_ok_consume n d :
  dec_ok d -> 0 <= n <= len (pending d) -> dec_ok (consume n d).
Proof.
  intros Hd Hn. destruct (d_src d) eqn:E.
  - unfold dec_ok, consume. by rewrite E.
  - rewrite len_pending_slice in Hn by done.
    unfold dec_ok, consume in *. rewrite E in *. cbn. rewrite E. lia.
Qed.

Lemma consume_consume n m d :
  0 <= n -> 0 <= m -> consume m (consume n d) = consume (n + m) d.
Proof.
  intros. unfold consume. destruct d as [b off [s|]]; cbn.
  - unfold set_src. cbn. rewrite drop_drop. do 4 f_equal. lia.
  - unfold set_off. cbn. f_equal. lia.
Qed.

Lemma consume_0 d : consume 0 d = d.
Proof.
  unfold consume. destruct d as [b off [[data err]|]]; cbn; [done|].
  unfold set_off. cbn. f_equal. lia.
Qed.

Lemma pending_consume_app d enc rest :
  dec_ok d -> pending d = enc ++ rest -> pending (consume (len enc) d) = rest.
Proof.
  intros Hd E. rewrite pending_consume, E by (done || apply len_nonneg).
  unfold len. by rewrite Nat2Z.id, drop_app_length.
Qed.

Lemma dec_ok_consume_app d enc rest :
  dec_ok d -> pending d = enc ++ rest -> dec_ok (consume (len enc) d).
Proof.
  intros Hd E. apply dec_ok_consume; [done|]. rewrite E, len_app.
  pose proof (len_nonneg enc). pose proof (len_nonneg rest). lia.
Qed.

(** *** The primitives *)

Lemma readByte_eq d :
  dec_ok d ->
  readByte d = match pending d with [] => Err (end_error d) | c :: _ => Ok (c, consume 1 d) end.
Proof.
  unfold dec_ok, readByte, pending, end_error, consume. intros Hd.
  destruct d as [b off [[data err]|]]; cbn in *.
  - by destruct data.
  - destruct (drop (Z.to_nat off) b) as [|c l] eqn:E.
    + apply (f_equal length) in E. rewrite length_drop in E. cbn in E.
      by rewrite lookup_ge_None_2 by lia.
    + apply (f_equal (lookup 0%nat)) in E. rewrite lookup_drop, Nat.add_0_r in E.
      by rewrite E.
Qed.

Lemma eofAsTruncated_full s :
  eofAsTruncated (match src_err s with
                  | EOF => if len (src_data s) =? 0 then EOF else ErrUnexpectedEOF
                  | e => e end) = eofAsTruncated (src_err s).
Proof. destruct s as [data []]; cbn; [by case_match|done..]. Qed.

Lemma ReadFull_stream d s n {B} (k : bytes -> B) :
  d_src d = Some s ->
  (let! (p, s') := rmap_err eofAsTruncated (ReadFull s n) in Ok (k p, set_src d s')) =
  (let! (p, d') := takeN n d in Ok (k p, d')).
Proof.
  intros E. unfold ReadFull, takeN, pending, end_error, consume. rewrite E.
  case_match; cbn; [by rewrite eofAsTruncated_full|done].
Qed.

Lemma slice_take d n {B} (k : bytes -> B) :
  dec_ok d -> d_src d = None -> 0 <= n ->
  (if len (d_buf d) - d_off d <? n then Err ErrTruncated
   else Ok (k (subslice (d_buf d) (d_off d) (d_off d + n)), set_off d (d_off d + n))) =
  (let! (p, d') := takeN n d in Ok (k p, d')).
Proof.
  intros Hd E Hn. unfold takeN. rewrite <- len_pending_slice by done.
  unfold end_error, consume, subslice, pending. rewrite E.
  replace (d_off d + n - d_off d) with n by lia. by case_match.
Qed.

Lemma slice_len_u64 d :
  dec_ok d -> d_src d = None -> u64 (len (d_buf d) - d_off d) = len (d_buf d) - d_off d.
Proof. intros Hd E. unfold dec_ok in Hd. rewrite E in Hd. apply u64_small. unfold_ints. lia. Qed.

Lemma readFixed_eq n d :
  dec_ok d -> 0 <= n -> readFixed n d = let! (p, d') := takeN n d in Ok (be_value p, d').
Proof.
  intros Hd Hn. unfold readFixed. destruct (d_src d) eqn:E.
  - by apply ReadFull_stream.
  - by apply slice_take.
Qed.

Lemma discard_eq n d :
  dec_ok d -> 0 <= n <= MaxInt64 -> discard n d = let! (_, d') := takeN n d in Ok (tt, d').
Proof.
  intros Hd Hn. unfold discard. destruct (d_src d) eqn:E.
  - rewrite Z.min_l by lia. by apply (ReadFull_stream _ _ _ (fun _ => tt)).
  - rewrite slice_len_u64 by done. apply (slice_take _ _ (fun _ => tt)); done || lia.
Qed.

Lemma streamChunk_eq : streamChunk = 65536.
Proof. done. Qed.

(** The chunked loop reads what one [ReadFull] would. *)
Lemma readIntoLoop_eq fuel n out cap s :
  (length (src_data s) < fuel)%nat -> len out <= cap <= n ->
  (readIntoLoop fuel n out cap s).2 =
    (if len out + len (src_data s) <? n then Err (eofAsTruncated (src_err s))
     else Ok (out ++ take (Z.to_nat (n - len out)) (src_data s),
              Source (drop (Z.to_nat (n - len out)) (src_data s)) (src_err s))).
Proof.
  revert out cap s. induction fuel as [|fuel IH]; intros out cap s Hf Hcap; [lia|].
  cbn [readIntoLoop]. destruct (Z.ltb_spec (len out) n) as [Hlt|Hge].
  2: { replace (Z.to_nat (n - len out)) with 0%nat by lia. rewrite drop_0, take_0, app_nil_r.
       pose proof (len_nonneg (src_data s)). rewrite (proj2 (Z.ltb_ge _ _)) by lia.
       by destruct s. }
  set (cap' := if len out =? cap then _ else cap).
  assert (Hc' : len out < cap' <= n).
  { unfold cap'. destruct (Z.eqb_spec (len out) cap); pose proof streamChunk_eq; lia. }
  unfold ReadFull. rewrite Z.min_l by lia.
  destruct (Z.ltb_spec (len (src_data s)) (cap' - len out)) as [Hs|Hs].
  - cbn. rewrite eofAsTruncated_full. rewrite (proj2 (Z.ltb_lt _ _)) by lia. done.
  - set (t := Z.to_nat (cap' - len out)).
    assert (Ht : len (take t (src_data s)) = cap' - len out) by (apply len_take; lia).
    assert (Hd : len (drop t (src_data s)) = len (src_data s) - (cap' - len out))
      by (apply len_drop; lia).
    rewrite IH; cbn [src_data src_err].
    + rewrite len_app, Ht, Hd.
      replace (len out + (cap' - len out) + (len (src_data s) - (cap' - len out)))
        with (len out + len (src_data s)) by lia.
      case_match; [done|]. rewrite drop_drop, <- app_assoc, take_take_drop.
      do 3 f_equal; [|f_equal]; f_equal; lia.
    + rewrite length_drop. unfold len in *. lia.
    + rewrite len_app, Ht. lia.
Qed.

Lemma readIntoLoop_cap fuel n out cap s :
  cap <= 2 * len out + streamChunk ->
  (readIntoLoop fuel n out cap s).1 <= 2 * (len out + len (src_data s)) + streamChunk.
Proof.
  revert out cap s. induction fuel as [|fuel IH]; intros out cap s Hcap;
    cbn [readIntoLoop]; pose proof (len_nonneg (src_data s)); pose proof (len_nonneg out);
    (destruct (len out <? n); [|cbn; lia]); [cbn; lia|].
  set (cap' := if len out =? cap then _ else cap).
  assert (Hc' : cap' <= 2 * len out + streamChunk) by (unfold cap'; pose proof streamChunk_eq; destruct (len out =? cap); lia).
  unfold ReadFull. destruct (Z.ltb_spec (len (src_data s)) (Z.min cap' n - len out)); [cbn; lia|].
  set (t := Z.to_nat (Z.min cap' n - len out)).
  assert (Hs : len (src_data s) = len (take t (src_data s)) + len (drop t (src_data s)))
    by (rewrite <- len_app; by rewrite take_drop).
  pose proof (len_nonneg (take t (src_data s))).
  etrans; [apply IH|]; cbn [src_data]; rewrite len_app; lia.
Qed.

Lemma readInto_eq n d : dec_ok d -> 0 <= n -> readInto n d = takeN n d.
Proof.
  intros Hd Hn. unfold readInto. destruct (d_src d) as [s|] eqn:E.
  - unfold readIntoStream. rewrite readIntoLoop_eq; [|lia|rewrite len_nil; pose proof streamChunk_eq; lia].
    unfold takeN, pending, end_error, consume. rewrite E, len_nil, Z.add_0_l, Z.sub_0_r.
    by case_match.
  - rewrite (slice_take d n (fun p => p)) by done. by destruct (takeN n d) as [[]|].
Qed.

#[global] Arguments readByte : simpl never.
#[global] Arguments readFixed : simpl never.
#[global] Arguments readInto : simpl never.
#[global] Arguments takeN : simpl never.
#[global] Arguments consume : simpl never.
#[global] Arguments be : simpl never.
#[global] Arguments be_value : simpl never.

(** *** Composing readers *)

Lemma reader_ext {A} k P (f g : decoder -> result error (A * decoder)) :
  (forall d, dec_ok d -> f d = g d) -> Reader k P g -> Reader k P f.
Proof.
  intros Hfg Hg bs. destruct (Hg bs) as [(a & n & HP & Hn & H)|H].
  - left. exists a, n. split_and!; [done|lia..|]. intros d Hd E. rewrite Hfg by done. by apply H.
  - right. intros d Hd E. rewrite Hfg by done. by apply H.
Qed.

Lemma reader_weaken {A} k k' (P Q : A -> Prop) f :
  Reader k P f -> k' <= k -> (forall a, P a -> Q a) -> Reader k' Q f.
Proof.
  intros Hf Hk HPQ bs. destruct (Hf bs) as [(a & n & HP & Hn & H)|H]; [left|by right].
  exists a, n. split_and!; [by apply HPQ|lia..|done].
Qed.

Lemma reader_ret {A} (a : A) k (P : A -> Prop) : k <= 0 -> P a -> Reader k P (fun d => Ok (a, d)).
Proof.
  intros Hk HP bs. left. exists a, 0. split_and!; [done|lia|apply len_nonneg|].
  intros d _ _. by rewrite consume_0.
Qed.

Lemma reader_err {A} e k (P : A -> Prop) : e <> ErrOutOfFuel -> Reader k P (fun _ => Err e).
Proof. intros He bs. right. eauto. Qed.

Lemma reader_if {A} (b : bool) k (P : A -> Prop) f g :
  (b = true -> Reader k P f) -> (b = false -> Reader k P g) ->
  Reader k P (fun d => if b then f d else g d).
Proof. destruct b; auto. Qed.

Lemma reader_bind {A B} k1 k2 k (P : A -> Prop) (Q : B -> Prop) f g :
  Reader k1 P f -> (forall a, P a -> Reader k2 Q (g a)) -> 0 <= k1 -> 0 <= k2 -> k <= k1 + k2 ->
  Reader k Q (fun d => let! (a, d) := f d in g a d).
Proof.
  intros Hf Hg Hk1 Hk2 Hk bs.
  destruct (Hf bs) as [(a & n & HP & Hn & H)|H].
  - set (bs' := drop (Z.to_nat n) bs).
    assert (Hbs' : len bs' = len bs - n) by (apply len_drop; lia).
    assert (Hpos : forall d, dec_ok d -> pending d = bs ->
              dec_ok (consume n d) /\ pending (consume n d) = bs').
    { intros d Hd E. split; [apply dec_ok_consume; rewrite ?E; [done|lia]|].
      rewrite pending_consume, E by (done || lia). done. }
    destruct (Hg a HP bs') as [(b & m & HQ & Hm & H')|H'].
    + left. exists b, (n + m). split_and!; [done|lia..|]. intros d Hd E.
      destruct (Hpos d Hd E). rewrite H by done. cbn. rewrite H' by done.
      by rewrite consume_consume by lia.
    + right. intros d Hd E. destruct (Hpos d Hd E). rewrite H by done. cbn. by apply H'.
  - right. intros d Hd E. destruct (H d Hd E) as (e & -> & He). by exists e.
Qed.

#[global] Instance reader_takeN n : 0 <= n -> Reader n (fun p => len p = n) (takeN n).
Proof.
  intros Hn bs. unfold takeN. destruct (Z.ltb_spec (len bs) n).
  - right. intros d _ ->. rewrite (proj2 (Z.ltb_lt _ _)) by done. exists (end_error d). split; [done|].
    unfold end_error. destruct (d_src d) as [[? []]|]; done.
  - left. exists (take (Z.to_nat n) bs), n. split_and!; [by apply len_take|lia..|].
    intros d _ ->. by rewrite (proj2 (Z.ltb_ge _ _)).
Qed.

Lemma end_error_fuel d : end_error d <> ErrOutOfFuel.
Proof. unfold end_error. by destruct (d_src d) as [[? []]|]. Qed.

#[global] Instance reader_byte : Reader 1 (fun _ => True) readByte.
Proof.
  intros [|c bs].
  - right. intros d Hd E. rewrite readByte_eq, E by done. eauto using end_error_fuel.
  - left. exists c, 1. split_and!; [done|lia|rewrite len_cons; pose proof (len_nonneg bs); lia|].
    intros d Hd E. by rewrite readByte_eq, E.
Qed.

#[global] Instance reader_fixed n :
  0 <= n <= 8 -> Reader n (fun v => 0 <= v < 256 ^ n) (readFixed n).
Proof.
  intros Hn. apply (reader_ext _ _ _ (fun d => let! (p, d') := takeN n d in Ok (be_value p, d'))).
  { intros d Hd. apply readFixed_eq; [done|lia]. }
  eapply (reader_bind n 0 n); [apply reader_takeN; lia| |lia..].
  intros p <-. apply reader_ret; [done|]. apply be_value_range. unfold len in Hn. lia.
Qed.

#[global] Instance reader_into n : 0 <= n -> Reader n (fun p => len p = n) (readInto n).
Proof.
  intros Hn. eapply reader_ext; [|by apply reader_takeN]. intros. by apply readInto_eq.
Qed.

#[global] Instance reader_discard n :
  0 <= n <= MaxInt64 -> Reader n (fun _ => True) (discard n).
Proof.
  intros Hn. eapply reader_ext; [intros; by apply discard_eq|].
  eapply (reader_bind n 0 n); [apply reader_takeN; lia| |lia..].
  intros p _. by apply reader_ret.
Qed.

(** *** The decoder's readers *)

(** Decompose a reader: branches, returns, errors and binds whose first
    half is a known [Reader]. *)
Ltac reader_step :=
  cbv beta zeta;
  lazymatch goal with
  | |- Reader _ _ (fun _ => if _ then _ else _) => apply reader_if; intros ?
  | |- Reader _ _ (fun _ => Err _) => apply reader_err; done
  | |- Reader _ _ (fun d => Ok (_, d)) => apply reader_ret; [lia|]
  | |- Reader _ _ (fun _ => rbind _ _) => eapply (reader_bind _ 0); [typeclasses eauto| |lia..]; intros
  end.

(** A fixed-width count of at most four bytes. *)
#[local] Instance reader_fixed4 n : 0 <= n <= 4 -> Reader n (fun v => 0 <= v < 4294967296) (readFixed n).
Proof.
  intros Hn. eapply reader_weaken; [apply reader_fixed; lia|lia|]. cbn.
  intros v Hv. split; [lia|]. eapply Z.lt_le_trans; [apply Hv|].
  change 4294967296 with (256 ^ 4). apply Z.pow_le_mono_r; lia.
Qed.

Lemma land_low_range c w : 0 <= w -> 0 <= Z.land c (Z.ones w) < 2 ^ w.
Proof. intros. rewrite Z.land_ones by done. apply Z.mod_pos_bound. lia. Qed.

#[global] Instance reader_rawLen want :
  Reader 1 (fun '(n, isNil) => 0 <= n < 4294967296 /\ (isNil = true -> n = 0)) (rawLen want).
Proof.
  unfold rawLen. repeat reader_step.
  - pose proof (land_low_range (b2z a) 5 ltac:(lia)). change (Z.ones 5) with 0x1f in *. lia.
  - lia.
  - eapply (reader_bind 0 0 0 (fun n => 0 <= n < 4294967296)); [|intros n Hn|lia..].
    + repeat reader_step.
      all: eapply reader_weaken; [apply reader_fixed4; lia|lia|done].
    + apply reader_ret; lia.
Qed.

(** Taking [n] bytes through [ReadString]'s and [ReadKey]'s own branches. *)
Lemma takeN_branches n d {B} (k : bytes -> B) (r : result error (B * decoder)) :
  dec_ok d -> 0 <= n ->
  (d_src d <> None -> r = let! (p, d') := takeN n d in Ok (k p, d')) ->
  match d_src d with
  | None =>
      if u64 (len (d_buf d) - d_off d) <? n then Err ErrTruncated
      else Ok (k (subslice (d_buf d) (d_off d) (d_off d + n)), set_off d (d_off d + n))
  | Some _ => r
  end = let! (p, d') := takeN n d in Ok (k p, d').
Proof.
  intros Hd Hn Hr. destruct (d_src d) eqn:E; [by apply Hr|].
  rewrite slice_len_u64 by done. by apply slice_take.
Qed.

Lemma reader_takeN_map {B} n (k : bytes -> B) (P : B -> Prop) :
  0 <= n -> (forall p, len p = n -> P (k p)) ->
  Reader 0 P (fun d => let! (p, d') := takeN n d in Ok (k p, d')).
Proof.
  intros Hn HP. eapply (reader_bind n 0); [by apply reader_takeN| |lia..].
  intros p Hp. apply reader_ret; [done|]. by apply HP.
Qed.

#[global] Instance reader_ReadBytes limit :
  0 <= limit <= MaxInt64 ->
  Reader 1 (fun s => len (slice_bytes s) <= limit) (ReadBytes limit).
Proof.
  intros Hl. unfold ReadBytes. reader_step. destruct a as [n isNil]. destruct H as [Hn _].
  assert (Hu : u64 limit = limit) by (apply u64_small; unfold_ints; lia). rewrite Hu.
  repeat reader_step; [change (0 <= limit); lia..|].
  eapply reader_ext; [intros d Hd; by rewrite readInto_eq by (done || lia)|].
  apply reader_takeN_map; [lia|]. cbn [slice_bytes]. lia.
Qed.

#[global] Instance reader_ReadString limit :
  0 <= limit <= MaxInt64 ->
  Reader 1 (fun s => len (str2b s) <= limit) (ReadString limit).
Proof.
  intros Hl. unfold ReadString. reader_step. destruct a as [n isNil]. destruct H as [Hn _].
  assert (Hu : u64 limit = limit) by (apply u64_small; unfold_ints; lia). rewrite Hu.
  repeat reader_step; [change (0 <= limit); lia|].
  eapply reader_ext.
  { intros d Hd. apply takeN_branches; [done|lia|]. intros _. by rewrite readInto_eq by (done || lia). }
  apply reader_takeN_map; [lia|]. intros p Hp. rewrite str2b_b2str. lia.
Qed.

#[global] Instance reader_ReadKey :
  Reader 1 (fun s => len (slice_bytes s) <= maxKeyLen) ReadKey.
Proof.
  unfold ReadKey. reader_step. destruct a as [n isNil]. destruct H as [Hn _].
  repeat reader_step; [done|..].
  - eapply (reader_bind n 0); [apply reader_discard; unfold_ints; lia| |lia..].
    intros _ _. apply reader_ret; [lia|]. done.
  - apply (reader_ext _ _ _ (fun d => let! (p, d') := takeN n d in Ok (Some p, d'))).
    { intros d Hd. destruct (d_src d) eqn:E; [by apply (ReadFull_stream _ _ _ Some)|].
      rewrite slice_len_u64 by done. apply (slice_take _ _ Some); done || lia. }
    apply reader_takeN_map; [lia|]. cbn [slice_bytes]. lia.
Qed.

#[global] Instance reader_readInteger want :
  Reader 1 (fun '(v, neg) => 0 <= v < 18446744073709551616 /\ (neg = true -> i64 v < 0)) (readInteger want).
Proof.
  unfold readInteger. eapply (reader_bind _ 0); [typeclasses eauto| |lia..]. intros cb _.
  pose proof (b2z_range cb).
  repeat (reader_step || (eapply (reader_bind _ 0); [apply reader_fixed; lia| |lia..]; intros));
    unfold posFixintMax, negFixintMin in *; ints.
Qed.

#[global] Instance reader_ReadUint limit :
  Reader 1 (fun v => 0 <= v <= limit) (ReadUint limit).
Proof. unfold ReadUint. reader_step. destruct a as [v neg]. repeat reader_step. lia. Qed.

#[global] Instance reader_ReadInt lo hi : Reader 1 (fun v => lo <= v <= hi) (ReadInt lo hi).
Proof. unfold ReadInt. reader_step. destruct a as [v neg]. repeat reader_step. lia. Qed.

#[global] Instance reader_ReadBool : Reader 1 (fun _ => True) ReadBool.
Proof. unfold ReadBool. by repeat reader_step. Qed.

(** *** Counted loops *)

(** A loop whose body consumes at least [k >= 1] bytes per round either
    fails on these bytes in every mode or succeeds having consumed at
    least [n * k] of them. *)
Lemma repeatR_reader {A} k (P : A -> Prop) (f : A -> decoder -> result error (A * decoder)) :
  1 <= k -> (forall a, P a -> Reader k P (f a)) ->
  forall fuel n a bs, P a -> (length bs < fuel)%nat ->
  (exists a' m, P a' /\ Z.max 0 n * k <= m <= len bs /\
     forall d, dec_ok d -> pending d = bs -> repeatR f fuel n a d = Ok (a', consume m d)) \/
  (forall d, dec_ok d -> pending d = bs -> exists e, repeatR f fuel n a d = Err e /\ e <> ErrOutOfFuel).
Proof.
  intros Hk Hf. induction fuel as [|fuel IH]; intros n a bs Ha Hfuel; [lia|].
  cbn [repeatR]. destruct (Z.leb_spec n 0).
  { left. exists a, 0. split_and!; [done|lia|apply len_nonneg|]. intros. by rewrite consume_0. }
  destruct (Hf a Ha bs) as [(a1 & m1 & Ha1 & Hm1 & H1)|H1].
  2: { right. intros d Hd E. destruct (H1 d Hd E) as (e & -> & He). by exists e. }
  set (bs' := drop (Z.to_nat m1) bs).
  assert (Hbs' : len bs' = len bs - m1) by (apply len_drop; lia).
  destruct (IH (n - 1) a1 bs' Ha1) as [(a2 & m2 & Ha2 & Hm2 & H2)|H2]; [unfold len in *; lia|..].
  - left. exists a2, (m1 + m2). split_and!; [done|nia|lia|]. intros d Hd E.
    rewrite H1 by done. cbn. rewrite H2.
    + by rewrite consume_consume by lia.
    + apply dec_ok_consume; rewrite ?E; [done|lia].
    + by rewrite pending_consume, E by (done || lia).
  - right. intros d Hd E. rewrite H1 by done. cbn. apply H2.
    + apply dec_ok_consume; rewrite ?E; [done|lia].
    + by rewrite pending_consume, E by (done || lia).
Qed.

(** The early check against the remaining input, which only slice mode
    can make, refuses nothing the loop would accept. *)
Lemma reader_counted {A} k (P : A -> Prop) (f : A -> decoder -> result error (A * decoder)) n a :
  1 <= k -> 0 <= n -> P a -> (forall a, P a -> Reader k P (f a)) ->
  Reader 0 P (fun d =>
    if (Remaining d >=? 0) && (n >? Remaining d / k) then Err ErrTruncated
    else repeatR f (S (length (pending d))) n a d).
Proof.
  intros Hk Hn Ha Hf bs.
  destruct (repeatR_reader k P f Hk Hf (S (length bs)) n a bs Ha ltac:(lia))
    as [(a' & m & Ha' & Hm & H)|H].
  - left. exists a', m. split_and!; [done|lia..|]. intros d Hd E. rewrite Remaining_eq, E by done.
    assert (n <= len bs / k) by (apply Z.div_le_lower_bound; lia).
    destruct (d_src d); [by apply H|].
    rewrite (proj2 (andb_false_iff _ _)) by lia. by apply H.
  - right. intros d Hd E. rewrite E. case_match; [by exists ErrTruncated|]. by apply H.
Qed.

#[local] Instance reader_skipHeader c :
  0 <= c < 256 ->
  Reader 0 (fun h => match h with
                     | Some (n, elems) => 0 <= n <= 4294967296 /\ 0 <= elems
                     | None => True
                     end) (skipHeader c).
Proof.
  intros Hc. unfold skipHeader.
  pose proof (land_low_range c 4 ltac:(lia)). change (Z.ones 4) with 0x0f in *.
  pose proof (land_low_range c 5 ltac:(lia)). change (Z.ones 5) with 0x1f in *.
  repeat (reader_step || (eapply (reader_bind _ 0); [apply reader_fixed4; lia| |lia..]; intros)).
  all: repeat match goal with Hb : _ = false |- _ => clear Hb end.
  all: cbv beta in *; rewrite ?u64_small by lia; try done; try lia.
  unfold fixext1, fixext16 in *.
  assert (0 < 2 ^ (c - 0xd4) <= 2 ^ 4) by (split; [lia|apply Z.pow_le_mono_r; lia]).
  rewrite Z.shiftl_mul_pow2 by lia. lia.
Qed.

#[global] Instance reader_skip levels : Reader 1 (fun _ => True) (skip levels).
Proof.
  induction levels as [|levels IH]; cbn [skip]; [by apply reader_err|].
  eapply (reader_bind _ 0); [typeclasses eauto| |lia..]. intros cb _. pose proof (b2z_range cb).
  eapply (reader_bind 0 0); [by apply reader_skipHeader| |lia..].
  intros [[n elems]|]; [|intros _; by apply reader_ret]. intros [Hn He].
  apply reader_if; intros.
  - eapply reader_weaken; [apply reader_discard; unfold_ints; lia|lia|done].
  - eapply reader_ext.
    2: by apply (reader_counted 1 (fun _ => True) (fun _ => skip levels) elems tt).
    intros d Hd. cbv beta. by rewrite Z.div_1_r.
Qed.

#[global] Instance reader_Skip : Reader 1 (fun _ => True) Skip.
Proof. apply reader_skip. Qed.

(** *** Decoding what was encoded *)

Lemma reads_ext {A} f g e (a : A) :
  (forall d, dec_ok d -> f d = g d) -> reads g e a -> reads f e a.
Proof. intros Hfg Hg d rest Hd E. rewrite Hfg by done. by eapply Hg. Qed.

Lemma reads_ret {A} (a : A) : reads (fun d => Ok (a, d)) [] a.
Proof. intros d rest Hd E. by rewrite consume_0. Qed.

Lemma reads_bind {A B} f (g : A -> decoder -> result error (B * decoder)) e1 e2 a b :
  reads f e1 a -> reads (g a) e2 b ->
  reads (fun d => let! (a, d) := f d in g a d) (e1 ++ e2) b.
Proof.
  intros Hf Hg d rest Hd E. rewrite <- app_assoc in E.
  rewrite (Hf d (e2 ++ rest)) by done. cbn [rbind].
  rewrite (Hg _ rest).
  - by rewrite consume_consume, len_app by apply len_nonneg.
  - by eapply dec_ok_consume_app.
  - by eapply pending_consume_app.
Qed.

Lemma reads_last {A B} f (g : A -> decoder -> result error (B * decoder)) e a b :
  reads f e a -> reads (g a) [] b -> reads (fun d => let! (a, d) := f d in g a d) e b.
Proof. intros. rewrite <- (app_nil_r e). by eapply reads_bind. Qed.

Lemma reads_byte c : reads readByte [c] c.
Proof. intros d rest Hd E. by rewrite readByte_eq, E. Qed.

Lemma reads_cons {B} (g : byte -> decoder -> result error (B * decoder)) c e b :
  reads (g c) e b -> reads (fun d => let! (c, d) := readByte d in g c d) (c :: e) b.
Proof. intros. change (c :: e) with ([c] ++ e). eapply reads_bind; [apply reads_byte|done]. Qed.

Lemma reads_takeN p : reads (takeN (len p)) p p.
Proof.
  intros d rest Hd E. unfold takeN. rewrite E, len_app.
  pose proof (len_nonneg rest). rewrite (proj2 (Z.ltb_ge _ _)) by lia.
  unfold len. by rewrite Nat2Z.id, take_app_length.
Qed.

Lemma reads_into p : reads (readInto (len p)) p p.
Proof.
  eapply reads_ext; [|apply reads_takeN]. intros. apply readInto_eq; [done|apply len_nonneg].
Qed.

Lemma reads_fixed n w v :
  w = Z.of_nat n -> (n <= 8)%nat -> reads (readFixed w) (be n v) (v mod 256 ^ w).
Proof.
  intros -> Hn.
  eapply reads_ext; [intros; apply readFixed_eq; [done|lia]|]. cbv beta.
  rewrite <- (be_value_be n v) by done. eapply reads_last.
  - rewrite <- (len_be n v). apply reads_takeN.
  - apply reads_ret.
Qed.

(** Evaluate the closed tests of a dispatch on a format byte. *)
Ltac eval_ifs :=
  repeat match goal with
  | |- context [if ?b then _ else _] =>
      let r := eval vm_compute in b in
      lazymatch r with
      | true => change b with true
      | false => change b with false
      end; cbv iota
  end.

(** Decide the tests of a dispatch by arithmetic. *)
Ltac lia_ifs :=
  repeat match goal with
  | |- context [if ?b then _ else _] =>
      first [replace b with true by lia | replace b with false by lia]; cbv iota
  end.

Ltac open_formats :=
  unfold posFixintMax, fixmapMin, fixmapMax, fixstrMin, fixstrMax, nilByte, negFixintMin,
    str8, bin8, str16, bin16, str32, bin32, map16, map32 in *.

Lemma AppendUint_app b v : AppendUint b v = b ++ AppendUint [] v.
Proof. unfold AppendUint. repeat case_match; by rewrite ?app_nil_l, <- ?app_assoc. Qed.
Lemma AppendInt_app b v : AppendInt b v = b ++ AppendInt [] v.
Proof. unfold AppendInt. repeat case_match; by rewrite ?app_nil_l, <- ?app_assoc. Qed.
Lemma appendRawHeader_app b n : appendRawHeader b n = b ++ appendRawHeader [] n.
Proof. unfold appendRawHeader. repeat case_match; by rewrite ?app_nil_l, <- ?app_assoc. Qed.
Lemma AppendString_app b s : AppendString b s = b ++ AppendString [] s.
Proof. unfold AppendString. rewrite appendRawHeader_app. by rewrite <- app_assoc. Qed.
Lemma AppendBytes_app b p : AppendBytes b p = b ++ AppendBytes [] p.
Proof.
  unfold AppendBytes, AppendNil. destruct p; [|done].
  rewrite appendRawHeader_app. by rewrite <- app_assoc.
Qed.
Lemma AppendBool_app b v : AppendBool b v = b ++ AppendBool [] v.
Proof. by destruct v. Qed.
Lemma AppendMapHeader_app b n : AppendMapHeader b n = b ++ AppendMapHeader [] n.
Proof. unfold AppendMapHeader. repeat case_match; by rewrite ?app_nil_l, <- ?app_assoc. Qed.

(** Read a fixed-width field that ends the value. *)
Lemma reads_fixed_last {B} n w x b (k : Z -> B) :
  w = Z.of_nat n -> (n <= 8)%nat -> k (x mod 256 ^ w) = b ->
  reads (fun d => let! (v, d) := readFixed w d in Ok (k v, d)) (be n x) b.
Proof.
  intros Hw Hn <-. eapply reads_last; [by apply reads_fixed|apply reads_ret].
Qed.

Lemma reads_readInteger_uint want v :
  0 <= v <= MaxUint64 -> reads (readInteger want) (AppendUint [] v) (v, false).
Proof.
  intros Hv. unfold AppendUint, readInteger. cbn [app].
  repeat case_match; apply reads_cons; cbv zeta; open_formats.
  { rewrite b2z_z2b_small by lia. lia_ifs. apply reads_ret. }
  1: change [z2b v] with (be 1 v).
  all: eval_ifs; apply (reads_fixed_last _ _ _ _ (fun v => (v, false))); [done|lia|]; f_equal; ints.
Qed.

Lemma reads_readInteger_int want v :
  MinInt64 <= v <= MaxInt64 -> reads (readInteger want) (AppendInt [] v) (u64 v, v <? 0).
Proof.
  intros Hv. unfold AppendInt, readInteger. cbn [app].
  assert (Hi16 : MinInt16 <= v <= MaxInt16 -> i16 (u16 v mod 256 ^ 2) = v) by ints.
  assert (Hi32 : MinInt32 <= v <= MaxInt32 -> i32 (u32 v mod 256 ^ 4) = v) by ints.
  assert (Hi64 : u64 v mod 256 ^ 8 = u64 v /\ i64 (u64 v) = v) by ints.
  repeat case_match; apply reads_cons; cbv zeta; open_formats.
  4: { rewrite b2z_z2b. destruct (Z.ltb_spec v 0).
       - replace (v mod 256) with (v + 256) by ints. unfold_ints. lia_ifs.
         replace ((v + 256 + 128) mod 256 - 128) with v by ints. apply reads_ret.
       - rewrite Z.mod_small, (u64_small v) by (unfold_ints; lia).
         unfold_ints. lia_ifs. apply reads_ret. }
  4: change [z2b v] with (be 1 v).
  all: eval_ifs.
  all: first [apply (reads_fixed_last _ _ _ _ (fun v => (u64 (i8 v), i8 v <? 0)))
             |apply (reads_fixed_last _ _ _ _ (fun v => (u64 (i16 v), i16 v <? 0)))
             |apply (reads_fixed_last _ _ _ _ (fun v => (u64 (i32 v), i32 v <? 0)))
             |apply (reads_fixed_last _ _ _ _ (fun v => (v, i64 v <? 0)))]; [done|lia|].
  4: by replace (i8 (v mod 256 ^ 1)) with v by ints.
  all: by rewrite ?Hi16, ?Hi32, ?(proj1 Hi64), ?(proj2 Hi64) by (unfold_ints; lia).
Qed.

(** The readers on any encoding of an integer or of a length. *)
Lemma reads_ReadUint_of limit v e :
  reads (readInteger "unsigned integer") e (v, false) -> v <= limit -> reads (ReadUint limit) e v.
Proof.
  intros He Hv. unfold ReadUint. eapply reads_last; [exact He|].
  cbn beta iota. lia_ifs. apply reads_ret.
Qed.

Lemma reads_ReadInt_of lo hi v e :
  reads (readInteger "signed integer") e (u64 v, v <? 0) -> lo <= v <= hi -> MinInt64 <= v <= MaxInt64 ->
  reads (ReadInt lo hi) e v.
Proof.
  intros He Hv Hm. unfold ReadInt. eapply reads_last; [exact He|].
  cbn beta iota zeta.
  replace (negb (v <? 0) && (u64 v >? MaxInt64)) with false.
  2: { destruct (Z.ltb_spec v 0); [done|]. rewrite u64_small by ints. cbn. lia. }
  replace (i64 (u64 v)) with v by ints. lia_ifs. apply reads_ret.
Qed.

Lemma reads_ReadUint limit v :
  0 <= v <= limit -> v <= MaxUint64 -> reads (ReadUint limit) (AppendUint [] v) v.
Proof. intros Hv Hm. apply reads_ReadUint_of; [apply reads_readInteger_uint|]; lia. Qed.

Lemma reads_ReadInt lo hi v :
  lo <= v <= hi -> MinInt64 <= v <= MaxInt64 -> reads (ReadInt lo hi) (AppendInt [] v) v.
Proof. intros Hv Hm. by apply reads_ReadInt_of; [apply reads_readInteger_int|..]. Qed.

Lemma reads_ReadBool v : reads ReadBool (AppendBool [] v) v.
Proof. unfold ReadBool. destruct v; apply reads_cons; cbv zeta; eval_ifs; apply reads_ret. Qed.

Lemma reads_rawLen want n :
  0 <= n < 4294967296 -> reads (rawLen want) (appendRawHeader [] n) (n, false).
Proof.
  intros Hn. unfold rawLen, appendRawHeader. cbn [app].
  repeat case_match; apply reads_cons; cbv zeta; open_formats.
  { change 0xa0 with (5 * 2 ^ 5). rewrite lor_low_bits, b2z_z2b_small by lia. lia_ifs.
    change 0x1f with (Z.ones 5). rewrite Z.land_ones by lia.
    replace ((5 * 2 ^ 5 + n) mod 2 ^ 5) with n by ints. apply reads_ret. }
  all: eval_ifs; apply (reads_fixed_last _ _ _ _ (fun n => (n, false))); [done|lia|]; f_equal; ints.
Qed.

Lemma reads_rawLen_nil want : reads (rawLen want) (AppendNil []) (0, true).
Proof. apply reads_cons. cbv zeta. eval_ifs. apply reads_ret. Qed.

Lemma reads_ReadBytes_of limit h p :
  reads (rawLen "bytes") h (len p, false) -> len p <= limit <= MaxInt64 ->
  reads (ReadBytes limit) (h ++ p) (Some p).
Proof.
  intros Hh Hl. unfold ReadBytes. pose proof (len_nonneg p).
  eapply reads_bind; [exact Hh|]. cbn beta iota.
  rewrite u64_small by ints. replace (len p >? limit) with false by lia.
  destruct (Z.eqb_spec (len p) 0) as [E|_].
  - rewrite (len_0_nil _ E). apply reads_ret.
  - eapply reads_last; [apply reads_into|]. apply reads_ret.
Qed.

Lemma reads_ReadBytes_nil limit : reads (ReadBytes limit) (AppendNil []) None.
Proof. eapply reads_last; [apply reads_rawLen_nil|]. apply reads_ret. Qed.

Lemma reads_ReadBytes limit p :
  len (slice_bytes p) <= limit <= MaxInt64 -> len (slice_bytes p) < 4294967296 ->
  reads (ReadBytes limit) (AppendBytes [] p) p.
Proof.
  intros Hl Hp. destruct p as [p|]; cbn [AppendBytes slice_bytes] in *; [|apply reads_ReadBytes_nil].
  pose proof (len_nonneg p). apply reads_ReadBytes_of; [apply reads_rawLen|]; lia.
Qed.

Lemma reads_ReadString_of limit h s :
  reads (rawLen "string") h (len (str2b s), false) -> len (str2b s) <= limit <= MaxInt64 ->
  reads (ReadString limit) (h ++ str2b s) s.
Proof.
  intros Hh Hl. unfold ReadString. pose proof (len_nonneg (str2b s)).
  eapply reads_bind; [exact Hh|]. cbn beta iota. rewrite orb_false_l.
  rewrite u64_small by ints. replace (len (str2b s) >? limit) with false by lia.
  destruct (Z.eqb_spec (len (str2b s)) 0) as [E|_].
  - apply len_0_nil in E. rewrite E. rewrite <- (b2str_str2b s), E. apply reads_ret.
  - eapply reads_ext.
    { intros d Hd. apply takeN_branches; [done|lia|]. intros _. by rewrite readInto_eq. }
    eapply reads_last; [apply reads_takeN|]. cbv beta. rewrite b2str_str2b. apply reads_ret.
Qed.

Lemma reads_ReadString_nil limit : reads (ReadString limit) (AppendNil []) ""%string.
Proof. eapply reads_last; [apply reads_rawLen_nil|]. apply reads_ret. Qed.

Lemma reads_ReadString limit s :
  len (str2b s) <= limit <= MaxInt64 -> len (str2b s) < 4294967296 ->
  reads (ReadString limit) (AppendString [] s) s.
Proof.
  intros Hl Hs. pose proof (len_nonneg (str2b s)). apply reads_ReadString_of; [apply reads_rawLen|]; lia.
Qed.

Lemma reads_ReadKey_of h k :
  reads (rawLen "map key") h (len k, false) -> len k <= MaxInt64 ->
  reads ReadKey (h ++ k) (if len k <=? maxKeyLen then Some k else None).
Proof.
  intros Hh Hl. unfold ReadKey. pose proof (len_nonneg k). eapply reads_bind; [exact Hh|]. cbn beta iota.
  destruct (Z.leb_spec (len k) maxKeyLen).
  - replace (len k >? maxKeyLen) with false by lia.
    apply (reads_ext _ (fun d => let! (p, d) := takeN (len k) d in Ok (Some p, d))).
    + intros d Hd. destruct (d_src d) eqn:E; [by apply (ReadFull_stream _ _ _ Some)|].
      rewrite slice_len_u64 by done. by apply (slice_take _ _ Some).
    + eapply reads_last; [apply reads_takeN|apply reads_ret].
  - replace (len k >? maxKeyLen) with true by lia.
    eapply reads_last; [|apply reads_ret].
    apply (reads_ext _ (fun d => let! (_, d) := takeN (len k) d in Ok (tt, d))); [intros d Hd; apply discard_eq; [done|lia]|].
    eapply reads_last; [apply reads_takeN|apply reads_ret].
Qed.

Lemma reads_ReadKey s :
  len (str2b s) <= maxKeyLen -> reads ReadKey (AppendString [] s) (Some (str2b s)).
Proof.
  intros Hl. pose proof (len_nonneg (str2b s)). unfold AppendString.
  replace (Some (str2b s)) with (if len (str2b s) <=? maxKeyLen then Some (str2b s) else None)
    by (by rewrite (proj2 (Z.leb_le _ _))).
  unfold maxKeyLen in Hl. apply reads_ReadKey_of; [apply reads_rawLen|unfold MaxInt64]; lia.
Qed.

Lemma reads_ReadMapHeader_fix n :
  0 <= n < 16 -> reads ReadMapHeader (AppendMapHeader [] n) n.
Proof.
  intros Hn. unfold ReadMapHeader, AppendMapHeader. rewrite (proj2 (Z.ltb_lt n 16)) by lia.
  apply reads_cons. cbv zeta. open_formats.
  change 0x80 with (8 * 2 ^ 4). rewrite lor_low_bits, b2z_z2b_small by lia. lia_ifs.
  change 0x0f with (Z.ones 4). rewrite Z.land_ones by lia.
  replace ((8 * 2 ^ 4 + n) mod 2 ^ 4) with n by ints. apply reads_ret.
Qed.

(** *** Skipping a well-formed value *)

Lemma Value_pos k v : Value k v -> 1 <= len v.
Proof.
  destruct 1; rewrite len_cons;
    match goal with |- context [len ?l] => pose proof (len_nonneg l) end; lia.
Qed.

Lemma Values_count k n b : Values k n b -> 0 <= n <= len b.
Proof.
  induction 1 as [|k n v b Hn Hv Hb IH]; [done|].
  apply Value_pos in Hv. rewrite len_app. lia.
Qed.

Lemma reads_discard p n :
  len p = n -> n <= MaxInt64 -> reads (discard n) p tt.
Proof.
  intros <- Hn. eapply reads_ext; [intros; apply discard_eq; [done|]|].
  - pose proof (len_nonneg p). lia.
  - eapply reads_last; [apply reads_takeN|apply reads_ret].
Qed.

Ltac open_skip :=
  unfold skipHeader, posFixintMax, fixmapMin, fixmapMax, fixarrayMin, fixarrayMax, fixstrMin,
    fixstrMax, nilByte, falseByte, trueByte, bin8, bin16, bin32, ext8, ext16, ext32,
    float32Byte, float64Byte, uint8Byte, uint16Byte, uint32Byte, uint64Byte, int8Byte,
    int16Byte, int32Byte, int64Byte, fixext1, fixext16, str8, str16, str32, array16, array32,
    map16, map32, negFixintMin; cbv zeta.

Lemma skipHeader_atom c : atom_byte c -> reads (skipHeader c) [] None.
Proof. unfold atom_byte. intros Hc. open_skip. lia_ifs. apply reads_ret. Qed.

Lemma skipHeader_fixed c n : fixed_payload c n -> reads (skipHeader c) [] (Some (n, 0)).
Proof.
  destruct 1; open_skip; lia_ifs; try apply reads_ret.
  - change 0x1f with (Z.ones 5). rewrite Z.land_ones by lia.
    replace ((0xa0 + n) mod 2 ^ 5) with n by ints. apply reads_ret.
  - replace (0xd4 + i - 0xd4) with i by lia. rewrite Z.shiftl_1_l. apply reads_ret.
Qed.

Lemma skipHeader_sized c w extra n :
  sized_payload c w extra -> 0 <= n < 256 ^ Z.of_nat w ->
  reads (skipHeader c) (be w n) (Some (n + extra, 0)).
Proof.
  intros Hc Hn. destruct Hc; open_skip; lia_ifs.
  all: first [apply (reads_fixed_last _ _ _ _ (fun n => Some (n, 0)))
             |apply (reads_fixed_last _ _ _ _ (fun n => Some (u64 (n + 1), 0)))]; [done|lia|].
  all: rewrite Z.mod_small by done; rewrite ?u64_small by (cbn in Hn; lia); do 2 f_equal; lia.
Qed.

Lemma skipHeader_container c w m n :
  sized_container c w m -> 0 <= n < 256 ^ Z.of_nat w ->
  reads (skipHeader c) (be w n) (Some (0, n * m)).
Proof.
  intros Hc Hn. destruct Hc; open_skip; lia_ifs.
  all: first [apply (reads_fixed_last _ _ _ _ (fun n => Some (0, u64 (n * 1))))
             |apply (reads_fixed_last _ _ _ _ (fun n => Some (0, u64 (n * 2))))]; [done|lia|].
  all: rewrite Z.mod_small by done; rewrite ?u64_small by (cbn in Hn; lia); do 2 f_equal; lia.
Qed.

Lemma skipHeader_fixcontainer c n m :
  0 <= n < 16 -> c = 0x80 + n /\ m = 2 * n \/ c = 0x90 + n /\ m = n ->
  reads (skipHeader c) [] (Some (0, m)).
Proof.
  intros Hn [[-> ->]|[-> ->]]; open_skip; lia_ifs; change 0x0f with (Z.ones 4);
    rewrite Z.land_ones by lia.
  - replace ((0x80 + n) mod 2 ^ 4) with n by ints. apply reads_ret.
  - replace ((0x90 + n) mod 2 ^ 4) with n by ints. apply reads_ret.
Qed.

Lemma format_byte_range c :
  (exists n, fixed_payload c n) \/ (exists w e, sized_payload c w e) \/
  (exists w m, sized_container c w m) \/ atom_byte c \/ 0x80 <= c <= 0x9f -> b2z (z2b c) = c.
Proof.
  intros H. apply b2z_z2b_small. unfold atom_byte in H.
  destruct H as [[n []]|[(w & e & [])|[(w & m & [])|H]]]; lia.
Qed.

(** What [skip] does after the header. *)
Lemma skip_reads k c e1 e2 h :
  b2z (z2b c) = c -> reads (skipHeader c) e1 h ->
  reads (fun d => match h with
    | None => Ok (tt, d)
    | Some (n, elems) =>
        if elems =? 0 then discard n d
        else if (Remaining d >=? 0) && (elems >? Remaining d) then Err ErrTruncated
        else repeatR (fun _ => skip k) (S (length (pending d))) elems tt d
    end) e2 tt ->
  reads (skip (S k)) (z2b c :: e1 ++ e2) tt.
Proof.
  intros Hc Hh Ht. cbn [skip]. apply reads_cons. rewrite Hc. eapply reads_bind; [exact Hh|exact Ht].
Qed.

Lemma skip_elems k n b :
  Values k n b ->
  (forall fuel d rest, dec_ok d -> pending d = b ++ rest -> n <= Z.of_nat fuel ->
     repeatR (fun _ => skip k) fuel n tt d = Ok (tt, consume (len b) d)) ->
  reads (fun d =>
    if n =? 0 then discard 0 d
    else if (Remaining d >=? 0) && (n >? Remaining d) then Err ErrTruncated
    else repeatR (fun _ => skip k) (S (length (pending d))) n tt d) b tt.
Proof.
  intros Hv Hrep d rest Hd E. pose proof (Values_count _ _ _ Hv) as Hn.
  assert (Hlen : n <= len (pending d))
    by (rewrite E, len_app; pose proof (len_nonneg rest); lia).
  destruct (Z.eqb_spec n 0) as [->|Hn0].
  - specialize (Hrep 0%nat d rest Hd E ltac:(lia)). cbn in Hrep. rewrite <- Hrep.
    rewrite (reads_discard [] 0 eq_refl ltac:(ints) d (pending d)) by done.
    by rewrite len_nil, consume_0.
  - rewrite Remaining_eq by done.
    replace (_ && _) with false by (destruct (d_src d); lia).
    eapply Hrep; [done..|]. unfold len in Hlen. lia.
Qed.

Lemma fixed_payload_bound c n : fixed_payload c n -> n <= MaxInt64.
Proof.
  unfold MaxInt64. destruct 1; try lia.
  assert (2 ^ i <= 2 ^ 4) by (apply Z.pow_le_mono_r; lia). lia.
Qed.

Lemma sized_payload_bound c w extra n :
  sized_payload c w extra -> 0 <= n < 256 ^ Z.of_nat w -> n + extra <= MaxInt64.
Proof. unfold MaxInt64. intros [] Hn; cbn in Hn; lia. Qed.

Lemma skip_Value_Values :
  (forall k v, Value k v -> reads (skip (S k)) v tt) /\
  (forall k n b, Values k n b ->
     forall fuel d rest, dec_ok d -> pending d = b ++ rest -> n <= Z.of_nat fuel ->
       repeatR (fun _ => skip k) fuel n tt d = Ok (tt, consume (len b) d)).
Proof.
  apply Value_Values_ind.
  - intros k c Hc. apply (skip_reads k c [] [] None);
      [apply format_byte_range; eauto|by apply skipHeader_atom|apply reads_ret].
  - intros k c n p Hc Hp. apply (skip_reads k c [] p (Some (n, 0)));
      [apply format_byte_range; eauto|by apply skipHeader_fixed|].
    eapply reads_discard, fixed_payload_bound; eauto.
  - intros k c w extra n p Hc Hn Hp. apply (skip_reads k c (be w n) p (Some (n + extra, 0)));
      [apply format_byte_range; eauto|by apply skipHeader_sized|].
    eapply reads_discard, sized_payload_bound; eauto.
  - intros k n b Hn Hv IH. apply (skip_reads k _ [] b (Some (0, 2 * n)));
      [apply format_byte_range; lia|eapply skipHeader_fixcontainer; eauto|].
    by apply skip_elems.
  - intros k n b Hn Hv IH. apply (skip_reads k _ [] b (Some (0, n)));
      [apply format_byte_range; lia|eapply skipHeader_fixcontainer; eauto|].
    by apply skip_elems.
  - intros k c w m n b Hc Hn Hv IH. apply (skip_reads k c (be w n) b (Some (0, n * m)));
      [apply format_byte_range; eauto 6|by apply skipHeader_container|].
    by apply skip_elems.
  - intros k fuel d rest Hd E Hf. change (len []) with 0. rewrite consume_0. by destruct fuel.
  - intros k n v b Hn Hv IHv Hb IHb fuel d rest Hd E Hf.
    destruct fuel as [|fuel]; [lia|]. cbn [repeatR].
    replace (n + 1 <=? 0) with false by lia. rewrite <- app_assoc in E.
    rewrite (IHv d (b ++ rest)) by done. cbn [rbind]. rewrite Z.add_simpl_r.
    rewrite (IHb fuel _ rest) by first [lia|by eauto using dec_ok_consume_app, pending_consume_app].
    rewrite consume_consume by apply len_nonneg. by rewrite len_app.
Qed.

(** *** What a successful read has read *)

Lemma accepts_weaken {A} f (R R' : bytes -> A -> Prop) :
  accepts f R -> (forall e a, R e a -> R' e a) -> accepts f R'.
Proof. intros Hf HR d a d' Hd E. destruct (Hf d a d' Hd E) as (e & rest & ? & ? & ?). eauto 6. Qed.

Lemma accepts_ret {A} (a : A) (R : bytes -> A -> Prop) : R [] a -> accepts (fun d => Ok (a, d)) R.
Proof.
  intros HR d ? ? Hd [= <- <-]. exists [], (pending d). split_and!; [done..|].
  change (len []) with 0. by rewrite consume_0.
Qed.

Lemma accepts_err {A} e (R : bytes -> A -> Prop) : accepts (fun _ => Err e) R.
Proof. by intros d a d' _ ?. Qed.

Lemma accepts_if {A} (b : bool) f g (R : bytes -> A -> Prop) :
  (b = true -> accepts f R) -> (b = false -> accepts g R) ->
  accepts (fun d => if b then f d else g d) R.
Proof. destruct b; auto. Qed.

Lemma accepts_bind {A B} f (g : A -> decoder -> result error (B * decoder)) R S R' :
  accepts f R -> (forall a e, R e a -> accepts (g a) (S a)) ->
  (forall e1 e2 a b, R e1 a -> S a e2 b -> R' (e1 ++ e2) b) ->
  accepts (fun d => let! (a, d) := f d in g a d) R'.
Proof.
  intros Hf Hg HR d b d' Hd E. destruct (f d) as [[a d1]|] eqn:Ef; [|done]. cbn in E.
  destruct (Hf d a d1 Hd Ef) as (e1 & r1 & Ep & HR1 & ->).
  destruct (Hg a e1 HR1 _ b d' (dec_ok_consume_app _ _ _ Hd Ep) E) as (e2 & r2 & Ep2 & HR2 & ->).
  rewrite (pending_consume_app _ _ _ Hd Ep) in Ep2. subst r1.
  exists (e1 ++ e2), r2. rewrite consume_consume, len_app, <- app_assoc by apply len_nonneg. eauto.
Qed.

Lemma accepts_takeN n : 0 <= n -> accepts (takeN n) (fun e p => e = p /\ len e = n).
Proof.
  intros Hn d p d' Hd. unfold takeN. destruct (Z.ltb_spec (len (pending d)) n); [done|].
  intros [= <- <-]. exists (take (Z.to_nat n) (pending d)), (drop (Z.to_nat n) (pending d)).
  rewrite take_drop, len_take by lia. done.
Qed.

Lemma accepts_byte : accepts readByte (fun e c => e = [c]).
Proof.
  intros d c d' Hd. rewrite readByte_eq by done. destruct (pending d) as [|x l] eqn:E; [done|].
  intros [= <- <-]. exists [x], l. done.
Qed.

Lemma accepts_fixed (w : nat) :
  (w <= 8)%nat ->
  accepts (readFixed (Z.of_nat w)) (fun e v => e = be w v /\ 0 <= v < 256 ^ Z.of_nat w).
Proof.
  intros Hw d v d' Hd. rewrite readFixed_eq by (done || lia). revert d v d' Hd.
  eapply accepts_bind; [apply accepts_takeN; lia| |].
  - intros p _ _. by apply (accepts_ret _ (fun e v => e = [] /\ v = be_value p)).
  - intros e1 e2 p v [<- Hl] [-> ->]. rewrite app_nil_r, <- Hl.
    assert (Hlen : length e1 = w) by (unfold len in Hl; lia). split.
    + rewrite <- Hlen, be_be_value; [done|lia].
    + apply be_value_range. lia.
Qed.

Lemma accepts_discard n : 0 <= n <= MaxInt64 -> accepts (discard n) (fun e _ => len e = n).
Proof.
  intros Hn d v d' Hd. rewrite discard_eq by done. revert d v d' Hd.
  eapply accepts_bind; [apply accepts_takeN; lia| |].
  - intros p _ _. by apply (accepts_ret _ (fun e v => e = [])).
  - intros e1 e2 p v [<- Hl] ->. by rewrite app_nil_r.
Qed.

Lemma accepts_fixed_last {B} c (w : nat) (k : Z -> B) (R : bytes -> B -> Prop) :
  c = Z.of_nat w -> (w <= 8)%nat -> (forall n, 0 <= n < 256 ^ Z.of_nat w -> R (be w n) (k n)) ->
  accepts (fun d => let! (n, d) := readFixed c d in Ok (k n, d)) R.
Proof.
  intros -> Hw HR. eapply accepts_bind; [by apply accepts_fixed| |].
  - intros n _ _. by apply (accepts_ret _ (fun e v => e = [] /\ v = k n)).
  - intros e1 e2 n b [-> Hn] [-> ->]. rewrite app_nil_r. auto.
Qed.

Lemma header_sized c w extra n h :
  sized_payload c w extra -> 0 <= n < 256 ^ Z.of_nat w -> h = Some (n + extra, 0) ->
  Header c (be w n) h.
Proof. intros. subst h. by apply H_sized. Qed.

Lemma header_container c w m n h :
  sized_container c w m -> 0 <= n < 256 ^ Z.of_nat w -> h = Some (0, n * m) ->
  Header c (be w n) h.
Proof. intros. subst h. by apply H_container. Qed.

Lemma header_fixed c n : fixed_payload c n -> forall h, h = Some (n, 0) -> Header c [] h.
Proof. intros ? ? ->. by apply H_fixed. Qed.

Lemma accepts_skipHeader c : 0 <= c < 256 -> accepts (skipHeader c) (Header c).
Proof.
  intros Hc. open_skip.
  repeat (apply accepts_if; intros ?); try apply accepts_err.
  all: repeat match goal with H : _ = false |- _ => clear H end.
  - apply accepts_ret, H_atom. unfold atom_byte. lia.
  - change 0x0f with (Z.ones 4). rewrite Z.land_ones by lia.
    apply accepts_ret, H_fixmap; [|replace c with (c mod 2 ^ 4 + 0x80) at 1]; ints.
  - change 0x0f with (Z.ones 4). rewrite Z.land_ones by lia.
    apply accepts_ret, H_fixarray; ints.
  - change 0x1f with (Z.ones 5). rewrite Z.land_ones by lia.
    apply accepts_ret, H_fixed. replace c with (0xa0 + c mod 2 ^ 5) at 1 by ints.
    apply fp_fixstr. ints.
  - apply accepts_ret, H_fixed, fp_8. lia.
  - apply accepts_ret, H_fixed, fp_16. lia.
  - apply accepts_ret, H_fixed, fp_32. lia.
  - apply accepts_ret, H_fixed, fp_64. lia.
  - rewrite Z.shiftl_1_l. apply accepts_ret, H_fixed.
    replace c with (0xd4 + (c - 0xd4)) at 1 by lia. apply fp_ext. lia.
  - apply (accepts_fixed_last _ 1 (fun n => Some (n, 0))); [lia..|]. intros n Hn.
    apply (header_sized _ 1 0); [apply sp_8; lia|done|do 2 f_equal; lia].
  - apply (accepts_fixed_last _ 2 (fun n => Some (n, 0))); [lia..|]. intros n Hn.
    apply (header_sized _ 2 0); [apply sp_16; lia|done|do 2 f_equal; lia].
  - apply (accepts_fixed_last _ 4 (fun n => Some (n, 0))); [lia..|]. intros n Hn.
    apply (header_sized _ 4 0); [apply sp_32; lia|done|do 2 f_equal; lia].
  - apply (accepts_fixed_last _ 1 (fun n => Some (u64 (n + 1), 0))); [lia..|]. intros n Hn.
    rewrite u64_small by (cbn in Hn; lia). replace c with 0xc7 by lia. apply H_sized; [constructor|done].
  - apply (accepts_fixed_last _ 2 (fun n => Some (u64 (n + 1), 0))); [lia..|]. intros n Hn.
    rewrite u64_small by (cbn in Hn; lia). replace c with 0xc8 by lia. apply H_sized; [constructor|done].
  - apply (accepts_fixed_last _ 4 (fun n => Some (u64 (n + 1), 0))); [lia..|]. intros n Hn.
    rewrite u64_small by (cbn in Hn; lia). replace c with 0xc9 by lia. apply H_sized; [constructor|done].
  - apply (accepts_fixed_last _ 2 (fun n => Some (0, u64 (n * 1)))); [lia..|]. intros n Hn.
    rewrite u64_small by (cbn in Hn; lia). replace c with 0xdc by lia. apply H_container; [constructor|done].
  - apply (accepts_fixed_last _ 4 (fun n => Some (0, u64 (n * 1)))); [lia..|]. intros n Hn.
    rewrite u64_small by (cbn in Hn; lia). replace c with 0xdd by lia. apply H_container; [constructor|done].
  - apply (accepts_fixed_last _ 2 (fun n => Some (0, u64 (n * 2)))); [lia..|]. intros n Hn.
    rewrite u64_small by (cbn in Hn; lia). replace c with 0xde by lia. apply H_container; [constructor|done].
  - apply (accepts_fixed_last _ 4 (fun n => Some (0, u64 (n * 2)))); [lia..|]. intros n Hn.
    rewrite u64_small by (cbn in Hn; lia). replace c with 0xdf by lia. apply H_container; [constructor|done].
Qed.

Lemma accepts_repeat k :
  accepts (skip k) (fun e _ => exists k', k = S k' /\ Value k' e) ->
  forall fuel n, 0 <= n -> accepts (repeatR (fun _ => skip k) fuel n tt) (fun e _ => Values k n e).
Proof.
  intros Hk fuel. induction fuel as [|fuel IH]; intros n Hn; cbn [repeatR].
  - apply accepts_if; intros; [|apply accepts_err]. apply accepts_ret.
    replace n with 0 by lia. constructor.
  - apply accepts_if; intros Hn0.
    + apply accepts_ret. replace n with 0 by lia. constructor.
    + apply (accepts_bind _ _ _ (fun _ e _ => Values k (n - 1) e) _ Hk); [intros []; intros; apply IH; lia|].
      intros e1 e2 _ _ (k' & -> & Hv) Hvs. replace n with (n - 1 + 1) by lia. constructor; [lia|done..].
Qed.

Lemma Header_Value k c e1 h e2 :
  0 <= c < 256 -> Header c e1 h ->
  match h with
  | None => e2 = []
  | Some (n, elems) => if elems =? 0 then len e2 = n else Values k elems e2
  end -> Value k (z2b c :: e1 ++ e2).
Proof.
  intros Hc Hh H2. assert (Hnil : forall e, len e = 0 -> Values k 0 e).
  { intros e ->%len_0_nil. constructor. }
  destruct Hh as [|n Hf|w extra n Hs Hn|n Hn ->|n Hn ->|w m n Hs Hn]; cbn in H2.
  - subst e2. by constructor.
  - eapply V_fixed; eauto.
  - by eapply V_sized.
  - apply V_fixmap; [done|]. destruct (Z.eqb_spec (2 * n) 0) as [->|]; auto.
  - apply V_fixarray; [done|]. destruct (Z.eqb_spec n 0) as [->|]; auto.
  - eapply V_container; [done..|]. destruct (Z.eqb_spec (n * m) 0) as [->|]; auto.
Qed.

Lemma Header_bounds c e n elems : Header c e (Some (n, elems)) -> 0 <= n <= MaxInt64 /\ 0 <= elems.
Proof.
  inversion 1 as [|? Hf|? ? ? Hs Hn| | |? ? ? Hs Hn]; subst.
  - pose proof (fixed_payload_bound _ _ Hf). split; [split; [|done]|done].
    destruct Hf; lia.
  - pose proof (sized_payload_bound _ _ _ _ Hs Hn). split; [split; [|done]|done].
    destruct Hs; lia.
  - unfold MaxInt64; lia.
  - unfold MaxInt64; lia.
  - split; [unfold MaxInt64; lia|]. destruct Hs; lia.
Qed.

Lemma accepts_skip levels :
  accepts (skip levels) (fun e _ => exists k, levels = S k /\ Value k e).
Proof.
  induction levels as [|k IH]; [apply accepts_err|]. cbn [skip].
  apply (accepts_bind _ _ _ (fun cb e _ => Value k (cb :: e)) _ accepts_byte).
  2:{ intros e1 e2 cb _ -> Hv. eauto. }
  intros cb _ _. pose proof (b2z_range cb) as Hc.
  apply (accepts_bind _ _ _ (fun h e _ => match h with
       | None => e = []
       | Some (n, elems) => if elems =? 0 then len e = n else Values k elems e
       end) _ (accepts_skipHeader _ Hc)).
  2:{ intros e1 e2 h _ Hh H2. rewrite <- (z2b_b2z cb). by eapply Header_Value. }
  intros [[n elems]|] e Hh; [|by apply accepts_ret].
  apply Header_bounds in Hh as [Hn He].
  destruct (elems =? 0); [by apply accepts_discard|].
  intros d a d' Hd E. case_match; [done|]. by eapply (accepts_repeat k IH).
Qed.

(** ** Properties *)

(** Decoding an integer returns the integer that was encoded and leaves
    exactly the bytes after it, in both decoder modes, for the whole range of
    Go's [uint64] and [int64] and any limits that admit the value. *)
Theorem integer_roundtrip v limit lo hi :
  (0 <= v <= MaxUint64 -> v <= limit -> reads (ReadUint limit) (AppendUint [] v) v) /\
  (MinInt64 <= v <= MaxInt64 -> lo <= v <= hi -> reads (ReadInt lo hi) (AppendInt [] v) v).
Proof.
  split; intros; [apply reads_ReadUint; lia|by apply reads_ReadInt].
Qed.

Lemma integer_roundtrip_witness :
  ReadInt MinInt64 MaxInt64 (NewDecoder (AppendInt [] (-70000) ++ [z2b 7])) =
    Ok (-70000, Decoder (AppendInt [] (-70000) ++ [z2b 7]) 5 None).
Proof.
  apply (proj2 (integer_roundtrip (-70000) 0 MinInt64 MaxInt64)) with (rest := [z2b 7]);
    vm_compute; intuition congruence.
Defined.

(** Decoding a byte slice or a string returns what was encoded, a nil
    slice included, in both decoder modes, whenever the length fits the
    caller's limit and MessagePack's 32-bit length. *)
Theorem raw_roundtrip p s limit :
  limit <= MaxInt64 ->
  (len (slice_bytes p) <= limit -> len (slice_bytes p) <= MaxUint32 ->
     reads (ReadBytes limit) (AppendBytes [] p) p) /\
  (len (str2b s) <= limit -> len (str2b s) <= MaxUint32 ->
     reads (ReadString limit) (AppendString [] s) s).
Proof.
  unfold MaxUint32. split; intros; [apply reads_ReadBytes|apply reads_ReadString]; lia.
Qed.

Lemma raw_roundtrip_witness :
  ReadString 64 (NewStreamDecoder (Source (AppendString [] "mori" ++ [z2b 9]) EOF)) =
    Ok ("mori"%string, NewStreamDecoder (Source [z2b 9] EOF)).
Proof.
  apply (proj2 (raw_roundtrip None "mori" 64 ltac:(vm_compute; congruence))) with (rest := [z2b 9]);
    vm_compute; intuition congruence.
Defined.

(** [Skip] succeeds exactly on inputs that start with a well-formed
    MessagePack value of at most [maxSkipDepth] levels of elements, and then
    it has consumed exactly that value. *)
Theorem Skip_exact d d' :
  dec_ok d ->
  Skip d = Ok (tt, d') <->
  exists v rest, pending d = v ++ rest /\ Value (Z.to_nat maxSkipDepth) v /\ d' = consume (len v) d.
Proof.
  intros Hd. unfold Skip. change (Z.to_nat (maxSkipDepth + 1)) with (S (Z.to_nat maxSkipDepth)).
  split.
  - intros E. destruct (accepts_skip _ _ _ _ Hd E) as (v & rest & Ep & (k & [= <-] & Hv) & Ed).
    eauto.
  - intros (v & rest & Ep & Hv & ->). by eapply (proj1 skip_Value_Values).
Qed.

Lemma Skip_exact_witness :
  let d := NewDecoder (map z2b [0x81; 0xa1; 0x61; 0x92; 0x01; 0xc0; 0x05]) in
  dec_ok d /\
  exists v rest, pending d = v ++ rest /\ Value 32 v /\
    Decoder (d_buf d) 6 None = consume (len v) d.
Proof.
  split; [vm_compute; intuition congruence|].
  apply (Skip_exact _ (Decoder _ 6 None)); [vm_compute; intuition congruence|reflexivity].
Defined.

(** The chunked stream read of [readInto] returns exactly what one read
    of [n] bytes would, always terminates, and never asks for more memory
    than twice the bytes that really arrive plus one chunk, however large the
    declared length [n] is. *)
Theorem readInto_stream_bounded n s :
  0 <= n ->
  (readIntoStream n s).1 <= 2 * len (src_data s) + streamChunk /\
  (readIntoStream n s).2 =
    (if len (src_data s) <? n then Err (eofAsTruncated (src_err s))
     else Ok (take (Z.to_nat n) (src_data s),
              Source (drop (Z.to_nat n) (src_data s)) (src_err s))).
Proof.
  intros Hn. pose proof streamChunk_eq. unfold readIntoStream. split.
  - apply readIntoLoop_cap. change (len []) with 0. lia.
  - rewrite readIntoLoop_eq; [|lia|change (len []) with 0; lia].
    change (len []) with 0. by rewrite Z.sub_0_r, Z.add_0_l.
Qed.

Lemma readInto_stream_bounded_witness :
  (readIntoStream (2 ^ 31) (Source [z2b 1] EOF)).1 <= 2 * 1 + streamChunk.
Proof. apply (readInto_stream_bounded (2 ^ 31) (Source [z2b 1] EOF)). lia. Defined.
