(* ===== verification/Wire.v ===== *)
(** The protocol messages of [src/internal/wire/wire.go] and their codec.

    Each message is a record named after its Go struct, with its encoder
    [<M>_AppendMsgpack], its field switch [<M>_decodeField] and its decoder
    [<M>_DecodeMsgpack]. The interface [fieldDecoder] is the class
    [FieldDecoder]; [decodeMap] is written against it. The theorems show that
    every message decodes to what was encoded (an [omitempty] field up to nil
    and empty), that decoding folds the entries in order and skips the unknown
    ones, and that slice and stream decoding agree on every input.

    A Go decoder that fails leaves its message half filled; every caller in
    the program drops it, so an error here carries no message. *)

From S2P Require Import Prelude Msgpack.

Definition MaxFieldBytes : Z := Z.shiftl 1 20.
Definition MaxCompressedBytes : Z := Z.shiftl 64 20.

(** ** Messages *)

Record Ping := MkPing {
  Ping_SeqNo : Z;
  Ping_Node : string;
  Ping_SourceAddr : slice;
  Ping_SourcePort : Z;
  Ping_SourceNode : string;
}.

Record IndirectPingReq := MkIndirectPingReq {
  Ind_SeqNo : Z;
  Ind_Target : slice;
  Ind_Port : Z;
  Ind_Node : string;
  Ind_Nack : bool;
  Ind_SourceAddr : slice;
  Ind_SourcePort : Z;
  Ind_SourceNode : string;
}.

Record AckResp := MkAckResp { Ack_SeqNo : Z; Ack_Payload : slice }.
Record NackResp := MkNackResp { Nack_SeqNo : Z }.
Record ErrResp := MkErrResp { ErrResp_Error : string }.

Record Suspect := MkSuspect {
  Suspect_Incarnation : Z;
  Suspect_Node : string;
  Suspect_From : string;
}.

Record Alive := MkAlive {
  Alive_Incarnation : Z;
  Alive_Node : string;
  Alive_Addr : slice;
  Alive_Port : Z;
  Alive_Meta : slice;
  Alive_Vsn : slice;
}.

Record Dead := MkDead {
  Dead_Incarnation : Z;
  Dead_Node : string;
  Dead_From : string;
}.

Record PushPullHeader := MkPushPullHeader {
  PPH_Nodes : Z;
  PPH_UserStateLen : Z;
  PPH_Join : bool;
}.

Record UserMsgHeader := MkUserMsgHeader { UMH_UserMsgLen : Z }.

Record PushNodeState := MkPushNodeState {
  PNS_Name : string;
  PNS_Addr : slice;
  PNS_Port : Z;
  PNS_Meta : slice;
  PNS_Incarnation : Z;
  PNS_State : Z;
  PNS_Vsn : slice;
}.

Record Compress := MkCompress { Compress_Algo : Z; Compress_Buf : slice }.

(** ** Field decoders *)

Definition decUint (limit : Z) (d : decoder) : result error (Z * decoder) := ReadUint limit d.

Definition decU32 (d : decoder) : result error (Z * decoder) :=
  let! (v, d) := decUint MaxUint32 d in Ok (u32 v, d).

Definition decU16 (d : decoder) : result error (Z * decoder) :=
  let! (v, d) := decUint MaxUint16 d in Ok (u16 v, d).

Definition decU8 (d : decoder) : result error (Z * decoder) :=
  let! (v, d) := decUint MaxUint8 d in Ok (u8 v, d).

Definition decInt (d : decoder) : result error (Z * decoder) :=
  let! (v, d) := ReadInt MinInt64 MaxInt64 d in Ok (i64 v, d).

Definition decBool (d : decoder) : result error (bool * decoder) := ReadBool d.

Definition decString (d : decoder) : result error (string * decoder) :=
  ReadString MaxFieldBytes d.

Definition decBytes (limit : Z) (d : decoder) : result error (slice * decoder) :=
  ReadBytes limit d.

(** [decodeField m k] is [None] for an unknown key, where Go returns
    [false] having consumed nothing, and else the read of its value. *)
Class FieldDecoder (M : Type) := {
  decodeField : M -> slice -> option (decoder -> result error (M * decoder));
}.

(** The context of a field error: ["msg: "] or ["msg.key: "]. *)
Definition fieldContext (msg : string) (k : slice) : string :=
  match k with
  | None => msg
  | Some k => (msg ++ "." ++ b2str k)%string
  end.

(** One round of the loop of [decodeMap]. *)
Definition decodeEntry {M} `{FieldDecoder M} (msg : string) (m : M) (d : decoder)
    : result error (M * decoder) :=
  let! (k, d) := rmap_err (ErrIn msg) (ReadKey d) in
  rmap_err (ErrIn (fieldContext msg k))
    (match decodeField m k with
     | Some read => read d
     | None => let! (_, d) := Skip d in Ok (m, d)
     end).

Definition decodeMap {M} `{FieldDecoder M} (msg : string) (m : M) (d : decoder)
    : result error (M * decoder) :=
  let! (n, d) := rmap_err (ErrIn msg) (ReadMapHeader d) in
  repeatR (decodeEntry msg) (S (length (pending d))) n m d.

(** ** Field encoders *)

Definition appendU (b : bytes) (key : string) (v : Z) : bytes :=
  AppendUint (AppendString b key) v.
Definition appendI (b : bytes) (key : string) (v : Z) : bytes :=
  AppendInt (AppendString b key) v.
Definition appendS (b : bytes) (key v : string) : bytes :=
  AppendString (AppendString b key) v.
Definition appendB (b : bytes) (key : string) (v : slice) : bytes :=
  AppendBytes (AppendString b key) v.
Definition appendBool (b : bytes) (key : string) (v : bool) : bytes :=
  AppendBool (AppendString b key) v.

Definition omitted (addr : slice) (port : Z) (node : string) : Z :=
  (if len (slice_bytes addr) =? 0 then 1 else 0) + (if port =? 0 then 1 else 0)
  + (if String.eqb node "" then 1 else 0).

Definition appendSource (b : bytes) (addr : slice) (port : Z) (node : string) : bytes :=
  let b := if negb (len (slice_bytes addr) =? 0) then appendB b "SourceAddr" addr else b in
  let b := if negb (String.eqb node "") then appendS b "SourceNode" node else b in
  if negb (port =? 0) then appendU b "SourcePort" port else b.

(** ** Codecs *)

(** Decode a value and store it. *)
Definition setting {A M} (f : decoder -> result error (A * decoder)) (store : A -> M)
    (d : decoder) : result error (M * decoder) :=
  let! (v, d) := f d in Ok (store v, d).

(** *** Ping *)

Definition Ping_zero : Ping := MkPing 0 "" None 0 "".

Definition Ping_AppendMsgpack (m : Ping) (b : bytes) : bytes :=
  let b := AppendMapHeader b (5 - omitted (Ping_SourceAddr m) (Ping_SourcePort m) (Ping_SourceNode m)) in
  let b := appendS b "Node" (Ping_Node m) in
  let b := appendU b "SeqNo" (Ping_SeqNo m) in
  appendSource b (Ping_SourceAddr m) (Ping_SourcePort m) (Ping_SourceNode m).

Definition Ping_decodeField (m : Ping) (k : slice)
    : option (decoder -> result error (Ping * decoder)) :=
  let '(MkPing seqNo node sourceAddr sourcePort sourceNode) := m in
  let key := b2str (slice_bytes k) in
  if String.eqb key "SeqNo" then Some (setting decU32 (fun v => MkPing v node sourceAddr sourcePort sourceNode))
  else if String.eqb key "Node" then Some (setting decString (fun v => MkPing seqNo v sourceAddr sourcePort sourceNode))
  else if String.eqb key "SourceAddr" then Some (setting (decBytes MaxFieldBytes) (fun v => MkPing seqNo node v sourcePort sourceNode))
  else if String.eqb key "SourcePort" then Some (setting decU16 (fun v => MkPing seqNo node sourceAddr v sourceNode))
  else if String.eqb key "SourceNode" then Some (setting decString (fun v => MkPing seqNo node sourceAddr sourcePort v))
  else None.

#[global] Instance Ping_fieldDecoder : FieldDecoder Ping := { decodeField := Ping_decodeField }.

Definition Ping_DecodeMsgpack (d : decoder) : result error (Ping * decoder) :=
  decodeMap "ping" Ping_zero d.

(** *** IndirectPingReq *)

Definition IndirectPingReq_zero : IndirectPingReq := MkIndirectPingReq 0 None 0 "" false None 0 "".

Definition IndirectPingReq_AppendMsgpack (m : IndirectPingReq) (b : bytes) : bytes :=
  let b := AppendMapHeader b (8 - omitted (Ind_SourceAddr m) (Ind_SourcePort m) (Ind_SourceNode m)) in
  let b := appendBool b "Nack" (Ind_Nack m) in
  let b := appendS b "Node" (Ind_Node m) in
  let b := appendU b "Port" (Ind_Port m) in
  let b := appendU b "SeqNo" (Ind_SeqNo m) in
  let b := appendSource b (Ind_SourceAddr m) (Ind_SourcePort m) (Ind_SourceNode m) in
  appendB b "Target" (Ind_Target m).

Definition IndirectPingReq_decodeField (m : IndirectPingReq) (k : slice)
    : option (decoder -> result error (IndirectPingReq * decoder)) :=
  let '(MkIndirectPingReq seqNo target port node nack sourceAddr sourcePort sourceNode) := m in
  let key := b2str (slice_bytes k) in
  if String.eqb key "SeqNo" then Some (setting decU32 (fun v => MkIndirectPingReq v target port node nack sourceAddr sourcePort sourceNode))
  else if String.eqb key "Target" then Some (setting (decBytes MaxFieldBytes) (fun v => MkIndirectPingReq seqNo v port node nack sourceAddr sourcePort sourceNode))
  else if String.eqb key "Port" then Some (setting decU16 (fun v => MkIndirectPingReq seqNo target v node nack sourceAddr sourcePort sourceNode))
  else if String.eqb key "Node" then Some (setting decString (fun v => MkIndirectPingReq seqNo target port v nack sourceAddr sourcePort sourceNode))
  else if String.eqb key "Nack" then Some (setting decBool (fun v => MkIndirectPingReq seqNo target port node v sourceAddr sourcePort sourceNode))
  else if String.eqb key "SourceAddr" then Some (setting (decBytes MaxFieldBytes) (fun v => MkIndirectPingReq seqNo target port node nack v sourcePort sourceNode))
  else if String.eqb key "SourcePort" then Some (setting decU16 (fun v => MkIndirectPingReq seqNo target port node nack sourceAddr v sourceNode))
  else if String.eqb key "SourceNode" then Some (setting decString (fun v => MkIndirectPingReq seqNo target port node nack sourceAddr sourcePort v))
  else None.

#[global] Instance IndirectPingReq_fieldDecoder : FieldDecoder IndirectPingReq := { decodeField := IndirectPingReq_decodeField }.

Definition IndirectPingReq_DecodeMsgpack (d : decoder) : result error (IndirectPingReq * decoder) :=
  decodeMap "indirect ping" IndirectPingReq_zero d.

(** *** AckResp *)

Definition AckResp_zero : AckResp := MkAckResp 0 None.

Definition AckResp_AppendMsgpack (m : AckResp) (b : bytes) : bytes :=
  let b := AppendMapHeader b 2 in
  let b := appendB b "Payload" (Ack_Payload m) in
  appendU b "SeqNo" (Ack_SeqNo m).

Definition AckResp_decodeField (m : AckResp) (k : slice)
    : option (decoder -> result error (AckResp * decoder)) :=
  let '(MkAckResp seqNo payload) := m in
  let key := b2str (slice_bytes k) in
  if String.eqb key "SeqNo" then Some (setting decU32 (fun v => MkAckResp v payload))
  else if String.eqb key "Payload" then Some (setting (decBytes MaxFieldBytes) (fun v => MkAckResp seqNo v))
  else None.

#[global] Instance AckResp_fieldDecoder : FieldDecoder AckResp := { decodeField := AckResp_decodeField }.

Definition AckResp_DecodeMsgpack (d : decoder) : result error (AckResp * decoder) :=
  decodeMap "ack" AckResp_zero d.

(** *** NackResp *)

Definition NackResp_zero : NackResp := MkNackResp 0.

Definition NackResp_AppendMsgpack (m : NackResp) (b : bytes) : bytes :=
  let b := AppendMapHeader b 1 in
  appendU b "SeqNo" (Nack_SeqNo m).

Definition NackResp_decodeField (m : NackResp) (k : slice)
    : option (decoder -> result error (NackResp * decoder)) :=
  let '(MkNackResp seqNo) := m in
  let key := b2str (slice_bytes k) in
  if String.eqb key "SeqNo" then Some (setting decU32 (fun v => MkNackResp v))
  else None.

#[global] Instance NackResp_fieldDecoder : FieldDecoder NackResp := { decodeField := NackResp_decodeField }.

Definition NackResp_DecodeMsgpack (d : decoder) : result error (NackResp * decoder) :=
  decodeMap "nack" NackResp_zero d.

(** *** ErrResp *)

Definition ErrResp_zero : ErrResp := MkErrResp "".

Definition ErrResp_AppendMsgpack (m : ErrResp) (b : bytes) : bytes :=
  let b := AppendMapHeader b 1 in
  appendS b "Error" (ErrResp_Error m).

Definition ErrResp_decodeField (m : ErrResp) (k : slice)
    : option (decoder -> result error (ErrResp * decoder)) :=
  let '(MkErrResp error) := m in
  let key := b2str (slice_bytes k) in
  if String.eqb key "Error" then Some (setting decString (fun v => MkErrResp v))
  else None.

#[global] Instance ErrResp_fieldDecoder : FieldDecoder ErrResp := { decodeField := ErrResp_decodeField }.

Definition ErrResp_DecodeMsgpack (d : decoder) : result error (ErrResp * decoder) :=
  decodeMap "error response" ErrResp_zero d.

(** *** Suspect *)

Definition Suspect_zero : Suspect := MkSuspect 0 "" "".

Definition Suspect_AppendMsgpack (m : Suspect) (b : bytes) : bytes :=
  let b := AppendMapHeader b 3 in
  let b := appendS b "From" (Suspect_From m) in
  let b := appendU b "Incarnation" (Suspect_Incarnation m) in
  appendS b "Node" (Suspect_Node m).

Definition Suspect_decodeField (m : Suspect) (k : slice)
    : option (decoder -> result error (Suspect * decoder)) :=
  let '(MkSuspect incarnation node from) := m in
  let key := b2str (slice_bytes k) in
  if String.eqb key "Incarnation" then Some (setting decU32 (fun v => MkSuspect v node from))
  else if String.eqb key "Node" then Some (setting decString (fun v => MkSuspect incarnation v from))
  else if String.eqb key "From" then Some (setting decString (fun v => MkSuspect incarnation node v))
  else None.

#[global] Instance Suspect_fieldDecoder : FieldDecoder Suspect := { decodeField := Suspect_decodeField }.

Definition Suspect_DecodeMsgpack (d : decoder) : result error (Suspect * decoder) :=
  decodeMap "suspect" Suspect_zero d.

(** *** Alive *)

Definition Alive_zero : Alive := MkAlive 0 "" None 0 None None.

Definition Alive_AppendMsgpack (m : Alive) (b : bytes) : bytes :=
  let b := AppendMapHeader b 6 in
  let b := appendB b "Addr" (Alive_Addr m) in
  let b := appendU b "Incarnation" (Alive_Incarnation m) in
  let b := appendB b "Meta" (Alive_Meta m) in
  let b := appendS b "Node" (Alive_Node m) in
  let b := appendU b "Port" (Alive_Port m) in
  appendB b "Vsn" (Alive_Vsn m).

Definition Alive_decodeField (m : Alive) (k : slice)
    : option (decoder -> result error (Alive * decoder)) :=
  let '(MkAlive incarnation node addr port meta vsn) := m in
  let key := b2str (slice_bytes k) in
  if String.eqb key "Incarnation" then Some (setting decU32 (fun v => MkAlive v node addr port meta vsn))
  else if String.eqb key "Node" then Some (setting decString (fun v => MkAlive incarnation v addr port meta vsn))
  else if String.eqb key "Addr" then Some (setting (decBytes MaxFieldBytes) (fun v => MkAlive incarnation node v port meta vsn))
  else if String.eqb key "Port" then Some (setting decU16 (fun v => MkAlive incarnation node addr v meta vsn))
  else if String.eqb key "Meta" then Some (setting (decBytes MaxFieldBytes) (fun v => MkAlive incarnation node addr port v vsn))
  else if String.eqb key "Vsn" then Some (setting (decBytes MaxFieldBytes) (fun v => MkAlive incarnation node addr port meta v))
  else None.

#[global] Instance Alive_fieldDecoder : FieldDecoder Alive := { decodeField := Alive_decodeField }.

Definition Alive_DecodeMsgpack (d : decoder) : result error (Alive * decoder) :=
  decodeMap "alive" Alive_zero d.

(** *** Dead *)

Definition Dead_zero : Dead := MkDead 0 "" "".

Definition Dead_AppendMsgpack (m : Dead) (b : bytes) : bytes :=
  let b := AppendMapHeader b 3 in
  let b := appendS b "From" (Dead_From m) in
  let b := appendU b "Incarnation" (Dead_Incarnation m) in
  appendS b "Node" (Dead_Node m).

Definition Dead_decodeField (m : Dead) (k : slice)
    : option (decoder -> result error (Dead * decoder)) :=
  let '(MkDead incarnation node from) := m in
  let key := b2str (slice_bytes k) in
  if String.eqb key "Incarnation" then Some (setting decU32 (fun v => MkDead v node from))
  else if String.eqb key "Node" then Some (setting decString (fun v => MkDead incarnation v from))
  else if String.eqb key "From" then Some (setting decString (fun v => MkDead incarnation node v))
  else None.

#[global] Instance Dead_fieldDecoder : FieldDecoder Dead := { decodeField := Dead_decodeField }.

Definition Dead_DecodeMsgpack (d : decoder) : result error (Dead * decoder) :=
  decodeMap "dead" Dead_zero d.

(** *** PushPullHeader *)

Definition PushPullHeader_zero : PushPullHeader := MkPushPullHeader 0 0 false.

Definition PushPullHeader_AppendMsgpack (m : PushPullHeader) (b : bytes) : bytes :=
  let b := AppendMapHeader b 3 in
  let b := appendBool b "Join" (PPH_Join m) in
  let b := appendI b "Nodes" (PPH_Nodes m) in
  appendI b "UserStateLen" (PPH_UserStateLen m).

Definition PushPullHeader_decodeField (m : PushPullHeader) (k : slice)
    : option (decoder -> result error (PushPullHeader * decoder)) :=
  let '(MkPushPullHeader nodes userStateLen join) := m in
  let key := b2str (slice_bytes k) in
  if String.eqb key "Nodes" then Some (setting decInt (fun v => MkPushPullHeader v userStateLen join))
  else if String.eqb key "UserStateLen" then Some (setting decInt (fun v => MkPushPullHeader nodes v join))
  else if String.eqb key "Join" then Some (setting decBool (fun v => MkPushPullHeader nodes userStateLen v))
  else None.

#[global] Instance PushPullHeader_fieldDecoder : FieldDecoder PushPullHeader := { decodeField := PushPullHeader_decodeField }.

Definition PushPullHeader_DecodeMsgpack (d : decoder) : result error (PushPullHeader * decoder) :=
  decodeMap "push/pull header" PushPullHeader_zero d.

(** *** UserMsgHeader *)

Definition UserMsgHeader_zero : UserMsgHeader := MkUserMsgHeader 0.

Definition UserMsgHeader_AppendMsgpack (m : UserMsgHeader) (b : bytes) : bytes :=
  let b := AppendMapHeader b 1 in
  appendI b "UserMsgLen" (UMH_UserMsgLen m).

Definition UserMsgHeader_decodeField (m : UserMsgHeader) (k : slice)
    : option (decoder -> result error (UserMsgHeader * decoder)) :=
  let '(MkUserMsgHeader userMsgLen) := m in
  let key := b2str (slice_bytes k) in
  if String.eqb key "UserMsgLen" then Some (setting decInt (fun v => MkUserMsgHeader v))
  else None.

#[global] Instance UserMsgHeader_fieldDecoder : FieldDecoder UserMsgHeader := { decodeField := UserMsgHeader_decodeField }.

Definition UserMsgHeader_DecodeMsgpack (d : decoder) : result error (UserMsgHeader * decoder) :=
  decodeMap "user message header" UserMsgHeader_zero d.

(** *** PushNodeState *)

Definition PushNodeState_zero : PushNodeState := MkPushNodeState "" None 0 None 0 0 None.

Definition PushNodeState_AppendMsgpack (m : PushNodeState) (b : bytes) : bytes :=
  let b := AppendMapHeader b 7 in
  let b := appendB b "Addr" (PNS_Addr m) in
  let b := appendU b "Incarnation" (PNS_Incarnation m) in
  let b := appendB b "Meta" (PNS_Meta m) in
  let b := appendS b "Name" (PNS_Name m) in
  let b := appendU b "Port" (PNS_Port m) in
  let b := appendI b "State" (PNS_State m) in
  appendB b "Vsn" (PNS_Vsn m).

Definition PushNodeState_decodeField (m : PushNodeState) (k : slice)
    : option (decoder -> result error (PushNodeState * decoder)) :=
  let '(MkPushNodeState name addr port meta incarnation state vsn) := m in
  let key := b2str (slice_bytes k) in
  if String.eqb key "Name" then Some (setting decString (fun v => MkPushNodeState v addr port meta incarnation state vsn))
  else if String.eqb key "Addr" then Some (setting (decBytes MaxFieldBytes) (fun v => MkPushNodeState name v port meta incarnation state vsn))
  else if String.eqb key "Port" then Some (setting decU16 (fun v => MkPushNodeState name addr v meta incarnation state vsn))
  else if String.eqb key "Meta" then Some (setting (decBytes MaxFieldBytes) (fun v => MkPushNodeState name addr port v incarnation state vsn))
  else if String.eqb key "Incarnation" then Some (setting decU32 (fun v => MkPushNodeState name addr port meta v state vsn))
  else if String.eqb key "State" then Some (setting decInt (fun v => MkPushNodeState name addr port meta incarnation v vsn))
  else if String.eqb key "Vsn" then Some (setting (decBytes MaxFieldBytes) (fun v => MkPushNodeState name addr port meta incarnation state v))
  else None.

#[global] Instance PushNodeState_fieldDecoder : FieldDecoder PushNodeState := { decodeField := PushNodeState_decodeField }.

Definition PushNodeState_DecodeMsgpack (d : decoder) : result error (PushNodeState * decoder) :=
  decodeMap "push node state" PushNodeState_zero d.

(** *** Compress *)

Definition Compress_zero : Compress := MkCompress 0 None.

Definition Compress_AppendMsgpack (m : Compress) (b : bytes) : bytes :=
  let b := AppendMapHeader b 2 in
  let b := appendU b "Algo" (Compress_Algo m) in
  appendB b "Buf" (Compress_Buf m).

Definition Compress_decodeField (m : Compress) (k : slice)
    : option (decoder -> result error (Compress * decoder)) :=
  let '(MkCompress algo buf) := m in
  let key := b2str (slice_bytes k) in
  if String.eqb key "Algo" then Some (setting decU8 (fun v => MkCompress v buf))
  else if String.eqb key "Buf" then Some (setting (decBytes MaxCompressedBytes) (fun v => MkCompress algo v))
  else None.

#[global] Instance Compress_fieldDecoder : FieldDecoder Compress := { decodeField := Compress_decodeField }.

Definition Compress_DecodeMsgpack (d : decoder) : result error (Compress * decoder) :=
  decodeMap "compress" Compress_zero d.

(** ** The [Message] interface *)

Inductive message :=
| MPing (m : Ping)
| MIndirectPingReq (m : IndirectPingReq)
| MAckResp (m : AckResp)
| MNackResp (m : NackResp)
| MErrResp (m : ErrResp)
| MSuspect (m : Suspect)
| MAlive (m : Alive)
| MDead (m : Dead)
| MPushPullHeader (m : PushPullHeader)
| MUserMsgHeader (m : UserMsgHeader)
| MPushNodeState (m : PushNodeState)
| MCompress (m : Compress).

(** Which struct the caller decodes into. *)
Inductive kind :=
| KPing
| KIndirectPingReq
| KAckResp
| KNackResp
| KErrResp
| KSuspect
| KAlive
| KDead
| KPushPullHeader
| KUserMsgHeader
| KPushNodeState
| KCompress.

Definition kind_of (m : message) : kind :=
  match m with
  | MPing _ => KPing
  | MIndirectPingReq _ => KIndirectPingReq
  | MAckResp _ => KAckResp
  | MNackResp _ => KNackResp
  | MErrResp _ => KErrResp
  | MSuspect _ => KSuspect
  | MAlive _ => KAlive
  | MDead _ => KDead
  | MPushPullHeader _ => KPushPullHeader
  | MUserMsgHeader _ => KUserMsgHeader
  | MPushNodeState _ => KPushNodeState
  | MCompress _ => KCompress
  end.

Definition AppendMsgpack (m : message) (b : bytes) : bytes :=
  match m with
  | MPing m => Ping_AppendMsgpack m b
  | MIndirectPingReq m => IndirectPingReq_AppendMsgpack m b
  | MAckResp m => AckResp_AppendMsgpack m b
  | MNackResp m => NackResp_AppendMsgpack m b
  | MErrResp m => ErrResp_AppendMsgpack m b
  | MSuspect m => Suspect_AppendMsgpack m b
  | MAlive m => Alive_AppendMsgpack m b
  | MDead m => Dead_AppendMsgpack m b
  | MPushPullHeader m => PushPullHeader_AppendMsgpack m b
  | MUserMsgHeader m => UserMsgHeader_AppendMsgpack m b
  | MPushNodeState m => PushNodeState_AppendMsgpack m b
  | MCompress m => Compress_AppendMsgpack m b
  end.

Definition DecodeMsgpack (k : kind) (d : decoder) : result error (message * decoder) :=
  match k with
  | KPing => setting Ping_DecodeMsgpack MPing d
  | KIndirectPingReq => setting IndirectPingReq_DecodeMsgpack MIndirectPingReq d
  | KAckResp => setting AckResp_DecodeMsgpack MAckResp d
  | KNackResp => setting NackResp_DecodeMsgpack MNackResp d
  | KErrResp => setting ErrResp_DecodeMsgpack MErrResp d
  | KSuspect => setting Suspect_DecodeMsgpack MSuspect d
  | KAlive => setting Alive_DecodeMsgpack MAlive d
  | KDead => setting Dead_DecodeMsgpack MDead d
  | KPushPullHeader => setting PushPullHeader_DecodeMsgpack MPushPullHeader d
  | KUserMsgHeader => setting UserMsgHeader_DecodeMsgpack MUserMsgHeader d
  | KPushNodeState => setting PushNodeState_DecodeMsgpack MPushNodeState d
  | KCompress => setting Compress_DecodeMsgpack MCompress d
  end.

(** ** Specification *)

(** Values a message can hold: its integers fit their Go type and its
    strings and slices fit the decoding limits. *)
Definition u32_ok (v : Z) : Prop := 0 <= v <= MaxUint32.
Definition u16_ok (v : Z) : Prop := 0 <= v <= MaxUint16.
Definition u8_ok (v : Z) : Prop := 0 <= v <= MaxUint8.
Definition int_ok (v : Z) : Prop := MinInt64 <= v <= MaxInt64.
Definition str_ok (s : string) : Prop := len (str2b s) <= MaxFieldBytes.
Definition bytes_ok (p : slice) : Prop := len (slice_bytes p) <= MaxFieldBytes.
Definition cbytes_ok (p : slice) : Prop := len (slice_bytes p) <= MaxCompressedBytes.

Definition Ping_valid (m : Ping) : Prop :=
  u32_ok (Ping_SeqNo m) /\ str_ok (Ping_Node m) /\ bytes_ok (Ping_SourceAddr m) /\ u16_ok (Ping_SourcePort m) /\ str_ok (Ping_SourceNode m).
Definition IndirectPingReq_valid (m : IndirectPingReq) : Prop :=
  u32_ok (Ind_SeqNo m) /\ bytes_ok (Ind_Target m) /\ u16_ok (Ind_Port m) /\ str_ok (Ind_Node m) /\ bytes_ok (Ind_SourceAddr m) /\ u16_ok (Ind_SourcePort m) /\ str_ok (Ind_SourceNode m).
Definition AckResp_valid (m : AckResp) : Prop :=
  u32_ok (Ack_SeqNo m) /\ bytes_ok (Ack_Payload m).
Definition NackResp_valid (m : NackResp) : Prop :=
  u32_ok (Nack_SeqNo m).
Definition ErrResp_valid (m : ErrResp) : Prop :=
  str_ok (ErrResp_Error m).
Definition Suspect_valid (m : Suspect) : Prop :=
  u32_ok (Suspect_Incarnation m) /\ str_ok (Suspect_Node m) /\ str_ok (Suspect_From m).
Definition Alive_valid (m : Alive) : Prop :=
  u32_ok (Alive_Incarnation m) /\ str_ok (Alive_Node m) /\ bytes_ok (Alive_Addr m) /\ u16_ok (Alive_Port m) /\ bytes_ok (Alive_Meta m) /\ bytes_ok (Alive_Vsn m).
Definition Dead_valid (m : Dead) : Prop :=
  u32_ok (Dead_Incarnation m) /\ str_ok (Dead_Node m) /\ str_ok (Dead_From m).
Definition PushPullHeader_valid (m : PushPullHeader) : Prop :=
  int_ok (PPH_Nodes m) /\ int_ok (PPH_UserStateLen m).
Definition UserMsgHeader_valid (m : UserMsgHeader) : Prop :=
  int_ok (UMH_UserMsgLen m).
Definition PushNodeState_valid (m : PushNodeState) : Prop :=
  str_ok (PNS_Name m) /\ bytes_ok (PNS_Addr m) /\ u16_ok (PNS_Port m) /\ bytes_ok (PNS_Meta m) /\ u32_ok (PNS_Incarnation m) /\ int_ok (PNS_State m) /\ bytes_ok (PNS_Vsn m).
Definition Compress_valid (m : Compress) : Prop :=
  u8_ok (Compress_Algo m) /\ cbytes_ok (Compress_Buf m).

Definition valid (m : message) : Prop :=
  match m with
  | MPing m => Ping_valid m
  | MIndirectPingReq m => IndirectPingReq_valid m
  | MAckResp m => AckResp_valid m
  | MNackResp m => NackResp_valid m
  | MErrResp m => ErrResp_valid m
  | MSuspect m => Suspect_valid m
  | MAlive m => Alive_valid m
  | MDead m => Dead_valid m
  | MPushPullHeader m => PushPullHeader_valid m
  | MUserMsgHeader m => UserMsgHeader_valid m
  | MPushNodeState m => PushNodeState_valid m
  | MCompress m => Compress_valid m
  end.

(** An empty slice under [omitempty] comes back nil. *)
Definition emptyAsNil (p : slice) : slice :=
  if len (slice_bytes p) =? 0 then None else p.

Definition normal (m : message) : message :=
  match m with
  | MPing (MkPing seq node addr port src) => MPing (MkPing seq node (emptyAsNil addr) port src)
  | MIndirectPingReq (MkIndirectPingReq seq target port node nack addr sport src) =>
      MIndirectPingReq (MkIndirectPingReq seq target port node nack (emptyAsNil addr) sport src)
  | m => m
  end.

Definition encodeEntries (es : list (string * bytes)) : bytes :=
  concat (map (fun e => AppendString [] e.1 ++ e.2) es).

(** An encoded map: its header and its entries in order. *)
Definition encodeFields (es : list (string * bytes)) : bytes :=
  AppendMapHeader [] (len es) ++ encodeEntries es.

(** The buffer of an encoder that has written the entries [es] of [n]. *)
Definition written (b : bytes) (n : Z) (es : list (string * bytes)) : bytes :=
  AppendMapHeader b n ++ encodeEntries es.

Definition sourceEntries (addr : slice) (port : Z) (node : string) : list (string * bytes) :=
  (if negb (len (slice_bytes addr) =? 0) then [("SourceAddr"%string, AppendBytes [] addr)] else [])
  ++ (if negb (String.eqb node "") then [("SourceNode"%string, AppendString [] node)] else [])
  ++ (if negb (port =? 0) then [("SourcePort"%string, AppendUint [] port)] else []).

(** The key [decodeMap] looks up: one longer than every field name is
    read as nil. *)
Definition lookupKey (k : string) : slice :=
  if len (str2b k) <=? maxKeyLen then Some (str2b k) else None.

(** [Fields m es m']: decoding the entries [es] in order turns [m] into
    [m']. A known field's value is read into the message, an unknown one
    holds any well-formed value and changes nothing. *)
Inductive Fields {M} `{FieldDecoder M} : M -> list (string * bytes) -> M -> Prop :=
| Fields_nil m : Fields m [] m
| Fields_known m k v read m1 es m2 :
    len (str2b k) <= maxKeyLen -> decodeField m (Some (str2b k)) = Some read ->
    reads read v m1 -> Fields m1 es m2 -> Fields m ((k, v) :: es) m2
| Fields_unknown m k v es m2 :
    len (str2b k) <= MaxUint32 -> decodeField m (lookupKey k) = None ->
    Value (Z.to_nat maxSkipDepth) v -> Fields m es m2 -> Fields m ((k, v) :: es) m2.

(** What a message type owes [decodeMap]: a zero value in range, and field
    reads that keep the message in range. *)
Class WireReader (M : Type) `{FieldDecoder M} (ok : M -> Prop) : Prop := {
  field_reader m k f : ok m -> decodeField m k = Some f -> Reader 1 ok f;
}.

(** [ReadMapHeader] before its check against the remaining input, which
    only slice mode makes: the count and whether the check applies. *)
Definition mapCount (d : decoder) : result error (Z * bool * decoder) :=
  let! (cb, d) := readByte d in
  let c := b2z cb in
  if (fixmapMin <=? c) && (c <=? fixmapMax) then Ok (Z.land c 0x0f, false, d)
  else if c =? nilByte then Ok (0, false, d)
  else
    let! (n, d) :=
      if c =? map16 then readFixed 2 d
      else if c =? map32 then readFixed 4 d
      else Err (ErrType "map" c) in
    if n >? MaxInt32 then Err (ErrMapCount n) else Ok (n, true, d).

(** A message to run the codec on. *)
Definition example_alive : message :=
  MAlive (MkAlive 7 "node-a" (Some (map z2b [10; 0; 0; 1])) 7946 None (Some (map z2b [1; 5; 5; 0; 0; 0]))).

(** ** Lemmas *)

Lemma reader_map_err {A} k (P : A -> Prop) f g :
  Reader k P f -> (forall e, g e <> ErrOutOfFuel) -> Reader k P (fun d => rmap_err g (f d)).
Proof.
  intros Hf Hg bs. destruct (Hf bs) as [(a & n & HP & Hn & H)|H]; [left|right].
  - exists a, n. split_and!; [done|lia..|]. intros d Hd E. by rewrite H.
  - intros d Hd E. destruct (H d Hd E) as (e & -> & _). cbn. eauto.
Qed.

Lemma reads_map_err {A} f e (a : A) g : reads f e a -> reads (fun d => rmap_err g (f d)) e a.
Proof. intros H d rest Hd E. by rewrite (H d rest Hd E). Qed.

Lemma reader_setting {A M} k (P : A -> Prop) (Q : M -> Prop) f store :
  Reader k P f -> (forall a, P a -> Q (store a)) -> 0 <= k -> Reader k Q (setting f store).
Proof.
  intros Hf HPQ Hk. unfold setting. eapply (reader_bind k 0); [done| |lia..].
  intros a Ha. apply reader_ret; [done|auto].
Qed.

Lemma reads_setting {A M} f e (a : A) (store : A -> M) :
  reads f e a -> reads (setting f store) e (store a).
Proof. intros Hf. unfold setting. eapply reads_last; [done|apply reads_ret]. Qed.

(** *** Field values *)

Lemma reader_decU32 : Reader 1 u32_ok decU32.
Proof.
  apply (reader_setting 1 _ _ _ u32 (reader_ReadUint MaxUint32)); [|lia].
  unfold u32_ok. intros v Hv. ints.
Qed.

Lemma reader_decU16 : Reader 1 u16_ok decU16.
Proof.
  apply (reader_setting 1 _ _ _ u16 (reader_ReadUint MaxUint16)); [|lia].
  unfold u16_ok. intros v Hv. ints.
Qed.

Lemma reader_decU8 : Reader 1 u8_ok decU8.
Proof.
  apply (reader_setting 1 _ _ _ u8 (reader_ReadUint MaxUint8)); [|lia].
  unfold u8_ok. intros v Hv. ints.
Qed.

Lemma reader_decInt : Reader 1 int_ok decInt.
Proof.
  apply (reader_setting 1 _ _ _ i64 (reader_ReadInt MinInt64 MaxInt64)); [|lia].
  unfold int_ok. intros v Hv. ints.
Qed.

Lemma reader_decString : Reader 1 str_ok decString.
Proof. apply reader_ReadString. done. Qed.

Lemma reader_decBytes : Reader 1 bytes_ok (decBytes MaxFieldBytes).
Proof. apply reader_ReadBytes. done. Qed.

Lemma reader_decCBytes : Reader 1 cbytes_ok (decBytes MaxCompressedBytes).
Proof. apply reader_ReadBytes. done. Qed.

Lemma reader_decBool : Reader 1 (fun _ => True) decBool.
Proof. apply reader_ReadBool. Qed.

Lemma reads_decU32 v : u32_ok v -> reads decU32 (AppendUint [] v) v.
Proof.
  intros Hv. rewrite <- (u32_small v) at 2 by (unfold u32_ok in Hv; ints).
  apply (reads_setting _ _ _ u32), reads_ReadUint; unfold u32_ok in Hv; ints.
Qed.

Lemma reads_decU16 v : u16_ok v -> reads decU16 (AppendUint [] v) v.
Proof.
  intros Hv. rewrite <- (u16_small v) at 2 by (unfold u16_ok in Hv; ints).
  apply (reads_setting _ _ _ u16), reads_ReadUint; unfold u16_ok in Hv; ints.
Qed.

Lemma reads_decU8 v : u8_ok v -> reads decU8 (AppendUint [] v) v.
Proof.
  intros Hv. rewrite <- (u8_small v) at 2 by (unfold u8_ok in Hv; ints).
  apply (reads_setting _ _ _ u8), reads_ReadUint; unfold u8_ok in Hv; ints.
Qed.

Lemma reads_decInt v : int_ok v -> reads decInt (AppendInt [] v) v.
Proof.
  intros Hv. rewrite <- (i64_small v) at 2 by done.
  by apply (reads_setting _ _ _ i64), reads_ReadInt.
Qed.

Lemma reads_decBytes p : bytes_ok p -> reads (decBytes MaxFieldBytes) (AppendBytes [] p) p.
Proof.
  unfold bytes_ok. intros Hp. change MaxFieldBytes with 1048576 in *.
  pose proof (len_nonneg (slice_bytes p)). apply reads_ReadBytes; unfold MaxInt64; lia.
Qed.

Lemma reads_decCBytes p : cbytes_ok p -> reads (decBytes MaxCompressedBytes) (AppendBytes [] p) p.
Proof.
  unfold cbytes_ok. intros Hp. change MaxCompressedBytes with 67108864 in *.
  pose proof (len_nonneg (slice_bytes p)). apply reads_ReadBytes; unfold MaxInt64; lia.
Qed.

Lemma reads_decString s : str_ok s -> reads decString (AppendString [] s) s.
Proof.
  unfold str_ok. intros Hs. change MaxFieldBytes with 1048576 in *.
  apply reads_ReadString; change MaxFieldBytes with 1048576; unfold MaxInt64; lia.
Qed.

Lemma reads_decBool v : reads decBool (AppendBool [] v) v.
Proof. apply reads_ReadBool. Qed.

#[local] Hint Resolve reader_decU32 reader_decU16 reader_decU8 reader_decInt reader_decString
  reader_decBytes reader_decCBytes reader_decBool : mori.
#[local] Hint Resolve reads_decU32 reads_decU16 reads_decU8 reads_decInt reads_decString
  reads_decBytes reads_decCBytes reads_decBool : mori.

(** *** The map loop *)

Lemma ReadMapHeader_eq d :
  ReadMapHeader d =
    let! (h, d) := mapCount d in
    if h.2 && ((Remaining d >=? 0) && (h.1 >? Remaining d / 2)) then Err ErrTruncated
    else Ok (h.1, d).
Proof.
  unfold ReadMapHeader, mapCount. destruct (readByte d) as [[cb d1]|e]; [|done]. cbn [rbind].
  cbv zeta. destruct (_ && _); [done|]. destruct (_ =? nilByte); [done|].
  destruct (if b2z cb =? map16 then _ else _) as [[n d2]|e]; [|done]. cbn [rbind].
  by destruct (n >? MaxInt32).
Qed.

Lemma reader_mapCount : Reader 1 (fun h => 0 <= h.1) mapCount.
Proof.
  unfold mapCount. repeat reader_step.
  - cbn. apply Z.land_nonneg. lia.
  - done.
  - eapply (reader_bind 0 0 0 (fun n => 0 <= n)); [|intros n Hn; repeat reader_step; done|lia..].
    repeat reader_step.
    all: eapply reader_weaken; [apply reader_fixed; lia|lia|cbn; lia].
Qed.

(** A map's entries take at least two bytes each, so refusing a count the
    input cannot hold refuses nothing the loop would accept. *)
Lemma reader_mapLoop {A} (P : A -> Prop) (f : A -> decoder -> result error (A * decoder)) a g :
  (forall e, g e <> ErrOutOfFuel) -> P a -> (forall a, P a -> Reader 2 P (f a)) ->
  Reader 1 P (fun d => let! (n, d) := rmap_err g (ReadMapHeader d) in
                       repeatR f (S (length (pending d))) n a d).
Proof.
  intros Hg Ha Hf bs. destruct (reader_mapCount bs) as [(h & n & Hh & Hn & H)|H].
  2: { right. intros d Hd E. rewrite ReadMapHeader_eq. destruct (H d Hd E) as (e & -> & _).
       cbn. eauto. }
  set (bs' := drop (Z.to_nat n) bs).
  assert (Hbs' : len bs' = len bs - n) by (apply len_drop; lia).
  assert (Hpos : forall d, dec_ok d -> pending d = bs ->
            dec_ok (consume n d) /\ pending (consume n d) = bs').
  { intros d Hd E. split; [apply dec_ok_consume; rewrite ?E; [done|lia]|].
    rewrite pending_consume, E by (done || lia). done. }
  destruct (repeatR_reader 2 P f ltac:(lia) Hf (S (length bs')) h.1 a bs' Ha ltac:(lia))
    as [(a' & m & Ha' & Hm & H')|H'].
  - left. exists a', (n + m). split_and!; [done|lia..|]. intros d Hd E.
    destruct (Hpos d Hd E) as [Hd' E']. rewrite ReadMapHeader_eq, H by done. cbn [rbind].
    assert (h.1 <= len bs' / 2) by (apply Z.div_le_lower_bound; lia).
    rewrite Remaining_eq, E' by done.
    replace (h.2 && _) with false by (destruct (d_src _); lia). cbn [rmap_err rbind].
    rewrite E', H' by done. by rewrite consume_consume by lia.
  - right. intros d Hd E. destruct (Hpos d Hd E) as [Hd' E'].
    rewrite ReadMapHeader_eq, H by done. cbn [rbind]. case_match; cbn [rmap_err rbind]; [eauto|].
    rewrite E'. by apply H'.
Qed.

Lemma reader_decodeEntry {M} `{WireReader M ok} msg m :
  ok m -> Reader 2 ok (decodeEntry msg m).
Proof.
  intros Hm. unfold decodeEntry. eapply (reader_bind 1 1 2).
  - by apply reader_map_err; [apply reader_ReadKey|].
  - intros k _. apply reader_map_err; [|done]. destruct (decodeField m k) eqn:E.
    + by eapply field_reader.
    + eapply (reader_bind 1 0); [apply reader_Skip|intros; by apply reader_ret|lia..].
  - lia.
  - lia.
  - lia.
Qed.

Lemma reader_decodeMap {M} `{WireReader M ok} msg m : ok m -> Reader 1 ok (decodeMap msg m).
Proof.
  intros Hm. apply reader_mapLoop; [done..|]. intros. by apply reader_decodeEntry.
Qed.

Lemma reads_lookupKey k : len (str2b k) <= MaxUint32 -> reads ReadKey (AppendString [] k) (lookupKey k).
Proof.
  intros Hk. pose proof (len_nonneg (str2b k)). unfold MaxUint32 in *. unfold lookupKey, AppendString.
  apply reads_ReadKey_of; [apply reads_rawLen|unfold MaxInt64]; lia.
Qed.

Lemma reads_Skip v : Value (Z.to_nat maxSkipDepth) v -> reads Skip v tt.
Proof. apply (proj1 skip_Value_Values). Qed.

Lemma reads_entry_of {M} `{FieldDecoder M} msg m ke k v m1 :
  reads ReadKey ke k ->
  match decodeField m k with
  | Some read => reads read v m1
  | None => m1 = m /\ Value (Z.to_nat maxSkipDepth) v
  end -> reads (decodeEntry msg m) (ke ++ v) m1.
Proof.
  intros Hk Hv. unfold decodeEntry. eapply reads_bind; [by apply reads_map_err|].
  apply reads_map_err. destruct (decodeField m k); [done|]. destruct Hv as [-> Hv].
  eapply reads_last; [by apply reads_Skip|apply reads_ret].
Qed.

Lemma reads_entry {M} `{FieldDecoder M} msg m k v m1 :
  len (str2b k) <= MaxUint32 ->
  match decodeField m (lookupKey k) with
  | Some read => reads read v m1
  | None => m1 = m /\ Value (Z.to_nat maxSkipDepth) v
  end -> reads (decodeEntry msg m) (AppendString [] k ++ v) m1.
Proof. intros Hk. by apply reads_entry_of, reads_lookupKey. Qed.

Lemma AppendString_pos k : 1 <= len (AppendString [] k).
Proof.
  unfold AppendString. rewrite len_app. pose proof (len_nonneg (str2b k)).
  assert (1 <= len (appendRawHeader [] (len (str2b k)))); [|lia].
  unfold appendRawHeader. cbn [app]. repeat case_match; rewrite len_cons;
    match goal with |- context [len ?l] => pose proof (len_nonneg l) end; lia.
Qed.

Lemma encodeEntries_concat es : encodeEntries es = concat (map (fun e => AppendString [] e.1 ++ e.2) es).
Proof. done. Qed.

(** Decoding entries in order, whatever their encoding. *)
Inductive Steps {M} `{FieldDecoder M} (msg : string) : M -> list bytes -> M -> Prop :=
| Steps_nil m : Steps msg m [] m
| Steps_cons m e m1 es m2 : 1 <= len e -> reads (decodeEntry msg m) e m1 -> Steps msg m1 es m2 -> Steps msg m (e :: es) m2.

Lemma Fields_Steps {M} `{FieldDecoder M} msg (m m' : M) es :
  Fields m es m' -> Steps msg m (map (fun e => AppendString [] e.1 ++ e.2) es) m'.
Proof.
  assert (Hp : forall k (v : bytes), 1 <= len (AppendString [] k ++ v))
    by (intros k v; rewrite len_app; pose proof (AppendString_pos k); pose proof (len_nonneg v); lia).
  induction 1 as [|? ? ? read m1 ? ? Hk Hd Hr HF|? ? ? ? ? Hk Hd Hv HF]; cbn [map fst snd]; [apply Steps_nil|..].
  - eapply Steps_cons; [apply Hp| |done]. unfold maxKeyLen in Hk. apply reads_entry; [unfold MaxUint32; lia|].
    unfold lookupKey, maxKeyLen. rewrite (proj2 (Z.leb_le _ _)) by done. by rewrite Hd.
  - eapply Steps_cons; [apply Hp| |done]. apply reads_entry; [done|]. by rewrite Hd.
Qed.

Lemma Steps_len {M} `{FieldDecoder M} msg (m m' : M) es : Steps msg m es m' -> len es <= len (concat es).
Proof. induction 1; [done|]. cbn [concat]. rewrite len_cons, len_app. lia. Qed.

Lemma repeatR_Steps {M} `{FieldDecoder M} msg es :
  forall (m m' : M) fuel d rest, Steps msg m es m' -> dec_ok d -> pending d = concat es ++ rest ->
  (length es <= fuel)%nat ->
  repeatR (decodeEntry msg) fuel (len es) m d = Ok (m', consume (len (concat es)) d).
Proof.
  induction es as [|e es IH]; intros m m' fuel d rest HS Hd E Hf.
  - inversion HS; subst. destruct fuel; cbn; by rewrite consume_0.
  - inversion HS as [|? ? m1 ? ? _ Hr HS']; subst. cbn [length] in Hf. cbn [concat] in *.
    destruct fuel as [|fuel]; [lia|]. cbn [repeatR]. rewrite len_cons.
    pose proof (len_nonneg es). rewrite (proj2 (Z.leb_gt _ _)) by lia.
    rewrite <- app_assoc in E. rewrite (Hr d (concat es ++ rest) Hd E). cbn [rbind].
    replace (1 + len es - 1) with (len es) by lia.
    rewrite (IH m1 m' fuel _ rest); [|done|by eapply dec_ok_consume_app|by eapply pending_consume_app|lia].
    by rewrite consume_consume, (len_app e) by apply len_nonneg.
Qed.

(** A header that announces [n] entries, when the input can hold them. *)
Definition announces (h : bytes) (n : Z) : Prop :=
  forall d rest, dec_ok d -> pending d = h ++ rest -> 2 * n <= len rest -> ReadMapHeader d = Ok (n, consume (len h) d).

Lemma reads_map_of {M} `{FieldDecoder M} msg (m m' : M) h es :
  announces h (len es) -> Steps msg m es m' -> 2 * len es <= len (concat es) ->
  reads (decodeMap msg m) (h ++ concat es) m'.
Proof.
  intros Hh HS Hl d rest Hd E. rewrite <- app_assoc in E. unfold decodeMap. rewrite (Hh d (concat es ++ rest) Hd E).
  2: { rewrite len_app. pose proof (len_nonneg rest). lia. }
  cbn [rmap_err rbind]. pose proof (pending_consume_app d h _ Hd E) as Ep. pose proof (len_nonneg es).
  rewrite (repeatR_Steps msg es m m' _ _ rest HS); [|by eapply dec_ok_consume_app|exact Ep|].
  - by rewrite consume_consume, len_app by apply len_nonneg.
  - apply Nat.le_le_succ_r. apply (f_equal len) in Ep. rewrite len_app in Ep. pose proof (len_nonneg rest). unfold len in *. lia.
Qed.

Lemma AppendMapHeader_announces n : 0 <= n < 16 -> announces (AppendMapHeader [] n) n.
Proof. intros Hn d rest Hd E _. by apply (reads_ReadMapHeader_fix n Hn d rest). Qed.

Lemma entries_len es : Forall (fun e : bytes => 2 <= len e) es -> 2 * len es <= len (concat es).
Proof. induction 1; [done|]. cbn [concat]. rewrite len_cons, len_app. lia. Qed.

Lemma reads_decodeMap {M} `{FieldDecoder M} msg (m m' : M) es :
  Fields m es m' -> len es < 16 -> reads (decodeMap msg m) (encodeFields es) m'.
Proof.
  intros HF Hes. unfold decodeMap, encodeFields. pose proof (len_nonneg es).
  eapply reads_bind; [apply reads_map_err, reads_ReadMapHeader_fix; lia|].
  pose proof (Fields_Steps msg _ _ _ HF) as HS. pose proof (Steps_len _ _ _ _ HS) as Hl.
  intros d rest Hd E. rewrite encodeEntries_concat in *.
  replace (len es) with (len (map (fun e => AppendString [] e.1 ++ e.2) es)) by (unfold len; by rewrite length_map).
  apply (repeatR_Steps msg _ m m' _ d rest HS Hd E).
  apply Nat.le_le_succ_r. apply (f_equal len) in E.
  rewrite len_app in E. pose proof (len_nonneg rest). unfold len in *. lia.
Qed.

(** *** Encoders as entry lists *)

Lemma written_nil b n : AppendMapHeader b n = written b n [].
Proof. unfold written. by rewrite app_nil_r. Qed.

Lemma written_all n es : n = len es -> written [] n es = encodeFields es.
Proof. intros ->. done. Qed.

Lemma written_snoc b n es k v :
  AppendString (written b n es) k ++ v = written b n (es ++ [(k, v)]).
Proof.
  unfold written, encodeEntries. rewrite map_app, concat_app, AppendString_app. cbn.
  by rewrite app_nil_r, <- !app_assoc.
Qed.

Lemma written_appendU b n es k v : appendU (written b n es) k v = written b n (es ++ [(k, AppendUint [] v)]).
Proof. unfold appendU. by rewrite AppendUint_app, written_snoc. Qed.
Lemma written_appendI b n es k v : appendI (written b n es) k v = written b n (es ++ [(k, AppendInt [] v)]).
Proof. unfold appendI. by rewrite AppendInt_app, written_snoc. Qed.
Lemma written_appendS b n es k v : appendS (written b n es) k v = written b n (es ++ [(k, AppendString [] v)]).
Proof. unfold appendS. by rewrite AppendString_app, written_snoc. Qed.
Lemma written_appendB b n es k v : appendB (written b n es) k v = written b n (es ++ [(k, AppendBytes [] v)]).
Proof. unfold appendB. by rewrite AppendBytes_app, written_snoc. Qed.
Lemma written_appendBool b n es k v : appendBool (written b n es) k v = written b n (es ++ [(k, AppendBool [] v)]).
Proof. unfold appendBool. by rewrite AppendBool_app, written_snoc. Qed.

Lemma written_appendSource b n es addr port node :
  appendSource (written b n es) addr port node = written b n (es ++ sourceEntries addr port node).
Proof.
  unfold appendSource, sourceEntries. cbv zeta.
  destruct (negb (len _ =? 0)), (negb (String.eqb _ _)), (negb (port =? 0));
    rewrite ?written_appendB, ?written_appendS, ?written_appendU, <- ?app_assoc, ?app_nil_r; done.
Qed.

Lemma sourceEntries_len addr port node :
  len (sourceEntries addr port node) = 3 - omitted addr port node.
Proof.
  unfold sourceEntries, omitted.
  by destruct (len _ =? 0), (String.eqb _ _), (port =? 0).
Qed.

Create Rewrite HintDb written.
#[export] Hint Rewrite written_nil written_appendU written_appendI written_appendS written_appendB
  written_appendBool written_appendSource : written.

Lemma Fields_app {M} `{FieldDecoder M} (m1 m2 m3 : M) es1 es2 :
  Fields m1 es1 m2 -> Fields m2 es2 m3 -> Fields m1 (es1 ++ es2) m3.
Proof.
  induction 1; intros; cbn [app]; [done|..].
  - eapply Fields_known; eauto.
  - eapply Fields_unknown; eauto.
Qed.

Lemma Fields_one {M} `{FieldDecoder M} {A} (m : M) k v f (a : A) store :
  len (str2b k) <= maxKeyLen -> decodeField m (Some (str2b k)) = Some (setting f store) ->
  reads f v a -> Fields m [(k, v)] (store a).
Proof. intros. eapply Fields_known; eauto using reads_setting. apply Fields_nil. Qed.

(** The field entries of a message whose record is known. *)
Ltac known_fields :=
  repeat lazymatch goal with
  | |- Fields _ [] _ => apply Fields_nil
  | |- Fields _ (_ :: _) _ =>
      eapply Fields_known;
        [vm_compute; congruence|reflexivity|apply reads_setting; by auto with mori|]
  end.

Ltac wire_message :=
  cbv zeta; autorewrite with written; cbn [app];
  rewrite written_all by reflexivity;
  apply reads_decodeMap; [known_fields|reflexivity].

Lemma Fields_source {M} `{FieldDecoder M} (mk : slice -> Z -> string -> M) addr port node :
  (forall a p n, decodeField (mk a p n) (Some (str2b "SourceAddr")) =
     Some (setting (decBytes MaxFieldBytes) (fun v => mk v p n))) ->
  (forall a p n, decodeField (mk a p n) (Some (str2b "SourcePort")) =
     Some (setting decU16 (fun v => mk a v n))) ->
  (forall a p n, decodeField (mk a p n) (Some (str2b "SourceNode")) =
     Some (setting decString (fun v => mk a p v))) ->
  bytes_ok addr -> u16_ok port -> str_ok node ->
  Fields (mk None 0 ""%string) (sourceEntries addr port node) (mk (emptyAsNil addr) port node).
Proof.
  intros Ha Hp Hn Haddr Hport Hnode. unfold sourceEntries, emptyAsNil.
  apply (Fields_app _ (mk (if len (slice_bytes addr) =? 0 then None else addr) 0 ""%string)).
  { destruct (_ =? 0); [apply Fields_nil|].
    eapply (Fields_one _ _ _ _ _ (fun v => mk v 0 ""%string)); [by vm_compute|apply Ha|auto with mori]. }
  set (a := if len (slice_bytes addr) =? 0 then None else addr). apply (Fields_app _ (mk a 0 node)).
  - destruct (String.eqb_spec node ""); [subst; apply Fields_nil|].
    eapply (Fields_one _ _ _ _ _ (fun v => mk a 0 v)); [by vm_compute|apply Hn|auto with mori].
  - destruct (Z.eqb_spec port 0); [subst; apply Fields_nil|].
    eapply (Fields_one _ _ _ _ _ (fun v => mk a v node)); [by vm_compute|apply Hp|auto with mori].
Qed.

(** *** The messages *)

Lemma Ping_roundtrip m :
  Ping_valid m -> reads Ping_DecodeMsgpack (Ping_AppendMsgpack m []) 
    (MkPing (Ping_SeqNo m) (Ping_Node m) (emptyAsNil (Ping_SourceAddr m)) (Ping_SourcePort m) (Ping_SourceNode m)).
Proof.
  destruct m as [seqNo node sourceAddr sourcePort sourceNode]. unfold Ping_valid; cbn. intros. destruct_and?.
  unfold Ping_DecodeMsgpack, Ping_AppendMsgpack. cbn. autorewrite with written.
  pose proof (sourceEntries_len sourceAddr sourcePort sourceNode) as Hlen.
  assert (0 <= omitted sourceAddr sourcePort sourceNode) by (unfold omitted; repeat case_match; lia).
  rewrite written_all by (rewrite ?len_app, ?len_cons, ?len_app, ?len_nil, Hlen; lia).
  apply reads_decodeMap; [|rewrite ?len_app, ?len_cons, ?len_app, ?len_nil, Hlen; lia].
  cbn [app]; known_fields.
  apply (Fields_source (fun a p n => MkPing seqNo node a p n)); done.
Qed.

Lemma IndirectPingReq_roundtrip m :
  IndirectPingReq_valid m -> reads IndirectPingReq_DecodeMsgpack (IndirectPingReq_AppendMsgpack m []) 
    (MkIndirectPingReq (Ind_SeqNo m) (Ind_Target m) (Ind_Port m) (Ind_Node m) (Ind_Nack m) (emptyAsNil (Ind_SourceAddr m)) (Ind_SourcePort m) (Ind_SourceNode m)).
Proof.
  destruct m as [seqNo target port node nack sourceAddr sourcePort sourceNode]. unfold IndirectPingReq_valid; cbn. intros. destruct_and?.
  unfold IndirectPingReq_DecodeMsgpack, IndirectPingReq_AppendMsgpack. cbn. autorewrite with written.
  pose proof (sourceEntries_len sourceAddr sourcePort sourceNode) as Hlen.
  assert (0 <= omitted sourceAddr sourcePort sourceNode) by (unfold omitted; repeat case_match; lia).
  rewrite written_all by (rewrite ?len_app, ?len_cons, ?len_app, ?len_nil, Hlen; lia).
  apply reads_decodeMap; [|rewrite ?len_app, ?len_cons, ?len_app, ?len_nil, Hlen; lia].
  cbn [app]; known_fields.
  eapply Fields_app; [by apply (Fields_source (fun a p n => MkIndirectPingReq seqNo None port node nack a p n))|].
  known_fields.
Qed.

Lemma AckResp_roundtrip m :
  AckResp_valid m -> reads AckResp_DecodeMsgpack (AckResp_AppendMsgpack m []) m.
Proof.
  destruct m as [seqNo payload]. unfold AckResp_valid; cbn. intros. destruct_and?.
  unfold AckResp_DecodeMsgpack, AckResp_AppendMsgpack. wire_message.
Qed.

Lemma NackResp_roundtrip m :
  NackResp_valid m -> reads NackResp_DecodeMsgpack (NackResp_AppendMsgpack m []) m.
Proof.
  destruct m as [seqNo]. unfold NackResp_valid; cbn. intros. destruct_and?.
  unfold NackResp_DecodeMsgpack, NackResp_AppendMsgpack. wire_message.
Qed.

Lemma ErrResp_roundtrip m :
  ErrResp_valid m -> reads ErrResp_DecodeMsgpack (ErrResp_AppendMsgpack m []) m.
Proof.
  destruct m as [error]. unfold ErrResp_valid; cbn. intros. destruct_and?.
  unfold ErrResp_DecodeMsgpack, ErrResp_AppendMsgpack. wire_message.
Qed.

Lemma Suspect_roundtrip m :
  Suspect_valid m -> reads Suspect_DecodeMsgpack (Suspect_AppendMsgpack m []) m.
Proof.
  destruct m as [incarnation node from]. unfold Suspect_valid; cbn. intros. destruct_and?.
  unfold Suspect_DecodeMsgpack, Suspect_AppendMsgpack. wire_message.
Qed.

Lemma Alive_roundtrip m :
  Alive_valid m -> reads Alive_DecodeMsgpack (Alive_AppendMsgpack m []) m.
Proof.
  destruct m as [incarnation node addr port meta vsn]. unfold Alive_valid; cbn. intros. destruct_and?.
  unfold Alive_DecodeMsgpack, Alive_AppendMsgpack. wire_message.
Qed.

Lemma Dead_roundtrip m :
  Dead_valid m -> reads Dead_DecodeMsgpack (Dead_AppendMsgpack m []) m.
Proof.
  destruct m as [incarnation node from]. unfold Dead_valid; cbn. intros. destruct_and?.
  unfold Dead_DecodeMsgpack, Dead_AppendMsgpack. wire_message.
Qed.

Lemma PushPullHeader_roundtrip m :
  PushPullHeader_valid m -> reads PushPullHeader_DecodeMsgpack (PushPullHeader_AppendMsgpack m []) m.
Proof.
  destruct m as [nodes userStateLen join]. unfold PushPullHeader_valid; cbn. intros. destruct_and?.
  unfold PushPullHeader_DecodeMsgpack, PushPullHeader_AppendMsgpack. wire_message.
Qed.

Lemma UserMsgHeader_roundtrip m :
  UserMsgHeader_valid m -> reads UserMsgHeader_DecodeMsgpack (UserMsgHeader_AppendMsgpack m []) m.
Proof.
  destruct m as [userMsgLen]. unfold UserMsgHeader_valid; cbn. intros. destruct_and?.
  unfold UserMsgHeader_DecodeMsgpack, UserMsgHeader_AppendMsgpack. wire_message.
Qed.

Lemma PushNodeState_roundtrip m :
  PushNodeState_valid m -> reads PushNodeState_DecodeMsgpack (PushNodeState_AppendMsgpack m []) m.
Proof.
  destruct m as [name addr port meta incarnation state vsn]. unfold PushNodeState_valid; cbn. intros. destruct_and?.
  unfold PushNodeState_DecodeMsgpack, PushNodeState_AppendMsgpack. wire_message.
Qed.

Lemma Compress_roundtrip m :
  Compress_valid m -> reads Compress_DecodeMsgpack (Compress_AppendMsgpack m []) m.
Proof.
  destruct m as [algo buf]. unfold Compress_valid; cbn. intros. destruct_and?.
  unfold Compress_DecodeMsgpack, Compress_AppendMsgpack. wire_message.
Qed.

Ltac wire_reader ok inst dec :=
  constructor; intros [] k f Hok; unfold ok in *; cbn in Hok;
  cbv beta iota delta [decodeField inst dec]; cbv zeta;
  repeat match goal with |- context [String.eqb ?a ?b] => destruct (String.eqb a b) end;
  intros [= <-]; (eapply reader_setting; [by auto with mori| |lia]);
  unfold ok; cbn; intros; intuition.

#[local] Instance Ping_wireReader : WireReader Ping Ping_valid.
Proof. wire_reader Ping_valid Ping_fieldDecoder Ping_decodeField. Qed.
#[local] Instance IndirectPingReq_wireReader : WireReader IndirectPingReq IndirectPingReq_valid.
Proof. wire_reader IndirectPingReq_valid IndirectPingReq_fieldDecoder IndirectPingReq_decodeField. Qed.
#[local] Instance AckResp_wireReader : WireReader AckResp AckResp_valid.
Proof. wire_reader AckResp_valid AckResp_fieldDecoder AckResp_decodeField. Qed.
#[local] Instance NackResp_wireReader : WireReader NackResp NackResp_valid.
Proof. wire_reader NackResp_valid NackResp_fieldDecoder NackResp_decodeField. Qed.
#[local] Instance ErrResp_wireReader : WireReader ErrResp ErrResp_valid.
Proof. wire_reader ErrResp_valid ErrResp_fieldDecoder ErrResp_decodeField. Qed.
#[local] Instance Suspect_wireReader : WireReader Suspect Suspect_valid.
Proof. wire_reader Suspect_valid Suspect_fieldDecoder Suspect_decodeField. Qed.
#[local] Instance Alive_wireReader : WireReader Alive Alive_valid.
Proof. wire_reader Alive_valid Alive_fieldDecoder Alive_decodeField. Qed.
#[local] Instance Dead_wireReader : WireReader Dead Dead_valid.
Proof. wire_reader Dead_valid Dead_fieldDecoder Dead_decodeField. Qed.
#[local] Instance PushPullHeader_wireReader : WireReader PushPullHeader PushPullHeader_valid.
Proof. wire_reader PushPullHeader_valid PushPullHeader_fieldDecoder PushPullHeader_decodeField. Qed.
#[local] Instance UserMsgHeader_wireReader : WireReader UserMsgHeader UserMsgHeader_valid.
Proof. wire_reader UserMsgHeader_valid UserMsgHeader_fieldDecoder UserMsgHeader_decodeField. Qed.
#[local] Instance PushNodeState_wireReader : WireReader PushNodeState PushNodeState_valid.
Proof. wire_reader PushNodeState_valid PushNodeState_fieldDecoder PushNodeState_decodeField. Qed.
#[local] Instance Compress_wireReader : WireReader Compress Compress_valid.
Proof. wire_reader Compress_valid Compress_fieldDecoder Compress_decodeField. Qed.

Lemma reader_message {M} `{WireReader M ok} msg (zero : M) (inj : M -> message) k :
  ok zero -> (forall m, kind_of (inj m) = k) -> (forall m, ok m -> valid (inj m)) ->
  Reader 1 (fun m => kind_of m = k /\ valid m) (setting (decodeMap msg zero) inj).
Proof.
  intros Hz Hk Hv. apply (reader_setting 1 ok); [by apply reader_decodeMap|auto|lia].
Qed.

Lemma reader_DecodeMsgpack k : Reader 1 (fun m => kind_of m = k /\ valid m) (DecodeMsgpack k).
Proof.
  destruct k.
  - by apply (reader_message (ok := Ping_valid)); [repeat split; vm_compute|..].
  - by apply (reader_message (ok := IndirectPingReq_valid)); [repeat split; vm_compute|..].
  - by apply (reader_message (ok := AckResp_valid)); [repeat split; vm_compute|..].
  - by apply (reader_message (ok := NackResp_valid)); [repeat split; vm_compute|..].
  - by apply (reader_message (ok := ErrResp_valid)); [repeat split; vm_compute|..].
  - by apply (reader_message (ok := Suspect_valid)); [repeat split; vm_compute|..].
  - by apply (reader_message (ok := Alive_valid)); [repeat split; vm_compute|..].
  - by apply (reader_message (ok := Dead_valid)); [repeat split; vm_compute|..].
  - by apply (reader_message (ok := PushPullHeader_valid)); [repeat split; vm_compute|..].
  - by apply (reader_message (ok := UserMsgHeader_valid)); [repeat split; vm_compute|..].
  - by apply (reader_message (ok := PushNodeState_valid)); [repeat split; vm_compute|..].
  - by apply (reader_message (ok := Compress_valid)); [repeat split; vm_compute|..].
Qed.

Lemma written_app b n es : written b n es = b ++ written [] n es.
Proof. unfold written. by rewrite AppendMapHeader_app, <- app_assoc. Qed.

Lemma AppendMsgpack_app m b : AppendMsgpack m b = b ++ AppendMsgpack m [].
Proof.
  destruct m as [[]|[]|[]|[]|[]|[]|[]|[]|[]|[]|[]|[]]; cbn [AppendMsgpack];
    cbv beta zeta delta [Ping_AppendMsgpack IndirectPingReq_AppendMsgpack AckResp_AppendMsgpack
      NackResp_AppendMsgpack ErrResp_AppendMsgpack Suspect_AppendMsgpack Alive_AppendMsgpack
      Dead_AppendMsgpack PushPullHeader_AppendMsgpack UserMsgHeader_AppendMsgpack
      PushNodeState_AppendMsgpack Compress_AppendMsgpack];
    autorewrite with written; apply written_app.
Qed.

(** *** Any message *)

Lemma message_reads m :
  valid m -> reads (DecodeMsgpack (kind_of m)) (AppendMsgpack m []) (normal m).
Proof.
  destruct m as [[]|[]|m|m|m|m|m|m|m|m|m|m]; cbn [valid kind_of AppendMsgpack normal]; intros Hm;
    apply reads_setting.
  - by apply Ping_roundtrip in Hm.
  - by apply IndirectPingReq_roundtrip in Hm.
  - by apply AckResp_roundtrip.
  - by apply NackResp_roundtrip.
  - by apply ErrResp_roundtrip.
  - by apply Suspect_roundtrip.
  - by apply Alive_roundtrip.
  - by apply Dead_roundtrip.
  - by apply PushPullHeader_roundtrip.
  - by apply UserMsgHeader_roundtrip.
  - by apply PushNodeState_roundtrip.
  - by apply Compress_roundtrip.
Qed.

(** ** Properties *)

(** C35: Every protocol message whose fields are in range decodes to itself
    from its own encoding, in both decoder modes and whatever bytes follow.
    An empty [omitempty] slice comes back nil; every other field is exact,
    nil slices and empty ones kept apart. *)
Theorem message_roundtrip m :
  valid m -> reads (DecodeMsgpack (kind_of m)) (AppendMsgpack m []) (normal m).
Proof. apply message_reads. Qed.

Lemma message_roundtrip_witness :
  DecodeMsgpack KAlive (NewDecoder (AppendMsgpack example_alive [] ++ [z2b 0])) =
    Ok (example_alive, consume (len (AppendMsgpack example_alive []))
                         (NewDecoder (AppendMsgpack example_alive [] ++ [z2b 0]))).
Proof.
  apply (message_roundtrip example_alive) with (rest := [z2b 0]); vm_compute; intuition congruence.
Defined.

(** Decoding a message from a byte slice and from a stream that delivers
    the same bytes either fails in both or gives the same message, with every
    field in range, leaving the same rest of the input. It is total: the model
    never runs out of fuel, whatever the input declares. *)
Theorem decode_modes_agree k bs e :
  len bs <= MaxInt64 ->
  match DecodeMsgpack k (NewDecoder bs), DecodeMsgpack k (NewStreamDecoder (Source bs e)) with
  | Ok (m, d), Ok (m', d') =>
      m = m' /\ kind_of m = k /\ valid m /\ pending d = pending d' /\
      exists used, bs = used ++ pending d /\ used <> []
  | Err e1, Err e2 => e1 <> ErrOutOfFuel /\ e2 <> ErrOutOfFuel
  | _, _ => False
  end.
Proof.
  intros Hbs. assert (Hd1 : dec_ok (NewDecoder bs)).
  { cbn. pose proof (len_nonneg bs). lia. }
  assert (Hd2 : dec_ok (NewStreamDecoder (Source bs e))) by done.
  destruct (reader_DecodeMsgpack k bs) as [(m & n & [Hk Hm] & Hn & H)|H].
  - rewrite !H by done. split_and!; [done..| |].
    + by rewrite !pending_consume by (done || lia).
    + rewrite pending_consume by (done || lia). change (pending (NewDecoder bs)) with bs.
      exists (take (Z.to_nat n) bs). rewrite take_drop. split; [done|].
      intros E. apply (f_equal len) in E. rewrite len_take in E by lia. change (len []) with 0 in E. lia.
  - destruct (H _ Hd1 eq_refl) as (e1 & -> & ?). destruct (H _ Hd2 eq_refl) as (e2 & -> & ?). done.
Qed.

Lemma decode_modes_agree_witness :
  match DecodeMsgpack KAlive (NewDecoder (AppendMsgpack example_alive [])),
        DecodeMsgpack KAlive (NewStreamDecoder (Source (AppendMsgpack example_alive []) EOF)) with
  | Ok (m, d), Ok (m', d') =>
      m = m' /\ kind_of m = KAlive /\ valid m /\ pending d = pending d' /\
      exists used, AppendMsgpack example_alive [] = used ++ pending d /\ used <> []
  | Err e1, Err e2 => e1 <> ErrOutOfFuel /\ e2 <> ErrOutOfFuel
  | _, _ => False
  end.
Proof. apply decode_modes_agree. vm_compute. congruence. Defined.

(** Decoding a map folds its entries in order: a known field's value is
    stored, so that the last of duplicate keys wins, and an entry with an
    unknown key, of any length, is skipped with its whole value, however
    nested (up to the skip depth), leaving the message as it was. *)
Theorem decodeMap_folds {M} `{FieldDecoder M} msg (m m' : M) es :
  Fields m es m' -> len es < 16 -> reads (decodeMap msg m) (encodeFields es) m'.
Proof. apply reads_decodeMap. Qed.

Lemma decodeMap_folds_witness :
  Fields NackResp_zero [("SeqNo", [z2b 1]); ("Extra", map z2b [0x92; 0x01; 0xc0]); ("SeqNo", [z2b 2])]%string
    (MkNackResp 2) /\
  reads NackResp_DecodeMsgpack
    (encodeFields [("SeqNo", [z2b 1]); ("Extra", map z2b [0x92; 0x01; 0xc0]); ("SeqNo", [z2b 2])]%string)
    (MkNackResp 2).
Proof.
  assert (HF : Fields NackResp_zero
    [("SeqNo", [z2b 1]); ("Extra", map z2b [0x92; 0x01; 0xc0]); ("SeqNo", [z2b 2])]%string (MkNackResp 2)).
  { eapply Fields_known; [by vm_compute|reflexivity|apply reads_setting, (reads_decU32 1); by vm_compute|].
    apply Fields_unknown; [by vm_compute|reflexivity| |].
    { apply (V_fixarray _ 2); [lia|]. apply (Vs_cons _ 1 [z2b 1]); [lia|apply V_atom; by left|].
      apply (Vs_cons _ 0 [z2b 0xc0] []); [lia|apply V_atom; unfold atom_byte; lia|apply Vs_nil]. }
    eapply Fields_known; [by vm_compute|reflexivity|apply reads_setting, (reads_decU32 2); by vm_compute|].
    apply Fields_nil. }
  split; [exact HF|]. apply (decodeMap_folds "nack" _ _ _ HF). reflexivity.
Defined.
