(* ===== verification/Treap.v ===== *)
(** The treap of [src/queue.go]: the ordering [less], insertion, split,
    merge, deletion, the traversals and the searches.

    A Go treap is a graph of [*limitedBroadcast] that link each other; the
    operations own it, so it is a tree of entries here. Two pointers are the
    same entry when their ids are, since ids are unique. Deleting an entry
    that is not linked dereferences nil in Go and is [None] here.

    The theorems relate every operation to the sorted list of entries
    [inorder] and show that the order and the heap property are kept. *)

From S2P Require Import Prelude.
From Stdlib Require Export Sorting.Sorted.

(** ** Entries and their order *)

(** The ordering key; searches build one without an entry. *)
Record key := Key { k_transmits : Z; k_msgLen : Z; k_id : Z }.

Definition less (b o : key) : bool :=
  if negb (k_transmits b =? k_transmits o) then k_transmits b <? k_transmits o
  else if negb (k_msgLen b =? k_msgLen o) then k_msgLen b >? k_msgLen o
  else k_id b >? k_id o.

Record limitedBroadcast (B : Type) := LimitedBroadcast {
  lb_key : key;
  lb_b : B;
  lb_name : string;  (* set if the broadcast is named *)
  lb_prio : Z;
}.
Arguments LimitedBroadcast {B}.
Arguments lb_key {B}.
Arguments lb_b {B}.
Arguments lb_name {B}.
Arguments lb_prio {B}.

Inductive treap (B : Type) :=
| Leaf
| Node (left : treap B) (e : limitedBroadcast B) (right : treap B).
Arguments Leaf {B}.
Arguments Node {B}.

Section Treap.
Context {B : Type}.
Implicit Types (t lo hi : treap B) (e x : limitedBroadcast B) (k : key).

Definition lb_id e : Z := k_id (lb_key e).
Definition lb_transmits e : Z := k_transmits (lb_key e).
Definition lb_msgLen e : Z := k_msgLen (lb_key e).

(** ** Operations *)

(** The entries ordering before [k], and the rest. *)
Fixpoint treapSplit t k : treap B * treap B :=
  match t with
  | Leaf => (Leaf, Leaf)
  | Node l e r =>
      if less (lb_key e) k then let '(r, hi) := treapSplit r k in (Node l e r, hi)
      else let '(lo, l) := treapSplit l k in (lo, Node l e r)
  end.

Fixpoint treapInsert t x : treap B :=
  match t with
  | Leaf => Node Leaf x Leaf
  | Node l e r =>
      if lb_prio x >? lb_prio e then
        let '(l, r) := treapSplit t (lb_key x) in Node l x r
      else if less (lb_key x) (lb_key e) then Node (treapInsert l x) e r
      else Node l e (treapInsert r x)
  end.

Fixpoint treapMerge lo : treap B -> treap B :=
  match lo with
  | Leaf => fun hi => hi
  | Node ll le lr =>
      fix merge_hi hi : treap B :=
        match hi with
        | Leaf => lo
        | Node hl he hr =>
            if lb_prio le >? lb_prio he then Node ll le (treapMerge lr hi)
            else Node (merge_hi hl) he hr
        end
  end.

(** [None]: [x] was not linked where its key leads. *)
Fixpoint treapDelete t x : option (treap B) :=
  match t with
  | Leaf => None
  | Node l e r =>
      if lb_id e =? lb_id x then Some (treapMerge l r)
      else if less (lb_key x) (lb_key e) then
        l' ← treapDelete l x; Some (Node l' e r)
      else
        r' ← treapDelete r x; Some (Node l e r')
  end.

(** The traversals call [f] on each entry with an accumulator of type [S]
    and stop when it answers [false]. The inner loops are flattened: every
    step pushes, skips or pops one node, so [2 * size + 1] steps suffice. *)
Section Traverse.
Context {S : Type} (f : S -> limitedBroadcast B -> S * bool).

Fixpoint ascendLoop (fuel : nat) t (stack : list (limitedBroadcast B * treap B)) (k : option key)
    (s : S) : option S :=
  match fuel with
  | O => None
  | Datatypes.S fuel =>
      match t with
      | Node l e r =>
          if match k with Some k => less (lb_key e) k | None => false end
          then ascendLoop fuel r stack k s
          else ascendLoop fuel l ((e, r) :: stack) k s
      | Leaf =>
          match stack with
          | [] => Some s
          | (e, r) :: stack =>
              let '(s, go) := f s e in
              if go then ascendLoop fuel r stack None s else Some s
          end
      end
  end.

Fixpoint descendLoop (fuel : nat) t (stack : list (treap B * limitedBroadcast B)) (s : S)
    : option S :=
  match fuel with
  | O => None
  | Datatypes.S fuel =>
      match t with
      | Node l e r => descendLoop fuel r ((l, e) :: stack) s
      | Leaf =>
          match stack with
          | [] => Some s
          | (l, e) :: stack =>
              let '(s, go) := f s e in
              if go then descendLoop fuel l stack s else Some s
          end
      end
  end.
End Traverse.

Fixpoint inorder t : list (limitedBroadcast B) :=
  match t with
  | Leaf => []
  | Node l e r => inorder l ++ e :: inorder r
  end.

Definition size t : nat := length (inorder t).

Definition ascendFrom {S} t (k : option key) (f : S -> limitedBroadcast B -> S * bool) (s : S)
    : option S := ascendLoop f (2 * size t + 1) t [] k s.

Definition descend {S} t (f : S -> limitedBroadcast B -> S * bool) (s : S) : option S :=
  descendLoop f (2 * size t + 1) t [] s.

Fixpoint treapCeilLoop (best : option (limitedBroadcast B)) t k : option (limitedBroadcast B) :=
  match t with
  | Leaf => best
  | Node l e r => if less (lb_key e) k then treapCeilLoop best r k else treapCeilLoop (Some e) l k
  end.
Definition treapCeil t k : option (limitedBroadcast B) := treapCeilLoop None t k.

Fixpoint treapNextLoop (best : option (limitedBroadcast B)) t x : option (limitedBroadcast B) :=
  match t with
  | Leaf => best
  | Node l e r =>
      if less (lb_key x) (lb_key e) then treapNextLoop (Some e) l x else treapNextLoop best r x
  end.
Definition treapNext t x : option (limitedBroadcast B) := treapNextLoop None t x.

Fixpoint treapMin t : option (limitedBroadcast B) :=
  match t with
  | Leaf => None
  | Node Leaf e _ => Some e
  | Node l _ _ => treapMin l
  end.

Fixpoint treapMax t : option (limitedBroadcast B) :=
  match t with
  | Leaf => None
  | Node _ e Leaf => Some e
  | Node _ _ r => treapMax r
  end.

(** ** Specification *)

Definition lt_entry e x : Prop := less (lb_key e) (lb_key x) = true.
Definition sorted (l : list (limitedBroadcast B)) : Prop := StronglySorted lt_entry l.

Definition below k (l : list (limitedBroadcast B)) := List.filter (fun e => less (lb_key e) k) l.
Definition above k (l : list (limitedBroadcast B)) :=
  List.filter (fun e => negb (less (lb_key e) k)) l.

(** A child's priority never exceeds its parent's. *)
Definition root_le (p : Z) t : Prop :=
  match t with Leaf => True | Node _ e _ => lb_prio e <= p end.
Fixpoint heap t : Prop :=
  match t with
  | Leaf => True
  | Node l e r => root_le (lb_prio e) l /\ root_le (lb_prio e) r /\ heap l /\ heap r
  end.

(** Visit the entries of a list in order until [f] answers [false]. *)
Fixpoint foldWhile {S} (f : S -> limitedBroadcast B -> S * bool) (s : S)
    (l : list (limitedBroadcast B)) : S :=
  match l with
  | [] => s
  | e :: l => let '(s, go) := f s e in if go then foldWhile f s l else s
  end.

(** The entries a traversal has still to visit: those of the current subtree
    from [k] on, then those its stack holds. *)
Definition from (k : option key) (l : list (limitedBroadcast B)) : list (limitedBroadcast B) :=
  match k with Some k => above k l | None => l end.
Definition pendingUp (stack : list (limitedBroadcast B * treap B)) : list (limitedBroadcast B) :=
  concat (map (fun p => p.1 :: inorder p.2) stack).
Definition pendingDown (stack : list (treap B * limitedBroadcast B)) : list (limitedBroadcast B) :=
  concat (map (fun p => p.2 :: rev (inorder p.1)) stack).

(** ** Lemmas *)

Lemma less_irrefl k : less k k = false.
Proof. unfold less. rewrite !Z.eqb_refl. cbn. lia. Qed.

Lemma less_trans k1 k2 k3 : less k1 k2 = true -> less k2 k3 = true -> less k1 k3 = true.
Proof.
  unfold less. destruct k1, k2, k3; cbn.
  repeat match goal with |- context [?a =? ?b] => destruct (Z.eqb_spec a b); cbn end; lia.
Qed.

Lemma less_total k1 k2 : k_id k1 <> k_id k2 -> less k1 k2 = false -> less k2 k1 = true.
Proof.
  unfold less. destruct k1, k2; cbn.
  repeat match goal with |- context [?a =? ?b] => destruct (Z.eqb_spec a b); cbn end; lia.
Qed.

#[global] Instance lt_entry_trans : Transitive lt_entry.
Proof. intros e1 e2 e3. apply less_trans. Qed.

Lemma sorted_app l1 l2 :
  sorted (l1 ++ l2) <-> sorted l1 /\ sorted l2 /\ Forall (fun e => Forall (lt_entry e) l2) l1.
Proof.
  unfold sorted. induction l1 as [|e l1 IH]; cbn [app].
  - split; [|tauto]. intros. split_and!; [constructor|done|constructor].
  - split.
    + intros (H1 & H2)%StronglySorted_inv. apply IH in H1 as (? & ? & ?).
      apply Forall_app in H2 as [? ?]. split_and!; [by constructor|done|by constructor].
    + intros ((H1 & H2)%StronglySorted_inv & H3 & (H4 & H5)%Forall_cons_1).
      constructor; [apply IH; tauto|]. by apply Forall_app.
Qed.

Lemma sorted_middle l1 e l2 :
  sorted (l1 ++ e :: l2) <->
  sorted l1 /\ sorted l2 /\ Forall (fun x => lt_entry x e) l1 /\ Forall (lt_entry e) l2.
Proof.
  rewrite sorted_app. split.
  - intros (H1 & (H2 & H3)%StronglySorted_inv & H4). split_and!; [done..| |done].
    eapply Forall_impl; [exact H4|]. intros x Hx. by apply Forall_cons_1 in Hx as [? _].
  - intros (H1 & H2 & H3 & H4). split_and!; [done|by constructor|].
    eapply Forall_impl; [exact H3|]. intros x Hx. constructor; [done|].
    eapply Forall_impl; [exact H4|]. intros y. by apply lt_entry_trans.
Qed.

Lemma below_app k l1 l2 : below k (l1 ++ l2) = below k l1 ++ below k l2.
Proof. apply List.filter_app. Qed.
Lemma above_app k l1 l2 : above k (l1 ++ l2) = above k l1 ++ above k l2.
Proof. apply List.filter_app. Qed.

Lemma below_above_all k l :
  Forall (fun x => less (lb_key x) k = true) l -> below k l = l /\ above k l = [].
Proof.
  unfold below, above. induction 1 as [|x l Hx Hl [IH1 IH2]]; [done|].
  cbn. rewrite Hx. cbn. by rewrite IH1, IH2.
Qed.

Lemma below_above_none k l :
  Forall (fun x => less (lb_key x) k = false) l -> below k l = [] /\ above k l = l.
Proof.
  unfold below, above. induction 1 as [|x l Hx Hl [IH1 IH2]]; [done|].
  cbn. rewrite Hx. cbn. by rewrite IH1, IH2.
Qed.

Lemma below_above_perm k l : below k l ++ above k l ≡ₚ l.
Proof.
  unfold below, above. induction l as [|x l IH]; [done|]. cbn.
  destruct (less (lb_key x) k); cbn; [by rewrite IH|]. by rewrite <- Permutation_middle, IH.
Qed.

(** Where [k] cuts a sorted list that has [e] in it. *)
Lemma cut_after k l1 e l2 :
  sorted (l1 ++ e :: l2) -> less (lb_key e) k = true ->
  below k (l1 ++ e :: l2) = l1 ++ e :: below k l2 /\ above k (l1 ++ e :: l2) = above k l2.
Proof.
  intros (H1 & H2 & H3 & H4)%sorted_middle He.
  destruct (below_above_all k l1) as [E1 E2].
  { eapply Forall_impl; [exact H3|]. intros x Hx. exact (less_trans _ _ _ Hx He). }
  rewrite below_app, above_app, E1, E2. unfold below, above. cbn. by rewrite He.
Qed.

Lemma cut_before k l1 e l2 :
  sorted (l1 ++ e :: l2) -> less (lb_key e) k = false ->
  below k (l1 ++ e :: l2) = below k l1 /\ above k (l1 ++ e :: l2) = above k l1 ++ e :: l2.
Proof.
  intros (H1 & H2 & H3 & H4)%sorted_middle He.
  destruct (below_above_none k l2) as [E1 E2].
  { eapply Forall_impl; [exact H4|]. intros x Hx. destruct (less (lb_key x) k) eqn:E; [|done].
    unfold lt_entry in Hx. by rewrite (less_trans _ _ _ Hx E) in He. }
  rewrite below_app, above_app. unfold below, above in *. cbn. rewrite He. cbn.
  by rewrite E1, E2, app_nil_r.
Qed.

(** *** Contents *)

Lemma inorder_split t k :
  sorted (inorder t) ->
  inorder (treapSplit t k).1 = below k (inorder t) /\
  inorder (treapSplit t k).2 = above k (inorder t).
Proof.
  induction t as [|l IHl e r IHr]; [done|]. cbn [treapSplit inorder]. intros Hs.
  pose proof Hs as (Hl & Hr & _ & _)%sorted_middle.
  specialize (IHl Hl) as [IHl1 IHl2]. specialize (IHr Hr) as [IHr1 IHr2].
  destruct (less (lb_key e) k) eqn:E.
  - destruct (cut_after k _ _ _ Hs E) as [-> ->].
    destruct (treapSplit r k); cbn in *. by rewrite IHr1, IHr2.
  - destruct (cut_before k _ _ _ Hs E) as [-> ->].
    destruct (treapSplit l k); cbn in *. by rewrite IHl1, IHl2.
Qed.

Lemma less_asym k1 k2 : less k1 k2 = true -> less k2 k1 = false.
Proof.
  intros H. destruct (less k2 k1) eqn:E; [|done]. pose proof (less_trans _ _ _ H E) as H'.
  by rewrite less_irrefl in H'.
Qed.

Lemma inorder_insert t x :
  sorted (inorder t) -> Forall (fun e => lb_id e <> lb_id x) (inorder t) ->
  inorder (treapInsert t x) = below (lb_key x) (inorder t) ++ x :: above (lb_key x) (inorder t).
Proof.
  induction t as [|l IHl e r IHr]; intros Hs Hid; [done|]. cbn [treapInsert].
  destruct (lb_prio x >? lb_prio e).
  { destruct (inorder_split (Node l e r) (lb_key x) Hs) as [E1 E2].
    destruct (treapSplit _ _); cbn in *. by rewrite E1, E2. }
  cbn [inorder] in *. pose proof Hs as (Hl & Hr & _ & _)%sorted_middle.
  apply Forall_app in Hid as [Hil (Hie & Hir)%Forall_cons_1].
  destruct (less (lb_key x) (lb_key e)) eqn:E; cbn [inorder].
  - destruct (cut_before _ _ _ _ Hs (less_asym _ _ E)) as [-> ->].
    rewrite IHl by done. by rewrite <- app_assoc.
  - destruct (cut_after _ _ _ _ Hs (less_total _ _ (not_eq_sym Hie) E)) as [-> ->].
    rewrite IHr by done. by rewrite <- app_assoc.
Qed.

Lemma inorder_merge lo hi : inorder (treapMerge lo hi) = inorder lo ++ inorder hi.
Proof.
  revert hi. induction lo as [|ll IHll le lr IHlr]; intros hi; [done|].
  induction hi as [|hl IHhl he hr IHhr]; [cbn; by rewrite app_nil_r|].
  cbn [treapMerge]. destruct (lb_prio le >? lb_prio he); cbn [inorder].
  - rewrite IHlr. cbn [inorder]. by rewrite <- app_assoc.
  - cbn [treapMerge] in IHhl. rewrite IHhl. cbn [inorder]. by rewrite <- !app_assoc.
Qed.

Lemma inorder_delete t x l1 l2 :
  sorted (inorder t) -> NoDup (map lb_id (inorder t)) -> inorder t = l1 ++ x :: l2 ->
  exists t', treapDelete t x = Some t' /\ inorder t' = l1 ++ l2.
Proof.
  revert l1 l2. induction t as [|l IHl e r IHr]; intros l1 l2 Hs Hnd E; [by destruct l1|].
  cbn [treapDelete inorder] in *.
  pose proof Hs as (Hl & Hr & Hle & Her)%sorted_middle.
  rewrite map_app in Hnd. cbn in Hnd.
  apply NoDup_app in Hnd as (Hndl & Hdisj & (Hne & Hndr)%NoDup_cons).
  destruct (middle_inv _ _ _ _ _ _ E) as [(m & El & ->)|[(<- & -> & <-)|(m & -> & Er)]].
  - assert (Hx : x ∈ inorder l) by (rewrite El; set_solver).
    assert (Hid : lb_id e <> lb_id x).
    { intros Heq. apply (Hdisj (lb_id x)); [by apply list_elem_of_fmap_2|]. rewrite <- Heq. left. }
    rewrite (proj2 (Z.eqb_neq _ _)) by done.
    replace (less (lb_key x) (lb_key e)) with true.
    2: { symmetry. by apply (proj1 (Forall_forall _ _) Hle). }
    destruct (IHl l1 m Hl Hndl El) as (l' & -> & E'). eexists. split; [done|].
    cbn. rewrite E'. by rewrite <- app_assoc.
  - rewrite Z.eqb_refl. eexists. split; [done|]. apply inorder_merge.
  - assert (Hx : x ∈ inorder r) by (rewrite Er; set_solver).
    assert (Hid : lb_id e <> lb_id x).
    { intros Heq. apply Hne. rewrite Heq. by apply list_elem_of_fmap_2. }
    rewrite (proj2 (Z.eqb_neq _ _)) by done. rewrite less_asym.
    2: { by apply (proj1 (Forall_forall _ _) Her). }
    destruct (IHr m l2 Hr Hndr Er) as (r' & -> & E'). eexists. split; [done|].
    cbn. rewrite E'. by rewrite <- app_assoc.
Qed.

(** *** Searches *)

Lemma treapCeilLoop_spec best t k :
  sorted (inorder t) ->
  treapCeilLoop best t k = match above k (inorder t) with [] => best | e :: _ => Some e end.
Proof.
  revert best. induction t as [|l IHl e r IHr]; intros best Hs; [done|].
  cbn [treapCeilLoop inorder] in *. pose proof Hs as (Hl & Hr & _ & _)%sorted_middle.
  destruct (less (lb_key e) k) eqn:E.
  - destruct (cut_after k _ _ _ Hs E) as [_ ->]. by apply IHr.
  - destruct (cut_before k _ _ _ Hs E) as [_ ->]. rewrite IHl by done. by destruct (above k _).
Qed.

Lemma treapCeil_spec t k : sorted (inorder t) -> treapCeil t k = head (above k (inorder t)).
Proof. intros. unfold treapCeil. rewrite treapCeilLoop_spec by done. by destruct (above k _). Qed.

Lemma treapNextLoop_spec best t x :
  sorted (inorder t) ->
  treapNextLoop best t x =
    match List.filter (fun e => less (lb_key x) (lb_key e)) (inorder t) with
    | [] => best
    | e :: _ => Some e
    end.
Proof.
  revert best. induction t as [|l IHl e r IHr]; intros best Hs; [done|].
  cbn [treapNextLoop inorder] in *. pose proof Hs as (Hl & Hr & Hle & Her)%sorted_middle.
  rewrite List.filter_app. cbn [List.filter]. destruct (less (lb_key x) (lb_key e)) eqn:E.
  - rewrite IHl by done. by destruct (List.filter _ _).
  - replace (List.filter _ (inorder l)) with (@nil (limitedBroadcast B)); [by apply IHr|].
    symmetry. clear -E Hle. induction Hle as [|y m Hy Hm IH]; [done|]. cbn.
    destruct (less (lb_key x) (lb_key y)) eqn:E'; [|done].
    by rewrite (less_trans _ _ _ E' Hy) in E.
Qed.

(** The entry after [x] in a sorted list. *)
Lemma treapNext_spec t x l1 l2 :
  sorted (inorder t) -> inorder t = l1 ++ x :: l2 -> treapNext t x = head l2.
Proof.
  intros Hs E. unfold treapNext. rewrite treapNextLoop_spec by done. rewrite E in *.
  apply sorted_middle in Hs as (_ & _ & H1 & H2). rewrite List.filter_app. cbn [List.filter].
  rewrite less_irrefl. replace (List.filter _ l1) with (@nil (limitedBroadcast B)).
  2: { symmetry. clear -H1. induction H1 as [|y l Hy Hl IH]; [done|]. cbn. by rewrite (less_asym _ _ Hy). }
  cbn. destruct l2 as [|y l2]; [done|]. apply Forall_cons_1 in H2 as [H2 _]. cbn. by rewrite H2.
Qed.

Lemma treapMin_spec t : treapMin t = head (inorder t).
Proof.
  induction t as [|l IHl e r IHr]; [done|]. cbn. destruct l as [|ll le lr]; [done|].
  rewrite IHl. cbn. by destruct (inorder ll).
Qed.

Lemma treapMax_spec t : treapMax t = last (inorder t).
Proof.
  induction t as [|l IHl e r IHr]; [done|]. cbn [treapMax inorder].
  rewrite last_app, last_cons. destruct r as [|rl re rr]; [done|]. rewrite IHr. cbn [inorder].
  rewrite last_app, last_cons. by destruct (last (inorder rr)).
Qed.

(** *** Traversals *)

Lemma size_node l e r : size (Node l e r) = (size l + size r + 1)%nat.
Proof. unfold size. cbn. rewrite length_app. cbn. lia. Qed.

Lemma ascendLoop_spec {S} (f : S -> limitedBroadcast B -> S * bool) fuel t stack (k : option key) s :
  (k <> None -> sorted (inorder t)) ->
  (2 * size t + list_sum (map (fun p => 2 * size p.2 + 1) stack) < fuel)%nat ->
  ascendLoop f fuel t stack k s = Some (foldWhile f s (from k (inorder t) ++ pendingUp stack)).
Proof.
  revert t stack k s. induction fuel as [|fuel IH]; intros t stack k s Hs Hf; [lia|].
  destruct t as [|l e r]; cbn [ascendLoop].
  - replace (from k (inorder Leaf)) with (@nil (limitedBroadcast B)) by by destruct k.
    destruct stack as [|[e r] stack]; [done|]. cbn [app pendingUp map concat foldWhile fst snd].
    destruct (f s e) as [s' []]; [|done]. rewrite IH; [done..|]. unfold size, list_sum in *. cbn in *. lia.
  - rewrite size_node in Hf.
    destruct k as [k|]; [specialize (Hs ltac:(done)); cbn [inorder] in Hs; pose proof Hs as (Hl & Hr & _)%sorted_middle|].
    + cbn [from inorder]. destruct (less (lb_key e) k) eqn:E.
      * destruct (cut_after k _ _ _ Hs E) as [_ ->]. rewrite IH; [done..|lia].
      * destruct (cut_before k _ _ _ Hs E) as [_ ->]. rewrite IH; [|done|unfold size, list_sum in *; cbn in *; lia].
        cbn [from]. unfold pendingUp. cbn. by rewrite <- app_assoc.
    + rewrite IH; [|done|unfold size, list_sum in *; cbn in *; lia]. cbn [from inorder]. unfold pendingUp. cbn. by rewrite <- app_assoc.
Qed.

Lemma ascendFrom_spec {S} t (k : option key) (f : S -> limitedBroadcast B -> S * bool) s :
  (k <> None -> sorted (inorder t)) ->
  ascendFrom t k f s = Some (foldWhile f s (from k (inorder t))).
Proof.
  intros Hs. unfold ascendFrom. rewrite ascendLoop_spec; [by rewrite app_nil_r|done|cbn; lia].
Qed.

Lemma descendLoop_spec {S} (f : S -> limitedBroadcast B -> S * bool) fuel t stack s :
  (2 * size t + list_sum (map (fun p => 2 * size p.1 + 1) stack) < fuel)%nat ->
  descendLoop f fuel t stack s = Some (foldWhile f s (rev (inorder t) ++ pendingDown stack)).
Proof.
  revert t stack s. induction fuel as [|fuel IH]; intros t stack s Hf; [lia|].
  destruct t as [|l e r]; cbn [descendLoop].
  - destruct stack as [|[l e] stack]; [done|]. cbn [inorder rev app pendingDown map concat foldWhile fst snd].
    destruct (f s e) as [s' []]; [|done]. rewrite IH; [done..|]. unfold size, list_sum in *. cbn in *. lia.
  - rewrite size_node in Hf. rewrite IH; [|unfold size, list_sum in *; cbn in *; lia]. cbn [inorder]. unfold pendingDown. cbn.
    rewrite rev_app_distr. cbn. by rewrite <- !app_assoc.
Qed.

Lemma descend_spec {S} t (f : S -> limitedBroadcast B -> S * bool) s :
  descend t f s = Some (foldWhile f s (rev (inorder t))).
Proof.
  unfold descend. rewrite descendLoop_spec; [by rewrite app_nil_r|cbn; lia].
Qed.

(** *** Invariants *)

Lemma sorted_remove l1 x l2 : sorted (l1 ++ x :: l2) -> sorted (l1 ++ l2).
Proof.
  intros (S1 & S2 & S3 & S4)%sorted_middle. apply sorted_app. split_and!; [done..|].
  eapply Forall_impl; [exact S3|]. intros y Hy. eapply Forall_impl; [exact S4|].
  intros z. by apply lt_entry_trans.
Qed.

Lemma sorted_filter f l : sorted l -> sorted (List.filter f l).
Proof.
  induction 1 as [|e l Hs IH Hl]; [constructor|]. cbn. destruct (f e); [|exact IH].
  constructor; [exact IH|]. eapply List.incl_Forall; [apply List.incl_filter|exact Hl].
Qed.

Lemma sorted_insert k x l :
  sorted l -> lb_key x = k -> Forall (fun e => lb_id e <> lb_id x) l ->
  sorted (below k l ++ x :: above k l).
Proof.
  intros Hs <- Hid. apply sorted_middle. split_and!; [by apply sorted_filter..| |].
  - apply List.Forall_forall. intros e He. by apply List.filter_In in He as [_ He].
  - apply List.Forall_forall. intros e [Hin He]%List.filter_In.
    apply less_total; [|by apply negb_true_iff].
    apply (proj1 (List.Forall_forall _ _) Hid e Hin).
Qed.

Lemma heap_split t k :
  heap t -> (heap (treapSplit t k).1 /\ heap (treapSplit t k).2) /\
  forall p, root_le p t -> root_le p (treapSplit t k).1 /\ root_le p (treapSplit t k).2.
Proof.
  induction t as [|l IHl e r IHr]; [done|]. cbn [heap treapSplit].
  intros (Hl & Hr & Hhl & Hhr). specialize (IHl Hhl) as [[? ?] Rl]. specialize (IHr Hhr) as [[? ?] Rr].
  destruct (Rl _ Hl), (Rr _ Hr).
  destruct (less (lb_key e) k).
  - destruct (treapSplit r k) as [a b]; cbn in *. split; [tauto|]. intros p Hp. split; [done|].
    destruct b; cbn in *; lia.
  - destruct (treapSplit l k) as [a b]; cbn in *. split; [tauto|]. intros p Hp. split; [|done].
    destruct a; cbn in *; lia.
Qed.

Lemma heap_insert t x :
  heap t -> heap (treapInsert t x) /\
  forall p, root_le p t -> lb_prio x <= p -> root_le p (treapInsert t x).
Proof.
  induction t as [|l IHl e r IHr]; [cbn; tauto|]. intros Ht. pose proof Ht as (Hl & Hr & Hhl & Hhr).
  specialize (IHl Hhl) as [Il Rl]. specialize (IHr Hhr) as [Ir Rr]. cbn [treapInsert].
  destruct (Z.gtb_spec (lb_prio x) (lb_prio e)) as [Hp|Hp].
  - destruct (heap_split (Node l e r) (lb_key x) Ht) as [[? ?] Rs].
    destruct (Rs (lb_prio x)) as [? ?]; [cbn; lia|]. destruct (treapSplit _ _); cbn in *. tauto.
  - destruct (less (lb_key x) (lb_key e)); cbn; split_and!; auto.
Qed.

Lemma heap_merge lo hi :
  heap lo -> heap hi -> heap (treapMerge lo hi) /\
  forall p, root_le p lo -> root_le p hi -> root_le p (treapMerge lo hi).
Proof.
  revert hi. induction lo as [|ll IHll le lr IHlr]; intros hi Hlo Hhi; [done|].
  induction hi as [|hl IHhl he hr IHhr]; [done|].
  pose proof Hlo as (? & ? & ? & ?). pose proof Hhi as (? & ? & ? & ?).
  cbn [treapMerge]. destruct (Z.gtb_spec (lb_prio le) (lb_prio he)).
  - destruct (IHlr (Node hl he hr)) as [? Rm]; [done..|]. cbn. split; [|tauto].
    split_and!; [done| |done..]. apply Rm; [done|cbn; lia].
  - destruct IHhl as [? Rm]; [done|]. cbn [treapMerge] in *. cbn. split; [|tauto].
    split_and!; [|done..]. apply Rm; [cbn; lia|done].
Qed.

Lemma heap_delete t x t' :
  heap t -> treapDelete t x = Some t' -> heap t' /\ forall p, root_le p t -> root_le p t'.
Proof.
  revert t'. induction t as [|l IHl e r IHr]; intros t'; [done|]. cbn [heap treapDelete].
  intros (Hl & Hr & Hhl & Hhr). destruct (_ =? _).
  - intros [= <-]. destruct (heap_merge l r Hhl Hhr) as [? Rm]. split; [done|]. cbn. intros p Hp.
    apply Rm; [destruct l|destruct r]; cbn in *; lia.
  - destruct (less _ _).
    + intros (l' & E & [= <-])%bind_Some. destruct (IHl l' Hhl E) as [? Rl]. cbn. auto.
    + intros (r' & E & [= <-])%bind_Some. destruct (IHr r' Hhr E) as [? Rr]. cbn. auto.
Qed.

End Treap.

(** An example treap. *)
Definition exampleEntry (transmits msgLen id prio : Z) : limitedBroadcast unit :=
  LimitedBroadcast (Key transmits msgLen id) tt "" prio.
Definition exampleTreap : treap unit :=
  treapInsert (treapInsert (treapInsert Leaf (exampleEntry 0 10 1 5)) (exampleEntry 0 20 2 9))
    (exampleEntry 1 30 3 7).

(** ** Properties *)



(** The iterative, stack-based traversals terminate and visit exactly the
    entries from the key on in ascending order (all of them without a key),
    or all in descending order, stopping where the callback says so. *)
Theorem traversals_visit_in_order {B S} (t : treap B) (f : S -> limitedBroadcast B -> S * bool) s k :
  sorted (inorder t) ->
  ascendFrom t None f s = Some (foldWhile f s (inorder t)) /\
  ascendFrom t (Some k) f s = Some (foldWhile f s (above k (inorder t))) /\
  descend t f s = Some (foldWhile f s (rev (inorder t))).
Proof.
  intros Hs. split_and!; [by apply (ascendFrom_spec t None)|by apply (ascendFrom_spec t (Some k))|apply descend_spec].
Qed.

Lemma traversals_visit_in_order_witness :
  ascendFrom exampleTreap (Some (Key 0 15 MaxInt64)) (fun ids e => (ids ++ [lb_id e], true)) [] =
    Some [1; 3].
Proof.
  apply (traversals_visit_in_order exampleTreap (fun ids e => (ids ++ [lb_id e], true)) []).
  vm_compute. repeat constructor.
Defined.
