(* ===== verification/Timing.v ===== *)
(** The timing rules: [suspicionTimeout], [retransmitLimit] and
    [pushPullScale] of [src/util.go], the health score of
    [src/awareness.go] and the suspicion timer of [src/suspicion.go].

    A [time.Duration] is an [int64] of nanoseconds and wraps as Go's does. A
    [float64] is an exact rational, so rounding is not modelled, and the
    logarithms of Go's [math] are the class [MathLog] with the laws the code
    relies on. A timer is armed with the instant it is due at; it may fire at
    any instant from then on. *)

From S2P Require Import Prelude.
From Stdlib Require Export QArith.QArith QArith.Qround QArith.Qminmax.
From Stdlib Require Import Lqa.
Open Scope Z_scope.

(** ** Logarithms *)

Class MathLog := {
  Log : Q -> Q;
  Log10 : Q -> Q;
  Log2 : Q -> Q;
}.

(** Documented behaviour: monotone, zero at one, positive above it; [Log2]
    is strictly monotone and exact on powers of two. *)
Class MathLogLaws `{MathLog} : Prop := {
  Log_mono x y : (1 <= x)%Q -> (x <= y)%Q -> (Log x <= Log y)%Q;
  Log_1 : (Log 1 == 0)%Q;
  Log_pos x : (1 < x)%Q -> (0 < Log x)%Q;
  Log10_mono x y : (1 <= x)%Q -> (x <= y)%Q -> (Log10 x <= Log10 y)%Q;
  Log10_1 : (Log10 1 == 0)%Q;
  Log10_pos x : (1 < x)%Q -> (0 < Log10 x)%Q;
  Log2_strict x y : (1 <= x)%Q -> (x < y)%Q -> (Log2 x < Log2 y)%Q;
  Log2_proper x y : (x == y)%Q -> (Log2 x == Log2 y)%Q;
  Log2_pow n : 0 <= n -> (Log2 (inject_Z (2 ^ n)) == inject_Z n)%Q;
}.

(** ** Durations *)

Definition Millisecond : Z := 1000000.
Definition Second : Z := 1000000000.

(** [int64(x)] of a float: truncation toward zero. *)
Definition Qtrunc (x : Q) : Z := Z.quot (Qnum x) (Zpos (Qden x)).

(** [Duration.Seconds] *)
Definition Seconds (d : Z) : Q :=
  (inject_Z (Z.quot d Second) + inject_Z (Z.rem d Second) / inject_Z 1000000000)%Q.

Section Timing.
Context `{MathLog}.

(** ** [util.go] *)

Definition pushPullScaleThreshold : Z := 32.

Definition suspicionTimeout (suspicionMult n interval : Z) : Z :=
  let nodeScale := Qmax 1 (Log10 (Qmax 1 (inject_Z n))) in
  Z.quot (i64 (i64 (suspicionMult * i64 (Qtrunc (nodeScale * 1000))) * interval)) 1000.

Definition retransmitLimit (retransmitMult n : Z) : Z :=
  let nodeScale := Qceiling (Log10 (inject_Z (n + 1))) in
  i64 (retransmitMult * i64 nodeScale).

Definition pushPullScale (interval n : Z) : Z :=
  if n <=? pushPullScaleThreshold then interval
  else
    let multiplier :=
      (inject_Z (Qceiling (Log2 (inject_Z n) - Log2 (inject_Z pushPullScaleThreshold))) + 1)%Q in
    i64 (i64 (Qtrunc multiplier) * interval).

(** ** [awareness.go] *)

Record awareness := Awareness { aw_max : Z; aw_score : Z }.

Definition newAwareness (max : Z) : awareness := Awareness max 0.

Definition ApplyDelta (a : awareness) (delta : Z) : awareness :=
  let score := i64 (aw_score a + delta) in
  let score :=
    if score <? 0 then 0
    else if score >? aw_max a - 1 then aw_max a - 1 else score in
  Awareness (aw_max a) score.

Definition GetHealthScore (a : awareness) : Z := aw_score a.

Definition ScaleTimeout (a : awareness) (timeout : Z) : Z :=
  i64 (timeout * (aw_score a + 1)).

(** ** [suspicion.go] *)

(** [s_timer] is the instant the timer is due at, [None] once it has fired
    or was stopped. The callback is what the owner passes to [newSuspicion];
    it is run with [s_n] when the timer fires. *)
Record suspicion := Suspicion {
  s_n : Z;
  s_k : Z;
  s_min : Z;
  s_max : Z;
  s_start : Z;
  s_timer : option Z;
  s_confirmations : gset string;
}.

Definition newSuspicion (now : Z) (from : string) (k min max : Z) : suspicion :=
  let timeout := if k <? 1 then min else max in
  Suspicion 0 (i32 k) min max now (Some (now + timeout)) {[ from ]}.

Definition remainingSuspicionTime (n k elapsed min max : Z) : Z :=
  let frac := (Log (inject_Z n + 1) / Log (inject_Z k + 1))%Q in
  let raw := (Seconds max - frac * (Seconds max - Seconds min))%Q in
  let timeout := i64 (i64 (Qfloor (1000 * raw)) * Millisecond) in
  let timeout := if timeout <? min then min else timeout in
  i64 (timeout - elapsed).

(** What [Confirm] does: the new state, its answer, and whether it runs the
    callback at once. *)
Definition Confirm (now : Z) (s : suspicion) (from : string) : suspicion * bool * bool :=
  if s_n s >=? s_k s then (s, false, false)
  else if bool_decide (from ∈ s_confirmations s) then (s, false, false)
  else
    let n := i32 (s_n s + 1) in
    let elapsed := now - s_start s in
    let remaining := remainingSuspicionTime n (s_k s) elapsed (s_min s) (s_max s) in
    let '(timer, fire) :=
      match s_timer s with
      | None => (None, false)
      | Some _ => if remaining >? 0 then (Some (now + remaining), false) else (None, true)
      end in
    (Suspicion n (s_k s) (s_min s) (s_max s) (s_start s) timer ({[ from ]} ∪ s_confirmations s),
     true, fire).

(** ** Specification *)

(** The suspicion timer's invariant: the confirmations counted are those of
    distinct peers other than the accuser, at most [k] of them, and an armed
    timer is due between [min] and [max] after the start. *)
Record suspicion_ok (s : suspicion) : Prop := {
  ok_n : 0 <= s_n s <= Z.max 0 (s_k s);
  ok_k : s_k s <= MaxInt32;
  ok_size : Z.of_nat (size (s_confirmations s)) = s_n s + 1;
  ok_min : 0 <= s_min s <= s_max s;
  ok_max : s_max s <= MaxInt64;
  ok_due : match s_timer s with
           | Some due => s_start s + s_min s <= due <= s_start s + s_max s
           | None => True
           end;
}.

(** Confirmations from a list of peers, each at its own instant. *)
Definition confirmAll (s : suspicion) (l : list (Z * string)) : suspicion :=
  fold_left (fun s p => (Confirm p.1 s p.2).1.1) l s.

(** ** Lemmas *)

Lemma Qtrunc_floor x : (0 <= x)%Q -> Qtrunc x = Qfloor x.
Proof.
  destruct x as [a b]. unfold Qtrunc, Qfloor, Qle. cbn. intros. apply Z.quot_div_nonneg; lia.
Qed.

Lemma Qfloor_mono x y : (x <= y)%Q -> Qfloor x <= Qfloor y.
Proof. apply Qfloor_resp_le. Qed.

Lemma Qfloor_ge x z : (inject_Z z <= x)%Q -> z <= Qfloor x.
Proof. intros Hx. rewrite <- (Qfloor_Z z). by apply Qfloor_mono. Qed.

Lemma Seconds_eq d : 0 <= d -> (Seconds d == inject_Z d / inject_Z 1000000000)%Q.
Proof.
  intros Hd. unfold Seconds, Second. rewrite Z.quot_div_nonneg, Z.rem_mod_nonneg by lia.
  rewrite (Z.div_mod d 1000000000) at 3 by lia.
  rewrite inject_Z_plus, inject_Z_mult. field.
Qed.

Context `{!MathLogLaws}.

(** The scale factor of [suspicionTimeout], in thousandths. *)
Definition scaleMilli (n : Z) : Z := Qfloor (Qmax 1 (Log10 (Qmax 1 (inject_Z n))) * 1000).

Lemma scale_nonneg n : (0 <= Qmax 1 (Log10 (Qmax 1 (inject_Z n))) * 1000)%Q.
Proof. pose proof (Q.le_max_l 1 (Log10 (Qmax 1 (inject_Z n)))). lra. Qed.

Lemma scaleMilli_ge n : 1000 <= scaleMilli n.
Proof.
  apply Qfloor_ge. pose proof (Q.le_max_l 1 (Log10 (Qmax 1 (inject_Z n)))).
  change (inject_Z 1000) with 1000%Q. lra.
Qed.

Lemma scaleMilli_mono n m : n <= m -> scaleMilli n <= scaleMilli m.
Proof.
  intros Hnm. apply Qfloor_mono. apply Qmult_le_compat_r; [|easy].
  apply Q.max_le_compat_l, Log10_mono; [apply Q.le_max_l|].
  apply Q.max_le_compat_l. by rewrite <- Zle_Qle.
Qed.

Lemma suspicionTimeout_eq mult n interval :
  1 <= mult -> 1 <= interval -> mult * scaleMilli n * interval <= MaxInt64 ->
  suspicionTimeout mult n interval = mult * scaleMilli n * interval / 1000.
Proof.
  intros Hm Hi Hov. unfold suspicionTimeout. rewrite Qtrunc_floor by apply scale_nonneg.
  fold (scaleMilli n). pose proof (scaleMilli_ge n) as Hs.
  assert (Hmin : MinInt64 <= 0) by easy.
  assert (H1 : scaleMilli n <= mult * scaleMilli n) by nia.
  assert (H2 : mult * scaleMilli n <= mult * scaleMilli n * interval) by nia.
  rewrite (i64_small (scaleMilli n)) by lia. rewrite (i64_small (mult * scaleMilli n)) by lia.
  rewrite i64_small by lia. apply Z.quot_div_nonneg; lia.
Qed.

(** *** Remaining suspicion time *)

(** The timeout [remainingSuspicionTime] computes before it takes the
    elapsed time off. *)
Definition suspicionTotal (n k min max : Z) : Z :=
  let frac := (Log (inject_Z n + 1) / Log (inject_Z k + 1))%Q in
  let raw := (Seconds max - frac * (Seconds max - Seconds min))%Q in
  Z.max min (Qfloor (1000 * raw) * Millisecond).

Lemma inject_1 n : (inject_Z n + 1 == inject_Z (n + 1))%Q.
Proof. by rewrite inject_Z_plus. Qed.

Lemma Log_k_pos k : 1 <= k -> (0 < Log (inject_Z k + 1))%Q.
Proof.
  intros Hk. apply Log_pos. assert (inject_Z 1 <= inject_Z k)%Q by (by rewrite <- Zle_Qle).
  change (inject_Z 1) with 1%Q in *. lra.
Qed.

Lemma frac_mono n n' k :
  0 <= n -> n <= n' -> 1 <= k ->
  (Log (inject_Z n + 1) / Log (inject_Z k + 1) <= Log (inject_Z n' + 1) / Log (inject_Z k + 1))%Q.
Proof.
  intros Hn Hnn Hk. pose proof (Log_k_pos k Hk).
  assert (inject_Z 0 <= inject_Z n)%Q by (by rewrite <- Zle_Qle).
  assert (inject_Z n <= inject_Z n')%Q by (by rewrite <- Zle_Qle).
  change (inject_Z 0) with 0%Q in *.
  unfold Qdiv. apply Qmult_le_compat_r; [apply Log_mono; lra|].
  by apply Qinv_le_0_compat, Qlt_le_weak.
Qed.

Lemma frac_range n k :
  0 <= n <= k -> 1 <= k ->
  (0 <= Log (inject_Z n + 1) / Log (inject_Z k + 1) <= 1)%Q.
Proof.
  intros Hn Hk. pose proof (Log_k_pos k Hk) as Hp. split.
  - assert (0 <= Log (inject_Z n + 1))%Q.
    { rewrite <- Log_1. apply Log_mono; [lra|].
      assert (inject_Z 0 <= inject_Z n)%Q by (rewrite <- Zle_Qle; lia).
      change (inject_Z 0) with 0%Q in *. lra. }
    apply Qle_shift_div_l; [done|]. lra.
  - eapply Qle_trans; [apply (frac_mono n k k); lia|].
    apply Qle_shift_div_r; [done|]. lra.
Qed.

Lemma Seconds_mono a b : 0 <= a -> a <= b -> (Seconds a <= Seconds b)%Q.
Proof.
  intros Ha Hab. rewrite !Seconds_eq by lia. unfold Qdiv. apply Qmult_le_compat_r; [|easy].
  by rewrite <- Zle_Qle.
Qed.

Lemma floor_ms x d :
  0 <= d -> (x <= Seconds d)%Q -> Qfloor (1000 * x) * Millisecond <= d.
Proof.
  intros Hd Hx. rewrite Seconds_eq in Hx by done.
  assert (H1 : (inject_Z (Qfloor (1000 * x)) <= 1000 * x)%Q) by apply Qfloor_le.
  unfold Millisecond. rewrite Zle_Qle, inject_Z_mult.
  assert (H2 : (inject_Z d / inject_Z 1000000000 * inject_Z 1000000000 == inject_Z d)%Q) by field.
  change (inject_Z 1000000) with 1000000%Q.
  change (inject_Z 1000000000) with 1000000000%Q in *.
  set (f := inject_Z (Qfloor (1000 * x))) in *. set (y := (inject_Z d / 1000000000)%Q) in *. lra.
Qed.

Definition suspicionRaw (n k min max : Z) : Q :=
  (Seconds max - Log (inject_Z n + 1) / Log (inject_Z k + 1) * (Seconds max - Seconds min))%Q.

Lemma suspicionRaw_range n k min max :
  0 <= n <= k -> 1 <= k -> 0 <= min <= max ->
  (Seconds min <= suspicionRaw n k min max <= Seconds max)%Q.
Proof.
  intros Hn Hk Hm. pose proof (frac_range n k Hn Hk) as [H1 H2].
  pose proof (Seconds_mono min max ltac:(lia) ltac:(lia)) as H3. unfold suspicionRaw.
  set (f := (Log (inject_Z n + 1) / Log (inject_Z k + 1))%Q) in *.
  set (a := Seconds min) in *. set (b := Seconds max) in *. split; nra.
Qed.

Lemma suspicionRaw_mono n n' k min max :
  0 <= n -> n <= n' -> 1 <= k -> 0 <= min <= max ->
  (suspicionRaw n' k min max <= suspicionRaw n k min max)%Q.
Proof.
  intros Hn Hn' Hk Hm. pose proof (frac_mono n n' k Hn Hn' Hk) as H1.
  pose proof (Seconds_mono min max ltac:(lia) ltac:(lia)) as H3. unfold suspicionRaw.
  set (f := (Log (inject_Z n + 1) / Log (inject_Z k + 1))%Q) in *.
  set (f' := (Log (inject_Z n' + 1) / Log (inject_Z k + 1))%Q) in *.
  set (a := Seconds min) in *. set (b := Seconds max) in *. nra.
Qed.

Lemma suspicionRaw_k k min max :
  1 <= k -> (suspicionRaw k k min max == Seconds min)%Q.
Proof.
  intros Hk. pose proof (Log_k_pos k Hk). unfold suspicionRaw. field. lra.
Qed.

Lemma suspicionTotal_range n k min max :
  0 <= n <= k -> 1 <= k -> 0 <= min <= max -> min <= suspicionTotal n k min max <= max.
Proof.
  intros Hn Hk Hm. unfold suspicionTotal. cbv zeta. fold (suspicionRaw n k min max).
  pose proof (suspicionRaw_range n k min max Hn Hk Hm) as [_ H2].
  pose proof (floor_ms _ max ltac:(lia) H2). lia.
Qed.

Lemma suspicionTotal_mono n n' k min max :
  0 <= n -> n <= n' -> 1 <= k -> 0 <= min <= max ->
  suspicionTotal n' k min max <= suspicionTotal n k min max.
Proof.
  intros Hn Hn' Hk Hm. unfold suspicionTotal. cbv zeta.
  fold (suspicionRaw n k min max) (suspicionRaw n' k min max).
  pose proof (suspicionRaw_mono n n' k min max Hn Hn' Hk Hm) as H1.
  assert (Qfloor (1000 * suspicionRaw n' k min max) <= Qfloor (1000 * suspicionRaw n k min max))
    by (apply Qfloor_mono; lra).
  unfold Millisecond. lia.
Qed.

Lemma suspicionTotal_k k min max : 1 <= k -> 0 <= min <= max -> suspicionTotal k k min max = min.
Proof.
  intros Hk Hm. unfold suspicionTotal. cbv zeta. fold (suspicionRaw k k min max).
  pose proof (suspicionRaw_k k min max Hk) as H1.
  pose proof (floor_ms (suspicionRaw k k min max) min ltac:(lia) ltac:(lra)). lia.
Qed.

Lemma remaining_eq n k elapsed min max :
  0 <= n <= k -> 1 <= k -> 0 <= min <= max -> max <= MaxInt64 -> 0 <= elapsed <= MaxInt64 ->
  remainingSuspicionTime n k elapsed min max = suspicionTotal n k min max - elapsed.
Proof.
  intros Hn Hk Hm Hmax He. pose proof (suspicionTotal_range n k min max Hn Hk Hm) as Ht.
  unfold remainingSuspicionTime, suspicionTotal in *. cbv zeta in *.
  fold (suspicionRaw n k min max) in *.
  pose proof (suspicionRaw_range n k min max Hn Hk Hm) as [H1 H2].
  pose proof (floor_ms _ max ltac:(lia) H2) as H3.
  pose proof (Seconds_mono 0 min ltac:(lia) ltac:(lia)) as Hs.
  assert (H4 : 0 <= Qfloor (1000 * suspicionRaw n k min max)).
  { apply Qfloor_ge. change (Seconds 0) with (inject_Z 0 + inject_Z 0 / inject_Z 1000000000)%Q in Hs.
    change (inject_Z 0) with 0%Q in *. unfold Qdiv in Hs. lra. }
  assert (Hmin : MinInt64 <= -MaxInt64) by easy. unfold Millisecond in *.
  set (f := Qfloor (1000 * suspicionRaw n k min max)) in *.
  rewrite (i64_small f) by lia. rewrite (i64_small (f * 1000000)) by lia.
  replace (if f * 1000000 <? min then min else f * 1000000) with (Z.max min (f * 1000000))
    by (destruct (Z.ltb_spec (f * 1000000) min); lia).
  apply i64_small. lia.
Qed.

(** *** Confirmations *)

Lemma Confirm_elapsed_ok s now :
  suspicion_ok s -> s_n s < s_k s -> 0 <= now - s_start s <= MaxInt64 ->
  remainingSuspicionTime (s_n s + 1) (s_k s) (now - s_start s) (s_min s) (s_max s) =
    suspicionTotal (s_n s + 1) (s_k s) (s_min s) (s_max s) - (now - s_start s) /\
  s_min s <= suspicionTotal (s_n s + 1) (s_k s) (s_min s) (s_max s) <= s_max s.
Proof.
  intros [] Hlt Hnow. split; [apply remaining_eq; lia|apply suspicionTotal_range; lia].
Qed.

Lemma Confirm_ok now s from :
  suspicion_ok s -> 0 <= now - s_start s <= MaxInt64 -> suspicion_ok (Confirm now s from).1.1.
Proof.
  intros Hok Hnow. unfold Confirm. destruct (Z.geb_spec (s_n s) (s_k s)) as [|Hlt]; [done|].
  case_bool_decide as Hin; [done|]. destruct (Confirm_elapsed_ok s now Hok Hlt Hnow) as [Hr Ht].
  destruct Hok as [Hn Hk Hsz Hmin Hmax Hdue].
  assert (Hi : i32 (s_n s + 1) = s_n s + 1) by ints. rewrite Hi, Hr.
  set (total := suspicionTotal _ _ _ _) in *.
  assert (Hsz' : Z.of_nat (size ({[ from ]} ∪ s_confirmations s)) = s_n s + 1 + 1).
  { rewrite size_union by set_solver. rewrite size_singleton. lia. }
  destruct (s_timer s) as [due|].
  - destruct (_ >? 0); constructor; cbn; try done; lia.
  - constructor; cbn; try done; lia.
Qed.

Lemma newSuspicion_ok now from k min max :
  MinInt32 <= k <= MaxInt32 -> 0 <= min <= max -> max <= MaxInt64 ->
  suspicion_ok (newSuspicion now from k min max).
Proof.
  intros Hk Hm Hmax. unfold newSuspicion. constructor; cbn.
  - lia.
  - ints.
  - rewrite size_singleton. done.
  - done.
  - done.
  - destruct (k <? 1); lia.
Qed.

(** What a run of confirmations keeps and counts. *)
Lemma confirmAll_spec s l :
  suspicion_ok s -> Forall (fun p => 0 <= p.1 - s_start s <= MaxInt64) l ->
  suspicion_ok (confirmAll s l) /\
  s_k (confirmAll s l) = s_k s /\ s_start (confirmAll s l) = s_start s /\
  s_min (confirmAll s l) = s_min s /\ s_max (confirmAll s l) = s_max s /\
  (s_n (confirmAll s l) < s_k s ->
     s_confirmations (confirmAll s l) = s_confirmations s ∪ list_to_set (map snd l)) /\
  s_confirmations (confirmAll s l) ⊆ s_confirmations s ∪ list_to_set (map snd l) /\
  s_n s <= s_n (confirmAll s l).
Proof.
  revert s. induction l as [|[now from] l IH]; intros s Hok Hl.
  { cbn. split_and!; [done..| | |lia]; intros; set_solver. }
  apply Forall_cons_1 in Hl as [Hnow Hl]. cbn [confirmAll fold_left fst snd] in *.
  pose proof (Confirm_ok now s from Hok Hnow) as Hok'.
  change (fold_left _ l ?s) with (confirmAll s l).
  set (s' := (Confirm now s from).1.1) in *.
  assert (Hs' : s_k s' = s_k s /\ s_start s' = s_start s /\ s_min s' = s_min s /\ s_max s' = s_max s
     /\ (s_n s < s_k s -> s_confirmations s' = {[ from ]} ∪ s_confirmations s)
     /\ (s_n s >= s_k s -> s_confirmations s' = s_confirmations s)
     /\ s_n s <= s_n s').
  { destruct Hok as [Hn Hk Hsz _ _ _]. subst s'. unfold Confirm.
    destruct (Z.geb_spec (s_n s) (s_k s)) as [|Hlt]; [cbn; split_and!; try done; lia|].
    case_bool_decide as Hin.
    - cbn. split_and!; try done; try lia. intros. set_solver.
    - destruct (s_timer s); [destruct (_ >? 0)|]; cbn; split_and!; try done; try lia; ints. }
  destruct Hs' as (Ek & Est & Emin & Emax & Hc1 & Hc2 & Hn).
  destruct (IH s' Hok') as (IH1 & IH2 & IH3 & IH4 & IH5 & IH6 & IH7 & IH8).
  { eapply Forall_impl; [exact Hl|]. intros p. by rewrite Est. }
  split_and!; [done|congruence..| | |lia].
  - intros Hlt. rewrite Ek in IH6. rewrite IH6 by done. rewrite Hc1 by lia. clear. set_solver.
  - clear -IH7 Hc1 Hc2. destruct (Z.lt_ge_cases (s_n s) (s_k s)) as [Hlt|Hge].
    + rewrite Hc1 in IH7 by done. clear -IH7. set_solver.
    + rewrite Hc2 in IH7 by lia. clear -IH7. set_solver.
Qed.

(** *** Push/pull scaling *)

Lemma Qceiling_range x z : (inject_Z (z - 1) < x)%Q -> (x <= inject_Z z)%Q -> Qceiling x = z.
Proof.
  intros H1 H2. pose proof (Qle_ceiling x) as H3. pose proof (Qceiling_lt x) as H4.
  assert (inject_Z (z - 1) < inject_Z (Qceiling x))%Q as H5 by lra.
  assert (inject_Z (Qceiling x - 1) < inject_Z z)%Q as H6 by lra.
  rewrite <- Zlt_Qlt in H5, H6. lia.
Qed.

Lemma pushPullScale_eq interval n d :
  0 <= d -> 32 * 2 ^ d < n -> n <= 32 * 2 ^ (d + 1) -> d + 2 <= MaxInt64 ->
  pushPullScale interval n = i64 ((d + 2) * interval).
Proof.
  intros Hd H1 H2 Hd64. unfold pushPullScale, pushPullScaleThreshold.
  assert (1 <= 2 ^ d) by (apply (Z.pow_le_mono_r 2 0 d); lia).
  replace (n <=? 32) with false by lia.
  assert (E5 : forall m, 0 <= m -> (Log2 (inject_Z (32 * 2 ^ m)) == inject_Z (m + 5))%Q).
  { intros m Hm. rewrite <- (Log2_pow (m + 5)) by lia. apply Log2_proper.
    rewrite Z.pow_add_r by lia. apply inject_Z_injective. lia. }
  assert (Hlo : (inject_Z (d + 5) < Log2 (inject_Z n))%Q).
  { rewrite <- E5 by lia. apply Log2_strict.
    - change 1%Q with (inject_Z 1). rewrite <- Zle_Qle. lia.
    - rewrite <- Zlt_Qlt. lia. }
  assert (Hhi : (Log2 (inject_Z n) <= inject_Z (d + 1 + 5))%Q).
  { rewrite <- E5 by lia. destruct (Z.eq_dec n (32 * 2 ^ (d + 1))) as [->|]; [lra|].
    apply Qlt_le_weak, Log2_strict.
    - change 1%Q with (inject_Z 1). rewrite <- Zle_Qle. lia.
    - rewrite <- Zlt_Qlt. lia. }
  assert (E32 : (Log2 (inject_Z 32) == inject_Z 5)%Q) by apply (Log2_pow 5 ltac:(lia)).
  rewrite (Qceiling_range _ (d + 1)).
  - assert (E : (inject_Z (d + 1) + 1 == inject_Z (d + 2))%Q).
    { change 1%Q with (inject_Z 1). rewrite <- inject_Z_plus. apply inject_Z_injective. lia. }
    rewrite Qtrunc_floor.
    + rewrite (Qfloor_comp _ _ E), Qfloor_Z, (i64_small (d + 2)); [done|].
      assert (MinInt64 <= 0) by easy. lia.
    + rewrite E. change 0%Q with (inject_Z 0). rewrite <- Zle_Qle. lia.
  - rewrite E32. replace (d + 1 - 1) with d by lia. rewrite inject_Z_plus in Hlo. lra.
  - rewrite E32. rewrite (inject_Z_plus (d + 1)) in Hhi. lra.
Qed.

End Timing.

(** ** A concrete logarithm

    Linear between powers of two: it meets the laws, and runs. *)

Definition plog (x : Q) : Q :=
  let e := Z.log2 (Qfloor x) in (inject_Z e + (x / inject_Z (2 ^ e) - 1))%Q.

#[global] Instance plogMath : MathLog := {|
  Log x := (7 # 10) * plog x;
  Log10 x := (3 # 10) * plog x;
  Log2 x := plog x;
|}%Q.

Lemma plog_bounds x :
  (1 <= x)%Q ->
  let e := Z.log2 (Qfloor x) in
  0 <= e /\ (inject_Z (2 ^ e) <= x)%Q /\ (x < 2 * inject_Z (2 ^ e))%Q /\ (0 < inject_Z (2 ^ e))%Q.
Proof.
  intros Hx e. assert (Hf : 1 <= Qfloor x) by (by apply Qfloor_ge).
  pose proof (Z.log2_spec (Qfloor x) ltac:(lia)) as [H1 H2]. fold e in H1, H2.
  pose proof (Z.log2_nonneg (Qfloor x)) as He. fold e in He. split_and!; [done|..].
  - eapply Qle_trans; [|apply Qfloor_le]. by rewrite <- Zle_Qle.
  - eapply Qlt_le_trans; [apply Qlt_floor|]. change 2%Q with (inject_Z 2).
    rewrite <- inject_Z_mult, <- Zle_Qle. rewrite Z.pow_succ_r in H2 by lia. lia.
  - change 0%Q with (inject_Z 0). rewrite <- Zlt_Qlt. lia.
Qed.

Lemma plog_strict x y : (1 <= x)%Q -> (x < y)%Q -> (plog x < plog y)%Q.
Proof.
  intros Hx Hxy. destruct (plog_bounds x Hx) as (He & H1 & H2 & H3).
  destruct (plog_bounds y) as (He' & H1' & H2' & H3'); [lra|]. unfold plog.
  assert (Hee : Z.log2 (Qfloor x) <= Z.log2 (Qfloor y))
    by (apply Z.log2_le_mono, Qfloor_mono; lra).
  set (e := Z.log2 (Qfloor x)) in *. set (e' := Z.log2 (Qfloor y)) in *.
  destruct (Z.eq_dec e e') as [<-|Hne].
  - assert (x / inject_Z (2 ^ e) < y / inject_Z (2 ^ e))%Q; [|lra].
    apply Qlt_shift_div_l; [done|]. field_simplify; [lra|lra].
  - assert (x / inject_Z (2 ^ e) < 2)%Q by (apply Qlt_shift_div_r; done).
    assert (1 <= y / inject_Z (2 ^ e'))%Q by (apply Qle_shift_div_l; [done|]; lra).
    assert (inject_Z (e + 1) <= inject_Z e')%Q as Hi by (rewrite <- Zle_Qle; lia).
    rewrite inject_Z_plus in Hi. change (inject_Z 1) with 1%Q in Hi. lra.
Qed.

Lemma plog_pow n : 0 <= n -> (plog (inject_Z (2 ^ n)) == inject_Z n)%Q.
Proof.
  intros Hn. unfold plog. rewrite Qfloor_Z, Z.log2_pow2 by done.
  assert (~ (inject_Z (2 ^ n) == 0)%Q).
  { change 0%Q with (inject_Z 0). rewrite inject_Z_injective. lia. }
  by field.
Qed.

Lemma plog_mono x y : (1 <= x)%Q -> (x <= y)%Q -> (plog x <= plog y)%Q.
Proof.
  intros Hx Hxy. apply Qle_lteq in Hxy as [Hlt|E]; [by apply Qlt_le_weak, plog_strict|].
  unfold plog. rewrite (Qfloor_comp _ _ E), E. lra.
Qed.

Lemma plog_1 : (plog 1 == 0)%Q.
Proof. apply (plog_pow 0). done. Qed.

Lemma plog_pos x : (1 < x)%Q -> (0 < plog x)%Q.
Proof. intros Hx. rewrite <- plog_1. apply plog_strict; lra. Qed.

#[global] Instance plogLaws : MathLogLaws.
Proof.
  constructor; unfold Log, Log10, Log2; cbn [plogMath].
  - intros x y Hx Hxy. pose proof (plog_mono x y Hx Hxy). lra.
  - rewrite plog_1. lra.
  - intros x Hx. pose proof (plog_pos x Hx). lra.
  - intros x y Hx Hxy. pose proof (plog_mono x y Hx Hxy). lra.
  - rewrite plog_1. lra.
  - intros x Hx. pose proof (plog_pos x Hx). lra.
  - apply plog_strict.
  - intros x y E. unfold plog. by rewrite (Qfloor_comp _ _ E), E.
  - apply plog_pow.
Qed.

(** ** Properties *)

(** A suspicion lasts at least [SuspicionMult] probe intervals whatever
    the cluster size, and a larger cluster never gets a shorter timeout, as
    long as the product stays inside an [int64]. *)
Theorem suspicionTimeout_bounds `{MathLogLaws} mult n m interval :
  1 <= mult -> 1 <= interval -> n <= m ->
  mult * scaleMilli m * interval <= MaxInt64 ->
  mult * interval <= suspicionTimeout mult n interval <= suspicionTimeout mult m interval.
Proof.
  intros Hm Hi Hnm Hov. pose proof (scaleMilli_ge n). pose proof (scaleMilli_mono n m Hnm).
  assert (mult * scaleMilli n * interval <= mult * scaleMilli m * interval) by nia.
  rewrite !suspicionTimeout_eq by lia. split; [|apply Z.div_le_mono; lia].
  apply Z.div_le_lower_bound; nia.
Qed.

Lemma suspicionTimeout_bounds_witness :
  4 * 1000000000 <= suspicionTimeout 4 3 1000000000 <= suspicionTimeout 4 2000 1000000000.
Proof.
  apply (suspicionTimeout_bounds 4 3 2000 1000000000); try lia. vm_compute. congruence.
Defined.

(** The suspicion timeout falls from [max] to [min] as independent
    confirmations arrive: it is always between the two, never grows with
    another confirmation and is exactly [min] at [k] of them, less the time
    already elapsed. *)
Theorem remainingSuspicionTime_bounds `{MathLogLaws} n n' k elapsed min max :
  0 <= n <= n' -> n' <= k -> 1 <= k -> 0 <= min <= max -> max <= MaxInt64 ->
  0 <= elapsed <= MaxInt64 ->
  min - elapsed <= remainingSuspicionTime n' k elapsed min max /\
  remainingSuspicionTime n' k elapsed min max
    <= remainingSuspicionTime n k elapsed min max <= max - elapsed /\
  remainingSuspicionTime k k elapsed min max = min - elapsed.
Proof.
  intros Hn Hn' Hk Hm Hmax He. rewrite !remaining_eq by lia.
  pose proof (suspicionTotal_range n k min max ltac:(lia) Hk Hm).
  pose proof (suspicionTotal_range n' k min max ltac:(lia) Hk Hm).
  pose proof (suspicionTotal_mono n n' k min max ltac:(lia) ltac:(lia) Hk Hm).
  rewrite suspicionTotal_k by done. lia.
Qed.

Lemma remainingSuspicionTime_bounds_witness :
  4000000000 - 5 <= remainingSuspicionTime 2 3 5 4000000000 24000000000 /\
  remainingSuspicionTime 2 3 5 4000000000 24000000000
    <= remainingSuspicionTime 1 3 5 4000000000 24000000000 <= 24000000000 - 5 /\
  remainingSuspicionTime 3 3 5 4000000000 24000000000 = 4000000000 - 5.
Proof.
  apply (remainingSuspicionTime_bounds 1 2 3 5 4000000000 24000000000);
    vm_compute; intuition congruence.
Defined.

(** A suspicion counts each peer once, never the accuser, and stops at
    [k]: after any run of confirmations the count is the number of distinct
    other peers, capped at [k]. Throughout, an armed timer is due between
    [min] and [max] after the start. *)
Theorem suspicion_counts_distinct_peers `{MathLogLaws} now from k min max l :
  MinInt32 <= k <= MaxInt32 -> 0 <= min <= max -> max <= MaxInt64 ->
  Forall (fun p => 0 <= p.1 - now <= MaxInt64) l ->
  let s := confirmAll (newSuspicion now from k min max) l in
  s_n s = Z.min (Z.max 0 k) (Z.of_nat (size (list_to_set (map snd l) ∖ {[ from ]} : gset string))) /\
  match s_timer s with
  | Some due => now + min <= due <= now + max
  | None => True
  end.
Proof.
  intros Hk Hm Hmax Hl s. pose proof (newSuspicion_ok now from k min max Hk Hm Hmax) as Hok.
  destruct (confirmAll_spec _ l Hok Hl) as (Hs & Ek & Est & Emin & Emax & Hlt & Hsub & _).
  fold s in Hs, Ek, Est, Emin, Emax, Hlt, Hsub. cbn [newSuspicion s_k s_start s_min s_max s_confirmations] in *.
  assert (Hi : i32 k = k) by (unfold_ints; Z.to_euclidean_division_equations; lia).
  rewrite Hi in *. destruct Hs as [Hn _ Hsz _ _ Hdue]. rewrite Est, Emin, Emax in Hdue.
  split; [|by destruct (s_timer s)]. rewrite Ek in Hn.
  set (peers := list_to_set (map snd l) : gset string) in *.
  assert (Hun : {[ from ]} ∪ peers = {[ from ]} ∪ (peers ∖ {[ from ]})).
  { clear. apply set_eq. intros x. destruct (decide (x = from)); set_solver. }
  assert (Hsize : Z.of_nat (size ({[ from ]} ∪ peers)) = 1 + Z.of_nat (size (peers ∖ {[ from ]}))).
  { rewrite Hun, size_union by (clear; set_solver). rewrite size_singleton. lia. }
  apply subseteq_size in Hsub. destruct (Z.lt_ge_cases (s_n s) k) as [H1|H1].
  - rewrite (Hlt H1) in Hsz. lia.
  - lia.
Qed.

Definition exampleConfirms : list (Z * string) :=
  [(1000, "a"); (2000, "me"); (3000, "b"); (4000, "a")]%string.

Lemma suspicion_counts_distinct_peers_witness :
  let s := confirmAll (newSuspicion 0 "me" 3 4000000000 24000000000) exampleConfirms in
  s_n s = Z.min (Z.max 0 3)
            (Z.of_nat (size (list_to_set (map snd exampleConfirms) ∖ {[ "me"%string ]} : gset string))) /\
  match s_timer s with
  | Some due => 0 + 4000000000 <= due <= 0 + 24000000000
  | None => True
  end.
Proof.
  apply (suspicion_counts_distinct_peers 0 "me" 3 4000000000 24000000000 exampleConfirms).
  - easy.
  - easy.
  - easy.
  - unfold exampleConfirms. repeat constructor; easy.
Defined.

(** A suspicion never runs its callback before the minimum timeout: if
    [Confirm] fires it directly, at least [min] has elapsed since the start. *)
Theorem Confirm_never_fires_early `{MathLogLaws} now s from s' ok :
  suspicion_ok s -> 0 <= now - s_start s <= MaxInt64 ->
  Confirm now s from = (s', ok, true) -> s_start s + s_min s <= now /\ ok = true /\ s_timer s' = None.
Proof.
  intros Hok Hnow. unfold Confirm. destruct (Z.geb_spec (s_n s) (s_k s)) as [|Hlt]; [done|].
  case_bool_decide; [done|]. destruct (Confirm_elapsed_ok s now Hok Hlt Hnow) as [Hr Ht].
  destruct Hok as [Hn Hk _ _ _ _].
  assert (Hi : i32 (s_n s + 1) = s_n s + 1) by (clear -Hn Hk Hlt; ints). rewrite Hi, Hr.
  destruct (s_timer s); [|done]. destruct (Z.gtb_spec (suspicionTotal (s_n s + 1) (s_k s) (s_min s) (s_max s) - (now - s_start s)) 0); [done|].
  intros [= <- <-]. cbn. split; [lia|done].
Qed.

Lemma Confirm_never_fires_early_witness :
  0 + 4000000000 <= 9000000000.
Proof.
  apply (Confirm_never_fires_early 9000000000 (newSuspicion 0 "me" 1 4000000000 24000000000) "a"
           (Confirm 9000000000 (newSuspicion 0 "me" 1 4000000000 24000000000) "a").1.1 true).
  - apply newSuspicion_ok; vm_compute; intuition congruence.
  - vm_compute. intuition congruence.
  - reflexivity.
Defined.

(** The health score stays in [0, max) under every delta, so a scaled
    timeout is at least the timeout and at most [max] times it. *)
Theorem awareness_bounds a delta timeout :
  1 <= aw_max a -> 0 <= aw_score a < aw_max a -> aw_max a + Z.abs delta <= MaxInt64 ->
  0 <= timeout -> timeout * aw_max a <= MaxInt64 ->
  0 <= aw_score (ApplyDelta a delta) < aw_max (ApplyDelta a delta) /\
  aw_score (ApplyDelta a delta) = Z.max 0 (Z.min (aw_max a - 1) (aw_score a + delta)) /\
  timeout <= ScaleTimeout (ApplyDelta a delta) timeout <= timeout * aw_max a.
Proof.
  intros Hmax Hs Hd Ht Hov. assert (Hmin : MinInt64 <= - MaxInt64) by easy.
  assert (E : aw_score (ApplyDelta a delta) = Z.max 0 (Z.min (aw_max a - 1) (aw_score a + delta))).
  { unfold ApplyDelta. cbn. rewrite i64_small by lia.
    destruct (Z.ltb_spec (aw_score a + delta) 0), (Z.gtb_spec (aw_score a + delta) (aw_max a - 1)); lia. }
  rewrite E. cbn [ApplyDelta aw_max]. split_and!; [lia..| |]; unfold ScaleTimeout; rewrite E, i64_small; nia.
Qed.

Lemma awareness_bounds_witness :
  0 <= aw_score (ApplyDelta (newAwareness 8) 20) < 8 /\
  aw_score (ApplyDelta (newAwareness 8) 20) = 7 /\
  500 <= ScaleTimeout (ApplyDelta (newAwareness 8) 20) 500 <= 500 * 8.
Proof. apply (awareness_bounds (newAwareness 8) 20 500); vm_compute; intuition congruence. Defined.

(** Push/pull runs at the configured interval up to 32 nodes and then
    one interval slower for each doubling: twice the interval from the 33rd
    node, three times from the 65th. *)
Theorem pushPullScale_doubles `{MathLogLaws} interval n d :
  0 <= interval -> (d + 2) * interval <= MaxInt64 -> 0 <= d -> d + 2 <= MaxInt64 ->
  (n <= 32 -> pushPullScale interval n = interval) /\
  (32 * 2 ^ d < n <= 32 * 2 ^ (d + 1) -> pushPullScale interval n = (d + 2) * interval).
Proof.
  intros Hi Hov Hd Hd2. split.
  - intros Hn. unfold pushPullScale, pushPullScaleThreshold. by rewrite (proj2 (Z.leb_le _ _)).
  - intros [H1 H2]. rewrite (pushPullScale_eq interval n d) by done.
    apply i64_small. assert (MinInt64 <= 0) by easy. nia.
Qed.

Lemma pushPullScale_doubles_witness : pushPullScale 30000000000 65 = 3 * 30000000000.
Proof.
  apply (pushPullScale_doubles 30000000000 65 1); vm_compute; intuition congruence.
Defined.
