(* ===== verification/Queue.v ===== *)
(** The transmit-limited broadcast queue of [src/queue.go].

    The queue is a treap of entries ordered by [less], the map [tm] of named
    entries and the id counter. An operation returns [None] where Go would
    dereference nil; the theorems show that it never does. [Finished] calls
    are returned in order. A [nil] map of named entries is the empty map.

    [Message] is an argument of the operations that call it: a broadcast may
    answer differently at different times, as the code allows for. *)

From S2P Require Import Prelude Timing Treap.

(** How a broadcast answers the type switches of the queue. *)
Inductive bkind :=
| BNamed (name : string)
| BUnique
| BPlain.

Class Broadcast (B : Type) := {
  kindOf : B -> bkind;
  Invalidates : B -> B -> bool;
}.

Record TransmitLimitedQueue (B : Type) := Queue {
  q_RetransmitMult : Z;
  q_root : treap B;
  q_n : Z;
  q_tm : gmap string (limitedBroadcast B);
  q_idGen : Z;
}.
Arguments Queue {B}.
Arguments q_RetransmitMult {B}.
Arguments q_root {B}.
Arguments q_n {B}.
Arguments q_tm {B}.
Arguments q_idGen {B}.

Section Queue.
Context {B G : Type} `{BB : Broadcast B} `{RG : Rand G} `{ML : MathLog}.
Implicit Types (q : TransmitLimitedQueue B) (e cur keep : limitedBroadcast B) (b : B) (g : G).

Definition newQueue (mult : Z) : TransmitLimitedQueue B := Queue mult Leaf 0 ∅ 0.

(** ** Operations *)

Definition lenLocked q : Z := q_n q.

Definition deleteItem q cur : option (TransmitLimitedQueue B) :=
  root ← treapDelete (q_root q) cur;
  Some (Queue (q_RetransmitMult q) root (q_n q - 1)
          (if String.eqb (lb_name cur) "" then q_tm q else delete (lb_name cur) (q_tm q))
          (q_idGen q)).

Definition addItem g q cur : TransmitLimitedQueue B * G :=
  let '(prio, g) := Uint64 g in
  let cur := LimitedBroadcast (lb_key cur) (lb_b cur) (lb_name cur) prio in
  (Queue (q_RetransmitMult q) (treapInsert (q_root q) cur) (q_n q + 1)
     (if String.eqb (lb_name cur) "" then q_tm q else <[lb_name cur := cur]> (q_tm q))
     (q_idGen q), g).

Fixpoint deleteItems q (l : list (limitedBroadcast B)) : option (TransmitLimitedQueue B) :=
  match l with
  | [] => Some q
  | cur :: l => q ← deleteItem q cur; deleteItems q l
  end.

Fixpoint addItems g q (l : list (limitedBroadcast B)) : TransmitLimitedQueue B * G :=
  match l with
  | [] => (q, g)
  | cur :: l => let '(q, g) := addItem g q cur in addItems g q l
  end.

(** The entries a plain broadcast [b] invalidates, in queue order. *)
Definition invalidated q b : option (list (limitedBroadcast B)) :=
  ascendFrom (q_root q) None
    (fun remove cur =>
       match kindOf (lb_b cur) with
       | BNamed _ | BUnique => (remove, true)
       | BPlain => if Invalidates b (lb_b cur) then (remove ++ [cur], true) else (remove, true)
       end) [].

Definition queueBroadcast (Message : B -> bytes) g q b (initialTransmits : Z)
    : option (TransmitLimitedQueue B * list B * G) :=
  let id := i64 (q_idGen q + 1) in
  let q := Queue (q_RetransmitMult q) (q_root q) (q_n q) (q_tm q) id in
  let name := match kindOf b with BNamed name => name | _ => ""%string end in
  let unique := match kindOf b with BUnique => true | _ => false end in
  let lb := LimitedBroadcast (Key initialTransmits (len (Message b)) id) b name 0 in
  '(q, finished) ←
    (if negb (String.eqb name "") then
       match q_tm q !! name with
       | Some old => q ← deleteItem q old; Some (q, [lb_b old])
       | None => Some (q, [])
       end
     else if negb unique then
       remove ← invalidated q b;
       q ← deleteItems q remove;
       Some (q, map lb_b remove)
     else Some (q, []));
  let '(q, g) := addItem g q lb in
  Some (q, finished, g).

Definition QueueBroadcast (Message : B -> bytes) g q b : option (TransmitLimitedQueue B * list B * G) :=
  queueBroadcast Message g q b 0.

Definition getTransmitRange q : option (Z * Z) :=
  if lenLocked q =? 0 then Some (0, 0)
  else
    mi ← treapMin (q_root q);
    ma ← treapMax (q_root q);
    Some (lb_transmits mi, lb_transmits ma).

(** The loop that passes over entries of the tier whose message does not
    fit, with [treapNext]. *)
Fixpoint keepLoop (Message : B -> bytes) (fuel : nat) (root : treap B) (transmits free : Z)
    (keep : option (limitedBroadcast B)) : option (option (limitedBroadcast B)) :=
  match keep with
  | None => Some None
  | Some e =>
      if (lb_transmits e =? transmits) && (len (Message (lb_b e)) >? free) then
        match fuel with
        | O => None
        | S fuel => keepLoop Message fuel root transmits free (treapNext root e)
        end
      else Some (Some e)
  end.

Definition bump e : limitedBroadcast B :=
  LimitedBroadcast (Key (lb_transmits e + 1) (lb_msgLen e) (lb_id e)) (lb_b e) (lb_name e) (lb_prio e).

(** The loop of [GetBroadcasts]; each round sends an entry or moves to the
    next tier. [acc] is what it has gathered: the messages to send, the
    entries to reinsert and the broadcasts finished. *)
Fixpoint getLoop (Message : B -> bytes) (overhead limit transmitLimit maxTr : Z) (fuel : nat)
    q (transmits bytesUsed : Z) (acc : list bytes * list (limitedBroadcast B) * list B)
    : option (TransmitLimitedQueue B * Z * (list bytes * list (limitedBroadcast B) * list B)) :=
  if transmits <=? maxTr then
    match fuel with
    | O => None
    | S fuel =>
        let free := limit - bytesUsed - overhead in
        if free <=? 0 then Some (q, bytesUsed, acc)
        else
          keep ← keepLoop Message (size (q_root q)) (q_root q) transmits free
                   (treapCeil (q_root q) (Key transmits free MaxInt64));
          match keep with
          | Some e =>
              if lb_transmits e =? transmits then
                let msg := Message (lb_b e) in
                let bytesUsed := bytesUsed + (overhead + len msg) in
                q ← deleteItem q e;
                let '(toSend, reinsert, finished) := acc in
                let acc :=
                  if lb_transmits e + 1 >=? transmitLimit
                  then (toSend ++ [msg], reinsert, finished ++ [lb_b e])
                  else (toSend ++ [msg], reinsert ++ [bump e], finished) in
                getLoop Message overhead limit transmitLimit maxTr fuel q transmits bytesUsed acc
              else getLoop Message overhead limit transmitLimit maxTr fuel q (transmits + 1) bytesUsed acc
          | None => getLoop Message overhead limit transmitLimit maxTr fuel q (transmits + 1) bytesUsed acc
          end
    end
  else Some (q, bytesUsed, acc).

(** [GetBroadcasts]: the queue, the messages and the broadcasts finished. *)
Definition GetBroadcasts (Message : B -> bytes) (numNodes : Z) g q (overhead limit : Z)
    : option (TransmitLimitedQueue B * list bytes * list B * G) :=
  if lenLocked q =? 0 then Some (q, [], [], g)
  else
    let transmitLimit := retransmitLimit (q_RetransmitMult q) numNodes in
    '(minTr, maxTr) ← getTransmitRange q;
    '(q, _, (toSend, reinsert, finished)) ←
      getLoop Message overhead limit transmitLimit maxTr
        (size (q_root q) + Z.to_nat (maxTr - minTr + 1)) q minTr 0 ([], [], []);
    let '(q, g) := addItems g q reinsert in
    Some (q, toSend, finished, g).

Definition NumQueued q : Z := lenLocked q.

Definition walkReadOnlyLocked {S} (reverse : bool) q (f : S -> limitedBroadcast B -> S * bool) (s : S)
    : option S :=
  if reverse then descend (q_root q) f s else ascendFrom (q_root q) None f s.

Definition ResetQueue q : option (TransmitLimitedQueue B * list B) :=
  finished ← walkReadOnlyLocked false q (fun l cur => (l ++ [lb_b cur], true)) [];
  Some (Queue (q_RetransmitMult q) Leaf 0 ∅ 0, finished).

(** [Prune]: one entry fewer each round. *)
Fixpoint pruneLoop (fuel : nat) (maxRetain : Z) q (finished : list B)
    : option (TransmitLimitedQueue B * list B) :=
  if q_n q >? maxRetain then
    match fuel with
    | O => None
    | S fuel =>
        cur ← treapMax (q_root q);
        q ← deleteItem q cur;
        pruneLoop fuel maxRetain q (finished ++ [lb_b cur])
    end
  else Some (q, finished).

Definition Prune q (maxRetain : Z) : option (TransmitLimitedQueue B * list B) :=
  pruneLoop (S (size (q_root q))) maxRetain q [].

(** ** Specification *)

Definition entries q : list (limitedBroadcast B) := inorder (q_root q).

(** The name an entry is filed under. *)
Definition nameOf b : string := match kindOf b with BNamed name => name | _ => "" end.

(** Entries that may be in one queue: unique ids up to the counter, and at
    most one entry per name. *)
Record entries_ok (idGen : Z) (l : list (limitedBroadcast B)) : Prop := {
  en_ids : NoDup (map lb_id l);
  en_names e1 e2 : e1 ∈ l -> e2 ∈ l -> lb_name e1 = lb_name e2 -> lb_name e1 <> ""%string ->
                   lb_id e1 = lb_id e2;
  en_each e : e ∈ l -> lb_id e <= idGen /\ lb_name e = nameOf (lb_b e);
}.

Record queue_ok q : Prop := {
  qi_sorted : sorted (entries q);
  qi_heap : heap (q_root q);
  qi_entries : entries_ok (q_idGen q) (entries q);
  qi_n : q_n q = len (entries q);
  qi_tm name e : q_tm q !! name = Some e <-> e ∈ entries q /\ lb_name e = name /\ name <> ""%string;
  qi_gen : 0 <= q_idGen q <= MaxInt64;
}.

(** An entry without its tree priority. *)
Definition view e : key * B := (lb_key e, lb_b e).
Definition contents q : list (key * B) := map view (entries q).

(** The bytes a list of sent entries takes in a packet. *)
Fixpoint cost (Message : B -> bytes) (overhead : Z) (l : list (limitedBroadcast B)) : Z :=
  match l with
  | [] => 0
  | e :: l => overhead + len (Message (lb_b e)) + cost Message overhead l
  end.

(** The entries left after passing over those of the tier that do not fit. *)
Fixpoint dropUnfit (Message : B -> bytes) (transmits free : Z) (l : list (limitedBroadcast B))
    : list (limitedBroadcast B) :=
  match l with
  | [] => []
  | e :: l' =>
      if (lb_transmits e =? transmits) && (len (Message (lb_b e)) >? free)
      then dropUnfit Message transmits free l' else l
  end.

(** Whether an entry has reached the transmit limit with this send. *)
Definition spent (transmitLimit : Z) e : bool := lb_transmits e + 1 >=? transmitLimit.

(** ** Lemmas *)

Lemma elem_middle {A} (x e : A) l1 l2 : x ∈ l1 ++ e :: l2 <-> x = e \/ x ∈ l1 ++ l2.
Proof. by rewrite <- Permutation_middle, elem_of_cons. Qed.

Lemma entries_ok_perm n l l' : l ≡ₚ l' -> entries_ok n l -> entries_ok n l'.
Proof.
  intros Hp [H1 H2 H3]. constructor.
  - by rewrite <- Hp.
  - intros e1 e2. rewrite <- !Hp. apply H2.
  - intros e. rewrite <- Hp. apply H3.
Qed.

#[local] Instance entries_ok_proper n : Proper (Permutation ==> iff) (entries_ok n).
Proof. intros l l' Hp. split; by apply entries_ok_perm. Qed.

Lemma entries_ok_app_r n l1 l2 : entries_ok n (l1 ++ l2) -> entries_ok n l2.
Proof.
  intros [H2 H3 H4]. constructor.
  - rewrite map_app in H2. by apply NoDup_app in H2 as (_ & _ & ?).
  - intros. apply H3; [by apply elem_of_app; right..|done|done].
  - intros. apply H4. by apply elem_of_app; right.
Qed.

Lemma entries_ok_remove n l1 e l2 : entries_ok n (l1 ++ e :: l2) -> entries_ok n (l1 ++ l2).
Proof.
  intros Hok. apply (entries_ok_app_r n [e]). cbn. by rewrite Permutation_middle.
Qed.

Lemma same_id_eq l e1 e2 : NoDup (map lb_id l) -> e1 ∈ l -> e2 ∈ l -> lb_id e1 = lb_id e2 -> e1 = e2.
Proof.
  intros Hnd H1 H2 E. apply list_elem_of_lookup in H1 as [i Hi], H2 as [j Hj].
  assert (i = j) as <-; [|congruence].
  eapply (NoDup_lookup (map lb_id l)); [done|..].
  - rewrite list_lookup_fmap, Hi. done.
  - rewrite list_lookup_fmap, Hj. cbn. by rewrite E.
Qed.

Lemma deleteItem_ok q cur l1 l2 :
  queue_ok q -> entries q = l1 ++ cur :: l2 ->
  exists q', deleteItem q cur = Some q' /\ entries q' = l1 ++ l2 /\ queue_ok q' /\
    q_idGen q' = q_idGen q /\ q_RetransmitMult q' = q_RetransmitMult q.
Proof.
  intros [Hs Hh He Hn Htm Hg] E. unfold deleteItem, entries in *.
  destruct (inorder_delete (q_root q) cur l1 l2 Hs (en_ids _ _ He) E) as (t & Hd & Et).
  rewrite Hd. cbn. eexists. split; [done|]. cbn. split; [done|]. split; [|done].
  rewrite E in Hs, He, Hn, Htm.
  assert (Hcur : forall e, e ∈ l1 ++ l2 -> lb_id e <> lb_id cur).
  { intros e Hin Heq. pose proof He as Hm. rewrite <- (Permutation_middle l1) in Hm.
    apply en_ids in Hm. cbn in Hm. apply NoDup_cons in Hm as [Hm _]. apply Hm.
    rewrite <- Heq. by apply list_elem_of_fmap_2. }
  constructor; cbn; unfold entries; cbn; rewrite ?Et.
  - by eapply sorted_remove.
  - by eapply heap_delete.
  - by eapply entries_ok_remove.
  - rewrite Hn, !len_app, len_cons. lia.
  - intros name e. destruct (String.eqb_spec (lb_name cur) "") as [E0|E0].
    + rewrite Htm, elem_middle. split; [|tauto]. intros ([->|Hin] & Hname & Hne); [congruence|done].
    + destruct (decide (name = lb_name cur)) as [->|Hname].
      * rewrite lookup_delete_eq. split; [done|]. intros (Hin & Hname & Hne). destruct (Hcur e Hin).
        apply (en_names _ _ He); [apply elem_middle; auto..|done|by rewrite Hname].
      * rewrite lookup_delete_ne by done. rewrite Htm, elem_middle. split; [|tauto].
        intros ([->|Hin] & <- & Hne); done.
  - done.
Qed.

(** Only the id, the name and the broadcast of an entry matter. *)
Lemma entries_ok_head n e e' l :
  lb_id e' = lb_id e -> lb_name e' = lb_name e -> lb_b e' = lb_b e ->
  entries_ok n (e :: l) -> entries_ok n (e' :: l).
Proof.
  intros E1 E2 E3 [C1 C2 C3]. constructor.
  - cbn in *. by rewrite E1.
  - intros e1 e2 [->|H1]%elem_of_cons [->|H2]%elem_of_cons; try done; rewrite ?E1, ?E2; intros Hname Hne.
    + apply (C2 e e2); first [done|by left|by right].
    + apply (C2 e1 e); first [done|by left|by right].
    + apply (C2 e1 e2); first [done|by left|by right].
  - intros x [->|Hin]%elem_of_cons; [rewrite E1, E2, E3; apply (C3 e); left|apply C3; by right].
Qed.

(** Adding an entry that may join the queue. *)
Lemma addItem_ok g q cur :
  queue_ok q -> entries_ok (q_idGen q) (cur :: entries q) ->
  let q' := (addItem g q cur).1 in
  contents q' ≡ₚ view cur :: contents q /\ queue_ok q' /\
  q_idGen q' = q_idGen q /\ q_RetransmitMult q' = q_RetransmitMult q /\
  exists cur', view cur' = view cur /\ lb_name cur' = lb_name cur /\ entries q' ≡ₚ cur' :: entries q.
Proof.
  intros [Hs Hh He Hn Htm Hg] Hcur. unfold addItem. destruct (Uint64 g) as [prio g']. cbn.
  set (cur' := LimitedBroadcast (lb_key cur) (lb_b cur) (lb_name cur) prio).
  assert (Hid : lb_id cur' = lb_id cur) by done.
  assert (Hfresh : Forall (fun e => lb_id e <> lb_id cur') (entries q)).
  { apply Forall_forall. intros e Hin Heq. apply en_ids in Hcur as [Hc _]%NoDup_cons. apply Hc.
    rewrite <- Hid, <- Heq. by apply list_elem_of_fmap_2. }
  pose proof (inorder_insert (q_root q) cur' Hs Hfresh) as E.
  assert (Hperm : inorder (treapInsert (q_root q) cur') ≡ₚ cur' :: entries q).
  { rewrite E, <- Permutation_middle. constructor. apply below_above_perm. }
  pose proof (entries_ok_head _ cur cur' _ eq_refl eq_refl eq_refl Hcur) as Hok.
  split_and!; [by unfold contents, entries; cbn; rewrite Hperm| |done..|by exists cur'].
  constructor; cbn; unfold entries; cbn.
  - rewrite E. by apply sorted_insert.
  - by apply heap_insert.
  - by rewrite Hperm.
  - rewrite Hn. unfold len. rewrite Hperm. cbn. lia.
  - intros name e. rewrite Hperm, elem_of_cons. destruct (String.eqb_spec (lb_name cur) "") as [E0|E0].
    + rewrite Htm. split; [tauto|]. intros ([->|Hin] & Hname & Hne); [|done].
      cbn in Hname. congruence.
    + destruct (decide (name = lb_name cur)) as [->|Hname].
      * rewrite lookup_insert_eq. split; [intros [= <-]; split_and!; [by left|done..]|].
        intros ([->|Hin] & Hname & Hne); [done|]. exfalso.
        rewrite Forall_forall in Hfresh. apply (Hfresh e Hin).
        apply (en_names _ _ Hok); [by right|by left|done|by rewrite Hname].
      * rewrite lookup_insert_ne by done. rewrite Htm.
        split; [tauto|]. intros ([->|Hin] & <- & Hne); done.
  - done.
Qed.

Lemma addItems_ok g q l :
  queue_ok q -> entries_ok (q_idGen q) (l ++ entries q) ->
  let q' := (addItems g q l).1 in
  contents q' ≡ₚ map view l ++ contents q /\ queue_ok q' /\ q_idGen q' = q_idGen q /\
  q_RetransmitMult q' = q_RetransmitMult q.
Proof.
  revert g q. induction l as [|cur l IH]; intros g q Hq Hl; [done|]. cbn [addItems].
  cbn [app] in Hl. rewrite (Permutation_middle l (entries q) cur) in Hl.
  destruct (addItem_ok g q cur Hq (entries_ok_app_r _ _ _ Hl))
    as (Hc & Hq' & Hg & Hm & cur' & Hv & Hname & Hp).
  destruct (addItem g q cur) as [q1 g1]. cbn in *.
  destruct (IH g1 q1 Hq') as (IH1 & IH2 & IH3 & IH4).
  { rewrite Hg, Hp, <- Permutation_middle. rewrite <- Permutation_middle in Hl.
    injection Hv as Hk Hb. eapply entries_ok_head; [..|exact Hl]; [|done..].
    unfold lb_id. by rewrite Hk. }
  split_and!; [|done|congruence..]. rewrite IH1, Hc. cbn. by rewrite <- Permutation_middle.
Qed.

(** *** Choosing what to send *)

Lemma keepLoop_spec Message root transmits free fuel l1 l2 :
  sorted (inorder root) -> inorder root = l1 ++ l2 -> (length l2 <= fuel)%nat ->
  keepLoop Message fuel root transmits free (head l2) =
    Some (head (dropUnfit Message transmits free l2)).
Proof.
  intros Hs. revert fuel l1. induction l2 as [|e l2 IH]; intros fuel l1 E Hf; [by destruct fuel|].
  cbn [head keepLoop dropUnfit]. destruct fuel as [|fuel]; [cbn in Hf; lia|].
  cbn [keepLoop]. destruct (_ && _); [|done].
  rewrite (treapNext_spec root e l1 l2 Hs E). apply (IH fuel (l1 ++ [e])).
  - by rewrite <- app_assoc.
  - cbn in Hf. lia.
Qed.

Lemma dropUnfit_split Message transmits free l :
  exists p, l = p ++ dropUnfit Message transmits free l /\
    Forall (fun e => lb_transmits e = transmits /\ free < len (Message (lb_b e))) p.
Proof.
  induction l as [|e l (p & E & Hp)]; [by exists []|]. cbn [dropUnfit].
  destruct (_ && _) eqn:Eb; [|by exists []].
  exists (e :: p). split; [by rewrite <- app_comm_cons, <- E|]. constructor; [|done].
  apply andb_true_iff in Eb. lia.
Qed.

(** Nothing of the tier is left in [above] once its first fitting entry
    belongs to another tier. *)
Lemma tier_done Message transmits free l :
  sorted l -> Forall (fun e => transmits <= lb_transmits e) l ->
  match head (dropUnfit Message transmits free l) with
  | Some e => lb_transmits e <> transmits
  | None => True
  end ->
  forall e, e ∈ l -> lb_transmits e = transmits -> free < len (Message (lb_b e)).
Proof.
  intros Hs Ht Hh e Hin He. destruct (dropUnfit_split Message transmits free l) as (p & E & Hp).
  destruct (dropUnfit Message transmits free l) as [|x r]; cbn in Hh.
  - rewrite app_nil_r in E. subst p. rewrite Forall_forall in Hp. by apply Hp.
  - rewrite E in Hs, Hin, Ht. apply elem_of_app in Hin as [Hin|Hin].
    { rewrite Forall_forall in Hp. by apply Hp. }
    exfalso. apply Forall_app in Ht as [_ (Hx & _)%Forall_cons_1].
    apply elem_of_cons in Hin as [->|Hin]; [done|].
    apply sorted_middle in Hs as (_ & _ & _ & Hxr). rewrite Forall_forall in Hxr.
    specialize (Hxr e Hin). unfold lt_entry, less in Hxr.
    change (k_transmits (lb_key x)) with (lb_transmits x) in Hxr.
    change (k_transmits (lb_key e)) with (lb_transmits e) in Hxr.
    rewrite (proj2 (Z.eqb_neq (lb_transmits x) (lb_transmits e))) in Hxr by lia. cbn in Hxr. lia.
Qed.

(** What the search key separates. *)
Lemma above_tier transmits free e :
  less (lb_key e) (Key transmits free MaxInt64) = false -> transmits <= lb_transmits e.
Proof.
  unfold less, lb_transmits. cbn.
  destruct (Z.eqb_spec (k_transmits (lb_key e)) transmits); cbn; [lia|].
  destruct (Z.ltb_spec (k_transmits (lb_key e)) transmits); [done|lia].
Qed.

Lemma below_tier transmits free e :
  less (lb_key e) (Key transmits free MaxInt64) = true -> lb_transmits e = transmits ->
  lb_id e <= MaxInt64 -> free < lb_msgLen e.
Proof.
  unfold less, lb_transmits, lb_id, lb_msgLen. cbn. intros H E Hid. rewrite E, Z.eqb_refl in H. cbn in H.
  destruct (Z.eqb_spec (k_msgLen (lb_key e)) free); cbn in H; lia.
Qed.

(** The choice of one round: the first fitting entry of the tier, or none. *)
Lemma choose_spec Message q transmits free :
  queue_ok q ->
  exists found,
    keepLoop Message (size (q_root q)) (q_root q) transmits free
      (treapCeil (q_root q) (Key transmits free MaxInt64)) = Some found /\
    match found with
    | Some e =>
        (exists l1 l2, entries q = l1 ++ e :: l2) /\
        (lb_transmits e = transmits -> len (Message (lb_b e)) <= free)
    | None => True
    end /\
    (match found with Some e => lb_transmits e <> transmits | None => True end ->
     forall e, e ∈ entries q -> lb_transmits e = transmits ->
       lb_msgLen e = len (Message (lb_b e)) -> free < len (Message (lb_b e))).
Proof.
  intros Hq. pose proof (qi_sorted _ Hq) as Hs. set (k := Key transmits free MaxInt64).
  assert (E : entries q = below k (entries q) ++ above k (entries q)).
  { clear -Hs. induction Hs as [|x l Hl IH Hx]; [done|]. unfold below, above in *. cbn.
    destruct (less (lb_key x) k) eqn:Ex; cbn; [by f_equal|].
    destruct (below_above_none k l) as [E1 E2].
    { eapply Forall_impl; [exact Hx|]. intros y Hy. destruct (less (lb_key y) k) eqn:Ey; [|done].
      by rewrite (less_trans _ _ _ Hy Ey) in Ex. }
    unfold below, above in E1, E2. by rewrite E1, E2. }
  rewrite treapCeil_spec by done. fold (entries q).
  rewrite (keepLoop_spec _ _ _ _ _ _ _ Hs E).
  2: { unfold size. fold (entries q). rewrite E at 2. rewrite length_app. lia. }
  eexists. split; [done|]. destruct (dropUnfit_split Message transmits free (above k (entries q))) as (p & Ep & Hp).
  assert (Hs' : sorted (above k (entries q))) by (by apply sorted_filter).
  assert (Ht : Forall (fun e => transmits <= lb_transmits e) (above k (entries q))).
  { apply List.Forall_forall. intros e [_ He]%List.filter_In. apply (above_tier _ free).
    by apply negb_true_iff. }
  split.
  - destruct (dropUnfit _ _ _ _) as [|e r] eqn:Ed; [done|]. cbn. split.
    + exists (below k (entries q) ++ p), r. by rewrite <- app_assoc, <- Ep.
    + intros He. clear -Ed He. induction (above k (entries q)) as [|y l IH]; [done|]. cbn in Ed.
      destruct (_ && _) eqn:Eb; [auto|]. injection Ed as -> ->. apply andb_false_iff in Eb.
      destruct Eb as [Eb|Eb]; lia.
  - intros Hh e Hin He Hlen. rewrite E in Hin. apply elem_of_app in Hin as [Hin|Hin].
    + rewrite <- Hlen. apply list_elem_of_In, List.filter_In in Hin as [Hin Hl].
      apply (below_tier _ _ _ Hl He). apply list_elem_of_In in Hin.
      apply (en_each _ _ (qi_entries _ Hq)) in Hin as [Hid _]. pose proof (qi_gen _ Hq). lia.
    + by eapply tier_done.
Qed.

(** *** The sending loop *)

Record sent_ok Message (overhead limit maxTr transmits used : Z) q q'
    (sent : list (limitedBroadcast B)) : Prop := {
  so_perm : entries q ≡ₚ sent ++ entries q';
  so_queue : queue_ok q';
  so_gen : q_idGen q' = q_idGen q;
  so_mult : q_RetransmitMult q' = q_RetransmitMult q;
  so_budget : sent = [] \/ used + cost Message overhead sent <= limit;
  so_tiers : Forall (fun e => transmits <= lb_transmits e <= maxTr) sent;
  so_order : StronglySorted (fun e1 e2 => lb_transmits e1 <= lb_transmits e2) sent;
  so_maximal e : e ∈ entries q' -> transmits <= lb_transmits e <= maxTr ->
    lb_msgLen e = len (Message (lb_b e)) ->
    limit - (used + cost Message overhead sent) - overhead <= 0 \/
    limit - (used + cost Message overhead sent) - overhead < len (Message (lb_b e));
}.

Definition gathered Message (transmitLimit : Z) (sent : list (limitedBroadcast B))
    (acc : list bytes * list (limitedBroadcast B) * list B) :=
  (acc.1.1 ++ map (fun e => Message (lb_b e)) sent,
   acc.1.2 ++ map bump (List.filter (fun e => negb (spent transmitLimit e)) sent),
   acc.2 ++ map lb_b (List.filter (spent transmitLimit) sent)).

Lemma gathered_nil Message tl acc : gathered Message tl [] acc = acc.
Proof. destruct acc as [[a b] c]. unfold gathered. cbn. by rewrite !app_nil_r. Qed.

Lemma gathered_cons Message tl e sent toSend reinsert finished :
  gathered Message tl (e :: sent) (toSend, reinsert, finished) =
  gathered Message tl sent
    (if lb_transmits e + 1 >=? tl
     then (toSend ++ [Message (lb_b e)], reinsert, finished ++ [lb_b e])
     else (toSend ++ [Message (lb_b e)], reinsert ++ [bump e], finished)).
Proof.
  unfold gathered. cbn. fold (spent tl e).
  destruct (spent tl e); cbn; by rewrite <- !app_assoc.
Qed.

Lemma cost_nonneg Message overhead sent : 0 <= overhead -> 0 <= cost Message overhead sent.
Proof.
  intros Ho. induction sent as [|e sent IH]; cbn; [done|].
  pose proof (len_nonneg (Message (lb_b e))). lia.
Qed.

Lemma sent_ok_nil Message overhead limit maxTr transmits used q :
  queue_ok q -> maxTr < transmits \/ limit - used - overhead <= 0 ->
  sent_ok Message overhead limit maxTr transmits used q q [].
Proof.
  intros Hq H. constructor; try done; cbn; try lia; try constructor; done.
Qed.

(** Moving to the next tier once nothing of this one fits. *)
Lemma sent_ok_skip Message overhead limit maxTr transmits used q q' sent :
  0 <= overhead ->
  (forall e, e ∈ entries q -> lb_transmits e = transmits ->
     lb_msgLen e = len (Message (lb_b e)) -> limit - used - overhead < len (Message (lb_b e))) ->
  sent_ok Message overhead limit maxTr (transmits + 1) used q q' sent ->
  sent_ok Message overhead limit maxTr transmits used q q' sent.
Proof.
  intros Ho Hnone []. constructor; try done.
  - eapply Forall_impl; [done|]. cbn. lia.
  - intros e Hin He Hlen. destruct (Z.eq_dec (lb_transmits e) transmits) as [Heq|Hne].
    + right. assert (Hin' : e ∈ entries q) by (rewrite so_perm0; apply elem_of_app; by right).
      pose proof (Hnone e Hin' Heq Hlen). pose proof (cost_nonneg Message overhead sent Ho). lia.
    + apply so_maximal0; [done|lia|done].
Qed.

(** Sending one entry first. *)
Lemma sent_ok_cons Message overhead limit maxTr used q q1 q' e l1 l2 sent :
  entries q = l1 ++ e :: l2 -> entries q1 = l1 ++ l2 ->
  q_idGen q1 = q_idGen q -> q_RetransmitMult q1 = q_RetransmitMult q ->
  lb_transmits e <= maxTr -> len (Message (lb_b e)) <= limit - used - overhead ->
  sent_ok Message overhead limit maxTr (lb_transmits e)
    (used + (overhead + len (Message (lb_b e)))) q1 q' sent ->
  sent_ok Message overhead limit maxTr (lb_transmits e) used q q' (e :: sent).
Proof.
  intros E E1 Hg Hm Hmax Hfit []. constructor; cbn [cost].
  - rewrite E, <- Permutation_middle, <- E1, so_perm0. done.
  - done.
  - congruence.
  - congruence.
  - right. destruct so_budget0 as [->|]; cbn; lia.
  - constructor; [lia|done].
  - constructor; [done|]. eapply Forall_impl; [exact so_tiers0|]. cbn. lia.
  - intros x Hx Hxt Hlen. destruct (so_maximal0 x Hx Hxt Hlen); [left|right]; lia.
Qed.

Lemma getLoop_spec Message overhead limit tl maxTr fuel q transmits used acc :
  queue_ok q -> 0 <= overhead ->
  (size (q_root q) + Z.to_nat (maxTr + 1 - transmits) <= fuel)%nat ->
  exists q' sent,
    getLoop Message overhead limit tl maxTr fuel q transmits used acc =
      Some (q', used + cost Message overhead sent, gathered Message tl sent acc) /\
    sent_ok Message overhead limit maxTr transmits used q q' sent.
Proof.
  intros Hq Ho. revert q transmits used acc Hq.
  induction fuel as [|fuel IH]; intros q transmits used acc Hq Hf; cbn [getLoop];
    destruct (Z.leb_spec transmits maxTr) as [Htr|Htr];
    try (exists q, []; rewrite gathered_nil, Z.add_0_r; split; [done|apply sent_ok_nil; auto]).
  { lia. }
  destruct (Z.leb_spec (limit - used - overhead) 0) as [Hfree|Hfree].
  { exists q, []. rewrite gathered_nil, Z.add_0_r. split; [done|apply sent_ok_nil; auto]. }
  destruct (choose_spec Message q transmits (limit - used - overhead) Hq) as (found & Hc & Hfound & Hnone).
  rewrite Hc. cbn [mbind option_bind].
  assert (Hnext : match found with Some e => lb_transmits e <> transmits | None => True end ->
    exists q' sent,
      getLoop Message overhead limit tl maxTr fuel q (transmits + 1) used acc =
        Some (q', used + cost Message overhead sent, gathered Message tl sent acc) /\
      sent_ok Message overhead limit maxTr transmits used q q' sent).
  { intros Hf'. destruct (IH q (transmits + 1) used acc Hq ltac:(lia)) as (q' & sent & -> & Hso).
    exists q', sent. split; [done|]. apply sent_ok_skip; auto. }
  destruct found as [e|]; [|by apply Hnext].
  destruct (Z.eqb_spec (lb_transmits e) transmits) as [<-|Hne]; [|by apply Hnext].
  destruct Hfound as [(l1 & l2 & E) Hfit].
  destruct (deleteItem_ok q e l1 l2 Hq E) as (q1 & Hd & E1 & Hq1 & Hg1 & Hm1).
  rewrite Hd. cbn [mbind option_bind]. destruct acc as [[toSend reinsert] finished].
  assert (Hsz : (size (q_root q) = S (size (q_root q1)))%nat).
  { unfold size. fold (entries q) (entries q1). rewrite E, E1, !length_app. cbn. lia. }
  edestruct (IH q1) as (q' & sent & -> & Hso); [done|lia|].
  exists q', (e :: sent). rewrite <- gathered_cons. cbn [cost].
  split; [do 3 f_equal; lia|]. eapply sent_ok_cons; eauto.
Qed.

(** *** Queuing *)

(** Which entries a new broadcast [b] replaces. *)
Definition invalidatedBy b e : bool :=
  if negb (String.eqb (nameOf b) "") then String.eqb (lb_name e) (nameOf b)
  else match kindOf b with
       | BUnique => false
       | _ => match kindOf (lb_b e) with BPlain => Invalidates b (lb_b e) | _ => false end
       end.

Lemma foldWhile_collect (f : limitedBroadcast B -> bool) l acc :
  foldWhile (fun r e => (if f e then r ++ [e] else r, true)) acc l = acc ++ List.filter f l.
Proof.
  revert acc. induction l as [|e l IH]; intros acc; cbn; [by rewrite app_nil_r|].
  rewrite IH. destruct (f e); [by rewrite <- app_assoc|done].
Qed.

Lemma foldWhile_ext {S} (f f' : S -> limitedBroadcast B -> S * bool) l s :
  (forall s e, f s e = f' s e) -> foldWhile f s l = foldWhile f' s l.
Proof.
  intros Hf. revert s. induction l as [|e l IH]; intros s; [done|]. cbn. rewrite Hf.
  destruct (f' s e) as [s' []]; [apply IH|done].
Qed.

Lemma invalidated_spec q b :
  invalidated q b =
    Some (List.filter (fun e => match kindOf (lb_b e) with BPlain => Invalidates b (lb_b e) | _ => false end)
            (entries q)).
Proof.
  unfold invalidated. rewrite ascendFrom_spec by done. cbn [from]. fold (entries q). f_equal.
  rewrite <- (app_nil_l (List.filter _ _)), <- foldWhile_collect.
  apply foldWhile_ext. intros acc e. by destruct (kindOf (lb_b e)); [..|destruct (Invalidates b (lb_b e))].
Qed.

Lemma deleteItems_ok f pre l q :
  queue_ok q -> entries q = pre ++ l ->
  exists q', deleteItems q (List.filter f l) = Some q' /\
    entries q' = pre ++ List.filter (fun e => negb (f e)) l /\ queue_ok q' /\
    q_idGen q' = q_idGen q /\ q_RetransmitMult q' = q_RetransmitMult q.
Proof.
  revert pre q. induction l as [|e l IH]; intros pre q Hq E; [by exists q|]. cbn [List.filter].
  destruct (f e); cbn [deleteItems negb].
  - destruct (deleteItem_ok q e pre l Hq E) as (q1 & -> & E1 & Hq1 & Hg & Hm). cbn [mbind option_bind].
    destruct (IH pre q1 Hq1 E1) as (q' & ? & ? & ? & ? & ?). exists q'. split_and!; congruence.
  - destruct (IH (pre ++ [e]) q Hq) as (q' & ? & E' & ? & ? & ?); [by rewrite <- app_assoc|].
    exists q'. rewrite <- app_assoc in E'. split_and!; done.
Qed.

Lemma filter_none {A} (f : A -> bool) l : Forall (fun x => f x = false) l -> List.filter f l = [].
Proof. induction 1 as [|x l Hx Hl IH]; [done|]. cbn. by rewrite Hx. Qed.
Lemma filter_all {A} (f : A -> bool) l : Forall (fun x => f x = true) l -> List.filter f l = l.
Proof. induction 1 as [|x l Hx Hl IH]; [done|]. cbn. by rewrite Hx, IH. Qed.

(** The entry filed under a name is the only one of that name. *)
Lemma named_filter q name :
  queue_ok q -> name <> ""%string ->
  match q_tm q !! name with
  | Some old => exists l1 l2, entries q = l1 ++ old :: l2 /\
      List.filter (fun e => String.eqb (lb_name e) name) (entries q) = [old] /\
      List.filter (fun e => negb (String.eqb (lb_name e) name)) (entries q) = l1 ++ l2
  | None => List.filter (fun e => String.eqb (lb_name e) name) (entries q) = [] /\
      List.filter (fun e => negb (String.eqb (lb_name e) name)) (entries q) = entries q
  end.
Proof.
  intros Hq Hne. destruct (q_tm q !! name) as [old|] eqn:E.
  - apply (qi_tm _ Hq) in E as (Hin & Hname & _).
    apply list_elem_of_split in Hin as (l1 & l2 & Hl). exists l1, l2. split; [done|].
    assert (Hoth : Forall (fun e => String.eqb (lb_name e) name = false) (l1 ++ l2)).
    { apply Forall_forall. intros e He. apply String.eqb_neq. intros Heq.
      pose proof (qi_entries _ Hq) as Hok. rewrite Hl in Hok.
      assert (lb_id e = lb_id old).
      { apply (en_names _ _ Hok); [by apply elem_middle; right|by apply elem_middle; left|congruence..]. }
      rewrite <- Permutation_middle in Hok. apply en_ids in Hok. cbn in Hok.
      apply NoDup_cons in Hok as [Hn _]. apply Hn. rewrite <- H. by apply list_elem_of_fmap_2. }
    rewrite Hl. apply Forall_app in Hoth as [H1 H2].
    assert (Hneg : forall l, Forall (fun e => String.eqb (lb_name e) name = false) l ->
      Forall (fun e : limitedBroadcast B => negb (String.eqb (lb_name e) name) = true) l).
    { intros l Hf. eapply Forall_impl; [exact Hf|]. by intros e ->. }
    split; rewrite !List.filter_app; cbn; rewrite Hname, String.eqb_refl; cbn.
    + by rewrite !filter_none.
    + by rewrite !filter_all by auto.
  - assert (Hall : Forall (fun e => String.eqb (lb_name e) name = false) (entries q)).
    { apply Forall_forall. intros e He. apply String.eqb_neq. intros Heq.
      assert (q_tm q !! name = Some e) by (by apply (qi_tm _ Hq)). congruence. }
    split; [by apply filter_none|]. apply filter_all. eapply Forall_impl; [exact Hall|]. by intros e ->.
Qed.

(** Removing what [b] replaces. *)
Lemma invalidate_ok q b :
  queue_ok q ->
  exists q1,
    (if negb (String.eqb (nameOf b) "") then
       match q_tm q !! nameOf b with
       | Some old => q ← deleteItem q old; Some (q, [lb_b old])
       | None => Some (q, [])
       end
     else if negb (match kindOf b with BUnique => true | _ => false end) then
       remove ← invalidated q b;
       q ← deleteItems q remove;
       Some (q, map lb_b remove)
     else Some (q, [])) = Some (q1, map lb_b (List.filter (invalidatedBy b) (entries q))) /\
    entries q1 = List.filter (fun e => negb (invalidatedBy b e)) (entries q) /\ queue_ok q1 /\
    q_idGen q1 = q_idGen q /\ q_RetransmitMult q1 = q_RetransmitMult q.
Proof.
  intros Hq. unfold invalidatedBy. destruct (String.eqb_spec (nameOf b) "") as [E|E]; cbn [negb].
  - destruct (kindOf b) eqn:Ek; cbn [negb].
    2: { exists q. rewrite filter_none, filter_all by (by apply Forall_true). done. }
    all: rewrite invalidated_spec; cbn [mbind option_bind];
      destruct (deleteItems_ok (fun e => match kindOf (lb_b e) with
         | BPlain => Invalidates b (lb_b e) | _ => false end) [] (entries q) q Hq eq_refl)
        as (q1 & Hd & ? & ? & ? & ?);
      exists q1; rewrite Hd; done.
  - pose proof (named_filter q (nameOf b) Hq E) as Hf. destruct (q_tm q !! nameOf b) as [old|].
    + destruct Hf as (l1 & l2 & El & -> & ->).
      destruct (deleteItem_ok q old l1 l2 Hq El) as (q1 & -> & ? & ? & ? & ?). exists q1. done.
    + destruct Hf as [-> ->]. exists q. done.
Qed.

Lemma queue_ok_gen q id :
  queue_ok q -> q_idGen q <= id <= MaxInt64 ->
  queue_ok (Queue (q_RetransmitMult q) (q_root q) (q_n q) (q_tm q) id).
Proof.
  intros [Hs Hh [E1 E2 E3] Hn Htm Hg] Hid. constructor; try done; [|cbn; lia].
  constructor; [done..|]. cbn. intros e He. apply E3 in He as []. split; [lia|done].
Qed.

(** The entry [queueBroadcast] makes of [b]. *)
Definition freshKey (Message : B -> bytes) q b (transmits : Z) : key :=
  Key transmits (len (Message b)) (q_idGen q + 1).

Lemma queueBroadcast_ok Message g q b transmits :
  queue_ok q -> q_idGen q < MaxInt64 ->
  exists q' g',
    queueBroadcast Message g q b transmits =
      Some (q', map lb_b (List.filter (invalidatedBy b) (entries q)), g') /\
    queue_ok q' /\ q_idGen q' = q_idGen q + 1 /\ q_RetransmitMult q' = q_RetransmitMult q /\
    contents q' ≡ₚ (freshKey Message q b transmits, b)
      :: map view (List.filter (fun e => negb (invalidatedBy b e)) (entries q)).
Proof.
  intros Hq Hid. pose proof (qi_gen _ Hq) as Hg0.
  assert (Hi : i64 (q_idGen q + 1) = q_idGen q + 1) by (apply i64_small; unfold MinInt64; lia).
  unfold queueBroadcast. rewrite Hi. fold (nameOf b).
  set (q0 := Queue (q_RetransmitMult q) (q_root q) (q_n q) (q_tm q) (q_idGen q + 1)).
  pose proof (queue_ok_gen q (q_idGen q + 1) Hq ltac:(lia)) as Hq0. fold q0 in Hq0.
  destruct (invalidate_ok q0 b Hq0) as (q1 & -> & E1 & Hq1 & Hg1 & Hm1). cbn [mbind option_bind].
  set (lb := LimitedBroadcast _ b _ 0). change (entries q0) with (entries q) in *.
  assert (Hsub : forall e, e ∈ entries q1 -> e ∈ entries q /\ invalidatedBy b e = false).
  { intros e. rewrite E1, !list_elem_of_In, List.filter_In, negb_true_iff. tauto. }
  destruct (addItem_ok g q1 lb Hq1) as (Hc & Hq' & Hg' & Hm' & _).
  { constructor.
    - cbn. apply NoDup_cons. split; [|apply (en_ids _ _ (qi_entries _ Hq1))].
      intros (e & He & Hin)%list_elem_of_fmap. apply Hsub in Hin as [Hin _].
      apply (en_each _ _ (qi_entries _ Hq)) in Hin as [Hle _].
      change (lb_id lb) with (q_idGen q + 1) in He. lia.
    - assert (Hnew : forall e, e ∈ entries q1 -> lb_name e = nameOf b -> nameOf b <> ""%string -> False).
      { intros e [_ Hin]%Hsub Hname Hne. unfold invalidatedBy in Hin.
        apply String.eqb_neq in Hne. rewrite Hne, Hname, String.eqb_refl in Hin. done. }
      intros e1 e2 [->|H1]%elem_of_cons [->|H2]%elem_of_cons; cbn [lb lb_name]; try done.
      + intros Hname Hne. destruct (Hnew e2 H2); congruence.
      + intros Hname Hne. destruct (Hnew e1 H1); congruence.
      + by apply (en_names _ _ (qi_entries _ Hq1)).
    - intros e [->|Hin]%elem_of_cons; [cbn; rewrite Hg1; cbn; split; [lia|done]|].
      by apply (en_each _ _ (qi_entries _ Hq1)). }
  destruct (addItem g q1 lb) as [q' g'] eqn:Ea. cbn in *.
  exists q', g'. split_and!; [done..|congruence|congruence|]. rewrite Hc. unfold contents. by rewrite E1.
Qed.

(** *** Sending, pruning, resetting *)

Lemma less_transmits e x : lt_entry e x -> lb_transmits e <= lb_transmits x.
Proof.
  unfold lt_entry, less, lb_transmits. destruct (Z.eqb_spec (k_transmits (lb_key e)) (k_transmits (lb_key x))); cbn; lia.
Qed.

Lemma range_spec q :
  queue_ok q -> entries q <> [] ->
  exists minTr maxTr, getTransmitRange q = Some (minTr, maxTr) /\
    (forall e, e ∈ entries q -> minTr <= lb_transmits e <= maxTr).
Proof.
  intros Hq Hne. unfold getTransmitRange, lenLocked. rewrite (qi_n _ Hq).
  destruct (Z.eqb_spec (len (entries q)) 0) as [E|E]; [by apply len_0_nil in E|].
  rewrite treapMin_spec, treapMax_spec. fold (entries q). pose proof (qi_sorted _ Hq) as Hs.
  destruct (entries q) as [|mi l]; [done|]. cbn [head mbind option_bind].
  destruct (last (mi :: l)) as [ma|] eqn:El; [|by apply last_None in El]. cbn [mbind option_bind].
  exists (lb_transmits mi), (lb_transmits ma). split; [done|]. apply last_Some in El as [l' El].
  intros e Hin. split.
  - apply elem_of_cons in Hin as [->|Hin]; [lia|]. apply StronglySorted_inv in Hs as [_ Hs].
    rewrite Forall_forall in Hs. by apply less_transmits, Hs.
  - rewrite El in Hin, Hs. apply sorted_middle in Hs as (_ & _ & Hs & _).
    apply elem_of_app in Hin as [Hin|Hin%list_elem_of_singleton]; [|subst; lia].
    rewrite Forall_forall in Hs. by apply less_transmits, Hs.
Qed.

Lemma bump_ok n sent l f : entries_ok n (sent ++ l) -> entries_ok n (map bump (List.filter f sent) ++ l).
Proof.
  revert l. induction sent as [|e sent IH]; intros l Hok; [done|]. cbn [List.filter].
  destruct (f e); cbn [map app] in *.
  - eapply (entries_ok_head _ e); [done..|].
    rewrite (Permutation_middle _ l e). apply IH. by rewrite <- Permutation_middle.
  - apply IH. by apply (entries_ok_app_r _ [e]).
Qed.

Lemma GetBroadcasts_ok Message numNodes g q overhead limit :
  queue_ok q -> 0 <= overhead ->
  let tl := retransmitLimit (q_RetransmitMult q) numNodes in
  exists q' g' sent rest,
    GetBroadcasts Message numNodes g q overhead limit =
      Some (q', map (fun e => Message (lb_b e)) sent, map lb_b (List.filter (spent tl) sent), g') /\
    queue_ok q' /\ entries q ≡ₚ sent ++ rest /\
    contents q' ≡ₚ map view (map bump (List.filter (fun e => negb (spent tl e)) sent)) ++ map view rest /\
    (sent = [] \/ cost Message overhead sent <= limit) /\
    StronglySorted (fun e1 e2 => lb_transmits e1 <= lb_transmits e2) sent /\
    (forall e, e ∈ rest -> lb_msgLen e = len (Message (lb_b e)) ->
       limit - cost Message overhead sent - overhead <= 0 \/
       limit - cost Message overhead sent - overhead < len (Message (lb_b e))) /\
    q_idGen q' = q_idGen q.
Proof.
  intros Hq Ho tl. unfold GetBroadcasts, lenLocked. rewrite (qi_n _ Hq).
  destruct (Z.eqb_spec (len (entries q)) 0) as [E|E].
  { apply len_0_nil in E. exists q, g, [], []. unfold contents. rewrite E.
    split_and!; try done; [by left|constructor|]. intros e He. by apply not_elem_of_nil in He. }
  destruct (range_spec q Hq) as (minTr & maxTr & -> & Hrange); [intros E'; by rewrite E' in E|].
  cbn [mbind option_bind].
  edestruct (getLoop_spec Message overhead limit tl maxTr) as (q1 & sent & Hloop & Hso);
    [exact Hq|exact Ho| |rewrite Hloop]; [lia|]. cbn [mbind option_bind]. unfold gathered. cbn [fst snd app].
  destruct Hso as [Hp Hq1 Hg1 _ Hb _ Hord Hmax].
  pose proof (qi_entries _ Hq) as Hok. rewrite Hp, <- Hg1 in Hok.
  apply (bump_ok _ _ _ (fun e => negb (spent tl e))) in Hok.
  destruct (addItems_ok g q1 _ Hq1 Hok) as (Hc & Hq' & Hg' & _).
  destruct (addItems g q1 _) as [q' g'] eqn:Ea. cbn in *.
  exists q', g', sent, (entries q1). split_and!; try done; [|by rewrite Hg'].
  intros e He Hlen. apply (Hmax e He); [|done]. apply Hrange. rewrite Hp. apply elem_of_app. by right.
Qed.

Lemma pruneLoop_ok maxRetain fuel q finished :
  queue_ok q -> 0 <= maxRetain -> (length (entries q) < fuel)%nat ->
  exists q' l2, pruneLoop fuel maxRetain q finished = Some (q', finished ++ map lb_b (rev l2)) /\
    entries q = entries q' ++ l2 /\ queue_ok q' /\ q_n q' = Z.min (q_n q) maxRetain.
Proof.
  intros Hq Hr. revert q finished Hq. induction fuel as [|fuel IH]; intros q finished Hq Hf; [lia|].
  cbn [pruneLoop]. destruct (Z.gtb_spec (q_n q) maxRetain) as [Hgt|Hle].
  2: { exists q, []. cbn. rewrite !app_nil_r. split_and!; [done..|lia]. }
  rewrite treapMax_spec. fold (entries q). pose proof (qi_n _ Hq) as Hn.
  destruct (last (entries q)) as [cur|] eqn:El.
  2: { apply last_None in El. rewrite El in Hn. change (len []) with 0 in Hn. lia. }
  apply last_Some in El as [l1 El]. cbn [mbind option_bind].
  destruct (deleteItem_ok q cur l1 [] Hq El) as (q1 & -> & E1 & Hq1 & _). cbn [mbind option_bind].
  rewrite app_nil_r in E1. pose proof (qi_n _ Hq1) as Hn1. rewrite E1 in Hn1. rewrite El, len_app in Hn.
  change (len [cur]) with 1 in Hn.
  destruct (IH q1 (finished ++ [lb_b cur]) Hq1) as (q' & l2 & -> & E2 & Hq' & Hn').
  { rewrite El, length_app in Hf. cbn in Hf. rewrite E1. lia. }
  exists q', (l2 ++ [cur]). rewrite rev_app_distr. cbn. rewrite <- app_assoc. split_and!; [done| |done|lia].
  by rewrite El, <- E1, E2, <- app_assoc.
Qed.
End Queue.

(** ** Membership broadcasts

    [memberlistBroadcast] of [src/broadcast.go]; [mb_notify] identifies the
    channel its [Finished] posts to, without waiting for a receiver. *)

Record memberlistBroadcast := MemberlistBroadcast {
  mb_node : string;
  mb_msg : bytes;
  mb_notify : option Z;
}.

#[global] Instance memberlistBroadcast_Broadcast : Broadcast memberlistBroadcast := {|
  kindOf b := BNamed (mb_node b);
  Invalidates b mb := String.eqb (mb_node b) (mb_node mb);
|}.

(** A queue to run the operations on. *)
Definition exampleBroadcast (node : string) (n : nat) : memberlistBroadcast :=
  MemberlistBroadcast node (repeat (z2b 0) n) None.
Definition exampleQueue : TransmitLimitedQueue memberlistBroadcast :=
  match QueueBroadcast mb_msg 1 (newQueue 3) (exampleBroadcast "a" 20) with
  | Some (q, _, g) =>
      match QueueBroadcast mb_msg g q (exampleBroadcast "b" 30) with
      | Some (q, _, _) => q
      | None => newQueue 3
      end
  | None => newQueue 3
  end.

Lemma newQueue_ok {B} `{Broadcast B} mult : queue_ok (newQueue (B := B) mult).
Proof.
  constructor; cbn; try done.
  - constructor.
  - constructor; [constructor|intros e1 e2 H1; by apply not_elem_of_nil in H1|
      intros e He; by apply not_elem_of_nil in He].
  - intros name e. rewrite lookup_empty. split; [done|]. intros (Hin & _). by apply not_elem_of_nil in Hin.
Qed.

Lemma exampleQueue_ok : queue_ok exampleQueue.
Proof.
  unfold exampleQueue, QueueBroadcast.
  destruct (queueBroadcast_ok mb_msg 1 (newQueue 3) (exampleBroadcast "a" 20) 0 (newQueue_ok 3))
    as (q & g & -> & Hq & Hg & _); [done|].
  destruct (queueBroadcast_ok mb_msg g q (exampleBroadcast "b" 30) 0 Hq) as (q' & g' & -> & Hq' & _);
    [by rewrite Hg|]. done.
Qed.

(** ** Properties *)

(** C39: [GetBroadcasts] never fails and never fills more than the byte
    limit, overhead per message included. What it sends are entries of the
    queue, fresher tiers first, each once; an entry that has reached the
    transmit limit leaves the queue and is finished exactly then, every other
    sent one returns one tier down, and the rest stay as they were. The
    selection is maximal: no unsent entry would still fit. *)
Theorem GetBroadcasts_correct {B G} `{Broadcast B} `{Rand G} `{MathLog}
    Message numNodes (g : G) (q : TransmitLimitedQueue B) overhead limit :
  queue_ok q -> 0 <= overhead ->
  let tl := retransmitLimit (q_RetransmitMult q) numNodes in
  exists q' g' sent rest,
    GetBroadcasts Message numNodes g q overhead limit =
      Some (q', map (fun e => Message (lb_b e)) sent, map lb_b (List.filter (spent tl) sent), g') /\
    queue_ok q' /\ entries q ≡ₚ sent ++ rest /\
    contents q' ≡ₚ map view (map bump (List.filter (fun e => negb (spent tl e)) sent)) ++ map view rest /\
    (sent = [] \/ cost Message overhead sent <= limit) /\
    StronglySorted (fun e1 e2 => lb_transmits e1 <= lb_transmits e2) sent /\
    (forall e, e ∈ rest -> lb_msgLen e = len (Message (lb_b e)) ->
       limit - cost Message overhead sent - overhead <= 0 \/
       limit - cost Message overhead sent - overhead < len (Message (lb_b e))).
Proof.
  intros Hq Ho. destruct (GetBroadcasts_ok Message numNodes g q overhead limit Hq Ho)
    as (q' & g' & sent & rest & ? & ? & ? & ? & ? & ? & ? & _). by exists q', g', sent, rest.
Qed.

Lemma GetBroadcasts_correct_witness :
  exists q' g' sent rest,
    GetBroadcasts mb_msg 5 1 exampleQueue 2 40 =
      Some (q', map (fun e => mb_msg (lb_b e)) sent,
            map lb_b (List.filter (spent (retransmitLimit (q_RetransmitMult exampleQueue) 5)) sent), g') /\
    queue_ok q' /\ entries exampleQueue ≡ₚ sent ++ rest /\
    contents q' ≡ₚ map view (map bump (List.filter (fun e => negb (spent
      (retransmitLimit (q_RetransmitMult exampleQueue) 5) e)) sent)) ++ map view rest /\
    (sent = [] \/ cost mb_msg 2 sent <= 40) /\
    StronglySorted (fun e1 e2 => lb_transmits e1 <= lb_transmits e2) sent /\
    (forall e, e ∈ rest -> lb_msgLen e = len (mb_msg (lb_b e)) ->
       40 - cost mb_msg 2 sent - 2 <= 0 \/ 40 - cost mb_msg 2 sent - 2 < len (mb_msg (lb_b e))).
Proof. apply (GetBroadcasts_correct mb_msg 5 1 exampleQueue 2 40); [apply exampleQueue_ok|lia]. Defined.

(** Queuing a broadcast replaces exactly the entries it invalidates:
    the one of the same name for a named broadcast, the plain ones it says it
    invalidates for a plain one, none for a unique one. Those are finished,
    in queue order; the new entry has a fresh id and the length of its
    message; everything else stays, and the queue's invariant is kept. *)
Theorem queueBroadcast_correct {B G} `{Broadcast B} `{Rand G}
    Message (g : G) (q : TransmitLimitedQueue B) b transmits :
  queue_ok q -> q_idGen q < MaxInt64 ->
  exists q' g',
    queueBroadcast Message g q b transmits =
      Some (q', map lb_b (List.filter (invalidatedBy b) (entries q)), g') /\
    queue_ok q' /\ q_idGen q' = q_idGen q + 1 /\ q_RetransmitMult q' = q_RetransmitMult q /\
    contents q' ≡ₚ (freshKey Message q b transmits, b)
      :: map view (List.filter (fun e => negb (invalidatedBy b e)) (entries q)).
Proof. apply queueBroadcast_ok. Qed.

Lemma queueBroadcast_correct_witness :
  exists q' g',
    queueBroadcast mb_msg 7 exampleQueue (exampleBroadcast "a" 5) 0 =
      Some (q', map lb_b (List.filter (invalidatedBy (exampleBroadcast "a" 5)) (entries exampleQueue)), g') /\
    queue_ok q' /\ q_idGen q' = q_idGen exampleQueue + 1 /\
    q_RetransmitMult q' = q_RetransmitMult exampleQueue /\
    contents q' ≡ₚ (freshKey mb_msg exampleQueue (exampleBroadcast "a" 5) 0, exampleBroadcast "a" 5)
      :: map view (List.filter (fun e => negb (invalidatedBy (exampleBroadcast "a" 5) e)) (entries exampleQueue)).
Proof.
  apply (queueBroadcast_correct mb_msg 7 exampleQueue); [apply exampleQueue_ok|by vm_compute].
Defined.

(** [Prune] leaves the [maxRetain] first entries of the queue (the
    freshest) and finishes each of the others, last first; [Reset] finishes
    every entry in queue order and leaves an empty queue. *)
Theorem Prune_Reset_correct {B} `{Broadcast B} (q : TransmitLimitedQueue B) maxRetain :
  queue_ok q -> 0 <= maxRetain ->
  (exists q' dropped, Prune q maxRetain = Some (q', map lb_b (rev dropped)) /\
     entries q = entries q' ++ dropped /\ queue_ok q' /\ NumQueued q' = Z.min (NumQueued q) maxRetain) /\
  (exists q', ResetQueue q = Some (q', map lb_b (entries q)) /\ entries q' = [] /\ queue_ok q').
Proof.
  intros Hq Hr. split.
  - destruct (pruneLoop_ok maxRetain (S (size (q_root q))) q [] Hq Hr) as (q' & l2 & E & ? & ? & ?).
    { unfold size. fold (entries q). lia. }
    exists q', l2. done.
  - unfold ResetQueue, walkReadOnlyLocked. rewrite ascendFrom_spec by done. cbn [from mbind option_bind].
    exists (newQueue (q_RetransmitMult q)). split; [|split; [done|apply newQueue_ok]].
    unfold newQueue. do 2 f_equal. fold (entries q).
    enough (Hf : forall acc, foldWhile (fun l cur => (l ++ [lb_b cur], true)) acc (entries q) =
                             acc ++ map lb_b (entries q)) by (apply (Hf [])).
    induction (entries q) as [|e l IH]; intros acc; cbn; [by rewrite app_nil_r|].
    rewrite IH. by rewrite <- app_assoc.
Qed.

Lemma Prune_Reset_correct_witness :
  exists q' dropped, Prune exampleQueue 1 = Some (q', map lb_b (rev dropped)) /\
    entries exampleQueue = entries q' ++ dropped /\ queue_ok q' /\
    NumQueued q' = Z.min (NumQueued exampleQueue) 1.
Proof. apply (Prune_Reset_correct exampleQueue 1); [apply exampleQueue_ok|lia]. Defined.
