(* ===== verification/NetAddr.v ===== *)
(** Addresses: [src/netaddr.go], the CIDR filter of [src/config.go] and the
    host and port strings of [src/util.go], with the parts of Go's [net] and
    [net/netip] they use.

    A [netip.Addr] is an address of one of the two families without a zone;
    a [net.IP] is a byte slice. The tables of blocks hold the parsed
    prefixes. *)

From S2P Require Import Prelude.

(** ** [netip] *)

Inductive Addr :=
| Addr4 (v : Z)   (* 32 bits *)
| Addr6 (v : Z).  (* 128 bits *)

Record Prefix := MkPrefix { p_addr : Addr; p_bits : Z }.

Definition Is4 (a : Addr) : bool := match a with Addr4 _ => true | Addr6 _ => false end.

(** [Addr.Unmap]: an IPv4-mapped IPv6 address becomes its IPv4 address. *)
Definition Unmap (a : Addr) : Addr :=
  match a with
  | Addr6 v => if Z.shiftr v 32 =? 0xffff then Addr4 (Z.land v (Z.ones 32)) else a
  | Addr4 _ => a
  end.

(** [Prefix.Contains]: the families agree and so do the prefix bits. *)
Definition PrefixContains (p : Prefix) (a : Addr) : bool :=
  match p_addr p, a with
  | Addr4 n, Addr4 v => Z.shiftr n (32 - p_bits p) =? Z.shiftr v (32 - p_bits p)
  | Addr6 n, Addr6 v => Z.shiftr n (128 - p_bits p) =? Z.shiftr v (128 - p_bits p)
  | _, _ => false
  end.

(** [netip.AddrFromSlice] *)
Definition AddrFromSlice (b : bytes) : option Addr :=
  if len b =? 4 then Some (Addr4 (be_value b))
  else if len b =? 16 then
    Some (Addr6 (Z.lor (Z.shiftl (be_value (take 8 b)) 64) (be_value (drop 8 b))))
  else None.

Definition ip4 (a b c d : Z) : Z := ((a * 256 + b) * 256 + c) * 256 + d.
(** An IPv6 prefix given by its first groups; the others are zero. *)
Definition ip6 (groups : list Z) : Z :=
  fold_left (fun v g => v * 65536 + g) (groups ++ repeat 0 (8 - length groups)) 0.
Definition p4 (a b c d bits : Z) : Prefix := MkPrefix (Addr4 (ip4 a b c d)) bits.
Definition p6 (groups : list Z) (bits : Z) : Prefix := MkPrefix (Addr6 (ip6 groups)) bits.

(** ** [netaddr.go] *)

Definition specialPurposeBlocks : list Prefix :=
  [ p4 0 0 0 0 8; p4 10 0 0 0 8; p4 100 64 0 0 10; p4 127 0 0 0 8; p4 169 254 0 0 16;
    p4 172 16 0 0 12; p4 192 0 0 0 24; p4 192 0 2 0 24; p4 192 88 99 0 24; p4 192 168 0 0 16;
    p4 198 18 0 0 15; p4 198 51 100 0 24; p4 203 0 113 0 24; p4 240 0 0 0 4;
    p4 255 255 255 255 32;
    p6 [0; 0; 0; 0; 0; 0; 0; 1] 128; p6 [] 128; p6 [0x64; 0xff9b] 96;
    p6 [0; 0; 0; 0; 0; 0xffff; 0; 0] 96; p6 [0x100] 64; p6 [0x2001] 23; p6 [0x2001; 0xdb8] 32;
    p6 [0x2002] 16; p6 [0xfc00] 7; p6 [0xfe80] 10 ].

Definition nonForwardableBlocks : list Prefix :=
  [ p4 0 0 0 0 8; p4 127 0 0 0 8; p4 169 254 0 0 16; p4 192 0 0 0 24; p4 192 0 2 0 24;
    p4 198 51 100 0 24; p4 203 0 113 0 24; p4 240 0 0 0 4; p4 255 255 255 255 32;
    p6 [0; 0; 0; 0; 0; 0; 0; 1] 128; p6 [] 128; p6 [0; 0; 0; 0; 0; 0xffff; 0; 0] 96;
    p6 [0x2001; 0xdb8] 32; p6 [0x2001; 0x10] 28; p6 [0xfe80] 10 ].

Definition inBlocks (blocks : list Prefix) (a : Addr) : bool :=
  existsb (fun p => PrefixContains p a) blocks.

Definition isSpecialPurpose (a : Addr) : bool := inBlocks specialPurposeBlocks (Unmap a).

Definition isPublicAddress (ip : bytes) : bool :=
  match AddrFromSlice ip with
  | Some a => negb (isSpecialPurpose a)
  | None => false
  end.

Record advertiseCandidate := Candidate {
  c_addr : Addr;
  c_bits : Z;
  c_defaultRoute : bool;
}.

(** Whether a candidate may be advertised at all. *)
Definition eligible (c : advertiseCandidate) : bool :=
  let a := Unmap (c_addr c) in
  negb (negb (isSpecialPurpose a) || inBlocks nonForwardableBlocks a).

(** The comparison function of the sort: negative when [x] goes first. *)
Definition compareCandidates (x y : advertiseCandidate) : Z :=
  if negb (Bool.eqb (c_defaultRoute x) (c_defaultRoute y)) then
    (if c_defaultRoute x then -1 else 1)
  else
    let x4 := Is4 (Unmap (c_addr x)) in
    let y4 := Is4 (Unmap (c_addr y)) in
    if negb (Bool.eqb x4 y4) then (if x4 then -1 else 1)
    else match c_bits y ?= c_bits x with Lt => -1 | Eq => 0 | Gt => 1 end.

(** [slices.SortStableFunc]: equal elements keep their order. *)
Fixpoint insertStable {A} (cmp : A -> A -> Z) (x : A) (l : list A) : list A :=
  match l with
  | [] => [x]
  | y :: l' => if cmp y x <? 0 then y :: insertStable cmp x l' else x :: l
  end.
Definition sortStable {A} (cmp : A -> A -> Z) (l : list A) : list A :=
  foldr (insertStable cmp) [] l.

Definition pickAdvertiseAddr (cands : list advertiseCandidate) : option Addr :=
  match sortStable compareCandidates (List.filter eligible cands) with
  | [] => None
  | c :: _ => Some (Unmap (c_addr c))
  end.

(** ** [net.IP] and [net.IPNet] *)

Definition v4InV6Prefix : bytes := repeat (z2b 0) 10 ++ [z2b 255; z2b 255].

(** [IP.To4], [None] for nil. *)
Definition To4 (ip : bytes) : option bytes :=
  if len ip =? 4 then Some ip
  else if (len ip =? 16) && bool_decide (take 12 ip = v4InV6Prefix) then Some (drop 12 ip)
  else None.

(** [IP.Equal] *)
Definition IPEqual (ip x : bytes) : bool :=
  if len ip =? len x then bool_decide (ip = x)
  else if (len ip =? 4) && (len x =? 16) then
    bool_decide (take 12 x = v4InV6Prefix) && bool_decide (ip = drop 12 x)
  else if (len ip =? 16) && (len x =? 4) then
    bool_decide (take 12 ip = v4InV6Prefix) && bool_decide (drop 12 ip = x)
  else false.

Record IPNet := MkIPNet { net_IP : bytes; net_Mask : bytes }.

(** [networkNumberAndMask]; a nil pair is two empty slices. *)
Definition networkNumberAndMask (n : IPNet) : bytes * bytes :=
  let ip := match To4 (net_IP n) with Some ip => ip | None => net_IP n end in
  let m := net_Mask n in
  if negb (len ip =? 4) && negb (len ip =? 16) then ([], [])
  else if len m =? 4 then (if len ip =? 4 then (ip, m) else ([], []))
  else if len m =? 16 then (if len ip =? 4 then (ip, drop 12 m) else (ip, m))
  else ([], []).

Definition maskByte (b m : byte) : Z := Z.land (b2z b) (b2z m).

Fixpoint maskedEqual (nn m ip : bytes) : bool :=
  match nn, m, ip with
  | n :: nn, m0 :: m, i :: ip => (maskByte n m0 =? maskByte i m0) && maskedEqual nn m ip
  | _, _, _ => true
  end.

(** [IPNet.Contains] *)
Definition NetContains (n : IPNet) (ip : bytes) : bool :=
  let '(nn, m) := networkNumberAndMask n in
  let ip := match To4 ip with Some x => x | None => ip end in
  if negb (len ip =? len nn) then false else maskedEqual nn m ip.

(** ** The CIDR filter of [config.go] *)

Definition IPMustBeChecked (CIDRsAllowed : list IPNet) : bool := len CIDRsAllowed >? 0.

(** [true] for a nil error. *)
Definition IPAllowed (CIDRsAllowed : list IPNet) (ip : bytes) : bool :=
  if negb (IPMustBeChecked CIDRsAllowed) then true
  else existsb (fun n => NetContains n ip) CIDRsAllowed.

(** ** Strings: [IP.String], [joinHostPort], [hasPort], [ensurePort]

    Strings are handled as their bytes. *)

Definition ch (s : string) : byte := match str2b s with c :: _ => c | [] => z2b 0 end.
Definition colon : byte := ch ":".
Definition lbracket : byte := ch "[".
Definition rbracket : byte := ch "]".

Definition digit (n : Z) : byte := z2b (n + if n <? 10 then 48 else 87).

(** Digits of [n] in [base], most significant first; [fuel] of the digits. *)
Fixpoint digits (fuel : nat) (base n : Z) : bytes :=
  match fuel with
  | O => []
  | S fuel => if n <? base then [digit n] else digits fuel base (n / base) ++ [digit (n mod base)]
  end.

(** [strconv.Itoa] of a number that is not negative. *)
Definition itoa (n : Z) : bytes := digits 20 10 n.
Definition hex (n : Z) : bytes := digits 16 16 n.

Definition ip4String (b : bytes) : bytes :=
  match map (fun c => itoa (b2z c)) b with
  | [a; b; c; d] => a ++ ch "." :: b ++ ch "." :: c ++ ch "." :: d
  | _ => []
  end.

Fixpoint groupsOf (b : bytes) : list Z :=
  match b with
  | x :: y :: b => b2z x * 256 + b2z y :: groupsOf b
  | _ => []
  end.

(** How many groups from the front are zero. *)
Fixpoint zeroRun (l : list Z) : nat :=
  match l with
  | 0 :: l => S (zeroRun l)
  | _ => 0%nat
  end.

(** The first longest run of at least two zero groups, as start and length. *)
Fixpoint longestRun (i : nat) (l : list Z) (best : nat * nat) : nat * nat :=
  match l with
  | [] => best
  | _ :: l' =>
      let n := zeroRun l in
      longestRun (S i) l' (if (2 <=? n)%nat && (best.2 <? n)%nat then (i, n) else best)
  end.

Fixpoint joinGroups (l : list Z) : bytes :=
  match l with
  | [] => []
  | [g] => hex g
  | g :: l => hex g ++ colon :: joinGroups l
  end.

Definition ip6String (b : bytes) : bytes :=
  let l := groupsOf b in
  match longestRun 0 l (0%nat, 0%nat) with
  | (_, O) => joinGroups l
  | (i, n) => joinGroups (take i l) ++ colon :: colon :: joinGroups (drop (i + n) l)
  end.

Definition hexByte (c : byte) : bytes := [digit (b2z c / 16); digit (b2z c mod 16)].

(** [IP.String] *)
Definition ipString (ip : bytes) : bytes :=
  if len ip =? 0 then str2b "<nil>"
  else if negb (len ip =? 4) && negb (len ip =? 16) then ch "?" :: concat (map hexByte ip)
  else match To4 ip with
       | Some p4 => ip4String p4
       | None => ip6String ip
       end.

(** [net.JoinHostPort] *)
Definition JoinHostPort (host port : bytes) : bytes :=
  if bool_decide (colon ∈ host) then lbracket :: host ++ rbracket :: colon :: port
  else host ++ colon :: port.

Definition joinHostPort (host : bytes) (port : Z) : bytes := JoinHostPort host (itoa port).

(** [strings.LastIndex] of one byte, -1 when absent, and [strings.Count]. *)
Fixpoint lastIndexFrom (i : Z) (c : byte) (s : bytes) (best : Z) : Z :=
  match s with
  | [] => best
  | x :: s => lastIndexFrom (i + 1) c s (if Byte.eqb x c then i else best)
  end.
Definition LastIndex (s : bytes) (c : byte) : Z := lastIndexFrom 0 c s (-1).
Definition Count (s : bytes) (c : byte) : Z := len (List.filter (Byte.eqb c) s).

Definition hasPort (s : bytes) : bool :=
  if LastIndex s lbracket =? 0 then LastIndex s colon >? LastIndex s rbracket
  else Count s colon =? 1.

Definition bracket (c : byte) : bool := Byte.eqb c lbracket || Byte.eqb c rbracket.

Fixpoint trimLeft (s : bytes) : bytes :=
  match s with
  | c :: s' => if bracket c then trimLeft s' else s
  | [] => []
  end.
(** [strings.Trim(s, "[]")] *)
Definition trimBrackets (s : bytes) : bytes := rev (trimLeft (rev (trimLeft s))).

Definition ensurePort (s : bytes) (port : Z) : bytes :=
  if hasPort s then s else JoinHostPort (trimBrackets s) (itoa port).

(** ** Lemmas *)

Lemma insertStable_perm {A} cmp (x : A) l : insertStable cmp x l ≡ₚ x :: l.
Proof.
  induction l as [|y l IH]; [done|]. cbn. destruct (cmp y x <? 0); [|done].
  rewrite IH. constructor.
Qed.

Lemma sortStable_perm {A} (cmp : A -> A -> Z) l : sortStable cmp l ≡ₚ l.
Proof. induction l as [|x l IH]; [done|]. cbn. by rewrite insertStable_perm, IH. Qed.

(** The head of a sorted list is not after any other element. *)
Lemma sortStable_head {A} (cmp : A -> A -> Z) l x r :
  (forall a b, cmp a b < 0 -> cmp b a >= 0) ->
  (forall a, cmp a a = 0) ->
  (forall a b c, cmp a b <= 0 -> cmp b c <= 0 -> cmp a c <= 0) ->
  (forall a b, cmp a b >= 0 -> cmp b a <= 0) ->
  sortStable cmp l = x :: r -> forall y, y ∈ l -> cmp x y <= 0.
Proof.
  intros Hasym Hrefl Htrans Htotal. revert x r.
  induction l as [|a l IH]; intros x r E y Hy; [by apply not_elem_of_nil in Hy|].
  cbn in E. fold (sortStable cmp l) in E. destruct (sortStable cmp l) as [|b r'] eqn:El; cbn in E.
  - injection E as <- <-. apply elem_of_cons in Hy as [->|Hy]; [by rewrite Hrefl|].
    rewrite <- (sortStable_perm cmp l), El in Hy. by apply not_elem_of_nil in Hy.
  - destruct (Z.ltb_spec (cmp b a) 0) as [Hlt|Hge]; injection E as <- _.
    + apply elem_of_cons in Hy as [->|Hy]; [lia|]. by eapply IH.
    + apply elem_of_cons in Hy as [->|Hy]; [by rewrite Hrefl|].
      apply (Htrans _ b); [apply Htotal; lia|]. by eapply IH.
Qed.

Lemma compareCandidates_laws :
  (forall a b, compareCandidates a b < 0 -> compareCandidates b a >= 0) /\
  (forall a, compareCandidates a a = 0) /\
  (forall a b c, compareCandidates a b <= 0 -> compareCandidates b c <= 0 -> compareCandidates a c <= 0) /\
  (forall a b, compareCandidates a b >= 0 -> compareCandidates b a <= 0).
Proof.
  unfold compareCandidates. split_and!.
  - intros a b. destruct (c_defaultRoute a), (c_defaultRoute b), (Is4 (Unmap (c_addr a))), (Is4 (Unmap (c_addr b)));
      cbn; try lia; destruct (Z.compare_spec (c_bits b) (c_bits a)), (Z.compare_spec (c_bits a) (c_bits b)); lia.
  - intros a. rewrite !Bool.eqb_reflx. cbn. by rewrite Z.compare_refl.
  - intros a b c.
    destruct (c_defaultRoute a), (c_defaultRoute b), (c_defaultRoute c),
      (Is4 (Unmap (c_addr a))), (Is4 (Unmap (c_addr b))), (Is4 (Unmap (c_addr c))); cbn; try lia;
      destruct (Z.compare_spec (c_bits b) (c_bits a)), (Z.compare_spec (c_bits c) (c_bits b)),
        (Z.compare_spec (c_bits c) (c_bits a)); lia.
  - intros a b. destruct (c_defaultRoute a), (c_defaultRoute b), (Is4 (Unmap (c_addr a))), (Is4 (Unmap (c_addr b)));
      cbn; try lia; destruct (Z.compare_spec (c_bits b) (c_bits a)), (Z.compare_spec (c_bits a) (c_bits b)); lia.
Qed.

Lemma len_16 (ip : bytes) : len ip = 4 -> len (v4InV6Prefix ++ ip) = 16.
Proof. intros H. rewrite len_app, H. done. Qed.

Lemma To4_mapped ip : len ip = 4 -> To4 (v4InV6Prefix ++ ip) = To4 ip.
Proof.
  intros H. unfold To4. rewrite len_16, H by done. cbn [Z.eqb Pos.eqb andb].
  rewrite bool_decide_true by done. done.
Qed.

Lemma NetContains_mapped n ip :
  len ip = 4 -> NetContains n (v4InV6Prefix ++ ip) = NetContains n ip.
Proof.
  intros H. unfold NetContains. rewrite To4_mapped by done. unfold To4. by rewrite H.
Qed.

Lemma byte_eqb_spec (a b : byte) : Byte.eqb a b = true <-> a = b.
Proof. destruct (Byte.eqb a b) eqn:E; split; try done. - intros _. by apply Byte.byte_dec_bl. - intros ->. by rewrite Byte.byte_dec_lb in E. Qed.

Lemma byte_eqb_neq (a b : byte) : a <> b -> Byte.eqb a b = false.
Proof. intros H. destruct (Byte.eqb a b) eqn:E; [|done]. by apply byte_eqb_spec in E. Qed.

Lemma lastIndexFrom_app i c a b best :
  lastIndexFrom i c (a ++ b) best = lastIndexFrom (i + len a) c b (lastIndexFrom i c a best).
Proof.
  revert i best. induction a as [|x a IH]; intros i best; cbn [app lastIndexFrom].
  - change (len []) with 0. by rewrite Z.add_0_r.
  - rewrite IH, len_cons. f_equal. lia.
Qed.

Lemma lastIndexFrom_absent i c s best : c ∉ s -> lastIndexFrom i c s best = best.
Proof.
  revert i best. induction s as [|x s IH]; intros i best Hc; [done|]. cbn.
  rewrite byte_eqb_neq by (intros ->; apply Hc; left). apply IH. intros Hs. apply Hc. by right.
Qed.

(** The last occurrence splits the string. *)
Lemma LastIndex_split a c b : c ∉ b -> LastIndex (a ++ c :: b) c = len a.
Proof.
  intros Hb. unfold LastIndex. rewrite lastIndexFrom_app. cbn.
  rewrite (proj2 (byte_eqb_spec c c) eq_refl). by rewrite lastIndexFrom_absent.
Qed.

Lemma LastIndex_bounds s c : -1 <= LastIndex s c < Z.max 1 (len s).
Proof.
  unfold LastIndex. enough (H : forall i best, 0 <= i -> -1 <= best < Z.max 1 i ->
    -1 <= lastIndexFrom i c s best < Z.max 1 (i + len s)) by (apply (H 0 (-1)); lia).
  induction s as [|x s IH]; intros i best Hi Hb; cbn [lastIndexFrom].
  - change (len []) with 0. lia.
  - rewrite len_cons. specialize (IH (i + 1) (if Byte.eqb x c then i else best) ltac:(lia)).
    destruct (Byte.eqb x c); specialize (IH ltac:(lia)); lia.
Qed.

Lemma Count_absent c s : c ∉ s -> Count s c = 0.
Proof.
  intros Hc. unfold Count. induction s as [|x s IH]; [done|]. cbn.
  rewrite byte_eqb_neq by (intros ->; apply Hc; left). apply IH. intros Hs. apply Hc. by right.
Qed.

Lemma digits_plain fuel base n c :
  2 <= base <= 16 -> 0 <= n -> c = colon \/ c = lbracket \/ c = rbracket -> c ∉ digits fuel base n.
Proof.
  intros Hb Hn Hc. assert (Hd : forall k, 0 <= k < 16 -> digit k <> c).
  { intros k Hk E. assert (E' : b2z (digit k) = b2z c) by congruence. unfold digit in E'.
    rewrite b2z_z2b_small in E' by (destruct (k <? 10); lia).
    destruct Hc as [->|[->| ->]]; vm_compute b2z in E'; destruct (Z.ltb_spec k 10); lia. }
  revert n Hn. induction fuel as [|fuel IH]; intros n Hn; cbn; [apply not_elem_of_nil|].
  destruct (Z.ltb_spec n base).
  - intros E%list_elem_of_singleton. symmetry in E. revert E. apply Hd. lia.
  - intros [Hin|E%list_elem_of_singleton]%elem_of_app.
    + revert Hin. apply IH. apply Z.div_pos; lia.
    + symmetry in E. revert E. apply Hd. pose proof (Z.mod_pos_bound n base). lia.
Qed.

Lemma JoinHostPort_hasPort h port :
  lbracket ∉ h -> rbracket ∉ h -> 0 <= port -> hasPort (JoinHostPort h (itoa port)) = true.
Proof.
  intros Hl Hr Hp. unfold JoinHostPort, itoa.
  set (p := digits 20 10 port).
  assert (Hpc : colon ∉ p) by (apply digits_plain; [lia|done|by left]).
  assert (Hpl : lbracket ∉ p) by (apply digits_plain; [lia|done|by right; left]).
  assert (Hpr : rbracket ∉ p) by (apply digits_plain; [lia|done|by right; right]).
  clearbody p. destruct (bool_decide_reflect (colon ∈ h)) as [Hc|Hc]; unfold hasPort.
  - set (s := lbracket :: h ++ rbracket :: colon :: p).
    assert (E1 : LastIndex s lbracket = 0).
    { apply (LastIndex_split [] lbracket).
      intros [H|[H|[H|H]%elem_of_cons]%elem_of_cons]%elem_of_app; done. }
    assert (E2 : LastIndex s rbracket = len (lbracket :: h)).
    { apply (LastIndex_split (lbracket :: h)). intros [H|H]%elem_of_cons; done. }
    assert (E3 : LastIndex s colon = len (lbracket :: h ++ [rbracket])).
    { rewrite <- (LastIndex_split (lbracket :: h ++ [rbracket]) colon p Hpc).
      unfold s. cbn [app]. by rewrite <- app_assoc. }
    rewrite E1, E2, E3, !len_cons, len_app. apply Z.gtb_lt. change (len [rbracket]) with 1. lia.
  - destruct (Z.eqb_spec (LastIndex (h ++ colon :: p) lbracket) 0) as [E|E].
    + exfalso. unfold LastIndex in E. rewrite lastIndexFrom_absent in E; [done|].
      intros [H|[H|H]%elem_of_cons]%elem_of_app; done.
    + apply Z.eqb_eq. unfold Count. rewrite List.filter_app, len_app. cbn [List.filter].
      rewrite (proj2 (byte_eqb_spec colon colon) eq_refl), len_cons.
      pose proof (Count_absent _ _ Hc) as H1. pose proof (Count_absent _ _ Hpc) as H2.
      unfold Count in *. lia.
Qed.

(** ** Properties *)

(** When the node is bound to every interface it advertises the best
    eligible address: a special-purpose, forwardable one, on the default-route
    interface if any eligible one is, then IPv4 before IPv6, then on the
    smallest network; and it fails only if no address is eligible. *)
Theorem pickAdvertiseAddr_best cands :
  match pickAdvertiseAddr cands with
  | None => forall c, c ∈ cands -> eligible c = false
  | Some a =>
      exists c, c ∈ cands /\ eligible c = true /\ a = Unmap (c_addr c) /\
        isSpecialPurpose a = true /\ inBlocks nonForwardableBlocks a = false /\
        forall c', c' ∈ cands -> eligible c' = true ->
          (c_defaultRoute c' = true -> c_defaultRoute c = true) /\
          (c_defaultRoute c' = c_defaultRoute c ->
             (Is4 (Unmap (c_addr c')) = true -> Is4 a = true) /\
             (Is4 (Unmap (c_addr c')) = Is4 a -> c_bits c' <= c_bits c))
  end.
Proof.
  unfold pickAdvertiseAddr.
  pose proof (sortStable_perm compareCandidates (List.filter eligible cands)) as Hp.
  destruct (sortStable compareCandidates _) as [|c r] eqn:E.
  - intros c Hc. destruct (eligible c) eqn:Ec; [|done]. exfalso.
    apply (not_elem_of_nil c). rewrite Hp. apply list_elem_of_In, List.filter_In.
    split; [by apply list_elem_of_In|done].
  - assert (Hc : c ∈ List.filter eligible cands) by (rewrite <- Hp; left).
    apply list_elem_of_In, List.filter_In in Hc as [Hc He]. apply list_elem_of_In in Hc.
    exists c. pose proof He as He'. unfold eligible in He'.
    apply negb_true_iff, orb_false_iff in He' as [Hs Hf]. apply negb_false_iff in Hs.
    split_and!; [done..|]. intros c' Hc' He2.
    destruct compareCandidates_laws as (L1 & L2 & L3 & L4).
    assert (Hle : compareCandidates c c' <= 0).
    { eapply sortStable_head; [done..|exact E|]. apply list_elem_of_In, List.filter_In.
      split; [by apply list_elem_of_In|done]. }
    unfold compareCandidates in Hle.
    destruct (c_defaultRoute c), (c_defaultRoute c'); cbn in Hle; try lia; split; try done; intros Hd; try done;
      destruct (Is4 (Unmap (c_addr c))), (Is4 (Unmap (c_addr c'))); cbn in Hle; try lia; split; try done;
      intros _; destruct (Z.compare_spec (c_bits c') (c_bits c)); lia.
Qed.

(** The allow-list treats the 4-byte and the 16-byte form of an IPv4
    address alike, as does the address comparison of alive messages; an empty
    list allows everything, and a non-empty one exactly the addresses some
    network of it contains. *)
Theorem IPAllowed_correct cidrs ip4 ip :
  (len ip4 = 4 -> IPAllowed cidrs (v4InV6Prefix ++ ip4) = IPAllowed cidrs ip4 /\
     IPEqual ip4 (v4InV6Prefix ++ ip4) = true /\ IPEqual (v4InV6Prefix ++ ip4) ip4 = true) /\
  (IPAllowed cidrs ip = true <-> cidrs = [] \/ exists n, n ∈ cidrs /\ NetContains n ip = true).
Proof.
  split.
  - intros H. split_and!.
    + unfold IPAllowed. destruct (negb _); [done|].
      induction cidrs as [|n l IH]; [done|]. cbn [existsb]. by rewrite NetContains_mapped, IH.
    + unfold IPEqual. rewrite len_16, H by done. cbn [Z.eqb Pos.eqb andb].
      by rewrite !bool_decide_true.
    + unfold IPEqual. rewrite len_16, H by done. cbn [Z.eqb Pos.eqb andb].
      by rewrite !bool_decide_true.
  - unfold IPAllowed, IPMustBeChecked. destruct cidrs as [|n l].
    { cbn. split; [by left|done]. }
    rewrite len_cons. pose proof (len_nonneg l). rewrite (proj2 (Z.gtb_gt _ _)) by lia. cbn [negb].
    rewrite existsb_exists. split.
    + intros (x & Hx & Hc). right. exists x. split; [by apply list_elem_of_In|done].
    + intros [?|(x & Hx & Hc)]; [done|]. exists x. split; [by apply list_elem_of_In|done].
Qed.

Lemma IPAllowed_correct_witness :
  let nets := [MkIPNet (map z2b [10; 0; 0; 0]) (map z2b [255; 0; 0; 0])] in
  IPAllowed nets (v4InV6Prefix ++ map z2b [10; 1; 2; 3]) = IPAllowed nets (map z2b [10; 1; 2; 3]).
Proof.
  intros nets. apply (IPAllowed_correct nets (map z2b [10; 1; 2; 3]) []). reflexivity.
Defined.

(** Completing an address with the default port gives an address that has
    a port, for every host whose brackets are only around it, and completing it
    once more changes nothing, whatever the port. *)
Theorem ensurePort_hasPort s port port' :
  0 <= port -> Forall (fun c => bracket c = false) (trimBrackets s) ->
  hasPort (ensurePort s port) = true /\ ensurePort (ensurePort s port) port' = ensurePort s port.
Proof.
  intros Hp Hb. enough (H : hasPort (ensurePort s port) = true).
  { split; [done|]. unfold ensurePort at 1. by rewrite H. }
  unfold ensurePort. destruct (hasPort s) eqn:Es; [done|].
  apply JoinHostPort_hasPort; [| |done].
  - intros H. rewrite Forall_forall in Hb. specialize (Hb _ H). by vm_compute in Hb.
  - intros H. rewrite Forall_forall in Hb. specialize (Hb _ H). by vm_compute in Hb.
Qed.

Lemma ensurePort_hasPort_witness :
  hasPort (ensurePort (str2b "[::1]") 7946) = true /\
  ensurePort (ensurePort (str2b "[::1]") 7946) 8000 = ensurePort (str2b "[::1]") 7946.
Proof. apply (ensurePort_hasPort (str2b "[::1]") 7946 8000); [done|]. repeat constructor. Defined.
