(* ===== verification/Nodes.v ===== *)
(** Nodes and the helpers on lists of them: the data of [src/state.go]
    ([Node], [nodeState], version vectors, [verifyProtocol]) and the list
    functions of [src/util.go] ([moveDeadNodes], [shuffleNodes],
    [kRandomNodes]).

    The node list of the program holds pointers. The list functions are
    written over any type of pointers with the function [st] that reads the
    node state behind one; they move pointers and never the states.

    Instants are nanoseconds since the Unix epoch; the zero [time.Time] is the
    first of January of the year 1. *)

From S2P Require Import Prelude Wire NetAddr.

(** ** Data *)

Inductive NodeStateType := StateAlive | StateSuspect | StateDead | StateLeft.

#[global] Instance NodeStateType_eq_dec : EqDecision NodeStateType.
Proof. solve_decision. Defined.

(** [NodeStateType(z)] of a number from the network: [None] is a value that
    is none of the four constants. *)
Definition toNodeStateType (z : Z) : option NodeStateType :=
  if z =? 0 then Some StateAlive
  else if z =? 1 then Some StateSuspect
  else if z =? 2 then Some StateDead
  else if z =? 3 then Some StateLeft
  else None.

(** The constants' values, as [int(n.State)] puts them on the wire. *)
Definition stateNumber (t : NodeStateType) : Z :=
  match t with StateAlive => 0 | StateSuspect => 1 | StateDead => 2 | StateLeft => 3 end.

(** A version vector, [[vsnLen]uint8]. *)
Record vsnArray := Vsn { v_pmin : Z; v_pmax : Z; v_pcur : Z; v_dmin : Z; v_dmax : Z; v_dcur : Z }.

#[global] Instance vsnArray_eq_dec : EqDecision vsnArray.
Proof. solve_decision. Defined.

Definition zeroVsn : vsnArray := Vsn 0 0 0 0 0 0.

Definition parseVsn (v : slice) : vsnArray * bool :=
  match slice_bytes v with
  | [] => (zeroVsn, true)
  | a :: b :: c :: d :: e :: f :: _ => (Vsn (b2z a) (b2z b) (b2z c) (b2z d) (b2z e) (b2z f), true)
  | _ => (zeroVsn, false)
  end.

Record Node := MkNode {
  n_Name : string;
  n_Addr : slice;
  n_Port : Z;
  n_Meta : slice;
  n_State : NodeStateType;
  n_PMin : Z;
  n_PMax : Z;
  n_PCur : Z;
  n_DMin : Z;
  n_DMax : Z;
  n_DCur : Z;
}.

#[global] Instance Node_eq_dec : EqDecision Node.
Proof. solve_decision. Defined.

(** The part of a [Node] a composite literal without versions sets. *)
Definition newNode (name : string) (addr : slice) (port : Z) (meta : slice) (t : NodeStateType) : Node :=
  MkNode name addr port meta t 0 0 0 0 0 0.

Definition versions (n : Node) : vsnArray :=
  Vsn (n_PMin n) (n_PMax n) (n_PCur n) (n_DMin n) (n_DMax n) (n_DCur n).

Definition setVersions (n : Node) (v : vsnArray) : Node :=
  MkNode (n_Name n) (n_Addr n) (n_Port n) (n_Meta n) (n_State n)
    (v_pmin v) (v_pmax v) (v_pcur v) (v_dmin v) (v_dmax v) (v_dcur v).

Definition Address (n : Node) : bytes := joinHostPort (ipString (slice_bytes (n_Addr n))) (n_Port n).

(** [FullAddress]: the address and the name of the node. *)
Definition FullAddress (n : Node) : bytes * string := (Address n, n_Name n).

Record nodeState := MkNodeState {
  st_Node : Node;
  st_Incarnation : Z;
  st_StateChange : Z;
}.

Definition st_Name (s : nodeState) : string := n_Name (st_Node s).
Definition st_State (s : nodeState) : NodeStateType := n_State (st_Node s).

Definition DeadOrLeft (s : nodeState) : bool :=
  bool_decide (st_State s = StateDead) || bool_decide (st_State s = StateLeft).

(** The zero [time.Time], and [time.Since], which saturates. *)
Definition zeroTime : Z := -62135596800000000000.
Definition Since (now t : Z) : Z := Z.max MinInt64 (Z.min MaxInt64 (now - t)).

(** ** Lists of nodes *)

(** [l[i], l[j] = l[j], l[i]] *)
Definition swap {A} (i j : nat) (l : list A) : list A :=
  match l !! i, l !! j with
  | Some x, Some y => <[j := x]> (<[i := y]> l)
  | _, _ => l
  end.

Definition randomOffset {G} `{Rand G} (n : Z) (g : G) : Z * G :=
  if n <=? 0 then (0, g) else IntN n g.

(** [rand.Shuffle]: from the last index down to 1, swap with an index that is
    not larger. *)
Fixpoint shuffleLoop {A G} `{Rand G} (i : nat) (l : list A) (g : G) : list A * G :=
  match i with
  | O => (l, g)
  | S i' =>
      let '(j, g) := IntN (Z.of_nat (S i)) g in
      shuffleLoop i' (swap i (Z.to_nat j) l) g
  end.

Definition shuffleNodes {A G} `{Rand G} (nodes : list A) (g : G) : list A * G :=
  shuffleLoop (length nodes - 1) nodes g.

Section Lists.
Context {A : Type} (st : A -> nodeState).

(** Dead or left, for longer than nodes are still told about it. *)
Definition expired (now gossipToTheDeadTime : Z) (s : nodeState) : bool :=
  DeadOrLeft s && negb (Since now (st_StateChange s) <=? gossipToTheDeadTime).

(** The loop of [moveDeadNodes], with [i] before the loop's test. *)
Fixpoint moveDeadLoop (fuel : nat) (now gossipToTheDeadTime : Z) (nodes : list A) (i numDead : nat)
    : option (list A * nat) :=
  let n := length nodes in
  if negb (i <? n - numDead)%nat then Some (nodes, n - numDead)%nat
  else
    match fuel, nodes !! i with
    | S fuel, Some x =>
        if negb (DeadOrLeft (st x)) then
          moveDeadLoop fuel now gossipToTheDeadTime nodes (i + 1) numDead
        else if Since now (st_StateChange (st x)) <=? gossipToTheDeadTime then
          moveDeadLoop fuel now gossipToTheDeadTime nodes (i + 1) numDead
        else
          moveDeadLoop fuel now gossipToTheDeadTime (swap i (n - numDead - 1) nodes) i (numDead + 1)
    | _, _ => None
    end.

Definition moveDeadNodes (now gossipToTheDeadTime : Z) (nodes : list A) : option (list A * nat) :=
  moveDeadLoop (length nodes) now gossipToTheDeadTime nodes 0 0.

Definition excludes (exclude : option (nodeState -> bool)) (s : nodeState) : bool :=
  match exclude with
  | Some f => f s
  | None => false
  end.

(** The exhaustive search, over the shuffled copy. *)
Fixpoint takeLoop (k : Z) (exclude : option (nodeState -> bool)) (nodes : list A) (kNodes : list Node)
    : list Node :=
  match nodes with
  | [] => kNodes
  | x :: nodes =>
      if negb (len kNodes <? k) then kNodes
      else if excludes exclude (st x) then takeLoop k exclude nodes kNodes
      else takeLoop k exclude nodes (kNodes ++ [st_Node (st x)])
  end.

(** The search by random probes; [probes] is how many of the [3*n] are left.
    [None] is an index out of range. *)
Fixpoint probeLoop {G} `{Rand G} (probes : nat) (k : Z) (exclude : option (nodeState -> bool))
    (nodes : list A) (kNodes : list Node) (g : G) : option (list Node * G) :=
  match probes with
  | O => Some (kNodes, g)
  | S probes =>
      if negb (len kNodes <? k) then Some (kNodes, g)
      else
        let '(idx, g) := randomOffset (len nodes) g in
        x ← nodes !! Z.to_nat idx;
        if excludes exclude (st x) then probeLoop probes k exclude nodes kNodes g
        else if existsb (fun n => String.eqb (st_Name (st x)) (n_Name n)) kNodes then
          probeLoop probes k exclude nodes kNodes g
        else probeLoop probes k exclude nodes (kNodes ++ [st_Node (st x)]) g
  end.

(** [None] is the run-time error of a negative [k]. *)
Definition kRandomNodes {G} `{Rand G} (k : Z) (nodes : list A) (exclude : option (nodeState -> bool)) (g : G)
    : option (list Node * G) :=
  let n := len nodes in
  if k <? 0 then None
  else if n <? i64 (k * 3) then
    let '(nodes, g) := shuffleNodes nodes g in
    Some (takeLoop k exclude nodes [], g)
  else probeLoop (Z.to_nat (3 * n)) k exclude nodes [] g.
End Lists.

(** ** Protocol versions *)

Inductive protocolError :=
| MalformedVsn (name : string) (entries : Z)
| IncompatibleProtocol (name : string) (cur lo hi : Z)
| IncompatibleDelegate (name : string) (cur lo hi : Z).

(** The version range understood by everyone so far: [maxpmin], [minpmax],
    [maxdmin], [mindmax]. *)
Record vsnRange := Range { maxpmin : Z; minpmax : Z; maxdmin : Z; mindmax : Z }.

Definition narrow (r : vsnRange) (v : vsnArray) : vsnRange :=
  Range (Z.max (maxpmin r) (v_pmin v)) (Z.min (minpmax r) (v_pmax v))
        (Z.max (maxdmin r) (v_dmin v)) (Z.min (mindmax r) (v_dmax v)).

(** The first loop. *)
Fixpoint remoteRange (r : vsnRange) (remote : list PushNodeState) : result protocolError vsnRange :=
  match remote with
  | [] => Ok r
  | rn :: remote =>
      let '(vsn, ok) := parseVsn (PNS_Vsn rn) in
      if negb ok then Err (MalformedVsn (PNS_Name rn) (len (slice_bytes (PNS_Vsn rn))))
      else if negb (bool_decide (toNodeStateType (PNS_State rn) = Some StateAlive)) then remoteRange r remote
      else if len (slice_bytes (PNS_Vsn rn)) =? 0 then remoteRange r remote
      else remoteRange (narrow r vsn) remote
  end.

(** The second loop. *)
Fixpoint localRange (r : vsnRange) (nodes : list nodeState) : vsnRange :=
  match nodes with
  | [] => r
  | n :: nodes =>
      if negb (bool_decide (st_State n = StateAlive)) then localRange r nodes
      else localRange (narrow r (versions (st_Node n))) nodes
  end.

(** The two tests of the last two loops. *)
Definition speaks (r : vsnRange) (name : string) (pcur dcur : Z) : result protocolError unit :=
  if (pcur <? maxpmin r) || (pcur >? minpmax r) then
    Err (IncompatibleProtocol name pcur (maxpmin r) (minpmax r))
  else if (dcur <? maxdmin r) || (dcur >? mindmax r) then
    Err (IncompatibleDelegate name dcur (maxdmin r) (mindmax r))
  else Ok tt.

Fixpoint remoteSpeak (r : vsnRange) (remote : list PushNodeState) : result protocolError unit :=
  match remote with
  | [] => Ok tt
  | n :: remote =>
      if bool_decide (toNodeStateType (PNS_State n) = Some StateDead) ||
         bool_decide (toNodeStateType (PNS_State n) = Some StateLeft)
      then remoteSpeak r remote
      else
        let '(vsn, _) := parseVsn (PNS_Vsn n) in
        let! _ := speaks r (PNS_Name n) (v_pcur vsn) (v_dcur vsn) in
        remoteSpeak r remote
  end.

Fixpoint localSpeak (r : vsnRange) (nodes : list nodeState) : result protocolError unit :=
  match nodes with
  | [] => Ok tt
  | n :: nodes =>
      if DeadOrLeft n then localSpeak r nodes
      else
        let! _ := speaks r (st_Name n) (n_PCur (st_Node n)) (n_DCur (st_Node n)) in
        localSpeak r nodes
  end.

(** [verifyProtocol], with [m.nodes] as [nodes]. *)
Definition verifyProtocol (nodes : list nodeState) (remote : list PushNodeState) : result protocolError unit :=
  let! r := remoteRange (Range 0 MaxUint8 0 MaxUint8) remote in
  let r := localRange r nodes in
  let! _ := remoteSpeak r remote in
  localSpeak r nodes.

(** ** Specification *)

(** [p] speaks versions that [q] understands. *)
Definition understands (q p : vsnArray) : Prop :=
  v_pmin q <= v_pcur p <= v_pmax q /\ v_dmin q <= v_dcur p <= v_dmax q.

Definition vsnOf (rn : PushNodeState) : vsnArray := (parseVsn (PNS_Vsn rn)).1.

(** The version vectors that constrain the cluster: those of alive nodes,
    remote ones only if they sent a vector. *)
Definition constrains (nodes : list nodeState) (remote : list PushNodeState) (v : vsnArray) : Prop :=
  (exists n, n ∈ nodes /\ st_State n = StateAlive /\ v = versions (st_Node n)) \/
  (exists rn, rn ∈ remote /\ toNodeStateType (PNS_State rn) = Some StateAlive /\
     slice_bytes (PNS_Vsn rn) <> [] /\ v = vsnOf rn).

(** Those of the nodes that may still take part: all but dead and left. *)
Definition participates (nodes : list nodeState) (remote : list PushNodeState) (v : vsnArray) : Prop :=
  (exists n, n ∈ nodes /\ DeadOrLeft n = false /\ v = versions (st_Node n)) \/
  (exists rn, rn ∈ remote /\ toNodeStateType (PNS_State rn) <> Some StateDead /\
     toNodeStateType (PNS_State rn) <> Some StateLeft /\ v = vsnOf rn).

Definition inRange (r : vsnRange) (p : vsnArray) : Prop :=
  maxpmin r <= v_pcur p <= minpmax r /\ maxdmin r <= v_dcur p <= mindmax r.

(** ** Lemmas *)

Lemma Permutation_filter_bool {A} (f : A -> bool) l l' :
  l ≡ₚ l' -> List.filter f l ≡ₚ List.filter f l'.
Proof.
  induction 1 as [|x l l' _ IH|x y l|]; cbn; [done| | |by etrans].
  - destruct (f x); by rewrite ?IH.
  - destruct (f x), (f y); done || apply Permutation_swap.
Qed.

Lemma list_filter_none {A} (f : A -> bool) l :
  List.filter f l = [] <-> (forall x, x ∈ l -> f x = false).
Proof.
  induction l as [|x l IH]; cbn.
  - split; [|done]. intros _ x Hx. by apply not_elem_of_nil in Hx.
  - destruct (f x) eqn:E; split; intros H.
    + done.
    + rewrite (H x) in E by left. done.
    + intros y [->|Hy]%elem_of_cons; [done|]. by apply IH.
    + apply IH. intros y Hy. apply H. by right.
Qed.

Lemma swap_perm {A} i j (l : list A) : swap i j l ≡ₚ l.
Proof.
  unfold swap. destruct (l !! i) as [x|] eqn:Ei; [|done]. destruct (l !! j) as [y|] eqn:Ej; [|done].
  by apply Permutation_insert_swap.
Qed.

Lemma swap_lookup {A} i j k (l : list A) x y :
  l !! i = Some x -> l !! j = Some y ->
  swap i j l !! k = (if decide (k = j) then Some x else if decide (k = i) then Some y else l !! k).
Proof.
  intros Hi Hj. unfold swap. rewrite Hi, Hj.
  assert (i < length l)%nat by eauto using lookup_lt_Some.
  assert (j < length l)%nat by eauto using lookup_lt_Some.
  destruct (decide (k = j)) as [->|Hkj].
  - apply list_lookup_insert_eq. by rewrite length_insert.
  - rewrite list_lookup_insert_ne by done. destruct (decide (k = i)) as [->|Hki].
    + by apply list_lookup_insert_eq.
    + by rewrite list_lookup_insert_ne.
Qed.

Lemma shuffleLoop_perm {A G} `{Rand G} i (l : list A) (g : G) : (shuffleLoop i l g).1 ≡ₚ l.
Proof.
  revert l g. induction i as [|i IH]; intros l g; [done|]. cbn [shuffleLoop].
  destruct (IntN _ g) as [j g']. by rewrite IH, swap_perm.
Qed.

Lemma shuffleNodes_perm {A G} `{Rand G} (l : list A) (g : G) : (shuffleNodes l g).1 ≡ₚ l.
Proof. apply shuffleLoop_perm. Qed.

Section ListLemmas.
Context {A : Type} (st : A -> nodeState).

(** What [moveDeadNodes] does: a permutation with the expired nodes last. *)
Definition partitioned (old : A -> bool) (l l' : list A) (k : nat) : Prop :=
  l' ≡ₚ l /\ (k <= length l)%nat /\
  (forall j x, l' !! j = Some x -> old x = negb (j <? k)%nat).

Lemma moveDeadLoop_ok now t nodes i numDead fuel :
  let old x := expired now t (st x) in
  (numDead <= length nodes)%nat -> (length nodes - numDead - i <= fuel)%nat ->
  (i <= length nodes - numDead)%nat ->
  (forall j x, nodes !! j = Some x -> (j < i)%nat -> old x = false) ->
  (forall j x, nodes !! j = Some x -> (length nodes - numDead <= j)%nat -> old x = true) ->
  exists nodes' k, moveDeadLoop st fuel now t nodes i numDead = Some (nodes', k) /\
    partitioned old nodes nodes' k.
Proof.
  intros old. revert nodes i numDead.
  induction fuel as [|fuel IH]; intros nodes i numDead Hd Hf Hi Hlo Hhi; cbn [moveDeadLoop];
    destruct (Nat.ltb_spec i (length nodes - numDead)) as [Hlt|Hge]; cbn [negb]; try lia.
  1, 3: exists nodes, (length nodes - numDead)%nat; split; [done|]; split; [done|]; split; [lia|];
    intros j x Hj; destruct (Nat.ltb_spec j (length nodes - numDead)); [apply (Hlo j)|apply (Hhi j)]; done || lia.
  destruct (nodes !! i) as [x|] eqn:Ex; [|apply lookup_ge_None in Ex; lia].
  assert (Hnext : old x = false -> exists nodes' k,
     moveDeadLoop st fuel now t nodes (i + 1) numDead = Some (nodes', k) /\ partitioned old nodes nodes' k).
  { intros Hx. apply IH; try done; try lia. intros j y Hj Hji.
    destruct (decide (j = i)) as [->|]; [by simplify_eq|]. apply (Hlo j); [done|lia]. }
  unfold old, expired in Hnext. destruct (DeadOrLeft (st x)) eqn:Edead; cbn [negb andb] in *; [|by apply Hnext].
  destruct (Since now (st_StateChange (st x)) <=? t) eqn:Esince; [by apply Hnext|]. clear Hnext.
  destruct (lookup_lt_is_Some_2 nodes (length nodes - numDead - 1)) as [y Ey]; [lia|].
  assert (El : length (swap i (length nodes - numDead - 1) nodes) = length nodes)
    by (apply Permutation_length, swap_perm).
  destruct (IH (swap i (length nodes - numDead - 1) nodes) i (numDead + 1)%nat) as (nodes' & k & E & Hp & Hk & Ho);
    rewrite ?El; try lia.
  - intros j z Hj Hji. rewrite (swap_lookup _ _ _ _ _ _ Ex Ey) in Hj.
    rewrite !decide_False in Hj by lia. by apply (Hlo j).
  - intros j z Hj Hji. rewrite (swap_lookup _ _ _ _ _ _ Ex Ey) in Hj.
    destruct (decide (j = _)) as [->|]; [simplify_eq; unfold old, expired; by rewrite Edead, Esince|].
    rewrite decide_False in Hj by lia. apply (Hhi j); [done|lia].
  - exists nodes', k. split; [done|]. split; [by rewrite Hp, swap_perm|]. split; [lia|done].
Qed.

Lemma moveDeadNodes_ok now t nodes :
  exists nodes' k, moveDeadNodes st now t nodes = Some (nodes', k) /\
    partitioned (fun x => expired now t (st x)) nodes nodes' k.
Proof.
  apply moveDeadLoop_ok; try lia. intros j x Hj%lookup_lt_Some. lia.
Qed.

(** The kept part, up to order, is what has not expired. *)
Lemma partitioned_take old l l' k :
  partitioned old l l' k -> take k l' ≡ₚ List.filter (fun x => negb (old x)) l.
Proof.
  intros (Hp & Hk & Ho).
  assert (E : List.filter (fun x => negb (old x)) l' = take k l').
  { rewrite <- (take_drop k l') at 1. rewrite List.filter_app.
    rewrite (proj2 (list_filter_none _ (drop k l'))).
    - rewrite app_nil_r. apply List.forallb_filter_id, List.forallb_forall.
      intros x Hx%list_elem_of_In%list_elem_of_lookup. destruct Hx as [j Hj].
      apply lookup_take_Some in Hj as [Hj Hlt]. rewrite (Ho _ _ Hj). by rewrite (proj2 (Nat.ltb_lt _ _)).
    - intros x Hx. apply list_elem_of_lookup in Hx as [j Hj]. rewrite lookup_drop in Hj.
      rewrite (Ho _ _ Hj). by rewrite (proj2 (Nat.ltb_ge _ _)) by lia. }
  rewrite <- E. apply Permutation_filter_bool. done.
Qed.

(** Both searches only ever add the node of a state that is not excluded. *)
Definition chosen (exclude : option (nodeState -> bool)) (nodes : list A) (n : Node) : Prop :=
  exists x, x ∈ nodes /\ excludes exclude (st x) = false /\ n = st_Node (st x).

Lemma takeLoop_eq k exclude nodes kNodes :
  len kNodes <= k ->
  takeLoop st k exclude nodes kNodes =
    kNodes ++ take (Z.to_nat (k - len kNodes))
      (map (fun x => st_Node (st x)) (List.filter (fun x => negb (excludes exclude (st x))) nodes)).
Proof.
  revert kNodes. induction nodes as [|x nodes IH]; intros kNodes Hk; cbn [takeLoop List.filter map].
  - by rewrite take_nil, app_nil_r.
  - destruct (Z.ltb_spec (len kNodes) k) as [Hlt|Hge]; cbn [negb].
    + destruct (excludes exclude (st x)); cbn [negb]; [by apply IH|].
      rewrite IH by (rewrite len_app, len_cons, len_nil; lia).
      rewrite len_app, len_cons, len_nil. cbn [map].
      replace (Z.to_nat (k - len kNodes)) with (S (Z.to_nat (k - (len kNodes + (1 + 0))))) by lia.
      cbn [take]. by rewrite <- app_assoc.
    + replace (Z.to_nat (k - len kNodes)) with 0%nat by lia. cbn [take]. by rewrite app_nil_r.
Qed.

Lemma probeLoop_ok {G} `{RandLaws G} probes k exclude nodes kNodes (g : G) :
  nodes <> [] -> len kNodes <= k -> NoDup (map n_Name kNodes) -> Forall (chosen exclude nodes) kNodes ->
  exists l g', probeLoop st probes k exclude nodes kNodes g = Some (l, g') /\
    len l <= k /\ NoDup (map n_Name l) /\ Forall (chosen exclude nodes) l.
Proof.
  intros Hne. revert kNodes g. induction probes as [|probes IH]; intros kNodes g Hk Hnd Hch; cbn [probeLoop];
    [by exists kNodes, g|].
  destruct (Z.ltb_spec (len kNodes) k) as [Hlt|Hge]; cbn [negb]; [|by exists kNodes, g].
  unfold randomOffset. pose proof (len_nonneg nodes).
  destruct (Z.leb_spec (len nodes) 0) as [Hz|Hz]; [by destruct Hne; apply len_0_nil; lia|].
  pose proof (IntN_range (len nodes) g Hz) as Hr. destruct (IntN (len nodes) g) as [idx g']. cbn in Hr.
  destruct (lookup_lt_is_Some_2 nodes (Z.to_nat idx)) as [x Ex]; [unfold len in Hr; lia|].
  cbn beta iota. rewrite Ex. cbn [mbind option_bind].
  destruct (excludes exclude (st x)) eqn:Eex; [by apply IH|].
  destruct (existsb _ kNodes) eqn:Edup; [by apply IH|]. apply IH.
  - rewrite len_app, len_cons, len_nil. lia.
  - rewrite map_app. apply NoDup_app. split_and!; [done| |apply NoDup_singleton].
    cbn [map]. intros name Hname ->%list_elem_of_singleton.
    apply list_elem_of_fmap in Hname as (n & En & Hn).
    enough (true = false) by done. rewrite <- Edup. symmetry. apply existsb_exists. exists n.
    split; [by apply list_elem_of_In|]. by apply String.eqb_eq.
  - apply Forall_app. split; [done|]. apply Forall_singleton. exists x. split; [by eapply list_elem_of_lookup_2|done].
Qed.
End ListLemmas.

Lemma narrow_inRange r v p : inRange (narrow r v) p <-> inRange r p /\ understands v p.
Proof. unfold inRange, narrow, understands. cbn. lia. Qed.

Lemma localRange_spec nodes r p :
  inRange (localRange r nodes) p <->
  inRange r p /\ forall n, n ∈ nodes -> st_State n = StateAlive -> understands (versions (st_Node n)) p.
Proof.
  revert r. induction nodes as [|n nodes IH]; intros r; cbn [localRange].
  - split; [|tauto]. intros Hr. split; [done|]. intros n Hn. by apply not_elem_of_nil in Hn.
  - setoid_rewrite elem_of_cons. case_bool_decide as E; cbn [negb]; rewrite IH.
    + rewrite narrow_inRange. split; [intros [[? ?] ?]|intros [? Hn]; split; [split|]; eauto].
      split; [done|]. intros m [->|Hm]; eauto.
    + split; [intros [? Hn]|intros [? Hn]; split; eauto]. split; [done|]. intros m [->|Hm]; [done|eauto].
Qed.

Lemma remoteRange_spec remote r :
  match remoteRange r remote with
  | Err _ => exists rn, rn ∈ remote /\ (parseVsn (PNS_Vsn rn)).2 = false
  | Ok r' =>
      (forall rn, rn ∈ remote -> (parseVsn (PNS_Vsn rn)).2 = true) /\
      forall p, inRange r' p <->
        inRange r p /\ forall rn, rn ∈ remote -> toNodeStateType (PNS_State rn) = Some StateAlive ->
          slice_bytes (PNS_Vsn rn) <> [] -> understands (vsnOf rn) p
  end.
Proof.
  revert r. induction remote as [|rn remote IH]; intros r; cbn [remoteRange].
  - split; [intros rn Hrn; by apply not_elem_of_nil in Hrn|]. intros p. split; [|tauto].
    intros Hr. split; [done|]. intros rn Hrn. by apply not_elem_of_nil in Hrn.
  - destruct (parseVsn (PNS_Vsn rn)) as [vsn ok] eqn:Ev. destruct ok; cbn [negb].
    2: { exists rn. split; [left|by rewrite Ev]. }
    assert (Hv : vsnOf rn = vsn) by (unfold vsnOf; by rewrite Ev).
    assert (Hin : forall rn', rn' ∈ rn :: remote <-> rn' = rn \/ rn' ∈ remote) by (intros; apply elem_of_cons).
    assert (Hskip : (toNodeStateType (PNS_State rn) = Some StateAlive -> slice_bytes (PNS_Vsn rn) <> [] -> False) ->
      match remoteRange r remote with
      | Err _ => exists rn', rn' ∈ rn :: remote /\ (parseVsn (PNS_Vsn rn')).2 = false
      | Ok r' =>
          (forall rn', rn' ∈ rn :: remote -> (parseVsn (PNS_Vsn rn')).2 = true) /\
          forall p, inRange r' p <->
            inRange r p /\ forall rn', rn' ∈ rn :: remote -> toNodeStateType (PNS_State rn') = Some StateAlive ->
              slice_bytes (PNS_Vsn rn') <> [] -> understands (vsnOf rn') p
      end).
    { intros Hno. specialize (IH r). destruct (remoteRange r remote) as [r'|e].
      - destruct IH as [IH1 IH2]. split; [intros rn' [->|]%Hin; [by rewrite Ev|eauto]|]. intros p. rewrite IH2.
        split; intros [? Hn]; split; try done.
        + intros rn' [->|]%Hin; [|eauto]. intros. exfalso. eauto.
        + intros rn' Hrn'. apply Hn, Hin. by right.
      - destruct IH as (rn' & ? & ?). exists rn'. split; [|done]. apply Hin. by right. }
    case_bool_decide as Ea; cbn [negb]; [|apply Hskip; congruence].
    destruct (Z.eqb_spec (len (slice_bytes (PNS_Vsn rn))) 0) as [El|El].
    { apply Hskip. intros _ Hne. by apply Hne, len_0_nil. }
    specialize (IH (narrow r vsn)). destruct (remoteRange (narrow r vsn) remote) as [r'|e].
    + destruct IH as [IH1 IH2]. split; [intros rn' [->|]%Hin; [by rewrite Ev|eauto]|]. intros p.
      rewrite IH2, narrow_inRange. split.
      * intros [[? ?] Hn]. split; [done|]. intros rn' [->|]%Hin; [by rewrite Hv|eauto].
      * intros [? Hn]. split; [split; [done|]|].
        -- rewrite <- Hv. apply Hn; [apply Hin; by left|done|]. intros E. by rewrite E in El.
        -- intros rn' Hrn'. apply Hn, Hin. by right.
    + destruct IH as (rn' & ? & ?). exists rn'. split; [|done]. apply Hin. by right.
Qed.

Lemma speaks_spec r name v :
  speaks r name (v_pcur v) (v_dcur v) = Ok tt <-> inRange r v.
Proof.
  unfold speaks, inRange.
  destruct (Z.ltb_spec (v_pcur v) (maxpmin r)), (Z.gtb_spec (v_pcur v) (minpmax r)); cbn; try (split; [done|lia]).
  destruct (Z.ltb_spec (v_dcur v) (maxdmin r)), (Z.gtb_spec (v_dcur v) (mindmax r)); cbn; split; done || lia.
Qed.

Lemma remoteSpeak_spec r remote :
  remoteSpeak r remote = Ok tt <->
  forall rn, rn ∈ remote -> toNodeStateType (PNS_State rn) <> Some StateDead ->
    toNodeStateType (PNS_State rn) <> Some StateLeft -> inRange r (vsnOf rn).
Proof.
  induction remote as [|rn remote IH]; cbn [remoteSpeak].
  - split; [|done]. intros _ rn Hrn. by apply not_elem_of_nil in Hrn.
  - setoid_rewrite elem_of_cons. case_bool_decide as Ed; [|case_bool_decide as El]; cbn [orb].
    1, 2: rewrite IH; split; intros H rn'; [intros [->|]; [done|eauto]|eauto].
    destruct (parseVsn (PNS_Vsn rn)) as [vsn ok] eqn:Ev.
    assert (Hv : vsnOf rn = vsn) by (unfold vsnOf; by rewrite Ev).
    pose proof (speaks_spec r (PNS_Name rn) vsn) as Hs.
    destruct (speaks r (PNS_Name rn) (v_pcur vsn) (v_dcur vsn)) as [[]|e] eqn:Es; cbn [rbind].
    + rewrite IH. split; intros H rn'; [intros [->|]; [intros _ _; unfold vsnOf; rewrite Ev; by apply Hs|eauto]|eauto].
    + split; [done|]. intros H. enough (Err e = Ok tt) by done. apply Hs. rewrite <- Hv. apply H; [by left|done..].
Qed.

Lemma localSpeak_spec r nodes :
  localSpeak r nodes = Ok tt <->
  forall n, n ∈ nodes -> DeadOrLeft n = false -> inRange r (versions (st_Node n)).
Proof.
  induction nodes as [|n nodes IH]; cbn [localSpeak].
  - split; [|done]. intros _ n Hn. by apply not_elem_of_nil in Hn.
  - setoid_rewrite elem_of_cons. destruct (DeadOrLeft n) eqn:Ed.
    + rewrite IH. split; intros H m; [intros [->|]; [congruence|eauto]|eauto].
    + pose proof (speaks_spec r (st_Name n) (versions (st_Node n))) as Hs. cbn [v_pcur v_dcur versions] in Hs.
      destruct (speaks r (st_Name n) _ _) as [[]|e] eqn:Es; cbn [rbind].
      * rewrite IH. split; intros H m; [intros [->|]; [intros _; by apply Hs|eauto]|eauto].
      * split; [done|]. intros H. enough (Err e = Ok tt) by done. apply Hs. apply H; [by left|done..].
Qed.

Lemma parseVsn_range v p :
  (parseVsn v).1 = p -> 0 <= v_pcur p <= 255 /\ 0 <= v_dcur p <= 255.
Proof.
  intros <-. unfold parseVsn. destruct (slice_bytes v) as [|a [|b [|c [|d [|e [|f ?]]]]]]; cbn; try lia.
  pose proof (b2z_range c). pose proof (b2z_range f). lia.
Qed.

Lemma kRandomNodes_ok {A G} `{RandLaws G} (st : A -> nodeState) k nodes exclude (g : G) :
  0 <= k -> k * 3 <= MaxInt64 -> NoDup (map (fun x => st_Name (st x)) nodes) ->
  exists l g', kRandomNodes st k nodes exclude g = Some (l, g') /\
    len l <= k /\ NoDup (map n_Name l) /\ Forall (chosen st exclude nodes) l /\
    (len nodes < k * 3 -> len l = Z.min k (len (List.filter (fun x => negb (excludes exclude (st x))) nodes))).
Proof.
  intros Hk Hov Hnd. unfold kRandomNodes. rewrite (proj2 (Z.ltb_ge k 0)) by lia.
  rewrite i64_small by (unfold_ints; lia). destruct (Z.ltb_spec (len nodes) (k * 3)) as [Hlt|Hge].
  - pose proof (shuffleNodes_perm nodes g) as Hp. destruct (shuffleNodes nodes g) as [nodes' g'].
    cbn [fst] in Hp. eexists _, g'. split; [done|].
    rewrite takeLoop_eq by (rewrite len_nil; lia). rewrite len_nil, Z.sub_0_r. cbn [app].
    set (f := List.filter (fun x => negb (excludes exclude (st x))) nodes').
    assert (Hf : f `sublist_of` nodes').
    { unfold f. clear. induction nodes' as [|x l IH]; cbn; [done|].
      destruct (negb _); [by apply sublist_skip|by apply sublist_cons]. }
    split_and!.
    + unfold len. rewrite length_take. lia.
    + rewrite <- firstn_map. eapply sublist_NoDup; [|apply sublist_take].
      rewrite map_map. apply (sublist_NoDup _ (map (fun x => st_Name (st x)) nodes')).
      * by rewrite Hp.
      * by apply (fmap_sublist (fun x => st_Name (st x))).
    + apply Forall_take, Forall_forall. intros n Hn. apply list_elem_of_fmap in Hn as (x & -> & Hx).
      exists x. apply list_elem_of_In, filter_In in Hx as [Hx He]. split_and!; [|by apply negb_true_iff|done].
      rewrite <- Hp. by apply list_elem_of_In.
    + intros _. unfold len. rewrite length_take, length_map. unfold f.
      rewrite (Permutation_length (Permutation_filter_bool _ _ _ Hp)). lia.
  - destruct (decide (nodes = [])) as [->|Hne].
    { exists [], g. split_and!; [done|rewrite len_nil; lia|constructor|constructor|rewrite len_nil in *; lia]. }
    destruct (probeLoop_ok st (Z.to_nat (3 * len nodes)) k exclude nodes [] g) as (l & g' & E & H1 & H2 & H3);
      [done|by rewrite len_nil|constructor|constructor|].
    exists l, g'. split_and!; [done..|lia].
Qed.

(** ** Properties *)

(** A state exchange is accepted exactly when every version vector in it
    is well formed and every node of the joined cluster that may still take
    part (neither dead nor left) speaks protocol and delegate versions that
    every alive node understands. *)
Theorem verifyProtocol_correct nodes remote :
  Forall (fun n => 0 <= n_PCur (st_Node n) <= 255 /\ 0 <= n_DCur (st_Node n) <= 255) nodes ->
  verifyProtocol nodes remote = Ok tt <->
  (forall rn, rn ∈ remote -> (parseVsn (PNS_Vsn rn)).2 = true) /\
  (forall p q, participates nodes remote p -> constrains nodes remote q -> understands q p).
Proof.
  intros Hu8. unfold verifyProtocol. pose proof (remoteRange_spec remote (Range 0 MaxUint8 0 MaxUint8)) as Hr.
  destruct (remoteRange _ remote) as [r|e]; cbn [rbind].
  2: { destruct Hr as (rn & Hrn & Hbad). split; [done|]. intros [Hgood _]. by rewrite (Hgood _ Hrn) in Hbad. }
  destruct Hr as [Hwf Hr].
  assert (Hall : forall p, inRange (localRange r nodes) p <->
    inRange (Range 0 MaxUint8 0 MaxUint8) p /\ forall q, constrains nodes remote q -> understands q p).
  { intros p. rewrite localRange_spec, Hr. split.
    - intros [[H1 H2] H3]. split; [done|]. intros q [(n & ? & ? & ->)|(rn & ? & ? & ? & ->)]; eauto.
    - intros [H1 H2]. split; [split; [done|]|]; intros; apply H2; [right|left]; eauto 6. }
  assert (Hb : forall p, participates nodes remote p -> inRange (Range 0 MaxUint8 0 MaxUint8) p).
  { intros p [(n & Hn & _ & ->)|(rn & _ & _ & _ & ->)]; unfold inRange; cbn.
    - rewrite Forall_forall in Hu8. apply (Hu8 n Hn).
    - by eapply parseVsn_range. }
  assert (Hok : (let! _ := remoteSpeak (localRange r nodes) remote in localSpeak (localRange r nodes) nodes) = Ok tt <->
    forall p, participates nodes remote p -> inRange (localRange r nodes) p).
  { pose proof (remoteSpeak_spec (localRange r nodes) remote) as Hrs.
    destruct (remoteSpeak (localRange r nodes) remote) as [[]|e]; cbn [rbind].
    - rewrite localSpeak_spec. split.
      + intros Hl p [(n & ? & ? & ->)|(rn & ? & ? & ? & ->)]; [eauto|]. by apply Hrs.
      + intros Hp n ? ?. apply Hp. left. eauto.
    - split; [done|]. intros Hp. apply Hrs. intros rn ? ? ?. apply Hp. right. eauto 6. }
  rewrite Hok. setoid_rewrite Hall. split; [intros H; split; [done|]; intros; by apply H|].
  intros [_ H] p Hp. split; [by apply Hb|]. intros q Hq. by apply H.
Qed.

Lemma verifyProtocol_correct_witness :
  let n := MkNodeState (MkNode "a" None 0 None StateAlive 1 5 2 0 0 0) 1 0 in
  let r := MkPushNodeState "b" None 0 None 1 0 (Some (map z2b [1; 5; 2; 0; 0; 0])) in
  verifyProtocol [n] [r] = Ok tt /\
  forall p q, participates [n] [r] p -> constrains [n] [r] q -> understands q p.
Proof.
  intros n r. split; [reflexivity|]. apply (verifyProtocol_correct [n] [r]); [|reflexivity].
  repeat constructor; easy.
Defined.

(** [kRandomNodes] never fails for a non-negative [k]; it returns at most
    [k] nodes, no two of the same name, each of the list and none excluded,
    and in a list of fewer than [3k] nodes it finds as many as there are. *)
Theorem kRandomNodes_correct {A G} `{RandLaws G} (st : A -> nodeState) k nodes exclude (g : G) :
  0 <= k -> k * 3 <= MaxInt64 -> NoDup (map (fun x => st_Name (st x)) nodes) ->
  exists l g', kRandomNodes st k nodes exclude g = Some (l, g') /\
    len l <= k /\ NoDup (map n_Name l) /\ Forall (chosen st exclude nodes) l /\
    (len nodes < k * 3 -> len l = Z.min k (len (List.filter (fun x => negb (excludes exclude (st x))) nodes))).
Proof. apply kRandomNodes_ok. Qed.

Lemma kRandomNodes_correct_witness :
  let st x := MkNodeState (newNode x None 0 None StateAlive) 1 0 in
  let exclude := Some (fun s => String.eqb (st_Name s) "a") in
  exists l g', kRandomNodes st 2 ["a"; "b"; "c"]%string exclude 5 = Some (l, g') /\
    len l <= 2 /\ NoDup (map n_Name l) /\ Forall (chosen st exclude ["a"; "b"; "c"]%string) l /\
    (len ["a"; "b"; "c"]%string < 2 * 3 ->
     len l = Z.min 2 (len (List.filter (fun x => negb (excludes exclude (st x))) ["a"; "b"; "c"]%string))).
Proof.
  intros st exclude. apply (kRandomNodes_correct st 2 ["a"; "b"; "c"]%string exclude 5); [lia|easy|].
  apply (bool_decide_unpack _). reflexivity.
Defined.
