(* ===== verification/Events.v ===== *)
(** Event delivery, [src/events.go]: membership changes commit events to a
    queue and one dispatcher goroutine delivers them.

    The queue's fields are those of [Memberlist] guarded by [eventMu], with
    the one-slot channel [eventWake] as a flag. The dispatcher is a state
    machine with one step per critical section or blocking point of
    [eventDispatch], so that producers and the dispatcher interleave as
    goroutines do. A receipt is named by a number; [close] of its channel
    records the number. *)

From S2P Require Import Prelude Wire NetAddr Nodes.

(** ** Data *)

Inductive eventKind := eventJoin | eventUpdate | eventLeave | eventConflict.

#[global] Instance eventKind_eq_dec : EqDecision eventKind.
Proof. solve_decision. Defined.

Record queuedEvent := MkEvent {
  ev_kind : eventKind;
  ev_node : Node;
  ev_other : option Node;
  ev_seq : Z;
  ev_receipt : option Z;
}.

Record eventQueue := EventQueue {
  e_events : list queuedEvent;
  e_pending : Z;
  e_sealed : bool;
  e_seq : Z;
  e_wake : bool;             (* a token in [eventWake] *)
  e_attached : gset Z;       (* receipts with [attached] set *)
  e_closed : list Z;         (* receipts whose [done] was closed, in order *)
  e_delivered : list queuedEvent;  (* callbacks made, in order *)
}.

Definition newEventQueue : eventQueue := EventQueue [] 0 false 0 false ∅ [] [].

(** ** Producers *)

(** The part of [enqueueEventLocked] up to the release of [eventMu]. *)
Definition commitEvent (q : eventQueue) (kind : eventKind) (node : Node) (other : option Node) (r : option Z)
    : eventQueue :=
  let seq := u64 (e_seq q + 1) in
  let ev := MkEvent kind node other seq r in
  EventQueue (e_events q ++ [ev]) (e_pending q + 1) (e_sealed q) seq (e_wake q)
    (match r with Some r => {[ r ]} ∪ e_attached q | None => e_attached q end)
    (e_closed q) (e_delivered q).

(** The non-blocking send on [eventWake]: a token that is there already is
    enough. *)
Definition wake (q : eventQueue) : eventQueue :=
  EventQueue (e_events q) (e_pending q) (e_sealed q) (e_seq q) true
    (e_attached q) (e_closed q) (e_delivered q).

Definition enqueueEventLocked (q : eventQueue) (kind : eventKind) (node : Node) (other : option Node)
    (r : option Z) : eventQueue :=
  wake (commitEvent q kind node other r).

(** The seal of [finishShutdown]. *)
Definition seal (q : eventQueue) : eventQueue :=
  EventQueue (e_events q) (e_pending q) true (e_seq q) (e_wake q)
    (e_attached q) (e_closed q) (e_delivered q).

(** ** The dispatcher *)

(** Where the dispatcher is: at the top of its loop, blocked on [eventWake],
    about to call the consumer, about to lower [eventPending], returned. *)
Inductive dispatcher :=
| DTop
| DWaiting
| DDelivering (ev : queuedEvent)
| DDelivered
| DReturned.

(** The first critical section: pop, wait or return. *)
Definition popEvent (q : eventQueue) : dispatcher * eventQueue :=
  match e_events q with
  | [] => if e_sealed q then (DReturned, q) else (DWaiting, q)
  | ev :: events =>
      (DDelivering ev,
       EventQueue events (e_pending q) (e_sealed q) (e_seq q) (e_wake q)
         (e_attached q) (e_closed q) (e_delivered q))
  end.

(** The callback, and then the receipt. *)
Definition deliverEvent (ev : queuedEvent) (q : eventQueue) : eventQueue :=
  EventQueue (e_events q) (e_pending q) (e_sealed q) (e_seq q) (e_wake q) (e_attached q)
    (match ev_receipt ev with Some r => e_closed q ++ [r] | None => e_closed q end)
    (e_delivered q ++ [ev]).

Definition eventDispatch (d : dispatcher) (q : eventQueue) : option (dispatcher * eventQueue) :=
  match d with
  | DTop => Some (popEvent q)
  | DWaiting =>
      if e_wake q then
        Some (DTop, EventQueue (e_events q) (e_pending q) (e_sealed q) (e_seq q) false
                      (e_attached q) (e_closed q) (e_delivered q))
      else None
  | DDelivering ev => Some (DDelivered, deliverEvent ev q)
  | DDelivered =>
      Some (DTop, EventQueue (e_events q) (e_pending q - 1) (e_sealed q) (e_seq q) (e_wake q)
                    (e_attached q) (e_closed q) (e_delivered q))
  | DReturned => None
  end.

(** What [waitEventReceipt] answers for the receipt [r], given whether the
    caller is inside a callback and what woke the select up first. *)
Inductive wakeup := WokenByDelivery | WokenByContext | WokenByShutdown.
Inductive waitResult := Delivered | ContextError | ShutdownError.

Definition waitEventReceipt (q : eventQueue) (r : option Z) (inCallback : bool) (w : wakeup) : waitResult :=
  match r with
  | None => Delivered
  | Some r =>
      if negb (bool_decide (r ∈ e_attached q)) then Delivered
      else if inCallback then Delivered
      else
        match w with
        | WokenByDelivery => Delivered
        | WokenByContext => if bool_decide (r ∈ e_closed q) then Delivered else ContextError
        | WokenByShutdown => if bool_decide (r ∈ e_closed q) then Delivered else ShutdownError
        end
  end.

(** ** Specification

    The system of producers and dispatcher. [ds_signals] counts the producers
    (and the sealer) that have released [eventMu] and not yet sent on
    [eventWake]; [ds_committed] is the history of commits. No event is
    committed after the seal: mutations check [hasShutdown] under [nodeLock],
    and the seal is set under it after the flag. *)

Record eventSystem := System {
  ds_q : eventQueue;
  ds_d : dispatcher;
  ds_signals : nat;
  ds_committed : list queuedEvent;
}.

Inductive event_step : eventSystem -> eventSystem -> Prop :=
| step_commit q d n l kind node other r :
    e_sealed q = false ->
    event_step (System q d n l)
      (System (commitEvent q kind node other r) d (S n) (l ++ [MkEvent kind node other (u64 (e_seq q + 1)) r]))
| step_signal q d n l :
    event_step (System q d (S n) l) (System (wake q) d n l)
| step_seal q d n l :
    event_step (System q d n l) (System (seal q) d (S n) l)
| step_dispatch q d n l d' q' :
    eventDispatch d q = Some (d', q') ->
    event_step (System q d n l) (System q' d' n l).

Definition initialSystem : eventSystem := System newEventQueue DTop 0 [].

Definition inflight (d : dispatcher) : list queuedEvent :=
  match d with DDelivering ev => [ev] | _ => [] end.

Record events_ok (s : eventSystem) : Prop := {
  ok_history : ds_committed s = e_delivered (ds_q s) ++ inflight (ds_d s) ++ e_events (ds_q s);
  ok_seq : e_seq (ds_q s) = u64 (len (ds_committed s));
  ok_seqs : forall i ev, ds_committed s !! i = Some ev -> ev_seq ev = u64 (Z.of_nat i + 1);
  ok_pending : e_pending (ds_q s) =
    len (e_events (ds_q s)) + match ds_d s with DDelivering _ | DDelivered => 1 | _ => 0 end;
  ok_closed : e_closed (ds_q s) = omap ev_receipt (e_delivered (ds_q s));
  ok_attached : forall r, r ∈ e_attached (ds_q s) <-> r ∈ omap ev_receipt (ds_committed s);
  ok_waiting : ds_d s = DWaiting -> e_events (ds_q s) <> [] \/ e_sealed (ds_q s) = true ->
    e_wake (ds_q s) = true \/ ds_signals s <> 0%nat;
  ok_returned : ds_d s = DReturned -> e_sealed (ds_q s) = true /\ e_events (ds_q s) = [];
}.

(** The dispatcher left alone for [fuel] steps. *)
Fixpoint drain (fuel : nat) (d : dispatcher) (q : eventQueue) : dispatcher * eventQueue :=
  match fuel with
  | O => (d, q)
  | S fuel =>
      match eventDispatch d q with
      | Some (d, q) => drain fuel d q
      | None => (d, q)
      end
  end.

Definition dispatchMeasure (d : dispatcher) (q : eventQueue) : nat :=
  3 * length (e_events q) +
  match d with DTop => 1 | DWaiting => 2 | DDelivering _ => 3 | DDelivered => 2 | DReturned => 0 end.

(** ** Lemmas *)

Lemma initialSystem_ok : events_ok initialSystem.
Proof. constructor; cbn; try done; try set_solver. Qed.

Lemma commit_ok q d n l kind node other r :
  e_sealed q = false -> events_ok (System q d n l) ->
  events_ok (System (commitEvent q kind node other r) d (S n)
    (l ++ [MkEvent kind node other (u64 (e_seq q + 1)) r])).
Proof.
  intros Hs [H1 H2 H3 H4 H5 H6 H7 H8]. cbn in *. constructor; cbn; try done.
  - by rewrite H1, <- !app_assoc.
  - rewrite H2, len_app, len_cons, len_nil. unfold u64. rewrite Zplus_mod_idemp_l. done.
  - intros i ev Hi. apply lookup_app_Some in Hi as [Hi|[Hge Hi]]; [by apply H3|].
    apply list_lookup_singleton_Some in Hi as [Hz <-]. cbn. rewrite H2.
    unfold u64. rewrite Zplus_mod_idemp_l. f_equal. unfold len. lia.
  - rewrite H4, len_app, len_cons. change (len []) with 0. lia.
  - intros x. rewrite omap_app, elem_of_app, <- H6. cbn. destruct r as [r|]; [set_solver|].
    split; [by left|]. intros [?|Hx]; [done|]. by apply not_elem_of_nil in Hx.
  - intros. by right.
  - intros Hd. destruct (H8 Hd). congruence.
Qed.

Lemma dispatch_ok q d n l d' q' :
  eventDispatch d q = Some (d', q') -> events_ok (System q d n l) -> events_ok (System q' d' n l).
Proof.
  intros E [H1 H2 H3 H4 H5 H6 H7 H8]. cbn in *.
  destruct d as [| |ev| |]; cbn in E, H1.
  - unfold popEvent in E. destruct (e_events q) as [|ev events] eqn:Ee.
    + destruct (e_sealed q) eqn:Es; injection E as <- <-; constructor; cbn; rewrite ?Ee; try done.
      intros _ [?|?]; congruence.
    + injection E as <- <-. constructor; cbn; try done. rewrite H4, len_cons. lia.
  - destruct (e_wake q); [|done]. injection E as <- <-. constructor; cbn; done.
  - injection E as <- <-. constructor; cbn; try done.
    + by rewrite H1, <- app_assoc.
    + rewrite omap_app, <- H5. cbn. by destruct (ev_receipt ev); rewrite ?app_nil_r.
  - injection E as <- <-. constructor; cbn; try done. lia.
  - done.
Qed.

Lemma event_step_ok s s' : event_step s s' -> events_ok s -> events_ok s'.
Proof.
  intros [q d n l kind node other r Hs|q d n l|q d n l|q d n l d' q' E].
  - by apply commit_ok.
  - intros [H1 H2 H3 H4 H5 H6 H7 H8]. constructor; cbn in *; try done. intros. by left.
  - intros [H1 H2 H3 H4 H5 H6 H7 H8]. constructor; cbn in *; try done; [intros; by right|].
    intros Hd. by destruct (H8 Hd).
  - by apply dispatch_ok.
Qed.

Lemma event_reachable_ok s : rtc event_step initialSystem s -> events_ok s.
Proof.
  intros H. pose proof initialSystem_ok as Hi. induction H as [|s s' s'' Hst _ IH]; [done|].
  apply IH. by eapply event_step_ok.
Qed.

(** A step without producers lowers the measure, and keeps the seal. *)
Lemma dispatch_progress q d d' q' :
  eventDispatch d q = Some (d', q') -> e_sealed q = true ->
  (dispatchMeasure d' q' < dispatchMeasure d q)%nat /\ e_sealed q' = true.
Proof.
  unfold dispatchMeasure. destruct d as [| |ev| |]; cbn; intros E Hs; simplify_eq; cbn; try (split; [lia|done]).
  - unfold popEvent in E. destruct (e_events q) eqn:Ee; rewrite ?Hs in E; simplify_eq; cbn; rewrite ?Ee; cbn;
      split; done || lia.
  - destruct (e_wake q); simplify_eq; cbn. split; [lia|done].
Qed.

Lemma drain_ok fuel d q l :
  events_ok (System q d 0 l) -> e_sealed q = true -> (dispatchMeasure d q <= fuel)%nat ->
  exists q', drain fuel d q = (DReturned, q') /\ events_ok (System q' DReturned 0 l).
Proof.
  revert d q. induction fuel as [|fuel IH]; intros d q Hok Hs Hf.
  - exists q. unfold dispatchMeasure in Hf. destruct d; try lia. done.
  - cbn [drain]. destruct (eventDispatch d q) as [[d' q']|] eqn:E.
    + destruct (dispatch_progress q d d' q' E Hs). apply IH; [by eapply dispatch_ok|done|lia].
    + destruct d; cbn in E; try done; [|by exists q].
      destruct Hok as [_ _ _ _ _ _ H7 _]. cbn in H7. destruct H7 as [Hw|]; [done|by right| |done].
      by rewrite Hw in E.
Qed.

(** ** Properties *)

(** C28: Whatever the interleaving of producers and the dispatcher, consumers
    see the committed events in commit order, each once and none skipped;
    receipts are completed exactly for the delivered events, the pending count
    is exact, and the dispatcher never sleeps over work or a seal that nobody
    is about to signal. *)
Theorem events_delivered_in_order s :
  rtc event_step initialSystem s ->
  e_delivered (ds_q s) `prefix_of` ds_committed s /\
  (forall i ev, ds_committed s !! i = Some ev -> ev_seq ev = u64 (Z.of_nat i + 1)) /\
  e_closed (ds_q s) = omap ev_receipt (e_delivered (ds_q s)) /\
  (ds_d s = DWaiting -> e_events (ds_q s) <> [] \/ e_sealed (ds_q s) = true ->
   e_wake (ds_q s) = true \/ ds_signals s <> 0%nat) /\
  (ds_d s = DReturned -> e_delivered (ds_q s) = ds_committed s /\ e_pending (ds_q s) = 0).
Proof.
  intros [H1 H2 H3 H4 H5 H6 H7 H8]%event_reachable_ok. split_and!; try done.
  - rewrite H1. by apply prefix_app_r.
  - intros Hd. destruct (H8 Hd) as [_ He]. rewrite Hd, He in *. cbn in *. by rewrite H1, app_nil_r.
Qed.

Lemma events_delivered_in_order_witness :
  let n := newNode "a" None 0 None StateAlive in
  let ev := MkEvent eventJoin n None 1 (Some 7) in
  e_delivered (deliverEvent ev newEventQueue) `prefix_of` [ev].
Proof.
  intros n ev.
  apply (events_delivered_in_order
    (System (deliverEvent ev (popEvent (wake (commitEvent newEventQueue eventJoin n None (Some 7)))).2)
       DDelivered 0 [ev])).
  eapply rtc_l; [by apply (step_commit _ _ _ _ eventJoin n None (Some 7))|].
  eapply rtc_l; [apply step_signal|].
  eapply rtc_l; [apply step_dispatch; reflexivity|].
  eapply rtc_l; [apply step_dispatch; reflexivity|]. apply rtc_refl.
Defined.

(** Once the queue is sealed and every producer has signalled, the
    dispatcher alone returns after a bounded number of steps, with every
    committed event delivered and every attached receipt completed: the join
    of [finishShutdown] terminates. *)
Theorem dispatcher_drains s :
  rtc event_step initialSystem s -> e_sealed (ds_q s) = true -> ds_signals s = 0%nat ->
  exists q, drain (dispatchMeasure (ds_d s) (ds_q s)) (ds_d s) (ds_q s) = (DReturned, q) /\
    e_delivered q = ds_committed s /\ e_pending q = 0 /\
    (forall r, r ∈ e_attached q -> waitEventReceipt q (Some r) false WokenByShutdown = Delivered).
Proof.
  intros Hs%event_reachable_ok Hseal Hn. destruct s as [q d n l]. cbn in *. subst n.
  destruct (drain_ok (dispatchMeasure d q) d q l Hs Hseal) as (q' & E & [H1 H2 H3 H4 H5 H6 H7 H8]); [done|].
  cbn in *. destruct (H8 eq_refl) as [Hs' He]. rewrite He in *. cbn in *. rewrite app_nil_r in H1.
  exists q'. split_and!; [done..|]. intros r Hr. rewrite !bool_decide_true; [done| |done].
  by rewrite H5, <- H1, <- H6.
Qed.

Lemma dispatcher_drains_witness :
  let n := newNode "a" None 0 None StateAlive in
  let q := seal (wake (commitEvent newEventQueue eventJoin n None (Some 7))) in
  exists q', drain (dispatchMeasure DTop (wake q)) DTop (wake q) = (DReturned, q') /\
    e_delivered q' = [MkEvent eventJoin n None 1 (Some 7)] /\ e_pending q' = 0 /\
    (forall r, r ∈ e_attached q' -> waitEventReceipt q' (Some r) false WokenByShutdown = Delivered).
Proof.
  intros n q. apply (dispatcher_drains (System (wake q) DTop 0 [MkEvent eventJoin n None 1 (Some 7)]));
    [|reflexivity|reflexivity].
  eapply rtc_l; [by apply (step_commit _ _ _ _ eventJoin n None (Some 7))|].
  eapply rtc_l; [apply step_signal|].
  eapply rtc_l; [apply step_seal|].
  eapply rtc_l; [apply step_signal|]. apply rtc_refl.
Defined.
