(* ===== verification/Packet.v ===== *)
(** Packet and stream framing: message types ([src/net.go]), [encode] and
    compound messages ([src/util.go]), labels ([src/label.go]), connections
    with peeked bytes ([src/peeked_conn.go]) and bounded decompression
    ([src/util.go]).

    A connection is the list of what its successive reads deliver and the
    error it then reports; the buffered reader of the standard library that
    looks for a label is modelled over it. The LZW coder of the standard
    library is the parameter [LZW]. *)

From S2P Require Import Prelude Msgpack Wire.

(** ** Message types *)

Definition pingMsg : Z := 0.
Definition indirectPingMsg : Z := 1.
Definition ackRespMsg : Z := 2.
Definition suspectMsg : Z := 3.
Definition aliveMsg : Z := 4.
Definition deadMsg : Z := 5.
Definition pushPullMsg : Z := 6.
Definition compoundMsg : Z := 7.
Definition userMsg : Z := 8.
Definition compressMsg : Z := 9.
Definition encryptMsg : Z := 10.
Definition nackRespMsg : Z := 11.
Definition hasCrcMsg : Z := 12.
Definition errMsg : Z := 13.
Definition hasLabelMsg : Z := 244.

Definition lzwAlgo : Z := 0.

Definition maxPushStateBytes : Z := 20 * 1024 * 1024.
Definition maxDecompressedBytes : Z := 2 * maxPushStateBytes.
Definition maxPacketDecompressedBytes : Z := Z.shiftl 1 20.

(** ** [encode] and [decode] *)

Definition encode (msgType : Z) (msg : message) : bytes := AppendMsgpack msg [z2b msgType].

Definition decode (k : kind) (buf : bytes) : result error message :=
  let! (m, _) := DecodeMsgpack k (NewDecoder buf) in Ok m.

(** ** Compound messages *)

Definition maxMsgs : nat := 255.

Definition makeCompoundMessage (msgs : list bytes) : bytes :=
  [z2b compoundMsg; z2b (len msgs)]
  ++ concat (map (fun m => be 2 (u16 (len m))) msgs)
  ++ concat msgs.

(** The loop of [makeCompoundMessages]; each round takes 255 messages off. *)
Fixpoint makeCompoundLoop (fuel : nat) (msgs : list bytes) (out : list bytes) : list bytes :=
  match fuel with
  | O => out
  | S fuel =>
      if (maxMsgs <? length msgs)%nat then
        makeCompoundLoop fuel (drop maxMsgs msgs) (out ++ [makeCompoundMessage (take maxMsgs msgs)])
      else if (0 <? length msgs)%nat then out ++ [makeCompoundMessage msgs]
      else out
  end.

Definition makeCompoundMessages (msgs : list bytes) : list bytes :=
  makeCompoundLoop (S (length msgs)) msgs [].

Inductive compoundError := MissingLength | TruncatedLengths.

(** The lengths of [n] parts, from the front of [buf]. *)
Fixpoint compoundLengths (n : nat) (buf : bytes) : list Z :=
  match n with
  | O => []
  | S n => be_value (take 2 buf) :: compoundLengths n (drop 2 buf)
  end.

(** The last loop: [(trunc, parts)]. *)
Fixpoint splitParts (lengths : list Z) (buf : bytes) (parts : list bytes) : Z * list bytes :=
  match lengths with
  | [] => (0, parts)
  | msgLen :: rest =>
      if len buf <? msgLen then (len lengths, parts)
      else splitParts rest (drop (Z.to_nat msgLen) buf) (parts ++ [take (Z.to_nat msgLen) buf])
  end.

Definition decodeCompoundMessage (buf : bytes) : result compoundError (Z * list bytes) :=
  match buf with
  | [] => Err MissingLength
  | c :: buf =>
      let numParts := b2z c in
      if len buf <? numParts * 2 then Err TruncatedLengths
      else
        let lengths := compoundLengths (Z.to_nat numParts) buf in
        Ok (splitParts lengths (drop (Z.to_nat (numParts * 2)) buf) [])
  end.

(** ** Labels *)

Definition LabelMaxSize : Z := 255.

Inductive labelError :=
| LabelTooLong
| LabelTruncated
| LabelEmpty
| LabelIO (e : io_error).

Definition makeLabelHeader (label : string) (rest : bytes) : bytes :=
  [z2b hasLabelMsg; z2b (len (str2b label))] ++ str2b label ++ rest.

Definition labelOverhead (label : string) : Z :=
  if String.eqb label "" then 0 else 2 + len (str2b label).

Definition AddLabelHeaderToPacket (buf : bytes) (label : string) : result labelError bytes :=
  if String.eqb label "" then Ok buf
  else if len (str2b label) >? LabelMaxSize then Err LabelTooLong
  else Ok (makeLabelHeader label buf).

Definition RemoveLabelHeaderFromPacket (buf : bytes) : result labelError (bytes * string) :=
  match buf with
  | [] => Ok (buf, ""%string)
  | t :: _ =>
      if negb (b2z t =? hasLabelMsg) then Ok (buf, ""%string)
      else
        match buf !! 1%nat with
        | None => Err LabelTruncated
        | Some c =>
            let size := b2z c in
            if size <? 1 then Err LabelEmpty
            else if len buf <? 2 + size then Err LabelTruncated
            else Ok (drop (Z.to_nat (2 + size)) buf, b2str (subslice buf 2 (2 + size)))
        end
  end.

(** ** Connections *)

Record conn := Conn { c_chunks : list bytes; c_err : io_error }.

(** [Read] into a buffer of [n] bytes. *)
Definition connRead (n : nat) (c : conn) : result io_error bytes * conn :=
  match c_chunks c with
  | [] => (Err (c_err c), c)
  | chunk :: rest =>
      (Ok (take n chunk),
       Conn (if (n <? length chunk)%nat then drop n chunk :: rest else rest) (c_err c))
  end.

Record peekedConn := PeekedConn { pc_Peeked : bytes; pc_Conn : conn }.

Definition peekedRead (n : nat) (c : peekedConn) : result io_error bytes * peekedConn :=
  match pc_Peeked c with
  | [] => let '(r, conn) := connRead n (pc_Conn c) in (r, PeekedConn [] conn)
  | _ :: _ => (Ok (take n (pc_Peeked c)), PeekedConn (drop n (pc_Peeked c)) (pc_Conn c))
  end.

(** [bufio.Reader]: what is buffered, and a read error not yet returned. *)
Definition bufSize : nat := 4096.
Record bufioReader := BufioReader { br_buf : bytes; br_err : option io_error; br_conn : conn }.

Definition ErrNoProgress : io_error := IOError "multiple Read calls return no data or error".

(** [fill], which gives up after a hundred empty reads. *)
Fixpoint fillLoop (tries : nat) (b : bufioReader) : bufioReader :=
  match tries with
  | O => BufioReader (br_buf b) (Some ErrNoProgress) (br_conn b)
  | S tries =>
      match connRead (bufSize - length (br_buf b)) (br_conn b) with
      | (Err e, c) => BufioReader (br_buf b) (Some e) c
      | (Ok [], c) => fillLoop tries (BufioReader (br_buf b) (br_err b) c)
      | (Ok p, c) => BufioReader (br_buf b ++ p) (br_err b) c
      end
  end.
Definition fill (b : bufioReader) : bufioReader := fillLoop 100 b.

(** The loop of [Peek]; a round buffers a byte or sets the error. *)
Fixpoint peekLoop (fuel n : nat) (b : bufioReader) : bufioReader :=
  match fuel with
  | O => b
  | S fuel =>
      if (length (br_buf b) <? n)%nat && (length (br_buf b) <? bufSize)%nat &&
         (match br_err b with None => true | _ => false end)
      then peekLoop fuel n (fill b)
      else b
  end.

(** [Peek(n)] for [n] within the buffer; the error it returns is cleared. *)
Definition Peek (n : nat) (b : bufioReader) : result io_error bytes * bufioReader :=
  let b := peekLoop (S n) n b in
  if (length (br_buf b) <? n)%nat then
    match br_err b with
    | Some e => (Err e, BufioReader (br_buf b) None (br_conn b))
    | None => (Err (IOError "bufio: buffer full"), b)
    end
  else (Ok (take n (br_buf b)), b).

Definition newPeekedConnFromBufferedReader (b : bufioReader) (offset : nat) : peekedConn :=
  PeekedConn (drop offset (br_buf b)) (br_conn b).

(** The connection as the caller gets it: the original or a peeked one. *)
Definition RemoveLabelHeaderFromStream (c : conn) : result labelError (peekedConn * string) :=
  match Peek 1 (BufioReader [] None c) with
  | (Err EOF, br) => Ok (PeekedConn [] (br_conn br), ""%string)
  | (Err e, _) => Err (LabelIO e)
  | (Ok peeked, br) =>
      if negb (b2z (List.hd (z2b 0) peeked) =? hasLabelMsg) then
        Ok (newPeekedConnFromBufferedReader br 0, ""%string)
      else
        match Peek 2 br with
        | (Err EOF, _) => Err LabelTruncated
        | (Err e, _) => Err (LabelIO e)
        | (Ok peeked, br) =>
            let size := b2z (List.nth 1 peeked (z2b 0)) in
            if size <? 1 then Err LabelEmpty
            else
              match Peek (Z.to_nat (2 + size)) br with
              | (Err EOF, _) => Err LabelTruncated
              | (Err e, _) => Err (LabelIO e)
              | (Ok peeked, br) =>
                  Ok (newPeekedConnFromBufferedReader br (Z.to_nat (2 + size)),
                      b2str (subslice peeked 2 (2 + size)))
              end
        end
  end.

(** ** Compression *)

(** [compress/lzw]: what compressing gives, all that reading compressed bytes
    delivers with the error after it, and how much of the [pending] output a
    read into [n] bytes delivers. [growCap] is the capacity the run-time
    system rounds a requested one up to. *)
Class LZW := {
  lzwCompress : bytes -> bytes;
  lzwExpand : bytes -> bytes * io_error;
  lzwReadSize : Z -> Z -> Z;
  growCap : Z -> Z;
}.

Class LZWLaws `{LZW} : Prop := {
  lzwExpand_Compress b : lzwExpand (lzwCompress b) = (b, EOF);
  lzwReadSize_range pending n :
    0 < pending -> 0 < n -> 1 <= lzwReadSize pending n <= Z.min pending n;
  growCap_ge n : n <= growCap n;
}.

Inductive decompressError :=
| DecodeFailed (e : error)
| UnknownAlgorithm (algo : Z)
| TooLarge (limit : Z)
| LZWError (e : io_error)
| DecompressFuel.  (* of the model only; the theorems rule it out *)

Section Compression.
Context `{LZW}.

Definition compressPayload (inp : bytes) : bytes :=
  encode compressMsg (MCompress (MkCompress lzwAlgo (Some (lzwCompress inp)))).

(** The loop of [decompressBuffer]: [out] read so far, in a buffer of
    capacity [cap]; [pending] still to come, then [err]. *)
Fixpoint decompressLoop (fuel : nat) (limit : Z) (out : bytes) (cap : Z) (pending : bytes) (err : io_error)
    : result decompressError bytes :=
  match fuel with
  | O => Err DecompressFuel
  | S fuel =>
      let! cap :=
        (if len out =? cap then
           if len out >? limit then Err (TooLarge limit)
           else Ok (growCap (len out + Z.min cap (limit + 1 - len out)))
         else Ok cap) in
      match pending with
      | [] =>
          match err with
          | EOF => if len out >? limit then Err (TooLarge limit) else Ok out
          | e => Err (LZWError e)
          end
      | _ =>
          let n := Z.to_nat (lzwReadSize (len pending) (cap - len out)) in
          decompressLoop fuel limit (out ++ take n pending) cap (drop n pending) err
      end
  end.

Definition decompressBuffer (c : Compress) (limit : Z) : result decompressError bytes :=
  if negb (Compress_Algo c =? lzwAlgo) then Err (UnknownAlgorithm (Compress_Algo c))
  else
    let buf := slice_bytes (Compress_Buf c) in
    let '(data, err) := lzwExpand buf in
    decompressLoop (S (length data)) limit [] (Z.min (4 * len buf + 64) (limit + 1)) data err.

Definition decompressPayload (msg : bytes) : result decompressError bytes :=
  match decode KCompress msg with
  | Ok (MCompress c) => decompressBuffer c maxPacketDecompressedBytes
  | Ok _ => Err (UnknownAlgorithm 0)
  | Err e => Err (DecodeFailed e)
  end.
End Compression.

(** ** Specification *)

(** The bytes a connection will still deliver. *)
Definition content (c : conn) : bytes := concat (c_chunks c).
Definition remaining (c : peekedConn) : bytes := pc_Peeked c ++ content (pc_Conn c).
Definition lively (c : conn) : Prop := Forall (fun chunk => chunk <> []) (c_chunks c).

(** A buffered reader over the stream [all], with no error pending. *)
Record buffering (all : bytes) (e : io_error) (b : bufioReader) : Prop := {
  bu_all : br_buf b ++ content (br_conn b) = all;
  bu_lively : lively (br_conn b);
  bu_end : c_err (br_conn b) = e;
}.

(** ** Lemmas: compound messages *)

Lemma length_lengths (msgs : list bytes) :
  len (concat (map (fun m => be 2 (u16 (len m))) msgs)) = 2 * len msgs.
Proof.
  induction msgs as [|m msgs IH]; [done|]. cbn [map concat]. rewrite len_app, len_be, IH, len_cons. lia.
Qed.

Lemma compoundLengths_ok (msgs : list bytes) rest :
  Forall (fun m => len m <= 65535) msgs ->
  compoundLengths (length msgs) (concat (map (fun m => be 2 (u16 (len m))) msgs) ++ rest) = map len msgs.
Proof.
  induction 1 as [|m msgs Hm _ IH]; [done|]. cbn [map concat length compoundLengths].
  rewrite <- app_assoc. change (be 2 (u16 (len m))) with ([z2b (Z.shiftr (u16 (len m)) (8 * Z.of_nat 1)); z2b (Z.shiftr (u16 (len m)) (8 * Z.of_nat 0))]) at 1.
  pose proof (be_value_be 2 (u16 (len m)) ltac:(lia)) as Hv. pose proof (len_nonneg m).
  rewrite u16_small in Hv at 2 by lia. rewrite Z.mod_small in Hv by (change (256 ^ Z.of_nat 2) with 65536; lia).
  f_equal; [done|]. exact IH.
Qed.

Lemma splitParts_ok (msgs : list bytes) rest parts :
  splitParts (map len msgs) (concat msgs ++ rest) parts = (0, parts ++ msgs).
Proof.
  revert parts. induction msgs as [|m msgs IH]; intros parts; cbn [map concat splitParts].
  - by rewrite app_nil_r.
  - rewrite (proj2 (Z.ltb_ge _ _)).
    + replace (Z.to_nat (len m)) with (length m) by (unfold len; lia).
      rewrite <- app_assoc, drop_app_length, take_app_length, IH, <- app_assoc. done.
    + rewrite !len_app. pose proof (len_nonneg (concat msgs)). pose proof (len_nonneg rest). lia.
Qed.

Lemma compound_decodes (msgs : list bytes) rest :
  len msgs <= 255 -> Forall (fun m => len m <= 65535) msgs ->
  decodeCompoundMessage (drop 1 (makeCompoundMessage msgs ++ rest)) = Ok (0, msgs).
Proof.
  intros Hn Hm. pose proof (len_nonneg msgs). unfold makeCompoundMessage. cbn [app drop decodeCompoundMessage].
  rewrite b2z_z2b_small by lia. rewrite <- app_assoc.
  rewrite (proj2 (Z.ltb_ge _ _)).
  - replace (Z.to_nat (len msgs)) with (length msgs) by (unfold len; lia).
    rewrite compoundLengths_ok by done.
    replace (Z.to_nat (len msgs * 2)) with (length (concat (map (fun m => be 2 (u16 (len m))) msgs)))
      by (pose proof (length_lengths msgs); unfold len in *; lia).
    by rewrite drop_app_length, splitParts_ok.
  - rewrite len_app, length_lengths. pose proof (len_nonneg (concat msgs ++ rest)). lia.
Qed.

Lemma splitParts_general lengths buf parts :
  Forall (fun n => 0 <= n) lengths ->
  exists tr new rest, splitParts lengths buf parts = (tr, parts ++ new) /\
    tr + len new = len lengths /\ 0 <= tr /\ buf = concat new ++ rest /\
    map len new = take (length new) lengths.
Proof.
  intros Hl. revert buf parts. induction Hl as [|n lengths Hn _ IH]; intros buf parts; cbn [splitParts].
  - exists 0, [], buf. by rewrite app_nil_r.
  - destruct (Z.ltb_spec (len buf) n) as [Hlt|Hge].
    + exists (len (n :: lengths)), [], buf. rewrite app_nil_r. pose proof (len_nonneg (n :: lengths)).
      change (len []) with 0. split_and!; done || lia.
    + destruct (IH (drop (Z.to_nat n) buf) (parts ++ [take (Z.to_nat n) buf])) as (tr & new & rest & E & Ht & H0 & Hb & Hm).
      exists tr, (take (Z.to_nat n) buf :: new), rest. split_and!; try done.
      * by rewrite E, <- app_assoc.
      * rewrite !len_cons. lia.
      * cbn [concat]. by rewrite <- app_assoc, <- Hb, take_drop.
      * cbn [map length take]. by rewrite len_take, Hm by lia.
Qed.

Lemma compoundLengths_general n buf :
  length (compoundLengths n buf) = n /\ Forall (fun x => 0 <= x) (compoundLengths n buf).
Proof.
  revert buf. induction n as [|n IH]; intros buf; cbn; [by split; [|constructor]|].
  destruct (IH (drop 2 buf)) as [H1 H2]. split; [by f_equal|]. constructor; [|done].
  apply be_value_range. rewrite length_take. lia.
Qed.

(** ** Lemmas: buffered reading *)

Lemma fill_ok all e b :
  buffering all e b -> br_err b = None -> (length (br_buf b) < bufSize)%nat ->
  match c_chunks (br_conn b) with
  | [] => fill b = BufioReader (br_buf b) (Some e) (br_conn b)
  | _ => exists p, p <> [] /\ br_buf (fill b) = br_buf b ++ p /\ br_err (fill b) = None /\ buffering all e (fill b)
  end.
Proof.
  intros [Ha Hl He] Hn Hs. unfold fill. change 100%nat with (S 99). generalize 99%nat. intros tries. cbn [fillLoop].
  unfold connRead. destruct (c_chunks (br_conn b)) as [|chunk rest] eqn:Ec; [by rewrite He|].
  unfold lively in Hl. rewrite Ec in Hl. apply Forall_cons in Hl as [Hne Hl].
  set (n := (bufSize - length (br_buf b))%nat). assert (Hnpos : (0 < n)%nat) by (unfold n; lia). clearbody n.
  destruct (take n chunk) as [|x p] eqn:Et.
  { destruct chunk; [done|]. destruct n; [lia|done]. }
  exists (x :: p). cbn [br_buf br_err]. split_and!; try done.
  constructor; cbn [br_buf br_err br_conn c_err].
  - rewrite <- app_assoc. rewrite <- Ha. f_equal. unfold content. rewrite Ec. cbn [concat c_chunks].
    rewrite <- Et. destruct (Nat.ltb_spec n (length chunk)); cbn [c_chunks concat].
    + by rewrite app_assoc, take_drop.
    + by rewrite take_ge by lia.
  - unfold lively. cbn [c_chunks]. destruct (Nat.ltb_spec n (length chunk)) as [Hlt|]; [|done]. constructor; [|done].
    intros E. apply (f_equal length) in E. rewrite length_drop in E. cbn in E. lia.
  - done.
Qed.

Lemma peekLoop_ok all e fuel n b :
  buffering all e b -> br_err b = None -> (n <= bufSize)%nat -> (n < fuel + length (br_buf b))%nat ->
  let b' := peekLoop fuel n b in
  buffering all e b' /\
  ((n <= length all)%nat -> br_err b' = None /\ (n <= length (br_buf b'))%nat) /\
  ((length all < n)%nat -> br_err b' = Some e /\ (length (br_buf b') < n)%nat).
Proof.
  intros Hb Hn Hbs Hf. revert b Hb Hn Hf. induction fuel as [|fuel IH]; intros b Hb Hn Hf.
  { cbn. split; [done|]. assert (Hall : (length (br_buf b) <= length all)%nat).
    { destruct Hb as [<- _ _]. rewrite length_app. lia. }
    split; intros; [split; [done|lia]|lia]. }
  cbn [peekLoop]. rewrite Hn. destruct (Nat.ltb_spec (length (br_buf b)) n) as [Hlt|Hge]; cbn [andb].
  2: { split; [done|]. assert (Hall : (length (br_buf b) <= length all)%nat).
       { destruct Hb as [<- _ _]. rewrite length_app. lia. }
       split; intros; [done|lia]. }
  rewrite (proj2 (Nat.ltb_lt _ _)) by lia. cbn [andb].
  pose proof (fill_ok all e b Hb Hn ltac:(lia)) as Hfill.
  destruct (c_chunks (br_conn b)) as [|chunk rest] eqn:Ec.
  - rewrite Hfill. assert (Hall : all = br_buf b).
    { destruct Hb as [<- _ _]. unfold content. rewrite Ec. by rewrite app_nil_r. }
    assert (E : forall f, peekLoop f n (BufioReader (br_buf b) (Some e) (br_conn b)) =
                          BufioReader (br_buf b) (Some e) (br_conn b)).
    { intros [|f]; cbn [peekLoop br_err]; [done|]. by rewrite andb_false_r. }
    rewrite E. cbn. split; [by destruct Hb; constructor|]. split; [rewrite Hall; lia|done].
  - destruct Hfill as (p & Hp & Ebuf & Eerr & Hb'). apply IH; [done|done|].
    rewrite Ebuf, length_app. destruct p; [done|]. cbn [length]. lia.
Qed.

Lemma Peek_ok all e n b :
  buffering all e b -> br_err b = None -> (n <= bufSize)%nat ->
  if (length all <? n)%nat then (Peek n b).1 = Err e /\ buffering all e (Peek n b).2
  else exists b', Peek n b = (Ok (take n all), b') /\ buffering all e b' /\ br_err b' = None /\
    (n <= length (br_buf b'))%nat.
Proof.
  intros Hb Hn Hs. destruct (peekLoop_ok all e (S n) n b Hb Hn Hs ltac:(lia)) as (Hb' & H1 & H2).
  unfold Peek. set (b' := peekLoop (S n) n b) in *. clearbody b'.
  destruct (Nat.ltb_spec (length all) n) as [Hlt|Hge].
  - destruct (H2 Hlt) as [He Hl]. rewrite (proj2 (Nat.ltb_lt _ _)), He by done. cbn.
    split; [done|]. by destruct Hb'; constructor.
  - destruct (H1 Hge) as [He Hl]. rewrite (proj2 (Nat.ltb_ge _ _)) by lia. exists b'. split_and!; try done.
    destruct Hb' as [<- _ _]. by rewrite take_app_le by lia.
Qed.

(** ** Lemmas: labels and compression *)

Lemma RemoveLabel_stream c :
  lively c ->
  match RemoveLabelHeaderFromPacket (content c) with
  | Ok (rest, label) =>
      content c <> [] \/ c_err c = EOF ->
      exists pc, RemoveLabelHeaderFromStream c = Ok (pc, label) /\ remaining pc = rest /\
        c_err (pc_Conn pc) = c_err c
  | Err LabelTruncated =>
      RemoveLabelHeaderFromStream c = Err (match c_err c with EOF => LabelTruncated | e => LabelIO e end)
  | Err e => RemoveLabelHeaderFromStream c = Err e
  end.
Proof.
  intros Hl. unfold RemoveLabelHeaderFromStream.
  assert (Hb : buffering (content c) (c_err c) (BufioReader [] None c)) by (by constructor).
  pose proof (Peek_ok _ _ 1 _ Hb eq_refl ltac:(unfold bufSize; lia)) as H1.
  destruct (content c) as [|t [|sz rest]] eqn:Ec; cbn [length Nat.ltb Nat.leb] in H1.
  - destruct (Peek 1 _) as [r b1]. cbn in H1. destruct H1 as [-> Hb1]. cbn. intros [?|He]; [done|].
    rewrite He. exists (PeekedConn [] (br_conn b1)). destruct Hb1 as [Ha _ Hc]. cbn. split_and!; [done| |congruence].
    unfold remaining. cbn. by apply app_nil in Ha as [_ ->].
  - destruct H1 as (b1 & -> & Hb1 & He1 & Hn1). cbn [take List.hd RemoveLabelHeaderFromPacket].
    destruct (Z.eqb_spec (b2z t) hasLabelMsg) as [Et|Et]; cbn [negb].
    + cbn. pose proof (Peek_ok _ _ 2 _ Hb1 He1 ltac:(unfold bufSize; lia)) as H2. cbn [length Nat.ltb Nat.leb] in H2.
      destruct (Peek 2 b1) as [r b2]. cbn in H2. destruct H2 as [-> _]. by destruct (c_err c).
    + intros _. eexists. split; [done|]. destruct Hb1 as [Ha _ Hc]. by split.
  - destruct H1 as (b1 & -> & Hb1 & He1 & Hn1). cbn [take List.hd RemoveLabelHeaderFromPacket].
    destruct (Z.eqb_spec (b2z t) hasLabelMsg) as [Et|Et]; cbn [negb].
    2: { intros _. eexists. split; [done|]. destruct Hb1 as [Ha _ Hc]. by split. }
    change ((t :: sz :: rest) !! 1%nat) with (Some sz). cbv beta iota zeta.
    pose proof (Peek_ok _ _ 2 _ Hb1 He1 ltac:(unfold bufSize; lia)) as H2. cbn [length Nat.ltb Nat.leb] in H2.
    destruct H2 as (b2 & -> & Hb2 & He2 & Hn2). cbn [take List.nth].
    destruct (Z.ltb_spec (b2z sz) 1) as [Hz|Hz]; [done|]. pose proof (b2z_range sz) as Hr.
    pose proof (Peek_ok _ _ (Z.to_nat (2 + b2z sz)) _ Hb2 He2 ltac:(unfold bufSize; lia)) as H3.
    destruct (Z.ltb_spec (len (t :: sz :: rest)) (2 + b2z sz)) as [Hs|Hs].
    + rewrite (proj2 (Nat.ltb_lt _ _)) in H3 by (unfold len in Hs; lia).
      destruct (Peek (Z.to_nat (2 + b2z sz)) b2) as [r b3]. cbn in H3. destruct H3 as [-> _]. by destruct (c_err c).
    + rewrite (proj2 (Nat.ltb_ge _ _)) in H3 by (unfold len in Hs; lia).
      destruct H3 as (b3 & -> & Hb3 & He3 & Hn3). intros _. exists (newPeekedConnFromBufferedReader b3 (Z.to_nat (2 + b2z sz))). split; [|destruct Hb3 as [Ha _ Hc]; split; [|done]].
      * unfold subslice. replace (2 + b2z sz - 2) with (b2z sz) by lia.
        do 3 f_equal. rewrite skipn_firstn_comm, take_take. f_equal. lia.
      * unfold remaining. cbn [newPeekedConnFromBufferedReader pc_Peeked pc_Conn]. rewrite <- Ha.
        by rewrite drop_app_le by lia.
Qed.

Lemma decompressLoop_ok `{LZWLaws} fuel limit out cap pending err :
  0 <= limit -> (length pending < fuel)%nat -> len out <= cap -> 1 <= cap ->
  match decompressLoop fuel limit out cap pending err with
  | Ok p => p = out ++ pending /\ err = EOF /\ len p <= limit
  | Err DecompressFuel => False
  | Err e => limit < len (out ++ pending) \/ (err <> EOF /\ e = LZWError err)
  end.
Proof.
  intros Hlim. revert out cap pending. induction fuel as [|fuel IH]; intros out cap pending Hf Hc Hc1; [lia|].
  cbn [decompressLoop]. pose proof (len_nonneg out) as Hout.
  set (c := if len out =? cap then _ else _).
  assert (Hcap : (exists cap', c = Ok cap' /\ len out < cap') \/ (c = Err (TooLarge limit) /\ limit < len out)).
  { unfold c. destruct (Z.eqb_spec (len out) cap) as [Ee|Ee]; [|left; exists cap; split; [done|lia]].
    destruct (Z.gtb_spec (len out) limit); [by right|]. left. eexists. split; [done|].
    pose proof (growCap_ge (len out + Z.min cap (limit + 1 - len out))). lia. }
  clearbody c. destruct Hcap as [(cap' & -> & Hcap')|[-> Hbig]]; cbn [rbind].
  2: { left. rewrite len_app. pose proof (len_nonneg pending). lia. }
  destruct pending as [|x pending].
  - rewrite app_nil_r. destruct err; try (right; done). destruct (Z.gtb_spec (len out) limit); [by left|done].
  - set (pend := x :: pending) in *. pose proof (len_nonneg pending) as Hpn.
    assert (Hp0 : 0 < len pend) by (unfold pend; rewrite len_cons; lia).
    pose proof (lzwReadSize_range (len pend) (cap' - len out) Hp0 ltac:(lia)) as Hr.
    set (n := lzwReadSize (len pend) (cap' - len out)) in *. clearbody n.
    specialize (IH (out ++ take (Z.to_nat n) pend) cap' (drop (Z.to_nat n) pend)).
    rewrite <- app_assoc, take_drop in IH. apply IH.
    + rewrite length_drop. unfold len in *. lia.
    + rewrite len_app, len_take by lia. lia.
    + lia.
Qed.

Lemma decompressBuffer_ok `{LZWLaws} c limit :
  0 <= limit ->
  match decompressBuffer c limit with
  | Ok p => Compress_Algo c = lzwAlgo /\ lzwExpand (slice_bytes (Compress_Buf c)) = (p, EOF) /\ len p <= limit
  | Err DecompressFuel => False
  | Err _ => Compress_Algo c <> lzwAlgo \/ limit < len (lzwExpand (slice_bytes (Compress_Buf c))).1 \/
             (lzwExpand (slice_bytes (Compress_Buf c))).2 <> EOF
  end.
Proof.
  intros Hl. unfold decompressBuffer. destruct (Z.eqb_spec (Compress_Algo c) lzwAlgo) as [Ea|Ea]; cbn [negb]; [|by left].
  destruct (lzwExpand _) as [data err]. pose proof (len_nonneg (slice_bytes (Compress_Buf c))).
  pose proof (decompressLoop_ok (S (length data)) limit [] (Z.min (4 * len (slice_bytes (Compress_Buf c)) + 64) (limit + 1)) data err) as Hd.
  cbn [app fst snd] in *. destruct (decompressLoop _ _ _ _ _ _) as [p|e].
  - destruct Hd as (-> & -> & ?); [done|lia|change (len []) with 0; lia|lia|]. done.
  - destruct e; (destruct Hd as [?|[? ?]]; [done|lia|change (len []) with 0; lia|lia| |]; tauto) || 
      (apply Hd; [done|lia|change (len []) with 0; lia|lia]).
Qed.

(** How long encodings get. *)
Lemma len_AppendUint b v : len (AppendUint b v) <= len b + 9.
Proof. unfold AppendUint. repeat case_match; rewrite ?len_app, ?len_cons, ?len_be; change (len []) with 0; lia. Qed.

Lemma len_appendRawHeader b n : len (appendRawHeader b n) <= len b + 5.
Proof. unfold appendRawHeader. repeat case_match; rewrite ?len_app, ?len_cons, ?len_be; change (len []) with 0; lia. Qed.

Lemma len_AppendString b k : len (AppendString b k) <= len b + 5 + len (str2b k).
Proof. unfold AppendString. rewrite len_app. pose proof (len_appendRawHeader b (len (str2b k))). lia. Qed.

Lemma len_AppendBytes b p : len (AppendBytes b p) <= len b + 5 + len (slice_bytes p).
Proof.
  destruct p as [p|]; cbn [AppendBytes slice_bytes]; [|unfold AppendNil]; rewrite len_app.
  - pose proof (len_appendRawHeader b (len p)). lia.
  - rewrite len_cons. change (len []) with 0. change (len []) with 0. lia.
Qed.

Lemma len_AppendMapHeader b n : len (AppendMapHeader b n) <= len b + 5.
Proof. unfold AppendMapHeader. repeat case_match; rewrite ?len_app, ?len_cons, ?len_be; change (len []) with 0; lia. Qed.

(** Bound the encoding of a message field by field. *)
Ltac len_fields :=
  repeat match goal with
  | |- context [len (AppendUint ?b ?v)] => pose proof (len_AppendUint b v); generalize dependent (len (AppendUint b v)); intros
  | |- context [len (AppendString ?b ?v)] => pose proof (len_AppendString b v); generalize dependent (len (AppendString b v)); intros
  | |- context [len (AppendBytes ?b ?v)] => pose proof (len_AppendBytes b v); generalize dependent (len (AppendBytes b v)); intros
  | H : context [len (AppendUint ?b ?v)] |- _ => pose proof (len_AppendUint b v); generalize dependent (len (AppendUint b v)); intros
  | H : context [len (AppendString ?b ?v)] |- _ => pose proof (len_AppendString b v); generalize dependent (len (AppendString b v)); intros
  | H : context [len (AppendBytes ?b ?v)] |- _ => pose proof (len_AppendBytes b v); generalize dependent (len (AppendBytes b v)); intros
  | H : context [len (AppendMapHeader ?b ?v)] |- _ => pose proof (len_AppendMapHeader b v); generalize dependent (len (AppendMapHeader b v)); intros
  end.

Lemma len_Compress c : cbytes_ok (Compress_Buf c) -> len (Compress_AppendMsgpack c []) <= MaxInt64.
Proof.
  unfold cbytes_ok, Compress_AppendMsgpack, appendB, appendU. intros Hc. len_fields.
  change (len (str2b "Algo")) with 4 in *. change (len (str2b "Buf")) with 3 in *. change (len []) with 0 in *.
  change MaxCompressedBytes with 67108864 in *. unfold MaxInt64. lia.
Qed.

Lemma compoundLengths_take n buf k :
  (2 * n <= k)%nat -> compoundLengths n buf = compoundLengths n (take k buf).
Proof.
  revert buf k. induction n as [|n IH]; intros buf k Hk; [done|]. cbn [compoundLengths]. f_equal.
  - f_equal. rewrite take_take. f_equal. lia.
  - rewrite skipn_firstn_comm. apply IH. lia.
Qed.

Lemma encode_cons t m : encode t m = z2b t :: AppendMsgpack m [].
Proof. unfold encode. by rewrite AppendMsgpack_app. Qed.

(** Decoding a packet, from what its struct's decoder reads. *)
Lemma reads_decode k m enc rest :
  reads (DecodeMsgpack k) enc m -> len (enc ++ rest) <= MaxInt64 -> decode k (enc ++ rest) = Ok m.
Proof.
  intros Hr Hl. unfold decode. rewrite (Hr (NewDecoder (enc ++ rest)) rest); [done| |by cbn; rewrite drop_0].
  cbn. pose proof (len_nonneg (enc ++ rest)). lia.
Qed.

(** A connection as the chunks of [all], cut after every [n] bytes. *)
Definition exampleConn : conn :=
  Conn (map (fun c => [c]) (makeLabelHeader "dc1" (map z2b [1; 2; 3]))) EOF.

(** Stored blocks: a coder that meets the laws, and runs. *)
#[local] Instance storedLZW : LZW := {|
  lzwCompress b := b;
  lzwExpand b := (b, EOF);
  lzwReadSize pending n := Z.min (Z.min pending n) 7;
  growCap n := n;
|}.

#[local] Instance storedLZW_laws : LZWLaws.
Proof. constructor; cbn; lia || done. Qed.

Lemma RemoveLabel_header label rest :
  1 <= len (str2b label) <= LabelMaxSize ->
  RemoveLabelHeaderFromPacket (makeLabelHeader label rest) = Ok (rest, label).
Proof.
  unfold LabelMaxSize. intros Hl. unfold makeLabelHeader. cbn [app RemoveLabelHeaderFromPacket].
  change (b2z (z2b hasLabelMsg) =? hasLabelMsg) with true. cbn [negb].
  set (buf := z2b hasLabelMsg :: z2b (len (str2b label)) :: str2b label ++ rest).
  change (buf !! 1%nat) with (Some (z2b (len (str2b label)))). cbv beta iota zeta.
  rewrite b2z_z2b_small by lia. rewrite (proj2 (Z.ltb_ge _ 1)) by lia.
  assert (El : len buf = 2 + len (str2b label) + len rest) by (unfold buf; rewrite !len_cons, len_app; lia).
  pose proof (len_nonneg rest). rewrite (proj2 (Z.ltb_ge _ _)) by lia.
  replace (Z.to_nat (2 + len (str2b label))) with (2 + length (str2b label))%nat by (unfold len; lia).
  unfold subslice. replace (Z.to_nat (2 + len (str2b label) - 2)) with (length (str2b label)) by (unfold len; lia).
  unfold buf. cbn [Nat.add drop Z.to_nat Pos.to_nat Pos.iter_op].
  change (drop (Z.to_nat 2) (z2b hasLabelMsg :: z2b (len (str2b label)) :: str2b label ++ rest))
    with (str2b label ++ rest).
  by rewrite drop_app_length, take_app_length, b2str_str2b.
Qed.

Lemma makeCompoundLoop_ok fuel msgs out :
  (length msgs < fuel)%nat ->
  exists groups, makeCompoundLoop fuel msgs out = out ++ map makeCompoundMessage groups /\
    concat groups = msgs /\ Forall (fun g => 1 <= len g <= 255) groups.
Proof.
  revert msgs out. induction fuel as [|fuel IH]; intros msgs out Hf; [lia|]. cbn [makeCompoundLoop].
  destruct (Nat.ltb_spec maxMsgs (length msgs)) as [Hlt|Hge].
  - destruct (IH (drop maxMsgs msgs) (out ++ [makeCompoundMessage (take maxMsgs msgs)])) as (gs & E & Hc & Hg).
    { rewrite length_drop. unfold maxMsgs in *. lia. }
    exists (take maxMsgs msgs :: gs). rewrite E. cbn [map concat]. rewrite <- app_assoc, Hc, take_drop.
    split_and!; [done..|]. constructor; [|done]. unfold len. rewrite length_take. unfold maxMsgs in *. lia.
  - destruct (Nat.ltb_spec 0 (length msgs)).
    + exists [msgs]. cbn. rewrite app_nil_r. split_and!; [done..|]. repeat constructor; unfold len, maxMsgs in *; lia.
    + exists []. destruct msgs; [|cbn in *; lia]. cbn. by rewrite app_nil_r.
Qed.

(** What was compressed is expanded again, under any limit it is within. *)
Lemma decompressBuffer_compressed `{LZWLaws} inp limit :
  0 <= limit -> len inp <= limit -> decompressBuffer (MkCompress lzwAlgo (Some (lzwCompress inp))) limit = Ok inp.
Proof.
  intros Hl Hi. set (cm := MkCompress lzwAlgo (Some (lzwCompress inp))). pose proof (decompressBuffer_ok cm limit Hl) as Hok.
  assert (Ex : lzwExpand (slice_bytes (Compress_Buf cm)) = (inp, EOF)) by apply lzwExpand_Compress.
  rewrite Ex in Hok. cbn [fst snd] in Hok.
  destruct (decompressBuffer cm _) as [p|e]; [by destruct Hok as (_ & [= <-] & _)|].
  destruct e; try done; destruct Hok as [Hn|[Hn|Hn]]; try lia; by destruct Hn.
Qed.

Lemma reads_compressed `{LZW} inp :
  len (lzwCompress inp) <= MaxCompressedBytes ->
  reads (DecodeMsgpack KCompress) (drop 1 (compressPayload inp)) (MCompress (MkCompress lzwAlgo (Some (lzwCompress inp)))).
Proof.
  intros Hc. unfold compressPayload. rewrite encode_cons. cbn [drop]. rewrite drop_0.
  apply reads_setting, Compress_roundtrip. split; [by vm_compute|done].
Qed.

Lemma decompress_compressed `{LZWLaws} inp :
  len inp <= maxPacketDecompressedBytes -> len (lzwCompress inp) <= MaxCompressedBytes ->
  decompressPayload (drop 1 (compressPayload inp)) = Ok inp.
Proof.
  intros Hi Hc. unfold decompressPayload.
  assert (Hd : decode KCompress (drop 1 (compressPayload inp)) = Ok (MCompress (MkCompress lzwAlgo (Some (lzwCompress inp))))).
  { rewrite <- (app_nil_r (drop 1 _)). apply reads_decode; [by apply reads_compressed|].
    unfold compressPayload. rewrite app_nil_r, encode_cons. cbn [drop]. rewrite drop_0. by apply len_Compress. }
  rewrite Hd. by apply decompressBuffer_compressed.
Qed.

(** ** Properties *)

(** Packing any number of messages into compound messages and unpacking
    those gives the messages back, in order, none truncated, each compound
    within the 255 parts its count byte can hold; and unpacking is total on
    any input: the parts are consecutive slices of the body with the declared
    lengths, and the parts that do not fit are counted as truncated. *)
Theorem compound_roundtrip msgs buf :
  (Forall (fun m => len m <= MaxUint16) msgs ->
   exists groups, makeCompoundMessages msgs = map makeCompoundMessage groups /\ concat groups = msgs /\
     Forall (fun g => 1 <= len g <= 255 /\
               decodeCompoundMessage (drop 1 (makeCompoundMessage g)) = Ok (0, g)) groups) /\
  match decodeCompoundMessage buf with
  | Ok (tr, parts) =>
      exists n lengths body rest, buf = n :: lengths ++ body /\ len lengths = 2 * b2z n /\
        body = concat parts ++ rest /\ tr + len parts = b2z n /\ 0 <= tr /\
        map len parts = take (length parts) (compoundLengths (Z.to_nat (b2z n)) lengths)
  | Err _ => buf = [] \/ exists n rest, buf = n :: rest /\ len rest < 2 * b2z n
  end.
Proof.
  split.
  - intros Hm. destruct (makeCompoundLoop_ok (S (length msgs)) msgs []) as (gs & E & Hc & Hg); [lia|].
    exists gs. split_and!; [done..|]. rewrite <- Hc in Hm. clear -Hm Hg.
    induction Hg as [|g gs Hg _ IH]; constructor.
    + split; [done|]. rewrite <- (app_nil_r (makeCompoundMessage g)). cbn [concat] in Hm.
      apply Forall_app in Hm as [Hm _]. apply compound_decodes; [lia|done].
    + apply IH. cbn [concat] in Hm. by apply Forall_app in Hm as [_ Hm].
  - destruct buf as [|n buf]; cbn [decodeCompoundMessage]; [by left|]. pose proof (b2z_range n).
    destruct (Z.ltb_spec (len buf) (b2z n * 2)) as [Hlt|Hge]; [right; exists n, buf; split; [done|lia]|].
    destruct (compoundLengths_general (Z.to_nat (b2z n)) buf) as [Hl Hp].
    destruct (splitParts_general _ (drop (Z.to_nat (b2z n * 2)) buf) [] Hp) as (tr & new & rest & -> & Ht & H0 & Hb & Hm).
    exists n, (take (Z.to_nat (b2z n * 2)) buf), (drop (Z.to_nat (b2z n * 2)) buf), rest.
    split_and!; [by rewrite take_drop|rewrite len_take; lia|done| |done|].
    + cbn [app]. rewrite Ht. unfold len. rewrite Hl. lia.
    + cbn [app]. rewrite Hm. f_equal. apply compoundLengths_take. lia.
Qed.

Lemma compound_roundtrip_witness :
  exists groups, makeCompoundMessages [map z2b [1; 2]; []; map z2b [3]] = map makeCompoundMessage groups /\
    concat groups = [map z2b [1; 2]; []; map z2b [3]] /\
    Forall (fun g => 1 <= len g <= 255 /\
              decodeCompoundMessage (drop 1 (makeCompoundMessage g)) = Ok (0, g)) groups.
Proof. apply (compound_roundtrip [map z2b [1; 2]; []; map z2b [3]] []). repeat constructor; easy. Defined.

(** A label added to a packet is removed again with the packet intact. On
    a stream the result is that of a packet with the same bytes, however the
    connection cuts them into reads: the same label or error, and a
    connection that still delivers exactly the bytes after the header. *)
Theorem label_roundtrip label rest c :
  (1 <= len (str2b label) <= LabelMaxSize ->
   exists p, AddLabelHeaderToPacket rest label = Ok p /\ len p = labelOverhead label + len rest /\
     RemoveLabelHeaderFromPacket p = Ok (rest, label)) /\
  (lively c -> c_err c = EOF ->
   match RemoveLabelHeaderFromStream c with
   | Ok (pc, l) => RemoveLabelHeaderFromPacket (content c) = Ok (remaining pc, l)
   | Err e => RemoveLabelHeaderFromPacket (content c) = Err e
   end).
Proof.
  split.
  - intros Hl. exists (makeLabelHeader label rest). unfold AddLabelHeaderToPacket, labelOverhead.
    destruct (String.eqb_spec label "") as [->|_]; [by destruct Hl|].
    destruct (Z.gtb_spec (len (str2b label)) LabelMaxSize); [lia|].
    split_and!; [done| |by apply RemoveLabel_header].
    unfold makeLabelHeader. cbn [app]. rewrite !len_cons, len_app. lia.
  - intros Hl He. pose proof (RemoveLabel_stream c Hl) as H.
    destruct (RemoveLabelHeaderFromPacket (content c)) as [[r l]|[]].
    + destruct H as (pc & -> & <- & _); [by right|done].
    + by rewrite H.
    + by rewrite H, He.
    + by rewrite H.
    + by rewrite H.
Qed.

Lemma label_roundtrip_witness :
  exists p, AddLabelHeaderToPacket (map z2b [1; 2; 3]) "dc1" = Ok p /\
    len p = labelOverhead "dc1" + len (map z2b [1; 2; 3]) /\
    RemoveLabelHeaderFromPacket p = Ok (map z2b [1; 2; 3], "dc1"%string).
Proof.
  refine (proj1 (label_roundtrip "dc1" (map z2b [1; 2; 3]) exampleConn) _).
  vm_compute. intuition congruence.
Defined.

(** Decompression is total and bounded: it returns exactly the expansion
    of the payload when that ends cleanly within the limit, and an error for
    an unknown algorithm, a corrupt payload or a larger one; a compressed
    packet is expanded to what was compressed. *)
Theorem decompress_correct `{LZWLaws} c limit inp :
  0 <= limit ->
  (match decompressBuffer c limit with
   | Ok p => Compress_Algo c = lzwAlgo /\ lzwExpand (slice_bytes (Compress_Buf c)) = (p, EOF) /\ len p <= limit
   | Err DecompressFuel => False
   | Err _ => Compress_Algo c <> lzwAlgo \/ limit < len (lzwExpand (slice_bytes (Compress_Buf c))).1 \/
              (lzwExpand (slice_bytes (Compress_Buf c))).2 <> EOF
   end) /\
  (len inp <= maxPacketDecompressedBytes -> len (lzwCompress inp) <= MaxCompressedBytes ->
   decompressPayload (drop 1 (compressPayload inp)) = Ok inp).
Proof.
  intros Hl. split; [by apply decompressBuffer_ok|]. apply decompress_compressed.
Qed.

Lemma decompress_correct_witness :
  decompressPayload (drop 1 (compressPayload (map z2b [1; 2; 3; 4; 5; 6; 7; 8; 9]))) =
    Ok (map z2b [1; 2; 3; 4; 5; 6; 7; 8; 9]).
Proof.
  refine (proj2 (decompress_correct (MkCompress 0 None) 0 (map z2b [1; 2; 3; 4; 5; 6; 7; 8; 9]) _) _ _);
    vm_compute; congruence.
Defined.
