(* ===== verification/State.v ===== *)
(** Membership state, [src/state.go]: the node table, the alive, suspect and
    dead handlers, refutation, suspicion timers, push/pull merging and the
    reaping of dead nodes.

    [Memberlist] holds the fields of the Go struct that these handlers use,
    in records by the mutex-protected group they belong to. Each handler is
    what runs in one critical section of [nodeLock], so handlers interleave as
    whole steps. A [*nodeState] is a location of the heap [t_heap], shared by
    the list [t_nodes] and the map [t_nodeMap]; a [*suspicion] is a location
    of [tt_heap]. [None] is the nil dereference in the broadcast queue, which
    the theorems rule out. [now] is the clock as the handler reads it. *)

From S2P Require Import Prelude Msgpack Wire Treap Timing Queue NetAddr Nodes Events Packet.

(** ** Configuration *)

(** The fields of [Config] the handlers read. The alive delegate is its
    verdict on a node; the other delegates are notified through the event
    queue, so only their presence matters. *)
Record Config := MkConfig {
  c_Name : string;
  c_ProtocolVersion : Z;
  c_DelegateProtocolVersion : Z;
  c_DelegateProtocolMin : Z;
  c_DelegateProtocolMax : Z;
  c_SuspicionMult : Z;
  c_SuspicionMaxTimeoutMult : Z;
  c_ProbeInterval : Z;
  c_GossipToTheDeadTime : Z;
  c_DeadNodeReclaimTime : Z;
  c_CIDRsAllowed : list IPNet;
  c_Alive : option (Node -> bool);
  c_Events : bool;
  c_Conflict : bool;
}.

Definition ProtocolVersionMin : Z := 1.
Definition ProtocolVersionMax : Z := 5.

Definition BuildVsnArray (c : Config) : slice :=
  Some (map z2b [ProtocolVersionMin; ProtocolVersionMax; c_ProtocolVersion c;
                 c_DelegateProtocolMin c; c_DelegateProtocolMax c; c_DelegateProtocolVersion c]).

(** ** State *)

Record nodeTable := Table {
  t_heap : gmap Z nodeState;
  t_next : Z;
  t_nodes : list Z;
  t_nodeMap : gmap string Z;
  t_numNodes : Z;
}.

(** A suspicion and what its callback closes over. *)
Record pendingTimer := PendingTimer {
  p_susp : suspicion;
  p_node : string;
  p_changeTime : Z;
  p_k : Z;
}.

(** Removing a timer from [tt_nodeTimers] does not stop it; [tt_firing] are
    the callbacks that were started and have not yet taken [nodeLock]. *)
Record timerTable := Timers {
  tt_heap : gmap Z pendingTimer;
  tt_next : Z;
  tt_nodeTimers : gmap string Z;
  tt_firing : list Z;
}.

Definition nilState : nodeState := MkNodeState (newNode "" None 0 None StateAlive) 0 zeroTime.

(** The node state behind a pointer. *)
Definition deref (t : nodeTable) (l : Z) : nodeState := default nilState (t_heap t !! l).

Definition setNode (t : nodeTable) (l : Z) (s : nodeState) : nodeTable :=
  Table (<[l := s]> (t_heap t)) (t_next t) (t_nodes t) (t_nodeMap t) (t_numNodes t).

Definition clearTimer (tt : timerTable) (name : string) : timerTable :=
  Timers (tt_heap tt) (tt_next tt) (delete name (tt_nodeTimers tt)) (tt_firing tt).

Section State.
Context {G : Type} {RG : Rand G} {ML : MathLog} (cfg : Config).

Record Memberlist := MkMemberlist {
  m_incarnation : Z;
  m_leave : bool;
  m_shutdown : bool;
  m_awareness : awareness;
  m_table : nodeTable;
  m_timers : timerTable;
  m_broadcasts : TransmitLimitedQueue memberlistBroadcast;
  m_finished : list memberlistBroadcast;  (* [Finished] calls, in order *)
  m_events : eventQueue;
  m_rng : G;
}.

Implicit Types m : Memberlist.

Definition set_incarnation m x := MkMemberlist x (m_leave m) (m_shutdown m) (m_awareness m) (m_table m)
  (m_timers m) (m_broadcasts m) (m_finished m) (m_events m) (m_rng m).
Definition set_leave m x := MkMemberlist (m_incarnation m) x (m_shutdown m) (m_awareness m) (m_table m)
  (m_timers m) (m_broadcasts m) (m_finished m) (m_events m) (m_rng m).
Definition set_shutdown m x := MkMemberlist (m_incarnation m) (m_leave m) x (m_awareness m) (m_table m)
  (m_timers m) (m_broadcasts m) (m_finished m) (m_events m) (m_rng m).
Definition set_awareness m x := MkMemberlist (m_incarnation m) (m_leave m) (m_shutdown m) x (m_table m)
  (m_timers m) (m_broadcasts m) (m_finished m) (m_events m) (m_rng m).
Definition set_table m x := MkMemberlist (m_incarnation m) (m_leave m) (m_shutdown m) (m_awareness m) x
  (m_timers m) (m_broadcasts m) (m_finished m) (m_events m) (m_rng m).
Definition set_timers m x := MkMemberlist (m_incarnation m) (m_leave m) (m_shutdown m) (m_awareness m) (m_table m)
  x (m_broadcasts m) (m_finished m) (m_events m) (m_rng m).
Definition set_queue m q f g := MkMemberlist (m_incarnation m) (m_leave m) (m_shutdown m) (m_awareness m) (m_table m)
  (m_timers m) q (m_finished m ++ f) (m_events m) g.
Definition set_events m x := MkMemberlist (m_incarnation m) (m_leave m) (m_shutdown m) (m_awareness m) (m_table m)
  (m_timers m) (m_broadcasts m) (m_finished m) x (m_rng m).
Definition set_rng m x := MkMemberlist (m_incarnation m) (m_leave m) (m_shutdown m) (m_awareness m) (m_table m)
  (m_timers m) (m_broadcasts m) (m_finished m) (m_events m) x.

Definition hasLeft m : bool := m_leave m.
Definition hasShutdown m : bool := m_shutdown m.
Definition estNumNodes m : Z := t_numNodes (m_table m).

(** [m.nodeMap[name]] *)
Definition nodeAt m (name : string) : option Z := t_nodeMap (m_table m) !! name.
Definition stateAt m (l : Z) : nodeState := deref (m_table m) l.
Definition putState m (l : Z) (s : nodeState) : Memberlist := set_table m (setNode (m_table m) l s).

(** ** Incarnation numbers *)

Definition nextIncarnation m : Z * Memberlist :=
  let inc := u32 (m_incarnation m + 1) in (inc, set_incarnation m inc).

Definition skipIncarnation m (offset : Z) : Z * Memberlist :=
  let inc := u32 (m_incarnation m + offset) in (inc, set_incarnation m inc).

(** ** Broadcasts ([src/broadcast.go]) *)

Definition queueBroadcast m (node : string) (msg : bytes) (notify : option Z) : option Memberlist :=
  '(q, f, g) ← QueueBroadcast mb_msg (m_rng m) (m_broadcasts m) (MemberlistBroadcast node msg notify);
  Some (set_queue m q f g).

Definition encodeBroadcastNotify m (node : string) (msgType : Z) (msg : message) (notify : option Z)
    : option Memberlist :=
  queueBroadcast m node (encode msgType msg) notify.

Definition encodeAndBroadcast m (node : string) (msgType : Z) (msg : message) : option Memberlist :=
  encodeBroadcastNotify m node msgType msg None.

(** ** Refutation *)

Definition set_Incarnation (s : nodeState) (inc : Z) : nodeState :=
  MkNodeState (st_Node s) inc (st_StateChange s).

Definition set_State (s : nodeState) (t : NodeStateType) (change : Z) : nodeState :=
  let n := st_Node s in
  MkNodeState (MkNode (n_Name n) (n_Addr n) (n_Port n) (n_Meta n) t
                 (n_PMin n) (n_PMax n) (n_PCur n) (n_DMin n) (n_DMax n) (n_DCur n))
    (st_Incarnation s) change.

Definition vsnBytes (v : vsnArray) : slice :=
  Some (map z2b [v_pmin v; v_pmax v; v_pcur v; v_dmin v; v_dmax v; v_dcur v]).

(** The alive message a node sends about itself. *)
Definition aliveOf (n : Node) (inc : Z) : Alive :=
  MkAlive inc (n_Name n) (n_Addr n) (n_Port n) (n_Meta n) (vsnBytes (versions n)).

Definition refute m (me : Z) (accusedInc : Z) : option Memberlist :=
  let '(inc, m) := nextIncarnation m in
  let '(inc, m) :=
    if accusedInc >=? inc then skipIncarnation m (u32 (accusedInc - inc + 1)) else (inc, m) in
  let m := putState m me (set_Incarnation (stateAt m me) inc) in
  let m := set_awareness m (ApplyDelta (m_awareness m) 1) in
  let n := st_Node (stateAt m me) in
  encodeAndBroadcast m (b2str (ipString (slice_bytes (n_Addr n)))) aliveMsg (MAlive (aliveOf n inc)).

Definition enqueueEvent m (kind : eventKind) (n : Node) (other : option Node) (r : option Z) : Memberlist :=
  set_events m (enqueueEventLocked (m_events m) kind n other r).

(** ** Alive messages *)

(** The checks on the message alone: its version vector and the delegate. *)
Definition aliveAcceptable m (a : Alive) (bootstrap : bool) : bool :=
  let '(vsn, vsnOK) := parseVsn (Alive_Vsn a) in
  let hasVsn := len (slice_bytes (Alive_Vsn a)) >? 0 in
  if hasLeft m && String.eqb (Alive_Node a) (c_Name cfg) then false
  else if negb vsnOK then false
  else if hasVsn && ((v_pmin vsn =? 0) || (v_pmax vsn =? 0) || (v_pmin vsn >? v_pmax vsn)) then false
  else
    match c_Alive cfg with
    | Some notifyAlive =>
        if bootstrap then true
        else if negb hasVsn then false
        else notifyAlive (setVersions (newNode (Alive_Node a) (Alive_Addr a) (Alive_Port a) (Alive_Meta a) StateAlive) vsn)
    | None => true
    end.

(** A node never seen before: dead until the message is applied, and at a
    random place of the list. *)
Definition addNode m (a : Alive) : Memberlist * Z :=
  let t := m_table m in
  let '(vsn, _) := parseVsn (Alive_Vsn a) in
  let hasVsn := len (slice_bytes (Alive_Vsn a)) >? 0 in
  let node := newNode (Alive_Node a) (Alive_Addr a) (Alive_Port a) (Alive_Meta a) StateDead in
  let node := if hasVsn then setVersions node vsn else node in
  let l := t_next t in
  let n := len (t_nodes t) in
  let '(offset, g) := randomOffset n (m_rng m) in
  let nodes := swap (Z.to_nat offset) (Z.to_nat n) (t_nodes t ++ [l]) in
  let t := Table (<[l := MkNodeState node 0 zeroTime]> (t_heap t)) (l + 1) nodes
             (<[Alive_Node a := l]> (t_nodeMap t)) (u32 (t_numNodes t + 1)) in
  (set_rng (set_table m t) g, l).

(** Find or create the node a message is about: [inl] is an early return,
    [inr] has the pointer and [updatesNode]. *)
Definition aliveNodeState m (a : Alive) (now : Z) : Memberlist + (Memberlist * Z * bool) :=
  match nodeAt m (Alive_Node a) with
  | None =>
      if negb (IPAllowed (c_CIDRsAllowed cfg) (slice_bytes (Alive_Addr a))) then inl m
      else let '(m, l) := addNode m a in inr (m, l, false)
  | Some l =>
      let state := stateAt m l in
      let n := st_Node state in
      if negb (IPEqual (slice_bytes (n_Addr n)) (slice_bytes (Alive_Addr a))) || negb (n_Port n =? Alive_Port a) then
        if negb (IPAllowed (c_CIDRsAllowed cfg) (slice_bytes (Alive_Addr a))) then inl m
        else
          let canReclaim := (c_DeadNodeReclaimTime cfg >? 0) &&
                            (Since now (st_StateChange state) >? c_DeadNodeReclaimTime cfg) in
          if bool_decide (n_State n = StateLeft) || (bool_decide (n_State n = StateDead) && canReclaim)
          then inr (m, l, true)
          else if c_Conflict cfg then
            inl (enqueueEvent m eventConflict n
                   (Some (newNode (Alive_Node a) (Alive_Addr a) (Alive_Port a) (Alive_Meta a) StateAlive)) None)
          else inl m
      else inr (m, l, false)
  end.

(** The node as an accepted message leaves it. *)
Definition aliveUpdate (state : nodeState) (a : Alive) (now : Z) : nodeState :=
  let '(vsn, _) := parseVsn (Alive_Vsn a) in
  let hasVsn := len (slice_bytes (Alive_Vsn a)) >? 0 in
  let n := if hasVsn then setVersions (st_Node state) vsn else st_Node state in
  let n := MkNode (n_Name n) (Alive_Addr a) (Alive_Port a) (Alive_Meta a) (n_State n)
             (n_PMin n) (n_PMax n) (n_PCur n) (n_DMin n) (n_DMax n) (n_DCur n) in
  let state := MkNodeState n (Alive_Incarnation a) (st_StateChange state) in
  if negb (bool_decide (st_State state = StateAlive)) then set_State state StateAlive now else state.

(** [bytes.Equal] *)
Definition sliceEqual (p q : slice) : bool := bool_decide (slice_bytes p = slice_bytes q).

(** From the incarnation checks on. *)
Definition aliveApply m (a : Alive) (l : Z) (updatesNode : bool) (notify : option Z) (bootstrap : bool)
    (receipt : option Z) (now : Z) : option Memberlist :=
  let state := stateAt m l in
  let isLocalNode := String.eqb (st_Name state) (c_Name cfg) in
  if (Alive_Incarnation a <=? st_Incarnation state) && negb isLocalNode && negb updatesNode then Some m
  else if (Alive_Incarnation a <? st_Incarnation state) && isLocalNode then Some m
  else
    let m := set_timers m (clearTimer (m_timers m) (Alive_Node a)) in
    let oldState := st_State state in
    let oldMeta := n_Meta (st_Node state) in
    let '(vsn, _) := parseVsn (Alive_Vsn a) in
    let hasVsn := len (slice_bytes (Alive_Vsn a)) >? 0 in
    let notifyEvents m :=
      if c_Events cfg then
        if bool_decide (oldState = StateDead) || bool_decide (oldState = StateLeft) then
          enqueueEvent m eventJoin (st_Node (stateAt m l)) None receipt
        else if negb (sliceEqual oldMeta (n_Meta (st_Node (stateAt m l)))) then
          enqueueEvent m eventUpdate (st_Node (stateAt m l)) None receipt
        else m
      else m in
    if negb bootstrap && isLocalNode then
      if (Alive_Incarnation a =? st_Incarnation state) &&
         sliceEqual (Alive_Meta a) (n_Meta (st_Node state)) &&
         hasVsn && bool_decide (vsn = versions (st_Node state))
      then Some m
      else
        m ← refute m l (Alive_Incarnation a);
        Some (notifyEvents m)
    else
      m ← encodeBroadcastNotify m (Alive_Node a) aliveMsg (MAlive a) notify;
      Some (notifyEvents (putState m l (aliveUpdate state a now))).

Definition aliveNodeLocked m (a : Alive) (notify : option Z) (bootstrap : bool) (receipt : option Z) (now : Z)
    : option Memberlist :=
  if negb (aliveAcceptable m a bootstrap) then Some m
  else
    match aliveNodeState m a now with
    | inl m => Some m
    | inr (m, l, updatesNode) => aliveApply m a l updatesNode notify bootstrap receipt now
    end.

Definition aliveNode m (a : Alive) (bootstrap : bool) (now : Z) : option Memberlist :=
  if hasShutdown m then Some m else aliveNodeLocked m a None bootstrap None now.

(** ** Dead messages *)

(** [leaveBroadcast], the channel of the leave message's broadcast. *)
Definition leaveBroadcast : Z := 0.

Definition deadNodeLocked m (d : Dead) (receipt : option Z) (now : Z) : option Memberlist :=
  match nodeAt m (Dead_Node d) with
  | None => Some m
  | Some l =>
      let state := stateAt m l in
      if Dead_Incarnation d <? st_Incarnation state then Some m
      else
        let m := set_timers m (clearTimer (m_timers m) (Dead_Node d)) in
        if DeadOrLeft state then Some m
        else if String.eqb (st_Name state) (c_Name cfg) && negb (hasLeft m) then refute m l (Dead_Incarnation d)
        else
          m ← (if String.eqb (st_Name state) (c_Name cfg) then
                 encodeBroadcastNotify m (Dead_Node d) deadMsg (MDead d) (Some leaveBroadcast)
               else encodeAndBroadcast m (Dead_Node d) deadMsg (MDead d));
          let state := set_State (set_Incarnation state (Dead_Incarnation d))
                         (if String.eqb (Dead_Node d) (Dead_From d) then StateLeft else StateDead) now in
          let m := putState m l state in
          Some (if c_Events cfg then enqueueEvent m eventLeave (st_Node state) None receipt else m)
  end.

Definition deadNode m (d : Dead) (now : Z) : option Memberlist :=
  if hasShutdown m then Some m else deadNodeLocked m d None now.

(** ** Suspect messages *)

(** Confirm the timer [id]; the answer says whether the accuser was new. *)
Definition confirmTimer m (id : Z) (from : string) (now : Z) : Memberlist * bool :=
  let tt := m_timers m in
  match tt_heap tt !! id with
  | None => (m, false)
  | Some p =>
      let '(s, ok, fire) := Confirm now (p_susp p) from in
      (set_timers m
         (Timers (<[id := PendingTimer s (p_node p) (p_changeTime p) (p_k p)]> (tt_heap tt)) (tt_next tt)
            (tt_nodeTimers tt) (if fire then tt_firing tt ++ [id] else tt_firing tt)), ok)
  end.

(** [m.nodeTimers[name] = newSuspicion(...)] *)
Definition startTimer m (name from : string) (now : Z) : Memberlist :=
  let tt := m_timers m in
  let n := estNumNodes m in
  let k := c_SuspicionMult cfg - 2 in
  let k := if n - 2 <? k then 0 else k in
  let min := suspicionTimeout (c_SuspicionMult cfg) n (c_ProbeInterval cfg) in
  let max := i64 (c_SuspicionMaxTimeoutMult cfg * min) in
  let id := tt_next tt in
  set_timers m
    (Timers (<[id := PendingTimer (newSuspicion now from k min max) name now k]> (tt_heap tt)) (id + 1)
       (<[name := id]> (tt_nodeTimers tt)) (tt_firing tt)).

Definition suspectNode m (s : Suspect) (now : Z) : option Memberlist :=
  if hasShutdown m then Some m
  else
    match nodeAt m (Suspect_Node s) with
    | None => Some m
    | Some l =>
        let state := stateAt m l in
        if Suspect_Incarnation s <? st_Incarnation state then Some m
        else
          match tt_nodeTimers (m_timers m) !! Suspect_Node s with
          | Some id =>
              let '(m, ok) := confirmTimer m id (Suspect_From s) now in
              if ok then encodeAndBroadcast m (Suspect_Node s) suspectMsg (MSuspect s) else Some m
          | None =>
              if negb (bool_decide (st_State state = StateAlive)) then Some m
              else if String.eqb (st_Name state) (c_Name cfg) then refute m l (Suspect_Incarnation s)
              else
                m ← encodeAndBroadcast m (Suspect_Node s) suspectMsg (MSuspect s);
                let m := putState m l (set_State (set_Incarnation state (Suspect_Incarnation s)) StateSuspect now) in
                Some (startTimer m (Suspect_Node s) (Suspect_From s) now)
          end
    end.

(** The callback of a suspicion timer, run as its own critical section. *)
Definition timerCallback m (p : pendingTimer) (now : Z) : option Memberlist :=
  if hasShutdown m then Some m
  else
    match nodeAt m (p_node p) with
    | None => Some m
    | Some l =>
        let state := stateAt m l in
        if bool_decide (st_State state = StateSuspect) && (st_StateChange state =? p_changeTime p) then
          deadNodeLocked m (MkDead (st_Incarnation state) (st_Name state) (c_Name cfg)) None now
        else Some m
    end.

(** The timer [id] expires: its callback is started. *)
Definition expireTimer m (id : Z) : Memberlist :=
  let tt := m_timers m in
  match tt_heap tt !! id with
  | None => m
  | Some p =>
      let s := p_susp p in
      let s := Suspicion (s_n s) (s_k s) (s_min s) (s_max s) (s_start s) None (s_confirmations s) in
      set_timers m
        (Timers (<[id := PendingTimer s (p_node p) (p_changeTime p) (p_k p)]> (tt_heap tt)) (tt_next tt)
           (tt_nodeTimers tt) (tt_firing tt ++ [id]))
  end.

(** One of the callbacks started takes the lock, the [i]th of them: each runs
    in a goroutine of its own. *)
Definition runCallback m (i : nat) (now : Z) : option Memberlist :=
  let tt := m_timers m in
  match tt_firing tt !! i with
  | None => Some m
  | Some id =>
      let m := set_timers m (Timers (tt_heap tt) (tt_next tt) (tt_nodeTimers tt) (delete i (tt_firing tt))) in
      match tt_heap tt !! id with
      | None => Some m
      | Some p => timerCallback m p now
      end
  end.

(** ** Push/pull merging *)

Definition mergeNode m (r : PushNodeState) (now : Z) : option Memberlist :=
  match toNodeStateType (PNS_State r) with
  | Some StateAlive =>
      aliveNode m (MkAlive (PNS_Incarnation r) (PNS_Name r) (PNS_Addr r) (PNS_Port r) (PNS_Meta r) (PNS_Vsn r)) false now
  | Some StateLeft => deadNode m (MkDead (PNS_Incarnation r) (PNS_Name r) (PNS_Name r)) now
  | Some StateDead | Some StateSuspect =>
      suspectNode m (MkSuspect (PNS_Incarnation r) (PNS_Name r) (c_Name cfg)) now
  | None => Some m
  end.

Fixpoint mergeState m (remote : list PushNodeState) (now : Z) : option Memberlist :=
  match remote with
  | [] => Some m
  | r :: remote => m ← mergeNode m r now; mergeState m remote now
  end.

(** ** Reaping *)

Definition resetNodes m (now : Z) : option Memberlist :=
  let t := m_table m in
  '(nodes, deadIdx) ← moveDeadNodes (deref t) now (c_GossipToTheDeadTime cfg) (t_nodes t);
  let nodeMap := fold_left (fun nm l => delete (st_Name (deref t l)) nm) (drop deadIdx nodes) (t_nodeMap t) in
  let '(live, g) := shuffleNodes (take deadIdx nodes) (m_rng m) in
  Some (set_rng (set_table m (Table (t_heap t) (t_next t) live nodeMap (u32 (Z.of_nat deadIdx)))) g).

(** ** Queries ([src/memberlist.go]) *)

Definition Members m : list Node :=
  map st_Node (List.filter (fun s => negb (DeadOrLeft s)) (map (stateAt m) (t_nodes (m_table m)))).

Definition NumMembers m : Z :=
  len (List.filter (fun s => negb (DeadOrLeft s)) (map (stateAt m) (t_nodes (m_table m)))).

Definition anyAliveLocked m : bool :=
  existsb (fun s => negb (DeadOrLeft s) && negb (String.eqb (st_Name s) (c_Name cfg)))
    (map (stateAt m) (t_nodes (m_table m))).

(** [LocalNode] dereferences nil before the local node is known. *)
Definition LocalNode m : option Node :=
  l ← nodeAt m (c_Name cfg); Some (st_Node (stateAt m l)).
End State.

(** ** Specification *)

(** The node table as the map it stands for. *)
Definition nodeEntries (t : nodeTable) : gmap string nodeState := deref t <$> t_nodeMap t.

(** The list, the map and the heap agree: the same nodes, each once, under
    their own names. *)
Record table_ok (t : nodeTable) : Prop := {
  to_nodup : NoDup (t_nodes t);
  to_map : forall name l, t_nodeMap t !! name = Some l <->
    l ∈ t_nodes t /\ exists s, t_heap t !! l = Some s /\ st_Name s = name;
  to_listed : forall l, l ∈ t_nodes t -> is_Some (t_heap t !! l);
  to_alloc : forall l s, t_heap t !! l = Some s -> l < t_next t;
  to_num : t_numNodes t = u32 (len (t_nodes t));
}.

(** The timers of the names in [P]: a registered timer is the one of the
    node's current suspicion, and every suspected node has one that is armed
    or whose callback is on its way. After shutdown timers are stopped. *)
Record timers_for (P : string -> Prop) (ms : gmap string nodeState) (tt : timerTable) (down : bool) : Prop := {
  tk_alloc : forall id p, tt_heap tt !! id = Some p -> id < tt_next tt;
  tk_named : forall name id, tt_nodeTimers tt !! name = Some id -> P name ->
    exists p s, tt_heap tt !! id = Some p /\ p_node p = name /\ ms !! name = Some s /\
      st_State s = StateSuspect /\ st_StateChange s = p_changeTime p /\
      (down = true \/ s_timer (p_susp p) <> None \/ id ∈ tt_firing tt);
  tk_owner : forall name id, tt_nodeTimers tt !! name = Some id ->
    exists p, tt_heap tt !! id = Some p /\ p_node p = name;
  tk_suspects : forall name s, ms !! name = Some s -> st_State s = StateSuspect -> P name -> down = false ->
    is_Some (tt_nodeTimers tt !! name);
}.

Definition timers_ok := timers_for (fun _ => True).

Section Spec.
Context {G : Type} {RG : Rand G} {ML : MathLog} (cfg : Config).
Implicit Types m : Memberlist (G := G).

Definition members m : gmap string nodeState := nodeEntries (m_table m).

Record state_ok m : Prop := {
  so_table : table_ok (m_table m);
  so_timers : timers_ok (members m) (m_timers m) (m_shutdown m);
  so_local : forall s, members m !! c_Name cfg = Some s -> st_State s <> StateSuspect;
  so_queue : queue_ok (m_broadcasts m);
}.

(** The broadcast queue numbers its entries with an [int64]; [n] more fit. *)
Definition room (n : Z) m : Prop := q_idGen (m_broadcasts m) + n <= MaxInt64.

(** What a broadcast leaves queued. *)
Definition queued m (node : string) (msgType : Z) (msg : message) (notify : option Z) : Prop :=
  exists k, (k, MemberlistBroadcast node (encode msgType msg) notify) ∈ contents (m_broadcasts m).

(** A broadcast and nothing else. *)
Definition broadcasts m (node : string) (msgType : Z) (msg : message) (notify : option Z) m' : Prop :=
  exists q f g, m' = set_queue m q f g /\ queue_ok q /\ q_idGen q = q_idGen (m_broadcasts m) + 1 /\
    queued m' node msgType msg notify.
End Spec.

(** ** Lemmas: the node table *)

Lemma deref_lookup t l s : t_heap t !! l = Some s -> deref t l = s.
Proof. unfold deref. by intros ->. Qed.

Lemma table_name t name l :
  table_ok t -> t_nodeMap t !! name = Some l ->
  l ∈ t_nodes t /\ t_heap t !! l = Some (deref t l) /\ st_Name (deref t l) = name.
Proof. intros Ht (Hl & s & Hs & Hn)%(to_map _ Ht). by rewrite (deref_lookup _ _ _ Hs). Qed.

Lemma nodeEntries_lookup t name : nodeEntries t !! name = deref t <$> (t_nodeMap t !! name).
Proof. apply lookup_fmap. Qed.

Lemma entry_name t name s : table_ok t -> nodeEntries t !! name = Some s -> st_Name s = name.
Proof.
  rewrite nodeEntries_lookup. intros Ht. destruct (t_nodeMap t !! name) as [l|] eqn:E; [|done].
  intros [= <-]. by apply table_name.
Qed.

(** Two names never share a location. *)
Lemma table_inj t n1 n2 l : table_ok t -> t_nodeMap t !! n1 = Some l -> t_nodeMap t !! n2 = Some l -> n1 = n2.
Proof. intros Ht (_ & _ & <-)%table_name (_ & _ & <-)%table_name; done. Qed.

Lemma setNode_ok t name l s :
  table_ok t -> t_nodeMap t !! name = Some l -> st_Name s = name -> table_ok (setNode t l s).
Proof.
  intros Ht Hl Hs. destruct (table_name t name l Ht Hl) as (Hin & Hheap & Hname).
  destruct Ht as [H1 H2 H3 H4 H5]. constructor; cbn; try done.
  - intros name' l'. rewrite H2. split; intros (Hin' & s' & Hs' & Hn'); (split; [done|]).
    + destruct (decide (l = l')) as [<-|Hne].
      * exists s. rewrite lookup_insert_eq. split; [done|]. congruence.
      * exists s'. by rewrite lookup_insert_ne.
    + destruct (decide (l = l')) as [<-|Hne].
      * rewrite lookup_insert_eq in Hs'. simplify_eq. eauto.
      * rewrite lookup_insert_ne in Hs' by done. eauto.
  - intros l' Hl'. destruct (decide (l = l')) as [<-|Hne]; [by rewrite lookup_insert_eq|].
    rewrite lookup_insert_ne by done. by apply H3.
  - intros l' s'. destruct (decide (l = l')) as [<-|Hne]; [intros _; by eapply H4|].
    rewrite lookup_insert_ne by done. apply H4.
Qed.

Lemma deref_setNode t l s l' : deref (setNode t l s) l' = if decide (l = l') then s else deref t l'.
Proof.
  unfold deref. cbn. destruct (decide (l = l')) as [<-|Hne]; [by rewrite lookup_insert_eq|].
  by rewrite lookup_insert_ne.
Qed.

Lemma nodeEntries_setNode t name l s :
  table_ok t -> t_nodeMap t !! name = Some l -> st_Name s = name ->
  nodeEntries (setNode t l s) = <[name := s]> (nodeEntries t).
Proof.
  intros Ht Hl Hs. apply map_eq. intros name'. rewrite nodeEntries_lookup. cbn.
  destruct (decide (name = name')) as [<-|Hne].
  - rewrite lookup_insert_eq, Hl. cbn. by rewrite deref_setNode, decide_True.
  - rewrite lookup_insert_ne, nodeEntries_lookup by done. destruct (t_nodeMap t !! name') as [l'|] eqn:E; [|done].
    cbn. rewrite deref_setNode, decide_False; [done|]. intros <-. apply Hne. by eapply table_inj.
Qed.

(** ** Lemmas: suspicion timers *)

Lemma timers_for_weaken (P Q : string -> Prop) ms tt down :
  (forall name, Q name -> P name) -> timers_for P ms tt down -> timers_for Q ms tt down.
Proof. intros HQ [H1 H2 H3 H4]. constructor; eauto. Qed.

(** A node that is not suspected any more, its timer dropped. *)
Lemma timers_clear name s ms tt down :
  timers_for (fun n => n <> name) ms tt down -> st_State s <> StateSuspect ->
  timers_ok (<[name := s]> ms) (clearTimer tt name) down.
Proof.
  intros [H1 H2 H3 H4] Hs. constructor; cbn; try done.
  - intros n id. rewrite lookup_delete_Some. intros [Hne Hn] _. rewrite lookup_insert_ne by done. by apply H2.
  - intros n id. rewrite lookup_delete_Some. intros [Hne Hn]. by apply H3.
  - intros n s'. destruct (decide (name = n)) as [<-|Hne].
    + rewrite lookup_insert_eq. intros [= <-]. done.
    + rewrite lookup_insert_ne, lookup_delete_ne by done. intros. by eapply H4.
Qed.

(** A node whose status does not change. *)
Lemma timers_same name s s' ms tt down :
  timers_ok ms tt down -> ms !! name = Some s -> st_State s' = st_State s ->
  st_StateChange s' = st_StateChange s -> timers_ok (<[name := s']> ms) tt down.
Proof.
  intros [H1 H2 H3 H4] Hs Hst Hch. constructor; try done.
  - intros n id Hid _. destruct (H2 n id Hid I) as (p & s0 & ? & ? & Hs0 & ? & ? & ?).
    destruct (decide (name = n)) as [<-|Hne].
    + exists p, s'. rewrite lookup_insert_eq. simplify_eq. split_and!; congruence.
    + exists p, s0. by rewrite lookup_insert_ne.
  - intros n s0. destruct (decide (name = n)) as [<-|Hne].
    + rewrite lookup_insert_eq. intros [= <-] ? _ ?. eapply H4; [done|congruence|done|done].
    + rewrite lookup_insert_ne by done. intros. by eapply H4.
Qed.

(** A node that is new and not suspected. *)
Lemma timers_new name s ms tt down :
  timers_ok ms tt down -> ms !! name = None -> st_State s <> StateSuspect -> timers_ok (<[name := s]> ms) tt down.
Proof.
  intros [H1 H2 H3 H4] Hn Hs. constructor; try done.
  - intros n id Hid _. destruct (H2 n id Hid I) as (p & s0 & ? & ? & Hs0 & ?). exists p, s0.
    rewrite lookup_insert_ne; [done|]. congruence.
  - intros n s0. destruct (decide (name = n)) as [<-|Hne]; [rewrite lookup_insert_eq; by intros [= <-]|].
    rewrite lookup_insert_ne by done. intros. by eapply H4.
Qed.

(** Only the suspicion behind a timer changes. *)
Lemma timers_update P ms tt down id p s firing :
  timers_for P ms tt down -> tt_heap tt !! id = Some p ->
  (s_timer s <> None \/ s_timer (p_susp p) = None \/ id ∈ firing) -> (forall i, i ∈ tt_firing tt -> i ∈ firing) ->
  timers_for P ms (Timers (<[id := PendingTimer s (p_node p) (p_changeTime p) (p_k p)]> (tt_heap tt)) (tt_next tt)
    (tt_nodeTimers tt) firing) down.
Proof.
  intros [H1 H2 H3 H4] Hp Hs Hf. constructor; cbn; try done.
  - intros id' p'. destruct (decide (id = id')) as [<-|Hne]; [intros _; by eapply H1|].
    rewrite lookup_insert_ne by done. apply H1.
  - intros n id' Hid HP. destruct (H2 n id' Hid HP) as (p' & s' & Hp' & ? & ? & ? & ? & Hd).
    destruct (decide (id = id')) as [<-|Hne].
    + simplify_eq. eexists _, s'. rewrite lookup_insert_eq. split; [done|]. cbn. split_and!; try done.
      destruct Hd as [?|[Hd|Hd]]; [by left| |right; right; by apply Hf].
      destruct Hs as [?|[?|?]]; [right; by left|done|right; by right].
    + exists p', s'. rewrite lookup_insert_ne by done. split_and!; try done.
      destruct Hd as [?|[?|?]]; [by left|right; by left|right; right; by apply Hf].
  - intros n id' Hid. destruct (H3 n id' Hid) as (p' & Hp' & Hn).
    destruct (decide (id = id')) as [<-|Hne].
    + simplify_eq. eexists. by rewrite lookup_insert_eq.
    + exists p'. by rewrite lookup_insert_ne.
Qed.

(** A node that becomes suspected, with a new timer. *)
Lemma timers_start name s p ms tt down :
  timers_ok ms tt down -> st_State s = StateSuspect -> p_node p = name -> p_changeTime p = st_StateChange s ->
  s_timer (p_susp p) <> None ->
  timers_ok (<[name := s]> ms)
    (Timers (<[tt_next tt := p]> (tt_heap tt)) (tt_next tt + 1) (<[name := tt_next tt]> (tt_nodeTimers tt))
       (tt_firing tt)) down.
Proof.
  intros [H1 H2 H3 H4] Hs Hn Hc Ht.
  assert (Hfresh : forall id p0, tt_heap tt !! id = Some p0 -> tt_next tt <> id) by (intros id p0 Hp; specialize (H1 _ _ Hp); lia).
  constructor; cbn.
  - intros id p'. destruct (decide (tt_next tt = id)) as [<-|Hne]; [lia|].
    rewrite lookup_insert_ne by done. intros Hp%H1. lia.
  - intros n id. destruct (decide (name = n)) as [<-|Hne].
    + rewrite lookup_insert_eq. intros [= <-] _. exists p, s. rewrite !lookup_insert_eq.
      split_and!; try done. right. by left.
    + rewrite lookup_insert_ne by done. intros Hid _. destruct (H2 n id Hid I) as (p' & s' & Hp' & ? & ? & ?).
      exists p', s'. rewrite !lookup_insert_ne; [done|done|by eapply Hfresh].
  - intros n id. destruct (decide (name = n)) as [<-|Hne].
    + rewrite lookup_insert_eq. intros [= <-]. exists p. by rewrite lookup_insert_eq.
    + rewrite lookup_insert_ne by done. intros Hid. destruct (H3 n id Hid) as (p' & Hp' & ?).
      exists p'. rewrite lookup_insert_ne; [done|by eapply Hfresh].
  - intros n s'. destruct (decide (name = n)) as [<-|Hne]; [rewrite !lookup_insert_eq; eauto|].
    rewrite !lookup_insert_ne by done. intros. by eapply H4.
Qed.

(** ** What each handler can do

    One constructor for each way a critical section ends, with its
    conditions and its effect. *)

Section Outcomes.
Context {G : Type} {RG : Rand G} {ML : MathLog} (cfg : Config).
Implicit Types m : Memberlist (G := G).

(** The incarnation number [refute] chooses. *)
Definition refutedInc (current accused : Z) : Z :=
  let inc := u32 (current + 1) in
  if accused >=? inc then u32 (inc + u32 (accused - inc + 1)) else inc.

Definition refuted m (l accused : Z) m' : Prop :=
  let inc := refutedInc (m_incarnation m) accused in
  let n := st_Node (stateAt m l) in
  broadcasts
    (set_awareness (putState (set_incarnation m inc) l (set_Incarnation (stateAt m l) inc))
       (ApplyDelta (m_awareness m) 1))
    (b2str (ipString (slice_bytes (n_Addr n)))) aliveMsg (MAlive (aliveOf n inc)) None m'.

Definition withEvent m (kind : eventKind) (n : Node) (r : option Z) : Memberlist :=
  if c_Events cfg then enqueueEvent m kind n None r else m.

Definition withoutTimer m (name : string) : Memberlist := set_timers m (clearTimer (m_timers m) name).

(** The node a dead message leaves. *)
Definition deadUpdate (s : nodeState) (d : Dead) (now : Z) : nodeState :=
  set_State (set_Incarnation s (Dead_Incarnation d))
    (if String.eqb (Dead_Node d) (Dead_From d) then StateLeft else StateDead) now.

Inductive dead_outcome m (d : Dead) (r : option Z) (now : Z) : Memberlist -> Prop :=
| dead_unknown :
    members m !! Dead_Node d = None -> dead_outcome m d r now m
| dead_stale s :
    members m !! Dead_Node d = Some s -> Dead_Incarnation d < st_Incarnation s -> dead_outcome m d r now m
| dead_already s :
    members m !! Dead_Node d = Some s -> st_Incarnation s <= Dead_Incarnation d -> DeadOrLeft s = true ->
    dead_outcome m d r now (withoutTimer m (Dead_Node d))
| dead_refuted l m' :
    nodeAt m (Dead_Node d) = Some l -> st_Incarnation (stateAt m l) <= Dead_Incarnation d ->
    DeadOrLeft (stateAt m l) = false -> Dead_Node d = c_Name cfg -> m_leave m = false ->
    refuted (withoutTimer m (Dead_Node d)) l (Dead_Incarnation d) m' ->
    dead_outcome m d r now m'
| dead_died l m1 :
    nodeAt m (Dead_Node d) = Some l -> st_Incarnation (stateAt m l) <= Dead_Incarnation d ->
    DeadOrLeft (stateAt m l) = false -> (Dead_Node d = c_Name cfg -> m_leave m = true) ->
    broadcasts (withoutTimer m (Dead_Node d)) (Dead_Node d) deadMsg (MDead d)
      (if String.eqb (Dead_Node d) (c_Name cfg) then Some leaveBroadcast else None) m1 ->
    dead_outcome m d r now
      (withEvent (putState m1 l (deadUpdate (stateAt m l) d now)) eventLeave
         (st_Node (deadUpdate (stateAt m l) d now)) r).

(** The node an alive message is about, and whether its address may change:
    known, or new, or [None] when the message is turned down. *)
Definition freshNode (a : Alive) : nodeState :=
  let n := newNode (Alive_Node a) (Alive_Addr a) (Alive_Port a) (Alive_Meta a) StateDead in
  MkNodeState (if len (slice_bytes (Alive_Vsn a)) >? 0 then setVersions n (parseVsn (Alive_Vsn a)).1 else n) 0 zeroTime.

Definition sameAddress (n : Node) (a : Alive) : bool :=
  IPEqual (slice_bytes (n_Addr n)) (slice_bytes (Alive_Addr a)) && (n_Port n =? Alive_Port a).

Definition reclaimable (s : nodeState) (now : Z) : bool :=
  bool_decide (st_State s = StateLeft) ||
  bool_decide (st_State s = StateDead) && ((c_DeadNodeReclaimTime cfg >? 0) &&
    (Since now (st_StateChange s) >? c_DeadNodeReclaimTime cfg)).

Definition aliveTarget (o : option nodeState) (a : Alive) (now : Z) : option (nodeState * bool) :=
  match o with
  | None => if IPAllowed (c_CIDRsAllowed cfg) (slice_bytes (Alive_Addr a)) then Some (freshNode a, false) else None
  | Some s =>
      if sameAddress (st_Node s) a then Some (s, false)
      else if IPAllowed (c_CIDRsAllowed cfg) (slice_bytes (Alive_Addr a)) && reclaimable s now then Some (s, true)
      else None
  end.

(** [m1] is [m] with the node of the message in the table. *)
Record targeted m (a : Alive) (s : nodeState) (l : Z) m1 : Prop := {
  ta_ok : state_ok cfg m1;
  ta_at : nodeAt m1 (Alive_Node a) = Some l;
  ta_state : stateAt m1 l = s;
  ta_members : members m1 = <[Alive_Node a := s]> (members m);
  ta_name : st_Name s = Alive_Node a;
  ta_rest : m1 = set_rng (set_table m (m_table m1)) (m_rng m1);
}.

(** Whether the message is news about the node. *)
Definition isNews (s : nodeState) (a : Alive) (updates : bool) : bool :=
  if String.eqb (Alive_Node a) (c_Name cfg) then st_Incarnation s <=? Alive_Incarnation a
  else (st_Incarnation s <? Alive_Incarnation a) || updates.

(** A message about the local node that says what the node says itself. *)
Definition sameAsLocal (s : nodeState) (a : Alive) : bool :=
  (Alive_Incarnation a =? st_Incarnation s) && sliceEqual (Alive_Meta a) (n_Meta (st_Node s)) &&
  (len (slice_bytes (Alive_Vsn a)) >? 0) && bool_decide ((parseVsn (Alive_Vsn a)).1 = versions (st_Node s)).

Definition aliveEvent m (s s' : nodeState) (r : option Z) : Memberlist :=
  if DeadOrLeft s then withEvent m eventJoin (st_Node s') r
  else if negb (sliceEqual (n_Meta (st_Node s)) (n_Meta (st_Node s'))) then withEvent m eventUpdate (st_Node s') r
  else m.

Inductive alive_outcome m (a : Alive) (notify : option Z) (bootstrap : bool) (r : option Z) (now : Z)
    : Memberlist -> Prop :=
| alive_unacceptable :
    aliveAcceptable cfg m a bootstrap = false -> alive_outcome m a notify bootstrap r now m
| alive_rejected :
    aliveAcceptable cfg m a bootstrap = true -> aliveTarget (members m !! Alive_Node a) a now = None ->
    alive_outcome m a notify bootstrap r now m
| alive_conflict s :
    aliveAcceptable cfg m a bootstrap = true -> aliveTarget (members m !! Alive_Node a) a now = None ->
    members m !! Alive_Node a = Some s -> c_Conflict cfg = true ->
    alive_outcome m a notify bootstrap r now
      (enqueueEvent m eventConflict (st_Node s)
         (Some (newNode (Alive_Node a) (Alive_Addr a) (Alive_Port a) (Alive_Meta a) StateAlive)) None)
| alive_old s updates l m1 :
    aliveAcceptable cfg m a bootstrap = true ->
    aliveTarget (members m !! Alive_Node a) a now = Some (s, updates) -> targeted m a s l m1 ->
    isNews s a updates = false -> alive_outcome m a notify bootstrap r now m1
| alive_same s updates l m1 :
    aliveAcceptable cfg m a bootstrap = true ->
    aliveTarget (members m !! Alive_Node a) a now = Some (s, updates) -> targeted m a s l m1 ->
    isNews s a updates = true -> bootstrap = false -> Alive_Node a = c_Name cfg -> sameAsLocal s a = true ->
    alive_outcome m a notify bootstrap r now (withoutTimer m1 (Alive_Node a))
| alive_refuted s updates l m1 m2 :
    aliveAcceptable cfg m a bootstrap = true ->
    aliveTarget (members m !! Alive_Node a) a now = Some (s, updates) -> targeted m a s l m1 ->
    isNews s a updates = true -> bootstrap = false -> Alive_Node a = c_Name cfg -> sameAsLocal s a = false ->
    refuted (withoutTimer m1 (Alive_Node a)) l (Alive_Incarnation a) m2 ->
    alive_outcome m a notify bootstrap r now (aliveEvent m2 s (stateAt m2 l) r)
| alive_updated s updates l m1 m2 :
    aliveAcceptable cfg m a bootstrap = true ->
    aliveTarget (members m !! Alive_Node a) a now = Some (s, updates) -> targeted m a s l m1 ->
    isNews s a updates = true -> (bootstrap = true \/ Alive_Node a <> c_Name cfg) ->
    broadcasts (withoutTimer m1 (Alive_Node a)) (Alive_Node a) aliveMsg (MAlive a) notify m2 ->
    alive_outcome m a notify bootstrap r now
      (aliveEvent (putState m2 l (aliveUpdate s a now)) s (aliveUpdate s a now) r).

(** The node a suspect message leaves. *)
Definition suspectUpdate (s : nodeState) (x : Suspect) (now : Z) : nodeState :=
  set_State (set_Incarnation s (Suspect_Incarnation x)) StateSuspect now.

Inductive suspect_outcome m (x : Suspect) (now : Z) : Memberlist -> Prop :=
| suspect_down : m_shutdown m = true -> suspect_outcome m x now m
| suspect_unknown :
    m_shutdown m = false -> members m !! Suspect_Node x = None -> suspect_outcome m x now m
| suspect_stale s :
    m_shutdown m = false -> members m !! Suspect_Node x = Some s ->
    Suspect_Incarnation x < st_Incarnation s -> suspect_outcome m x now m
| suspect_confirmed s id m1 ok m2 :
    m_shutdown m = false -> members m !! Suspect_Node x = Some s ->
    st_Incarnation s <= Suspect_Incarnation x -> tt_nodeTimers (m_timers m) !! Suspect_Node x = Some id ->
    st_State s = StateSuspect -> confirmTimer m id (Suspect_From x) now = (m1, ok) ->
    (if ok then broadcasts m1 (Suspect_Node x) suspectMsg (MSuspect x) None m2 else m2 = m1) ->
    suspect_outcome m x now m2
| suspect_notalive s :
    m_shutdown m = false -> members m !! Suspect_Node x = Some s ->
    st_Incarnation s <= Suspect_Incarnation x -> DeadOrLeft s = true -> suspect_outcome m x now m
| suspect_refuted l m' :
    m_shutdown m = false -> nodeAt m (Suspect_Node x) = Some l ->
    st_Incarnation (stateAt m l) <= Suspect_Incarnation x -> st_State (stateAt m l) = StateAlive ->
    Suspect_Node x = c_Name cfg -> refuted m l (Suspect_Incarnation x) m' -> suspect_outcome m x now m'
| suspect_suspected l m1 :
    m_shutdown m = false -> nodeAt m (Suspect_Node x) = Some l ->
    st_Incarnation (stateAt m l) <= Suspect_Incarnation x -> st_State (stateAt m l) = StateAlive ->
    Suspect_Node x <> c_Name cfg ->
    broadcasts m (Suspect_Node x) suspectMsg (MSuspect x) None m1 ->
    suspect_outcome m x now
      (startTimer cfg (putState m1 l (suspectUpdate (stateAt m l) x now)) (Suspect_Node x) (Suspect_From x) now).
End Outcomes.

(** ** Lemmas: handlers and their outcomes *)

Section OutcomeLemmas.
Context {G : Type} {RG : Rand G} {RL : RandLaws G} {ML : MathLog} (cfg : Config).
Implicit Types m : Memberlist (G := G).

Lemma members_lookup m name : members m !! name = stateAt m <$> nodeAt m name.
Proof. apply nodeEntries_lookup. Qed.

Lemma member_at m name l : nodeAt m name = Some l -> members m !! name = Some (stateAt m l).
Proof. intros H. by rewrite members_lookup, H. Qed.

Lemma members_putState m name l s :
  table_ok (m_table m) -> nodeAt m name = Some l -> st_Name s = name ->
  members (putState m l s) = <[name := s]> (members m).
Proof. apply nodeEntries_setNode. Qed.

Lemma name_at m name l : table_ok (m_table m) -> nodeAt m name = Some l -> st_Name (stateAt m l) = name.
Proof. intros Ht Hl. by apply (table_name (m_table m)). Qed.

Lemma encodeBroadcastNotify_some m node t msg notify :
  queue_ok (m_broadcasts m) -> room 1 m ->
  exists m', encodeBroadcastNotify m node t msg notify = Some m' /\ broadcasts m node t msg notify m'.
Proof.
  unfold room. intros Hq Hr.
  destruct (queueBroadcast_ok mb_msg (m_rng m) (m_broadcasts m) (MemberlistBroadcast node (encode t msg) notify) 0 Hq)
    as (q & g & E & Hq' & Hid & _ & Hc); [lia|].
  unfold encodeBroadcastNotify, queueBroadcast, QueueBroadcast. rewrite E. cbn [mbind option_bind].
  eexists. split; [done|]. eexists q, _, g. split_and!; [done..|].
  eexists. cbn [m_broadcasts set_queue]. rewrite Hc. left.
Qed.

Lemma refute_some m l accused :
  queue_ok (m_broadcasts m) -> room 1 m ->
  exists m', refute m l accused = Some m' /\ refuted m l accused m'.
Proof.
  intros Hq Hr. unfold refute, refuted, refutedInc. cbn [nextIncarnation].
  set (i := u32 (m_incarnation m + 1)).
  destruct (accused >=? i) eqn:E; cbn [skipIncarnation m_incarnation set_incarnation];
    match goal with |- context [encodeAndBroadcast ?m1 ?n ?t ?x] => 
      destruct (encodeBroadcastNotify_some m1 n t x None) as (m' & E' & Hb) end; try done;
    exists m'; (split; [exact E'|]).
  all: unfold stateAt, putState in Hb |- *; cbn in Hb |- *; rewrite deref_setNode, decide_True in Hb by done; exact Hb.
Qed.

Lemma deadNodeLocked_outcome m d r now :
  table_ok (m_table m) -> queue_ok (m_broadcasts m) -> room 1 m ->
  exists m', deadNodeLocked cfg m d r now = Some m' /\ dead_outcome cfg m d r now m'.
Proof.
  intros Ht Hq Hr. unfold deadNodeLocked. destruct (nodeAt m (Dead_Node d)) as [l|] eqn:El.
  2: { exists m. split; [done|]. apply dead_unknown. by rewrite members_lookup, El. }
  pose proof (member_at m _ l El) as Hm. pose proof (name_at m _ l Ht El) as Hn.
  destruct (Z.ltb_spec (Dead_Incarnation d) (st_Incarnation (stateAt m l))) as [Hlt|Hge].
  { exists m. split; [done|]. by eapply dead_stale. }
  destruct (DeadOrLeft (stateAt m l)) eqn:Ed.
  { eexists. split; [done|]. by eapply dead_already. }
  rewrite Hn. destruct (String.eqb_spec (Dead_Node d) (c_Name cfg)) as [Eloc|Eloc]; cbn [andb].
  - unfold hasLeft. cbn [m_leave set_timers]. destruct (m_leave m) eqn:Eleft; cbn [negb].
    + destruct (encodeBroadcastNotify_some (withoutTimer m (Dead_Node d)) (Dead_Node d) deadMsg (MDead d) (Some leaveBroadcast))
        as (m1 & E1 & Hb); [done..|].
      unfold withoutTimer in E1. rewrite E1. cbn [mbind option_bind]. eexists. split; [done|].
      apply (dead_died cfg m d r now l m1 El Hge Ed); [done|].
      destruct (String.eqb_spec (Dead_Node d) (c_Name cfg)); done.
    + destruct (refute_some (withoutTimer m (Dead_Node d)) l (Dead_Incarnation d)) as (m' & E' & Hm'); [done..|].
      exists m'. split; [exact E'|]. by eapply dead_refuted.
  - destruct (encodeBroadcastNotify_some (withoutTimer m (Dead_Node d)) (Dead_Node d) deadMsg (MDead d) None)
      as (m1 & E1 & Hb); [done..|].
    unfold encodeAndBroadcast. unfold withoutTimer in E1. rewrite E1. cbn [mbind option_bind]. eexists. split; [done|].
    apply (dead_died cfg m d r now l m1 El Hge Ed); [done|].
    destruct (String.eqb_spec (Dead_Node d) (c_Name cfg)); done.
Qed.

Lemma suspectNode_outcome m x now :
  state_ok cfg m -> room 1 m ->
  exists m', suspectNode cfg m x now = Some m' /\ suspect_outcome cfg m x now m'.
Proof.
  intros Hok Hr. unfold suspectNode, hasShutdown. destruct (m_shutdown m) eqn:Edown.
  { exists m. split; [done|]. by apply suspect_down. }
  destruct (nodeAt m (Suspect_Node x)) as [l|] eqn:El.
  2: { exists m. split; [done|]. apply suspect_unknown; [done|]. by rewrite members_lookup, El. }
  pose proof (member_at m _ l El) as Hm. pose proof (name_at m _ l (so_table _ _ Hok) El) as Hn.
  destruct (Z.ltb_spec (Suspect_Incarnation x) (st_Incarnation (stateAt m l))) as [Hlt|Hge].
  { exists m. split; [done|]. by eapply suspect_stale. }
  destruct (tt_nodeTimers (m_timers m) !! Suspect_Node x) as [id|] eqn:Et.
  - destruct (tk_named _ _ _ _ (so_timers _ _ Hok) _ _ Et I) as (p & s & Hp & _ & Hs & Hst & _).
    assert (s = stateAt m l) as -> by congruence.
    destruct (confirmTimer m id (Suspect_From x) now) as [m1 ok] eqn:Ec.
    assert (Hq : queue_ok (m_broadcasts m1) /\ room 1 m1).
    { unfold confirmTimer in Ec. rewrite Hp in Ec. destruct (Confirm _ _ _) as [[s' ok'] fire].
      injection Ec as <- _. split; [apply Hok|done]. }
    destruct ok.
    + destruct (encodeBroadcastNotify_some m1 (Suspect_Node x) suspectMsg (MSuspect x) None) as (m2 & E2 & Hb); [apply Hq..|].
      exists m2. split; [exact E2|]. by eapply (suspect_confirmed cfg m x now _ id m1 true m2).
    + exists m1. split; [done|]. by eapply (suspect_confirmed cfg m x now _ id m1 false m1).
  - case_bool_decide as Ea; cbn [negb].
    + rewrite Hn. destruct (String.eqb_spec (Suspect_Node x) (c_Name cfg)) as [Eloc|Eloc].
      * destruct (refute_some m l (Suspect_Incarnation x)) as (m' & E' & Hm'); [apply Hok|done|].
        exists m'. split; [done|]. by eapply suspect_refuted.
      * destruct (encodeBroadcastNotify_some m (Suspect_Node x) suspectMsg (MSuspect x) None) as (m1 & E1 & Hb); [apply Hok|done|].
        unfold encodeAndBroadcast. rewrite E1. cbn [mbind option_bind]. eexists. split; [done|].
        by apply (suspect_suspected cfg m x now l m1).
    + exists m. split; [done|]. eapply suspect_notalive; [done..|].
      unfold DeadOrLeft. destruct (st_State (stateAt m l)) eqn:Es; try done.
      destruct (tk_suspects _ _ _ _ (so_timers _ _ Hok) _ _ Hm Es I Edown) as [id Hid]. congruence.
Qed.

(** A table with one more node, wherever it went in the list. *)
Lemma table_insert t nodes name s :
  table_ok t -> t_nodeMap t !! name = None -> st_Name s = name -> nodes ≡ₚ t_nodes t ++ [t_next t] ->
  let t' := Table (<[t_next t := s]> (t_heap t)) (t_next t + 1) nodes (<[name := t_next t]> (t_nodeMap t))
              (u32 (t_numNodes t + 1)) in
  table_ok t' /\ nodeEntries t' = <[name := s]> (nodeEntries t).
Proof.
  intros Ht Hnone Hs Hp t'.
  assert (Hfresh : t_next t ∉ t_nodes t).
  { intros [x Hx]%(to_listed _ Ht). apply (to_alloc _ Ht) in Hx. lia. }
  assert (Hne : forall l x, t_heap t !! l = Some x -> t_next t <> l).
  { intros l x Hx%(to_alloc _ Ht). lia. }
  split.
  - destruct Ht as [H1 H2 H3 H4 H5]. constructor; cbn.
    + rewrite Hp. apply NoDup_app. split_and!; [done| |apply NoDup_singleton].
      intros x Hx ->%list_elem_of_singleton. done.
    + intros n l. rewrite Hp, elem_of_app, list_elem_of_singleton.
      destruct (decide (t_next t = l)) as [<-|Hl].
      * rewrite lookup_insert_eq. split.
        -- destruct (decide (name = n)) as [<-|]; [by eauto|]. rewrite lookup_insert_ne by done.
           intros (Hin & _)%H2. done.
        -- intros (_ & x & [= <-] & Hx). rewrite Hs in Hx. subst n. by rewrite lookup_insert_eq.
      * rewrite (lookup_insert_ne (t_heap t)) by done. destruct (decide (name = n)) as [<-|Hn].
        -- rewrite lookup_insert_eq. split; [intros [= E]; by destruct Hl|]. intros ([Hin| ->] & x & Hx & Hxn); [|by destruct Hl].
           enough (t_nodeMap t !! name = Some l) by congruence. apply H2. eauto.
        -- rewrite lookup_insert_ne, H2 by done. split; [intros (? & ?); eauto|].
           intros ([Hin| ->] & ?); [eauto|by destruct Hl].
    + intros l. rewrite Hp, elem_of_app, list_elem_of_singleton. intros [Hin| ->].
      * destruct (H3 l Hin) as [x Hx]. rewrite lookup_insert_ne; [eauto|by eapply Hne].
      * rewrite lookup_insert_eq. eauto.
    + intros l x. destruct (decide (t_next t = l)) as [<-|Hl]; [lia|]. rewrite lookup_insert_ne by done.
      intros Hx%H4. lia.
    + rewrite H5. assert (El : len nodes = len (t_nodes t) + 1).
      { unfold len. rewrite Hp, length_app. cbn. lia. }
      rewrite El. unfold u32. by rewrite Zplus_mod_idemp_l.
  - apply map_eq. intros n. rewrite nodeEntries_lookup. cbn. destruct (decide (name = n)) as [<-|Hn].
    + rewrite !lookup_insert_eq. cbn. unfold deref, t'. cbn. by rewrite lookup_insert_eq.
    + rewrite !lookup_insert_ne, nodeEntries_lookup by done. destruct (t_nodeMap t !! n) as [l|] eqn:El; [|done]. cbn.
      destruct (table_name t n l Ht El) as (_ & Hx & _). unfold deref, t'. cbn.
      rewrite lookup_insert_ne; [done|by eapply Hne].
Qed.

Lemma addNode_targeted m a m1 l :
  state_ok cfg m -> nodeAt m (Alive_Node a) = None -> addNode m a = (m1, l) -> targeted cfg m a (freshNode a) l m1.
Proof.
  intros Hok Hnone. unfold addNode. destruct (parseVsn (Alive_Vsn a)) as [vsn vok] eqn:Ev.
  destruct (randomOffset _ (m_rng m)) as [off g].
  set (n := MkNodeState _ 0 zeroTime).
  assert (En : n = freshNode a) by (unfold n, freshNode; by rewrite Ev).
  assert (Hname : st_Name n = Alive_Node a) by (rewrite En; unfold freshNode; by destruct (_ >? 0)).
  assert (Hdead : st_State n = StateDead) by (rewrite En; unfold freshNode; by destruct (_ >? 0)).
  intros [= <- <-]. rewrite <- En. clearbody n. clear En.
  destruct (table_insert (m_table m) (swap (Z.to_nat off) (Z.to_nat (len (t_nodes (m_table m)))) (t_nodes (m_table m) ++ [t_next (m_table m)]))
     (Alive_Node a) n (so_table _ _ Hok) Hnone Hname (swap_perm _ _ _)) as [Ht He].
  assert (Hnm : members m !! Alive_Node a = None) by (rewrite members_lookup; by rewrite Hnone).
  constructor.
  - constructor; [exact Ht| | |apply Hok].
    + unfold members. cbn [m_table set_rng set_table m_timers m_shutdown]. rewrite He.
      apply timers_new; [apply Hok|done|congruence].
    + unfold members. cbn [m_table set_rng set_table]. rewrite He. intros s.
      destruct (decide (Alive_Node a = c_Name cfg)) as [E|E].
      * rewrite E, lookup_insert_eq. intros [= <-]. congruence.
      * rewrite lookup_insert_ne by done. apply Hok.
  - unfold nodeAt. cbn. by rewrite lookup_insert_eq.
  - unfold stateAt, deref. cbn. by rewrite lookup_insert_eq.
  - exact He.
  - done.
  - done.
Qed.

Lemma known_targeted m a l :
  state_ok cfg m -> nodeAt m (Alive_Node a) = Some l -> targeted cfg m a (stateAt m l) l m.
Proof.
  intros Hok Hl. constructor; try done.
  - symmetry. apply insert_id. by apply member_at.
  - apply name_at; [apply Hok|done].
  - by destruct m.
Qed.

Lemma aliveNodeState_cases m a now :
  state_ok cfg m ->
  match aliveNodeState cfg m a now with
  | inl m' => aliveTarget cfg (members m !! Alive_Node a) a now = None /\
      (m' = m \/ exists s, members m !! Alive_Node a = Some s /\ c_Conflict cfg = true /\
         m' = enqueueEvent m eventConflict (st_Node s)
           (Some (newNode (Alive_Node a) (Alive_Addr a) (Alive_Port a) (Alive_Meta a) StateAlive)) None)
  | inr (m1, l, updates) => exists s,
      aliveTarget cfg (members m !! Alive_Node a) a now = Some (s, updates) /\ targeted cfg m a s l m1
  end.
Proof.
  intros Hok. unfold aliveNodeState. rewrite members_lookup. destruct (nodeAt m (Alive_Node a)) as [l|] eqn:El; cbn.
  - unfold aliveTarget, sameAddress, reclaimable.
    destruct (IPEqual _ _), (n_Port _ =? Alive_Port a); cbn [negb orb andb];
      try (exists (stateAt m l); split; [done|by apply known_targeted]).
    all: destruct (IPAllowed _ _); cbn [negb andb]; [|by split; [|left]].
    all: change (n_State (st_Node (stateAt m l))) with (st_State (stateAt m l));
      destruct (bool_decide (st_State (stateAt m l) = StateLeft)); cbn [orb];
        [exists (stateAt m l); split; [done|by apply known_targeted]|].
    all: destruct (bool_decide _ && _); [exists (stateAt m l); split; [done|by apply known_targeted]|].
    all: destruct (c_Conflict cfg); (split; [done|]); [right; eauto|by left].
  - destruct (IPAllowed _ _); cbn [negb]; [|by split; [|left]].
    destruct (addNode m a) as [m1 l] eqn:Ea. exists (freshNode a). split; [done|]. by apply addNode_targeted.
Qed.

Lemma targeted_queue m a s l m1 : targeted cfg m a s l m1 -> m_broadcasts m1 = m_broadcasts m.
Proof. intros H. by rewrite (ta_rest _ _ _ _ _ _ H). Qed.

Lemma aliveNodeLocked_outcome m a notify bootstrap r now :
  state_ok cfg m -> room 1 m ->
  exists m', aliveNodeLocked cfg m a notify bootstrap r now = Some m' /\
    alive_outcome cfg m a notify bootstrap r now m'.
Proof.
  intros Hok Hr. unfold aliveNodeLocked. destruct (aliveAcceptable cfg m a bootstrap) eqn:Eacc; cbn [negb].
  2: { exists m. split; [done|]. by apply alive_unacceptable. }
  pose proof (aliveNodeState_cases m a now Hok) as Hc.
  destruct (aliveNodeState cfg m a now) as [m'|[[m1 l] updates]].
  { exists m'. split; [done|]. destruct Hc as [Ht [->|(s & Hs & Hcf & ->)]]; [by apply alive_rejected|].
    by apply alive_conflict. }
  destruct Hc as (s & Ht & Hta). pose proof Hta as [Hok1 Hat Hst Hmem Hname _].
  assert (Hq : queue_ok (m_broadcasts m1)) by apply Hok1.
  assert (Hr1 : room 1 (withoutTimer m1 (Alive_Node a))) by (unfold room; cbn; by rewrite (targeted_queue _ _ _ _ _ Hta)).
  unfold aliveApply. rewrite Hst, Hname.
  set (isLocal := String.eqb (Alive_Node a) (c_Name cfg)).
  assert (Hnews : (Alive_Incarnation a <=? st_Incarnation s) && negb isLocal && negb updates ||
                  (Alive_Incarnation a <? st_Incarnation s) && isLocal = negb (isNews cfg s a updates)).
  { unfold isNews. fold isLocal. destruct isLocal, updates;
      destruct (Z.leb_spec (Alive_Incarnation a) (st_Incarnation s)), (Z.ltb_spec (Alive_Incarnation a) (st_Incarnation s)),
        (Z.leb_spec (st_Incarnation s) (Alive_Incarnation a)), (Z.ltb_spec (st_Incarnation s) (Alive_Incarnation a)); done || lia. }
  destruct ((Alive_Incarnation a <=? st_Incarnation s) && negb isLocal && negb updates); cbn [orb] in Hnews.
  { exists m1. split; [done|]. eapply alive_old; [done..|]. by destruct (isNews cfg s a updates). }
  destruct ((Alive_Incarnation a <? st_Incarnation s) && isLocal).
  { exists m1. split; [done|]. eapply alive_old; [done..|]. by destruct (isNews cfg s a updates). }
  assert (Hn : isNews cfg s a updates = true) by (by destruct (isNews cfg s a updates)). clear Hnews.
  destruct (parseVsn (Alive_Vsn a)) as [vsn vok] eqn:Ev.
  fold (withoutTimer m1 (Alive_Node a)).
  assert (Eev : forall m2 s', stateAt m2 l = s' ->
     (if c_Events cfg then
        if bool_decide (st_State s = StateDead) || bool_decide (st_State s = StateLeft)
        then enqueueEvent m2 eventJoin (st_Node (stateAt m2 l)) None r
        else if negb (sliceEqual (n_Meta (st_Node s)) (n_Meta (st_Node (stateAt m2 l))))
             then enqueueEvent m2 eventUpdate (st_Node (stateAt m2 l)) None r else m2
      else m2) = aliveEvent cfg m2 s s' r).
  { intros m2 s' <-. unfold aliveEvent, withEvent, DeadOrLeft.
    by destruct (c_Events cfg), (bool_decide (st_State s = StateDead) || bool_decide (st_State s = StateLeft)),
      (negb (sliceEqual (n_Meta (st_Node s)) (n_Meta (st_Node (stateAt m2 l))))). }
  destruct (negb bootstrap && isLocal) eqn:Eb.
  - apply andb_true_iff in Eb as [Eb Eloc]. apply negb_true_iff in Eb. apply String.eqb_eq in Eloc.
    destruct (sameAsLocal s a) eqn:Esame; unfold sameAsLocal in Esame; rewrite Ev in Esame; cbn [fst] in Esame; rewrite Esame.
    + eexists. split; [done|]. eapply alive_same; [done..|]. unfold sameAsLocal. by rewrite Ev.
    + destruct (refute_some (withoutTimer m1 (Alive_Node a)) l (Alive_Incarnation a)) as (m2 & E2 & Hm2); [done..|].
      rewrite E2. cbn [mbind option_bind]. exists (aliveEvent cfg m2 s (stateAt m2 l) r). split; [f_equal; by apply Eev|].
      eapply alive_refuted; [done..| |done]. unfold sameAsLocal. by rewrite Ev.
  - destruct (encodeBroadcastNotify_some (withoutTimer m1 (Alive_Node a)) (Alive_Node a) aliveMsg (MAlive a) notify)
      as (m2 & E2 & Hb); [done..|].
    rewrite E2. cbn [mbind option_bind].
    exists (aliveEvent cfg (putState m2 l (aliveUpdate s a now)) s (aliveUpdate s a now) r). split; [f_equal; apply Eev|].
    + unfold stateAt, putState. cbn. by rewrite deref_setNode, decide_True.
    + eapply alive_updated; [done..| |done]. destruct bootstrap; [by left|]. right.
      cbn [negb andb] in Eb. by apply String.eqb_neq.
Qed.

(** *** The invariant *)

Lemma state_ok_intro m name s :
  table_ok (m_table m) -> queue_ok (m_broadcasts m) -> timers_ok (members m) (m_timers m) (m_shutdown m) ->
  forall ms, members m = <[name := s]> ms -> (name = c_Name cfg -> st_State s <> StateSuspect) ->
  (forall x, ms !! c_Name cfg = Some x -> st_State x <> StateSuspect) -> state_ok cfg m.
Proof.
  intros Ht Hq Htt ms Hms Hs Hl. constructor; try done. rewrite Hms. intros x.
  destruct (decide (name = c_Name cfg)) as [E|E].
  - rewrite E, lookup_insert_eq. intros [= <-]. by apply Hs.
  - rewrite lookup_insert_ne by done. apply Hl.
Qed.

(** Broadcasts, events and awareness are outside the invariant. *)
Lemma broadcasts_frame m node t msg notify m' :
  broadcasts m node t msg notify m' ->
  m_table m' = m_table m /\ m_timers m' = m_timers m /\ m_shutdown m' = m_shutdown m /\
  m_leave m' = m_leave m /\ m_incarnation m' = m_incarnation m /\ m_events m' = m_events m /\
  m_awareness m' = m_awareness m /\ queue_ok (m_broadcasts m') /\
  q_idGen (m_broadcasts m') = q_idGen (m_broadcasts m) + 1.
Proof. intros (q & f & g & -> & Hq & Hid & _). done. Qed.

Lemma withEvent_ok m kind n r : state_ok cfg m -> state_ok cfg (withEvent cfg m kind n r).
Proof. unfold withEvent. destruct (c_Events cfg); [|done]. intros [H1 H2 H3 H4]. by constructor. Qed.

Lemma aliveEvent_ok m s s' r : state_ok cfg m -> state_ok cfg (aliveEvent cfg m s s' r).
Proof. unfold aliveEvent. intros H. destruct (DeadOrLeft s); [|destruct (negb _); [|done]]; by apply withEvent_ok. Qed.

Lemma withoutTimer_ok m name s :
  state_ok cfg m -> members m !! name = Some s -> st_State s <> StateSuspect -> state_ok cfg (withoutTimer m name).
Proof.
  intros [H1 H2 H3 H4] Hs Hst. constructor; try done.
  change (members (withoutTimer m name)) with (members m). cbn [m_timers withoutTimer set_timers m_shutdown].
  rewrite <- (insert_id (members m) name s Hs). apply timers_clear; [|done].
  eapply timers_for_weaken; [|done]. done.
Qed.

Lemma refuted_ok m name l accused m' :
  state_ok cfg m -> nodeAt m name = Some l -> refuted m l accused m' -> state_ok cfg m'.
Proof.
  intros Hok Hl (q & f & g & -> & Hq & _). set (inc := refutedInc _ _) in *.
  pose proof (name_at m name l (so_table _ _ Hok) Hl) as Hn. pose proof (member_at m name l Hl) as Hm.
  set (m0 := putState (set_incarnation m inc) l (set_Incarnation (stateAt m l) inc)) in *.
  assert (Hms : members m0 = <[name := set_Incarnation (stateAt m l) inc]> (members m))
    by (apply (members_putState (set_incarnation m inc)); [apply Hok|done|done]).
  apply (state_ok_intro _ name (set_Incarnation (stateAt m l) inc)) with (ms := members m).
  - apply (setNode_ok _ name); [apply Hok|done|done].
  - done.
  - change (timers_ok (members m0) (m_timers m) (m_shutdown m)). rewrite Hms.
    eapply timers_same; [apply Hok|done|done|done].
  - exact Hms.
  - intros E. apply (so_local _ _ Hok (stateAt m l)). by rewrite <- E.
  - apply Hok.
Qed.

(** A node replaced by one that is not suspected, its timer dropped. *)
Lemma replaced_ok m name l s m1 :
  table_ok (m_table m) -> timers_for (fun n => n <> name) (members m) (m_timers m) (m_shutdown m) ->
  (forall x, members m !! c_Name cfg = Some x -> st_State x <> StateSuspect) ->
  nodeAt m name = Some l -> st_Name s = name -> st_State s <> StateSuspect ->
  m_table m1 = m_table m -> m_timers m1 = clearTimer (m_timers m) name -> m_shutdown m1 = m_shutdown m ->
  queue_ok (m_broadcasts m1) -> state_ok cfg (putState m1 l s).
Proof.
  intros Ht Htt Hloc Hl Hn Hs E1 E2 E3 Hq.
  assert (Hms : members (putState m1 l s) = <[name := s]> (members m)).
  { unfold members, putState. cbn. rewrite E1. by apply nodeEntries_setNode. }
  apply (state_ok_intro _ name s) with (ms := members m); try done.
  - cbn. rewrite E1. by apply (setNode_ok _ name).
  - rewrite Hms. cbn. rewrite E2, E3. by apply timers_clear.
Qed.

Lemma dead_outcome_ok m d r now m' : state_ok cfg m -> dead_outcome cfg m d r now m' -> state_ok cfg m'.
Proof.
  intros Hok [Hm|s Hm Hi|s Hm Hi Hd|l m2 Hl Hi Hd Hloc Hleft Href|l m1 Hl Hi Hd Hloc Hb]; try done.
  - eapply withoutTimer_ok; [done|done|]. intros E. unfold DeadOrLeft in Hd. by rewrite E in Hd.
  - eapply (refuted_ok (withoutTimer m (Dead_Node d))); [|done|done].
    eapply withoutTimer_ok; [done|exact (member_at m _ l Hl)|]. apply (so_local _ _ Hok). rewrite <- Hloc. by apply member_at.
  - apply broadcasts_frame in Hb as (E1 & E2 & E3 & _ & _ & _ & _ & Hq & _). apply withEvent_ok.
    apply (replaced_ok m (Dead_Node d)); [apply Hok| |apply Hok|done| | |done..].
    + eapply timers_for_weaken; [|apply Hok]. done.
    + unfold deadUpdate, st_Name. cbn. apply (name_at m); [apply Hok|done].
    + unfold deadUpdate, st_State, set_State. cbn [st_Node n_State].
      destruct (String.eqb (Dead_Node d) (Dead_From d)); discriminate.
Qed.

Lemma aliveUpdate_fields s a now :
  st_Name (aliveUpdate s a now) = st_Name s /\ st_State (aliveUpdate s a now) = StateAlive /\
  st_Incarnation (aliveUpdate s a now) = Alive_Incarnation a.
Proof.
  unfold aliveUpdate. destruct (parseVsn (Alive_Vsn a)) as [vsn ok].
  destruct (len (slice_bytes (Alive_Vsn a)) >? 0), (bool_decide _) eqn:E; cbn [negb]; try done;
    apply bool_decide_eq_true in E; done.
Qed.

Lemma alive_outcome_ok m a notify bootstrap r now m' :
  state_ok cfg m -> alive_outcome cfg m a notify bootstrap r now m' -> state_ok cfg m'.
Proof.
  intros Hok [Ha|Ha Ht|s Ha Ht Hm Hc|s u l m1 Ha Ht Hta Hn|s u l m1 Ha Ht Hta Hn Hb Hloc Hsame
    |s u l m1 m2 Ha Ht Hta Hn Hb Hloc Hsame Href|s u l m1 m2 Ha Ht Hta Hn Hb Hbr]; try done.
  - destruct Hok as [H1 H2 H3 H4]. by constructor.
  - apply Hta.
  - destruct Hta as [Hok1 Hat Hst Hmem Hname _]. eapply withoutTimer_ok; [done|exact (member_at m1 _ l Hat)|].
    apply (so_local _ _ Hok1). rewrite <- Hloc. by apply member_at.
  - destruct Hta as [Hok1 Hat Hst Hmem Hname _]. apply aliveEvent_ok.
    eapply (refuted_ok (withoutTimer m1 (Alive_Node a))); [|done|done].
    eapply withoutTimer_ok; [done|exact (member_at m1 _ l Hat)|].
    apply (so_local _ _ Hok1). rewrite <- Hloc. by apply member_at.
  - destruct Hta as [Hok1 Hat Hst Hmem Hname _]. apply aliveEvent_ok.
    destruct (aliveUpdate_fields s a now) as (Hun & Hus & _).
    apply broadcasts_frame in Hbr as (E1 & E2 & E3 & _ & _ & _ & _ & Hq & _).
    apply (replaced_ok m1 (Alive_Node a)); [apply Hok1| |apply Hok1|done| | |done..].
    + eapply timers_for_weaken; [|apply Hok1]. done.
    + congruence.
    + congruence.
Qed.

Lemma confirmTimer_ok m id from now m1 ok :
  state_ok cfg m -> confirmTimer m id from now = (m1, ok) -> state_ok cfg m1.
Proof.
  intros Hok. unfold confirmTimer. destruct (tt_heap (m_timers m) !! id) as [p|] eqn:Ep; [|by intros [= <- <-]].
  destruct (Confirm now (p_susp p) from) as [[s ok'] fire] eqn:Ec. intros [= <- <-].
  destruct Hok as [H1 H2 H3 H4]. constructor; try done. cbn.
  apply timers_update; [done|done| |].
  - unfold Confirm in Ec. destruct (_ >=? _); [injection Ec as <- _ <-|];
      [destruct (s_timer (p_susp p)) eqn:E; [left; congruence|right; by left]|].
    case_bool_decide; [injection Ec as <- _ <-; destruct (s_timer (p_susp p)) eqn:E; [left; congruence|right; by left]|].
    destruct (s_timer (p_susp p)) as [t|]; [|right; by left].
    destruct (_ >? 0); injection Ec as <- _ <-; [by left|]. right. right. apply elem_of_app. right. by left.
  - intros i Hi. destruct fire; [|done]. apply elem_of_app. by left.
Qed.

Lemma suspect_outcome_ok m x now m' : state_ok cfg m -> suspect_outcome cfg m x now m' -> state_ok cfg m'.
Proof.
  intros Hok [Hd|Hd Hm|s Hd Hm Hi|s id m1 ok m2 Hd Hm Hi Hid Hs Hc Hb|s Hd Hm Hi Hs|l m2 Hd Hl Hi Hs Hloc Href
    |l m1 Hd Hl Hi Hs Hloc Hb]; try done.
  - pose proof (confirmTimer_ok _ _ _ _ _ _ Hok Hc) as Hok1. destruct ok; [|by subst].
    destruct Hb as (q & f & g & -> & Hq & _). destruct Hok1 as [H1 H2 H3 H4]. by constructor.
  - by eapply refuted_ok.
  - apply broadcasts_frame in Hb as (E1 & E2 & E3 & _ & _ & _ & _ & Hq & _).
    set (s := suspectUpdate (stateAt m l) x now). pose proof (name_at m _ l (so_table _ _ Hok) Hl) as Hn.
    assert (Hms : members (putState m1 l s) = <[Suspect_Node x := s]> (members m)).
    { unfold members, putState. cbn. rewrite E1. apply nodeEntries_setNode; [apply Hok|done|done]. }
    apply (state_ok_intro _ (Suspect_Node x) s) with (ms := members m); try done.
    + cbn. rewrite E1. apply (setNode_ok _ (Suspect_Node x)); [apply Hok|done|done].
    + change (members (startTimer _ _ _ _ _)) with (members (putState m1 l s)). rewrite Hms. cbn.
      rewrite E2, E3. apply timers_start; try done. apply Hok.
    + apply Hok.
Qed.
End OutcomeLemmas.
