(* ===== verification/Lifecycle.v ===== *)
(** The lifecycle calls of [src/memberlist.go]: announcing the local node,
    updating it, leaving and shutting down, each as the critical sections it
    runs. Waiting for a broadcast or an event is the caller's, after the
    section; the section returns what it waits on. A notify channel and a
    receipt are named by numbers. *)

From S2P Require Import Prelude Msgpack Wire Treap Timing Queue NetAddr Nodes Events Packet State.

Inductive lifecycleError := ErrShutdown | ErrLeft | ErrNoLocalNode.

Section Lifecycle.
Context {G : Type} {RG : Rand G} {ML : MathLog} (cfg : Config).
Implicit Types m : Memberlist (G := G).

(** [setAlive] draws its incarnation number before it takes [nodeLock]. *)
Definition setAliveCommit m (inc : Z) (addr : slice) (port : Z) (meta : slice) (receipt : option Z) (now : Z)
    : option (result lifecycleError unit * Memberlist) :=
  let a := MkAlive inc (c_Name cfg) addr (u16 port) meta (BuildVsnArray cfg) in
  if hasShutdown m then Some (Err ErrShutdown, m)
  else m ← aliveNodeLocked cfg m a None true receipt now; Some (Ok tt, m).

(** The two together, when nothing runs in between. *)
Definition setAlive m (addr : slice) (port : Z) (meta : slice) (receipt : option Z) (now : Z)
    : option (result lifecycleError unit * Memberlist) :=
  let '(inc, m) := nextIncarnation m in setAliveCommit m inc addr port meta receipt now.

(** [UpdateNodeContext]: on success, whether there is a peer to wait for. *)
Definition UpdateNodeContext m (meta : slice) (notify : Z) (receipt : Z) (now : Z)
    : option (result lifecycleError bool * Memberlist) :=
  if hasShutdown m then Some (Err ErrShutdown, m)
  else if hasLeft m then Some (Err ErrLeft, m)
  else
    match nodeAt m (c_Name cfg) with
    | None => Some (Err ErrNoLocalNode, m)
    | Some l =>
        let n := st_Node (stateAt m l) in
        let '(inc, m) := nextIncarnation m in
        let a := MkAlive inc (c_Name cfg) (n_Addr n) (n_Port n) meta (BuildVsnArray cfg) in
        m ← aliveNodeLocked cfg m a (Some notify) true (Some receipt) now;
        Some (Ok (anyAliveLocked cfg m), m)
    end.

(** What [LeaveContext] does once it holds the leave semaphore: an error, a
    retry that waits for the receipt of the first leave, or the leave. *)
Inductive leaveResult :=
| LeaveError (e : lifecycleError)
| LeaveRetry (receipt : option Z)
| LeaveCommitted (receipt : Z) (hasPeers : bool).

Record leaver := Leaver { le_m : Memberlist (G := G); le_receipt : option Z }.

Definition LeaveContext (s : leaver) (receipt : Z) (now : Z) : option (leaveResult * leaver) :=
  let m := le_m s in
  if hasShutdown m then Some (LeaveError ErrShutdown, s)
  else if hasLeft m then Some (LeaveRetry (le_receipt s), s)
  else
    match nodeAt m (c_Name cfg) with
    | None => Some (LeaveError ErrNoLocalNode, s)
    | Some l =>
        let state := stateAt m l in
        let m := set_leave m true in
        let d := MkDead (st_Incarnation state) (st_Name state) (st_Name state) in
        m ← deadNodeLocked cfg m d (Some receipt) now;
        Some (LeaveCommitted receipt (anyAliveLocked cfg m), Leaver m (Some receipt))
    end.

(** Phase 1 of [Shutdown], the teardown. *)
Definition ShutdownFlag m : Memberlist := set_shutdown m true.

(** [timer.Stop()] on each registered timer. *)
Definition stopTimer (h : gmap Z pendingTimer) (id : Z) : gmap Z pendingTimer :=
  match h !! id with
  | None => h
  | Some p =>
      let s := p_susp p in
      <[id := PendingTimer (Suspicion (s_n s) (s_k s) (s_min s) (s_max s) (s_start s) None (s_confirmations s))
                (p_node p) (p_changeTime p) (p_k p)]> h
  end.

(** The critical section of [finishShutdown]: seal the events, stop and drop
    the timers; then wake the dispatcher. *)
Definition finishShutdown m : Memberlist :=
  let tt := m_timers m in
  let m := set_events m (seal (m_events m)) in
  let h := fold_left stopTimer (map snd (map_to_list (tt_nodeTimers tt))) (tt_heap tt) in
  let m := set_timers m (Timers h (tt_next tt) ∅ (tt_firing tt)) in
  set_events m (wake (m_events m)).
End Lifecycle.
