(* ===== verification/Membership.v ===== *)
(** The membership protocol: the handlers of [State] and [Lifecycle] as the
    steps of one system, its invariant, and what the protocol guarantees.

    Every handler runs under [nodeLock], so an execution of an instance is a
    sequence of whole handlers, in any order and with any arguments: messages
    from the network, timers, the reaping of dead nodes and lifecycle calls. *)

From S2P Require Import Prelude Msgpack Wire Treap Timing Queue NetAddr Nodes Events Packet State Lifecycle.

(** ** The system *)

Inductive input :=
| InAlive (a : Alive)
| InSuspect (s : Suspect)
| InDead (d : Dead)
| InMerge (remote : list PushNodeState)
| InExpire (id : Z)
| InCallback (i : nat)
| InReset
| InDraw
| InAnnounce (inc : Z) (addr : slice) (port : Z) (meta : slice) (receipt : option Z)
| InUpdate (meta : slice) (notify receipt : Z)
| InLeave (receipt : Z)
| InShutdown
| InFinish.

Section System.
Context {G : Type} {RG : Rand G} {ML : MathLog} (cfg : Config).
Implicit Types m : Memberlist (G := G).

(** A fresh instance, as [buildMemberlist] makes it. *)
Definition newMemberlist (awarenessMax retransmitMult : Z) (g : G) : Memberlist :=
  MkMemberlist 0 false false (newAwareness awarenessMax) (Table ∅ 0 [] ∅ 0) (Timers ∅ 0 ∅ [])
    (newQueue retransmitMult) [] newEventQueue g.

(** A timer expires only when it is armed and due. *)
Definition expireDue m (id now : Z) : Memberlist :=
  match tt_heap (m_timers m) !! id with
  | Some p =>
      match s_timer (p_susp p) with
      | Some due => if due <=? now then expireTimer m id else m
      | None => m
      end
  | None => m
  end.

Definition handle m (i : input) (now : Z) : option Memberlist :=
  match i with
  | InAlive a => aliveNode cfg m a false now
  | InSuspect s => suspectNode cfg m s now
  | InDead d => deadNode cfg m d now
  | InMerge remote => mergeState cfg m remote now
  | InExpire id => Some (expireDue m id now)
  | InCallback k => runCallback cfg m k now
  | InReset => resetNodes cfg m now
  | InDraw => Some (nextIncarnation m).2
  | InAnnounce inc addr port meta receipt => snd <$> setAliveCommit cfg m inc addr port meta receipt now
  | InUpdate meta notify receipt => snd <$> UpdateNodeContext cfg m meta notify receipt now
  | InLeave receipt => (fun r => le_m (snd r)) <$> LeaveContext cfg (Leaver m None) receipt now
  | InShutdown => Some (ShutdownFlag m)
  | InFinish => Some (if m_shutdown m then finishShutdown m else m)
  end.

(** How many broadcasts an input can queue. *)
Definition cost (i : input) : Z :=
  match i with
  | InMerge remote => len remote
  | InExpire _ | InReset | InDraw | InShutdown | InFinish => 0
  | _ => 1
  end.

Definition step m m' : Prop := exists i now, room (cost i) m /\ handle m i now = Some m'.
End System.

(** ** Lemmas: the invariant *)

Lemma NoDup_filter_bool {A} (f : A -> bool) l : NoDup l -> NoDup (List.filter f l).
Proof.
  induction 1 as [|x l Hx Hl IH]; cbn; [constructor|]. destruct (f x); [|done].
  constructor; [|done]. rewrite list_elem_of_In, filter_In, <- list_elem_of_In. tauto.
Qed.

Section Invariant.
Context {G : Type} {RG : Rand G} {RL : RandLaws G} {ML : MathLog} (cfg : Config).
Implicit Types m : Memberlist (G := G).

Lemma newMemberlist_ok aw mult (g : G) : state_ok cfg (newMemberlist aw mult g).
Proof.
  constructor; cbn.
  - constructor; cbn; try done.
    + constructor.
    + intros name l. rewrite lookup_empty. split; [done|]. intros [H _]. by apply not_elem_of_nil in H.
    + intros l H. by apply not_elem_of_nil in H.
  - constructor; cbn; intros *; rewrite ?lookup_empty; try done.
  - unfold members, nodeEntries. cbn. rewrite fmap_empty, lookup_empty. done.
  - apply newQueue_ok.
Qed.

(** *** Timers *)

Lemma expireDue_ok m id now : state_ok cfg m -> state_ok cfg (expireDue m id now).
Proof.
  intros Hok. unfold expireDue, expireTimer. destruct (tt_heap (m_timers m) !! id) as [p|] eqn:Ep; [|done].
  destruct (s_timer (p_susp p)); [|done]. destruct (_ <=? _); [|done].
  destruct Hok as [H1 H2 H3 H4]. constructor; try done. cbn. apply timers_update; try done.
  - right. right. apply elem_of_app. right. by left.
  - intros i Hi. apply elem_of_app. by left.
Qed.

(** Taking a callback off the list matters to the timer it belongs to only. *)
Lemma timers_pop ms tt down i id p :
  timers_ok ms tt down -> tt_firing tt !! i = Some id -> tt_heap tt !! id = Some p ->
  timers_for (fun n => n <> p_node p) ms (Timers (tt_heap tt) (tt_next tt) (tt_nodeTimers tt) (delete i (tt_firing tt))) down.
Proof.
  intros [H1 H2 H3 H4] Hf Hp. constructor; cbn; eauto.
  intros n id' Hid Hn. destruct (H2 n id' Hid I) as (p' & s & Hp' & Hn' & ? & ? & ? & Hd).
  exists p', s. split_and!; try done. destruct Hd as [?|[?|Hd]]; [by left|right; by left|].
  right. right. rewrite (delete_Permutation _ _ _ Hf) in Hd. apply elem_of_cons in Hd as [->|]; [|done]. congruence.
Qed.

Lemma timers_pop_stale ms tt down i id :
  timers_ok ms tt down -> tt_firing tt !! i = Some id ->
  (down = true \/ forall name, tt_nodeTimers tt !! name <> Some id) ->
  timers_ok ms (Timers (tt_heap tt) (tt_next tt) (tt_nodeTimers tt) (delete i (tt_firing tt))) down.
Proof.
  intros [H1 H2 H3 H4] Hf Hs. constructor; cbn; eauto.
  intros n id' Hid _. destruct (H2 n id' Hid I) as (p' & s & Hp' & Hn' & ? & ? & ? & Hd).
  exists p', s. split_and!; try done. destruct Hd as [?|[?|Hd]]; [by left|right; by left|].
  destruct Hs as [?|Hs]; [by left|]. right. right. rewrite (delete_Permutation _ _ _ Hf) in Hd.
  apply elem_of_cons in Hd as [->|]; [|done]. by destruct (Hs n).
Qed.

(** What a callback does: it declares the suspected node dead if the
    suspicion it was started for is the current one, and nothing otherwise. *)
Inductive callback_outcome m (i : nat) (now : Z) : Memberlist -> Prop :=
| callback_none : tt_firing (m_timers m) !! i = None -> callback_outcome m i now m
| callback_stale id m' :
    tt_firing (m_timers m) !! i = Some id ->
    (m_shutdown m = true \/ forall name, tt_nodeTimers (m_timers m) !! name <> Some id) ->
    m' = set_timers m (Timers (tt_heap (m_timers m)) (tt_next (m_timers m)) (tt_nodeTimers (m_timers m))
      (delete i (tt_firing (m_timers m)))) ->
    callback_outcome m i now m'
| callback_dead id p s m0 m' :
    tt_firing (m_timers m) !! i = Some id -> tt_heap (m_timers m) !! id = Some p -> m_shutdown m = false ->
    members m !! p_node p = Some s -> st_State s = StateSuspect -> st_StateChange s = p_changeTime p ->
    m0 = set_timers m (Timers (tt_heap (m_timers m)) (tt_next (m_timers m)) (tt_nodeTimers (m_timers m))
      (delete i (tt_firing (m_timers m)))) ->
    dead_outcome cfg m0 (MkDead (st_Incarnation s) (p_node p) (c_Name cfg)) None now m' ->
    state_ok cfg m' -> callback_outcome m i now m'.

Lemma runCallback_outcome m i now :
  state_ok cfg m -> room 1 m -> exists m', runCallback cfg m i now = Some m' /\ callback_outcome m i now m'.
Proof.
  intros Hok Hr. unfold runCallback. destruct (tt_firing (m_timers m) !! i) as [id|] eqn:Ef.
  2: { exists m. split; [done|]. by apply callback_none. }
  set (m0 := set_timers m _). pose proof (so_timers _ _ Hok) as Htt.
  destruct (tt_heap (m_timers m) !! id) as [p|] eqn:Ep.
  2: { exists m0. split; [done|]. eapply callback_stale; [done| |done]. right. intros name Hn.
       destruct (tk_owner _ _ _ _ Htt _ _ Hn) as (p & Hp & _). congruence. }
  assert (Hown : forall name, tt_nodeTimers (m_timers m) !! name = Some id -> name = p_node p).
  { intros name Hn. destruct (tk_owner _ _ _ _ Htt _ _ Hn) as (p' & Hp & <-). congruence. }
  unfold timerCallback, hasShutdown. cbn [m_shutdown m0 set_timers]. destruct (m_shutdown m) eqn:Ed.
  { exists m0. split; [done|]. eapply callback_stale; [done|by left|done]. }
  change (nodeAt m0 (p_node p)) with (nodeAt m (p_node p)).
  destruct (nodeAt m (p_node p)) as [l|] eqn:El.
  2: { exists m0. split; [done|]. eapply callback_stale; [done| |done]. right. intros name Hn.
       destruct (tk_named _ _ _ _ Htt _ _ Hn I) as (p' & s & _ & _ & Hs & _).
       rewrite (Hown _ Hn), members_lookup, El in Hs. done. }
  change (stateAt m0 l) with (stateAt m l). pose proof (member_at m _ l El) as Hm.
  pose proof (name_at m _ l (so_table _ _ Hok) El) as Hname.
  destruct (bool_decide (st_State (stateAt m l) = StateSuspect) && (st_StateChange (stateAt m l) =? p_changeTime p)) eqn:Ec.
  2: { exists m0. split; [done|]. eapply callback_stale; [done| |done]. right. intros name Hn.
       destruct (tk_named _ _ _ _ Htt _ _ Hn I) as (p' & s & Hp' & _ & Hs & Hst & Hch & _).
       rewrite (Hown _ Hn) in Hs. assert (s = stateAt m l) as -> by congruence.
       assert (p' = p) as -> by congruence. rewrite bool_decide_true in Ec by done.
       by rewrite Hch, Z.eqb_refl in Ec. }
  apply andb_true_iff in Ec as [Es Ech]. apply bool_decide_eq_true in Es. apply Z.eqb_eq in Ech. rewrite Hname.
  set (d := MkDead _ _ _).
  destruct (deadNodeLocked_outcome cfg m0 d None now) as (m' & E & Ho); [apply Hok..|done|].
  exists m'. split; [done|]. eapply callback_dead; try done.
  inversion Ho as [Hm0|s Hm0 Hi|s Hm0 Hi Hdl|l' m2 Hl Hi Hdl Hloc Hleft Href|l' m1 Hl Hi Hdl Hloc Hb]; subst.
  - change (members m0) with (members m) in Hm0. cbn in Hm0. congruence.
  - change (members m0) with (members m) in Hm0. cbn in Hm0, Hi. simplify_eq. lia.
  - change (members m0) with (members m) in Hm0. cbn in Hm0. simplify_eq. unfold DeadOrLeft in Hdl. by rewrite Es in Hdl.
  - cbn in Hloc. destruct (so_local _ _ Hok (stateAt m l)); [by rewrite <- Hloc|done].
  - apply broadcasts_frame in Hb as (E1 & E2 & E3 & _ & _ & _ & _ & Hq & _). apply withEvent_ok.
    apply (replaced_ok cfg m0 (p_node p)); [apply Hok| |apply Hok|done| | |done..].
    + cbn [m_shutdown m0 set_timers]. rewrite Ed. exact (timers_pop _ _ _ i id p Htt Ef Ep).
    + change (nodeAt m (p_node p) = Some l') in Hl. change (stateAt m0 l') with (stateAt m l').
      unfold deadUpdate, st_Name. cbn. apply (name_at m); [apply Hok|done].
    + unfold deadUpdate, st_State, set_State. cbn [st_Node n_State].
      destruct (String.eqb _ _); discriminate.
Qed.

Lemma callback_outcome_ok m i now m' : state_ok cfg m -> callback_outcome m i now m' -> state_ok cfg m'.
Proof.
  intros Hok [|id m0 Hf Hs ->|]; try done. destruct Hok as [H1 H2 H3 H4].
  constructor; try done. by eapply timers_pop_stale.
Qed.

(** *** Reaping *)

Lemma fold_delete {A} (f : A -> string) ls (nm : gmap string Z) name :
  fold_left (fun nm l => delete (f l) nm) ls nm !! name =
  if bool_decide (name ∈ map f ls) then None else nm !! name.
Proof.
  revert nm. induction ls as [|x ls IH]; intros nm; [done|]. cbn [fold_left map]. rewrite IH.
  destruct (decide (f x = name)) as [<-|Hne].
  - rewrite lookup_delete_eq, (bool_decide_true (f x ∈ f x :: map f ls)) by left. by case_bool_decide.
  - rewrite lookup_delete_ne by done. case_bool_decide as E1; case_bool_decide as E2; try done.
    + destruct E2. by right.
    + apply elem_of_cons in E2 as [->|]; done.
Qed.

(** The entries that are kept. *)
Definition unexpired (now : Z) (ms : gmap string nodeState) : gmap string nodeState :=
  filter (fun kv => expired now (c_GossipToTheDeadTime cfg) kv.2 = false) ms.

Lemma timers_unexpired ms tt down now :
  timers_ok ms tt down -> timers_ok (unexpired now ms) tt down.
Proof.
  intros [H1 H2 H3 H4]. constructor; eauto.
  - intros n id Hid _. destruct (H2 n id Hid I) as (p & s & ? & ? & Hs & Hst & ?). exists p, s.
    split_and!; try done; try tauto. apply map_lookup_filter_Some. split; [done|]. cbn.
    unfold expired, DeadOrLeft. by rewrite Hst.
  - intros n s (Hs & _)%map_lookup_filter_Some. by apply H4.
Qed.

Lemma resetNodes_ok m now :
  state_ok cfg m -> exists m', resetNodes cfg m now = Some m' /\ state_ok cfg m' /\
    members m' = unexpired now (members m) /\
    m' = set_rng (set_table m (m_table m')) (m_rng m') /\
    Permutation (t_nodes (m_table m'))
      (List.filter (fun l => negb (expired now (c_GossipToTheDeadTime cfg) (stateAt m l))) (t_nodes (m_table m))).
Proof.
  intros Hok. unfold resetNodes. set (t := m_table m). pose proof (so_table _ _ Hok) as Ht. fold t in Ht.
  destruct (moveDeadNodes_ok (deref t) now (c_GossipToTheDeadTime cfg) (t_nodes t)) as (nodes & k & E & Hpart).
  rewrite E. cbn [mbind option_bind].
  pose proof (shuffleNodes_perm (take k nodes) (m_rng m)) as Hsh.
  destruct (shuffleNodes (take k nodes) (m_rng m)) as [live g]. cbn [fst] in Hsh.
  pose proof (partitioned_take _ _ _ _ Hpart) as Htake. destruct Hpart as (Hp & Hk & Hold).
  assert (Hnd : NoDup nodes) by (rewrite Hp; apply Ht).
  assert (Hsplit : forall l, l ∈ t_nodes t <-> l ∈ live \/ l ∈ drop k nodes).
  { intros l. rewrite <- Hp, <- (take_drop k nodes) at 1. by rewrite elem_of_app, Hsh. }
  assert (Hdisj : forall l, l ∈ live -> l ∈ drop k nodes -> False).
  { intros l. rewrite Hsh. rewrite <- (take_drop k nodes) in Hnd. apply NoDup_app in Hnd as (_ & Hd & _). apply Hd. }
  assert (Hlive : forall l, l ∈ live <-> l ∈ t_nodes t /\ expired now (c_GossipToTheDeadTime cfg) (deref t l) = false).
  { intros l. rewrite Hsh, Htake. rewrite list_elem_of_In, filter_In, <- list_elem_of_In. by rewrite negb_true_iff. }
  set (names := map (fun l => st_Name (deref t l)) (drop k nodes)).
  assert (Hnm : forall name, fold_left (fun nm l => delete (st_Name (deref t l)) nm) (drop k nodes) (t_nodeMap t) !! name =
     if bool_decide (name ∈ names) then None else t_nodeMap t !! name) by (intros; apply fold_delete).
  assert (Hmap : forall name l,
     (if bool_decide (name ∈ names) then None else t_nodeMap t !! name) = Some l <->
     t_nodeMap t !! name = Some l /\ l ∈ live).
  { intros name l. case_bool_decide as Hin.
    - split; [done|]. intros [Hl Hliv]. apply list_elem_of_fmap in Hin as (l' & -> & Hl').
      assert (Hl2 : t_nodeMap t !! st_Name (deref t l') = Some l').
      { apply (to_map _ Ht). split; [by apply Hsplit; right|].
        destruct (to_listed _ Ht l') as [s' Hs']; [by apply Hsplit; right|].
        exists s'. split; [done|]. by rewrite (deref_lookup _ _ _ Hs'). }
      rewrite Hl2 in Hl. injection Hl as ->. by destruct (Hdisj l).
    - split; [|tauto]. intros Hl. split; [done|]. destruct (table_name t name l Ht Hl) as (Hin' & _ & Hname).
      apply Hsplit in Hin' as [?|Hd]; [done|]. destruct Hin. subst name. apply list_elem_of_fmap. eauto. }
  eexists. split; [done|].
  match goal with |- state_ok cfg ?x /\ _ => set (m' := x) end.
  assert (Hms : members m' = unexpired now (members m)).
  { apply map_eq. intros name. apply option_eq. intros s. unfold unexpired. rewrite map_lookup_filter_Some. cbn [snd].
    unfold members at 1. rewrite nodeEntries_lookup. cbn [m' m_table set_rng set_table t_nodeMap].
    rewrite members_lookup. unfold nodeAt. fold t. rewrite Hnm.
    change (deref (Table (t_heap t) _ _ _ _)) with (deref t). split.
    - intros (l & Hl & ->)%fmap_Some. apply Hmap in Hl as [Hl Hliv]. rewrite Hl. split; [done|]. by apply Hlive.
    - intros [(l & Hl & ->)%fmap_Some Hex]. apply fmap_Some. exists l. split; [|done].
      apply Hmap. split; [done|]. apply Hlive. split; [|done]. by apply (table_name t name). }
  assert (Ht' : table_ok (m_table m')).
  { constructor; cbn.
    - rewrite Hsh, Htake. apply NoDup_filter_bool, Ht.
    - intros name l. rewrite Hnm, Hmap, (to_map _ Ht). split; [tauto|]. intros [Hl Hs].
      split; [split; [by apply Hlive|done]|done].
    - intros l Hl. apply (to_listed _ Ht). by apply Hlive.
    - apply Ht.
    - f_equal. unfold len. rewrite Hsh, length_take. rewrite Hp. lia. }
  split_and!.
  - constructor; [done| | |apply Hok].
    + rewrite Hms. apply timers_unexpired, Hok.
    + rewrite Hms. intros s (Hs & _)%map_lookup_filter_Some. by apply Hok.
  - done.
  - done.
  - cbn. by rewrite Hsh, Htake.
Qed.

(** *** At most one broadcast per message *)

Abbreviation gen m := (q_idGen (m_broadcasts m)).

Lemma refuted_gen m l accused m' : refuted m l accused m' -> gen m' = gen m + 1.
Proof. intros (q & f & g & -> & _ & Hid & _). exact Hid. Qed.

Lemma withEvent_queue m kind n r : m_broadcasts (withEvent cfg m kind n r) = m_broadcasts m.
Proof. unfold withEvent. by destruct (c_Events cfg). Qed.

Lemma aliveEvent_queue m s s' r : m_broadcasts (aliveEvent cfg m s s' r) = m_broadcasts m.
Proof. unfold aliveEvent. destruct (DeadOrLeft s); [|destruct (negb _); [|done]]; apply withEvent_queue. Qed.

Lemma dead_outcome_gen m d r now m' : dead_outcome cfg m d r now m' -> gen m' <= gen m + 1.
Proof.
  intros [| | |l m2 ? ? ? ? ? Href|l m1 ? ? ? ? Hb]; cbn; try lia.
  - apply refuted_gen in Href. cbn in Href. lia.
  - rewrite withEvent_queue. apply broadcasts_frame in Hb. cbn in *. lia.
Qed.

Lemma alive_outcome_gen m a notify b r now m' : alive_outcome cfg m a notify b r now m' -> gen m' <= gen m + 1.
Proof.
  intros [| | |s u l m1 ? ? Hta|s u l m1 ? ? Hta|s u l m1 m2 ? ? Hta ? ? ? ? Href|s u l m1 m2 ? ? Hta ? ? Hb]; cbn; try lia.
  - rewrite (targeted_queue _ _ _ _ _ _ Hta). lia.
  - rewrite (targeted_queue _ _ _ _ _ _ Hta). lia.
  - rewrite aliveEvent_queue. apply refuted_gen in Href. cbn in Href. rewrite (targeted_queue _ _ _ _ _ _ Hta) in Href. lia.
  - rewrite aliveEvent_queue. apply broadcasts_frame in Hb. cbn in *. rewrite (targeted_queue _ _ _ _ _ _ Hta) in Hb. lia.
Qed.

Lemma confirmTimer_frame m id from now m1 ok :
  confirmTimer m id from now = (m1, ok) -> m1 = set_timers m (m_timers m1).
Proof.
  unfold confirmTimer. destruct (_ !! id) as [p|]; [|intros [= <- <-]; by destruct m].
  destruct (Confirm _ _ _) as [[s' ok'] fire]. by intros [= <- <-].
Qed.

Lemma suspect_outcome_gen m x now m' : suspect_outcome cfg m x now m' -> gen m' <= gen m + 1.
Proof.
  intros [| | |s id m1 ok m2 ? ? ? ? ? Hc Hb| |l m2 ? ? ? ? ? Href|l m1 ? ? ? ? ? Hb]; try lia.
  - apply confirmTimer_frame in Hc. destruct ok; subst; [apply broadcasts_frame in Hb|]; rewrite Hc in *; cbn in *; lia.
  - apply refuted_gen in Href. lia.
  - apply broadcasts_frame in Hb. cbn. lia.
Qed.

(** *** Every handler is total and keeps the invariant *)

Lemma aliveNode_ok m a b now :
  state_ok cfg m -> room 1 m -> exists m', aliveNode cfg m a b now = Some m' /\ state_ok cfg m' /\ gen m' <= gen m + 1.
Proof.
  intros Hok Hr. unfold aliveNode. destruct (hasShutdown m); [exists m; split_and!; done || lia|].
  destruct (aliveNodeLocked_outcome cfg m a None b None now Hok Hr) as (m' & E & Ho). exists m'.
  split_and!; [done|by eapply alive_outcome_ok|by eapply alive_outcome_gen].
Qed.

Lemma deadNode_ok m d now :
  state_ok cfg m -> room 1 m -> exists m', deadNode cfg m d now = Some m' /\ state_ok cfg m' /\ gen m' <= gen m + 1.
Proof.
  intros Hok Hr. unfold deadNode. destruct (hasShutdown m); [exists m; split_and!; done || lia|].
  destruct (deadNodeLocked_outcome cfg m d None now) as (m' & E & Ho); [apply Hok..|done|]. exists m'.
  split_and!; [done|by eapply dead_outcome_ok|by eapply dead_outcome_gen].
Qed.

Lemma suspectNode_ok m x now :
  state_ok cfg m -> room 1 m -> exists m', suspectNode cfg m x now = Some m' /\ state_ok cfg m' /\ gen m' <= gen m + 1.
Proof.
  intros Hok Hr. destruct (suspectNode_outcome cfg m x now Hok Hr) as (m' & E & Ho). exists m'.
  split_and!; [done|by eapply suspect_outcome_ok|by eapply suspect_outcome_gen].
Qed.

Lemma mergeNode_ok m r now :
  state_ok cfg m -> room 1 m -> exists m', mergeNode cfg m r now = Some m' /\ state_ok cfg m' /\ gen m' <= gen m + 1.
Proof.
  intros Hok Hr. unfold mergeNode. destruct (toNodeStateType _) as [[]|].
  - by apply aliveNode_ok.
  - by apply suspectNode_ok.
  - by apply suspectNode_ok.
  - by apply deadNode_ok.
  - exists m. split_and!; done || lia.
Qed.

Lemma mergeState_ok m remote now :
  state_ok cfg m -> room (len remote) m -> exists m', mergeState cfg m remote now = Some m' /\ state_ok cfg m'.
Proof.
  revert m. induction remote as [|r remote IH]; intros m Hok Hr; cbn [mergeState]; [eauto|].
  unfold room in Hr. rewrite len_cons in Hr. pose proof (len_nonneg remote).
  destruct (mergeNode_ok m r now Hok) as (m1 & -> & Hok1 & Hg); [unfold room; lia|]. cbn [mbind option_bind].
  apply IH; [done|]. unfold room. lia.
Qed.

Lemma set_leave_ok m x : state_ok cfg m -> state_ok cfg (set_leave m x).
Proof. intros [H1 H2 H3 H4]. by constructor. Qed.

Lemma set_incarnation_ok m x : state_ok cfg m -> state_ok cfg (set_incarnation m x).
Proof. intros [H1 H2 H3 H4]. by constructor. Qed.

Lemma ShutdownFlag_ok m : state_ok cfg m -> state_ok cfg (ShutdownFlag m).
Proof.
  intros [H1 [K1 K2 K3 K4] H3 H4]. constructor; try done. constructor; cbn; try done.
  intros name id Hid _. destruct (K2 name id Hid I) as (p & s & ? & ? & ? & ? & ? & _). exists p, s.
  split_and!; try done. by left.
Qed.

Lemma finishShutdown_ok m : state_ok cfg m -> m_shutdown m = true -> state_ok cfg (finishShutdown m).
Proof.
  intros [H1 [K1 K2 K3 K4] H3 H4] Hd. constructor; try done. cbn. rewrite Hd. constructor; cbn.
  - intros id p. intros Hp. enough (is_Some (tt_heap (m_timers m) !! id)) as [p' Hp'] by (by eapply K1).
    revert Hp. generalize (map snd (map_to_list (tt_nodeTimers (m_timers m)))). intros ids.
    enough (Hdom : forall h, is_Some (fold_left stopTimer ids h !! id) -> is_Some (h !! id)) by (intros; apply Hdom; eauto).
    induction ids as [|i ids IH]; intros h; cbn [fold_left]; [done|]. intros Hx%IH. unfold stopTimer in Hx.
    destruct (h !! i) as [q|] eqn:Eq; [|done]. destruct (decide (i = id)) as [<-|]; [eauto|].
    by rewrite lookup_insert_ne in Hx.
  - intros name id. by rewrite lookup_empty.
  - intros name id. by rewrite lookup_empty.
  - done.
Qed.

Lemma handle_ok m i now :
  state_ok cfg m -> room (cost i) m -> exists m', handle cfg m i now = Some m' /\ state_ok cfg m'.
Proof.
  intros Hok Hr. destruct i as [a|x|d|remote|id|k| | |inc addr port meta r|meta n r|r| |]; cbn [handle cost] in *.
  - destruct (aliveNode_ok m a false now Hok Hr) as (m' & ? & ? & _). eauto.
  - destruct (suspectNode_ok m x now Hok Hr) as (m' & ? & ? & _). eauto.
  - destruct (deadNode_ok m d now Hok Hr) as (m' & ? & ? & _). eauto.
  - by apply mergeState_ok.
  - eexists. split; [done|]. by apply expireDue_ok.
  - destruct (runCallback_outcome m k now Hok Hr) as (m' & ? & ?). exists m'. split; [done|]. by eapply callback_outcome_ok.
  - destruct (resetNodes_ok m now Hok) as (m' & ? & ? & _). eauto.
  - eexists. split; [done|]. by apply set_incarnation_ok.
  - unfold setAliveCommit. destruct (hasShutdown m); [eauto|].
    destruct (aliveNodeLocked_outcome cfg m (MkAlive inc (c_Name cfg) addr (u16 port) meta (BuildVsnArray cfg)) None true r now Hok Hr)
      as (m' & -> & Ho). exists m'. split; [done|]. by eapply alive_outcome_ok.
  - unfold UpdateNodeContext. destruct (hasShutdown m); [eauto|]. destruct (hasLeft m); [eauto|].
    destruct (nodeAt m (c_Name cfg)) as [l|]; [|eauto]. cbn [nextIncarnation].
    set (m0 := set_incarnation m _). set (a := MkAlive _ _ _ _ _ _).
    destruct (aliveNodeLocked_outcome cfg m0 a (Some n) true (Some r) now) as (m' & -> & Ho);
      [by apply set_incarnation_ok|done|]. exists m'. split; [done|].
    eapply alive_outcome_ok; [|done]. by apply set_incarnation_ok.
  - unfold LeaveContext. cbn [le_m]. destruct (hasShutdown m); [eauto|]. destruct (hasLeft m); [eauto|].
    destruct (nodeAt m (c_Name cfg)) as [l|]; [|eauto]. set (d := MkDead _ _ _).
    pose proof (set_leave_ok m true Hok) as Hok1.
    destruct (deadNodeLocked_outcome cfg (set_leave m true) d (Some r) now) as (m' & -> & Ho); [apply Hok1..|done|].
    exists m'. split; [done|]. by eapply dead_outcome_ok.
  - eexists. split; [done|]. by apply ShutdownFlag_ok.
  - destruct (m_shutdown m) eqn:E; eexists; (split; [done|]); [by apply finishShutdown_ok|done].
Qed.

Lemma reachable_ok aw mult (g : G) m : rtc (step cfg) (newMemberlist aw mult g) m -> state_ok cfg m.
Proof.
  intros H. pose proof (newMemberlist_ok aw mult g) as Hi. remember (newMemberlist aw mult g) as m0 eqn:E0. clear E0.
  induction H as [|m0 m1 m2 (i & now & Hr & Hh) _ IH]; [done|].
  destruct (handle_ok m0 i now Hi Hr) as (m' & E & Hok). apply IH. congruence.
Qed.
End Invariant.

(** ** Specification: the precedence rules of the protocol

    What a message makes of a node's status and incarnation number, for a
    node other than the local one whose address it confirms. *)

Abbreviation status := (NodeStateType * Z)%type.

Definition swim_alive (i : Z) (x : status) : status := if x.2 <? i then (StateAlive, i) else x.

Definition swim_suspect (i : Z) (x : status) : status :=
  if bool_decide (x.1 = StateAlive) && (x.2 <=? i) then (StateSuspect, i) else x.

Definition swim_dead (left : bool) (i : Z) (x : status) : status :=
  if (bool_decide (x.1 = StateAlive) || bool_decide (x.1 = StateSuspect)) && (x.2 <=? i)
  then (if left then StateLeft else StateDead, i) else x.

Definition statusOf (s : nodeState) : status := (st_State s, st_Incarnation s).

Definition rank (t : NodeStateType) : Z :=
  match t with StateAlive => 0 | StateSuspect => 1 | StateDead | StateLeft => 2 end.

(** Newer information: a larger incarnation, or the same and a worse state. *)
Definition status_le (x y : status) : Prop := x.2 < y.2 \/ x.2 = y.2 /\ rank x.1 <= rank y.1.

(** ** Lemmas: what handlers do to the members *)

Section Members.
Context {G : Type} {RG : Rand G} {RL : RandLaws G} {ML : MathLog} (cfg : Config).
Implicit Types m : Memberlist (G := G).

Lemma members_withEvent m kind n r : members (withEvent cfg m kind n r) = members m.
Proof. unfold withEvent. by destruct (c_Events cfg). Qed.

Lemma members_aliveEvent m s s' r : members (aliveEvent cfg m s s' r) = members m.
Proof. unfold aliveEvent. destruct (DeadOrLeft s); [|destruct (negb _); [|done]]; apply members_withEvent. Qed.

Lemma members_refuted m name l accused m' :
  table_ok (m_table m) -> nodeAt m name = Some l -> refuted m l accused m' ->
  members m' = <[name := set_Incarnation (stateAt m l) (refutedInc (m_incarnation m) accused)]> (members m).
Proof.
  intros Ht Hl (q & f & g & -> & _). change (members (set_queue ?x _ _ _)) with (members x).
  change (members (set_awareness ?x _)) with (members x).
  apply (members_putState (set_incarnation m _)); [done|done|]. by apply (name_at m).
Qed.

Lemma members_put m m1 name l s :
  table_ok (m_table m) -> m_table m1 = m_table m -> nodeAt m name = Some l -> st_Name s = name ->
  members (putState m1 l s) = <[name := s]> (members m).
Proof. intros Ht E Hl Hs. unfold members, putState. cbn. rewrite E. by apply nodeEntries_setNode. Qed.

Lemma deadUpdate_name s d now : st_Name (deadUpdate s d now) = st_Name s.
Proof. done. Qed.

Lemma DeadOrLeft_spec s : DeadOrLeft s = true <-> st_State s = StateDead \/ st_State s = StateLeft.
Proof. unfold DeadOrLeft. rewrite orb_true_iff, !bool_decide_eq_true. done. Qed.

(** A dead message is about its node only, and follows the rule. *)
Lemma dead_members m d r now m' s :
  table_ok (m_table m) -> dead_outcome cfg m d r now m' -> members m !! Dead_Node d = Some s ->
  (forall n, n <> Dead_Node d -> members m' !! n = members m !! n) /\
  (Dead_Node d <> c_Name cfg ->
   exists s', members m' !! Dead_Node d = Some s' /\
     statusOf s' = swim_dead (String.eqb (Dead_Node d) (Dead_From d)) (Dead_Incarnation d) (statusOf s)).
Proof.
  intros Ht Ho Hs.
  destruct Ho as [Hm|s0 Hm Hi|s0 Hm Hi Hd|l m2 Hl Hi Hd Hloc Hleft Href|l m1 Hl Hi Hd Hloc Hb].
  - congruence.
  - assert (s0 = s) as -> by congruence. split; [done|]. intros _. exists s. split; [done|]. unfold swim_dead, statusOf. cbn.
    rewrite (proj2 (Z.leb_gt _ _)) by lia. by rewrite andb_false_r.
  - assert (s0 = s) as -> by congruence. split; [done|]. intros _. exists s. split; [done|]. unfold swim_dead, statusOf. cbn.
    apply DeadOrLeft_spec in Hd as [-> | ->]; done.
  - rewrite (members_refuted (withoutTimer m (Dead_Node d)) (Dead_Node d) l (Dead_Incarnation d) m2 Ht Hl Href).
    change (members (withoutTimer m _)) with (members m). split; [|done].
    intros n Hn. by rewrite lookup_insert_ne.
  - apply broadcasts_frame in Hb as (E1 & _). rewrite members_withEvent.
    rewrite (members_put m _ (Dead_Node d)); [|done..|by rewrite deadUpdate_name; apply name_at].
    split; [intros n Hn; by rewrite lookup_insert_ne|]. intros _.
    eexists. rewrite lookup_insert_eq. split; [done|].
    assert (Es : stateAt m l = s) by (rewrite (member_at m _ l Hl) in Hs; congruence). rewrite Es in *.
    unfold swim_dead, statusOf, deadUpdate, st_State. cbn.
    rewrite (proj2 (Z.leb_le _ _)) by lia. unfold DeadOrLeft, st_State in Hd. by destruct (n_State (st_Node s)).
Qed.

Lemma alive_members m a notify b r now m' s :
  state_ok cfg m -> alive_outcome cfg m a notify b r now m' -> members m !! Alive_Node a = Some s ->
  (forall n, n <> Alive_Node a -> members m' !! n = members m !! n) /\
  (Alive_Node a <> c_Name cfg -> aliveAcceptable cfg m a b = true -> sameAddress (st_Node s) a = true ->
   exists s', members m' !! Alive_Node a = Some s' /\
     statusOf s' = swim_alive (Alive_Incarnation a) (statusOf s)).
Proof.
  intros Hok Ho Hs.
  destruct Ho as [Ha|Ha Ht|s0 Ha Ht Hm Hc|s0 u l m1 Ha Ht Hta Hn|s0 u l m1 Ha Ht Hta Hn Hb Hloc Hsame
    |s0 u l m1 m2 Ha Ht Hta Hn Hb Hloc Hsame Href|s0 u l m1 m2 Ha Ht Hta Hn Hb Hbr].
  - split; [done|congruence].
  - split; [done|]. intros _ _ Hsa. rewrite Hs in Ht. unfold aliveTarget in Ht. by rewrite Hsa in Ht.
  - split; [done|]. intros _ _ Hsa. rewrite Hs in Ht. unfold aliveTarget in Ht. by rewrite Hsa in Ht.
  - rewrite (ta_members _ _ _ _ _ _ Hta). split; [intros n Hne; by rewrite lookup_insert_ne|].
    intros Hloc _ Hsa. rewrite Hs in Ht. unfold aliveTarget in Ht. rewrite Hsa in Ht. injection Ht as <- <-.
    exists s. rewrite lookup_insert_eq. split; [done|]. unfold isNews in Hn. unfold swim_alive, statusOf. cbn.
    destruct (String.eqb_spec (Alive_Node a) (c_Name cfg)); [done|]. rewrite orb_false_r in Hn. by rewrite Hn.
  - split; [|done]. change (members (withoutTimer m1 _)) with (members m1).
    rewrite (ta_members _ _ _ _ _ _ Hta). intros n Hne. by rewrite lookup_insert_ne.
  - split; [|done]. rewrite members_aliveEvent.
    rewrite (members_refuted (withoutTimer m1 (Alive_Node a)) (Alive_Node a) l (Alive_Incarnation a) m2);
      [|apply Hta|exact (ta_at _ _ _ _ _ _ Hta)|done].
    change (members (withoutTimer m1 _)) with (members m1). rewrite (ta_members _ _ _ _ _ _ Hta).
    intros n Hne. by rewrite !lookup_insert_ne.
  - apply broadcasts_frame in Hbr as (E1 & _). rewrite members_aliveEvent.
    destruct (aliveUpdate_fields s0 a now) as (Hun & Hus & Hui).
    rewrite (members_put m1 _ (Alive_Node a));
      [|apply Hta|done|exact (ta_at _ _ _ _ _ _ Hta)|by rewrite Hun; apply (ta_name _ _ _ _ _ _ Hta)].
    rewrite (ta_members _ _ _ _ _ _ Hta). split; [intros n Hne; by rewrite !lookup_insert_ne|].
    intros Hloc _ Hsa. rewrite Hs in Ht. unfold aliveTarget in Ht. rewrite Hsa in Ht. injection Ht as <- <-.
    eexists. rewrite lookup_insert_eq. split; [done|]. unfold statusOf, swim_alive. rewrite Hus, Hui. cbn.
    unfold isNews in Hn. destruct (String.eqb_spec (Alive_Node a) (c_Name cfg)); [done|].
    rewrite orb_false_r in Hn. by rewrite Hn.
Qed.

Lemma suspect_members m x now m' s :
  state_ok cfg m -> suspect_outcome cfg m x now m' -> members m !! Suspect_Node x = Some s ->
  (forall n, n <> Suspect_Node x -> members m' !! n = members m !! n) /\
  (Suspect_Node x <> c_Name cfg -> m_shutdown m = false ->
   exists s', members m' !! Suspect_Node x = Some s' /\
     statusOf s' = swim_suspect (Suspect_Incarnation x) (statusOf s)).
Proof.
  intros Hok Ho Hs. pose proof (so_table _ _ Hok) as Ht.
  destruct Ho as [Hd|Hd Hm|s0 Hd Hm Hi|s0 id m1 ok m2 Hd Hm Hi Hid Hst Hc Hb|s0 Hd Hm Hi Hst|l m2 Hd Hl Hi Hst Hloc Href
    |l m1 Hd Hl Hi Hst Hloc Hb].
  - split; [done|congruence].
  - congruence.
  - assert (s0 = s) as -> by congruence. split; [done|]. intros _ _. exists s. split; [done|]. unfold swim_suspect, statusOf. cbn.
    rewrite (proj2 (Z.leb_gt _ _)) by lia. by rewrite andb_false_r.
  - assert (s0 = s) as -> by congruence. assert (Hmm : members m2 = members m).
    { apply confirmTimer_frame in Hc. destruct ok; [destruct Hb as (q & f & g & -> & _)|subst m2];
        rewrite Hc; done. }
    rewrite Hmm. split; [done|]. intros _ _. exists s. split; [done|]. unfold swim_suspect, statusOf. cbn. by rewrite Hst.
  - assert (s0 = s) as -> by congruence. split; [done|]. intros _ _. exists s. split; [done|]. unfold swim_suspect, statusOf. cbn.
    apply DeadOrLeft_spec in Hst as [-> | ->]; done.
  - rewrite (members_refuted _ (Suspect_Node x) _ _ _ Ht Hl Href). split; [|done].
    intros n Hn. by rewrite lookup_insert_ne.
  - apply broadcasts_frame in Hb as (E1 & _).
    change (members (startTimer cfg ?y _ _ _)) with (members y).
    rewrite (members_put m _ (Suspect_Node x)); [|done..|by apply name_at].
    split; [intros n Hn; by rewrite lookup_insert_ne|]. intros _ _.
    eexists. rewrite lookup_insert_eq. split; [done|].
    assert (Es : stateAt m l = s) by (rewrite (member_at m _ l Hl) in Hs; congruence). rewrite Es in *.
    unfold swim_suspect, statusOf, suspectUpdate. rewrite Hst. cbn. by rewrite (proj2 (Z.leb_le _ _)) by lia.
Qed.
(** What an alive message does to the members: its node only, by
    [aliveTarget] and then a new incarnation or the message's update. *)
Lemma alive_effect m a notify b r now m' :
  alive_outcome cfg m a notify b r now m' ->
  members m' = members m \/
  exists s u, aliveTarget cfg (members m !! Alive_Node a) a now = Some (s, u) /\
    (members m' = <[Alive_Node a := s]> (members m) \/
     (b = false /\ Alive_Node a = c_Name cfg /\ exists inc, members m' = <[Alive_Node a := set_Incarnation s inc]> (members m)) \/
     ((b = true \/ Alive_Node a <> c_Name cfg) /\ members m' = <[Alive_Node a := aliveUpdate s a now]> (members m))).
Proof.
  intros [Ha|Ha Ht|s Ha Ht Hm Hc|s u l m1 Ha Ht Hta Hn|s u l m1 Ha Ht Hta Hn Hb Hloc Hsame
    |s u l m1 m2 Ha Ht Hta Hn Hb Hloc Hsame Href|s u l m1 m2 Ha Ht Hta Hn Hb Hbr]; try (by left); right; exists s, u.
  - split; [done|]. left. apply Hta.
  - split; [done|]. left. apply Hta.
  - split; [done|]. right. left. split_and!; [done..|]. eexists. rewrite members_aliveEvent.
    rewrite (members_refuted (withoutTimer m1 (Alive_Node a)) (Alive_Node a) l (Alive_Incarnation a) m2);
      [|apply Hta|exact (ta_at _ _ _ _ _ _ Hta)|done].
    change (members (withoutTimer m1 _)) with (members m1). change (stateAt (withoutTimer m1 _) l) with (stateAt m1 l).
    rewrite (ta_state _ _ _ _ _ _ Hta), (ta_members _ _ _ _ _ _ Hta). by rewrite insert_insert_eq.
  - split; [done|]. right. right. split; [done|]. apply broadcasts_frame in Hbr as (E1 & _). rewrite members_aliveEvent.
    destruct (aliveUpdate_fields s a now) as (Hun & _).
    rewrite (members_put m1 _ (Alive_Node a));
      [|apply Hta|done|exact (ta_at _ _ _ _ _ _ Hta)|by rewrite Hun; apply (ta_name _ _ _ _ _ _ Hta)].
    by rewrite (ta_members _ _ _ _ _ _ Hta), insert_insert_eq.
Qed.

Lemma dead_effect m d r now m' :
  table_ok (m_table m) -> dead_outcome cfg m d r now m' ->
  members m' = members m \/
  exists s, members m !! Dead_Node d = Some s /\ DeadOrLeft s = false /\
    ((Dead_Node d = c_Name cfg /\ m_leave m = false /\
      members m' = <[Dead_Node d := set_Incarnation s (refutedInc (m_incarnation m) (Dead_Incarnation d))]> (members m)) \/
     ((Dead_Node d = c_Name cfg -> m_leave m = true) /\ members m' = <[Dead_Node d := deadUpdate s d now]> (members m))).
Proof.
  intros Ht.
  intros [Hm|s0 Hm Hi|s0 Hm Hi Hd|l m2 Hl Hi Hd Hloc Hleft Href|l m1 Hl Hi Hd Hloc Hb]; try (by left); right;
    exists (stateAt m l); (split; [by apply member_at|split; [done|]]).
  - left. split_and!; [done..|].
    exact (members_refuted (withoutTimer m (Dead_Node d)) (Dead_Node d) l (Dead_Incarnation d) m2 Ht Hl Href).
  - right. split; [done|]. apply broadcasts_frame in Hb as (E1 & _). rewrite members_withEvent.
    apply members_put; [done..|]. by rewrite deadUpdate_name; apply name_at.
Qed.

Lemma suspect_effect m x now m' :
  state_ok cfg m -> suspect_outcome cfg m x now m' ->
  members m' = members m \/
  exists s, members m !! Suspect_Node x = Some s /\ st_State s = StateAlive /\
    ((Suspect_Node x = c_Name cfg /\
      members m' = <[Suspect_Node x := set_Incarnation s (refutedInc (m_incarnation m) (Suspect_Incarnation x))]> (members m)) \/
     (Suspect_Node x <> c_Name cfg /\ members m' = <[Suspect_Node x := suspectUpdate s x now]> (members m))).
Proof.
  intros Hok. pose proof (so_table _ _ Hok) as Ht.
  intros [Hd|Hd Hm|s0 Hd Hm Hi|s0 id m1 ok m2 Hd Hm Hi Hid Hst Hc Hb|s0 Hd Hm Hi Hst|l m2 Hd Hl Hi Hst Hloc Href
    |l m1 Hd Hl Hi Hst Hloc Hb]; try (by left).
  - left. apply confirmTimer_frame in Hc. destruct ok; [destruct Hb as (q & f & g & -> & _)|subst m2]; by rewrite Hc.
  - right. exists (stateAt m l). split; [by apply member_at|split; [done|]]. left. split; [done|].
    exact (members_refuted m (Suspect_Node x) l (Suspect_Incarnation x) m2 Ht Hl Href).
  - right. exists (stateAt m l). split; [by apply member_at|split; [done|]]. right. split; [done|].
    apply broadcasts_frame in Hb as (E1 & _). apply (members_put m); [done..|by apply name_at].
Qed.

(** *** The local node under remote input *)

(** The local entry keeps its record; only the incarnation number moves. *)
Definition keepsLocal m m' : Prop :=
  m_leave m' = m_leave m /\
  forall s, members m !! c_Name cfg = Some s -> st_State s = StateAlive -> m_leave m = false ->
    exists s', members m' !! c_Name cfg = Some s' /\ st_Node s' = st_Node s /\ st_StateChange s' = st_StateChange s.

Lemma keepsLocal_same m m' : m_leave m' = m_leave m -> members m' = members m -> keepsLocal m m'.
Proof. intros E1 E2. split; [done|]. intros s Hs _ _. exists s. by rewrite E2. Qed.

Lemma keepsLocal_trans m1 m2 m3 : keepsLocal m1 m2 -> keepsLocal m2 m3 -> keepsLocal m1 m3.
Proof.
  intros [L1 K1] [L2 K2]. split; [congruence|]. intros s Hs Ha Hl.
  destruct (K1 s Hs Ha Hl) as (s' & Hs' & E1 & E2). destruct (K2 s' Hs') as (s'' & Hs'' & E3 & E4).
  - unfold st_State. by rewrite E1.
  - congruence.
  - exists s''. split_and!; congruence.
Qed.

Lemma keepsLocal_insert m m' name x :
  m_leave m' = m_leave m -> members m' = <[name := x]> (members m) ->
  (name = c_Name cfg -> m_leave m = false -> forall s, members m !! name = Some s -> st_State s = StateAlive ->
     st_Node x = st_Node s /\ st_StateChange x = st_StateChange s) -> keepsLocal m m'.
Proof.
  intros E1 E2 Hx. split; [done|]. intros s Hs Ha Hl. rewrite E2. destruct (decide (name = c_Name cfg)) as [E|Hne].
  - rewrite <- E in *. rewrite lookup_insert_eq. exists x. split; [done|]. by apply (Hx eq_refl).
  - rewrite lookup_insert_ne by done. by exists s.
Qed.

Lemma alive_leave m a notify b r now m' : alive_outcome cfg m a notify b r now m' -> m_leave m' = m_leave m.
Proof.
  assert (Hev : forall m0 s s' r0, m_leave (aliveEvent cfg m0 s s' r0) = m_leave m0).
  { intros. unfold aliveEvent, withEvent. by repeat case_match. }
  assert (Hta : forall s l m1, targeted cfg m a s l m1 -> m_leave m1 = m_leave m).
  { intros s l m1 Hta. by rewrite (ta_rest _ _ _ _ _ _ Hta). }
  intros [Ha|Ha Ht|s Ha Ht Hm Hc|s u l m1 Ha Ht Hta' Hn|s u l m1 Ha Ht Hta' Hn Hb Hloc Hsame
    |s u l m1 m2 Ha Ht Hta' Hn Hb Hloc Hsame Href|s u l m1 m2 Ha Ht Hta' Hn Hb Hbr]; try done; rewrite ?Hev.
  - eauto.
  - change (m_leave m1 = m_leave m). eauto.
  - destruct Href as (q & f & g & -> & _). change (m_leave m1 = m_leave m). eauto.
  - destruct Hbr as (q & f & g & -> & _). change (m_leave m1 = m_leave m). eauto.
Qed.

Lemma dead_leave m d r now m' : dead_outcome cfg m d r now m' -> m_leave m' = m_leave m.
Proof.
  intros [| | |l m2 ? ? ? ? ? Href|l m1 ? ? ? ? Hb]; try done.
  - destruct Href as (q & f & g & -> & _). done.
  - destruct Hb as (q & f & g & -> & _). unfold withEvent. by destruct (c_Events cfg).
Qed.

Lemma suspect_leave m x now m' : suspect_outcome cfg m x now m' -> m_leave m' = m_leave m.
Proof.
  intros [| | |s id m1 ok m2 ? ? ? ? ? Hc Hb| |l m2 ? ? ? ? ? Href|l m1 ? ? ? ? ? Hb]; try done.
  - apply confirmTimer_frame in Hc. destruct ok; [destruct Hb as (q & f & g & -> & _)|subst m2]; by rewrite Hc.
  - destruct Href as (q & f & g & -> & _). done.
  - destruct Hb as (q & f & g & -> & _). done.
Qed.

Lemma alive_keepsLocal m a notify r now m' : alive_outcome cfg m a notify false r now m' -> keepsLocal m m'.
Proof.
  intros Ho. pose proof (alive_leave _ _ _ _ _ _ _ Ho) as El.
  destruct (alive_effect _ _ _ _ _ _ _ Ho) as [E|(s & u & Ht & [E|[(_ & Hloc & inc & E)|[Hor E]]])].
  - by apply keepsLocal_same.
  - eapply keepsLocal_insert; [done|exact E|]. intros _ _ s0 Hs0 _. rewrite Hs0 in Ht.
    unfold aliveTarget in Ht. repeat case_match; by simplify_eq.
  - eapply keepsLocal_insert; [done|exact E|]. intros _ _ s0 Hs0 _. rewrite Hs0 in Ht.
    unfold aliveTarget in Ht. repeat case_match; by simplify_eq.
  - eapply keepsLocal_insert; [done|exact E|]. intros Hloc. destruct Hor; done.
Qed.

Lemma dead_keepsLocal m d r now m' : table_ok (m_table m) -> dead_outcome cfg m d r now m' -> keepsLocal m m'.
Proof.
  intros Hok Ho. pose proof (dead_leave _ _ _ _ _ Ho) as El.
  destruct (dead_effect _ _ _ _ _ Hok Ho) as [E|(s & Hs & _ & [(Hloc & Hl & E)|[Hor E]])].
  - by apply keepsLocal_same.
  - eapply keepsLocal_insert; [done|exact E|]. intros _ _ s0 Hs0 _. by simplify_eq.
  - eapply keepsLocal_insert; [done|exact E|]. intros Hloc Hl. rewrite (Hor Hloc) in Hl. done.
Qed.

Lemma suspect_keepsLocal m x now m' : state_ok cfg m -> suspect_outcome cfg m x now m' -> keepsLocal m m'.
Proof.
  intros Hok Ho. pose proof (suspect_leave _ _ _ _ Ho) as El.
  destruct (suspect_effect _ _ _ _ Hok Ho) as [E|(s & Hs & _ & [(Hloc & E)|[Hor E]])].
  - by apply keepsLocal_same.
  - eapply keepsLocal_insert; [done|exact E|]. intros _ _ s0 Hs0 _. by simplify_eq.
  - eapply keepsLocal_insert; [done|exact E|]. done.
Qed.

(** *** Handlers as sequences of atomic changes *)

(** What a handler can do at a time. With [remote], it is not a call of the
    local user that does it. *)
Inductive atomic (remote : bool) m : Memberlist -> Prop :=
| at_alive a notify b r now m' :
    state_ok cfg m -> m_shutdown m = false -> (b = true -> remote = false /\ Alive_Node a = c_Name cfg) ->
    alive_outcome cfg m a notify b r now m' -> atomic remote m m'
| at_suspect x now m' : state_ok cfg m -> suspect_outcome cfg m x now m' -> atomic remote m m'
| at_dead d r now m' :
    table_ok (m_table m) -> m_shutdown m = false -> dead_outcome cfg m d r now m' -> atomic remote m m'
| at_timers tt : atomic remote m (set_timers m tt)
| at_reset now m' : state_ok cfg m -> resetNodes cfg m now = Some m' -> atomic remote m m'
| at_incarnation inc : remote = false -> atomic remote m (set_incarnation m inc)
| at_leave : remote = false -> m_shutdown m = false -> atomic remote m (set_leave m true)
| at_shutdown : remote = false -> atomic remote m (set_shutdown m true)
| at_finish : remote = false -> m_shutdown m = true -> atomic remote m (finishShutdown m).

Abbreviation atomics remote := (rtc (atomic remote)).

Lemma aliveNode_atomic remote m a now m' :
  state_ok cfg m -> room 1 m -> aliveNode cfg m a false now = Some m' -> atomics remote m m'.
Proof.
  intros Hok Hr. unfold aliveNode, hasShutdown. destruct (m_shutdown m) eqn:Hd; [by intros [= <-]|].
  destruct (aliveNodeLocked_outcome cfg m a None false None now Hok Hr) as (m2 & -> & Ho). intros [= <-].
  by apply rtc_once, (at_alive _ m a None false None now).
Qed.

Lemma suspectNode_atomic remote m x now m' :
  state_ok cfg m -> room 1 m -> suspectNode cfg m x now = Some m' -> atomics remote m m'.
Proof.
  intros Hok Hr. destruct (suspectNode_outcome cfg m x now Hok Hr) as (m2 & -> & Ho). intros [= <-].
  by eapply rtc_once, at_suspect.
Qed.

Lemma deadNode_atomic remote m d now m' :
  state_ok cfg m -> room 1 m -> deadNode cfg m d now = Some m' -> atomics remote m m'.
Proof.
  intros Hok Hr. unfold deadNode, hasShutdown. destruct (m_shutdown m) eqn:Hd; [by intros [= <-]|].
  destruct (deadNodeLocked_outcome cfg m d None now) as (m2 & -> & Ho); [apply Hok..|done|]. intros [= <-].
  eapply rtc_once, at_dead; [apply Hok|done|done].
Qed.

Lemma mergeState_atomic remote m rs now m' :
  state_ok cfg m -> room (len rs) m -> mergeState cfg m rs now = Some m' -> atomics remote m m'.
Proof.
  revert m. induction rs as [|r rs IH]; intros m Hok Hr; cbn [mergeState]; [by intros [= <-]|].
  unfold room in Hr. rewrite len_cons in Hr. pose proof (len_nonneg rs).
  assert (Hr1 : room 1 m) by (unfold room; lia).
  destruct (mergeNode_ok cfg m r now Hok Hr1) as (m1 & E1 & Hok1 & Hg). rewrite E1. cbn [mbind option_bind]. intros E.
  etransitivity; [|apply (IH m1); [done|unfold room; lia|done]].
  unfold mergeNode in E1. destruct (toNodeStateType _) as [[]|];
    [by eapply aliveNode_atomic|by eapply suspectNode_atomic|by eapply suspectNode_atomic|by eapply deadNode_atomic
    |by injection E1 as <-].
Qed.

(** Inputs that do not come from the local user. *)
Definition remoteInput (i : input) : bool :=
  match i with
  | InAlive _ | InSuspect _ | InDead _ | InMerge _ | InExpire _ | InCallback _ | InReset => true
  | _ => false
  end.

Lemma handle_atomic m i now m' :
  state_ok cfg m -> room (cost i) m -> handle cfg m i now = Some m' -> atomics (remoteInput i) m m'.
Proof.
  intros Hok Hr. destruct i as [a|x|d|rs|id|k| | |inc addr port meta r|meta n r|r| |]; cbn [handle cost remoteInput] in *.
  - by apply aliveNode_atomic.
  - by apply suspectNode_atomic.
  - by apply deadNode_atomic.
  - by apply mergeState_atomic.
  - intros [= <-]. unfold expireDue, expireTimer. repeat case_match; try done; eapply rtc_once, at_timers.
  - destruct (runCallback_outcome cfg m k now Hok Hr) as (m2 & -> & Ho). intros [= <-].
    destruct Ho as [|id m0 Hf Hs ->|id p s m0 m1 Hf Hp Hd Hm Hst Hch -> Ho _]; [done|eapply rtc_once, at_timers|].
    eapply rtc_l; [apply at_timers|]. eapply rtc_once, at_dead; [apply Hok|done|exact Ho].
  - intros E. by eapply rtc_once, at_reset.
  - intros [= <-]. by apply rtc_once, at_incarnation.
  - unfold setAliveCommit, hasShutdown. destruct (m_shutdown m) eqn:Hd; [by intros [= <-]|]. set (a := MkAlive _ _ _ _ _ _).
    destruct (aliveNodeLocked_outcome cfg m a None true r now Hok Hr) as (m2 & -> & Ho). intros [= <-].
    by apply rtc_once, (at_alive _ m a None true r now).
  - unfold UpdateNodeContext, hasShutdown. destruct (m_shutdown m) eqn:Hd; [by intros [= <-]|].
    destruct (hasLeft m); [by intros [= <-]|]. destruct (nodeAt m (c_Name cfg)) as [l|]; [|by intros [= <-]].
    cbn [nextIncarnation]. set (m0 := set_incarnation m _). set (a := MkAlive _ _ _ _ _ _).
    assert (Hok0 : state_ok cfg m0) by (by apply set_incarnation_ok).
    destruct (aliveNodeLocked_outcome cfg m0 a (Some n) true (Some r) now Hok0 Hr) as (m2 & -> & Ho). intros [= <-].
    eapply rtc_l; [by apply at_incarnation|]. by apply rtc_once, (at_alive _ m0 a (Some n) true (Some r) now).
  - unfold LeaveContext, hasShutdown. cbn [le_m]. destruct (m_shutdown m) eqn:Hd; [by intros [= <-]|].
    destruct (hasLeft m); [by intros [= <-]|]. destruct (nodeAt m (c_Name cfg)) as [l|]; [|by intros [= <-]].
    set (d := MkDead _ _ _). pose proof (set_leave_ok cfg m true Hok) as Hok1.
    destruct (deadNodeLocked_outcome cfg (set_leave m true) d (Some r) now) as (m2 & -> & Ho); [apply Hok1..|done|].
    intros [= <-]. eapply rtc_l; [by apply at_leave|]. eapply rtc_once, at_dead; [apply Hok1|done|exact Ho].
  - intros [= <-]. by apply rtc_once, at_shutdown.
  - destruct (m_shutdown m) eqn:Hd; intros [= <-]; [|done]. by apply rtc_once, at_finish.
Qed.

Lemma atomic_keepsLocal m m' : atomic true m m' -> keepsLocal m m'.
Proof.
  intros [a notify b r now m1 Hok Hd Hb Ho|x now m1 Hok Ho|d r now m1 Ht Hd Ho|tt|now m1 Hok E|?|?|?|?]; try done.
  - destruct b; [by destruct Hb|]. by eapply alive_keepsLocal.
  - by eapply suspect_keepsLocal.
  - by eapply dead_keepsLocal.
  - by apply keepsLocal_same.
  - destruct (resetNodes_ok cfg m now Hok) as (m2 & E2 & _ & Hms & Hrest & _). rewrite E2 in E. injection E as <-.
    split; [by rewrite Hrest|]. intros s Hs Ha Hl. exists s. split; [|done]. rewrite Hms.
    apply map_lookup_filter_Some. split; [done|]. cbn. unfold expired, DeadOrLeft. by rewrite Ha.
Qed.

Lemma handle_keepsLocal m i now m' :
  state_ok cfg m -> room (cost i) m -> remoteInput i = true -> handle cfg m i now = Some m' -> keepsLocal m m'.
Proof.
  intros Hok Hr Hi E. apply handle_atomic in E; [|done..]. rewrite Hi in E. clear -E.
  induction E as [|m1 m2 m3 H12 _ IH]; [by apply keepsLocal_same|].
  eapply keepsLocal_trans; [by apply atomic_keepsLocal|done].
Qed.

Lemma refutedInc_eq cur acc :
  0 <= cur < MaxUint32 -> 0 <= acc < MaxUint32 -> refutedInc cur acc = Z.max (cur + 1) (acc + 1).
Proof.
  intros Hc Ha. unfold refutedInc. change MaxUint32 with 4294967295 in *. rewrite (u32_small (cur + 1)) by lia.
  destruct (Z.geb_spec acc (cur + 1)); [|lia]. rewrite (u32_small (acc - (cur + 1) + 1)), u32_small by lia. lia.
Qed.

Lemma refutedInc_max cur : 0 <= cur < MaxUint32 -> refutedInc cur MaxUint32 = 0.
Proof.
  intros Hc. unfold refutedInc. change MaxUint32 with 4294967295 in *. rewrite (u32_small (cur + 1)) by lia.
  destruct (Z.geb_spec 4294967295 (cur + 1)); [|lia]. rewrite (u32_small (4294967295 - (cur + 1) + 1)) by lia.
  replace (cur + 1 + (4294967295 - (cur + 1) + 1)) with 4294967296 by lia. done.
Qed.

(** An accusation of the local node is refuted, whoever sends it. *)
Lemma accused_refutes m s acc from now o :
  state_ok cfg m -> room 1 m -> m_shutdown m = false -> m_leave m = false ->
  members m !! c_Name cfg = Some s -> st_State s = StateAlive -> st_Incarnation s <= acc ->
  o = suspectNode cfg m (MkSuspect acc (c_Name cfg) from) now \/ o = deadNode cfg m (MkDead acc (c_Name cfg) from) now ->
  exists m' l m0, o = Some m' /\ nodeAt m (c_Name cfg) = Some l /\ stateAt m l = s /\
    refuted m0 l acc m' /\ m_table m0 = m_table m /\ m_incarnation m0 = m_incarnation m /\
    m_awareness m0 = m_awareness m.
Proof.
  intros Hok Hr Hd Hl Hs Ha Hi.
  assert (Hat : exists l, nodeAt m (c_Name cfg) = Some l /\ stateAt m l = s).
  { rewrite members_lookup in Hs. destruct (nodeAt m (c_Name cfg)) as [l|]; [|done]. exists l. by injection Hs. }
  destruct Hat as (l & Hat & Est). intros [->| ->].
  - destruct (suspectNode_outcome cfg m (MkSuspect acc (c_Name cfg) from) now Hok Hr) as (m' & -> & Ho).
    destruct Ho as [|? Hm|s0 ? Hm Hi0|s0 id m1 ok m2 ? Hm Hi0 Hid Hst Hc Hb|s0 ? Hm Hi0 Hst
      |l0 m2 ? Hl0 Hi0 Hst Hloc Href|l0 m1 ? Hl0 Hi0 Hst Hloc Hb]; cbn [Suspect_Node Suspect_Incarnation Dead_Node Dead_Incarnation] in *; try congruence.
    + assert (s0 = s) as -> by congruence. lia.
    + assert (s0 = s) as -> by congruence. apply DeadOrLeft_spec in Hst as [E|E]; congruence.
    + assert (l0 = l) as -> by congruence. by exists m2, l, m.
  - unfold deadNode, hasShutdown. rewrite Hd.
    destruct (deadNodeLocked_outcome cfg m (MkDead acc (c_Name cfg) from) None now) as (m' & -> & Ho); [apply Hok..|done|].
    destruct Ho as [Hm|s0 Hm Hi0|s0 Hm Hi0 Hdl|l0 m2 Hl0 Hi0 Hdl Hloc Hleft Href|l0 m1 Hl0 Hi0 Hdl Hloc Hb];
      cbn [Suspect_Node Suspect_Incarnation Dead_Node Dead_Incarnation] in *; try congruence.
    + assert (s0 = s) as -> by congruence. lia.
    + assert (s0 = s) as -> by congruence. apply DeadOrLeft_spec in Hdl as [E|E]; congruence.
    + assert (l0 = l) as -> by congruence. by exists m2, l, (withoutTimer m (c_Name cfg)).
    + rewrite Hloc in Hl; done.
Qed.

End Members.

Lemma len_Alive a : Alive_valid a -> len (Alive_AppendMsgpack a []) <= MaxInt64.
Proof.
  destruct a as [inc node addr port meta vsn]. unfold Alive_valid, bytes_ok, str_ok.
  cbn [Alive_Incarnation Alive_Node Alive_Addr Alive_Port Alive_Meta Alive_Vsn]. intros (_ & Hn & Ha & _ & Hm & Hv).
  unfold Alive_AppendMsgpack, appendB, appendU, appendS.
  cbn [Alive_Incarnation Alive_Node Alive_Addr Alive_Port Alive_Meta Alive_Vsn]. len_fields.
  change (len (str2b "Addr")) with 4 in *. change (len (str2b "Incarnation")) with 11 in *.
  change (len (str2b "Meta")) with 4 in *. change (len (str2b "Node")) with 4 in *.
  change (len (str2b "Port")) with 4 in *. change (len (str2b "Vsn")) with 3 in *. change (len []) with 0 in *.
  change MaxFieldBytes with 1048576 in *. change MaxInt64 with 9223372036854775807. lia.
Qed.

Lemma decode_encode_alive a : Alive_valid a -> decode KAlive (drop 1 (encode aliveMsg (MAlive a))) = Ok (MAlive a).
Proof.
  intros Hv. rewrite encode_cons. cbn [drop]. rewrite drop_0, <- (app_nil_r (AppendMsgpack _ [])).
  apply reads_decode; [|rewrite app_nil_r; by apply len_Alive].
  by apply reads_setting, Alive_roundtrip.
Qed.

Lemma swim_alive_le i x : status_le x (swim_alive i x).
Proof. unfold swim_alive, status_le. destruct (Z.ltb_spec x.2 i); cbn; lia. Qed.

Lemma swim_suspect_le i x : status_le x (swim_suspect i x).
Proof.
  unfold swim_suspect, status_le. case_bool_decide as E; cbn [andb]; [|lia]. rewrite E.
  destruct (Z.leb_spec x.2 i); cbn; rewrite ?E; cbn; lia.
Qed.

Lemma swim_dead_le b i x : status_le x (swim_dead b i x).
Proof.
  unfold swim_dead, status_le. destruct (_ || _); cbn [andb]; [|lia].
  destruct (Z.leb_spec x.2 i); cbn; [|lia]. destruct b, x.1; cbn; lia.
Qed.

Lemma Members_nodup t f :
  table_ok t -> NoDup (map (fun s => n_Name (st_Node s)) (List.filter f (map (deref t) (t_nodes t)))).
Proof.
  intros Ht. assert (Hnd : NoDup (map (fun s => n_Name (st_Node s)) (map (deref t) (t_nodes t)))).
  { rewrite map_map. apply NoDup_fmap_2_strong; [|apply Ht]. intros l1 l2 H1 H2 E.
    destruct (to_listed _ Ht l1 H1) as [s1 Hs1], (to_listed _ Ht l2 H2) as [s2 Hs2].
    rewrite (deref_lookup _ _ _ Hs1), (deref_lookup _ _ _ Hs2) in E.
    assert (E1 : t_nodeMap t !! st_Name s1 = Some l1) by (apply (to_map _ Ht); eauto).
    assert (E2 : t_nodeMap t !! st_Name s2 = Some l2) by (apply (to_map _ Ht); eauto).
    unfold st_Name in *. congruence. }
  revert Hnd. generalize (map (deref t) (t_nodes t)). intros l. induction l as [|s l IH]; cbn; [done|].
  intros [Hs Hl]%NoDup_cons. destruct (f s); [|by apply IH]. cbn. apply NoDup_cons. split; [|by apply IH].
  intros Hin. apply Hs. apply list_elem_of_fmap in Hin as (s' & E & Hin). apply list_elem_of_fmap. exists s'.
  split; [done|]. apply list_elem_of_In, filter_In in Hin as [Hin _]. by apply list_elem_of_In.
Qed.

(** ** Example executions *)

Section Runs.
Context {G : Type} {RG : Rand G} {ML : MathLog} (cfg : Config).
Implicit Types m : Memberlist (G := G).

Fixpoint runInputs m (l : list (input * Z)) : option Memberlist :=
  match l with
  | [] => Some m
  | (i, now) :: l =>
      if q_idGen (m_broadcasts m) + cost i <=? MaxInt64 then m ← handle cfg m i now; runInputs m l else None
  end.

Lemma runInputs_rtc m l m' : runInputs m l = Some m' -> rtc (step cfg) m m'.
Proof.
  revert m. induction l as [|[i now] l IH]; intros m; cbn [runInputs]; [by intros [= <-]|].
  destruct (Z.leb_spec (q_idGen (m_broadcasts m) + cost i) MaxInt64) as [Hr|]; [|done].
  destruct (handle cfg m i now) as [m1|] eqn:E; [|done]. cbn [mbind option_bind]. intros H.
  eapply rtc_l; [exists i, now; split; [exact Hr|exact E]|]. by apply IH.
Qed.
End Runs.

Definition exampleConfig (name : string) : Config :=
  MkConfig name 2 0 0 0 4 6 1000000000 30000000000 0 [] None true true.

Definition exampleAddr (last : Z) : slice := Some (map z2b [10; 0; 0; last]).
Definition exampleVsn : slice := Some (map z2b [1; 5; 2; 0; 0; 0]).

(** Node [a] announces itself, then hears of [b] and of a suspicion of [b]. *)
Definition exampleTrace : list (input * Z) :=
  [(InDraw, 0); (InAnnounce 1 (exampleAddr 1) 7946 None None, 1);
   (InAlive (MkAlive 3 "b" (exampleAddr 2) 7946 None exampleVsn), 2);
   (InSuspect (MkSuspect 3 "b" "c"), 5)].

Definition exampleStart : Memberlist (G := Z) := newMemberlist 8 4 1.
Definition exampleState : Memberlist (G := Z) :=
  default exampleStart (runInputs (exampleConfig "a") exampleStart exampleTrace).

Lemma exampleState_runs : runInputs (exampleConfig "a") exampleStart exampleTrace = Some exampleState.
Proof.
  unfold exampleState. destruct (runInputs (exampleConfig "a") exampleStart exampleTrace) as [m|] eqn:E; [done|].
  vm_compute in E. discriminate.
Qed.

Lemma exampleState_reachable : rtc (step (exampleConfig "a")) exampleStart exampleState.
Proof. eapply runInputs_rtc, exampleState_runs. Qed.

Lemma exampleState_ok : state_ok (exampleConfig "a") exampleState.
Proof. apply (reachable_ok (exampleConfig "a") 8 4 1), exampleState_reachable. Qed.

(** ** Properties *)

(** C1: The membership invariant. Whatever messages, timers and calls an
    instance has handled, in any order, no handler can fail, and: the node
    list, the node map and the node count describe the same nodes, each once
    under its own name; every suspected node has a suspicion timer that is
    armed or about to run its callback, and a registered timer belongs to the
    node's current suspicion; the node never suspects itself; the broadcast
    queue is well formed. *)
Theorem membership_invariant {G} `{RandLaws G} `{MathLog} cfg aw mult (g : G) m :
  rtc (step cfg) (newMemberlist aw mult g) m ->
  state_ok cfg m /\ NoDup (map n_Name (Members m)) /\ NumMembers m = len (Members m) /\
  (forall i now, room (cost i) m -> exists m', handle cfg m i now = Some m').
Proof.
  intros Hr. pose proof (reachable_ok cfg aw mult g m Hr) as Hok. split_and!; [done| | |].
  - unfold Members. rewrite map_map. apply Members_nodup. apply Hok.
  - unfold NumMembers, Members. unfold len. by rewrite length_map.
  - intros i now Hroom. destruct (handle_ok cfg m i now Hok Hroom) as (m' & E & _). eauto.
Qed.

Lemma membership_invariant_witness :
  state_ok (exampleConfig "a") exampleState /\ NoDup (map n_Name (Members exampleState)) /\
  NumMembers exampleState = len (Members exampleState) /\
  (forall i now, room (cost i) exampleState -> exists m', handle (exampleConfig "a") exampleState i now = Some m').
Proof. apply (membership_invariant (exampleConfig "a") 8 4 1 exampleState), exampleState_reachable. Defined.


(** Node [b] as [a] knows it in the example. *)
Definition exampleB : nodeState := default nilState (members exampleState !! "b"%string).

Lemma exampleB_known : members exampleState !! "b"%string = Some exampleB.
Proof.
  unfold exampleB. destruct (members exampleState !! "b"%string) eqn:E; [done|]. vm_compute in E. discriminate.
Qed.

