(* ===== verification/Beliefs.v ===== *)
(** What a node believes and says. A family of predicates on the records a node
    stores and on the messages it queues, with the laws under which every
    handler keeps them. The widths of fields ([Typing]) and what is known in a
    cluster ([Cluster]) are instances. *)

From S2P Require Import Prelude Msgpack Wire Treap Timing Queue NetAddr Nodes Events Packet State Lifecycle Membership.

(** What the predicates may depend on of the node itself: its incarnation
    counter and whether it has left. *)
Definition standing : Type := Z * bool.

Class Beliefs := {
  okCounter : Z -> Prop;
  budget : Z -> Z -> Prop;                (* the counter can be drawn from so often *)
  grows : standing -> standing -> Prop;   (* how the node itself may change *)
  okState : standing -> nodeState -> Prop;
  okAlive : standing -> Alive -> Prop;
  okSuspect : standing -> Suspect -> Prop;
  okDead : standing -> Dead -> Prop;
  okAccused : standing -> Z -> Prop;      (* an incarnation the node is accused at *)
  okMeta : slice -> Prop;                 (* meta data of the application *)
}.

(** The record of a node never seen before. *)
Definition newRecord (a : Alive) : nodeState :=
  let node := newNode (Alive_Node a) (Alive_Addr a) (Alive_Port a) (Alive_Meta a) StateDead in
  MkNodeState (if len (slice_bytes (Alive_Vsn a)) >? 0 then setVersions node (parseVsn (Alive_Vsn a)).1 else node) 0 zeroTime.

Definition suspectUpdate (s : nodeState) (x : Suspect) (now : Z) : nodeState :=
  set_State (set_Incarnation s (Suspect_Incarnation x)) StateSuspect now.

Definition diedAs (d : Dead) : NodeStateType := if String.eqb (Dead_Node d) (Dead_From d) then StateLeft else StateDead.

Class BeliefLaws (B : Beliefs) (cfg : Config) : Prop := {
  grows_preorder :: PreOrder grows;
  budget_less c n k : budget c n -> 0 <= k <= n -> budget c k;
  okState_grows v v' s : grows v v' -> okState v s -> okState v' s;
  okAlive_grows v v' a : grows v v' -> okAlive v a -> okAlive v' a;
  okSuspect_grows v v' x : grows v v' -> okSuspect v x -> okSuspect v' x;
  okDead_grows v v' d : grows v v' -> okDead v d -> okDead v' d;
  okState_new v a : okAlive v a -> okState v (newRecord a);
  okState_alive v s a now : okState v s -> okAlive v a -> st_Name s = Alive_Node a -> okState v (aliveUpdate s a now);
  okState_suspect v s x now : okState v s -> okSuspect v x -> st_Name s = Suspect_Node x -> okState v (suspectUpdate s x now);
  okState_dead v s d now : okState v s -> okDead v d -> st_Name s = Dead_Node d ->
    okState v (set_State (set_Incarnation s (Dead_Incarnation d)) (diedAs d) now);
  accused_alive v a : okAlive v a -> Alive_Node a = c_Name cfg -> okAccused v (Alive_Incarnation a);
  accused_suspect v x : okSuspect v x -> Suspect_Node x = c_Name cfg -> okAccused v (Suspect_Incarnation x);
  accused_dead v d : okDead v d -> Dead_Node d = c_Name cfg -> okAccused v (Dead_Incarnation d);
  draw_ok c n l : 0 <= n -> okCounter c -> budget c (n + 1) -> okCounter (u32 (c + 1)) /\ budget (u32 (c + 1)) n /\ grows (c, l) (u32 (c + 1), l);
  refute_ok c n l acc : 0 <= n -> okCounter c -> budget c (n + 1) -> okAccused (c, l) acc ->
    okCounter (refutedInc c acc) /\ budget (refutedInc c acc) n /\ grows (c, l) (refutedInc c acc, l);
  refuted_ok c l s : okCounter c -> okState (c, l) s -> st_Name s = c_Name cfg ->
    okState (c, l) (set_Incarnation s c) /\ okAlive (c, l) (aliveOf (st_Node s) c);
  update_ok c l s meta : okCounter c -> okState (c, l) s -> okMeta meta ->
    okAlive (c, l) (MkAlive c (c_Name cfg) (n_Addr (st_Node s)) (n_Port (st_Node s)) meta (BuildVsnArray cfg));
  leave_ok c l s : okState (c, l) s -> st_Name s = c_Name cfg ->
    grows (c, l) (c, true) /\ okDead (c, true) (MkDead (st_Incarnation s) (st_Name s) (st_Name s));
  expire_ok v s : okState v s -> st_State s = StateSuspect -> st_Name s <> c_Name cfg ->
    okDead v (MkDead (st_Incarnation s) (st_Name s) (c_Name cfg));
}.

(** ** A node that keeps to its beliefs *)

Section Sound.
Context {G : Type} {RG : Rand G} {RL : RandLaws G} {ML : MathLog} {B : Beliefs} (cfg : Config) {BL : BeliefLaws B cfg}.
Implicit Types m : Memberlist (G := G).

Definition standingOf m : standing := (m_incarnation m, m_leave m).

(** The three messages a node gossips about the membership. *)
Inductive said (v : standing) : bytes -> Prop :=
| said_alive a : okAlive v a -> said v (encode aliveMsg (MAlive a))
| said_suspect x : okSuspect v x -> said v (encode suspectMsg (MSuspect x))
| said_dead d : okDead v d -> said v (encode deadMsg (MDead d)).

Record sound m : Prop := {
  sd_counter : okCounter (m_incarnation m);
  sd_nodes l s : t_heap (m_table m) !! l = Some s -> okState (standingOf m) s;
  sd_queue k b : (k, b) ∈ contents (m_broadcasts m) -> said (standingOf m) (mb_msg b);
}.

(** From [m] to [m'] with [n] draws left. *)
Record kept (n : Z) m m' : Prop := {
  kp_sound : sound m';
  kp_grows : grows (standingOf m) (standingOf m');
  kp_budget : budget (m_incarnation m') n;
}.

(** What a peer's state says of a node, as [mergeNode] reads it. *)
Definition okRemote (v : standing) (r : PushNodeState) : Prop :=
  match toNodeStateType (PNS_State r) with
  | Some StateAlive => okAlive v (MkAlive (PNS_Incarnation r) (PNS_Name r) (PNS_Addr r) (PNS_Port r) (PNS_Meta r) (PNS_Vsn r))
  | Some StateLeft => okDead v (MkDead (PNS_Incarnation r) (PNS_Name r) (PNS_Name r))
  | Some StateDead | Some StateSuspect => okSuspect v (MkSuspect (PNS_Incarnation r) (PNS_Name r) (c_Name cfg))
  | None => True
  end.

Definition okInput m (i : input) : Prop :=
  match i with
  | InAlive a => okAlive (standingOf m) a
  | InSuspect x => okSuspect (standingOf m) x
  | InDead d => okDead (standingOf m) d
  | InMerge remote => Forall (okRemote (standingOf m)) remote
  | InAnnounce inc addr port meta _ => okAlive (standingOf m) (MkAlive inc (c_Name cfg) addr (u16 port) meta (BuildVsnArray cfg))
  | InUpdate meta _ _ => okMeta meta
  | _ => True
  end.

(** How often an input can draw from the counter. *)
Definition draws (i : input) : Z := match i with InDraw => 1 | _ => cost i end.

(** ** Lemmas *)

Lemma said_grows v v' b : grows v v' -> said v b -> said v' b.
Proof.
  intros Hg []; constructor; [by eapply okAlive_grows|by eapply okSuspect_grows|by eapply okDead_grows].
Qed.

Lemma okRemote_grows v v' r : grows v v' -> okRemote v r -> okRemote v' r.
Proof.
  intros Hg. unfold okRemote. destruct (toNodeStateType _) as [[]|];
    [by apply okAlive_grows|by apply okSuspect_grows|by apply okSuspect_grows|by apply okDead_grows|done].
Qed.

Lemma kept_refl n m : sound m -> budget (m_incarnation m) n -> kept n m m.
Proof. intros. by constructor. Qed.
Lemma kept_less n k m : sound m -> budget (m_incarnation m) n -> 0 <= k <= n -> kept k m m.
Proof. intros. apply kept_refl; [done|by eapply budget_less]. Qed.
Lemma kept_trans n1 n2 m1 m2 m3 : kept n1 m1 m2 -> kept n2 m2 m3 -> kept n2 m1 m3.
Proof. intros [_ Hg _] [? Hg' ?]. constructor; [done|by transitivity (standingOf m2)|done]. Qed.

(** A change of fields that carry no belief. *)
Lemma sound_same m m' :
  standingOf m' = standingOf m -> t_heap (m_table m') = t_heap (m_table m) -> m_broadcasts m' = m_broadcasts m -> sound m -> sound m'.
Proof.
  intros Hv Ht Hq [Hc Hn Hb]. constructor; rewrite ?Hv, ?Ht, ?Hq; [|done..]. by injection Hv as -> _.
Qed.
Lemma kept_same n m1 m m' :
  standingOf m' = standingOf m -> t_heap (m_table m') = t_heap (m_table m) -> m_broadcasts m' = m_broadcasts m -> kept n m1 m -> kept n m1 m'.
Proof.
  intros Hv Ht Hq [Hs Hg Hb]. constructor; [by apply (sound_same m)|by rewrite Hv|]. by injection Hv as -> _.
Qed.

(** The node itself changes. *)
Lemma sound_grows m m' :
  grows (standingOf m) (standingOf m') -> okCounter (m_incarnation m') -> t_heap (m_table m') = t_heap (m_table m) ->
  m_broadcasts m' = m_broadcasts m -> sound m -> sound m'.
Proof.
  intros Hg Hc Ht Hq [_ Hn Hb]. constructor; rewrite ?Ht, ?Hq; [done| |].
  - intros l s Hs. eapply okState_grows; eauto.
  - intros k b Hin. eapply said_grows; eauto.
Qed.

Lemma sound_put m l s : sound m -> okState (standingOf m) s -> sound (putState m l s).
Proof.
  intros [Hc Hn Hb] Hs. constructor; [done| |done]. cbn. intros l' s' Hl.
  apply lookup_insert_Some in Hl as [[_ <-]|[_ Hl]]; [done|by eapply Hn].
Qed.

Lemma sound_broadcast m node t msg notify m' :
  sound m -> queue_ok (m_broadcasts m) -> room 1 m -> said (standingOf m) (encode t msg) ->
  encodeBroadcastNotify m node t msg notify = Some m' -> sound m' /\ standingOf m' = standingOf m /\ m_table m' = m_table m.
Proof.
  intros [Hc Hn Hb] Hq Hr Hg. unfold encodeBroadcastNotify, queueBroadcast, QueueBroadcast.
  set (b := MemberlistBroadcast _ _ _). unfold room in Hr.
  destruct (queueBroadcast_ok mb_msg (m_rng m) (m_broadcasts m) b 0 Hq ltac:(lia)) as (q' & g' & -> & _ & _ & _ & Hp).
  cbn [mbind option_bind]. intros [= <-]. split; [|done]. constructor; [done|done|]. cbn [set_queue m_broadcasts]. intros k b'.
  rewrite Hp, elem_of_cons. intros [[= _ ->]|(e & He & Hin)%list_elem_of_fmap]; [done|]. apply (Hb k b'). unfold contents.
  rewrite He. apply list_elem_of_fmap. exists e. split; [done|]. rewrite list_elem_of_In, List.filter_In in Hin. apply list_elem_of_In, Hin.
Qed.

Lemma refute_eq m l s acc :
  t_heap (m_table m) !! l = Some s ->
  let inc := refutedInc (m_incarnation m) acc in
  refute m l acc =
  encodeAndBroadcast (set_awareness (putState (set_incarnation m inc) l (set_Incarnation s inc)) (ApplyDelta (m_awareness m) 1))
    (b2str (ipString (slice_bytes (n_Addr (st_Node s))))) aliveMsg (MAlive (aliveOf (st_Node s) inc)).
Proof.
  intros Hl inc. assert (Em : deref (m_table m) l = s) by (unfold deref; by rewrite Hl). subst inc. unfold refute, refutedInc. cbn [nextIncarnation].
  destruct (acc >=? _); cbn [skipIncarnation m_incarnation set_incarnation]; unfold stateAt, putState;
    cbn [m_table set_awareness set_table set_incarnation m_awareness]; by rewrite deref_setNode, decide_True, Em by done.
Qed.

Lemma refute_kept n m l s acc m' :
  sound m -> queue_ok (m_broadcasts m) -> room 1 m -> 0 <= n -> budget (m_incarnation m) (n + 1) ->
  t_heap (m_table m) !! l = Some s -> st_Name s = c_Name cfg -> okAccused (standingOf m) acc ->
  refute m l acc = Some m' -> kept n m m'.
Proof.
  intros Hm Hq Hr Hn Hb Hl Hs Hacc E. destruct (refute_ok _ n (m_leave m) acc Hn (sd_counter _ Hm) Hb Hacc) as (Hc & Hb' & Hg).
  set (inc := refutedInc (m_incarnation m) acc) in *.
  set (m1 := set_awareness (putState (set_incarnation m inc) l (set_Incarnation s inc)) (ApplyDelta (m_awareness m) 1)).
  assert (Hm1 : sound (set_incarnation m inc)) by (by apply (sound_grows m)).
  destruct (refuted_ok inc (m_leave m) s Hc (sd_nodes _ Hm1 l s Hl) Hs) as [Hs1 Ha].
  assert (Hm2 : sound m1) by (apply (sound_same (putState (set_incarnation m inc) l (set_Incarnation s inc))); [done..|by apply sound_put]).
  rewrite (refute_eq m l s acc Hl) in E. fold inc m1 in E.
  eapply sound_broadcast in E as (Hm' & Hv & _); [|done|done|done|by constructor].
  constructor; [done|by rewrite Hv|]. by injection Hv as -> _.
Qed.

(** *** Alive messages *)

Lemma node_known m name l : table_ok (m_table m) -> nodeAt m name = Some l -> exists s, t_heap (m_table m) !! l = Some s /\ stateAt m l = s /\ st_Name s = name.
Proof. intros Ht Hl. destruct (table_name _ _ _ Ht Hl) as (_ & Hh & Hn). by exists (stateAt m l). Qed.

Lemma addNode_sound m a :
  sound m -> okAlive (standingOf m) a ->
  let m1 := (addNode m a).1 in
  sound m1 /\ standingOf m1 = standingOf m /\ m_broadcasts m1 = m_broadcasts m /\ t_heap (m_table m1) !! (addNode m a).2 = Some (newRecord a).
Proof.
  intros [Hc Hn Hb] Ha. pose proof (okState_new _ a Ha) as Hs. unfold addNode, newRecord in *. destruct (parseVsn (Alive_Vsn a)) as [vsn ok].
  cbn [fst] in Hs. destruct (randomOffset _ _) as [off g]. cbn. split_and!; [|done|done|apply lookup_insert_eq]. constructor; [done| |done]. cbn.
  intros l s' Hl. apply lookup_insert_Some in Hl as [[_ <-]|[_ Hl]]; [done|by eapply Hn].
Qed.

Lemma aliveNodeState_sound m a now :
  table_ok (m_table m) -> sound m -> okAlive (standingOf m) a ->
  match aliveNodeState cfg m a now with
  | inl m1 => sound m1 /\ standingOf m1 = standingOf m
  | inr (m1, l, _) => sound m1 /\ standingOf m1 = standingOf m /\ m_broadcasts m1 = m_broadcasts m /\
      exists s, t_heap (m_table m1) !! l = Some s /\ stateAt m1 l = s /\ st_Name s = Alive_Node a
  end.
Proof.
  intros Ht Hm Ha. unfold aliveNodeState. destruct (nodeAt m (Alive_Node a)) as [l|] eqn:El.
  - destruct (node_known m _ l Ht El) as (s & Hs). repeat case_match; simplify_eq; split_and!; try done; eauto; by apply (sound_same m).
  - destruct (negb _); [done|]. destruct (addNode_sound m a Hm Ha) as (H1 & H2 & H3 & H4). destruct (addNode m a) as [m1 l]. cbn [fst snd] in *.
    split_and!; [done..|]. exists (newRecord a). split; [done|]. unfold stateAt, deref, newRecord. rewrite H4. split; [done|]. cbn. by destruct (_ >? 0).
Qed.

Lemma alive_kept n m a notify (b : bool) r now m' :
  table_ok (m_table m) -> sound m -> queue_ok (m_broadcasts m) -> room 1 m -> 0 <= n -> budget (m_incarnation m) (if b then n else n + 1) ->
  okAlive (standingOf m) a -> aliveNodeLocked cfg m a notify b r now = Some m' -> kept n m m'.
Proof.
  intros Ht Hm Hq Hr Hn Hb Ha. assert (Hk : kept n m m) by (eapply kept_less; [done|done|destruct b; lia]).
  assert (Hb' : b = false -> budget (m_incarnation m) (n + 1)) by (by intros ->). clear Hb. unfold aliveNodeLocked. destruct (negb _); [by intros [= <-]|]. pose proof (aliveNodeState_sound m a now Ht Hm Ha) as H1.
  destruct (aliveNodeState cfg m a now) as [m1|[[m1 l] updates]].
  { destruct H1 as [H1 Hv]. intros [= <-]. constructor; [done|by rewrite Hv|]. injection Hv as -> _. apply Hk. }
  destruct H1 as (Hm1 & Hv & Hq1 & s & Hl & El & Hs). assert (Hk1 : kept n m m1).
  { constructor; [done|by rewrite Hv|]. injection Hv as -> _. apply Hk. }
  unfold aliveApply. rewrite El.
  case_match; [by intros [= <-]|]. case_match; [by intros [= <-]|].
  assert (Hk2 : kept n m (set_timers m1 (clearTimer (m_timers m1) (Alive_Node a)))) by (by apply (kept_same n m m1)). set (m2 := set_timers _ _) in *.
  assert (Hr2 : room 1 m2) by (unfold room; cbn; by rewrite Hq1). assert (Hq2 : queue_ok (m_broadcasts m2)) by (cbn; by rewrite Hq1).
  assert (Ha2 : okAlive (standingOf m2) a) by (change (okAlive (standingOf m1) a); by rewrite Hv).
  destruct (parseVsn (Alive_Vsn a)) as [vsn ok]. destruct (negb b && String.eqb (st_Name s) (c_Name cfg)) eqn:Eloc.
  - apply andb_true_iff in Eloc as [Eb%negb_true_iff Eloc%String.eqb_eq]. subst b. case_match; [by intros [= <-]|].
    destruct (refute m2 l _) as [m3|] eqn:E; cbn [mbind option_bind]; [|done]. intros [= <-].
    assert (Hk3 : kept n m m3).
    { eapply kept_trans; [exact Hk2|]. eapply (refute_kept n m2 l s); [apply Hk2|done..| |done|done|apply (accused_alive (cfg := cfg)); [done|congruence]|exact E].
      injection Hv as Hi _. cbn. rewrite Hi. by apply Hb'. }
    repeat case_match; try done; by apply (kept_same n m m3).
  - destruct (encodeBroadcastNotify m2 _ _ _ _) as [m3|] eqn:E; cbn [mbind option_bind]; [|done]. intros [= <-].
    eapply sound_broadcast in E as (Hm3 & Hv3 & Ht3); [|apply Hk2|done|done|by constructor].
    assert (Hk3 : kept n m (putState m3 l (aliveUpdate s a now))).
    { constructor; [|change (grows (standingOf m) (standingOf m3)); rewrite Hv3; apply Hk2|].
      - apply sound_put; [done|]. rewrite Hv3. apply (okState_alive (cfg := cfg)); [|done|done]. apply (sd_nodes _ Hm1 l s Hl).
      - change (budget (m_incarnation m3) n). injection Hv3 as -> _. apply Hk2. }
    repeat case_match; try done; by apply (kept_same n m (putState m3 l (aliveUpdate s a now))).
Qed.

(** *** Dead and suspect messages *)

Lemma dead_kept n m d r now m' :
  table_ok (m_table m) -> sound m -> queue_ok (m_broadcasts m) -> room 1 m -> 0 <= n -> budget (m_incarnation m) (n + 1) ->
  okDead (standingOf m) d -> deadNodeLocked cfg m d r now = Some m' -> kept n m m'.
Proof.
  intros Ht Hm Hq Hr Hn Hb Hd. assert (Hk : kept n m m) by (eapply kept_less; [done|done|lia]).
  unfold deadNodeLocked. destruct (nodeAt m (Dead_Node d)) as [l|] eqn:El; [|by intros [= <-]].
  destruct (node_known m _ l Ht El) as (s & Hl & Es & Hs). rewrite Es. destruct (Dead_Incarnation d <? _); [by intros [= <-]|].
  assert (Hk2 : kept n m (set_timers m (clearTimer (m_timers m) (Dead_Node d)))) by (by apply (kept_same n m m)). set (m2 := set_timers _ _) in *.
  destruct (DeadOrLeft s); [by intros [= <-]|]. destruct (String.eqb_spec (st_Name s) (c_Name cfg)) as [Eloc|Eloc]; [destruct (negb (hasLeft m2))|]; cbn [andb].
  { intros E. eapply kept_trans; [exact Hk2|]. eapply (refute_kept n m2 l s); [apply Hk2|done..|apply (accused_dead (cfg := cfg)); [done|congruence]|exact E]. }
  all: unfold encodeAndBroadcast; destruct (encodeBroadcastNotify m2 _ _ _ _) as [m3|] eqn:E; cbn [mbind option_bind]; [|done]; intros [= <-];
    (eapply sound_broadcast in E as (Hm3 & Hv3 & Ht3); [|apply Hk2|done|done|by constructor]);
    assert (Hk3 : kept n m (putState m3 l (set_State (set_Incarnation s (Dead_Incarnation d)) (diedAs d) now)));
    [constructor; [apply sound_put; [done|]; rewrite Hv3; apply (okState_dead (cfg := cfg)); [apply (sd_nodes _ Hm l s Hl)|done|done]
      |change (grows (standingOf m) (standingOf m3)); rewrite Hv3; apply Hk2|change (budget (m_incarnation m3) n); injection Hv3 as -> _; apply Hk2]
    |fold (diedAs d); destruct (c_Events cfg); [eapply (kept_same n m); [| | |exact Hk3]; done|exact Hk3]].
Qed.

Lemma suspect_kept n m x now m' :
  table_ok (m_table m) -> sound m -> queue_ok (m_broadcasts m) -> room 1 m -> 0 <= n -> budget (m_incarnation m) (n + 1) ->
  okSuspect (standingOf m) x -> suspectNode cfg m x now = Some m' -> kept n m m'.
Proof.
  intros Ht Hm Hq Hr Hn Hb Hx. assert (Hk : kept n m m) by (eapply kept_less; [done|done|lia]).
  unfold suspectNode. destruct (hasShutdown m); [by intros [= <-]|].
  destruct (nodeAt m (Suspect_Node x)) as [l|] eqn:El; [|by intros [= <-]].
  destruct (node_known m _ l Ht El) as (s & Hl & Es & Hs). rewrite Es. destruct (Suspect_Incarnation x <? _); [by intros [= <-]|].
  destruct (tt_nodeTimers _ !! _) as [id|].
  - assert (Hc : exists tt ok, confirmTimer m id (Suspect_From x) now = (set_timers m tt, ok)).
    { unfold confirmTimer. destruct (_ !! id); [destruct (Confirm _ _ _) as [[? ?] ?]; eauto|]. exists (m_timers m), false. by destruct m. }
    destruct Hc as (tt & ok & ->). assert (Hk2 : kept n m (set_timers m tt)) by (by apply (kept_same n m m)).
    destruct ok; [|by intros [= <-]]. intros E. eapply sound_broadcast in E as (Hm3 & Hv3 & _); [|apply Hk2|done|done|by constructor].
    constructor; [done|by rewrite Hv3|]. injection Hv3 as -> _. apply Hk2.
  - case_match; [by intros [= <-]|]. destruct (String.eqb_spec (st_Name s) (c_Name cfg)) as [Eloc|Eloc].
    { eapply (refute_kept n m l s); [done..|]. apply (accused_suspect (cfg := cfg)); [done|congruence]. }
    destruct (encodeAndBroadcast m _ _ _) as [m1|] eqn:E; cbn [mbind option_bind]; [|done]. intros [= <-].
    eapply sound_broadcast in E as (Hm3 & Hv3 & _); [|done|done|done|by constructor].
    apply (kept_same n m (putState m1 l (suspectUpdate s x now))); [done..|]. constructor.
    + apply sound_put; [done|]. rewrite Hv3. apply (okState_suspect (cfg := cfg)); [by apply (sd_nodes _ Hm l)|done|done].
    + change (grows (standingOf m) (standingOf m1)). by rewrite Hv3.
    + change (budget (m_incarnation m1) n). injection Hv3 as -> _. apply Hk.
Qed.

(** *** Handlers *)

Lemma merge_kept n m r now m' :
  state_ok cfg m -> sound m -> room 1 m -> 0 <= n -> budget (m_incarnation m) (n + 1) ->
  okRemote (standingOf m) r -> mergeNode cfg m r now = Some m' -> kept n m m'.
Proof.
  intros Hok Hm Hr Hn Hb. assert (Hk : kept n m m) by (eapply kept_less; [done|done|lia]). pose proof (so_table _ _ Hok). pose proof (so_queue _ _ Hok).
  unfold mergeNode, okRemote, aliveNode, deadNode. destruct (toNodeStateType _) as [[]|]; intros Hre; [| | | |by intros [= <-]].
  - destruct (hasShutdown m); [by intros [= <-]|]. by apply alive_kept.
  - by apply suspect_kept.
  - by apply suspect_kept.
  - destruct (hasShutdown m); [by intros [= <-]|]. by apply dead_kept.
Qed.

Lemma mergeState_kept n m rs now m' :
  state_ok cfg m -> sound m -> room (len rs) m -> 0 <= n -> budget (m_incarnation m) (n + len rs) ->
  Forall (okRemote (standingOf m)) rs -> mergeState cfg m rs now = Some m' -> kept n m m'.
Proof.
  revert m. induction rs as [|r rs IH]; intros m Hok Hm Hr Hn Hb Hv; cbn [mergeState].
  { intros [= <-]. apply kept_refl; [done|]. by rewrite len_nil, Z.add_0_r in Hb. }
  apply Forall_cons in Hv as [Hv Hvs]. unfold room in Hr. rewrite len_cons in Hr, Hb. pose proof (len_nonneg rs).
  assert (Hr1 : room 1 m) by (unfold room; lia).
  destruct (mergeNode_ok cfg m r now Hok Hr1) as (m1 & E1 & Hok1 & Hg). rewrite E1. cbn [mbind option_bind]. intros E.
  assert (Hk1 : kept (n + len rs) m m1) by (eapply merge_kept; [done..|lia| |done|done]; by replace (n + len rs + 1) with (n + (1 + len rs)) by lia).
  eapply kept_trans; [exact Hk1|]. apply IH; [done|apply Hk1|unfold room; lia|done|apply Hk1| |done].
  eapply Forall_impl; [exact Hvs|]. intros r'. apply okRemote_grows, Hk1.
Qed.

(** Every handler keeps the beliefs, and draws no more than it may. *)
Lemma handle_kept n m i now m' :
  state_ok cfg m -> sound m -> room (cost i) m -> 0 <= n -> budget (m_incarnation m) (n + draws i) -> okInput m i ->
  handle cfg m i now = Some m' -> kept n m m'.
Proof.
  intros Hok Hm Hr Hn Hb Hi. assert (Hk : kept n m m).
  { eapply kept_less; [done|exact Hb|]. assert (0 <= draws i) by (destruct i; cbn; try lia; apply len_nonneg). lia. }
  pose proof (so_queue _ _ Hok) as Hq. pose proof (so_table _ _ Hok) as Ht.
  destruct i as [a|x|d|rs|id|k| | |inc addr port meta r|meta nt r|r| |]; cbn [handle cost draws okInput] in *.
  - unfold aliveNode. destruct (hasShutdown m); [by intros [= <-]|]. by apply alive_kept.
  - by apply suspect_kept.
  - unfold deadNode. destruct (hasShutdown m); [by intros [= <-]|]. by apply dead_kept.
  - by apply mergeState_kept.
  - intros [= <-]. unfold expireDue, expireTimer. repeat case_match; try done; by apply (kept_same n m m).
  - unfold runCallback. destruct (tt_firing _ !! k); [|by intros [= <-]]. set (m1 := set_timers m _).
    assert (Hk1 : kept n m m1) by (by apply (kept_same n m m)). destruct (tt_heap _ !! _) as [p|]; [|by intros [= <-]].
    unfold timerCallback. case_match; [by intros [= <-]|]. destruct (nodeAt m1 (p_node p)) as [l|] eqn:El; [|by intros [= <-]].
    destruct (node_known m (p_node p) l Ht El) as (s & Hl & Es & Hs). change (stateAt m1 l) with (stateAt m l). rewrite Es.
    destruct (bool_decide _ && _) eqn:Esus; [|by intros [= <-]]. apply andb_true_iff in Esus as [Esus%bool_decide_eq_true _].
    intros E. eapply kept_trans; [exact Hk1|]. eapply dead_kept; [done|apply Hk1|done..| |exact E].
    apply (expire_ok (cfg := cfg)); [by apply (sd_nodes _ Hm l)|done|]. intros Eme. eapply (so_local _ _ Hok s); [|done].
    rewrite members_lookup. rewrite <- Eme, Hs. change (nodeAt m (p_node p) = Some l) in El. rewrite El. cbn. by rewrite Es.
  - unfold resetNodes. destruct (moveDeadNodes _ _ _ _) as [[nodes idx]|]; cbn [mbind option_bind]; [|done].
    destruct (shuffleNodes _ _). intros [= <-]. by apply (kept_same n m m).
  - intros [= <-]. destruct (draw_ok _ n (m_leave m) Hn (sd_counter _ Hm) Hb) as (Hc & Hb' & Hg). constructor; [by apply (sound_grows m)|done|done].
  - unfold setAliveCommit. destruct (hasShutdown m); [by intros [= <-]|].
    destruct (aliveNodeLocked _ _ _ _ _ _ _) as [m1|] eqn:E; [|done]. intros [= <-]. eapply (alive_kept n m _ _ true); [done..|apply Hk|done|done].
  - unfold UpdateNodeContext. destruct (hasShutdown m); [by intros [= <-]|]. destruct (hasLeft m); [by intros [= <-]|].
    destruct (nodeAt m (c_Name cfg)) as [l|] eqn:El; [|by intros [= <-]]. cbn [nextIncarnation]. set (m0 := set_incarnation m _).
    destruct (node_known m _ l Ht El) as (s & Hl & Es & Hs). rewrite Es.
    destruct (draw_ok _ n (m_leave m) Hn (sd_counter _ Hm) Hb) as (Hc & Hb' & Hg).
    assert (Hm0 : sound m0) by (by apply (sound_grows m)).
    pose proof (update_ok (cfg := cfg) _ (m_leave m) s meta Hc (sd_nodes _ Hm0 l s Hl) Hi) as Ha.
    destruct (aliveNodeLocked _ _ _ _ _ _ _) as [m1|] eqn:E; [|done]. intros [= <-].
    assert (Hk0 : kept n m m0) by (by constructor). eapply kept_trans; [exact Hk0|]. by eapply (alive_kept n m0 _ _ true).
  - unfold LeaveContext. cbn [le_m]. destruct (hasShutdown m); [by intros [= <-]|]. destruct (hasLeft m); [by intros [= <-]|].
    destruct (nodeAt m (c_Name cfg)) as [l|] eqn:El; [|by intros [= <-]]. destruct (node_known m _ l Ht El) as (s & Hl & Es & Hs). rewrite Es.
    destruct (leave_ok (cfg := cfg) (m_incarnation m) (m_leave m) s (sd_nodes _ Hm l s Hl) Hs) as [Hg Hd].
    destruct (deadNodeLocked _ _ _ _ _) as [m1|] eqn:E; [|done]. intros [= <-].
    assert (Hk1 : kept (n + 1) m (set_leave m true)) by (constructor; [by apply (sound_grows m); try apply Hm|done|done]).
    eapply kept_trans; [exact Hk1|]. eapply (dead_kept n (set_leave m true)); [done|apply Hk1|done..|exact E].
  - intros [= <-]. by apply (kept_same n m m).
  - intros [= <-]. destruct (m_shutdown m); [|done]. by apply (kept_same n m m).
Qed.
End Sound.

(** ** Both of two families *)

Definition both (B1 B2 : Beliefs) : Beliefs := {|
  okCounter c := okCounter (Beliefs := B1) c /\ okCounter (Beliefs := B2) c;
  budget c n := budget (Beliefs := B1) c n /\ budget (Beliefs := B2) c n;
  grows v v' := grows (Beliefs := B1) v v' /\ grows (Beliefs := B2) v v';
  okState v s := okState (Beliefs := B1) v s /\ okState (Beliefs := B2) v s;
  okAlive v a := okAlive (Beliefs := B1) v a /\ okAlive (Beliefs := B2) v a;
  okSuspect v x := okSuspect (Beliefs := B1) v x /\ okSuspect (Beliefs := B2) v x;
  okDead v d := okDead (Beliefs := B1) v d /\ okDead (Beliefs := B2) v d;
  okAccused v acc := okAccused (Beliefs := B1) v acc /\ okAccused (Beliefs := B2) v acc;
  okMeta p := okMeta (Beliefs := B1) p /\ okMeta (Beliefs := B2) p |}.

Lemma both_laws B1 B2 cfg : BeliefLaws B1 cfg -> BeliefLaws B2 cfg -> BeliefLaws (both B1 B2) cfg.
Proof.
  intros L1 L2. constructor; cbn.
  - split; [intros v; by split|]. intros v1 v2 v3 [H1 H2] [H3 H4]. split; by transitivity v2.
  - intros c n k [] ?. split; by eapply budget_less.
  - intros v v' s [] []. split; by eapply okState_grows.
  - intros v v' s [] []. split; by eapply okAlive_grows.
  - intros v v' s [] []. split; by eapply okSuspect_grows.
  - intros v v' s [] []. split; by eapply okDead_grows.
  - intros v a []. split; by apply (okState_new (cfg := cfg)).
  - intros v s a now [] [] ?. split; by apply (okState_alive (cfg := cfg)).
  - intros v s a now [] [] ?. split; by apply (okState_suspect (cfg := cfg)).
  - intros v s a now [] [] ?. split; by apply (okState_dead (cfg := cfg)).
  - intros v a [] ?. split; by apply (accused_alive (cfg := cfg)).
  - intros v a [] ?. split; by apply (accused_suspect (cfg := cfg)).
  - intros v a [] ?. split; by apply (accused_dead (cfg := cfg)).
  - intros c n l Hn [C1 C2] [D1 D2]. destruct (draw_ok (BeliefLaws := L1) c n l Hn C1 D1), (draw_ok (BeliefLaws := L2) c n l Hn C2 D2). tauto.
  - intros c n l acc Hn [C1 C2] [D1 D2] [A1 A2].
    destruct (refute_ok (BeliefLaws := L1) c n l acc Hn C1 D1 A1), (refute_ok (BeliefLaws := L2) c n l acc Hn C2 D2 A2). tauto.
  - intros c l s [C1 C2] [S1 S2] E. destruct (refuted_ok (BeliefLaws := L1) c l s C1 S1 E), (refuted_ok (BeliefLaws := L2) c l s C2 S2 E). tauto.
  - intros c l s meta [] [] []. split; by apply (update_ok (cfg := cfg)).
  - intros c l s [S1 S2] E. destruct (leave_ok (BeliefLaws := L1) c l s S1 E), (leave_ok (BeliefLaws := L2) c l s S2 E). tauto.
  - intros v s [] ? ?. split; by apply (expire_ok (cfg := cfg)).
Qed.
