(* ===== verification/Typing.v ===== *)
(** The widths and sizes of what a node stores and says: with inputs the
    decoders can produce, every field of every record fits its Go type and the
    decoding limits, and every broadcast a node queues is one that a receiver
    decodes to the message that was meant. *)

From S2P Require Import Prelude Msgpack Wire Treap Timing Queue NetAddr Nodes Events Packet State Lifecycle Membership Beliefs.

(** ** Well-typed data *)

Definition versions_typed (v : vsnArray) : Prop :=
  u8_ok (v_pmin v) /\ u8_ok (v_pmax v) /\ u8_ok (v_pcur v) /\ u8_ok (v_dmin v) /\ u8_ok (v_dmax v) /\ u8_ok (v_dcur v).

Record node_typed (s : nodeState) : Prop := {
  nt_name : str_ok (st_Name s);
  nt_addr : bytes_ok (n_Addr (st_Node s));
  nt_port : u16_ok (n_Port (st_Node s));
  nt_meta : bytes_ok (n_Meta (st_Node s));
  nt_versions : versions_typed (versions (st_Node s));
  nt_incarnation : u32_ok (st_Incarnation s);
}.

(** The fields of the configuration that a node sends. *)
Definition config_typed (cfg : Config) : Prop := str_ok (c_Name cfg).

(** Inputs as the decoders and the local calls produce them. *)
Definition input_typed (i : input) : Prop :=
  match i with
  | InAlive a => Alive_valid a
  | InSuspect x => Suspect_valid x
  | InDead d => Dead_valid d
  | InMerge remote => Forall PushNodeState_valid remote
  | InAnnounce inc addr _ meta _ => u32_ok inc /\ bytes_ok addr /\ bytes_ok meta
  | InUpdate meta _ _ => bytes_ok meta
  | _ => True
  end.

(** ** Values *)

Lemma u32_typed z : u32_ok (u32 z).
Proof. unfold u32_ok. ints. Qed.
Lemma u16_typed z : u16_ok (u16 z).
Proof. unfold u16_ok. ints. Qed.
Lemma vsnBytes_typed p : len p = 6 -> bytes_ok (Some p).
Proof. unfold bytes_ok. cbn [slice_bytes]. change MaxFieldBytes with 1048576. lia. Qed.
Lemma parseVsn_typed v : versions_typed (parseVsn v).1.
Proof.
  unfold parseVsn, versions_typed, u8_ok. change MaxUint8 with 255. repeat case_match; cbn; try lia.
  split_and!; match goal with |- context [b2z ?b] => pose proof (b2z_range b); lia end.
Qed.
Lemma nilState_typed : node_typed nilState.
Proof. by constructor; vm_compute. Qed.

Lemma aliveOf_typed s inc : node_typed s -> u32_ok inc -> Alive_valid (aliveOf (st_Node s) inc).
Proof. intros [] Hi. unfold Alive_valid, aliveOf. cbn. split_and!; try done. Qed.

Lemma set_State_typed s t change : node_typed s -> node_typed (set_State s t change).
Proof. by intros []. Qed.
Lemma set_Incarnation_typed s inc : node_typed s -> u32_ok inc -> node_typed (set_Incarnation s inc).
Proof. by intros []. Qed.

Lemma aliveUpdate_typed s a now : node_typed s -> Alive_valid a -> node_typed (aliveUpdate s a now).
Proof.
  intros [] (Hi & Hn & Ha & Hp & Hm & _). unfold aliveUpdate. pose proof (parseVsn_typed (Alive_Vsn a)) as Hv.
  destruct (parseVsn (Alive_Vsn a)) as [vsn ok]. cbn in Hv.
  set (t := MkNodeState _ _ _). assert (node_typed t) by (subst t; destruct (_ >? 0); by constructor).
  by destruct (negb _); [apply set_State_typed|].
Qed.

(** ** The beliefs *)

(** Nothing depends on the node itself but that its counter is in range. *)
Definition typedBeliefs : Beliefs := {|
  okCounter := u32_ok; budget _ _ := True; grows _ _ := True;
  okState _ := node_typed; okAlive _ := Alive_valid; okSuspect _ := Suspect_valid; okDead _ := Dead_valid;
  okAccused _ _ := True; okMeta := bytes_ok |}.

Lemma newRecord_typed a : Alive_valid a -> node_typed (newRecord a).
Proof.
  intros (_ & Hname & Ha & Hp & Hm & _). pose proof (parseVsn_typed (Alive_Vsn a)). unfold newRecord.
  destruct (_ >? 0); constructor; try done; by vm_compute.
Qed.

Lemma typedLaws cfg : config_typed cfg -> BeliefLaws typedBeliefs cfg.
Proof.
  intros Hc. constructor; cbn; try done.
  - intros _ a. apply newRecord_typed.
  - intros _ s a now Hs Ha _. by apply aliveUpdate_typed.
  - intros _ s x now Hs Hx _. apply set_State_typed, set_Incarnation_typed; [done|apply Hx].
  - intros _ s d now Hs Hd _. apply set_State_typed, set_Incarnation_typed; [done|apply Hd].
  - intros. split_and!; [apply u32_typed|done..].
  - intros c n l acc _ _ _ _. split_and!; [|done..]. unfold refutedInc. destruct (acc >=? _); apply u32_typed.
  - intros c l s Hi Hs _. split; [by apply set_Incarnation_typed|by apply aliveOf_typed].
  - intros c l s meta Hi Hs Hm. split_and!; [done|done|apply Hs|apply Hs|done|by apply vsnBytes_typed].
  - intros c l s Hs _. split; [done|]. split_and!; apply Hs.
  - intros _ s Hs _ _. split_and!; [apply Hs|apply Hs|done].
Qed.

Lemma okInput_typed {G} cfg (m : Memberlist (G := G)) i : config_typed cfg -> input_typed i -> okInput (B := typedBeliefs) cfg m i.
Proof.
  intros Hc. destruct i as [a|x|d|rs| | | | |inc addr port meta r|meta n r|r| |]; cbn; try done.
  - intros Hrs. eapply Forall_impl; [exact Hrs|]. intros r (Hn & Ha & Hp & Hm & Hi & _ & Hv). unfold okRemote. cbn. by destruct (toNodeStateType _) as [[]|].
  - intros (Hi & Ha & Hm). split_and!; [done|done|done|apply u16_typed|done|by apply vsnBytes_typed].
Qed.

Lemma sound_new {G} `{Rand G} {B : Beliefs} aw mult (g : G) : okCounter 0 -> sound (newMemberlist aw mult g).
Proof. intros H0. constructor; cbn; [done| |]. - intros l s. by rewrite lookup_empty. - by intros k b ?%elem_of_nil. Qed.

(** ** Receivers *)

Lemma len_Suspect x : Suspect_valid x -> len (Suspect_AppendMsgpack x []) <= MaxInt64.
Proof.
  destruct x as [inc node from]. unfold Suspect_valid, str_ok. cbn [Suspect_Node Suspect_From]. intros (_ & Hn & Hf).
  unfold Suspect_AppendMsgpack, appendU, appendS. cbn [Suspect_Incarnation Suspect_Node Suspect_From]. len_fields.
  change (len (str2b "Incarnation")) with 11 in *. change (len (str2b "Node")) with 4 in *. change (len (str2b "From")) with 4 in *.
  change (len []) with 0 in *. change MaxFieldBytes with 1048576 in *. change MaxInt64 with 9223372036854775807. lia.
Qed.
Lemma len_Dead x : Dead_valid x -> len (Dead_AppendMsgpack x []) <= MaxInt64.
Proof.
  destruct x as [inc node from]. unfold Dead_valid, str_ok. cbn [Dead_Node Dead_From]. intros (_ & Hn & Hf).
  unfold Dead_AppendMsgpack, appendU, appendS. cbn [Dead_Incarnation Dead_Node Dead_From]. len_fields.
  change (len (str2b "Incarnation")) with 11 in *. change (len (str2b "Node")) with 4 in *. change (len (str2b "From")) with 4 in *.
  change (len []) with 0 in *. change MaxFieldBytes with 1048576 in *. change MaxInt64 with 9223372036854775807. lia.
Qed.

Lemma decode_encode_typed t k msg :
  reads (DecodeMsgpack k) (AppendMsgpack msg []) msg -> len (AppendMsgpack msg []) <= MaxInt64 -> decode k (drop 1 (encode t msg)) = Ok msg.
Proof.
  intros Hr Hl. rewrite encode_cons. cbn [drop]. rewrite drop_0, <- (app_nil_r (AppendMsgpack _ [])).
  apply reads_decode; [done|]. by rewrite app_nil_r.
Qed.

Lemma decode_encode_suspect x : Suspect_valid x -> decode KSuspect (drop 1 (encode suspectMsg (MSuspect x))) = Ok (MSuspect x).
Proof. intros Hx. apply decode_encode_typed; [by apply reads_setting, Suspect_roundtrip|by apply len_Suspect]. Qed.
Lemma decode_encode_dead d : Dead_valid d -> decode KDead (drop 1 (encode deadMsg (MDead d))) = Ok (MDead d).
Proof. intros Hd. apply decode_encode_typed; [by apply reads_setting, Dead_roundtrip|by apply len_Dead]. Qed.

(** The type bytes of membership gossip and what is read under each. *)
Definition gossiped (t : Z) (k : kind) : Prop := (t, k) ∈ [(aliveMsg, KAlive); (suspectMsg, KSuspect); (deadMsg, KDead)].

(** The message type, the kind it is decoded as, and a valid message. *)
Lemma gossip_decodes v b :
  said (B := typedBeliefs) v b ->
  exists t k msg, gossiped t k /\ b = encode t msg /\ valid msg /\ decode k (drop 1 b) = Ok msg.
Proof.
  intros [a Ha|x Hx|d Hd].
  - exists aliveMsg, KAlive, (MAlive a). split_and!; [unfold gossiped; set_solver|done|done|by apply decode_encode_alive].
  - exists suspectMsg, KSuspect, (MSuspect x). split_and!; [unfold gossiped; set_solver|done|done|by apply decode_encode_suspect].
  - exists deadMsg, KDead, (MDead d). split_and!; [unfold gossiped; set_solver|done|done|by apply decode_encode_dead].
Qed.

(** A run with typed inputs. *)
Lemma typed_run {G} `{RandLaws G} `{MathLog} cfg (m m' : Memberlist (G := G)) l :
  config_typed cfg -> state_ok cfg m -> sound (B := typedBeliefs) m -> Forall (fun i => input_typed i.1) l -> runInputs cfg m l = Some m' ->
  state_ok cfg m' /\ sound (B := typedBeliefs) m'.
Proof.
  intros Hc. revert m. induction l as [|[i now] l IH]; intros m Hok Hm Hl; [by intros [= <-]|].
  apply Forall_cons in Hl as [Hi Hl]. cbn [runInputs]. destruct (Z.leb_spec (q_idGen (m_broadcasts m) + cost i) MaxInt64) as [Hr|]; [|done].
  destruct (handle_ok cfg m i now Hok Hr) as (m1 & E & Hok1). rewrite E. cbn [mbind option_bind].
  apply IH; [done| |done]. pose proof (typedLaws cfg Hc).
  eapply kp_sound, (handle_kept (B := typedBeliefs) cfg 0 m i now); [done..|by apply okInput_typed|done].
Qed.

(** ** Property *)

(** C34: Widths are kept. From a fresh instance, through any sequence of
    messages, merges, timers and calls whose values fit their Go types and the
    decoding limits, as decoded ones do, every record of the node table and
    the incarnation counter stay within them; and each broadcast the node
    queues is an alive, suspect or dead message under its own type byte that a
    receiver decodes to exactly the message that was encoded. *)
Theorem membership_typed {G} `{RandLaws G} `{MathLog} cfg aw mult (g : G) l m :
  config_typed cfg -> Forall (fun i => input_typed i.1) l -> runInputs cfg (newMemberlist aw mult g) l = Some m ->
  u32_ok (m_incarnation m) /\ (forall name s, members m !! name = Some s -> node_typed s) /\
  (forall k b, (k, b) ∈ contents (m_broadcasts m) ->
     exists t kd msg, gossiped t kd /\ mb_msg b = encode t msg /\ valid msg /\
       decode kd (drop 1 (mb_msg b)) = Ok msg).
Proof.
  intros Hc Hl E. eapply typed_run in E as [Hok [Hi Hn Hb]]; [|done|apply newMemberlist_ok|by apply sound_new; vm_compute|done]. split_and!; [done| |].
  - intros name s. rewrite members_lookup. destruct (nodeAt m name) as [loc|] eqn:El; [|done]. intros [= <-].
    destruct (node_known m name loc (so_table _ _ Hok) El) as (s & Hl' & -> & _). by apply (Hn loc).
  - intros k b Hin. by apply (gossip_decodes (standingOf m)), (Hb k b).
Qed.

Lemma membership_typed_witness :
  contents (m_broadcasts exampleState) <> [] /\
  (u32_ok (m_incarnation exampleState) /\ (forall name s, members exampleState !! name = Some s -> node_typed s) /\
   (forall k b, (k, b) ∈ contents (m_broadcasts exampleState) ->
      exists t kd msg, gossiped t kd /\ mb_msg b = encode t msg /\ valid msg /\
        decode kd (drop 1 (mb_msg b)) = Ok msg)).
Proof.
  split; [by vm_compute|]. apply (membership_typed (exampleConfig "a") 8 4 1 exampleTrace exampleState).
  - by vm_compute.
  - repeat constructor; by vm_compute.
  - apply exampleState_runs.
Defined.
