(* ===== verification/Protocol.v ===== *)
(** What the membership protocol guarantees, over whole executions: the local
    node is never lost to what others say of it, accusations are refuted and
    refutations clear suspicions, suspicions end, replayed messages die out,
    events tell presence, and leaving and shutting down are final. *)

From S2P Require Import Prelude Msgpack Wire Treap Timing Queue NetAddr Nodes Events Packet State Lifecycle Membership.

(** ** Lemmas: the local node *)

Section Local.
Context {G : Type} {RG : Rand G} {RL : RandLaws G} {ML : MathLog} (cfg : Config).
Implicit Types m : Memberlist (G := G).

(** An induction over executions: what every handler preserves, a run does. *)
Lemma runInputs_ind (P : Memberlist -> Prop) (Q : input -> Prop) :
  (forall m i now m', state_ok cfg m -> Q i -> P m -> room (cost i) m -> handle cfg m i now = Some m' -> P m') ->
  forall l m m', state_ok cfg m -> Forall (fun x => Q (fst x)) l -> P m -> runInputs cfg m l = Some m' ->
  state_ok cfg m' /\ P m'.
Proof.
  intros Hstep l. induction l as [|[i now] l IH]; intros m m' Hok HQ HP; cbn [runInputs]; [by intros [= <-]|].
  destruct (Z.leb_spec (q_idGen (m_broadcasts m) + cost i) MaxInt64) as [Hr|]; [|done].
  apply Forall_cons in HQ as [Hi HQ]. destruct (handle_ok cfg m i now Hok Hr) as (m1 & E & Hok1).
  rewrite E. cbn [mbind option_bind]. apply IH; [done|done|]. by eapply (Hstep m i now).
Qed.

(** What a refutation leaves. *)
Lemma refutation_effect m s acc from now o :
  state_ok cfg m -> room 1 m -> m_shutdown m = false -> m_leave m = false ->
  members m !! c_Name cfg = Some s -> st_State s = StateAlive -> st_Incarnation s <= acc ->
  o = suspectNode cfg m (MkSuspect acc (c_Name cfg) from) now \/ o = deadNode cfg m (MkDead acc (c_Name cfg) from) now ->
  let inc := refutedInc (m_incarnation m) acc in
  exists m', o = Some m' /\ members m' = <[c_Name cfg := set_Incarnation s inc]> (members m) /\
    m_incarnation m' = inc /\ m_awareness m' = ApplyDelta (m_awareness m) 1 /\
    queued m' (b2str (ipString (slice_bytes (n_Addr (st_Node s))))) aliveMsg (MAlive (aliveOf (st_Node s) inc)) None.
Proof.
  intros Hok Hr Hd Hl Hs Ha Hi Ho inc.
  destruct (accused_refutes cfg m s acc from now o Hok Hr Hd Hl Hs Ha Hi Ho)
    as (m' & l & m0 & -> & Hat & Est & Href & Et & Ei & Eaw).
  exists m'. split; [done|].
  assert (Hat0 : nodeAt m0 (c_Name cfg) = Some l) by (unfold nodeAt; by rewrite Et).
  assert (Est0 : stateAt m0 l = s) by (unfold stateAt; rewrite Et; exact Est).
  assert (Ht0 : table_ok (m_table m0)) by (rewrite Et; apply Hok).
  split.
  { rewrite (members_refuted m0 (c_Name cfg) l acc m' Ht0 Hat0 Href), Est0, Ei.
    unfold members. by rewrite Et. }
  unfold refuted in Href. rewrite Est0, Ei, Eaw in Href. fold inc in Href.
  pose proof (broadcasts_frame _ _ _ _ _ _ Href) as (_ & _ & _ & _ & E1 & _ & E2 & _).
  destruct Href as (q & f & g & _ & _ & _ & Hq). by rewrite E1, E2.
Qed.
End Local.

(** ** Lemmas: suspicions *)

Section Suspicions.
Context {G : Type} {RG : Rand G} {RL : RandLaws G} {ML : MathLog} (cfg : Config).
Implicit Types m : Memberlist (G := G).

Lemma alive_clears m a notify b r now m' s :
  state_ok cfg m -> alive_outcome cfg m a notify b r now m' -> members m !! Alive_Node a = Some s ->
  Alive_Node a <> c_Name cfg -> aliveAcceptable cfg m a b = true -> sameAddress (st_Node s) a = true ->
  st_Incarnation s < Alive_Incarnation a ->
  exists s', members m' !! Alive_Node a = Some s' /\ statusOf s' = (StateAlive, Alive_Incarnation a) /\
    tt_nodeTimers (m_timers m') !! Alive_Node a = None.
Proof.
  intros Hok Ho Hs Hne Hacc Hsa Hi. destruct (alive_members cfg _ _ _ _ _ _ _ _ Hok Ho Hs) as [_ Hst].
  destruct (Hst Hne Hacc Hsa) as (s' & Hs' & E). exists s'. split; [done|].
  unfold swim_alive, statusOf in E. cbn [snd] in E. destruct (Z.ltb_spec (st_Incarnation s) (Alive_Incarnation a)); [|lia].
  split; [exact E|]. apply alive_outcome_ok in Ho; [|done].
  destruct (tt_nodeTimers (m_timers m') !! Alive_Node a) as [id|] eqn:Eid; [|done].
  destruct (tk_named _ _ _ _ (so_timers _ _ Ho) _ _ Eid I) as (p & s0 & _ & _ & Hs0 & Hsus & _).
  rewrite Hs' in Hs0. injection Hs0 as <-. injection E as E _. congruence.
Qed.

(** The node a timer that ran out leaves. *)
Definition expiredNode (s : nodeState) (now : Z) : nodeState :=
  deadUpdate s (MkDead (st_Incarnation s) (st_Name s) (c_Name cfg)) now.

(** The callback of a node's own timer: the node is dead. *)
Lemma callback_current m name i id s now :
  state_ok cfg m -> room 1 m -> m_shutdown m = false -> tt_firing (m_timers m) !! i = Some id ->
  tt_nodeTimers (m_timers m) !! name = Some id -> members m !! name = Some s ->
  exists m', runCallback cfg m i now = Some m' /\ state_ok cfg m' /\
    members m' = <[name := expiredNode s now]> (members m) /\ st_State (expiredNode s now) = StateDead /\
    tt_nodeTimers (m_timers m') !! name = None /\
    queued m' name deadMsg (MDead (MkDead (st_Incarnation s) name (c_Name cfg))) None /\
    e_events (m_events m') = e_events (m_events m) ++
      (if c_Events cfg
       then [MkEvent eventLeave (st_Node (expiredNode s now)) None (u64 (e_seq (m_events m) + 1)) None] else []).
Proof.
  intros Hok Hr Hd Hf Hid Hs.
  destruct (tk_named _ _ _ _ (so_timers _ _ Hok) _ _ Hid I) as (p & s0 & Hp & Hn & Hs0 & Hsus & _).
  rewrite Hs in Hs0. injection Hs0 as <-.
  assert (Hname : st_Name s = name).
  { rewrite members_lookup in Hs. destruct (nodeAt m name) as [l|] eqn:El; [|done]. injection Hs as <-.
    apply (name_at m); [apply Hok|done]. }
  assert (Hloc : name <> c_Name cfg) by (intros ->; by destruct (so_local _ _ Hok s Hs)).
  destruct (runCallback_outcome cfg m i now Hok Hr) as (m' & E & Ho). exists m'. split; [done|].
  pose proof (callback_outcome_ok cfg m i now m' Hok Ho) as Hok'. split; [done|].
  destruct Ho as [Hf'|id' m0 Hf' [Hst|Hst] _|id' p' s' m0 m' Hf' Hp' _ Hs' _ _ Em0 Ho _]; try congruence.
  rewrite Hf in Hf'. injection Hf' as <-. assert (p' = p) as -> by congruence. rewrite Hn in *.
  assert (s' = s) as -> by congruence.
  assert (Hm0 : members m0 = members m) by (by subst m0).
  destruct Ho as [Hm|s1 Hm Hi|s1 Hm Hi Hdl|l' m2 Hl Hi Hdl Hl1 Hl2 Href|l' m1 Hl Hi Hdl Hl1 Hb];
    cbn [Dead_Node Dead_Incarnation Dead_From] in *; rewrite ?Hm0 in *; try congruence.
  - assert (s1 = s) as -> by congruence. lia.
  - assert (s1 = s) as -> by congruence. unfold DeadOrLeft in Hdl. by rewrite Hsus in Hdl.
  - assert (Es : stateAt m0 l' = s) by (apply member_at in Hl; rewrite Hm0 in Hl; congruence).
    rewrite Es. unfold expiredNode. rewrite Hname.
    apply String.eqb_neq in Hloc as Heq. rewrite Heq in Hb.
    pose proof (broadcasts_frame _ _ _ _ _ _ Hb) as (E1 & E2 & E3 & _ & _ & E4 & _ & _ & _).
    cbn [withoutTimer set_timers m_table m_timers m_events] in *. split_and!.
    + rewrite members_withEvent. rewrite <- Hm0.
      apply (members_put m0); [subst m0; apply Hok|done|done|by rewrite deadUpdate_name].
    + unfold deadUpdate, st_State, set_State. cbn [st_Node n_State Dead_Node Dead_From]. by rewrite Heq.
    + unfold withEvent. assert (Hx : tt_nodeTimers (m_timers m1) !! name = None) by (rewrite E2; apply lookup_delete_eq).
      destruct (c_Events cfg); exact Hx.
    + destruct Hb as (q & f & g & Eq & _ & _ & k & Hk). unfold queued. exists k. unfold withEvent. by destruct (c_Events cfg).
    + unfold withEvent. destruct (c_Events cfg); cbn; rewrite E4; subst m0; [done|by rewrite app_nil_r].
Qed.

Lemma dead_shutdown m d r now m' : dead_outcome cfg m d r now m' -> m_shutdown m' = m_shutdown m.
Proof.
  intros [| | |l m2 ? ? ? ? ? Href|l m1 ? ? ? ? Hb]; try done.
  - apply broadcasts_frame in Href as (_ & _ & -> & _). done.
  - apply broadcasts_frame in Hb as (_ & _ & E & _). unfold withEvent. destruct (c_Events cfg); cbn; by rewrite E.
Qed.

(** A dead message touches the timer of its node only. *)
Lemma dead_timers m d r now m' :
  dead_outcome cfg m d r now m' ->
  tt_firing (m_timers m') = tt_firing (m_timers m) /\
  forall n, n <> Dead_Node d -> tt_nodeTimers (m_timers m') !! n = tt_nodeTimers (m_timers m) !! n.
Proof.
  intros [| | |l m2 ? ? ? ? ? Href|l m1 ? ? ? ? Hb]; try done.
  - split; [done|]. intros n Hn. cbn. by rewrite lookup_delete_ne.
  - apply broadcasts_frame in Href as (_ & E & _). rewrite E. cbn. split; [done|].
    intros n Hn. by rewrite lookup_delete_ne.
  - apply broadcasts_frame in Hb as (_ & E & _). unfold withEvent.
    destruct (c_Events cfg); cbn; rewrite E; cbn; (split; [done|]); intros n Hn; by rewrite lookup_delete_ne.
Qed.

(** One callback, whichever it is: the suspected node is dead, or it keeps its
    timer and the callback was another one's. *)
Lemma callback_progress m name i id s now :
  state_ok cfg m -> room 1 m -> m_shutdown m = false ->
  tt_nodeTimers (m_timers m) !! name = Some id -> members m !! name = Some s ->
  exists m', runCallback cfg m i now = Some m' /\ state_ok cfg m' /\
    ((exists s', members m' !! name = Some s' /\ st_State s' = StateDead) \/
     (tt_firing (m_timers m) !! i <> Some id /\ m_shutdown m' = false /\
      tt_firing (m_timers m') = delete i (tt_firing (m_timers m)) /\
      tt_nodeTimers (m_timers m') !! name = Some id /\ members m' !! name = Some s)).
Proof.
  intros Hok Hr Hd Hid Hs. destruct (decide (tt_firing (m_timers m) !! i = Some id)) as [Hf|Hne].
  { destruct (callback_current m name i id s now Hok Hr Hd Hf Hid Hs) as (m' & E & Hok' & Hm & Hst & _).
    exists m'. split_and!; [done..|]. left. exists (expiredNode s now). by rewrite Hm, lookup_insert_eq. }
  destruct (runCallback_outcome cfg m i now Hok Hr) as (m' & E & Ho). exists m'. split; [done|].
  split; [by eapply callback_outcome_ok|].
  destruct Ho as [Hf'|id' m0 Hf' _ ->|id' p' s' m0 m' Hf' Hp' _ Hs' Hsus _ Em0 Ho _].
  - right. split_and!; try done. symmetry. by apply delete_beyond.
  - by right.
  - assert (Hok0 : table_ok (m_table m0)) by (subst m0; apply Hok).
    pose proof (dead_shutdown _ _ _ _ _ Ho) as Hsh.
    destruct (dead_timers _ _ _ _ _ Ho) as [Hfi Hti]. subst m0. cbn [Dead_Node] in *.
    destruct (decide (p_node p' = name)) as [Hpn|Hpn].
    + left. rewrite Hpn in *. assert (s' = s) as -> by congruence.
      assert (Hloc : name <> c_Name cfg) by (intros ->; by destruct (so_local _ _ Hok s Hs)).
      destruct (dead_members cfg _ _ _ _ _ s Hok0 Ho Hs) as [_ Hdm]. destruct (Hdm Hloc) as (s2 & Hs2 & E2).
      exists s2. split; [done|]. apply (f_equal fst) in E2. cbn in E2. rewrite E2. unfold swim_dead, statusOf. cbn.
      apply String.eqb_neq in Hloc as ->. by rewrite Hsus, Z.leb_refl.
    + right. split_and!; [done|by rewrite Hsh|exact Hfi|by rewrite Hti|].
      destruct (dead_members cfg _ _ _ _ _ s' Hok0 Ho Hs') as [Hoth _]. by rewrite Hoth.
Qed.

(** A callback does not bring a dead node back. *)
Lemma callback_dead_stays m name i s now m' :
  state_ok cfg m -> room 1 m -> members m !! name = Some s -> st_State s = StateDead ->
  runCallback cfg m i now = Some m' -> members m' !! name = Some s.
Proof.
  intros Hok Hr Hs Hst E. destruct (runCallback_outcome cfg m i now Hok Hr) as (m1 & E1 & Ho).
  rewrite E in E1. injection E1 as <-.
  destruct Ho as [Hf'|id' m0 Hf' _ ->|id' p' s' m0 m1 Hf' Hp' _ Hs' Hsus _ Em0 Ho _]; try done.
  assert (Hok0 : table_ok (m_table m0)) by (subst m0; apply Hok). subst m0.
  destruct (dead_members cfg _ _ _ _ _ s' Hok0 Ho Hs') as [Hoth _]. cbn [Dead_Node] in Hoth.
  rewrite Hoth; [done|]. intros ->. congruence.
Qed.

Definition isCallback (i : input) : Prop := match i with InCallback _ => True | _ => False end.

(** However the callbacks are scheduled, the node is dead once its own ran. *)
Lemma callbacks_end name id s l m m' :
  state_ok cfg m -> m_shutdown m = false -> id ∈ tt_firing (m_timers m) ->
  tt_nodeTimers (m_timers m) !! name = Some id -> members m !! name = Some s ->
  Forall (fun x => isCallback (fst x)) l -> runInputs cfg m l = Some m' -> id ∉ tt_firing (m_timers m') ->
  exists s', members m' !! name = Some s' /\ st_State s' = StateDead.
Proof.
  intros Hok Hd Hf Hid Hs HQ Hrun Hnf.
  destruct (runInputs_ind cfg (fun m =>
    (exists s', members m !! name = Some s' /\ st_State s' = StateDead) \/
    (m_shutdown m = false /\ id ∈ tt_firing (m_timers m) /\ tt_nodeTimers (m_timers m) !! name = Some id /\
     members m !! name = Some s)) isCallback) with (l := l) (m := m) (m' := m') as [_ [HP|HP]]; try done.
  2: { right. done. }
  2: { by destruct HP as (_ & ? & _). }
  clear. intros m i now m' Hok HQ HP Hr E. destruct i as [| | | | |k| | | | | | |]; try done. cbn [handle cost] in *.
  destruct HP as [(s' & Hs' & Ha)|(Hd & Hf & Hid & Hs)].
  - left. exists s'. split; [|done]. by eapply callback_dead_stays.
  - destruct (callback_progress m name k id s now Hok Hr Hd Hid Hs) as (m1 & E1 & _ & HP).
    rewrite E in E1. injection E1 as <-. destruct HP as [?|(Hne & Hd1 & Hf1 & Hid1 & Hs1)]; [by left|].
    right. split_and!; try done. rewrite Hf1. destruct (tt_firing (m_timers m) !! k) as [id0|] eqn:Ek.
    + rewrite (delete_Permutation _ _ _ Ek) in Hf. apply elem_of_cons in Hf as [->|]; [congruence|done].
    + by rewrite delete_beyond.
Qed.
End Suspicions.

(** ** Lemmas: replayed messages *)

Lemma Confirm_again {ML : MathLog} now now' s from s' ok fire :
  Confirm now s from = (s', ok, fire) -> Confirm now' s' from = (s', false, false).
Proof.
  unfold Confirm. destruct (s_n s >=? s_k s) eqn:En; [intros [= <- <- <-]; by rewrite En|].
  case_bool_decide as Hin; [intros [= <- <- <-]; rewrite En; by rewrite bool_decide_true|].
  assert (Hfrom : from ∈ {[from]} ∪ s_confirmations s) by set_solver.
  clear En. destruct (s_timer s); [destruct (_ >? 0)|]; intros [= <- <- <-]; cbn [s_n s_k s_confirmations];
    (destruct (_ >=? _); [done|]; by rewrite bool_decide_true).
Qed.

Lemma Confirm_starter {ML : MathLog} now now' from k min max :
  Confirm now' (newSuspicion now from k min max) from = (newSuspicion now from k min max, false, false).
Proof.
  unfold Confirm, newSuspicion. cbn [s_n s_k s_confirmations]. destruct (_ >=? _); [done|].
  rewrite bool_decide_true; [done|]. set_solver.
Qed.

Section Replay.
Context {G : Type} {RG : Rand G} {RL : RandLaws G} {ML : MathLog} (cfg : Config).
Implicit Types m : Memberlist (G := G).

(** Nothing learnt, nothing to tell. *)
Definition silent m m' : Prop :=
  members m' = members m /\ m_broadcasts m' = m_broadcasts m /\ m_events m' = m_events m.

Lemma silent_refl m : silent m m.
Proof. done. Qed.

Lemma dead_silent m d r now m' s :
  dead_outcome cfg m d r now m' -> members m !! Dead_Node d = Some s ->
  DeadOrLeft s = true \/ Dead_Incarnation d < st_Incarnation s -> silent m m'.
Proof.
  intros [Hm|s0 Hm Hi|s0 Hm Hi Hdl|l m2 Hl Hi Hdl Hloc Hleft Href|l m1 Hl Hi Hdl Hloc Hb] Hs Hor; try done;
    apply member_at in Hl; rewrite Hs in Hl; injection Hl as ->; destruct Hor; [congruence|lia|congruence|lia].
Qed.

Lemma swim_dead_settles b i x : x.1 <> StateDead -> x.1 <> StateLeft -> swim_dead b i x = x -> i < x.2.
Proof.
  destruct x as [t j]. unfold swim_dead. cbn. intros Hd Hl. destruct (Z.leb_spec j i); [|done].
  destruct t; cbn; try done; destruct b; intros [= ? ?].
Qed.

Lemma swim_dead_idem b i x : swim_dead b i (swim_dead b i x) = swim_dead b i x.
Proof. unfold swim_dead at 2 3. destruct (_ && _) eqn:E; [by destruct b|]. unfold swim_dead. by rewrite E. Qed.

Lemma dead_replay m d now now' m' m'' :
  state_ok cfg m -> Dead_Node d <> c_Name cfg ->
  dead_outcome cfg m d None now m' -> dead_outcome cfg m' d None now' m'' -> silent m' m''.
Proof.
  intros Hok Hne Ho Ho'. destruct (members m !! Dead_Node d) as [s|] eqn:Hs.
  - destruct (dead_members cfg _ _ _ _ _ s (so_table _ _ Hok) Ho Hs) as [_ Hst]. destruct (Hst Hne) as (s' & Hs' & E).
    eapply dead_silent; [done..|]. destruct (DeadOrLeft s') eqn:Ed; [by left|right].
    pose proof (swim_dead_idem (String.eqb (Dead_Node d) (Dead_From d)) (Dead_Incarnation d) (statusOf s)) as Hid.
    rewrite <- E in Hid. apply (swim_dead_settles _ _ (statusOf s')) in Hid; [done| |]; cbn; intros Hx;
      unfold DeadOrLeft in Ed; by rewrite Hx in Ed.
  - destruct Ho as [Hm|s0 Hm Hi|s0 Hm Hi Hdl|l m2 Hl Hi Hdl Hloc Hleft Href|l m1 Hl Hi Hdl Hloc Hb]; try congruence;
      [|apply member_at in Hl; congruence..].
    destruct Ho' as [Hm'|s0 Hm' Hi|s0 Hm' Hi Hdl|l m2 Hl Hi Hdl Hloc Hleft Href|l m1 Hl Hi Hdl Hloc Hb]; try congruence; try done;
      apply member_at in Hl; congruence.
Qed.

(** A registered timer that has heard of the accuser already. *)
Definition knows m (name from : string) : Prop :=
  exists id p, tt_nodeTimers (m_timers m) !! name = Some id /\ tt_heap (m_timers m) !! id = Some p /\
    forall now, Confirm now (p_susp p) from = (p_susp p, false, false).

Lemma suspect_silent m x now m' s :
  suspect_outcome cfg m x now m' -> members m !! Suspect_Node x = Some s ->
  m_shutdown m = true \/ Suspect_Incarnation x < st_Incarnation s \/ DeadOrLeft s = true \/
    st_State s = StateSuspect /\ knows m (Suspect_Node x) (Suspect_From x) -> silent m m'.
Proof.
  intros [|? Hm|s0 ? Hm Hi0|s0 id m1 ok m2 Hd Hm Hi0 Hid Hst Hc Hb|s0 ? Hm Hi0 Hst
      |l0 m2 Hd Hl0 Hi0 Hst Hloc Href|l0 m1 Hd Hl0 Hi0 Hst Hloc Hb] Hs Hor; try done.
  - assert (s0 = s) as -> by congruence. destruct Hor as [?|[?|[Hx|[_ Hk]]]]; [congruence|lia| |].
    { unfold DeadOrLeft in Hx. by rewrite Hst in Hx. }
    destruct Hk as (id' & p & Hid' & Hp & Hk). assert (id' = id) as -> by congruence.
    unfold confirmTimer in Hc. rewrite Hp, Hk in Hc. injection Hc as <- <-. subst m2. done.
  - apply member_at in Hl0. rewrite Hs in Hl0. injection Hl0 as ->.
    destruct Hor as [?|[?|[Hx|[Hx _]]]]; [congruence|lia| |congruence]. unfold DeadOrLeft in Hx. by rewrite Hst in Hx.
  - apply member_at in Hl0. rewrite Hs in Hl0. injection Hl0 as ->.
    destruct Hor as [?|[?|[Hx|[Hx _]]]]; [congruence|lia| |congruence]. unfold DeadOrLeft in Hx. by rewrite Hst in Hx.
Qed.

Lemma confirmTimer_knows m id from now m1 ok name p :
  tt_nodeTimers (m_timers m) !! name = Some id -> tt_heap (m_timers m) !! id = Some p ->
  confirmTimer m id from now = (m1, ok) -> knows m1 name from.
Proof.
  intros Hid Hp. unfold confirmTimer. rewrite Hp. destruct (Confirm now (p_susp p) from) as [[s' ok'] fire] eqn:E.
  intros [= <- <-]. eexists id, _. cbn. split_and!; [done|apply lookup_insert_eq|]. intros now'. cbn.
  by eapply Confirm_again.
Qed.

Lemma suspect_unchanged m x now m' :
  suspect_outcome cfg m x now m' -> members m !! Suspect_Node x = None -> m' = m.
Proof.
  intros [|? Hm|s0 ? Hm Hi0|s0 id m1 ok m2 Hd Hm Hi0 Hid Hst Hc Hb|s0 ? Hm Hi0 Hst
      |l0 m2 Hd Hl0 Hi0 Hst Hloc Href|l0 m1 Hd Hl0 Hi0 Hst Hloc Hb] Hs; try congruence; apply member_at in Hl0; congruence.
Qed.

Lemma suspect_replay m x now now' m' m'' :
  state_ok cfg m -> Suspect_Node x <> c_Name cfg ->
  suspect_outcome cfg m x now m' -> suspect_outcome cfg m' x now' m'' -> silent m' m''.
Proof.
  intros Hok Hne Ho Ho'. destruct (members m !! Suspect_Node x) as [s|] eqn:Hs.
  2: { apply suspect_unchanged in Ho as ->; [|done]. by apply suspect_unchanged in Ho' as ->. }
  pose proof (suspect_members cfg m x now m' s Hok Ho Hs) as [_ Hst].
  destruct (m_shutdown m) eqn:Hd.
  { assert (Em : m' = m) by (destruct Ho; congruence). subst m'. eapply suspect_silent; [done..|]. by left. }
  destruct (Hst Hne eq_refl) as (s' & Hs' & _). eapply suspect_silent; [done..|]. right.
  destruct Ho as [|? Hm|s0 ? Hm Hi0|s0 id m1 ok m2 _ Hm Hi0 Hid Hsus Hc Hb|s0 ? Hm Hi0 Hdl
      |l0 m2 _ Hl0 Hi0 Ha Hloc Href|l0 m1 _ Hl0 Hi0 Ha Hloc Hb]; try congruence.
  - left. assert (s' = s0) as -> by congruence. done.
  - right. right. destruct (tk_owner _ _ _ _ (so_timers _ _ Hok) _ _ Hid) as (p & Hp & _).
    pose proof (confirmTimer_knows _ _ _ _ _ _ _ _ Hid Hp Hc) as Hk.
    pose proof (confirmTimer_frame _ _ _ _ _ _ Hc) as Hfr.
    assert (Hm2 : members m2 = members m /\ m_timers m2 = m_timers m1).
    { destruct ok; [destruct Hb as (q & f & g & -> & _)|subst m2]; rewrite Hfr; done. }
    destruct Hm2 as [Hm2 Ht2]. split; [congruence|]. unfold knows. by rewrite Ht2.
  - right. left. congruence.
  - right. right. pose proof (broadcasts_frame _ _ _ _ _ _ Hb) as (Et & Ett & _). split.
    + change (members (startTimer cfg ?y _ _ _)) with (members y) in Hs'.
      rewrite (members_put m m1 (Suspect_Node x)) in Hs'; [|apply Hok|done|done|].
      * rewrite lookup_insert_eq in Hs'. injection Hs' as <-. done.
      * unfold suspectUpdate, st_Name. cbn. apply (name_at m); [apply Hok|done].
    + unfold knows, startTimer. cbn. eexists _, _. split_and!; [apply lookup_insert_eq..|].
      intros now2. cbn. apply Confirm_starter.
Qed.

(** *** Alive messages *)

Lemma IPEqual_refl p : IPEqual p p = true.
Proof. unfold IPEqual. rewrite Z.eqb_refl. by apply bool_decide_true. Qed.

Lemma aliveUpdate_address s a now : sameAddress (st_Node (aliveUpdate s a now)) a = true.
Proof.
  unfold aliveUpdate, sameAddress. destruct (parseVsn (Alive_Vsn a)) as [vsn ok].
  repeat case_match; cbn; by rewrite IPEqual_refl, Z.eqb_refl.
Qed.

Lemma freshNode_address a : sameAddress (st_Node (freshNode a)) a = true.
Proof. unfold freshNode, sameAddress. repeat case_match; cbn; by rewrite IPEqual_refl, Z.eqb_refl. Qed.

Lemma targeted_silent m a s l m1 : members m !! Alive_Node a = Some s -> targeted cfg m a s l m1 -> silent m m1.
Proof.
  intros Hs Hta. split_and!.
  - rewrite (ta_members _ _ _ _ _ _ Hta). by apply insert_id.
  - by rewrite (ta_rest _ _ _ _ _ _ Hta).
  - by rewrite (ta_rest _ _ _ _ _ _ Hta).
Qed.

(** A message with nothing new about a remote node. *)
Lemma alive_silent m a notify b r now m' s :
  alive_outcome cfg m a notify b r now m' -> Alive_Node a <> c_Name cfg -> members m !! Alive_Node a = Some s ->
  sameAddress (st_Node s) a = true -> Alive_Incarnation a <= st_Incarnation s -> silent m m'.
Proof.
  intros Ho Hne Hs Hsa Hi.
  assert (Ht : aliveTarget cfg (members m !! Alive_Node a) a now = Some (s, false)) by (unfold aliveTarget; by rewrite Hs, Hsa).
  assert (Hn : isNews cfg s a false = false).
  { unfold isNews. apply String.eqb_neq in Hne as ->. rewrite orb_false_r. apply Z.ltb_ge. lia. }
  destruct Ho as [|? Ht'|s0 ? Ht'|s0 u l m1 _ Ht' Hta Hnw|s0 u l m1 _ Ht' Hta Hnw|s0 u l m1 m2 _ Ht' Hta Hnw ? Hl
    |s0 u l m1 m2 _ Ht' Hta Hnw]; rewrite ?Ht in *; try congruence; try done.
  injection Ht' as <- <-. by eapply targeted_silent.
Qed.

Lemma alive_replay m a now now' m' m'' :
  state_ok cfg m -> Alive_Node a <> c_Name cfg -> aliveTarget cfg (members m !! Alive_Node a) a now <> None ->
  alive_outcome cfg m a None false None now m' -> alive_outcome cfg m' a None false None now' m'' -> silent m' m''.
Proof.
  intros Hok Hne Htg Ho Ho'.
  destruct Ho as [Hacc|? Ht|s ? Ht|s u l m1 _ Ht Hta Hnw|s u l m1 _ Ht Hta Hnw|s u l m1 m2 _ Ht Hta Hnw ? Hl
    |s u l m1 m2 _ Ht Hta Hnw Hb Hbr]; try congruence.
  - destruct Ho'; try congruence; done.
  - assert (u = false) as -> by (unfold isNews in Hnw; apply String.eqb_neq in Hne as E; rewrite E in Hnw;
      destruct u; [by rewrite orb_true_r in Hnw|done]).
    eapply alive_silent; [done..| | |].
    + rewrite (ta_members _ _ _ _ _ _ Hta). apply lookup_insert_eq.
    + unfold aliveTarget in Ht. destruct (members m !! Alive_Node a) as [s0|].
      * destruct (sameAddress (st_Node s0) a) eqn:Es; [by injection Ht as <-|]. by destruct (_ && _).
      * destruct (IPAllowed _ _); [|done]. injection Ht as <-. apply freshNode_address.
    + unfold isNews in Hnw. apply String.eqb_neq in Hne as E. rewrite E, orb_false_r in Hnw. by apply Z.ltb_ge in Hnw.
  - pose proof (broadcasts_frame _ _ _ _ _ _ Hbr) as (Et & _).
    destruct (aliveUpdate_fields s a now) as (En & _ & Ei).
    eapply alive_silent; [done..| |apply (aliveUpdate_address s)|rewrite Ei; done].
    rewrite members_aliveEvent, (members_put m1 m2 (Alive_Node a)); [apply lookup_insert_eq|apply Hta|done
      |exact (ta_at _ _ _ _ _ _ Hta)|].
    rewrite En. exact (ta_name _ _ _ _ _ _ Hta).
Qed.
End Replay.

(** ** Lemmas: events and presence *)

(** Whether the events so far announce the node as present. *)
Definition announce (name : string) (b : bool) (ev : queuedEvent) : bool :=
  if String.eqb (n_Name (ev_node ev)) name then
    match ev_kind ev with eventJoin => true | eventLeave => false | _ => b end
  else b.

Definition announced (es : list queuedEvent) (name : string) : bool := fold_left (announce name) es false.

Section Presence.
Context {G : Type} {RG : Rand G} {RL : RandLaws G} {ML : MathLog} (cfg : Config).
Implicit Types m : Memberlist (G := G).

Definition presentIn (o : option nodeState) : bool :=
  match o with Some s => negb (DeadOrLeft s) | None => false end.
Definition present m (name : string) : bool := presentIn (members m !! name).

Lemma announced_app es ev name : announced (es ++ [ev]) name = announce name (announced es name) ev.
Proof. unfold announced. by rewrite fold_left_app. Qed.

Lemma present_Members m name :
  table_ok (m_table m) -> name ∈ map n_Name (Members m) <-> present m name = true.
Proof.
  intros Ht. unfold Members. rewrite map_map. split.
  - intros (s & -> & Hs)%list_elem_of_fmap. apply list_elem_of_In, filter_In in Hs as [Hs Hp].
    apply list_elem_of_In, list_elem_of_fmap in Hs as (l & -> & Hl).
    destruct (to_listed _ Ht l Hl) as [s0 Hs0]. unfold present.
    assert (Hn : nodeAt m (st_Name s0) = Some l) by (apply (to_map _ Ht); eauto).
    unfold stateAt in *. rewrite (deref_lookup _ _ _ Hs0) in *. change (n_Name (st_Node s0)) with (st_Name s0).
    rewrite (member_at m _ l Hn). unfold stateAt. by rewrite (deref_lookup _ _ _ Hs0).
  - unfold present. rewrite members_lookup. destruct (nodeAt m name) as [l|] eqn:El; [|done]. cbn. intros Hp.
    destruct (table_name (m_table m) name l Ht El) as (Hin & _ & Hn). apply list_elem_of_fmap.
    exists (stateAt m l). split; [done|]. apply list_elem_of_In, filter_In. split; [|done].
    apply list_elem_of_In, list_elem_of_fmap. eauto.
Qed.

(** A step keeps what the events announce true. *)
Definition tells m m' : Prop :=
  forall name, name <> c_Name cfg -> present m name = announced (e_events (m_events m)) name ->
    present m' name = announced (e_events (m_events m')) name.

Lemma tells_trans m1 m2 m3 : tells m1 m2 -> tells m2 m3 -> tells m1 m3.
Proof. intros H1 H2 name Hne H. by apply H2, H1. Qed.

Lemma tells_quiet m m' :
  e_events (m_events m') = e_events (m_events m) ->
  (forall name, name <> c_Name cfg -> present m' name = present m name) -> tells m m'.
Proof. intros He Hp name Hne H. by rewrite He, Hp. Qed.

Lemma tells_insert m m' n s0 s evs :
  members m' = <[n := s]> (members m) -> e_events (m_events m') = e_events (m_events m) ++ evs ->
  present m n = negb (DeadOrLeft s0) -> Forall (fun ev => n_Name (ev_node ev) = n) evs ->
  (n <> c_Name cfg -> fold_left (announce n) evs (negb (DeadOrLeft s0)) = negb (DeadOrLeft s)) -> tells m m'.
Proof.
  intros Hm He Hp Hn Hf name Hne H. unfold present, announced in *. rewrite He, Hm, fold_left_app, <- H.
  destruct (decide (n = name)) as [<-|Hd].
  - rewrite lookup_insert_eq, Hp. symmetry. by apply Hf.
  - rewrite lookup_insert_ne by done. clear -Hn Hd. generalize (presentIn (members m !! name)). intros b. revert b.
    induction Hn as [|ev evs Hev _ IH]; intros b; [done|]. cbn. rewrite <- IH. unfold announce. rewrite Hev.
    by apply String.eqb_neq in Hd as ->.
Qed.

Lemma present_at m n s : members m !! n = Some s -> present m n = negb (DeadOrLeft s).
Proof. unfold present. by intros ->. Qed.

Lemma withEvent_events m kind n r :
  c_Events cfg = true ->
  exists ev, e_events (m_events (withEvent cfg m kind n r)) = e_events (m_events m) ++ [ev] /\
    ev_kind ev = kind /\ ev_node ev = n.
Proof. intros He. unfold withEvent. rewrite He. cbn. eauto. Qed.

Lemma dead_tells m d r now m' :
  c_Events cfg = true -> table_ok (m_table m) -> dead_outcome cfg m d r now m' -> tells m m'.
Proof.
  intros He Ht [Hm|s0 Hm Hi|s0 Hm Hi Hdl|l m2 Hl Hi Hdl Hloc Hleft Href|l m1 Hl Hi Hdl Hloc Hb]; try by apply tells_quiet.
  - pose proof (broadcasts_frame _ _ _ _ _ _ Href) as (_ & _ & _ & _ & _ & Ee & _).
    eapply (tells_insert m m2 _ (stateAt m l) _ []);
      [exact (members_refuted (withoutTimer m (Dead_Node d)) _ l _ m2 Ht Hl Href)|by rewrite Ee, app_nil_r| |done|done].
    by apply present_at, member_at.
  - pose proof (broadcasts_frame _ _ _ _ _ _ Hb) as (E1 & _ & _ & _ & _ & Ee & _).
    set (mp := putState m1 l (deadUpdate (stateAt m l) d now)).
    destruct (withEvent_events mp eventLeave (st_Node (deadUpdate (stateAt m l) d now)) r He) as (ev & Ev & Hk & Hn).
    assert (Hname : st_Name (deadUpdate (stateAt m l) d now) = Dead_Node d) by (rewrite deadUpdate_name; by apply name_at).
    assert (Hown : n_Name (ev_node ev) = Dead_Node d) by (rewrite Hn; exact Hname).
    eapply (tells_insert m _ (Dead_Node d) (stateAt m l) (deadUpdate (stateAt m l) d now) [ev]).
    + rewrite members_withEvent. by apply members_put.
    + rewrite Ev. cbn. by rewrite Ee.
    + by apply present_at, member_at.
    + by constructor.
    + intros _. cbn. unfold announce. rewrite Hown, String.eqb_refl, Hk. symmetry. apply negb_false_iff, DeadOrLeft_spec.
      unfold deadUpdate, st_State, set_State. cbn.
      destruct (String.eqb (Dead_Node d) (Dead_From d)); eauto.
Qed.

Lemma suspect_tells m x now m' : state_ok cfg m -> suspect_outcome cfg m x now m' -> tells m m'.
Proof.
  intros Hok Ho. apply tells_quiet.
  - destruct Ho as [| | |s id m1 ok m2 ? ? ? ? ? Hc Hb| |l m2 ? ? ? ? ? Href|l m1 ? ? ? ? ? Hb]; try done.
    + apply confirmTimer_frame in Hc.
      destruct ok; [destruct Hb as (q & f & g & -> & _)|subst m2]; rewrite Hc; done.
    + by apply broadcasts_frame in Href as (_ & _ & _ & _ & _ & -> & _).
    + apply broadcasts_frame in Hb as (_ & _ & _ & _ & _ & E & _). cbn. by rewrite E.
  - intros name Hne. unfold present.
    destruct (suspect_effect cfg m x now m' Hok Ho) as [->|(s & Hs & Ha & [[Hloc ->]|[Hloc ->]])]; [done| |].
    + rewrite lookup_insert_ne; [done|congruence].
    + destruct (decide (Suspect_Node x = name)) as [<-|Hd]; [|by rewrite lookup_insert_ne].
      rewrite lookup_insert_eq, Hs. cbn. unfold DeadOrLeft. by rewrite Ha.
Qed.

(** A target that is not known yet counts as absent. *)
Lemma target_present m a now s u :
  aliveTarget cfg (members m !! Alive_Node a) a now = Some (s, u) -> present m (Alive_Node a) = negb (DeadOrLeft s).
Proof.
  unfold aliveTarget, present. destruct (members m !! Alive_Node a) as [s0|].
  - destruct (sameAddress _ _); [by intros [= <- <-]|]. destruct (_ && _); [by intros [= <- <-]|done].
  - destruct (IPAllowed _ _); [|done]. intros [= <- <-]. unfold freshNode, DeadOrLeft, st_State.
    by destruct (len (slice_bytes (Alive_Vsn a)) >? 0).
Qed.

Lemma aliveEvent_events m s s' r :
  c_Events cfg = true ->
  exists evs, e_events (m_events (aliveEvent cfg m s s' r)) = e_events (m_events m) ++ evs /\
    Forall (fun ev => n_Name (ev_node ev) = st_Name s') evs /\
    fold_left (announce (st_Name s')) evs (negb (DeadOrLeft s)) = true.
Proof.
  intros He. unfold aliveEvent. destruct (DeadOrLeft s); [|destruct (negb (sliceEqual _ _))].
  - destruct (withEvent_events m eventJoin (st_Node s') r He) as (ev & -> & Hk & Hn). exists [ev].
    split_and!; [done|constructor; [by rewrite Hn|done]|]. cbn. unfold announce. by rewrite Hn, Hk, String.eqb_refl.
  - destruct (withEvent_events m eventUpdate (st_Node s') r He) as (ev & -> & Hk & Hn). exists [ev].
    split_and!; [done|constructor; [by rewrite Hn|done]|]. cbn. unfold announce. by rewrite Hn, Hk, String.eqb_refl.
  - exists []. by rewrite app_nil_r.
Qed.

Lemma alive_tells m a notify b r now m' :
  c_Events cfg = true -> alive_outcome cfg m a notify b r now m' -> tells m m'.
Proof.
  intros He [| |s ? ? ? ?|s u l m1 _ Ht Hta|s u l m1 _ Ht Hta|s u l m1 m2 _ Ht Hta ? ? Hloc ? Href
    |s u l m1 m2 _ Ht Hta ? ? Hb]; try by apply tells_quiet.
  - intros name Hne Hp. change (present (enqueueEvent _ _ _ _ _) name) with (present m name). rewrite Hp.
    symmetry. etransitivity; [apply announced_app|]. unfold announce. by destruct (String.eqb _ _).
  - eapply (tells_insert m m1 _ s s []); [exact (ta_members _ _ _ _ _ _ Hta)| |by eapply target_present|done|done].
    by rewrite (ta_rest _ _ _ _ _ _ Hta), app_nil_r.
  - eapply (tells_insert m _ _ s s []); [exact (ta_members _ _ _ _ _ _ Hta)| |by eapply target_present|done|done].
    cbn. by rewrite (ta_rest _ _ _ _ _ _ Hta), app_nil_r.
  - pose proof (broadcasts_frame _ _ _ _ _ _ Href) as (_ & _ & _ & _ & _ & Ee & _).
    destruct (aliveEvent_events m2 s (stateAt m2 l) r He) as (evs & Ev & Hn & _).
    assert (Hm2 := members_refuted (withoutTimer m1 (Alive_Node a)) (Alive_Node a) l _ m2
      (so_table _ _ (ta_ok _ _ _ _ _ _ Hta)) (ta_at _ _ _ _ _ _ Hta) Href).
    assert (Hat : nodeAt m2 (Alive_Node a) = Some l).
    { pose proof (broadcasts_frame _ _ _ _ _ _ Href) as (Et & _). unfold nodeAt. rewrite Et. exact (ta_at _ _ _ _ _ _ Hta). }
    assert (Hn2 : st_Name (stateAt m2 l) = Alive_Node a).
    { apply member_at in Hat. rewrite Hm2, lookup_insert_eq in Hat. injection Hat as <-.
      exact (name_at m1 _ l (so_table _ _ (ta_ok _ _ _ _ _ _ Hta)) (ta_at _ _ _ _ _ _ Hta)). }
    rewrite Hn2 in Hn. eapply (tells_insert m _ (Alive_Node a) s _ evs); [| |by eapply target_present|done|done].
    + rewrite members_aliveEvent, Hm2. change (members (withoutTimer m1 _)) with (members m1).
      rewrite (ta_members _ _ _ _ _ _ Hta). apply insert_insert_eq.
    + rewrite Ev, Ee. cbn. by rewrite (ta_rest _ _ _ _ _ _ Hta).
  - pose proof (broadcasts_frame _ _ _ _ _ _ Hb) as (Et & _ & _ & _ & _ & Ee & _).
    set (s' := aliveUpdate s a now) in *. destruct (aliveUpdate_fields s a now) as (Hn & Hst & _). fold s' in Hn, Hst.
    assert (Hn' : st_Name s' = Alive_Node a) by (rewrite Hn; exact (ta_name _ _ _ _ _ _ Hta)).
    destruct (aliveEvent_events (putState m2 l s') s s' r He) as (evs & Ev & Hall & Hf). rewrite Hn' in *.
    eapply (tells_insert m _ (Alive_Node a) s s' evs); [| |by eapply target_present|done|].
    + rewrite members_aliveEvent, (members_put m1 m2 (Alive_Node a));
        [|apply Hta|done|exact (ta_at _ _ _ _ _ _ Hta)|done].
      rewrite (ta_members _ _ _ _ _ _ Hta). apply insert_insert_eq.
    + rewrite Ev. cbn. rewrite Ee. cbn. by rewrite (ta_rest _ _ _ _ _ _ Hta).
    + intros _. rewrite Hf. unfold DeadOrLeft. by rewrite Hst.
Qed.

Lemma reset_present m now m' :
  state_ok cfg m -> resetNodes cfg m now = Some m' -> members m' ⊆ members m /\ forall name, present m' name = present m name.
Proof.
  intros Hok E. destruct (resetNodes_ok cfg m now Hok) as (m2 & E2 & _ & Hms & _). rewrite E2 in E. injection E as <-.
  split; [rewrite Hms; apply map_filter_subseteq|].
  intros name. unfold present. rewrite Hms. unfold unexpired.
  destruct (members m !! name) as [s|] eqn:Hs.
  - destruct (expired now (c_GossipToTheDeadTime cfg) s) eqn:Ex.
    + rewrite (proj2 (map_lookup_filter_None _ _ _)).
      * unfold expired in Ex. apply andb_true_iff in Ex as [Hd _]. cbn. by rewrite Hd.
      * right. intros s0 Hs0. cbn. rewrite Hs in Hs0. injection Hs0 as <-. congruence.
    + rewrite (proj2 (map_lookup_filter_Some _ _ _ s)); [|split; [exact Hs|done]]. done.
  - rewrite (proj2 (map_lookup_filter_None _ _ _)); [done|by left].
Qed.

Lemma atomic_tells remote m m' : c_Events cfg = true -> atomic cfg remote m m' -> tells m m'.
Proof.
  intros He [a notify b r now m1 Hok Hd Hb Ho|x now m1 Hok Ho|d r now m1 Ht Hd Ho|tt|now m1 Hok E|?|?|?|?];
    try by apply tells_quiet.
  - by eapply alive_tells.
  - by eapply suspect_tells.
  - by eapply dead_tells.
  - apply tells_quiet; [|intros name _; by eapply reset_present].
    destruct (resetNodes_ok cfg m now Hok) as (m2 & E2 & _ & _ & Hrest & _). rewrite E2 in E. injection E as <-. by rewrite Hrest.
Qed.

Lemma handle_tells m i now m' :
  c_Events cfg = true -> state_ok cfg m -> room (cost i) m -> handle cfg m i now = Some m' -> tells m m'.
Proof.
  intros He Hok Hr E. apply handle_atomic in E; [|done..]. clear -E He.
  induction E as [|m1 m2 m3 H12 _ IH]; [by apply tells_quiet|]. eapply tells_trans; [by eapply atomic_tells|done].
Qed.

(** *** Having left *)

Definition gone m : Prop := m_leave m = true /\ present m (c_Name cfg) = false.

Lemma left_unacceptable m a b : m_leave m = true -> Alive_Node a = c_Name cfg -> aliveAcceptable cfg m a b = false.
Proof.
  intros Hl Hn. unfold aliveAcceptable, hasLeft. destruct (parseVsn _). by rewrite Hl, Hn, String.eqb_refl.
Qed.

Lemma atomic_gone remote m m' : atomic cfg remote m m' -> gone m -> gone m'.
Proof.
  intros Hat [Hl Hp].
  destruct Hat as [a notify b r now m1 Hok Hd Hb Ho|x now m1 Hok Ho|d r now m1 Ht Hd Ho|tt|now m1 Hok E|?|?|?|?]; try done.
  - split; [by rewrite (alive_leave _ _ _ _ _ _ _ _ Ho)|]. destruct (decide (Alive_Node a = c_Name cfg)) as [En|En].
    + pose proof (left_unacceptable m a b Hl En). destruct Ho; try congruence; done.
    + unfold present in *. destruct (alive_effect cfg _ _ _ _ _ _ _ Ho) as [->|(s & u & _ & [->|[(_ & ? & _)|[_ ->]]])];
        try done; by rewrite lookup_insert_ne.
  - split; [by rewrite (suspect_leave _ _ _ _ _ Ho)|]. unfold present in *.
    destruct (suspect_effect cfg _ _ _ _ Hok Ho) as [->|(s & Hs & Ha & [[Hn ->]|[Hn ->]])]; [done| |by rewrite lookup_insert_ne].
    rewrite <- Hn, Hs in Hp. unfold presentIn, DeadOrLeft in Hp. by rewrite Ha in Hp.
  - split; [by rewrite (dead_leave _ _ _ _ _ _ Ho)|]. unfold present in *.
    destruct (dead_effect cfg _ _ _ _ _ Ht Ho) as [->|(s & Hs & Hdl & [(Hn & ? & ->)|[Hn ->]])]; [done|congruence|].
    destruct (decide (Dead_Node d = c_Name cfg)) as [En|En]; [|by rewrite lookup_insert_ne].
    rewrite <- En, Hs in Hp. cbn in Hp. by rewrite Hdl in Hp.
  - split; [|rewrite <- Hp; by eapply reset_present].
    destruct (resetNodes_ok cfg m now Hok) as (m2 & E2 & _ & _ & Hrest & _). rewrite E2 in E. injection E as <-. by rewrite Hrest.
Qed.

(** The first leave of a live node. *)
Lemma leave_effect m s r0 receipt now :
  state_ok cfg m -> room 1 m -> m_shutdown m = false -> m_leave m = false ->
  members m !! c_Name cfg = Some s -> st_State s = StateAlive ->
  exists m' s', LeaveContext cfg (Leaver m r0) receipt now
      = Some (LeaveCommitted receipt (anyAliveLocked cfg m'), Leaver m' (Some receipt)) /\ state_ok cfg m' /\
    members m' = <[c_Name cfg := s']> (members m) /\ st_State s' = StateLeft /\ st_Incarnation s' = st_Incarnation s /\
    m_leave m' = true /\
    queued m' (c_Name cfg) deadMsg (MDead (MkDead (st_Incarnation s) (c_Name cfg) (c_Name cfg))) (Some leaveBroadcast) /\
    (c_Events cfg = true -> e_events (m_events m') = e_events (m_events m) ++
      [MkEvent eventLeave (st_Node s') None (u64 (e_seq (m_events m) + 1)) (Some receipt)]).
Proof.
  intros Hok Hr Hd Hl Hs Ha. pose proof (set_leave_ok cfg m true Hok) as Hok1.
  assert (Hat : exists l, nodeAt m (c_Name cfg) = Some l /\ stateAt m l = s).
  { rewrite members_lookup in Hs. destruct (nodeAt m (c_Name cfg)) as [l|]; [|done]. exists l. by injection Hs. }
  destruct Hat as (l & Hat & Est). pose proof (name_at m _ l (so_table _ _ Hok) Hat) as Hname. rewrite Est in Hname.
  unfold LeaveContext, hasShutdown, hasLeft. cbn [le_m]. rewrite Hd, Hl, Hat, Est, Hname. set (d := MkDead _ _ _).
  destruct (deadNodeLocked_outcome cfg (set_leave m true) d (Some receipt) now) as (m' & -> & Ho); [apply Hok1..|done|].
  pose proof (dead_outcome_ok _ _ _ _ _ _ Hok1 Ho) as Hok'. cbn [mbind option_bind]. exists m', (deadUpdate s d now).
  assert (Hst : st_State (deadUpdate s d now) = StateLeft).
  { unfold deadUpdate, st_State, set_State, d. cbn [st_Node n_State Dead_Node Dead_From]. by rewrite String.eqb_refl. }
  destruct Ho as [Hm|s1 Hm Hi|s1 Hm Hi Hdl|l' m2 Hl' Hi Hdl Hl1 Hl2 Href|l' m1 Hl' Hi Hdl Hl1 Hb]; try done;
    [change (members m !! c_Name cfg = None) in Hm|change (members m !! c_Name cfg = Some s1) in Hm..|]; try congruence.
  - assert (s1 = s) as -> by congruence. cbn in Hi. lia.
  - assert (s1 = s) as -> by congruence. unfold DeadOrLeft in Hdl. by rewrite Ha in Hdl.
  - change (nodeAt m (c_Name cfg) = Some l') in Hl'. assert (l' = l) as -> by congruence.
    change (stateAt (set_leave m true) l) with (stateAt m l) in *. rewrite Est in *.
    change (Dead_Node d) with (c_Name cfg) in Hb. rewrite String.eqb_refl in Hb.
    pose proof (broadcasts_frame _ _ _ _ _ _ Hb) as (E1 & _ & _ & E3 & _ & E4 & _). split_and!; try done.
    + rewrite members_withEvent. apply (members_put m); [apply Hok|done|done|by rewrite deadUpdate_name].
    + unfold withEvent. destruct (c_Events cfg); cbn; by rewrite E3.
    + destruct Hb as (q & f & g & Eq & _ & _ & k & Hk). exists k. unfold withEvent. by destruct (c_Events cfg).
    + intros He. unfold withEvent. rewrite He. cbn. by rewrite E4.
Qed.

(** *** Having shut down *)

Definition fenced m m' : Prop :=
  m_shutdown m' = true /\ m_broadcasts m' = m_broadcasts m /\ e_events (m_events m') = e_events (m_events m) /\
  members m' ⊆ members m /\ forall name, present m' name = present m name.

Lemma atomic_fenced remote m m' : m_shutdown m = true -> atomic cfg remote m m' -> fenced m m'.
Proof.
  intros Hd Hat.
  destruct Hat as [a notify b r now m1 Hok ? Hb Ho|x now m1 Hok Ho|d r now m1 Ht ? Ho|tt|now m1 Hok E|?|?|?|?]; try congruence;
    try by split_and!.
  - assert (m1 = m) as -> by (destruct Ho; congruence). by split_and!.
  - destruct (reset_present m now m1 Hok E) as [Hsub Hp].
    destruct (resetNodes_ok cfg m now Hok) as (m2 & E2 & _ & _ & Hrest & _). rewrite E2 in E. injection E as <-.
    split_and!; try done; by rewrite Hrest.
Qed.

Lemma handle_fenced m i now m' :
  m_shutdown m = true -> state_ok cfg m -> room (cost i) m -> handle cfg m i now = Some m' -> fenced m m'.
Proof.
  intros Hd Hok Hr E. apply handle_atomic in E; [|done..]. clear -E Hd.
  induction E as [|m1 m2 m3 H12 _ IH]; [by split_and!|].
  destruct (atomic_fenced _ _ _ Hd H12) as (Hd2 & E1 & E2 & E3 & E4). destruct (IH Hd2) as (Hd3 & F1 & F2 & F3 & F4).
  split_and!; [done|congruence|congruence|by etransitivity|]. intros name. by rewrite F4, E4.
Qed.
End Presence.

(** ** Properties *)

(** C17: The local node is never lost to what others say. Whatever messages,
    merges, timers and reaping an instance goes through, in any order, a live
    node that has not asked to leave stays in its own table as it was: its
    address, metadata, versions, state and the time of its last change; only
    its incarnation number moves. *)
Theorem local_node_survives {G} `{RandLaws G} `{MathLog} cfg (m : Memberlist (G := G)) s l m' :
  state_ok cfg m -> members m !! c_Name cfg = Some s -> st_State s = StateAlive -> m_leave m = false ->
  Forall (fun x => remoteInput (fst x) = true) l -> runInputs cfg m l = Some m' ->
  m_leave m' = false /\
  exists s', members m' !! c_Name cfg = Some s' /\ st_Node s' = st_Node s /\ st_StateChange s' = st_StateChange s.
Proof.
  intros Hok Hs Ha Hl HQ Hrun.
  destruct (runInputs_ind cfg (keepsLocal cfg m) (fun i => remoteInput i = true)) with (l := l) (m := m) (m' := m')
    as [_ [El Hk]]; try done.
  - intros m1 i now m2 Hok1 Hi Hk Hr E. eapply keepsLocal_trans; [done|]. by eapply handle_keepsLocal.
  - by apply keepsLocal_same.
  - split; [congruence|]. by apply Hk.
Qed.

(** The example's local node and what others say of it. *)
Definition exampleA : nodeState := default nilState (members exampleState !! "a"%string).
Definition exampleSlander : list (input * Z) :=
  [(InDead (MkDead 7 "a" "c"), 20); (InSuspect (MkSuspect 8 "a" "c"), 21); (InReset, 22);
   (InAlive (MkAlive 9 "a" (exampleAddr 66) 7946 None exampleVsn), 23)].

Lemma exampleA_known : members exampleState !! "a"%string = Some exampleA.
Proof.
  unfold exampleA. destruct (members exampleState !! "a"%string) eqn:E; [done|]. vm_compute in E. discriminate.
Qed.

Definition exampleSlandered : Memberlist (G := Z) :=
  default exampleStart (runInputs (exampleConfig "a") exampleState exampleSlander).

Lemma exampleSlandered_runs : runInputs (exampleConfig "a") exampleState exampleSlander = Some exampleSlandered.
Proof.
  unfold exampleSlandered. destruct (runInputs (exampleConfig "a") exampleState exampleSlander) as [m|] eqn:E; [done|].
  vm_compute in E. discriminate.
Qed.

Lemma local_node_survives_witness :
  m_leave exampleSlandered = false /\
  exists s', members exampleSlandered !! "a"%string = Some s' /\ st_Node s' = st_Node exampleA /\
    st_StateChange s' = st_StateChange exampleA.
Proof.
  apply (local_node_survives (exampleConfig "a") exampleState exampleA exampleSlander exampleSlandered);
    [exact exampleState_ok|exact exampleA_known|vm_compute; reflexivity..| |exact exampleSlandered_runs].
  repeat constructor.
Defined.



(** A refutation reaches its goal. Node A is accused, by a suspect or a
    dead message; the message it queues, decoded as its receiver decodes it,
    makes any node B that holds A at most at the accusation's incarnation
    number, whatever A's state there, and that accepts the message from A's
    known address, see A alive at the new number, with no suspicion timer
    left for it. *)
Theorem refutation_clears_suspicion {G} `{RandLaws G} `{MathLog} cfgA cfgB (mA mB : Memberlist (G := G))
    sA sB acc from nowA nowB o :
  state_ok cfgA mA -> room 1 mA -> m_shutdown mA = false -> m_leave mA = false ->
  members mA !! c_Name cfgA = Some sA -> st_State sA = StateAlive -> st_Incarnation sA <= acc ->
  0 <= m_incarnation mA < MaxUint32 -> 0 <= acc < MaxUint32 ->
  (forall inc, 0 <= inc <= MaxUint32 -> Alive_valid (aliveOf (st_Node sA) inc)) ->
  state_ok cfgB mB -> room 1 mB -> m_shutdown mB = false -> c_Name cfgA <> c_Name cfgB ->
  members mB !! c_Name cfgA = Some sB -> st_Incarnation sB <= acc ->
  (forall inc, sameAddress (st_Node sB) (aliveOf (st_Node sA) inc) = true /\
     aliveAcceptable cfgB mB (aliveOf (st_Node sA) inc) false = true) ->
  o = suspectNode cfgA mA (MkSuspect acc (c_Name cfgA) from) nowA \/
    o = deadNode cfgA mA (MkDead acc (c_Name cfgA) from) nowA ->
  exists mA' k b a mB' s', o = Some mA' /\ (k, b) ∈ contents (m_broadcasts mA') /\
    decode KAlive (drop 1 (mb_msg b)) = Ok (MAlive a) /\
    aliveNode cfgB mB a false nowB = Some mB' /\ members mB' !! c_Name cfgA = Some s' /\
    statusOf s' = (StateAlive, m_incarnation mA') /\ acc < m_incarnation mA' /\
    tt_nodeTimers (m_timers mB') !! c_Name cfgA = None.
Proof.
  intros HokA HrA HdA HlA HsA HaA HiA Hinc Hacc Hval HokB HrB HdB Hne HsB HiB Hrecv Ho.
  destruct (refutation_effect cfgA mA sA acc from nowA o HokA HrA HdA HlA HsA HaA HiA Ho) as (mA' & E & _ & Ei & _ & k & Hq).
  rewrite refutedInc_eq in * by done. set (inc := Z.max (m_incarnation mA + 1) (acc + 1)) in *.
  assert (Hname : st_Name sA = c_Name cfgA).
  { rewrite members_lookup in HsA. destruct (nodeAt mA (c_Name cfgA)) as [l|] eqn:El; [|done]. injection HsA as <-.
    apply (name_at mA); [apply HokA|done]. }
  set (a := aliveOf (st_Node sA) inc) in *.
  assert (Ha : Alive_Node a = c_Name cfgA) by exact Hname.
  destruct (Hrecv inc) as [Hsa Hok].
  destruct (aliveNodeLocked_outcome cfgB mB a None false None nowB HokB HrB) as (mB' & EB & HoB).
  destruct (alive_clears cfgB mB a None false None nowB mB' sB HokB HoB) as (s' & Hs' & Hst & Htm);
    [by rewrite Ha|by rewrite Ha|done|done|cbn; lia|]. rewrite Ha in *.
  eexists mA', k, _, a, mB', s'. split_and!; [done|exact Hq| | |done| |lia|done].
  - cbn [mb_msg]. apply decode_encode_alive, Hval. lia.
  - unfold aliveNode, hasShutdown. by rewrite HdB.
  - rewrite Ei. exact Hst.
Qed.

(** Node [b], which knows [a] and hears of a suspicion of it. *)
Definition exampleTraceB : list (input * Z) :=
  [(InDraw, 0); (InAnnounce 1 (exampleAddr 2) 7946 None None, 1);
   (InAlive (MkAlive 1 "a" (exampleAddr 1) 7946 None exampleVsn), 2); (InSuspect (MkSuspect 3 "a" "c"), 5)].

Definition exampleStateB : Memberlist (G := Z) :=
  default exampleStart (runInputs (exampleConfig "b") exampleStart exampleTraceB).
Definition exampleAatB : nodeState := default nilState (members exampleStateB !! "a"%string).

Lemma exampleStateB_ok : state_ok (exampleConfig "b") exampleStateB.
Proof.
  apply (reachable_ok (exampleConfig "b") 8 4 1), (runInputs_rtc _ _ exampleTraceB). unfold exampleStateB, exampleStart.
  destruct (runInputs (exampleConfig "b") _ exampleTraceB) as [m|] eqn:E; [done|]. vm_compute in E. discriminate.
Qed.

Lemma exampleAatB_known : members exampleStateB !! "a"%string = Some exampleAatB.
Proof.
  unfold exampleAatB. destruct (members exampleStateB !! "a"%string) eqn:E; [done|]. vm_compute in E. discriminate.
Qed.

Lemma exampleA_valid inc : 0 <= inc <= MaxUint32 -> Alive_valid (aliveOf (st_Node exampleA) inc).
Proof.
  intros Hi. unfold Alive_valid, u32_ok, u16_ok, str_ok, bytes_ok, aliveOf.
  cbn [Alive_Incarnation Alive_Node Alive_Addr Alive_Port Alive_Meta Alive_Vsn].
  split_and!; try lia; vm_compute; congruence.
Qed.

Lemma refutation_clears_suspicion_witness :
  exists mA' k b a mB' s', suspectNode (exampleConfig "a") exampleState (MkSuspect 3 "a" "c") 20 = Some mA' /\
    (k, b) ∈ contents (m_broadcasts mA') /\ decode KAlive (drop 1 (mb_msg b)) = Ok (MAlive a) /\
    aliveNode (exampleConfig "b") exampleStateB a false 30 = Some mB' /\ members mB' !! "a"%string = Some s' /\
    statusOf s' = (StateAlive, m_incarnation mA') /\ 3 < m_incarnation mA' /\
    tt_nodeTimers (m_timers mB') !! "a"%string = None.
Proof.
  apply (refutation_clears_suspicion (exampleConfig "a") (exampleConfig "b") exampleState exampleStateB exampleA exampleAatB
           3 "c" 20 30);
    [exact exampleState_ok|vm_compute; congruence|vm_compute; reflexivity..|exact exampleA_known|vm_compute; reflexivity
    |vm_compute; congruence|split; vm_compute; congruence|split; vm_compute; congruence|exact exampleA_valid
    |exact exampleStateB_ok|vm_compute; congruence|vm_compute; reflexivity|vm_compute; congruence|exact exampleAatB_known
    |vm_compute; congruence|split; vm_compute; reflexivity|by left].
Defined.

(** C18: Every suspicion ends. A suspected node has a timer of its own, armed
    or with its callback started; once the timer is due, its expiry starts
    the callback, and in whatever order the callbacks of all timers get to
    run, the node is dead when its own has. *)
Theorem suspicion_ends {G} `{RandLaws G} `{MathLog} cfg (m : Memberlist (G := G)) name s :
  state_ok cfg m -> m_shutdown m = false -> members m !! name = Some s -> st_State s = StateSuspect ->
  exists id p, tt_nodeTimers (m_timers m) !! name = Some id /\ tt_heap (m_timers m) !! id = Some p /\
    (s_timer (p_susp p) <> None \/ id ∈ tt_firing (m_timers m)) /\
    forall now, (forall due, s_timer (p_susp p) = Some due -> due <= now) ->
      id ∈ tt_firing (m_timers (expireDue m id now)) /\
      forall l m', Forall (fun x => isCallback (fst x)) l -> runInputs cfg (expireDue m id now) l = Some m' ->
        id ∉ tt_firing (m_timers m') -> exists s', members m' !! name = Some s' /\ st_State s' = StateDead.
Proof.
  intros Hok Hd Hs Hst. destruct (tk_suspects _ _ _ _ (so_timers _ _ Hok) _ _ Hs Hst I Hd) as [id Hid].
  destruct (tk_named _ _ _ _ (so_timers _ _ Hok) _ _ Hid I) as (p & s0 & Hp & _ & _ & _ & _ & Hor).
  exists id, p. split_and!; [done..| |].
  { destruct Hor as [?|[?|?]]; [congruence|by left|by right]. }
  intros now Hdue.
  assert (Hx : members (expireDue m id now) = members m /\ m_shutdown (expireDue m id now) = false /\
    tt_nodeTimers (m_timers (expireDue m id now)) = tt_nodeTimers (m_timers m) /\
    id ∈ tt_firing (m_timers (expireDue m id now))).
  { unfold expireDue, expireTimer. rewrite Hp. destruct (s_timer (p_susp p)) as [due|] eqn:Et.
    - rewrite (proj2 (Z.leb_le due now)) by (by apply Hdue). cbn. split_and!; [done..|]. apply elem_of_app. right. by left.
    - split_and!; [done..|]. destruct Hor as [?|[?|?]]; congruence. }
  destruct Hx as (Hm & Hd' & Ht & Hf). split; [done|]. intros l m' HQ Hrun Hnf.
  eapply (callbacks_end cfg name id s l (expireDue m id now)); try done.
  - by apply expireDue_ok.
  - by rewrite Ht.
  - by rewrite Hm.
Qed.

Lemma suspicion_ends_witness :
  exists id p, tt_nodeTimers (m_timers exampleState) !! "b"%string = Some id /\
    tt_heap (m_timers exampleState) !! id = Some p /\
    (s_timer (p_susp p) <> None \/ id ∈ tt_firing (m_timers exampleState)) /\
    forall now, (forall due, s_timer (p_susp p) = Some due -> due <= now) ->
      id ∈ tt_firing (m_timers (expireDue exampleState id now)) /\
      forall l m', Forall (fun x => isCallback (fst x)) l ->
        runInputs (exampleConfig "a") (expireDue exampleState id now) l = Some m' ->
        id ∉ tt_firing (m_timers m') -> exists s', members m' !! "b"%string = Some s' /\ st_State s' = StateDead.
Proof.
  apply (suspicion_ends (exampleConfig "a") exampleState "b" exampleB);
    [exact exampleState_ok|vm_compute; reflexivity|exact exampleB_known|vm_compute; reflexivity].
Defined.

Lemma members_expireDue {G} (m : Memberlist (G := G)) id now : members (expireDue m id now) = members m.
Proof. unfold expireDue, expireTimer. by repeat case_match. Qed.

(** What a suspicion timer that ran out does. If the suspicion it was
    started for is the node's current one, the node is declared dead at its
    incarnation number, in the local node's name: its record changes and no
    other, the timer is dropped, the death is queued for the other nodes and
    a leave event for the user. If the node was cleared or is suspected again
    since, the callback changes no record and tells nobody. *)
Theorem expiry_effect {G} `{RandLaws G} `{MathLog} cfg (m : Memberlist (G := G)) i id p s now :
  state_ok cfg m -> room 1 m -> m_shutdown m = false ->
  tt_firing (m_timers m) !! i = Some id -> tt_heap (m_timers m) !! id = Some p -> members m !! p_node p = Some s ->
  (tt_nodeTimers (m_timers m) !! p_node p = Some id ->
   exists m', runCallback cfg m i now = Some m' /\ state_ok cfg m' /\
     members m' = <[p_node p := expiredNode cfg s now]> (members m) /\
     st_State (expiredNode cfg s now) = StateDead /\ st_Incarnation (expiredNode cfg s now) = st_Incarnation s /\
     tt_nodeTimers (m_timers m') !! p_node p = None /\
     queued m' (p_node p) deadMsg (MDead (MkDead (st_Incarnation s) (p_node p) (c_Name cfg))) None /\
     e_events (m_events m') = e_events (m_events m) ++
       (if c_Events cfg
        then [MkEvent eventLeave (st_Node (expiredNode cfg s now)) None (u64 (e_seq (m_events m) + 1)) None] else [])) /\
  (st_State s <> StateSuspect \/ st_StateChange s <> p_changeTime p ->
   exists m', runCallback cfg m i now = Some m' /\ silent m m').
Proof.
  intros Hok Hr Hd Hf Hp Hs. split.
  - intros Hid. destruct (callback_current cfg m (p_node p) i id s now Hok Hr Hd Hf Hid Hs)
      as (m' & E & Hok' & Hm & Hst & Htm & Hq & He). exists m'. by split_and!.
  - intros Hor. destruct (runCallback_outcome cfg m i now Hok Hr) as (m' & E & Ho). exists m'. split; [done|].
    destruct Ho as [|id' m0 Hf' _ ->|id' p' s' m0 m' Hf' Hp' _ Hs' Hsus Hch _ _ _]; try done.
    assert (id' = id) as -> by congruence. assert (p' = p) as -> by congruence. assert (s' = s) as -> by congruence.
    by destruct Hor.
Qed.

(** The example, with the timer of [b] run out. *)
Definition exampleExpired : Memberlist (G := Z) := expireDue exampleState 0 100000000000.
Definition exampleTimer : pendingTimer :=
  default (PendingTimer (newSuspicion 0 "" 0 0 0) "" 0 0) (tt_heap (m_timers exampleExpired) !! 0).

Lemma exampleTimer_known : tt_heap (m_timers exampleExpired) !! 0 = Some exampleTimer.
Proof.
  unfold exampleTimer. destruct (tt_heap (m_timers exampleExpired) !! 0) eqn:E; [done|]. vm_compute in E. discriminate.
Qed.

Lemma expiry_effect_witness :
  p_node exampleTimer = "b"%string /\
  exists m', runCallback (exampleConfig "a") exampleExpired 0 100000000001 = Some m' /\ state_ok (exampleConfig "a") m' /\
    members m' = <[p_node exampleTimer := expiredNode (exampleConfig "a") exampleB 100000000001]> (members exampleExpired) /\
    st_State (expiredNode (exampleConfig "a") exampleB 100000000001) = StateDead /\
    st_Incarnation (expiredNode (exampleConfig "a") exampleB 100000000001) = st_Incarnation exampleB /\
    tt_nodeTimers (m_timers m') !! p_node exampleTimer = None /\
    queued m' (p_node exampleTimer) deadMsg (MDead (MkDead (st_Incarnation exampleB) (p_node exampleTimer) "a")) None /\
    e_events (m_events m') = e_events (m_events exampleExpired) ++
      [MkEvent eventLeave (st_Node (expiredNode (exampleConfig "a") exampleB 100000000001)) None
         (u64 (e_seq (m_events exampleExpired) + 1)) None].
Proof.
  assert (Hn : p_node exampleTimer = "b"%string) by (vm_compute; reflexivity). split; [exact Hn|].
  refine (proj1 (expiry_effect (exampleConfig "a") exampleExpired 0 0 exampleTimer exampleB 100000000001 _ _ _ _
    exampleTimer_known _) _).
  - apply expireDue_ok, exampleState_ok.
  - vm_compute; congruence.
  - vm_compute; reflexivity.
  - vm_compute; reflexivity.
  - rewrite Hn. unfold exampleExpired. rewrite members_expireDue. exact exampleB_known.
  - rewrite Hn. vm_compute; reflexivity.
Defined.

(** Gossip dies out. A message about another node that an instance has
    handled once teaches it nothing the second time, at any later moment: no
    record changes, nothing is queued to be passed on and no event is raised.
    (An alive message that was turned down for its address may be accepted
    later, when the old address can be reclaimed; it has not been handled.) *)
Theorem replay_is_silent {G} `{RandLaws G} `{MathLog} cfg (m : Memberlist (G := G)) now now' :
  state_ok cfg m -> room 2 m ->
  (forall x m', Suspect_Node x <> c_Name cfg -> suspectNode cfg m x now = Some m' ->
     exists m'', suspectNode cfg m' x now' = Some m'' /\ silent m' m'') /\
  (forall d m', Dead_Node d <> c_Name cfg -> deadNode cfg m d now = Some m' ->
     exists m'', deadNode cfg m' d now' = Some m'' /\ silent m' m'') /\
  (forall a m', Alive_Node a <> c_Name cfg -> aliveTarget cfg (members m !! Alive_Node a) a now <> None ->
     aliveNode cfg m a false now = Some m' ->
     exists m'', aliveNode cfg m' a false now' = Some m'' /\ silent m' m'').
Proof.
  intros Hok Hr. unfold room in Hr. assert (Hr1 : room 1 m) by (unfold room; lia). split_and!.
  - intros x m' Hne E. destruct (suspectNode_outcome cfg m x now Hok Hr1) as (m1 & E1 & Ho).
    rewrite E in E1. injection E1 as <-. pose proof (suspect_outcome_gen _ _ _ _ _ Ho) as Hg.
    pose proof (suspect_outcome_ok _ _ _ _ _ Hok Ho) as Hok'.
    destruct (suspectNode_outcome cfg m' x now' Hok') as (m'' & E2 & Ho'); [unfold room; lia|].
    exists m''. split; [done|]. by eapply (suspect_replay cfg m x now now').
  - intros d m' Hne. unfold deadNode, hasShutdown. destruct (m_shutdown m) eqn:Hd; [intros [= <-]; rewrite Hd; eauto using silent_refl|].
    destruct (deadNodeLocked_outcome cfg m d None now) as (m1 & -> & Ho); [apply Hok..|done|]. intros [= <-].
    rewrite (dead_shutdown _ _ _ _ _ _ Ho), Hd. pose proof (dead_outcome_gen _ _ _ _ _ _ Ho) as Hg.
    pose proof (dead_outcome_ok _ _ _ _ _ _ Hok Ho) as Hok'.
    destruct (deadNodeLocked_outcome cfg m1 d None now') as (m'' & E2 & Ho'); [apply Hok'..|unfold room; lia|].
    exists m''. split; [done|]. by eapply (dead_replay cfg m d now now').
  - intros a m' Hne Ht. unfold aliveNode, hasShutdown.
    destruct (m_shutdown m) eqn:Hd; [intros [= <-]; rewrite Hd; eauto using silent_refl|].
    destruct (aliveNodeLocked_outcome cfg m a None false None now Hok Hr1) as (m1 & -> & Ho). intros [= <-].
    pose proof (alive_outcome_gen _ _ _ _ _ _ _ _ Ho) as Hg. pose proof (alive_outcome_ok _ _ _ _ _ _ _ _ Hok Ho) as Hok'.
    destruct (m_shutdown m1); [eauto using silent_refl|].
    destruct (aliveNodeLocked_outcome cfg m1 a None false None now' Hok') as (m'' & E2 & Ho'); [unfold room; lia|].
    exists m''. split; [done|]. by eapply (alive_replay cfg m a now now').
Qed.

(** The example, with a confirmation of the suspicion of [b]. *)
Definition exampleConfirmed : Memberlist (G := Z) :=
  default exampleStart (suspectNode (exampleConfig "a") exampleState (MkSuspect 3 "b" "d") 6).

Lemma exampleConfirmed_runs : suspectNode (exampleConfig "a") exampleState (MkSuspect 3 "b" "d") 6 = Some exampleConfirmed.
Proof.
  unfold exampleConfirmed. destruct (suspectNode _ _ _ _) as [m|] eqn:E; [done|]. vm_compute in E. discriminate.
Qed.

Lemma replay_is_silent_witness :
  exists m'', suspectNode (exampleConfig "a") exampleConfirmed (MkSuspect 3 "b" "d") 7 = Some m'' /\ silent exampleConfirmed m''.
Proof.
  refine (proj1 (replay_is_silent (exampleConfig "a") exampleState 6 7 exampleState_ok _) (MkSuspect 3 "b" "d")
    exampleConfirmed _ exampleConfirmed_runs); vm_compute; congruence.
Defined.

Lemma members_announced {G} `{RandLaws G} `{MathLog} cfg aw mult (g : G) m name :
  c_Events cfg = true -> rtc (step cfg) (newMemberlist aw mult g) m -> name <> c_Name cfg ->
  name ∈ map n_Name (Members m) <-> announced (e_events (m_events m)) name = true.
Proof.
  intros He Hr Hne. pose proof (reachable_ok cfg aw mult g m Hr) as Hok.
  rewrite present_Members by apply Hok.
  enough (present m name = announced (e_events (m_events m)) name) as -> by done. clear Hok.
  assert (Hgen : forall m0, state_ok cfg m0 -> rtc (step cfg) m0 m ->
    present m0 name = announced (e_events (m_events m0)) name -> present m name = announced (e_events (m_events m)) name).
  { clear Hr. intros m0 Hok0 Hr. induction Hr as [|m1 m2 m3 (i & now & Hr & E) _ IH]; [done|]. intros Hp.
    destruct (handle_ok cfg m1 i now Hok0 Hr) as (m2' & E' & Hok2). assert (m2' = m2) as -> by congruence.
    apply IH; [done|]. by eapply (handle_tells cfg m1 i now). }
  apply (Hgen (newMemberlist aw mult g)); [apply newMemberlist_ok|done|]. done.
Qed.

(** C20: Events tell presence. In every reachable state the members an
    instance reports, but for itself, are those whose last join or leave event
    is a join: no member appears without its join event or disappears without
    its leave event. *)
Theorem events_track_membership {G} `{RandLaws G} `{MathLog} cfg aw mult (g : G) m name :
  c_Events cfg = true -> rtc (step cfg) (newMemberlist aw mult g) m -> name <> c_Name cfg ->
  name ∈ map n_Name (Members m) <-> announced (e_events (m_events m)) name = true.
Proof. apply members_announced. Qed.

Lemma events_track_membership_witness :
  "b"%string ∈ map n_Name (Members exampleState) <-> announced (e_events (m_events exampleState)) "b" = true.
Proof.
  apply (events_track_membership (exampleConfig "a") 8 4 1); [reflexivity|exact exampleState_reachable|discriminate].
Defined.

(** Reaping is exact. It drops the nodes that have been dead or gone for
    longer than the gossip-to-the-dead time and keeps every other record as it
    is; the node list afterwards is a permutation of the locations kept, and
    nothing else of the instance changes but its random source. *)
Theorem reaping_exact {G} `{RandLaws G} `{MathLog} cfg (m : Memberlist (G := G)) now :
  state_ok cfg m ->
  exists m', resetNodes cfg m now = Some m' /\ state_ok cfg m' /\
    (forall name s, members m' !! name = Some s <->
       members m !! name = Some s /\
       ~ (DeadOrLeft s = true /\ Since now (st_StateChange s) > c_GossipToTheDeadTime cfg)) /\
    Permutation (t_nodes (m_table m'))
      (List.filter (fun l => negb (expired now (c_GossipToTheDeadTime cfg) (stateAt m l))) (t_nodes (m_table m))) /\
    m' = set_rng (set_table m (m_table m')) (m_rng m').
Proof.
  intros Hok. destruct (resetNodes_ok cfg m now Hok) as (m' & E & Hok' & Hm & Hrest & Hp). exists m'.
  split_and!; [done..| |done|done]. intros name s. rewrite Hm. unfold unexpired. rewrite map_lookup_filter_Some. cbn [snd].
  unfold expired. destruct (DeadOrLeft s); cbn [andb]; [|naive_solver].
  destruct (Z.leb_spec (Since now (st_StateChange s)) (c_GossipToTheDeadTime cfg)); cbn [negb].
  - split; (intros [? _]; split; [done|]); [intros [_ ?]; lia|done].
  - split; [by intros [_ ?]|]. intros [_ Hx]. destruct Hx. split; [done|lia].
Qed.

Lemma reaping_exact_witness :
  exists m', resetNodes (exampleConfig "a") exampleState 50 = Some m' /\ state_ok (exampleConfig "a") m' /\
    (forall name s, members m' !! name = Some s <->
       members exampleState !! name = Some s /\ ~ (DeadOrLeft s = true /\ Since 50 (st_StateChange s) > 30000000000)) /\
    Permutation (t_nodes (m_table m'))
      (List.filter (fun l => negb (expired 50 30000000000 (stateAt exampleState l))) (t_nodes (m_table exampleState))) /\
    m' = set_rng (set_table exampleState (m_table m')) (m_rng m').
Proof. exact (reaping_exact (exampleConfig "a") exampleState 50 exampleState_ok). Defined.

(** C21: Leaving is final. The first leave of a live node marks it as left in
    its own table, queues the announcement with the channel the call waits on,
    and commits a leave event with the call's receipt. From then on, whatever
    is handled, the node is not among its own members again; updating it fails
    and leaving again only waits for the first receipt. *)
Theorem leave_is_final {G} `{RandLaws G} `{MathLog} cfg (m : Memberlist (G := G)) s receipt now :
  state_ok cfg m -> room 1 m -> m_shutdown m = false -> m_leave m = false -> c_Events cfg = true ->
  members m !! c_Name cfg = Some s -> st_State s = StateAlive ->
  exists m' s' ev, LeaveContext cfg (Leaver m None) receipt now
      = Some (LeaveCommitted receipt (anyAliveLocked cfg m'), Leaver m' (Some receipt)) /\
    members m' = <[c_Name cfg := s']> (members m) /\ st_State s' = StateLeft /\ st_Incarnation s' = st_Incarnation s /\
    queued m' (c_Name cfg) deadMsg (MDead (MkDead (st_Incarnation s) (c_Name cfg) (c_Name cfg))) (Some leaveBroadcast) /\
    e_events (m_events m') = e_events (m_events m) ++ [ev] /\ ev_kind ev = eventLeave /\ ev_node ev = st_Node s' /\
    ev_receipt ev = Some receipt /\
    forall l m'', runInputs cfg m' l = Some m'' -> ~ (c_Name cfg ∈ map n_Name (Members m'')) /\
      (m_shutdown m'' = false ->
       (forall meta n r now', UpdateNodeContext cfg m'' meta n r now' = Some (Err ErrLeft, m'')) /\
       (forall r now', LeaveContext cfg (Leaver m'' (Some receipt)) r now'
          = Some (LeaveRetry (Some receipt), Leaver m'' (Some receipt)))).
Proof.
  intros Hok Hr Hd Hl He Hs Ha.
  destruct (leave_effect cfg m s None receipt now Hok Hr Hd Hl Hs Ha) as (m' & s' & E & Hok' & Hm & Hst & Hi & Hlv & Hq & Hev). specialize (Hev He).
  eexists m', s', _. split_and!; try done. intros inputs m'' Hrun.
  destruct (runInputs_ind cfg (gone cfg) (fun _ => True)) with (l := inputs) (m := m') (m' := m'') as [Hok'' [Hl'' Hp'']]; try done.
  - intros m1 i now1 m2 Hok2 _ Hg Hr2 E2. apply handle_atomic in E2; [|done..]. clear -E2 Hg.
    induction E2 as [|? ? ? H12 _ IH]; [done|]. apply IH. by eapply atomic_gone.
  - by apply Forall_true.
  - split; [done|]. unfold present. rewrite Hm, lookup_insert_eq. cbn. unfold DeadOrLeft. by rewrite Hst.
  - split; [rewrite present_Members by apply Hok''; congruence|]. intros Hd''.
    unfold UpdateNodeContext, LeaveContext, hasShutdown, hasLeft. cbn [le_m le_receipt]. by rewrite Hd'', Hl''.
Qed.

Lemma leave_is_final_witness :
  exists m' s' ev, LeaveContext (exampleConfig "a") (Leaver exampleState None) 5 40
      = Some (LeaveCommitted 5 (anyAliveLocked (exampleConfig "a") m'), Leaver m' (Some 5)) /\
    members m' = <["a"%string := s']> (members exampleState) /\ st_State s' = StateLeft /\
    st_Incarnation s' = st_Incarnation exampleA /\
    queued m' "a" deadMsg (MDead (MkDead (st_Incarnation exampleA) "a" "a")) (Some leaveBroadcast) /\
    e_events (m_events m') = e_events (m_events exampleState) ++ [ev] /\ ev_kind ev = eventLeave /\ ev_node ev = st_Node s' /\
    ev_receipt ev = Some 5 /\
    forall l m'', runInputs (exampleConfig "a") m' l = Some m'' -> ~ ("a"%string ∈ map n_Name (Members m'')) /\
      (m_shutdown m'' = false ->
       (forall meta n r now', UpdateNodeContext (exampleConfig "a") m'' meta n r now' = Some (Err ErrLeft, m'')) /\
       (forall r now', LeaveContext (exampleConfig "a") (Leaver m'' (Some 5)) r now'
          = Some (LeaveRetry (Some 5), Leaver m'' (Some 5)))).
Proof.
  apply (leave_is_final (exampleConfig "a") exampleState exampleA 5 40);
    [exact exampleState_ok|vm_compute; congruence|vm_compute; reflexivity..|exact exampleA_known|vm_compute; reflexivity].
Defined.


Definition exampleDown : Memberlist (G := Z) :=
  default exampleStart (runInputs (exampleConfig "a") (ShutdownFlag exampleState) exampleSlander).

Lemma exampleDown_runs : runInputs (exampleConfig "a") (ShutdownFlag exampleState) exampleSlander = Some exampleDown.
Proof.
  unfold exampleDown. destruct (runInputs _ _ exampleSlander) as [m|] eqn:E; [done|]. vm_compute in E. discriminate.
Qed.

