(* ===== verification/Merge.v ===== *)
(** What merging a peer's state does to the members: each node of the peer's
    list ends where the precedence rules put it, and the others stay. *)

From S2P Require Import Prelude Msgpack Wire Treap Timing Queue NetAddr Nodes Events Packet State Lifecycle Membership Protocol.

(** ** Specification *)

(** The rule a pushed state is merged by: a dead node is only suspected. *)
Definition heard (r : PushNodeState) (x : status) : status :=
  match toNodeStateType (PNS_State r) with
  | Some StateAlive => swim_alive (PNS_Incarnation r) x
  | Some StateSuspect | Some StateDead => swim_suspect (PNS_Incarnation r) x
  | Some StateLeft => swim_dead true (PNS_Incarnation r) x
  | None => x
  end.

(** What the peer said is not lost: the status is at least as new as an alive
    one, an accused node is not alive at the incarnation it was accused at, and
    a node that left is gone, unless it has come back since. *)
Definition absorbed (r : PushNodeState) (x : status) : Prop :=
  match toNodeStateType (PNS_State r) with
  | Some StateAlive => PNS_Incarnation r <= x.2
  | Some StateSuspect | Some StateDead => x.1 <> StateAlive \/ PNS_Incarnation r < x.2
  | Some StateLeft => x.1 = StateDead \/ x.1 = StateLeft \/ PNS_Incarnation r < x.2
  | None => True
  end.

Definition aliveFrom (r : PushNodeState) : Alive :=
  MkAlive (PNS_Incarnation r) (PNS_Name r) (PNS_Addr r) (PNS_Port r) (PNS_Meta r) (PNS_Vsn r).

Lemma heard_absorbed r x : absorbed r (heard r x).
Proof.
  unfold absorbed, heard. destruct x as [t i]. destruct (toNodeStateType (PNS_State r)) as [[]|]; [| | | |done];
    unfold swim_alive, swim_suspect, swim_dead; cbn [fst snd];
    [destruct (Z.ltb_spec i (PNS_Incarnation r))|destruct (Z.leb_spec i (PNS_Incarnation r))..]; destruct t; cbn; auto; lia.
Qed.

Section Merge.
Context {G : Type} {RG : Rand G} {RL : RandLaws G} {ML : MathLog} (cfg : Config).
Implicit Types m : Memberlist (G := G).

(** When the receiver takes an alive state: it accepts the version vector and
    the delegate agrees, and the node is known under that address or is new
    and may be. *)
Definition believes m (r : PushNodeState) : Prop :=
  toNodeStateType (PNS_State r) = Some StateAlive ->
  aliveAcceptable cfg m (aliveFrom r) false = true /\
  match members m !! PNS_Name r with
  | Some s => sameAddress (st_Node s) (aliveFrom r) = true
  | None => IPAllowed (c_CIDRsAllowed cfg) (slice_bytes (PNS_Addr r)) = true /\ 0 < PNS_Incarnation r
  end.

Lemma alive_shutdown m a notify b r now m' : alive_outcome cfg m a notify b r now m' -> m_shutdown m' = m_shutdown m.
Proof.
  assert (Hev : forall m0 s s' r0, m_shutdown (aliveEvent cfg m0 s s' r0) = m_shutdown m0).
  { intros. unfold aliveEvent, withEvent. by repeat case_match. }
  assert (Hta : forall s l m1, targeted cfg m a s l m1 -> m_shutdown m1 = m_shutdown m).
  { intros s l m1 Hta. by rewrite (ta_rest _ _ _ _ _ _ Hta). }
  intros [Ha|Ha Ht|s Ha Ht Hm Hc|s u l m1 Ha Ht Hta' Hn|s u l m1 Ha Ht Hta' Hn Hb Hloc Hsame
    |s u l m1 m2 Ha Ht Hta' Hn Hb Hloc Hsame Href|s u l m1 m2 Ha Ht Hta' Hn Hb Hbr]; try done; rewrite ?Hev.
  - eauto.
  - change (m_shutdown m1 = m_shutdown m). eauto.
  - destruct Href as (q & f & g & -> & _). change (m_shutdown m1 = m_shutdown m). eauto.
  - destruct Hbr as (q & f & g & -> & _). change (m_shutdown m1 = m_shutdown m). eauto.
Qed.

Lemma suspect_shutdown m x now m' : suspect_outcome cfg m x now m' -> m_shutdown m' = m_shutdown m.
Proof.
  intros [| | |s id m1 ok m2 ? ? ? ? ? Hc Hb| |l m2 ? ? ? ? ? Href|l m1 ? ? ? ? ? Hb]; try done.
  - apply confirmTimer_frame in Hc. destruct ok; [destruct Hb as (q & f & g & -> & _)|subst m2]; by rewrite Hc.
  - destruct Href as (q & f & g & -> & _). done.
  - destruct Hb as (q & f & g & -> & _). done.
Qed.

(** What one state of the list does: its node only. *)
Record mergedOne m (r : PushNodeState) m' : Prop := {
  mo_ok : state_ok cfg m';
  mo_gen : q_idGen (m_broadcasts m') <= q_idGen (m_broadcasts m) + 1;
  mo_up : m_shutdown m' = false;
  mo_leave : m_leave m' = m_leave m;
  mo_others : forall n, n <> PNS_Name r -> members m' !! n = members m !! n;
  mo_known : forall s, members m !! PNS_Name r = Some s -> PNS_Name r <> c_Name cfg -> believes m r ->
    exists s', members m' !! PNS_Name r = Some s' /\ statusOf s' = heard r (statusOf s);
  mo_new : members m !! PNS_Name r = None -> toNodeStateType (PNS_State r) = Some StateAlive -> PNS_Name r <> c_Name cfg ->
    believes m r -> exists s', members m' !! PNS_Name r = Some s' /\ statusOf s' = (StateAlive, PNS_Incarnation r);
}.

Lemma alive_new m a r now m' :
  alive_outcome cfg m a None false r now m' -> state_ok cfg m -> members m !! Alive_Node a = None ->
  aliveAcceptable cfg m a false = true -> IPAllowed (c_CIDRsAllowed cfg) (slice_bytes (Alive_Addr a)) = true ->
  0 < Alive_Incarnation a -> Alive_Node a <> c_Name cfg ->
  exists s', members m' !! Alive_Node a = Some s' /\ statusOf s' = (StateAlive, Alive_Incarnation a).
Proof.
  intros Ho Hok Hn Hacc Hip Hinc Hne.
  assert (Ht0 : aliveTarget cfg (members m !! Alive_Node a) a now = Some (freshNode a, false)) by (unfold aliveTarget; by rewrite Hn, Hip).
  destruct Ho as [Ha|Ha Ht|s Ha Ht Hm Hc|s u l m1 Ha Ht Hta Hnews|s u l m1 Ha Ht Hta Hnews Hb Hloc Hsame
    |s u l m1 m2 Ha Ht Hta Hnews Hb Hloc Hsame Href|s u l m1 m2 Ha Ht Hta Hnews Hb Hbr]; try congruence.
  - exfalso. assert (s = freshNode a) as -> by congruence. unfold isNews in Hnews. rewrite (proj2 (String.eqb_neq _ _) Hne) in Hnews.
    apply orb_false_iff in Hnews as [Hlt _]. apply Z.ltb_ge in Hlt. unfold freshNode in Hlt. cbn in Hlt. lia.
  - apply broadcasts_frame in Hbr as (E1 & _). exists (aliveUpdate s a now). destruct (aliveUpdate_fields s a now) as (Hun & Hs & Hi).
    split; [|unfold statusOf; by rewrite Hs, Hi]. rewrite members_aliveEvent.
    rewrite (members_put m1 _ (Alive_Node a)); [by rewrite lookup_insert_eq|apply Hta|done|exact (ta_at _ _ _ _ _ _ Hta)|].
    rewrite Hun. apply (ta_name _ _ _ _ _ _ Hta).
Qed.

Lemma alive_one m r now :
  state_ok cfg m -> room 1 m -> m_shutdown m = false -> toNodeStateType (PNS_State r) = Some StateAlive ->
  exists m', aliveNode cfg m (aliveFrom r) false now = Some m' /\ mergedOne m r m'.
Proof.
  intros Hok Hr Hd Et. destruct (aliveNode_ok cfg m (aliveFrom r) false now Hok Hr) as (m' & E & Hok' & Hg). exists m'. split; [done|].
  unfold aliveNode, hasShutdown in E. rewrite Hd in E.
  destruct (aliveNodeLocked_outcome cfg m (aliveFrom r) None false None now Hok Hr) as (m1 & E1 & Ho). simplify_eq.
  constructor; [done|exact Hg|by rewrite (alive_shutdown _ _ _ _ _ _ _ Ho)|by eapply alive_leave| | |].
  - intros n Hn. destruct (alive_effect _ _ _ _ _ _ _ _ Ho) as [-> |(s & u & _ & [-> |[(_ & _ & inc & ->)|[_ ->]]])]; [done|..];
      by rewrite lookup_insert_ne.
  - intros s Hs Hne Hb. destruct (Hb Et) as [Hacc Hsa]. rewrite Hs in Hsa. unfold heard. rewrite Et.
    by apply (alive_members cfg m (aliveFrom r) None false None now m' s Hok Ho Hs).
  - intros Hn _ Hne Hb. destruct (Hb Et) as [Hacc Hip]. rewrite Hn in Hip. by apply (alive_new m (aliveFrom r) None now m'); try apply Hip.
Qed.

Lemma suspect_one m r now :
  state_ok cfg m -> room 1 m -> m_shutdown m = false ->
  toNodeStateType (PNS_State r) = Some StateSuspect \/ toNodeStateType (PNS_State r) = Some StateDead ->
  exists m', suspectNode cfg m (MkSuspect (PNS_Incarnation r) (PNS_Name r) (c_Name cfg)) now = Some m' /\ mergedOne m r m'.
Proof.
  intros Hok Hr Hd Et. set (x := MkSuspect _ _ _). destruct (suspectNode_ok cfg m x now Hok Hr) as (m' & E & Hok' & Hg).
  exists m'. split; [done|]. destruct (suspectNode_outcome cfg m x now Hok Hr) as (m1 & E1 & Ho). simplify_eq.
  constructor; [done|exact Hg|by rewrite (suspect_shutdown _ _ _ _ Ho)|by eapply suspect_leave| | |].
  - intros n Hn. destruct (suspect_effect cfg m x now m' Hok Ho) as [-> |(s & _ & _ & [(_ & ->)|(_ & ->)])]; [done|..];
      by rewrite lookup_insert_ne.
  - intros s Hs Hne _. destruct (suspect_members cfg m x now m' s Hok Ho Hs) as [_ Hst].
    destruct (Hst Hne Hd) as (s' & Hs' & E'). exists s'. split; [done|]. unfold heard. by destruct Et as [-> | ->].
  - intros _ Ha. destruct Et; congruence.
Qed.

Lemma left_one m r now :
  state_ok cfg m -> room 1 m -> m_shutdown m = false -> toNodeStateType (PNS_State r) = Some StateLeft ->
  exists m', deadNode cfg m (MkDead (PNS_Incarnation r) (PNS_Name r) (PNS_Name r)) now = Some m' /\ mergedOne m r m'.
Proof.
  intros Hok Hr Hd Et. set (d := MkDead _ _ _). destruct (deadNode_ok cfg m d now Hok Hr) as (m' & E & Hok' & Hg). exists m'. split; [done|].
  unfold deadNode, hasShutdown in E. rewrite Hd in E.
  destruct (deadNodeLocked_outcome cfg m d None now) as (m1 & E1 & Ho); [apply Hok..|done|]. simplify_eq.
  constructor; [done|exact Hg|by rewrite (dead_shutdown _ _ _ _ _ _ Ho)|by eapply dead_leave| | |].
  - intros n Hn. destruct (dead_effect cfg m d None now m' (so_table _ _ Hok) Ho) as [-> |(s & _ & _ & [(_ & _ & ->)|(_ & ->)])]; [done|..];
      by rewrite lookup_insert_ne.
  - intros s Hs Hne _. destruct (dead_members cfg m d None now m' s (so_table _ _ Hok) Ho Hs) as [_ Hst].
    destruct (Hst Hne) as (s' & Hs' & E'). exists s'. split; [done|]. rewrite E'. unfold heard. rewrite Et. cbn. by rewrite String.eqb_refl.
  - congruence.
Qed.

Lemma mergeNode_one m r now :
  state_ok cfg m -> room 1 m -> m_shutdown m = false -> exists m', mergeNode cfg m r now = Some m' /\ mergedOne m r m'.
Proof.
  intros Hok Hr Hd. unfold mergeNode. destruct (toNodeStateType (PNS_State r)) as [[]|] eqn:Et.
  - by apply alive_one.
  - apply suspect_one; auto.
  - apply suspect_one; auto.
  - by apply left_one.
  - exists m. split; [done|]. constructor; try done; [lia| |congruence]. intros s Hs _ _. exists s. split; [done|]. unfold heard. by rewrite Et.
Qed.

(** Whether a state is believed depends on its node only. *)
Lemma believes_others m m' r :
  m_leave m' = m_leave m -> members m' !! PNS_Name r = members m !! PNS_Name r -> believes m r -> believes m' r.
Proof.
  unfold believes. intros El Em Hb Ha. destruct (Hb Ha) as [H1 H2]. rewrite Em. split; [|done].
  unfold aliveAcceptable, hasLeft in *. by rewrite El.
Qed.
End Merge.

(** ** Properties *)

(** C9: Merging a peer's state leaves nothing of it unheard: every node it
    lists, other than the local one, that is known and believed ends exactly
    where the precedence rules put it, so that an alive node is at least at the
    incarnation the peer has, an accused one is not alive at the incarnation it
    was accused at, and one that left is gone or has come back; a believed
    alive node that was unknown is now a member; and nodes the peer did not
    list are untouched. *)
Theorem merge_absorbs {G} `{RandLaws G} `{MathLog} cfg (m : Memberlist (G := G)) remote now :
  state_ok cfg m -> room (len remote) m -> m_shutdown m = false -> NoDup (map PNS_Name remote) ->
  exists m', mergeState cfg m remote now = Some m' /\
    (forall n, n ∉ map PNS_Name remote -> members m' !! n = members m !! n) /\
    forall r, r ∈ remote -> PNS_Name r <> c_Name cfg -> believes cfg m r ->
      match members m !! PNS_Name r with
      | Some s => exists s', members m' !! PNS_Name r = Some s' /\ statusOf s' = heard r (statusOf s) /\ absorbed r (statusOf s')
      | None => toNodeStateType (PNS_State r) = Some StateAlive ->
          exists s', members m' !! PNS_Name r = Some s' /\ statusOf s' = (StateAlive, PNS_Incarnation r)
      end.
Proof.
  revert m. induction remote as [|r0 remote IH]; intros m Hok Hr Hd Hnd; cbn [mergeState map] in *.
  { exists m. split_and!; [done..|]. intros r Hin. by apply not_elem_of_nil in Hin. }
  apply NoDup_cons in Hnd as [Hfresh Hnd]. unfold room in Hr. rewrite len_cons in Hr. pose proof (len_nonneg remote).
  destruct (mergeNode_one cfg m r0 now Hok ltac:(unfold room; lia) Hd) as (m1 & -> & [H1' H2' H3' H4' H5' H6' H7']). cbn [mbind option_bind].
  destruct (IH m1 H1' ltac:(unfold room; lia) H3' Hnd) as (m' & Em & Ho & Hall). exists m'. split; [done|]. split.
  { intros n [Hn Hin]%not_elem_of_cons. by rewrite Ho, H5'. }
  intros r [-> |Hin]%elem_of_cons Hne Hb.
  - rewrite Ho by done. destruct (members m !! PNS_Name r0) as [s|] eqn:Es; [|by auto].
    destruct (H6' s eq_refl Hne Hb) as (s' & Hs' & E). exists s'. split_and!; [done..|]. rewrite E. apply heard_absorbed.
  - assert (Hn : PNS_Name r <> PNS_Name r0) by (intros En; apply Hfresh; rewrite <- En; by apply list_elem_of_fmap_2).
    rewrite <- (H5' _ Hn). apply Hall; [done..|]. eapply believes_others; [exact H4'|by apply H5'|done].
Qed.

(** A peer that lost b and knows of a node c. *)
Definition exampleC : PushNodeState := MkPushNodeState "c" (exampleAddr 3) 7946 None 3 (stateNumber StateAlive) exampleVsn.
Definition exampleRemote : list PushNodeState :=
  [MkPushNodeState "b" (exampleAddr 2) 7946 None 9 (stateNumber StateDead) exampleVsn;
   exampleC].

Lemma exampleC_unknown : members exampleState !! PNS_Name exampleC = None.
Proof. vm_compute. reflexivity. Qed.

Lemma exampleC_believed : believes (exampleConfig "a") exampleState exampleC.
Proof. intros _. rewrite exampleC_unknown. split; [vm_compute; reflexivity|split; [vm_compute; reflexivity|reflexivity]]. Qed.

Lemma merge_absorbs_witness :
  exists m', mergeState (exampleConfig "a") exampleState exampleRemote 50 = Some m' /\
    exists s', members m' !! PNS_Name exampleC = Some s' /\ statusOf s' = (StateAlive, PNS_Incarnation exampleC).
Proof.
  destruct (merge_absorbs (exampleConfig "a") exampleState exampleRemote 50) as (m' & E & _ & Hall).
  - apply exampleState_ok.
  - vm_compute. congruence.
  - vm_compute. reflexivity.
  - apply (bool_decide_unpack _). vm_compute. exact I.
  - exists m'. split; [exact E|].
    specialize (Hall exampleC (list_elem_of_further _ _ _ (list_elem_of_here _ _))).
    rewrite exampleC_unknown in Hall. apply Hall; [discriminate|apply exampleC_believed|reflexivity].
Defined.
