(* ===== verification/Security.v ===== *)
(** Encryption, [src/security.go], and the keyring, [src/keyring.go].

    AES-GCM of the standard library is the parameter [GCM] with its laws; a
    nonce, read from the system's random source, is an argument. The keyring
    keeps its keys in slices that share backing arrays with what [GetKeys]
    has handed out, so the arrays are a store and a slice is an array with a
    length. An operation that panics is [None]. *)

From S2P Require Import Prelude.

(** ** Sizes *)

Definition minEncryptionVersion : Z := 0.
Definition maxEncryptionVersion : Z := 1.
Definition versionSize : Z := 1.
Definition nonceSize : Z := 12.
Definition tagSize : Z := 16.
Definition maxPadOverhead : Z := 16.
Definition blockSize : Z := 16.

(** [None] is the panic on an unsupported version. *)
Definition encryptOverhead (vsn : Z) : option Z :=
  if vsn =? 0 then Some 45 else if vsn =? 1 then Some 29 else None.

Definition encryptedLength (vsn inp : Z) : Z :=
  if vsn >=? 1 then versionSize + nonceSize + inp + tagSize
  else
    let padding := blockSize - Z.rem inp blockSize in
    versionSize + nonceSize + inp + padding + tagSize.

(** ** Padding *)

(** [for range n { buf = append(buf, byte(n)) }] *)
Definition padWith (n : Z) : bytes := replicate (Z.to_nat n) (z2b n).

Definition pkcs7encode (buf : bytes) (ignore blockSize : Z) : bytes :=
  let n := len buf - ignore in
  let more := blockSize - Z.rem n blockSize in
  buf ++ padWith more.

Inductive securityError :=
| EmptyPadding
| InvalidPadding (pad : Z)
| KeySize
| EmptyPayload
| UnsupportedVersion (vsn : Z)
| PayloadTooSmall (size : Z)
| NoKeyDecrypts.

Definition pkcs7decode (buf : bytes) (blockSize : Z) : result securityError bytes :=
  match last buf with
  | None => Err EmptyPadding
  | Some c =>
      let pad := b2z c in
      if (pad <? 1) || (pad >? blockSize) || (pad >? len buf) then Err (InvalidPadding pad)
      else Ok (take (Z.to_nat (len buf - pad)) buf)
  end.

(** ** AES-GCM *)

(** [gcmOf] is [cipher.NewGCM] of [aes.NewCipher] on a key of a valid size;
    [Open] is [None] when authentication fails. *)
Class GCM := {
  gcm : Type;
  gcmOf : bytes -> gcm;
  Seal : gcm -> bytes -> bytes -> bytes -> bytes;
  Open : gcm -> bytes -> bytes -> bytes -> option bytes;
}.

(** The largest plaintext GCM takes. *)
Definition gcmMax : Z := 2 ^ 36 - 32.

(** GCM ciphertexts are a tag longer than the plaintext, open to it, and
    nothing else opens. *)
Class GCMLaws `{GCM} : Prop := {
  Seal_length g nonce p data : len p <= gcmMax -> len (Seal g nonce p data) = len p + tagSize;
  Open_Seal g nonce p data : len nonce = nonceSize -> len p <= gcmMax -> Open g nonce (Seal g nonce p data) data = Some p;
  Open_only g nonce c data p : Open g nonce c data = Some p -> c = Seal g nonce p data /\ len p <= gcmMax;
}.

Section Payload.
Context {GC : GCM}.

Definition validKeySize (key : bytes) : bool := (len key =? 16) || (len key =? 24) || (len key =? 32).

(** [aes.NewCipher] refuses a key of any other size. *)
Definition newAEAD (key : bytes) : result securityError gcm :=
  if validKeySize key then Ok (gcmOf key) else Err KeySize.

Definition sealPayload (vsn : Z) (g : gcm) (nonce msg data dst : bytes) : bytes :=
  let src := if vsn =? 0 then msg ++ padWith (blockSize - Z.rem (len msg) blockSize) else msg in
  dst ++ z2b vsn :: nonce ++ Seal g nonce src data.

Definition encryptPayload (vsn : Z) (key nonce msg data dst : bytes) : result securityError bytes :=
  let! g := newAEAD key in
  Ok (dst ++ sealPayload vsn g nonce msg data []).

(** The loop over the ciphers. *)
Fixpoint openLoop (vsn : Z) (aeads : list gcm) (nonce ciphertext data : bytes) : result securityError bytes :=
  match aeads with
  | [] => Err NoKeyDecrypts
  | g :: aeads =>
      match Open g nonce ciphertext data with
      | Some plain => if vsn =? 0 then pkcs7decode plain blockSize else Ok plain
      | None => openLoop vsn aeads nonce ciphertext data
      end
  end.

Definition openPayload (aeads : list gcm) (msg data : bytes) : result securityError bytes :=
  match msg with
  | [] => Err EmptyPayload
  | c :: rest =>
      let vsn := b2z c in
      if vsn >? maxEncryptionVersion then Err (UnsupportedVersion vsn)
      else if len msg <? encryptedLength vsn 0 then Err (PayloadTooSmall (len msg))
      else
        openLoop vsn aeads (take (Z.to_nat nonceSize) rest) (drop (Z.to_nat nonceSize) rest) data
  end.

(** [make([]cipher.AEAD, ...)] filled key by key. *)
Fixpoint newAEADs (keys : list bytes) : result securityError (list gcm) :=
  match keys with
  | [] => Ok []
  | key :: keys => let! g := newAEAD key in let! gs := newAEADs keys in Ok (g :: gs)
  end.

Definition decryptPayload (keys : list bytes) (msg data : bytes) : result securityError bytes :=
  let! aeads := newAEADs keys in openPayload aeads msg data.
End Payload.

(** A nil result is the empty slice here. *)
Definition appendBytes (first second : bytes) : bytes :=
  match first, second with
  | _ :: _, _ :: _ => first ++ second
  | _ :: _, [] => first
  | [], _ => second
  end.

(** ** The keyring *)

(** A slice of a backing array, from its start. *)
Record keySlice := KeySlice { ks_array : Z; ks_len : nat }.

Section Keyring.
Context {GC : GCM}.

Record Keyring := MkKeyring {
  k_arrays : gmap Z (list bytes);
  k_next : Z;
  k_keys : keySlice;
  k_aeads : list gcm;
}.

(** What a slice shows. *)
Definition view (k : Keyring) (s : keySlice) : list bytes := take (ks_len s) (default [] (k_arrays k !! ks_array s)).
Definition keysOf (k : Keyring) : list bytes := view k (k_keys k).

(** [&Keyring{}] and [init] *)
Definition initKeyring : Keyring := MkKeyring {[ 0 := [] ]} 1 (KeySlice 0 0) [].

Inductive keyringError := InvalidKeySize | EmptyPrimary | KeyNotInstalled | RemovingPrimary.

Definition ValidateKey (key : bytes) : result keyringError unit :=
  if validKeySize key then Ok tt else Err InvalidKeySize.

Definition hasKey (keys : list bytes) (key : bytes) : bool := existsb (fun k => bool_decide (k = key)) keys.

Definition installKeysLocked (k : Keyring) (keys : list bytes) (primaryKey : bytes) : option Keyring :=
  let newKeys := primaryKey :: List.filter (fun key => negb (bool_decide (key = primaryKey))) keys in
  match newAEADs newKeys with
  | Err _ => None
  | Ok aeads =>
      Some (MkKeyring (<[k_next k := newKeys]> (k_arrays k)) (k_next k + 1) (KeySlice (k_next k) (length newKeys)) aeads)
  end.

Definition getPrimaryKeyLocked (k : Keyring) : option bytes := keysOf k !! 0%nat.
Definition GetPrimaryKey (k : Keyring) : option bytes := getPrimaryKeyLocked k.

(** [GetKeys] hands out the slice, not a copy. *)
Definition GetKeys (k : Keyring) : keySlice := k_keys k.
Definition getAEADs (k : Keyring) : list gcm := k_aeads k.
Definition primaryAEAD (k : Keyring) : option gcm := k_aeads k !! 0%nat.

(** [append(k.keys, key)] may write past the slice's length only, which no
    slice shows; the array installed next is a new one. *)
Definition AddKey (k : Keyring) (key : bytes) : option (result keyringError unit * Keyring) :=
  match ValidateKey key with
  | Err e => Some (Err e, k)
  | Ok _ =>
      if hasKey (keysOf k) key then Some (Ok tt, k)
      else
        let primaryKey := default key (getPrimaryKeyLocked k) in
        k ← installKeysLocked k (keysOf k ++ [key]) primaryKey;
        Some (Ok tt, k)
  end.

Definition UseKey (k : Keyring) (key : bytes) : option (result keyringError unit * Keyring) :=
  if hasKey (keysOf k) key then k ← installKeysLocked k (keysOf k) key; Some (Ok tt, k)
  else Some (Err KeyNotInstalled, k).

(** [append(k.keys[:i], k.keys[i+1:]...)] in place: the elements after [i]
    move down by one in the shared array, and the last one stays. *)
Definition shiftDown (k : Keyring) (i : nat) : option (Keyring * list bytes) :=
  let s := k_keys k in
  if (ks_len s <? S i)%nat then None
  else
    let a := default [] (k_arrays k !! ks_array s) in
    let keys := take i a ++ drop (S i) (take (ks_len s) a) in
    let a := keys ++ drop (ks_len s - 1) a in
    Some (MkKeyring (<[ks_array s := a]> (k_arrays k)) (k_next k) s (k_aeads k), keys).

(** The range loop reads its elements from the array of the slice it started
    with. *)
Fixpoint removeLoop (k : Keyring) (key : bytes) (ranged : keySlice) (idxs : list nat) : option Keyring :=
  match idxs with
  | [] => Some k
  | i :: idxs =>
      installedKey ← view k ranged !! i;
      if bool_decide (key = installedKey) then
        '(k, keys) ← shiftDown k i;
        primary ← keysOf k !! 0%nat;
        k ← installKeysLocked k keys primary;
        removeLoop k key ranged idxs
      else removeLoop k key ranged idxs
  end.

Definition RemoveKey (k : Keyring) (key : bytes) : option (result keyringError unit * Keyring) :=
  primary ← keysOf k !! 0%nat;
  if bool_decide (key = primary) then Some (Err RemovingPrimary, k)
  else
    k ← removeLoop k key (k_keys k) (seq 0 (ks_len (k_keys k)));
    Some (Ok tt, k).

Fixpoint addKeys (k : Keyring) (keys : list bytes) : option (result keyringError Keyring) :=
  match keys with
  | [] => Some (Ok k)
  | key :: keys =>
      '(r, k) ← AddKey k key;
      match r with
      | Ok _ => addKeys k keys
      | Err e => Some (Err e)
      end
  end.

Definition NewKeyring (keys : list bytes) (primaryKey : bytes) : option (result keyringError Keyring) :=
  if (len keys >? 0) || (len primaryKey >? 0) then
    if len primaryKey =? 0 then Some (Err EmptyPrimary) else addKeys initKeyring (primaryKey :: keys)
  else Some (Ok initKeyring).
End Keyring.

(** ** Lemmas: payloads *)

Lemma pad_range n : 0 <= n -> 1 <= blockSize - Z.rem n blockSize <= 16.
Proof. intros Hn. unfold blockSize. pose proof (Z.rem_bound_pos n 16 Hn ltac:(lia)). lia. Qed.

Lemma len_padWith n : 0 <= n -> len (padWith n) = n.
Proof. intros Hn. unfold padWith, len. rewrite length_replicate. lia. Qed.

Lemma pkcs7decode_pad msg n bs : 1 <= n <= bs -> n <= 255 -> pkcs7decode (msg ++ padWith n) bs = Ok msg.
Proof.
  intros Hn H255. unfold pkcs7decode.
  assert (Hl : last (msg ++ padWith n) = Some (z2b n)).
  { unfold padWith. destruct (Z.to_nat n) as [|k] eqn:E; [lia|]. rewrite replicate_S_end, app_assoc. apply last_snoc. }
  rewrite Hl, b2z_z2b_small by lia. rewrite len_app, len_padWith by lia. pose proof (len_nonneg msg).
  destruct (Z.ltb_spec n 1), (Z.gtb_spec n bs), (Z.gtb_spec n (len msg + n)); try lia. cbn [orb].
  f_equal. replace (Z.to_nat (len msg + n - n)) with (length msg) by (unfold len; lia). apply take_app_length.
Qed.

Section PayloadLemmas.
Context {GC : GCM} {GL : GCMLaws}.

Lemma len_sealPayload vsn g nonce msg data dst :
  vsn = 0 \/ vsn = 1 -> len nonce = nonceSize -> len msg + 16 <= gcmMax ->
  len (sealPayload vsn g nonce msg data dst) = len dst + encryptedLength vsn (len msg).
Proof.
  intros Hv Hn Hm. pose proof (pad_range (len msg) (len_nonneg msg)) as Hp. unfold sealPayload, encryptedLength.
  rewrite len_app, len_cons, len_app, Hn. destruct Hv as [-> | ->]; cbn [Z.eqb Z.geb Z.compare Pos.compare Pos.compare_cont].
  - rewrite Seal_length; rewrite len_app, len_padWith by lia; [unfold versionSize; lia|lia].
  - rewrite Seal_length by lia. unfold versionSize. lia.
Qed.

Lemma openLoop_first vsn pre g post nonce c data plain :
  Forall (fun g' => Open g' nonce c data = None) pre -> Open g nonce c data = Some plain ->
  openLoop vsn (pre ++ g :: post) nonce c data = if vsn =? 0 then pkcs7decode plain blockSize else Ok plain.
Proof.
  intros Hpre Ho. induction Hpre as [|g' pre Hg _ IH]; cbn [app openLoop]; [by rewrite Ho|by rewrite Hg].
Qed.

Lemma openLoop_Ok vsn aeads nonce c data plain :
  openLoop vsn aeads nonce c data = Ok plain ->
  exists g src, g ∈ aeads /\ Open g nonce c data = Some src /\
    (if vsn =? 0 then pkcs7decode src blockSize else Ok src) = Ok plain.
Proof.
  induction aeads as [|g aeads IH]; cbn [openLoop]; [done|]. destruct (Open g nonce c data) as [src|] eqn:E.
  - intros H. exists g, src. split_and!; [by left|done|done].
  - intros (g' & src & Hin & ? & ?)%IH. exists g', src. split_and!; [by right|done|done].
Qed.

Lemma pkcs7decode_Ok src bs plain :
  pkcs7decode src bs = Ok plain -> exists pad, src = plain ++ pad /\ 1 <= len pad <= bs /\ last pad = Some (z2b (len pad)).
Proof.
  unfold pkcs7decode. destruct (last src) as [c|] eqn:El; [|done].
  destruct (Z.ltb_spec (b2z c) 1), (Z.gtb_spec (b2z c) bs), (Z.gtb_spec (b2z c) (len src)); cbn [orb]; try done.
  intros [= <-]. exists (drop (Z.to_nat (len src - b2z c)) src).
  assert (Hd : len (drop (Z.to_nat (len src - b2z c)) src) = b2z c) by (rewrite len_drop; lia).
  rewrite Hd. split_and!; [by rewrite take_drop|lia|lia|]. rewrite z2b_b2z.
  apply last_Some in El as [l' ->]. rewrite len_app, len_cons in *. change (len []) with 0 in *.
  rewrite drop_app_le by (unfold len in *; lia). apply last_snoc.
Qed.

Lemma open_sealed vsn pre g post nonce msg data :
  vsn = 0 \/ vsn = 1 -> len nonce = nonceSize -> len msg + 16 <= gcmMax ->
  Forall (fun g' => Open g' nonce (drop 13 (sealPayload vsn g nonce msg data [])) data = None) pre ->
  openPayload (pre ++ g :: post) (sealPayload vsn g nonce msg data []) data = Ok msg.
Proof.
  intros Hv Hn Hm Hpre. pose proof (pad_range (len msg) (len_nonneg msg)) as Hp.
  pose proof (len_sealPayload vsn g nonce msg data [] Hv Hn Hm) as Hl. change (len []) with 0 in Hl.
  unfold openPayload, sealPayload in *. cbn [app] in *.
  set (src := if vsn =? 0 then msg ++ padWith (blockSize - Z.rem (len msg) blockSize) else msg) in *.
  assert (Hb : b2z (z2b vsn) = vsn) by (rewrite b2z_z2b_small; lia). rewrite Hb.
  destruct (Z.gtb_spec vsn maxEncryptionVersion) as [Hx|_]; [unfold maxEncryptionVersion in Hx; lia|].
  destruct (Z.ltb_spec (len (z2b vsn :: nonce ++ Seal g nonce src data)) (encryptedLength vsn 0)) as [Hx|_].
  { rewrite Hl in Hx. pose proof (len_nonneg msg). pose proof (Z.rem_le (len msg) 16 ltac:(done) ltac:(lia)).
    unfold encryptedLength, blockSize in *. change (Z.rem 0 16) with 0 in Hx. destruct Hv as [-> | ->];
      [change (0 >=? 1) with false in Hx|change (1 >=? 1) with true in Hx]; cbn iota in Hx; lia. }
  assert (Hlen : length nonce = Z.to_nat nonceSize) by (unfold len in Hn; lia).
  rewrite <- Hlen, take_app_length, drop_app_length.
  change (drop 13 (z2b vsn :: nonce ++ Seal g nonce src data)) with (drop 12 (nonce ++ Seal g nonce src data)) in Hpre.
  change 12%nat with (Z.to_nat nonceSize) in Hpre. rewrite <- Hlen, drop_app_length in Hpre.
  rewrite (openLoop_first vsn pre g post nonce _ data src Hpre).
  - unfold src. destruct Hv as [-> | ->]; cbn [Z.eqb]; [|done]. apply pkcs7decode_pad; unfold blockSize in *; lia.
  - apply Open_Seal; [done|]. unfold src. destruct Hv as [-> | ->]; cbn [Z.eqb]; [|lia].
    rewrite len_app, len_padWith by lia. lia.
Qed.

Lemma open_authentic aeads msg data plain :
  openPayload aeads msg data = Ok plain ->
  exists vsn g nonce src, g ∈ aeads /\ len nonce = nonceSize /\ msg = z2b vsn :: nonce ++ Seal g nonce src data /\
    (vsn = 1 /\ src = plain \/
     vsn = 0 /\ exists pad, src = plain ++ pad /\ 1 <= len pad <= 16 /\ last pad = Some (z2b (len pad))).
Proof.
  destruct msg as [|c rest]; cbn [openPayload]; [done|].
  destruct (Z.gtb_spec (b2z c) maxEncryptionVersion) as [|Hc]; [done|].
  destruct (Z.ltb_spec (len (c :: rest)) (encryptedLength (b2z c) 0)) as [|Hl]; [done|].
  intros (g & src & Hg & Ho & Hd)%openLoop_Ok. apply Open_only in Ho as [Ho _].
  exists (b2z c), g, (take (Z.to_nat nonceSize) rest), src. rewrite z2b_b2z, <- Ho, take_drop.
  pose proof (b2z_range c). unfold maxEncryptionVersion in Hc. split_and!; try done.
  - apply len_take. rewrite len_cons in Hl. unfold encryptedLength, versionSize, nonceSize, tagSize, blockSize in *.
    change (Z.rem 0 16) with 0 in Hl. destruct (b2z c >=? 1); lia.
  - destruct (Z.eqb_spec (b2z c) 0) as [E|E]; [right|left; split; [lia|congruence]].
    split; [done|]. by apply pkcs7decode_Ok.
Qed.

Lemma encryptedLength_overhead vsn n :
  vsn = 0 \/ vsn = 1 -> 0 <= n -> exists o, encryptOverhead vsn = Some o /\ encryptedLength vsn n <= n + o.
Proof.
  intros Hv Hn. pose proof (pad_range n Hn). unfold encryptedLength, encryptOverhead, versionSize, nonceSize, tagSize.
  destruct Hv as [-> | ->]; [change (0 >=? 1) with false|change (1 >=? 1) with true]; cbn [Z.eqb Pos.eqb]; eexists;
    (split; [done|]); lia.
Qed.
End PayloadLemmas.

(** ** Lemmas: the keyring *)

Section KeyringLemmas.
Context {GC : GCM}.
Implicit Types k : Keyring.

(** The keys are distinct and of valid sizes, the ciphers are theirs, and no
    array is about to be allocated twice. *)
Record keyring_ok k : Prop := {
  kr_array : exists a, k_arrays k !! ks_array (k_keys k) = Some a /\ (ks_len (k_keys k) <= length a)%nat;
  kr_fresh : forall id a, k_arrays k !! id = Some a -> id < k_next k;
  kr_nodup : NoDup (keysOf k);
  kr_valid : Forall (fun key => validKeySize key = true) (keysOf k);
  kr_aeads : k_aeads k = map gcmOf (keysOf k);
}.

(** A slice handed out before still shows the same keys. *)
Definition keepsViews k k' : Prop := forall s, is_Some (k_arrays k !! ks_array s) -> view k' s = view k s.

Lemma hasKey_spec keys key : hasKey keys key = true <-> key ∈ keys.
Proof.
  unfold hasKey. rewrite existsb_exists. setoid_rewrite <- list_elem_of_In. split.
  - intros (x & Hx & E%bool_decide_eq_true). by subst.
  - intros H. exists key. split; [done|]. by apply bool_decide_eq_true.
Qed.

Lemma newAEADs_valid keys : Forall (fun key => validKeySize key = true) keys -> newAEADs keys = Ok (map gcmOf keys).
Proof.
  induction 1 as [|key keys Hk _ IH]; cbn [newAEADs map]; [done|]. unfold newAEAD. rewrite Hk. cbn [rbind]. by rewrite IH.
Qed.

Definition others (key : bytes) (keys : list bytes) : list bytes :=
  List.filter (fun x => negb (bool_decide (x = key))) keys.

Lemma others_elem key keys x : x ∈ others key keys <-> x ∈ keys /\ x <> key.
Proof. unfold others. rewrite !list_elem_of_In, filter_In, negb_true_iff, bool_decide_eq_false. done. Qed.

Lemma others_absent key keys : ~ key ∈ keys -> others key keys = keys.
Proof.
  intros H. unfold others. induction keys as [|x keys IH]; [done|]. cbn. apply not_elem_of_cons in H as [Hx H].
  rewrite bool_decide_false by congruence. cbn. by rewrite IH.
Qed.

Lemma others_nodup key keys : NoDup keys -> NoDup (others key keys).
Proof.
  induction 1 as [|x l Hx Hl IH]; cbn; [constructor|]. destruct (negb _); [|done].
  constructor; [|done]. change (~ x ∈ others key l). rewrite others_elem. tauto.
Qed.

Lemma installKeys_ok k keys primary :
  (forall id a, k_arrays k !! id = Some a -> id < k_next k) -> NoDup keys ->
  Forall (fun key => validKeySize key = true) keys -> validKeySize primary = true ->
  exists k', installKeysLocked k keys primary = Some k' /\ keysOf k' = primary :: others primary keys /\
    keyring_ok k' /\ keepsViews k k'.
Proof.
  intros Hfr Hnd Hv Hp. unfold installKeysLocked. fold (others primary keys).
  assert (Hv' : Forall (fun key => validKeySize key = true) (primary :: others primary keys)).
  { constructor; [done|]. rewrite Forall_forall in *. intros x [Hx _]%others_elem. by apply Hv. }
  rewrite (newAEADs_valid _ Hv'). eexists. split; [done|].
  match goal with |- keysOf ?x = _ /\ _ => set (k' := x) end.
  assert (Hk : keysOf k' = primary :: others primary keys).
  { unfold keysOf, view, k'. cbn [k_keys k_arrays ks_array ks_len]. rewrite lookup_insert_eq. cbn [default].
    change (default [] (Some ?x)) with x. apply firstn_all. }
  split_and!; [done| |].
  - constructor; rewrite ?Hk; try done.
    + exists (primary :: others primary keys). unfold k'. cbn [k_keys k_arrays ks_array ks_len].
      by rewrite lookup_insert_eq.
    + intros id a. unfold k'. cbn [k_arrays k_next]. destruct (decide (k_next k = id)) as [<-|Hne]; [lia|].
      rewrite lookup_insert_ne by done. intros H%Hfr. lia.
    + constructor; [rewrite others_elem; tauto|by apply others_nodup].
  - intros s [a Ha]. unfold view, k'. cbn [k_arrays]. rewrite lookup_insert_ne; [done|].
    apply Hfr in Ha. lia.
Qed.

Lemma keysOf_length k : keyring_ok k -> length (keysOf k) = ks_len (k_keys k).
Proof.
  intros [(a & Ha & Hl) _ _ _ _]. unfold keysOf, view. rewrite Ha. cbn. rewrite length_take. lia.
Qed.

(** *** Removal *)

Lemma removeLoop_skip k key ranged is1 is2 :
  Forall (fun i => exists x, view k ranged !! i = Some x /\ key <> x) is1 ->
  removeLoop k key ranged (is1 ++ is2) = removeLoop k key ranged is2.
Proof.
  induction 1 as [|i is1 (x & Hx & Hne) _ IH]; [done|]. cbn [app removeLoop]. rewrite Hx. cbn [mbind option_bind].
  by rewrite bool_decide_false.
Qed.

(** The slice the range loop runs over, once the array was shifted. *)
Definition shifted (l : list bytes) (j : nat) : list bytes := take j l ++ drop (S j) l ++ drop (length l - 1) l.

Lemma shifted_lookup l j i key :
  NoDup l -> l !! j = Some key -> (j < i)%nat -> (i < length l)%nat -> exists x, shifted l j !! i = Some x /\ key <> x.
Proof.
  intros Hnd Hj Hi Hl. unfold shifted.
  assert (Hlj : length (take j l) = j) by (rewrite length_take; lia).
  rewrite lookup_app_r by lia. rewrite Hlj.
  destruct (decide (S i < length l)%nat) as [Hs|Hs].
  - rewrite lookup_app_l by (rewrite length_drop; lia). rewrite lookup_drop.
    replace (S j + (i - j))%nat with (S i) by lia. destruct (lookup_lt_is_Some_2 l (S i)) as [x Hx]; [lia|].
    exists x. split; [done|]. intros ->. assert (S i = j); [|lia]. by eapply NoDup_lookup.
  - rewrite lookup_app_r by (rewrite length_drop; lia). rewrite length_drop, lookup_drop.
    destruct (lookup_lt_is_Some_2 l (length l - 1)) as [x Hx]; [lia|].
    replace (length l - 1 + (i - j - (length l - S j)))%nat with (length l - 1)%nat by lia.
    exists x. split; [done|]. intros ->. assert ((length l - 1)%nat = j); [|lia]. by eapply NoDup_lookup.
Qed.

Lemma shifted_others l j key : NoDup l -> l !! j = Some key -> take j l ++ drop (S j) l = others key l.
Proof.
  intros Hnd Hj.
  pose proof (take_drop_middle l j key Hj) as El. rewrite <- El in Hnd.
  transitivity (others key (take j l ++ key :: drop (S j) l)); [|by rewrite El].
  apply NoDup_app in Hnd as (_ & Hd & [Hk _]%NoDup_cons).
  unfold others. rewrite List.filter_app. cbn [List.filter]. rewrite (bool_decide_true (key = key)) by done. cbn [negb].
  change (take j l ++ drop (S j) l = others key (take j l) ++ others key (drop (S j) l)).
  rewrite !others_absent; [done|done|]. intros Hin. apply (Hd key Hin). by left.
Qed.

(** Removing a key that is installed and not the first. *)
Lemma removeLoop_found k key j :
  keyring_ok k -> keysOf k !! S j = Some key ->
  exists k', removeLoop k key (k_keys k) (seq 0 (ks_len (k_keys k))) = Some k' /\ keysOf k' = others key (keysOf k) /\
    keyring_ok k' /\ view k' (k_keys k) = shifted (keysOf k) (S j).
Proof.
  intros Hok Hj. pose proof Hok as [(a & Ha & Hla) Hfr Hnd Hv _]. pose proof (keysOf_length k Hok) as Hlen.
  pose proof (lookup_lt_Some _ _ _ Hj) as Hlt. rewrite Hlen in Hlt. set (s := k_keys k) in *. set (n := ks_len s) in *.
  assert (Hl : keysOf k = take n a) by (unfold keysOf, view; fold s; by rewrite Ha).
  replace (seq 0 n) with (seq 0 (S j) ++ S j :: seq (S (S j)) (n - S (S j))).
  2: { replace n with (S j + S (n - S (S j)))%nat at 2 by lia. by rewrite seq_app. }
  rewrite removeLoop_skip.
  2: { apply Forall_forall. intros i [_ Hi]%elem_of_seq. destruct (lookup_lt_is_Some_2 (keysOf k) i) as [x Hx]; [lia|].
       exists x. split; [exact Hx|]. intros ->. assert (i = S j); [by eapply NoDup_lookup|lia]. }
  cbn [removeLoop]. change (view k s) with (keysOf k). rewrite Hj. cbn [mbind option_bind].
  rewrite bool_decide_true by done. unfold shiftDown. fold s n. rewrite (proj2 (Nat.ltb_ge n (S (S j)))) by lia.
  rewrite Ha. change (default [] (Some a)) with a. cbn [mbind option_bind].
  assert (Ek : take (S j) a ++ drop (S (S j)) (take n a) = others key (keysOf k)).
  { rewrite <- (shifted_others (keysOf k) (S j) key Hnd Hj), Hl, take_take. by rewrite Nat.min_l by lia. }
  rewrite Ek. set (a' := others key (keysOf k) ++ drop (n - 1) a). set (k1 := MkKeyring _ _ s _).
  assert (Hv1 : view k1 s = shifted (keysOf k) (S j)).
  { unfold view, k1. cbn [k_arrays]. rewrite lookup_insert_eq. change (default [] (Some a')) with a'. fold n. unfold a', shifted.
    rewrite Hlen, <- (shifted_others (keysOf k) (S j) key Hnd Hj), app_assoc.
    assert (Hx : length (take (S j) (keysOf k) ++ drop (S (S j)) (keysOf k)) = (n - 1)%nat)
      by (rewrite length_app, length_take, length_drop; lia).
    rewrite take_app_ge by lia. rewrite Hx. f_equal. rewrite Hl. rewrite skipn_firstn_comm. done. }
  destruct (keysOf k) as [|primary t] eqn:Et; [done|]. cbn in Hj.
  assert (Hne : primary <> key) by (intros ->; apply NoDup_cons in Hnd as [Hk _]; destruct Hk; by eapply list_elem_of_lookup_2).
  assert (Ho : others key (primary :: t) = primary :: others key t) by (unfold others; cbn; by rewrite bool_decide_false).
  change (keysOf k1) with (view k1 s). rewrite Hv1. cbn [shifted take app lookup list_lookup mbind option_bind].
  destruct (installKeys_ok k1 (others key (primary :: t)) primary) as (k2 & -> & Hk2 & Hok2 & Hkeep).
  - intros id a0. unfold k1. cbn [k_arrays k_next]. destruct (decide (ks_array s = id)) as [<-|Hd].
    + intros _. by eapply Hfr.
    + rewrite lookup_insert_ne by done. apply Hfr.
  - by apply others_nodup.
  - rewrite Forall_forall in *. intros x [Hx _]%others_elem. by apply Hv.
  - rewrite Forall_forall in Hv. apply Hv. by left.
  - cbn [mbind option_bind]. rewrite <- (app_nil_r (seq (S (S j)) _)). exists k2.
    assert (Hv2 : view k2 s = shifted (primary :: t) (S j)).
    { rewrite Hkeep; [done|]. unfold k1. cbn [k_arrays]. rewrite lookup_insert_eq. eauto. }
    split_and!; [|rewrite Hk2, Ho; f_equal; unfold others at 1; cbn; rewrite bool_decide_true by done; cbn|done|done].
    + rewrite removeLoop_skip; [done|]. apply Forall_forall. intros i [Hi1 Hi2]%elem_of_seq.
      rewrite Hv2. by apply shifted_lookup; [done|done|lia|lia].
    + apply others_absent. rewrite others_elem. apply NoDup_cons in Hnd as [Hk _]. tauto.
Qed.

(** *** The operations on a well-formed keyring *)

Lemma initKeyring_ok : keyring_ok initKeyring.
Proof.
  constructor; cbn; try constructor.
  - exists []. by rewrite lookup_singleton_eq.
  - intros id a. destruct (decide (0 = id)) as [<-|]; [done|]. by rewrite lookup_singleton_ne.
Qed.

Lemma AddKey_ok k key :
  keyring_ok k -> validKeySize key = true ->
  exists k', AddKey k key = Some (Ok tt, k') /\ keyring_ok k' /\ keepsViews k k' /\
    keysOf k' = if hasKey (keysOf k) key then keysOf k else keysOf k ++ [key].
Proof.
  intros Hok Hv. unfold AddKey, ValidateKey. rewrite Hv. destruct (hasKey (keysOf k) key) eqn:Eh.
  { exists k. by split_and!. }
  assert (Hnot : ~ key ∈ keysOf k) by (rewrite <- hasKey_spec, Eh; done).
  destruct (installKeys_ok k (keysOf k ++ [key]) (default key (getPrimaryKeyLocked k))) as (k' & -> & Hk & Hok' & Hkeep).
  - apply Hok.
  - apply NoDup_app. split_and!; [apply Hok| |apply NoDup_singleton].
    intros x Hx ->%list_elem_of_singleton. done.
  - apply Forall_app. split; [apply Hok|by constructor].
  - pose proof (kr_valid _ Hok) as Hall. unfold getPrimaryKeyLocked. destruct (keysOf k); [done|]. apply Forall_cons in Hall as [Hall _]. exact Hall.
  - exists k'. split_and!; [done..|]. rewrite Hk. pose proof (kr_nodup _ Hok) as Hnd. unfold getPrimaryKeyLocked.
    destruct (keysOf k) as [|p t] eqn:Et; cbn.
    + unfold others. cbn. by rewrite bool_decide_true.
    + f_equal. unfold others. cbn. rewrite bool_decide_true by done. cbn. apply others_absent.
      rewrite elem_of_app, list_elem_of_singleton. apply NoDup_cons in Hnd as [Hp _]. intros [?| ->]; [done|].
      destruct Hnot. by left.
Qed.

Lemma UseKey_ok k key :
  keyring_ok k -> key ∈ keysOf k ->
  exists k', UseKey k key = Some (Ok tt, k') /\ keyring_ok k' /\ keepsViews k k' /\ keysOf k' = key :: others key (keysOf k).
Proof.
  intros Hok Hin. unfold UseKey. rewrite (proj2 (hasKey_spec _ _) Hin).
  destruct (installKeys_ok k (keysOf k) key) as (k' & -> & Hk & Hok' & Hkeep); [apply Hok..| |by exists k'].
  pose proof (kr_valid _ Hok) as Hv. rewrite Forall_forall in Hv. by apply Hv.
Qed.

Lemma RemoveKey_ok k p t key :
  keyring_ok k -> keysOf k = p :: t -> key <> p ->
  exists k', RemoveKey k key = Some (Ok tt, k') /\ keyring_ok k' /\ keysOf k' = others key (keysOf k) /\
    forall j, keysOf k !! S j = Some key -> view k' (k_keys k) = shifted (keysOf k) (S j).
Proof.
  intros Hok Hk Hne. unfold RemoveKey.
  assert (H0 : keysOf k !! 0%nat = Some p) by (by rewrite Hk). rewrite H0. cbn [mbind option_bind].
  rewrite bool_decide_false by done. destruct (decide (key ∈ keysOf k)) as [Hin|Hnot].
  - apply list_elem_of_lookup in Hin as [[|j] Hj]; [rewrite Hk in Hj; by injection Hj as ->|].
    destruct (removeLoop_found k key j Hok Hj) as (k' & -> & Hk' & Hok' & Hv'). exists k'. split_and!; [done..|].
    intros j' Hj'. assert (S j' = S j) as -> by (eapply NoDup_lookup; [apply Hok|done|done]). done.
  - exists k. rewrite <- (app_nil_r (seq 0 _)), removeLoop_skip.
    + split_and!; [done..|by rewrite others_absent|]. intros j Hj. destruct Hnot. by eapply list_elem_of_lookup_2.
    + apply Forall_forall. intros i [_ Hi]%elem_of_seq. rewrite <- (keysOf_length k Hok) in Hi.
      destruct (lookup_lt_is_Some_2 (keysOf k) i Hi) as [x Hx]. exists x. split; [done|]. intros ->.
      destruct Hnot. by eapply list_elem_of_lookup_2.
Qed.

(** [primary] first, then the other keys in the order given, each once. *)
Fixpoint distinct (seen keys : list bytes) : list bytes :=
  match keys with
  | [] => seen
  | key :: keys => distinct (if hasKey seen key then seen else seen ++ [key]) keys
  end.

Lemma addKeys_ok keys k :
  keyring_ok k -> Forall (fun key => validKeySize key = true) keys ->
  exists k', addKeys k keys = Some (Ok k') /\ keyring_ok k' /\ keysOf k' = distinct (keysOf k) keys.
Proof.
  revert k. induction keys as [|key keys IH]; intros k Hok Hv; cbn [addKeys distinct]; [by exists k|].
  apply Forall_cons in Hv as [Hk Hv]. destruct (AddKey_ok k key Hok Hk) as (k1 & -> & Hok1 & _ & Ek).
  cbn [mbind option_bind]. rewrite <- Ek. by apply IH.
Qed.

Lemma addKeys_invalid keys k key :
  keyring_ok k -> key ∈ keys -> validKeySize key = false -> addKeys k keys = Some (Err InvalidKeySize).
Proof.
  revert k. induction keys as [|key' keys IH]; intros k Hok Hin Hv; [by apply not_elem_of_nil in Hin|]. cbn [addKeys].
  destruct (validKeySize key') eqn:Ev.
  - destruct (AddKey_ok k key' Hok Ev) as (k1 & -> & Hok1 & _). cbn [mbind option_bind].
    apply elem_of_cons in Hin as [->|Hin]; [congruence|]. by apply IH.
  - unfold AddKey, ValidateKey. by rewrite Ev.
Qed.
End KeyringLemmas.

(** A cipher that only tags its plaintext with the key, to run examples with. *)
Definition tagOf (key : bytes) : bytes := take 16 (key ++ replicate 16 (z2b 0)).

#[local] Instance tagging : GCM := {|
  gcm := bytes;
  gcmOf key := key;
  Seal g _ p _ := p ++ tagOf g;
  Open g _ c _ :=
    if (tagSize <=? len c) && (len c <=? gcmMax + tagSize) then
      if bool_decide (drop (Z.to_nat (len c - tagSize)) c = tagOf g) then Some (take (Z.to_nat (len c - tagSize)) c) else None
    else None;
|}.

Lemma len_tagOf key : len (tagOf key) = tagSize.
Proof. unfold tagOf, len. rewrite length_take, length_app, length_replicate. unfold tagSize. lia. Qed.

#[local] Instance tagging_laws : GCMLaws.
Proof.
  constructor; intros *; cbn [Seal Open tagging].
  - intros _. by rewrite len_app, len_tagOf.
  - intros _ Hp. rewrite len_app, len_tagOf. pose proof (len_nonneg p).
    rewrite (proj2 (Z.leb_le _ _)), (proj2 (Z.leb_le _ _)) by (unfold tagSize in *; lia). cbn [andb].
    replace (Z.to_nat (len p + tagSize - tagSize)) with (length p) by (unfold len; lia).
    by rewrite drop_app_length, bool_decide_true, take_app_length.
  - destruct (Z.leb_spec tagSize (len c)) as [H1|], (Z.leb_spec (len c) (gcmMax + tagSize)) as [H2|]; cbn [andb]; try done.
    case_bool_decide as E; [|done]. intros [= <-]. rewrite <- E, take_drop. split; [done|].
    rewrite len_take; unfold tagSize in *; lia.
Qed.

(** ** Properties *)

(** C37: Encryption. A payload sealed under any installed key opens to the
    message, in both versions, provided no key tried before opens it, and takes
    exactly the length and at most the overhead computed for it. Conversely
    whatever opens was sealed under an installed key with the same
    authenticated data; a version-0 plaintext is the message and a pad of 1 to
    16 bytes that ends with its length. *)
Theorem encryption_correct `{GCMLaws} :
  (forall vsn pre g post nonce msg data, vsn = 0 \/ vsn = 1 -> len nonce = nonceSize -> len msg + 16 <= gcmMax ->
     let sealed := sealPayload vsn g nonce msg data [] in
     Forall (fun g' => Open g' nonce (drop 13 sealed) data = None) pre ->
     openPayload (pre ++ g :: post) sealed data = Ok msg /\ len sealed = encryptedLength vsn (len msg) /\
     exists o, encryptOverhead vsn = Some o /\ len sealed <= len msg + o) /\
  (forall aeads msg data plain, openPayload aeads msg data = Ok plain ->
     exists vsn g nonce src, g ∈ aeads /\ len nonce = nonceSize /\ msg = z2b vsn :: nonce ++ Seal g nonce src data /\
       (vsn = 1 /\ src = plain \/
        vsn = 0 /\ exists pad, src = plain ++ pad /\ 1 <= len pad <= 16 /\ last pad = Some (z2b (len pad)))).
Proof.
  split; [|apply open_authentic]. intros vsn pre g post nonce msg data Hv Hn Hm sealed Hpre.
  assert (Hl : len sealed = encryptedLength vsn (len msg)) by (unfold sealed; by rewrite len_sealPayload).
  split_and!; [by apply open_sealed|done|]. rewrite Hl. by apply encryptedLength_overhead; [|apply len_nonneg].
Qed.

(** Two keys of the example. *)
Definition exampleKey (n : Z) : bytes := replicate 16 (z2b n).

Lemma encryption_correct_witness :
  openPayload [exampleKey 1; exampleKey 2] (sealPayload 0 (exampleKey 2) (replicate 12 (z2b 7)) (str2b "hello") [] []) []
    = Ok (str2b "hello") /\
  len (sealPayload 0 (exampleKey 2) (replicate 12 (z2b 7)) (str2b "hello") [] []) = encryptedLength 0 5 /\
  exists o, encryptOverhead 0 = Some o /\
    len (sealPayload 0 (exampleKey 2) (replicate 12 (z2b 7)) (str2b "hello") [] []) <= 5 + o.
Proof.
  refine (proj1 (@encryption_correct tagging tagging_laws) 0 [exampleKey 1] (exampleKey 2) [] (replicate 12 (z2b 7)) (str2b "hello") [] _ _ _ _).
  - by left.
  - reflexivity.
  - vm_compute. congruence.
  - repeat constructor.
Defined.

(** The keyring. A new keyring holds the primary key first and every
    other key once, or is refused for an invalid key or a missing primary; on a
    keyring its operations keep the keys distinct, of valid sizes and in step
    with their ciphers: adding appends a new key and leaves the primary,
    using moves an installed key to the front and refuses any other, removing
    drops exactly the key and refuses the primary. None of them panics on a
    keyring with a key. *)
Theorem keyring_correct `{GC : GCM} :
  (forall keys primary,
     (len primary > 0 -> Forall (fun key => validKeySize key = true) (primary :: keys) ->
      exists k, NewKeyring keys primary = Some (Ok k) /\ keyring_ok k /\ keysOf k = distinct [] (primary :: keys)) /\
     (len primary > 0 -> (exists key, key ∈ primary :: keys /\ validKeySize key = false) ->
      NewKeyring keys primary = Some (Err InvalidKeySize)) /\
     (primary = [] -> keys <> [] -> NewKeyring keys primary = Some (Err EmptyPrimary))) /\
  (forall k p t key, keyring_ok k -> keysOf k = p :: t ->
     (exists k', AddKey k key = Some (if validKeySize key then Ok tt else Err InvalidKeySize, k') /\ keyring_ok k' /\
        keysOf k' = if validKeySize key && negb (hasKey (p :: t) key) then p :: t ++ [key] else p :: t) /\
     (exists k', UseKey k key = Some (if hasKey (p :: t) key then Ok tt else Err KeyNotInstalled, k') /\ keyring_ok k' /\
        keysOf k' = if hasKey (p :: t) key then key :: others key (p :: t) else p :: t) /\
     (exists k', RemoveKey k key = Some (if bool_decide (key = p) then Err RemovingPrimary else Ok tt, k') /\ keyring_ok k' /\
        keysOf k' = if bool_decide (key = p) then p :: t else p :: others key t)).
Proof.
  split.
  - intros keys primary. unfold NewKeyring. pose proof (len_nonneg keys). split_and!.
    + intros Hp Hv. destruct (Z.gtb_spec (len keys) 0), (Z.gtb_spec (len primary) 0), (Z.eqb_spec (len primary) 0); try lia;
        apply (addKeys_ok (primary :: keys) initKeyring initKeyring_ok Hv).
    + intros Hp (key & Hk & Hv). destruct (Z.gtb_spec (len keys) 0), (Z.gtb_spec (len primary) 0), (Z.eqb_spec (len primary) 0);
        try lia; by apply (addKeys_invalid _ _ key initKeyring_ok).
    + intros -> Hk. destruct keys as [|key keys]; [done|]. rewrite len_cons. pose proof (len_nonneg keys).
      destruct (Z.gtb_spec (1 + len keys) 0); [done|lia].
  - intros k p t key Hok Hk. split_and!.
    + destruct (validKeySize key) eqn:Hv; cbn [andb].
      * destruct (AddKey_ok k key Hok Hv) as (k' & E & Hok' & _ & Hk'). exists k'. rewrite Hk', Hk.
        split_and!; [done..|]. by destruct (hasKey (p :: t) key).
      * exists k. unfold AddKey, ValidateKey. by rewrite Hv.
    + destruct (hasKey (p :: t) key) eqn:Hh.
      * rewrite <- Hk in Hh. apply hasKey_spec in Hh. destruct (UseKey_ok k key Hok Hh) as (k' & E & Hok' & _ & Hk').
        exists k'. by rewrite Hk', Hk.
      * exists k. unfold UseKey. by rewrite Hk, Hh.
    + case_bool_decide as Hp.
      * exists k. unfold RemoveKey. assert (H0 : keysOf k !! 0%nat = Some p) by (by rewrite Hk). rewrite H0. cbn [mbind option_bind].
        by rewrite bool_decide_true.
      * destruct (RemoveKey_ok k p t key Hok Hk Hp) as (k' & E & Hok' & Hk' & _). exists k'. rewrite Hk', Hk.
        split_and!; [done..|]. unfold others. cbn. by rewrite bool_decide_false by congruence.
Qed.

Lemma keyring_correct_witness :
  exists k, NewKeyring [exampleKey 2; exampleKey 1] (exampleKey 1) = Some (Ok k) /\ keyring_ok k /\
    keysOf k = distinct [] [exampleKey 1; exampleKey 2; exampleKey 1].
Proof.
  refine (proj1 (proj1 (@keyring_correct tagging) [exampleKey 2; exampleKey 1] (exampleKey 1)) _ _); [reflexivity|].
  repeat constructor.
Defined.

(** C38: Two behaviours of the keyring its documentation does not mention.
    Removing any key from a keyring without keys panics, since the primary key
    is compared before it is known to exist. And the slice [GetKeys] hands out
    is the keyring's own: adding and using keys leave it as it was, but
    removing a key shifts the array it shares, so that whoever holds it sees
    the removed key gone and the last key twice. *)
Theorem keyring_edge_cases `{GC : GCM} :
  (forall key, RemoveKey initKeyring key = None) /\
  (forall k p t key, keyring_ok k -> keysOf k = p :: t ->
     (forall k', AddKey k key = Some (Ok tt, k') -> view k' (GetKeys k) = p :: t) /\
     (forall k', UseKey k key = Some (Ok tt, k') -> view k' (GetKeys k) = p :: t) /\
     (forall j, t !! j = Some key ->
        exists k', RemoveKey k key = Some (Ok tt, k') /\ view k' (GetKeys k) = shifted (p :: t) (S j))).
Proof.
  split; [done|]. intros k p t key Hok Hk. split_and!.
  - intros k' E. destruct (validKeySize key) eqn:Hv; [|unfold AddKey, ValidateKey in E; by rewrite Hv in E].
    destruct (AddKey_ok k key Hok Hv) as (k1 & E1 & _ & Hkeep & _). rewrite E in E1. injection E1 as <-.
    rewrite Hkeep; [done|]. destruct (kr_array _ Hok) as (a & Ha & _). eauto.
  - intros k' E. destruct (hasKey (keysOf k) key) eqn:Hh; [|unfold UseKey in E; by rewrite Hh in E].
    apply hasKey_spec in Hh. destruct (UseKey_ok k key Hok Hh) as (k1 & E1 & _ & Hkeep & _). rewrite E in E1. injection E1 as <-.
    rewrite Hkeep; [done|]. destruct (kr_array _ Hok) as (a & Ha & _). eauto.
  - intros j Hj. assert (Hne : key <> p).
    { intros ->. pose proof (kr_nodup _ Hok) as Hnd. rewrite Hk in Hnd. apply NoDup_cons in Hnd as [Hp _].
      destruct Hp. by eapply list_elem_of_lookup_2. }
    destruct (RemoveKey_ok k p t key Hok Hk Hne) as (k' & E & _ & _ & Hv). exists k'. rewrite Hk in Hv.
    split; [done|]. by apply Hv.
Qed.

(** Three keys, and the second removed. *)
Definition exampleRing : Keyring :=
  match NewKeyring [exampleKey 2; exampleKey 3] (exampleKey 1) with Some (Ok k) => k | _ => initKeyring end.

Lemma exampleRing_ok : keyring_ok exampleRing.
Proof.
  unfold exampleRing, NewKeyring. cbn [len length Z.of_nat Z.gtb Z.compare orb Z.eqb].
  destruct (addKeys_ok [exampleKey 1; exampleKey 2; exampleKey 3] initKeyring initKeyring_ok) as (k & E & Hok & _).
  { repeat constructor. }
  change (if len (exampleKey 1) =? 0 then ?a else ?b) with b. rewrite E. exact Hok.
Qed.

Lemma keyring_edge_cases_witness :
  exists k', RemoveKey exampleRing (exampleKey 2) = Some (Ok tt, k') /\
    view k' (GetKeys exampleRing) = shifted [exampleKey 1; exampleKey 2; exampleKey 3] 1.
Proof.
  refine (proj2 (proj2 (proj2 (@keyring_edge_cases tagging) exampleRing (exampleKey 1) [exampleKey 2; exampleKey 3] (exampleKey 2)
    exampleRing_ok _)) 0%nat _); vm_compute; reflexivity.
Defined.
