(* ===== verification/Checksum.v ===== *)
(** The checksum of a packet: [crc32.ChecksumIEEE] of the standard library,
    which [src/net.go] puts before a packet's payload and checks on arrival.

    The table-driven loop is written out and shown to be division by the
    polynomial; that is what makes every short burst of errors visible. *)

From S2P Require Import Prelude.

(** The reversed IEEE polynomial. *)
Definition crcPoly : Z := 0xedb88320.

(** A round of [simpleMakeTable]'s inner loop. *)
Definition crcBit (c : Z) : Z :=
  if Z.testbit c 0 then Z.lxor (Z.shiftr c 1) crcPoly else Z.shiftr c 1.
Definition crcBits (n : nat) (c : Z) : Z := Nat.iter n crcBit c.

Definition crcTable (i : Z) : Z := crcBits 8 i.

(** A round of [simpleUpdate]'s loop. *)
Definition crcStep (crc : Z) (v : byte) : Z :=
  Z.lxor (crcTable (Z.lxor (Z.land crc 0xff) (b2z v))) (Z.shiftr crc 8).

Definition ChecksumIEEE (p : bytes) : Z :=
  Z.lxor (fold_left crcStep p 0xffffffff) 0xffffffff.

(** ** Arithmetic on bits *)

Lemma shiftr_zero_iff a n : 0 <= n -> 0 <= a < 2 ^ n <-> Z.shiftr a n = 0.
Proof.
  intros Hn. rewrite Z.shiftr_div_pow2 by done. pose proof (Z.pow_pos_nonneg 2 n ltac:(lia) Hn).
  rewrite Z.div_small_iff by lia. lia.
Qed.

Lemma lxor_range a b n : 0 <= n -> 0 <= a < 2 ^ n -> 0 <= b < 2 ^ n -> 0 <= Z.lxor a b < 2 ^ n.
Proof.
  intros Hn Ha%shiftr_zero_iff Hb%shiftr_zero_iff; [|done..]. apply shiftr_zero_iff; [done|].
  by rewrite Z.shiftr_lxor, Ha, Hb.
Qed.

Lemma lxor_cancel a b c : Z.lxor a c = Z.lxor b c -> a = b.
Proof.
  intros H. apply (f_equal (fun x => Z.lxor x c)) in H.
  by rewrite !Z.lxor_assoc, Z.lxor_nilpotent, !Z.lxor_0_r in H.
Qed.

Lemma lxor_shuffle a b c d : Z.lxor (Z.lxor a b) (Z.lxor c d) = Z.lxor (Z.lxor a c) (Z.lxor b d).
Proof. rewrite !Z.lxor_assoc. f_equal. rewrite <- !Z.lxor_assoc. f_equal. apply Z.lxor_comm. Qed.

(** The low byte and the rest of a number. *)
Lemma split_byte c : Z.lxor (Z.land c 0xff) (Z.shiftl (Z.shiftr c 8) 8) = c.
Proof.
  apply Z.bits_inj'. intros i Hi. rewrite Z.lxor_spec, Z.land_spec.
  change 0xff with (Z.ones 8). rewrite Z.testbit_ones by lia. rewrite Z.shiftl_spec by done.
  destruct (Z.ltb_spec i 8).
  - rewrite (Z.testbit_neg_r _ (i - 8)) by lia. destruct (Z.leb_spec 0 i); [|lia].
    by rewrite andb_true_r, xorb_false_r.
  - rewrite Z.shiftr_spec by lia. replace (i - 8 + 8) with i by lia. by rewrite !andb_false_r, xorb_false_l.
Qed.

Lemma low_byte c x : 0 <= c < 2 ^ 8 -> Z.land (Z.lxor c (Z.shiftl x 8)) 0xff = c.
Proof.
  intros Hc. change 0xff with (Z.ones 8).
  assert (Ec : Z.land c (Z.ones 8) = c) by (rewrite Z.land_ones by lia; by apply Z.mod_small).
  rewrite <- Ec at 2. apply Z.bits_inj'. intros i Hi.
  rewrite !Z.land_spec, Z.lxor_spec, Z.testbit_ones by lia.
  destruct (Z.ltb_spec i 8); [|by rewrite !andb_false_r].
  by rewrite Z.shiftl_spec_low, xorb_false_r by lia.
Qed.

(** ** The polynomial *)

Lemma crcBit_lxor a b : crcBit (Z.lxor a b) = Z.lxor (crcBit a) (crcBit b).
Proof.
  assert (E : forall x, crcBit x = Z.lxor (Z.shiftr x 1) (if Z.testbit x 0 then crcPoly else 0)).
  { intros x. unfold crcBit. destruct (Z.testbit x 0); [done|]. by rewrite Z.lxor_0_r. }
  rewrite !E, Z.lxor_spec, Z.shiftr_lxor, lxor_shuffle. f_equal.
  destruct (Z.testbit a 0), (Z.testbit b 0); done.
Qed.

Lemma crcBits_lxor n a b : crcBits n (Z.lxor a b) = Z.lxor (crcBits n a) (crcBits n b).
Proof. unfold crcBits. induction n as [|n IH]; [done|]. by rewrite !Nat.iter_succ, IH, crcBit_lxor. Qed.

Lemma crcBits_shiftl n x : crcBits n (Z.shiftl x (Z.of_nat n)) = x.
Proof.
  unfold crcBits. revert x. induction n as [|n IH]; intros x; [apply Z.shiftl_0_r|].
  rewrite Nat.iter_succ. replace (Z.of_nat (S n)) with (1 + Z.of_nat n) by lia.
  rewrite <- Z.shiftl_shiftl by lia. rewrite IH. unfold crcBit.
  rewrite Z.shiftl_spec_low by lia. rewrite Z.shiftr_shiftl_l by lia. apply Z.shiftl_0_r.
Qed.

Lemma crcBits_byte x : crcBits 8 (Z.shiftl x 8) = x.
Proof. exact (crcBits_shiftl 8 x). Qed.

Lemma crcBits_add n m c : crcBits n (crcBits m c) = crcBits (n + m) c.
Proof. unfold crcBits. symmetry. apply Nat.iter_add. Qed.

Lemma crcBit_range c : 0 <= c < 2 ^ 32 -> 0 <= crcBit c < 2 ^ 32.
Proof.
  intros Hc. unfold crcBit. assert (0 <= Z.shiftr c 1 < 2 ^ 32).
  { rewrite Z.shiftr_div_pow2 by done. change (2 ^ 1) with 2. split; [apply Z.div_pos; lia|].
    apply Z.div_lt_upper_bound; lia. }
  destruct (Z.testbit c 0); [|done]. apply lxor_range; [done..|]. unfold crcPoly. lia.
Qed.

(** A bit step loses nothing: the polynomial has its top bit. *)
Lemma crcBit_zero c : 0 <= c < 2 ^ 32 -> crcBit c = 0 -> c = 0.
Proof.
  intros Hc. unfold crcBit. rewrite Z.bit0_odd, Z.shiftr_div_pow2 by done. change (2 ^ 1) with 2.
  pose proof (Z.div_mod c 2 ltac:(done)) as Hd. rewrite Zmod_odd in Hd. destruct (Z.odd c).
  - intros E%Z.lxor_eq. unfold crcPoly in E. lia.
  - lia.
Qed.

Lemma crcBits_inj n a b :
  0 <= a < 2 ^ 32 -> 0 <= b < 2 ^ 32 -> crcBits n a = crcBits n b -> a = b.
Proof.
  intros Ha Hb E. apply Z.lxor_eq. apply (f_equal (Z.lxor (crcBits n a))) in E.
  rewrite Z.lxor_nilpotent, <- crcBits_lxor in E. symmetry in E.
  pose proof (lxor_range a b 32 ltac:(done) Ha Hb) as Hr. revert Hr E. generalize (Z.lxor a b). clear.
  intros c Hc E. revert c Hc E. unfold crcBits. induction n as [|n IH]; intros c Hc E; [done|].
  rewrite Nat.iter_succ_r in E. apply crcBit_zero; [done|]. apply IH; [by apply crcBit_range|done].
Qed.

Lemma crcBits_range n c : 0 <= c < 2 ^ 32 -> 0 <= crcBits n c < 2 ^ 32.
Proof. intros Hc. unfold crcBits. induction n as [|n IH]; [done|]. rewrite Nat.iter_succ. by apply crcBit_range. Qed.

(** The table does eight bit steps at once. *)
Lemma crcStep_bits c v : crcStep c v = crcBits 8 (Z.lxor c (b2z v)).
Proof.
  unfold crcStep, crcTable. rewrite <- (split_byte c) at 3.
  rewrite (Z.lxor_comm (Z.land c 0xff) (Z.shiftl _ 8)), Z.lxor_assoc.
  rewrite (crcBits_lxor 8 (Z.shiftl _ 8)), crcBits_byte. apply Z.lxor_comm.
Qed.

(** Bytes as a number, the first one lowest. *)
Fixpoint leWord (p : bytes) : Z :=
  match p with
  | [] => 0
  | v :: p => Z.lxor (b2z v) (Z.shiftl (leWord p) 8)
  end.

Lemma crcSteps_bits p c : fold_left crcStep p c = crcBits (8 * length p) (Z.lxor c (leWord p)).
Proof.
  revert c. induction p as [|v p IH]; intros c; [by cbn; rewrite Z.lxor_0_r|].
  cbn [fold_left leWord length]. rewrite IH, crcStep_bits.
  rewrite <- (crcBits_byte (leWord p)) at 1.
  rewrite <- crcBits_lxor, crcBits_add, Z.lxor_assoc. f_equal. lia.
Qed.

Lemma b2z_bits v : 0 <= b2z v < 2 ^ 8.
Proof. apply b2z_range. Qed.

Lemma leWord_range p : 0 <= leWord p < 2 ^ (8 * len p).
Proof.
  induction p as [|v p IH]; [done|]. cbn [leWord]. rewrite len_cons. pose proof (len_nonneg p).
  apply lxor_range; [lia|..].
  - pose proof (b2z_bits v). assert (2 ^ 8 <= 2 ^ (8 * (1 + len p))) by (apply Z.pow_le_mono_r; lia). lia.
  - rewrite Z.shiftl_mul_pow2 by lia. replace (8 * (1 + len p)) with (8 * len p + 8) by lia.
    rewrite Z.pow_add_r by lia. change (2 ^ 8) with 256. lia.
Qed.

Lemma leWord_inj p q : length p = length q -> leWord p = leWord q -> p = q.
Proof.
  revert q. induction p as [|v p IH]; intros [|w q] Hl E; try done. cbn [leWord] in E.
  assert (Hv : b2z v = b2z w).
  { apply (f_equal (fun x => Z.land x 0xff)) in E. by rewrite !low_byte in E by apply b2z_bits. }
  assert (Hr : leWord p = leWord q).
  { rewrite Hv in E. rewrite !(Z.lxor_comm (b2z w)) in E. apply lxor_cancel in E.
    rewrite !Z.shiftl_mul_pow2 in E by lia. lia. }
  f_equal; [by rewrite <- (z2b_b2z v), Hv, z2b_b2z|]. apply IH; [by injection Hl|done].
Qed.

(** From a 32-bit state, different words of at most four bytes lead to
    different states, and a state is never forgotten. *)
Lemma crcSteps_inj c v w :
  0 <= c < 2 ^ 32 -> length v = length w -> (length v <= 4)%nat ->
  fold_left crcStep v c = fold_left crcStep w c -> v = w.
Proof.
  intros Hc Hl H4 E. rewrite !crcSteps_bits, Hl in E.
  assert (R : forall p, (length p <= 4)%nat -> 0 <= Z.lxor c (leWord p) < 2 ^ 32).
  { intros p Hp. apply lxor_range; [done..|]. pose proof (leWord_range p) as H.
    assert (2 ^ (8 * len p) <= 2 ^ 32) by (apply Z.pow_le_mono_r; unfold len; lia). lia. }
  apply crcBits_inj in E; [|apply R; lia..]. rewrite !(Z.lxor_comm c) in E. apply lxor_cancel in E.
  by apply leWord_inj.
Qed.

Lemma crcStep_range c v : 0 <= c < 2 ^ 32 -> 0 <= crcStep c v < 2 ^ 32.
Proof.
  intros Hc. rewrite crcStep_bits. apply crcBits_range, lxor_range; [done..|]. pose proof (b2z_bits v). lia.
Qed.

Lemma crcSteps_range p c : 0 <= c < 2 ^ 32 -> 0 <= fold_left crcStep p c < 2 ^ 32.
Proof. revert c. induction p as [|v p IH]; intros c Hc; [done|]. apply IH. by apply crcStep_range. Qed.

Lemma crcSteps_state p c d :
  0 <= c < 2 ^ 32 -> 0 <= d < 2 ^ 32 -> fold_left crcStep p c = fold_left crcStep p d -> c = d.
Proof.
  revert c d. induction p as [|v p IH]; intros c d Hc Hd E; [done|]. cbn [fold_left] in E.
  apply IH in E; [|by apply crcStep_range..]. rewrite !crcStep_bits in E. pose proof (b2z_bits v).
  apply crcBits_inj in E; [|apply lxor_range; done || lia..]. by apply lxor_cancel in E.
Qed.

Lemma ChecksumIEEE_range p : 0 <= ChecksumIEEE p < 2 ^ 32.
Proof. apply lxor_range; [done| |done]. by apply crcSteps_range. Qed.

(** Equal-length texts that differ within four consecutive bytes have
    different checksums. *)
Lemma ChecksumIEEE_burst a v w b :
  length v = length w -> (length v <= 4)%nat -> v <> w ->
  ChecksumIEEE (a ++ v ++ b) <> ChecksumIEEE (a ++ w ++ b).
Proof.
  intros Hl H4 Hne E. apply lxor_cancel in E. rewrite !fold_left_app in E.
  assert (Ha : 0 <= fold_left crcStep a 0xffffffff < 2 ^ 32) by by apply crcSteps_range.
  apply crcSteps_state in E; [|by apply crcSteps_range..]. apply Hne. by eapply crcSteps_inj.
Qed.
