(* ===== verification/HostPort.v ===== *)
(** Addresses as text: [net.SplitHostPort] and [net.ParseIP] of the standard
    library, and the source filter of [src/net.go] that uses them.

    Strings are handled as their bytes; an error is [None], as no caller looks
    at which one it is. *)

From S2P Require Import Prelude NetAddr.

(** ** [net.SplitHostPort] *)

Fixpoint indexFrom (i : Z) (c : byte) (s : bytes) : Z :=
  match s with
  | [] => -1
  | x :: s => if Byte.eqb c x then i else indexFrom (i + 1) c s
  end.
Definition IndexByte (s : bytes) (c : byte) : Z := indexFrom 0 c s.
Definition contains (s : bytes) (c : byte) : bool := IndexByte s c >=? 0.

(** The host and where the scans for stray brackets start. *)
Definition splitHost (hostport : bytes) (i : Z) : option (bytes * nat * nat) :=
  if Byte.eqb lbracket (List.hd (z2b 0) hostport) then
    let e := IndexByte hostport rbracket in
    if e <? 0 then None
    else if e + 1 =? i then Some (drop 1 (take (Z.to_nat e) hostport), 1%nat, Z.to_nat (e + 1))
    else None
  else
    let host := take (Z.to_nat i) hostport in
    if contains host colon then None else Some (host, 0%nat, 0%nat).

Definition SplitHostPort (hostport : bytes) : option (bytes * bytes) :=
  let i := LastIndex hostport colon in
  if i <? 0 then None
  else
    '(host, j, k) ← splitHost hostport i;
    if contains (drop j hostport) lbracket then None
    else if contains (drop k hostport) rbracket then None
    else Some (host, drop (Z.to_nat (i + 1)) hostport).

(** ** [net.ParseIP] *)

Definition dot : byte := ch ".".
Definition percent : byte := ch "%".
Definition isDigit (c : byte) : bool := (48 <=? b2z c) && (b2z c <=? 57).

(** [parseIPv4Fields]; [prev] is the byte before, if any. *)
Fixpoint parseIPv4Fields (s : bytes) (prev : option byte) (val digLen : Z) (fields : bytes) : option bytes :=
  match s with
  | [] => if len fields <? 3 then None else Some (fields ++ [z2b val])
  | c :: s =>
      if isDigit c then
        if (digLen =? 1) && (val =? 0) then None
        else
          let val := val * 10 + (b2z c - 48) in
          if val >? 255 then None else parseIPv4Fields s (Some c) val (digLen + 1) fields
      else if Byte.eqb c dot then
        match prev, s with
        | None, _ | _, [] => None
        | Some p, _ =>
            if Byte.eqb p dot then None
            else if len fields =? 3 then None
            else parseIPv4Fields s (Some c) 0 0 (fields ++ [z2b val])
        end
      else None
  end.

Definition hexValue (c : byte) : option Z :=
  let z := b2z c in
  if isDigit c then Some (z - 48)
  else if (97 <=? z) && (z <=? 102) then Some (z - 87)
  else if (65 <=? z) && (z <=? 70) then Some (z - 55)
  else None.

(** The hex digits from the front of [s]: how many, their value and the rest. *)
Fixpoint hexField (s : bytes) (off acc : Z) : option (Z * Z * bytes) :=
  match s with
  | [] => Some (off, acc, [])
  | c :: s' =>
      match hexValue c with
      | None => Some (off, acc, s)
      | Some d =>
          let acc := u32 (Z.shiftl acc 4 + d) in
          if off >? 3 then None else if acc >? 65535 then None else hexField s' (off + 1) acc
      end
  end.

(** The loop of [parseIPv6]: what is left of the text, the bytes written and
    where the ellipsis was; a round writes two bytes. *)
Fixpoint ip6Loop (fuel : nat) (s ip : bytes) (ellipsis : option nat) : option (bytes * bytes * option nat) :=
  match fuel with
  | O => Some (s, ip, ellipsis)
  | S fuel =>
      if len ip >=? 16 then Some (s, ip, ellipsis)
      else
        '(off, acc, rest) ← hexField s 0 0;
        if off =? 0 then None
        else if Byte.eqb (List.hd (z2b 0) rest) dot then
          if (match ellipsis with None => negb (len ip =? 12) | _ => false end) then None
          else if len ip + 4 >? 16 then None
          else fields ← parseIPv4Fields s None 0 0 []; Some ([], ip ++ fields, ellipsis)
        else
          let ip := ip ++ [z2b (Z.shiftr acc 8); z2b acc] in
          match rest with
          | [] => Some ([], ip, ellipsis)
          | c :: rest =>
              if negb (Byte.eqb c colon) then None
              else
                match rest with
                | [] => None
                | c :: rest' =>
                    if Byte.eqb c colon then
                      match ellipsis with
                      | Some _ => None
                      | None =>
                          match rest' with
                          | [] => Some ([], ip, Some (length ip))
                          | _ => ip6Loop fuel rest' ip (Some (length ip))
                          end
                      end
                    else ip6Loop fuel rest ip ellipsis
                end
          end
  end.

(** Without a zone, which [ParseIP] refuses. *)
Definition parseIPv6 (s : bytes) : option bytes :=
  if contains s percent then None
  else
    let leading := bool_decide (take 2 s = [colon; colon]) in
    let s := if leading then drop 2 s else s in
    let ellipsis := if leading then Some 0%nat else None in
    if leading && (len s =? 0) then Some (replicate 16 (z2b 0))
    else
      '(rest, ip, ellipsis) ← ip6Loop 8 s [] ellipsis;
      if negb (len rest =? 0) then None
      else if len ip <? 16 then
        e ← ellipsis;
        Some (take e ip ++ replicate (16 - length ip) (z2b 0) ++ drop e ip)
      else match ellipsis with Some _ => None | None => Some ip end.

(** [ParseAddr] looks for the first separator. *)
Fixpoint parseAddr (whole s : bytes) : option bytes :=
  match s with
  | [] => None
  | c :: s =>
      if Byte.eqb c dot then fields ← parseIPv4Fields whole None 0 0 []; Some (v4InV6Prefix ++ fields)
      else if Byte.eqb c colon then parseIPv6 whole
      else if Byte.eqb c percent then None
      else parseAddr whole s
  end.

(** The sixteen bytes of an address, [None] for nil. *)
Definition ParseIP (s : bytes) : option bytes := parseAddr s s.

(** ** The source filter *)

(** [true] for a nil error; [source] is [from.String()]. *)
Definition ensureCanConnect (CIDRsAllowed : list IPNet) (source : bytes) : bool :=
  if negb (IPMustBeChecked CIDRsAllowed) then true
  else if bool_decide (source = str2b "pipe") then true
  else
    match SplitHostPort source with
    | None => false
    | Some (host, _) =>
        match ParseIP host with
        | None => false
        | Some ip => IPAllowed CIDRsAllowed ip
        end
    end.

(** ** Lemmas *)

Lemma indexFrom_app i c a s : c ∉ a -> indexFrom i c (a ++ s) = indexFrom (i + len a) c s.
Proof.
  revert i. induction a as [|x a IH]; intros i Hc; cbn [app indexFrom].
  - f_equal. change (len []) with 0. lia.
  - rewrite byte_eqb_neq by (intros ->; apply Hc; left). rewrite IH by (intros H; apply Hc; by right).
    f_equal. rewrite len_cons. lia.
Qed.

Lemma contains_false s c : c ∉ s -> contains s c = false.
Proof.
  intros Hc. unfold contains, IndexByte. rewrite <- (app_nil_r s), indexFrom_app by done. done.
Qed.

Lemma IndexByte_at a c s : c ∉ a -> IndexByte (a ++ c :: s) c = len a.
Proof.
  intros Hc. unfold IndexByte. rewrite indexFrom_app by done. cbn.
  by rewrite (proj2 (byte_eqb_spec c c) eq_refl).
Qed.

(** [contains] is [strings.Contains] for [JoinHostPort]'s colon test. *)
Lemma contains_spec s c : contains s c = true <-> c ∈ s.
Proof.
  split.
  - intros H. destruct (decide (c ∈ s)) as [|Hn]; [done|]. by rewrite contains_false in H.
  - intros (a & b & -> & Ha)%list_elem_of_split_l. unfold contains. rewrite IndexByte_at by done.
    pose proof (len_nonneg a). by apply Z.geb_le.
Qed.

(** What [JoinHostPort] joins, [SplitHostPort] splits. *)
Lemma SplitHostPort_JoinHostPort h p :
  lbracket ∉ h -> rbracket ∉ h -> colon ∉ p -> lbracket ∉ p -> rbracket ∉ p ->
  SplitHostPort (JoinHostPort h p) = Some (h, p).
Proof.
  intros Hl Hr Pc Pl Pr. pose proof (len_nonneg h) as Hh. unfold JoinHostPort.
  destruct (bool_decide_reflect (colon ∈ h)) as [Hc|Hc].
  - assert (Ei : LastIndex (lbracket :: h ++ rbracket :: colon :: p) colon = len h + 2).
    { change (lbracket :: h ++ rbracket :: colon :: p) with ((lbracket :: h) ++ [rbracket] ++ colon :: p).
      rewrite app_assoc, LastIndex_split, len_app, !len_cons by done. change (len []) with 0. lia. }
    assert (Ee : IndexByte (lbracket :: h ++ rbracket :: colon :: p) rbracket = len h + 1).
    { change (lbracket :: h ++ rbracket :: colon :: p) with ((lbracket :: h) ++ rbracket :: colon :: p).
      rewrite IndexByte_at, len_cons by (intros [H|H]%elem_of_cons; done). lia. }
    unfold SplitHostPort, splitHost. rewrite Ei, Ee. cbn [List.hd].
    rewrite (proj2 (byte_eqb_spec lbracket lbracket) eq_refl).
    rewrite !(proj2 (Z.ltb_ge _ _)) by lia. rewrite (proj2 (Z.eqb_eq _ _)) by lia. cbn [mbind option_bind].
    replace (Z.to_nat (len h + 1)) with (S (length h)) by (unfold len; lia).
    replace (Z.to_nat (len h + 1 + 1)) with (S (length h + 1)) by (unfold len; lia).
    replace (Z.to_nat (len h + 2 + 1)) with (S (length h + 2)) by (unfold len; lia).
    cbn [drop take]. rewrite take_app_length, !drop_app_add. cbn [drop]. rewrite !contains_false; [done|..].
    + by intros [H|H]%elem_of_cons.
    + intros [H|[H|[H|H]%elem_of_cons]%elem_of_cons]%elem_of_app; done.
  - assert (Hs : forall c, c ∉ h -> c <> colon -> c ∉ p -> c ∉ h ++ colon :: p).
    { intros c H1 H2 H3 [H|[H|H]%elem_of_cons]%elem_of_app; done. }
    unfold SplitHostPort, splitHost. rewrite LastIndex_split by done. rewrite (proj2 (Z.ltb_ge _ _)) by lia.
    rewrite byte_eqb_neq.
    2: { destruct h as [|x h]; [done|]. cbn [app List.hd]. intros <-. apply Hl. by left. }
    replace (Z.to_nat (len h)) with (length h) by (unfold len; lia).
    replace (Z.to_nat (len h + 1)) with (length h + 1)%nat by (unfold len; lia).
    rewrite take_app_length, (contains_false h) by done. cbn [mbind option_bind drop].
    rewrite !contains_false by (apply Hs; done). by rewrite drop_app_add.
Qed.

(** The digit branch on its own: the value after a run of digits. *)
Fixpoint readDigits (s : bytes) (val digLen : Z) : option Z :=
  match s with
  | [] => Some val
  | c :: s =>
      if negb (isDigit c) || (digLen =? 1) && (val =? 0) then None
      else
        let val := val * 10 + (b2z c - 48) in
        if val >? 255 then None else readDigits s val (digLen + 1)
  end.

Lemma parse_digits ds val digLen v : readDigits ds val digLen = Some v -> forall p s fields, isDigit p = true ->
  exists p' n, isDigit p' = true /\ parseIPv4Fields (ds ++ s) (Some p) val digLen fields = parseIPv4Fields s (Some p') v n fields.
Proof.
  revert val digLen. induction ds as [|c ds IH]; intros val digLen; cbn [readDigits app].
  - intros [= <-] p s fields Hp. by exists p, digLen.
  - destruct (isDigit c) eqn:Hc; [|done]. cbn [negb orb].
    destruct ((digLen =? 1) && (val =? 0)) eqn:E0; [done|]. destruct (val * 10 + (b2z c - 48) >? 255) eqn:E1; [done|].
    intros Hr p s fields Hp. destruct (IH _ _ Hr c s fields Hc) as (p' & n & Hp' & E).
    exists p', n. split; [done|]. rewrite <- E. cbn [parseIPv4Fields]. by rewrite Hc, E0, E1.
Qed.

Definition digitsOf (c : byte) : bool :=
  match itoa (b2z c) with
  | d :: ds =>
      isDigit d && bool_decide (readDigits ds (b2z d - 48) 1 = Some (b2z c)) &&
      forallb (fun x => negb (Byte.eqb x dot || Byte.eqb x colon || Byte.eqb x percent)) (d :: ds)
  | [] => false
  end.

Lemma digitsOf_all c : digitsOf c = true.
Proof. destruct c; vm_compute; reflexivity. Qed.

(** The digits of a byte are read back, whatever follows. *)
Lemma parse_byte c s prev fields : exists p n, isDigit p = true /\
  parseIPv4Fields (itoa (b2z c) ++ s) prev 0 0 fields = parseIPv4Fields s (Some p) (b2z c) n fields.
Proof.
  pose proof (digitsOf_all c) as H. unfold digitsOf in H. destruct (itoa (b2z c)) as [|d ds]; [done|].
  apply andb_prop in H as [[Hd Hr%bool_decide_eq_true]%andb_prop _].
  destruct (parse_digits _ _ _ _ Hr d s fields Hd) as (p & n & Hp & E). exists p, n. split; [done|].
  rewrite <- E. cbn [app parseIPv4Fields]. rewrite Hd. cbn [Z.eqb andb].
  replace (0 * 10 + (b2z d - 48)) with (b2z d - 48) by lia.
  destruct (Z.gtb_spec (b2z d - 48) 255) as [Hx|]; [pose proof (b2z_range d); lia|done].
Qed.

Lemma isDigit_dot p : isDigit p = true -> Byte.eqb p dot = false.
Proof. intros H. apply byte_eqb_neq. by intros ->. Qed.

Lemma parse_byte_dot c x s prev fields : len fields < 3 ->
  parseIPv4Fields (itoa (b2z c) ++ dot :: x :: s) prev 0 0 fields = parseIPv4Fields (x :: s) (Some dot) 0 0 (fields ++ [c]).
Proof.
  intros Hf. destruct (parse_byte c (dot :: x :: s) prev fields) as (p & n & Hp & ->).
  cbn [parseIPv4Fields]. change (isDigit dot) with false. rewrite (proj2 (byte_eqb_spec dot dot) eq_refl), isDigit_dot by done.
  rewrite (proj2 (Z.eqb_neq _ _)) by lia. by rewrite z2b_b2z.
Qed.

(** The text of an IPv4 address parses to the address. *)
Lemma ParseIP_ip4String ip : len ip = 4 -> ParseIP (ip4String ip) = Some (v4InV6Prefix ++ ip).
Proof.
  destruct ip as [|a [|b [|c [|d [|]]]]]; cbn [length]; unfold len; cbn [length]; try lia. intros _. unfold ip4String. cbn [map].
  assert (Hne : forall c, exists x s, itoa (b2z c) = x :: s).
  { intros k. pose proof (digitsOf_all k) as H. unfold digitsOf in H. destruct (itoa (b2z k)); [done|eauto]. }
  assert (Hp : forall whole, parseAddr whole (itoa (b2z a) ++ ch "." :: itoa (b2z b) ++ ch "." :: itoa (b2z c) ++ ch "." :: itoa (b2z d)) =
    fields ← parseIPv4Fields whole None 0 0 []; Some (v4InV6Prefix ++ fields)).
  { intros whole. pose proof (digitsOf_all a) as H. unfold digitsOf in H. destruct (itoa (b2z a)) as [|x ds]; [done|].
    apply andb_prop in H as [_ H]. revert H. generalize (x :: ds). intros l. induction l as [|y l IH]; intros H; [done|].
    cbn [forallb] in H. apply andb_prop in H as [Hy H]. apply negb_true_iff in Hy. apply orb_false_iff in Hy as [[H1 H2]%orb_false_iff H3].
    cbn [app parseAddr]. rewrite H1, H2, H3. by apply IH. }
  unfold ParseIP. rewrite Hp. clear Hp. fold dot.
  destruct (Hne b) as (xb & sb & Eb), (Hne c) as (xc & sc & Ec), (Hne d) as (xd & sd & Ed).
  rewrite Eb. cbn [app]. rewrite parse_byte_dot by done. rewrite app_comm_cons, <- Eb, Ec. cbn [app].
  rewrite parse_byte_dot by done. rewrite app_comm_cons, <- Ec, Ed. rewrite parse_byte_dot by done. rewrite <- Ed.
  destruct (parse_byte d [] (Some dot) (([a] ++ [b]) ++ [c])) as (p & n & _ & E).
  rewrite app_nil_r in E. rewrite E. cbn [parseIPv4Fields mbind option_bind]. by rewrite z2b_b2z.
Qed.

Lemma itoa_plain n c : 0 <= n -> c = colon \/ c = lbracket \/ c = rbracket -> c ∉ itoa n.
Proof. intros. by apply digits_plain. Qed.

Lemma ip4String_plain ip c : c = colon \/ c = lbracket \/ c = rbracket -> c ∉ ip4String ip.
Proof.
  intros Hc. destruct ip as [|x [|y [|z [|w [|]]]]]; try (cbn [ip4String map]; apply not_elem_of_nil).
  unfold ip4String. cbn [map]. assert (c <> dot) by (destruct Hc as [-> |[-> | ->]]; done).
  pose proof (fun n => itoa_plain (b2z n) c (proj1 (b2z_range n)) Hc) as Hn. fold dot.
  rewrite !not_elem_of_app, !not_elem_of_cons, !not_elem_of_app, !not_elem_of_cons, !not_elem_of_app, !not_elem_of_cons.
  split_and!; done || apply Hn.
Qed.

Lemma SplitHostPort_ip4 ip port : 0 <= port -> SplitHostPort (joinHostPort (ip4String ip) port) = Some (ip4String ip, itoa port).
Proof. intros Hp. unfold joinHostPort. apply SplitHostPort_JoinHostPort; (apply ip4String_plain || apply itoa_plain); auto. Qed.

(** The filter judges a source by the address it shows. *)
Lemma ensureCanConnect_ip4 nets ip port :
  len ip = 4 -> 0 <= port ->
  ensureCanConnect nets (joinHostPort (ipString ip) port) = IPAllowed nets ip.
Proof.
  intros Hip Hport. unfold ensureCanConnect. unfold IPAllowed at 2.
  destruct (IPMustBeChecked nets) eqn:Ec; [|done]. cbn [negb].
  assert (Hs : ipString ip = ip4String ip) by (unfold ipString, To4; by rewrite Hip).
  pose proof (SplitHostPort_ip4 ip port Hport) as Hj.
  rewrite Hs, Hj, ParseIP_ip4String by done.
  rewrite bool_decide_false; [|by intros E; rewrite E in Hj].
  unfold IPAllowed. rewrite Ec. cbn [negb]. clear -Hip. induction nets as [|n nets IH]; [done|]. cbn [existsb].
  by rewrite NetContains_mapped, IH.
Qed.
