(* ===== verification/Acks.v ===== *)
(** Acknowledgements, [src/state.go]: the table of ack handlers keyed by
    sequence number, the channels a prober waits on and the timers that reap
    the handlers.

    A handler leaves the table under [ackLock]; the function it holds, or the
    timer's send, runs after the lock is released. Those runs are the
    deliveries in flight, and any of them may be next. *)

From S2P Require Import Prelude Wire.

(** ** Data *)

Record ackMessage := AckMessage {
  am_Complete : bool;
  am_Payload : slice;
  am_Timestamp : Z;
}.

(** What the relaying handler of an indirect ping closes over. *)
Record relay := Relay {
  r_SeqNo : Z;
  r_Addr : bytes;
  r_Name : string;
  r_cancel : Z;
}.

(** The ack functions: send to a channel, or relay. *)
Inductive ackFn := AckToChannel (ch : Z) | AckRelay (r : relay).

(** [ah_nackFn] is [None] for nil; a channel of [None] is nil too, to which
    no send ever happens. [ah_timer] is the timer's identity. *)
Record ackHandler := AckHandler {
  ah_ackFn : ackFn;
  ah_nackFn : option (option Z);
  ah_timer : Z;
}.

(** A timer of a handler: when it is due, the entry it deletes and the channel
    it then tells; [None] due when stopped or fired. *)
Record ackTimer := AckTimer {
  tm_due : option Z;
  tm_seqNo : Z;
  tm_ackCh : option Z;
}.

(** [ackCh] and [nackCh] of one probe, with their common capacity. *)
Record probeChannels := ProbeChannels {
  pc_cap : Z;
  pc_acks : list ackMessage;
  pc_nacks : Z;
}.

Inductive delivery :=
| RunAck (h : ackHandler) (payload : slice) (timestamp : Z)
| RunNack (ch : option Z)
| RunTimeout (ch : option Z).

Record ackTable := AckTable {
  k_sequenceNum : Z;
  k_ackHandlers : gmap Z ackHandler;
  k_timers : gmap Z ackTimer;
  k_nextTimer : Z;
  k_chans : gmap Z probeChannels;
  k_nextChan : Z;
  k_flight : list delivery;
}.

Definition newAckTable : ackTable := AckTable 0 ∅ ∅ 0 ∅ 0 [].

Definition set_handlers (t : ackTable) (x : gmap Z ackHandler) : ackTable :=
  AckTable (k_sequenceNum t) x (k_timers t) (k_nextTimer t) (k_chans t) (k_nextChan t) (k_flight t).
Definition set_ackTimers (t : ackTable) (x : gmap Z ackTimer) : ackTable :=
  AckTable (k_sequenceNum t) (k_ackHandlers t) x (k_nextTimer t) (k_chans t) (k_nextChan t) (k_flight t).
Definition set_chans (t : ackTable) (x : gmap Z probeChannels) : ackTable :=
  AckTable (k_sequenceNum t) (k_ackHandlers t) (k_timers t) (k_nextTimer t) x (k_nextChan t) (k_flight t).
Definition set_flight (t : ackTable) (x : list delivery) : ackTable :=
  AckTable (k_sequenceNum t) (k_ackHandlers t) (k_timers t) (k_nextTimer t) (k_chans t) (k_nextChan t) x.

(** ** Operations *)

Definition nextSeqNo (t : ackTable) : Z * ackTable :=
  let n := u32 (k_sequenceNum t + 1) in
  (n, AckTable n (k_ackHandlers t) (k_timers t) (k_nextTimer t) (k_chans t) (k_nextChan t) (k_flight t)).

(** [make(chan ackMessage, n)] and [make(chan struct{}, n)] *)
Definition makeChannels (t : ackTable) (n : Z) : Z * ackTable :=
  (k_nextChan t,
   AckTable (k_sequenceNum t) (k_ackHandlers t) (k_timers t) (k_nextTimer t)
     (<[k_nextChan t := ProbeChannels n [] 0]> (k_chans t)) (k_nextChan t + 1) (k_flight t)).

(** A non-blocking send: dropped when the channel is full. *)
Definition sendAck (t : ackTable) (ch : Z) (v : ackMessage) : ackTable :=
  match k_chans t !! ch with
  | None => t
  | Some c =>
      if len (pc_acks c) <? pc_cap c then
        set_chans t (<[ch := ProbeChannels (pc_cap c) (pc_acks c ++ [v]) (pc_nacks c)]> (k_chans t))
      else t
  end.

Definition sendNack (t : ackTable) (ch : option Z) : ackTable :=
  match ch with
  | None => t
  | Some ch =>
      match k_chans t !! ch with
      | None => t
      | Some c =>
          if pc_nacks c <? pc_cap c then
            set_chans t (<[ch := ProbeChannels (pc_cap c) (pc_acks c) (pc_nacks c + 1)]> (k_chans t))
          else t
      end
  end.

(** [time.AfterFunc] and the entry of the table, one step: no timer is due
    before its entry is in.  *)
Definition addHandler (t : ackTable) (seqNo : Z) (fn : ackFn) (nackFn : option (option Z)) (ackCh : option Z) (due : Z) : ackTable :=
  let id := k_nextTimer t in
  AckTable (k_sequenceNum t) (<[seqNo := AckHandler fn nackFn id]> (k_ackHandlers t))
    (<[id := AckTimer (Some due) seqNo ackCh]> (k_timers t)) (id + 1) (k_chans t) (k_nextChan t) (k_flight t).

Definition setProbeChannels (t : ackTable) (seqNo ackCh : Z) (nackCh : option Z) (timeout now : Z) : ackTable :=
  addHandler t seqNo (AckToChannel ackCh) (Some nackCh) (Some ackCh) (now + timeout).

(** Set and invoked on the packet listener's goroutine, so the entry is never
    seen without its timer. *)
Definition setAckHandler (t : ackTable) (seqNo : Z) (r : relay) (timeout now : Z) : ackTable :=
  addHandler t seqNo (AckRelay r) None None (now + timeout).

Definition stopAckTimer (t : ackTable) (id : Z) : ackTable :=
  match k_timers t !! id with
  | None => t
  | Some tm => set_ackTimers t (<[id := AckTimer None (tm_seqNo tm) (tm_ackCh tm)]> (k_timers t))
  end.

(** Up to the release of the lock. *)
Definition invokeAckHandler (t : ackTable) (ack : AckResp) (timestamp : Z) : ackTable :=
  let seqNo := Ack_SeqNo ack in
  match k_ackHandlers t !! seqNo with
  | None => t
  | Some ah =>
      let t := set_handlers t (delete seqNo (k_ackHandlers t)) in
      set_flight t (k_flight t ++ [RunAck ah (Ack_Payload ack) timestamp])
  end.

Definition invokeNackHandler (t : ackTable) (nack : NackResp) : ackTable :=
  match k_ackHandlers t !! Nack_SeqNo nack with
  | None => t
  | Some ah =>
      match ah_nackFn ah with
      | None => t
      | Some ch => set_flight t (k_flight t ++ [RunNack ch])
      end
  end.

(** A timer that is due fires: up to the release of the lock. *)
Definition fireAckTimer (t : ackTable) (id now : Z) : ackTable :=
  match k_timers t !! id with
  | None => t
  | Some tm =>
      match tm_due tm with
      | None => t
      | Some due =>
          if due <=? now then
            let t := set_ackTimers t (<[id := AckTimer None (tm_seqNo tm) (tm_ackCh tm)]> (k_timers t)) in
            let t := set_handlers t (delete (tm_seqNo tm) (k_ackHandlers t)) in
            set_flight t (k_flight t ++ [RunTimeout (tm_ackCh tm)])
          else t
      end
  end.

(** The [i]th delivery in flight runs; a relay is handed to the caller, which
    sends the ack. *)
Definition deliver (t : ackTable) (i : nat) (now : Z) : ackTable * option relay :=
  match k_flight t !! i with
  | None => (t, None)
  | Some d =>
      let t := set_flight t (delete i (k_flight t)) in
      match d with
      | RunAck ah payload timestamp =>
          let t := stopAckTimer t (ah_timer ah) in
          match ah_ackFn ah with
          | AckToChannel ch => (sendAck t ch (AckMessage true payload timestamp), None)
          | AckRelay r => (t, Some r)
          end
      | RunNack ch => (sendNack t ch, None)
      | RunTimeout (Some ch) => (sendAck t ch (AckMessage false None now), None)
      | RunTimeout None => (t, None)
      end
  end.

(** The prober receives from its ack channel; [None] when it would block. *)
Definition receiveAck (t : ackTable) (ch : Z) : option (ackMessage * ackTable) :=
  c ← k_chans t !! ch;
  match pc_acks c with
  | [] => None
  | v :: acks => Some (v, set_chans t (<[ch := ProbeChannels (pc_cap c) acks (pc_nacks c)]> (k_chans t)))
  end.

(** The prober puts a timeout back; [None] when the send blocks. *)
Definition requeueAck (t : ackTable) (ch : Z) (v : ackMessage) : option ackTable :=
  c ← k_chans t !! ch;
  if len (pc_acks c) <? pc_cap c then
    Some (set_chans t (<[ch := ProbeChannels (pc_cap c) (pc_acks c ++ [v]) (pc_nacks c)]> (k_chans t)))
  else None.

(** ** Counting *)

Section Count.
Context {A : Type} (P : A -> bool).

Definition countMap (m : gmap Z A) : nat := size (filter (fun kv => P kv.2 = true) m).

Lemma countMap_insert m k x : m !! k = None -> countMap (<[k := x]> m) = (countMap m + if P x then 1 else 0)%nat.
Proof.
  intros Hk. unfold countMap. destruct (P x) eqn:Hx.
  - rewrite map_filter_insert_True by done. rewrite map_size_insert_None; [lia|]. by rewrite map_lookup_filter, Hk.
  - rewrite map_filter_insert_False by (cbn; congruence). rewrite delete_id by done. lia.
Qed.

Lemma countMap_delete m k x : m !! k = Some x -> countMap m = (countMap (delete k m) + if P x then 1 else 0)%nat.
Proof. intros Hk. rewrite <- (countMap_insert _ k) by apply lookup_delete_eq. by rewrite insert_delete_id. Qed.

Lemma countMap_delete_le m k : (countMap (delete k m) <= countMap m)%nat.
Proof.
  destruct (m !! k) as [x|] eqn:E; [rewrite (countMap_delete m k x E); lia|]. by rewrite delete_id.
Qed.

Lemma countMap_put m k x : countMap (<[k := x]> m) = (countMap (delete k m) + if P x then 1 else 0)%nat.
Proof. rewrite <- insert_delete_eq. apply countMap_insert, lookup_delete_eq. Qed.

Lemma countMap_none m : (forall k x, m !! k = Some x -> P x = false) -> countMap m = 0%nat.
Proof.
  intros H. apply map_size_empty_iff, map_empty. intros k. apply map_lookup_filter_None. right.
  intros x Hx. cbn. rewrite (H k x Hx). done.
Qed.

Definition countList (l : list A) : nat := length (List.filter P l).

Lemma countList_app l r : countList (l ++ r) = (countList l + countList r)%nat.
Proof. unfold countList. by rewrite List.filter_app, length_app. Qed.

Lemma countList_delete l i x : l !! i = Some x -> countList l = (countList (delete i l) + if P x then 1 else 0)%nat.
Proof.
  intros Hi. rewrite <- (take_drop_middle l i x Hi) at 1. rewrite delete_take_drop. rewrite !countList_app.
  unfold countList at 2. cbn [List.filter]. destruct (P x); cbn [length]; unfold countList; lia.
Qed.

Lemma countList_none l : (forall x, x ∈ l -> P x = false) -> countList l = 0%nat.
Proof.
  induction l as [|x l IH]; [done|]. intros H. unfold countList. cbn [List.filter]. rewrite (H x) by left.
  apply IH. intros y Hy. apply H. by right.
Qed.
End Count.

(** ** Specification *)

(** A probe starts: a sequence number, its channels and its handler. *)
Definition startProbe (t : ackTable) (n timeout now : Z) : ackTable :=
  let '(seqNo, t) := nextSeqNo t in
  let '(ch, t) := makeChannels t n in
  setProbeChannels t seqNo ch (Some ch) timeout now.

(** The table with what has been received from each channel so far. *)
Record ackSystem := AckSystem { y_table : ackTable; y_received : Z -> list ackMessage }.

Definition received (f : Z -> list ackMessage) (ch : Z) (v : ackMessage) : Z -> list ackMessage :=
  fun c => if decide (c = ch) then f c ++ [v] else f c.

Inductive ackStep : ackSystem -> ackSystem -> Prop :=
| step_probe t f n timeout now : 1 <= n -> ackStep (AckSystem t f) (AckSystem (startProbe t n timeout now) f)
| step_relay t f r timeout now : ackStep (AckSystem t f)
    (AckSystem (let '(seqNo, t) := nextSeqNo t in setAckHandler t seqNo r timeout now) f)
| step_ack t f ack ts : ackStep (AckSystem t f) (AckSystem (invokeAckHandler t ack ts) f)
| step_nack t f nack : ackStep (AckSystem t f) (AckSystem (invokeNackHandler t nack) f)
| step_timer t f id now : ackStep (AckSystem t f) (AckSystem (fireAckTimer t id now) f)
| step_deliver t f i now : ackStep (AckSystem t f) (AckSystem (deliver t i now).1 f)
| step_receive t f ch v t' : receiveAck t ch = Some (v, t') ->
    ackStep (AckSystem t f) (AckSystem t' (received f ch v))
| step_requeue t f ch v l t' : f ch = l ++ [v] -> requeueAck t ch v = Some t' ->
    ackStep (AckSystem t f) (AckSystem t' (fun c => if decide (c = ch) then l else f c)).

Definition toChannel (ch : Z) (ah : ackHandler) : bool :=
  match ah_ackFn ah with AckToChannel c => c =? ch | AckRelay _ => false end.
Definition ackInFlight (ch : Z) (d : delivery) : bool :=
  match d with RunAck ah _ _ => toChannel ch ah | _ => false end.
Definition timeoutInFlight (ch : Z) (d : delivery) : bool :=
  match d with RunTimeout (Some c) => c =? ch | _ => false end.
Definition timerFor (ch : Z) (tm : ackTimer) : bool :=
  match tm_due tm, tm_ackCh tm with Some _, Some c => c =? ch | _, _ => false end.

Definition queuedAcks (t : ackTable) (ch : Z) : list ackMessage :=
  match k_chans t !! ch with Some c => pc_acks c | None => [] end.

(** All messages a channel has been given, oldest first. *)
Definition answers (s : ackSystem) (ch : Z) : list ackMessage := y_received s ch ++ queuedAcks (y_table s) ch.
Definition countAnswers (complete : bool) (s : ackSystem) (ch : Z) : nat :=
  countList (fun v => Bool.eqb (am_Complete v) complete) (answers s ch).

(** How many ways are left for a channel to get an ack, or a timeout. *)
Definition ackSources (t : ackTable) (ch : Z) : nat :=
  countMap (toChannel ch) (k_ackHandlers t) +
  countList (ackInFlight ch) (k_flight t).
Definition timeoutSources (t : ackTable) (ch : Z) : nat :=
  countMap (timerFor ch) (k_timers t) +
  countList (timeoutInFlight ch) (k_flight t).

(** A handler and its timer speak of the same channel. *)
Definition handler_ok (t : ackTable) (ah : ackHandler) : Prop :=
  exists tm, k_timers t !! ah_timer ah = Some tm /\
    tm_ackCh tm = match ah_ackFn ah with AckToChannel c => Some c | AckRelay _ => None end.

(** The invariant, with an answer on its way for every channel in [P] that
    has none yet. *)
Record acks_for (P : Z -> Prop) (s : ackSystem) : Prop := {
  ao_handlers : forall seqNo ah, k_ackHandlers (y_table s) !! seqNo = Some ah -> handler_ok (y_table s) ah;
  ao_flight : forall ah p ts, RunAck ah p ts ∈ k_flight (y_table s) -> handler_ok (y_table s) ah;
  ao_timers : forall id tm, k_timers (y_table s) !! id = Some tm -> id < k_nextTimer (y_table s) /\
    forall ch, tm_ackCh tm = Some ch -> is_Some (k_chans (y_table s) !! ch);
  ao_timeouts : forall ch, RunTimeout (Some ch) ∈ k_flight (y_table s) -> is_Some (k_chans (y_table s) !! ch);
  ao_chans : forall ch c, k_chans (y_table s) !! ch = Some c -> ch < k_nextChan (y_table s) /\ 1 <= pc_cap c;
  ao_fresh : forall ch, k_chans (y_table s) !! ch = None -> y_received s ch = [];
  ao_acks : forall ch, (countAnswers true s ch + ackSources (y_table s) ch <= 1)%nat;
  ao_expiries : forall ch, (countAnswers false s ch + timeoutSources (y_table s) ch <= 1)%nat;
  ao_live : forall ch, P ch -> is_Some (k_chans (y_table s) !! ch) -> answers s ch <> [] \/
    (0 < countList (ackInFlight ch) (k_flight (y_table s)) + timeoutSources (y_table s) ch)%nat;
}.
Definition acks_ok := acks_for (fun _ => True).

(** ** Lemmas: the invariant *)

Lemma acks_ok_init : acks_ok (AckSystem newAckTable (fun _ => [])).
Proof.
  constructor; cbn; try done; try (by intros ? ?%elem_of_nil); try (by intros ? ? ? ?%elem_of_nil).
  - intros ch. unfold queuedAcks, ackSources. cbn. rewrite lookup_empty, countMap_none; [cbn; lia|done].
  - intros ch. unfold queuedAcks, timeoutSources. cbn. rewrite lookup_empty, countMap_none; [cbn; lia|done].
  - intros ch _. rewrite lookup_empty. by intros [? ?].
Qed.

Lemma handler_ok_chan P s ah ch :
  acks_for P s -> handler_ok (y_table s) ah -> toChannel ch ah = true -> is_Some (k_chans (y_table s) !! ch).
Proof.
  intros Hs (tm & Htm & Hch). unfold toChannel. destruct (ah_ackFn ah) as [c|]; [|done]. intros <-%Z.eqb_eq.
  by eapply (ao_timers P s Hs).
Qed.

(** A channel that is not there has no source. *)
Lemma no_sources P s ch : acks_for P s -> k_chans (y_table s) !! ch = None ->
  ackSources (y_table s) ch = 0%nat /\ timeoutSources (y_table s) ch = 0%nat.
Proof.
  intros Hs Hch.
  assert (Hno : forall b : bool, (b = true -> is_Some (k_chans (y_table s) !! ch)) -> b = false).
  { intros [] Hb; [|done]. rewrite Hch in Hb. by destruct (Hb eq_refl). }
  assert (E1 : countMap (toChannel ch) (k_ackHandlers (y_table s)) = 0%nat).
  { apply countMap_none. intros seqNo ah Hah. apply Hno. eapply handler_ok_chan; [done|]. by eapply (ao_handlers P s Hs). }
  assert (E2 : countList (ackInFlight ch) (k_flight (y_table s)) = 0%nat).
  { apply countList_none. intros d Hd. apply Hno. destruct d as [ah p ts| |]; try done. cbn.
    eapply handler_ok_chan; [done|]. by eapply (ao_flight P s Hs). }
  assert (E3 : countMap (timerFor ch) (k_timers (y_table s)) = 0%nat).
  { apply countMap_none. intros id tm Htm. apply Hno. unfold timerFor.
    destruct (tm_due tm), (tm_ackCh tm) as [c|] eqn:Ec; try done. intros <-%Z.eqb_eq. by apply (ao_timers P s Hs id tm Htm). }
  assert (E4 : countList (timeoutInFlight ch) (k_flight (y_table s)) = 0%nat).
  { apply countList_none. intros d Hd. apply Hno. destruct d as [| |[c|]]; try done. cbn.
    intros <-%Z.eqb_eq. by apply (ao_timeouts P s Hs). }
  unfold ackSources, timeoutSources. by rewrite E1, E2, E3, E4.
Qed.

(** What [handler_ok] depends on. *)
Lemma handler_ok_mono t t' ah :
  (forall id tm, k_timers t !! id = Some tm -> exists tm', k_timers t' !! id = Some tm' /\ tm_ackCh tm' = tm_ackCh tm) ->
  handler_ok t ah -> handler_ok t' ah.
Proof. intros H (tm & (tm' & ? & <-)%H & Hch). by exists tm'. Qed.

Lemma next_timer_fresh P s : acks_for P s -> k_timers (y_table s) !! k_nextTimer (y_table s) = None.
Proof. intros Hs. apply eq_None_not_Some. intros [tm [H _]%(ao_timers P s Hs)]. lia. Qed.

Lemma next_chan_fresh P s : acks_for P s -> k_chans (y_table s) !! k_nextChan (y_table s) = None.
Proof. intros Hs. apply eq_None_not_Some. intros [c [H _]%(ao_chans P s Hs)]. lia. Qed.

Lemma acks_ok_seq P s n : acks_for P s ->
  acks_for P (AckSystem (AckTable n (k_ackHandlers (y_table s)) (k_timers (y_table s)) (k_nextTimer (y_table s))
    (k_chans (y_table s)) (k_nextChan (y_table s)) (k_flight (y_table s))) (y_received s)).
Proof. destruct s as [[] f]. intros [H1 H2 H3 H4 H5 H6 H7 H8 H9]. constructor; done. Qed.

Lemma acks_ok_channels s n : acks_ok s -> 1 <= n ->
  let '(ch, t) := makeChannels (y_table s) n in
  acks_for (fun c => Some ch <> Some c) (AckSystem t (y_received s)) /\ is_Some (k_chans t !! ch) /\
  answers (AckSystem t (y_received s)) ch = [] /\ ackSources t ch = 0%nat /\ timeoutSources t ch = 0%nat.
Proof.
  intros Hs Hn. destruct s as [t f]. cbn [y_table y_received]. pose proof (next_chan_fresh _ _ Hs) as Hf. cbn in Hf.
  destruct (no_sources _ _ _ Hs Hf) as [Ha Ht]. pose proof (ao_fresh _ _ Hs _ Hf) as Hr. cbn [y_received] in Hr.
  assert (Hsome : forall ch, is_Some (k_chans t !! ch) -> is_Some (<[k_nextChan t := ProbeChannels n [] 0]> (k_chans t) !! ch)).
  { intros ch Hch. apply lookup_insert_is_Some. destruct (decide (k_nextChan t = ch)); auto. }
  assert (Hq : forall ch, answers (AckSystem (makeChannels t n).2 f) ch = answers (AckSystem t f) ch).
  { intros ch. unfold answers, queuedAcks. cbn. destruct (decide (k_nextChan t = ch)) as [<-|Hne].
    - by rewrite lookup_insert_eq, Hf.
    - by rewrite lookup_insert_ne. }
  unfold makeChannels in *. cbn [snd] in Hq. split_and!.
  2: { cbn. rewrite lookup_insert_eq. by eexists. }
  2: { rewrite Hq. unfold answers, queuedAcks. cbn. by rewrite Hf, Hr. }
  2, 3: done.
  destruct Hs as [H1 H2 H3 H4 H5 H6 H7 H8 H9]. constructor; cbn in *; try done.
  - intros id tm Htm. destruct (H3 id tm Htm) as [? Hc]. split; [done|]. intros ch Hch. by apply Hsome, Hc.
  - intros ch Hch. by apply Hsome, H4.
  - intros ch c. destruct (decide (k_nextChan t = ch)) as [<-|Hne].
    + rewrite lookup_insert_eq. intros [= <-]. cbn. lia.
    + rewrite lookup_insert_ne by done. intros [? ?]%H5. lia.
  - intros ch. destruct (decide (k_nextChan t = ch)) as [<-|Hne]; [by rewrite lookup_insert_eq|].
    rewrite lookup_insert_ne by done. apply H6.
  - intros ch. unfold countAnswers. rewrite Hq. apply H7.
  - intros ch. unfold countAnswers. rewrite Hq. apply H8.
  - intros ch Hne. rewrite lookup_insert_ne by congruence. intros Hch. rewrite Hq. by apply H9.
Qed.

Definition channelOf (fn : ackFn) : option Z :=
  match fn with AckToChannel c => Some c | AckRelay _ => None end.

(** A new handler whose ack, if it goes to a channel, goes to one that has no
    source yet, with a timer that tells the same channel. *)
Lemma acks_ok_addHandler t f seqNo fn nackFn due :
  acks_for (fun c => channelOf fn <> Some c) (AckSystem t f) ->
  (forall ch, channelOf fn = Some ch -> is_Some (k_chans t !! ch) /\ answers (AckSystem t f) ch = [] /\
     ackSources t ch = 0%nat /\ timeoutSources t ch = 0%nat) ->
  acks_ok (AckSystem (addHandler t seqNo fn nackFn (channelOf fn) due) f).
Proof.
  intros Hs Hnew. pose proof (next_timer_fresh _ _ Hs) as Hf. cbn in Hf.
  assert (Hmono : forall ah, handler_ok t ah -> handler_ok (addHandler t seqNo fn nackFn (channelOf fn) due) ah).
  { intros ah. apply handler_ok_mono. intros id tm Htm. exists tm. cbn. rewrite lookup_insert_ne by congruence. done. }
  assert (Hk : forall ch, toChannel ch (AckHandler fn nackFn (k_nextTimer t)) = bool_decide (channelOf fn = Some ch)).
  { intros ch. unfold toChannel. cbn. destruct fn as [c|]; [|done]. cbn. destruct (Z.eqb_spec c ch) as [->|Hne].
    - by rewrite bool_decide_true.
    - rewrite bool_decide_false by congruence. done. }
  assert (Ht : forall ch, timerFor ch (AckTimer (Some due) seqNo (channelOf fn)) = bool_decide (channelOf fn = Some ch)).
  { intros ch. rewrite <- Hk. unfold timerFor, toChannel. cbn. by destruct fn. }
  assert (Hsa : forall ch, (ackSources (addHandler t seqNo fn nackFn (channelOf fn) due) ch <=
     ackSources t ch + if bool_decide (channelOf fn = Some ch) then 1 else 0)%nat).
  { intros ch. unfold ackSources, addHandler. cbn [k_ackHandlers k_flight]. rewrite countMap_put, Hk.
    pose proof (countMap_delete_le (toChannel ch) (k_ackHandlers t) seqNo). lia. }
  assert (Hst : forall ch, timeoutSources (addHandler t seqNo fn nackFn (channelOf fn) due) ch =
     (timeoutSources t ch + if bool_decide (channelOf fn = Some ch) then 1 else 0)%nat).
  { intros ch. unfold timeoutSources, addHandler. cbn [k_timers k_flight]. rewrite countMap_insert, Ht by done. lia. }
  destruct Hs as [H1 H2 H3 H4 H5 H6 H7 H8 H9]. constructor; cbn [y_table y_received] in *.
  - intros seqNo' ah. cbn. destruct (decide (seqNo = seqNo')) as [<-|Hne].
    + rewrite lookup_insert_eq. intros [= <-]. eexists. cbn. rewrite lookup_insert_eq. done.
    + rewrite lookup_insert_ne by done. eauto.
  - cbn. eauto.
  - intros id tm. cbn. destruct (decide (k_nextTimer t = id)) as [<-|Hne].
    + rewrite lookup_insert_eq. intros [= <-]. split; [lia|]. cbn. intros ch Hch. by apply Hnew.
    + rewrite lookup_insert_ne by done. intros [? ?]%H3. split; [lia|done].
  - done.
  - done.
  - done.
  - intros ch. specialize (H7 ch). specialize (Hsa ch). unfold countAnswers in *.
    change (answers (AckSystem (addHandler t seqNo fn nackFn (channelOf fn) due) f) ch) with (answers (AckSystem t f) ch).
    case_bool_decide as E; [|lia]. destruct (Hnew ch E) as (_ & -> & Hz & _). change (countList _ []) with 0%nat. lia.
  - intros ch. specialize (H8 ch). rewrite Hst. unfold countAnswers in *.
    change (answers (AckSystem (addHandler t seqNo fn nackFn (channelOf fn) due) f) ch) with (answers (AckSystem t f) ch).
    case_bool_decide as E; [|lia]. destruct (Hnew ch E) as (_ & -> & _ & Hz). change (countList _ []) with 0%nat. lia.
  - intros ch _ Hch. rewrite Hst. case_bool_decide as E; [lia|]. specialize (H9 ch E Hch). rewrite Nat.add_0_r. done.
Qed.

Lemma acks_for_weaken (P Q : Z -> Prop) s : (forall ch, Q ch -> P ch) -> acks_for P s -> acks_for Q s.
Proof. intros HQ [H1 H2 H3 H4 H5 H6 H7 H8 H9]. constructor; auto. Qed.

(** A new delivery in flight, with what it takes from the handlers. *)
Lemma acks_ok_invoke s ack ts : acks_ok s -> acks_ok (AckSystem (invokeAckHandler (y_table s) ack ts) (y_received s)).
Proof.
  destruct s as [t f]. intros Hs. cbn [y_table y_received]. unfold invokeAckHandler.
  destruct (k_ackHandlers t !! Ack_SeqNo ack) as [ah|] eqn:Eh; [|done].
  destruct Hs as [H1 H2 H3 H4 H5 H6 H7 H8 H9].
  set (t' := set_flight _ _).
  assert (Ha : forall ch, ackSources t' ch = ackSources t ch).
  { intros ch. unfold ackSources, t', set_flight, set_handlers. cbn [k_ackHandlers k_flight].
    rewrite (countMap_delete _ (k_ackHandlers t) _ ah Eh), countList_app. unfold countList at 2. cbn [List.filter ackInFlight].
    destruct (toChannel ch ah); cbn [length]; lia. }
  assert (Ht : forall ch, timeoutSources t' ch = timeoutSources t ch).
  { intros ch. unfold timeoutSources, t', set_flight, set_handlers. cbn [k_timers k_flight].
    rewrite countList_app. unfold countList at 2. cbn. lia. }
  constructor; cbn [y_table y_received] in *; try done.
  - intros seqNo ah'. cbn. rewrite lookup_delete_Some. intros [_ ?]. by eapply H1.
  - intros ah' p ts' Hin. apply elem_of_app in Hin as [Hin|Hin]; [by eapply H2|].
    apply list_elem_of_singleton in Hin. simplify_eq. by eapply H1.
  - intros ch Hin. apply elem_of_app in Hin as [Hin|Hin]; [by apply H4|]. by apply list_elem_of_singleton in Hin.
  - intros ch. rewrite Ha. apply H7.
  - intros ch. rewrite Ht. apply H8.
  - intros ch _ Hch. destruct (H9 ch I Hch) as [?|Hp]; [by left|]. right. rewrite Ht. cbn [t' k_flight set_flight set_handlers].
    rewrite countList_app. lia.
Qed.

Lemma acks_ok_nack s nack : acks_ok s -> acks_ok (AckSystem (invokeNackHandler (y_table s) nack) (y_received s)).
Proof.
  destruct s as [t f]. intros Hs. cbn [y_table y_received]. unfold invokeNackHandler.
  destruct (k_ackHandlers t !! Nack_SeqNo nack) as [ah|]; [|done]. destruct (ah_nackFn ah) as [ch0|]; [|done].
  destruct Hs as [H1 H2 H3 H4 H5 H6 H7 H8 H9].
  assert (Hc : forall P : delivery -> bool, P (RunNack ch0) = false -> countList P (k_flight t ++ [RunNack ch0]) = countList P (k_flight t)).
  { intros P HP. rewrite countList_app. unfold countList at 2. cbn [List.filter]. rewrite HP. cbn. lia. }
  constructor; cbn [y_table y_received] in *; try done.
  - intros ah' p ts' Hin. apply elem_of_app in Hin as [Hin|Hin]; [by eapply H2|]. by apply list_elem_of_singleton in Hin.
  - intros ch Hin. apply elem_of_app in Hin as [Hin|Hin]; [by apply H4|]. by apply list_elem_of_singleton in Hin.
  - intros ch. unfold ackSources. cbn [k_ackHandlers k_flight set_flight]. rewrite Hc by done. apply H7.
  - intros ch. unfold timeoutSources. cbn [k_timers k_flight set_flight]. rewrite Hc by done. apply H8.
  - intros ch. unfold timeoutSources. cbn [k_timers k_flight set_flight]. rewrite !Hc by done. apply H9.
Qed.

Lemma acks_ok_fire s id now : acks_ok s -> acks_ok (AckSystem (fireAckTimer (y_table s) id now) (y_received s)).
Proof.
  destruct s as [t f]. intros Hs. cbn [y_table y_received]. unfold fireAckTimer.
  destruct (k_timers t !! id) as [tm|] eqn:Etm; [|done]. destruct (tm_due tm) as [due|] eqn:Ed; [|done].
  destruct (due <=? now); [|done]. destruct Hs as [H1 H2 H3 H4 H5 H6 H7 H8 H9].
  set (t' := set_flight _ _).
  assert (Ha : forall ch, (ackSources t' ch <= ackSources t ch)%nat).
  { intros ch. unfold ackSources, t', set_flight, set_handlers, set_ackTimers. cbn [k_ackHandlers k_flight].
    rewrite countList_app. unfold countList at 2. cbn [List.filter ackInFlight length].
    pose proof (countMap_delete_le (toChannel ch) (k_ackHandlers t) (tm_seqNo tm)). lia. }
  assert (Ht : forall ch, timeoutSources t' ch = timeoutSources t ch).
  { intros ch. unfold timeoutSources, t', set_flight, set_handlers, set_ackTimers. cbn [k_timers k_flight].
    rewrite (countMap_delete _ (k_timers t) _ tm Etm), countMap_put, countList_app. unfold countList at 2, timerFor at 2 4.
    rewrite Ed. cbn [tm_due List.filter timeoutInFlight]. destruct (tm_ackCh tm) as [c|]; cbn [length]; [|lia].
    destruct (c =? ch); cbn [length]; lia. }
  assert (Hm : forall ah, handler_ok t ah -> handler_ok t' ah).
  { intros ah. apply handler_ok_mono. intros id' tm' Htm'. cbn. destruct (decide (id = id')) as [<-|Hne].
    - eexists. rewrite lookup_insert_eq. split; [done|]. cbn. congruence.
    - exists tm'. by rewrite lookup_insert_ne. }
  constructor; cbn [y_table y_received] in *; try done.
  - intros seqNo ah'. cbn. rewrite lookup_delete_Some. intros [_ ?]. eauto.
  - intros ah' p ts' Hin. apply elem_of_app in Hin as [Hin|Hin]; [eauto|]. by apply list_elem_of_singleton in Hin.
  - intros id' tm'. cbn. destruct (decide (id = id')) as [<-|Hne].
    + rewrite lookup_insert_eq. intros [= <-]. by apply (H3 id tm).
    + rewrite lookup_insert_ne by done. apply H3.
  - intros ch Hin. apply elem_of_app in Hin as [Hin|Hin]; [by apply H4|]. apply list_elem_of_singleton in Hin. simplify_eq.
    by apply (H3 id tm).
  - intros ch. specialize (H7 ch). specialize (Ha ch). unfold countAnswers in *.
    change (answers (AckSystem t' f) ch) with (answers (AckSystem t f) ch). lia.
  - intros ch. rewrite Ht. apply H8.
  - intros ch _ Hch. rewrite Ht. destruct (H9 ch I Hch) as [?|Hp]; [by left|]. right. cbn [t' k_flight set_flight set_handlers set_ackTimers].
    rewrite countList_app. lia.
Qed.

(** A delivery leaves the flight: the channels it was for have one source
    less. *)
Lemma acks_for_land t f i d :
  acks_ok (AckSystem t f) -> k_flight t !! i = Some d ->
  let t' := set_flight t (delete i (k_flight t)) in
  acks_for (fun c => ackInFlight c d = false /\ timeoutInFlight c d = false) (AckSystem t' f) /\
  (forall c, ackSources t c = (ackSources t' c + if ackInFlight c d then 1 else 0)%nat) /\
  (forall c, timeoutSources t c = (timeoutSources t' c + if timeoutInFlight c d then 1 else 0)%nat).
Proof.
  intros [H1 H2 H3 H4 H5 H6 H7 H8 H9] Hi t'.
  assert (Ha : forall c, ackSources t c = (ackSources t' c + if ackInFlight c d then 1 else 0)%nat).
  { intros c. unfold ackSources, t'. cbn [k_ackHandlers k_flight set_flight]. rewrite (countList_delete _ _ i d Hi). lia. }
  assert (Ht : forall c, timeoutSources t c = (timeoutSources t' c + if timeoutInFlight c d then 1 else 0)%nat).
  { intros c. unfold timeoutSources, t'. cbn [k_timers k_flight set_flight]. rewrite (countList_delete _ _ i d Hi). lia. }
  assert (Hsub : forall x, x ∈ delete i (k_flight t) -> x ∈ k_flight t).
  { intros x Hx. eapply elem_of_submseteq; [exact Hx|]. apply sublist_submseteq, sublist_delete. }
  split; [|done]. constructor; cbn [y_table y_received] in *; try done.
  - intros ah p ts Hin%Hsub. by eapply H2.
  - intros ch Hin%Hsub. by apply H4.
  - intros ch. specialize (H7 ch). rewrite Ha in H7. unfold countAnswers in *.
    change (answers (AckSystem t' f) ch) with (answers (AckSystem t f) ch). lia.
  - intros ch. specialize (H8 ch). rewrite Ht in H8. unfold countAnswers in *.
    change (answers (AckSystem t' f) ch) with (answers (AckSystem t f) ch). lia.
  - intros ch [E1 E2] Hch. specialize (H9 ch I Hch). rewrite Ht, E2, (countList_delete _ _ i d Hi), E1 in H9.
    change (answers (AckSystem t' f) ch) with (answers (AckSystem t f) ch). cbn [t' k_flight set_flight].
    destruct H9 as [?|?]; [by left|right; lia].
Qed.

(** Stopping a timer concerns the channel it would tell. *)
Lemma acks_for_stop P t f id : acks_for P (AckSystem t f) ->
  acks_for (fun c => P c /\ forall tm, k_timers t !! id = Some tm -> tm_ackCh tm <> Some c) (AckSystem (stopAckTimer t id) f) /\
  forall c, ackSources (stopAckTimer t id) c = ackSources t c.
Proof.
  intros Hs. unfold stopAckTimer. destruct (k_timers t !! id) as [tm|] eqn:Etm.
  2: { split; [|done]. eapply acks_for_weaken; [|done]. by intros ch [? _]. }
  split; [|done]. destruct Hs as [H1 H2 H3 H4 H5 H6 H7 H8 H9]. set (t' := set_ackTimers _ _).
  assert (Hm : forall ah, handler_ok t ah -> handler_ok t' ah).
  { intros ah. apply handler_ok_mono. intros id' tm' Htm'. cbn. destruct (decide (id = id')) as [<-|Hne].
    - eexists. rewrite lookup_insert_eq. split; [done|]. cbn. congruence.
    - exists tm'. by rewrite lookup_insert_ne. }
  assert (Ht : forall ch, timeoutSources t ch = (timeoutSources t' ch + if timerFor ch tm then 1 else 0)%nat).
  { intros ch. unfold timeoutSources, t', set_ackTimers. cbn [k_timers k_flight].
    rewrite (countMap_delete _ (k_timers t) _ tm Etm), countMap_put. unfold timerFor at 4. cbn [tm_due]. lia. }
  constructor; cbn [y_table y_received] in *; try done.
  - intros seqNo ah Hah. eauto.
  - intros ah p ts Hin. eauto.
  - intros id' tm'. cbn. destruct (decide (id = id')) as [<-|Hne].
    + rewrite lookup_insert_eq. intros [= <-]. by apply (H3 id tm).
    + rewrite lookup_insert_ne by done. apply H3.
  - intros ch. specialize (H8 ch). rewrite Ht in H8. unfold countAnswers in *.
    change (answers (AckSystem t' f) ch) with (answers (AckSystem t f) ch). lia.
  - intros ch [HP Hne] Hch. specialize (H9 ch HP Hch). rewrite Ht in H9.
    assert (Hf : timerFor ch tm = false).
    { unfold timerFor. destruct (tm_due tm), (tm_ackCh tm) as [c|] eqn:Ec; try done. apply Z.eqb_neq. intros ->. by eapply Hne. }
    rewrite Hf in H9. change (answers (AckSystem t' f) ch) with (answers (AckSystem t f) ch). cbn [t' k_flight set_ackTimers].
    destruct H9 as [?|?]; [by left|right; lia].
Qed.

(** A message is sent to a channel that may still get one of its kind. *)
Lemma acks_ok_send t f ch v :
  acks_for (fun c => c <> ch) (AckSystem t f) -> is_Some (k_chans t !! ch) ->
  (countAnswers (am_Complete v) (AckSystem t f) ch + (if am_Complete v then ackSources t ch else timeoutSources t ch) = 0)%nat ->
  acks_ok (AckSystem (sendAck t ch v) f).
Proof.
  intros Hs [c Hc] Hz. unfold sendAck. rewrite Hc. destruct (Z.ltb_spec (len (pc_acks c)) (pc_cap c)) as [Hlt|Hge].
  2: { destruct Hs as [H1 H2 H3 H4 H5 H6 H7 H8 H9]. constructor; try done. intros c' _ Hc'.
       destruct (decide (c' = ch)) as [->|Hne]; [|by apply H9]. left. unfold answers, queuedAcks. cbn [y_table] in *. rewrite Hc.
       destruct (H5 ch c Hc) as [_ H1c]. intros [_ E]%app_eq_nil. rewrite E in Hge. unfold len in Hge. cbn [length] in Hge. lia. }
  set (t' := set_chans _ _).
  assert (Hans : forall c', answers (AckSystem t' f) c' = if decide (c' = ch) then answers (AckSystem t f) c' ++ [v] else answers (AckSystem t f) c').
  { intros c'. unfold answers, queuedAcks, t'. cbn. destruct (decide (c' = ch)) as [->|Hne].
    - rewrite lookup_insert_eq, Hc. cbn. by rewrite app_assoc.
    - by rewrite lookup_insert_ne. }
  assert (Hcount : forall b c', countAnswers b (AckSystem t' f) c' =
    (countAnswers b (AckSystem t f) c' + if decide (c' = ch) then if Bool.eqb (am_Complete v) b then 1 else 0 else 0)%nat).
  { intros b c'. unfold countAnswers. rewrite Hans. destruct (decide (c' = ch)); [|lia]. rewrite countList_app. f_equal.
    unfold countList. cbn [List.filter]. by destruct (Bool.eqb (am_Complete v) b). }
  assert (Hsome : forall c', is_Some (k_chans t' !! c') <-> is_Some (k_chans t !! c')).
  { intros c'. cbn. rewrite lookup_insert_is_Some'. split; [intros [<-|?]; [rewrite Hc; eauto|done]|auto]. }
  destruct Hs as [H1 H2 H3 H4 H5 H6 H7 H8 H9]. constructor; cbn [y_table y_received] in *; try done.
  - intros id tm [Hid Htm]%H3. split; [done|]. intros c' Hc'. by apply Hsome, Htm.
  - intros c' Hc'%H4. by apply Hsome.
  - intros c' x. cbn. destruct (decide (c' = ch)) as [->|Hne].
    + rewrite lookup_insert_eq. intros [= <-]. by apply (H5 ch c).
    + rewrite lookup_insert_ne by done. apply H5.
  - intros c' Hn. apply H6. apply eq_None_not_Some. intros Hx%Hsome. rewrite Hn in Hx. by destruct Hx.
  - intros c'. specialize (H7 c'). rewrite Hcount. change (ackSources t' c') with (ackSources t c').
    destruct (decide (c' = ch)) as [->|]; [|lia]. revert Hz. destruct (am_Complete v); cbn [Bool.eqb]; lia.
  - intros c'. specialize (H8 c'). rewrite Hcount. change (timeoutSources t' c') with (timeoutSources t c').
    destruct (decide (c' = ch)) as [->|]; [|lia]. revert Hz. destruct (am_Complete v); cbn [Bool.eqb]; lia.
  - intros c' _ Hc'%Hsome. rewrite Hans. destruct (decide (c' = ch)) as [->|Hne]; [left; by intros [_ ?]%app_eq_nil|].
    by apply H9.
Qed.

Lemma acks_ok_deliver t f i now : acks_ok (AckSystem t f) -> acks_ok (AckSystem (deliver t i now).1 f).
Proof.
  intros Hs. unfold deliver. destruct (k_flight t !! i) as [d|] eqn:Ed; [|done].
  destruct (acks_for_land t f i d Hs Ed) as (Hl & Ha & Ht). set (t1 := set_flight t (delete i (k_flight t))) in *.
  assert (Hin : d ∈ k_flight t) by by eapply list_elem_of_lookup_2.
  assert (Hfor : forall c, countAnswers true (AckSystem t1 f) c = countAnswers true (AckSystem t f) c /\
    countAnswers false (AckSystem t1 f) c = countAnswers false (AckSystem t f) c) by done.
  destruct d as [ah p ts|ch|o]; cbn [fst].
  - destruct (acks_for_stop _ t1 f (ah_timer ah) Hl) as [Hst Hsa].
    destruct (ao_flight _ _ Hs ah p ts Hin) as (tm & Htm & Hch). cbn [y_table] in Htm. revert Hch.
    destruct (ah_ackFn ah) as [ch|r] eqn:Ef; intros Hch; cbn [fst].
    + apply acks_ok_send.
      * eapply acks_for_weaken; [|exact Hst]. intros c Hne. split; [split; [|done]|].
        -- cbn. unfold toChannel. rewrite Ef. apply Z.eqb_neq. congruence.
        -- intros tm' Htm'. change (k_timers t1) with (k_timers t) in Htm'. congruence.
      * unfold stopAckTimer. change (k_timers t1) with (k_timers t). rewrite Htm. change (is_Some (k_chans t !! ch)).
        by apply (ao_timers _ _ Hs _ _ Htm).
      * cbn [am_Complete]. rewrite Hsa. pose proof (ao_acks _ _ Hs ch) as H7. cbn [y_table] in H7. rewrite Ha in H7.
        assert (E : ackInFlight ch (RunAck ah p ts) = true) by (cbn; unfold toChannel; rewrite Ef; apply Z.eqb_refl).
        rewrite E in H7. assert (Ec : countAnswers true (AckSystem (stopAckTimer t1 (ah_timer ah)) f) ch = countAnswers true (AckSystem t f) ch).
        { unfold stopAckTimer. by destruct (k_timers t1 !! ah_timer ah). }
        rewrite Ec. lia.
    + eapply acks_for_weaken; [|exact Hst]. intros c _. split; [split; [|done]|].
      * cbn. unfold toChannel. by rewrite Ef.
      * intros tm' Htm'. change (k_timers t1) with (k_timers t) in Htm'. congruence.
  - apply (acks_for_weaken _ (fun _ => True)) in Hl; [|done]. unfold sendNack. destruct ch as [ch|]; [|done].
    destruct (k_chans t1 !! ch) as [c|] eqn:Ec; [|done]. destruct (pc_nacks c <? pc_cap c); [|done].
    set (t2 := set_chans _ _).
    assert (Hans : forall c', answers (AckSystem t2 f) c' = answers (AckSystem t1 f) c').
    { intros c'. unfold answers, queuedAcks, t2. cbn [y_table y_received k_chans set_chans].
      destruct (decide (c' = ch)) as [->|Hne]; [by rewrite lookup_insert_eq, Ec|]. by rewrite lookup_insert_ne. }
    assert (Hsome : forall c', is_Some (k_chans t2 !! c') <-> is_Some (k_chans t1 !! c')).
    { intros c'. cbn [t2 k_chans set_chans]. rewrite lookup_insert_is_Some'. split; [intros [<-|?]; [rewrite Ec; eauto|done]|auto]. }
    destruct Hl as [H1 H2 H3 H4 H5 H6 H7 H8 H9]. constructor; cbn [y_table y_received] in *; try done.
    + intros id tm [Hid Htm]%H3. split; [done|]. intros c' Hc'. by apply Hsome, Htm.
    + intros c' Hc'%H4. by apply Hsome.
    + intros c' x. cbn [t2 k_chans set_chans]. destruct (decide (c' = ch)) as [->|Hne].
      * rewrite lookup_insert_eq. intros [= <-]. by apply (H5 ch c).
      * rewrite lookup_insert_ne by done. apply H5.
    + intros c' Hn. apply H6. apply eq_None_not_Some. intros Hx%Hsome. rewrite Hn in Hx. by destruct Hx.
    + intros c'. unfold countAnswers. rewrite Hans. apply H7.
    + intros c'. unfold countAnswers. rewrite Hans. apply H8.
    + intros c' _ Hc'%Hsome. rewrite Hans. by apply H9.
  - destruct o as [ch|]; cbn [fst].
    + apply acks_ok_send.
      * eapply acks_for_weaken; [|exact Hl]. intros c Hne. split; [done|]. cbn. apply Z.eqb_neq. congruence.
      * by apply (ao_timeouts _ _ Hs).
      * cbn [am_Complete]. pose proof (ao_expiries _ _ Hs ch) as H8. cbn [y_table] in H8. rewrite Ht in H8.
        assert (E : timeoutInFlight ch (RunTimeout (Some ch)) = true) by apply Z.eqb_refl. rewrite E in H8.
        destruct (Hfor ch) as [_ ->]. lia.
    + eapply acks_for_weaken; [|exact Hl]. done.
Qed.

Lemma acks_ok_receive t f ch v t' :
  acks_ok (AckSystem t f) -> receiveAck t ch = Some (v, t') -> acks_ok (AckSystem t' (received f ch v)).
Proof.
  intros Hs. unfold receiveAck. destruct (k_chans t !! ch) as [c|] eqn:Ec; [|done]. cbn [mbind option_bind].
  destruct (pc_acks c) as [|v' acks] eqn:Ea; [done|]. intros [= -> <-]. set (t' := set_chans _ _).
  assert (Hans : forall c', answers (AckSystem t' (received f ch v)) c' = answers (AckSystem t f) c').
  { intros c'. unfold answers, queuedAcks, received, t'. cbn [y_table y_received k_chans set_chans].
    destruct (decide (c' = ch)) as [->|Hne].
    - rewrite lookup_insert_eq, Ec, Ea. cbn [pc_acks]. by rewrite <- app_assoc.
    - by rewrite lookup_insert_ne. }
  assert (Hsome : forall c', is_Some (k_chans t' !! c') <-> is_Some (k_chans t !! c')).
  { intros c'. cbn [t' k_chans set_chans]. rewrite lookup_insert_is_Some'. split; [intros [<-|?]; [rewrite Ec; eauto|done]|auto]. }
  destruct Hs as [H1 H2 H3 H4 H5 H6 H7 H8 H9]. constructor; cbn [y_table y_received] in *; try done.
  - intros id tm [Hid Htm]%H3. split; [done|]. intros c' Hc'. by apply Hsome, Htm.
  - intros c' Hc'%H4. by apply Hsome.
  - intros c' x. cbn [t' k_chans set_chans]. destruct (decide (c' = ch)) as [->|Hne].
    + rewrite lookup_insert_eq. intros [= <-]. by apply (H5 ch c).
    + rewrite lookup_insert_ne by done. apply H5.
  - intros c' Hn. assert (Hne : c' <> ch). { intros ->. apply eq_None_not_Some in Hn. apply Hn, Hsome. rewrite Ec. eauto. }
    unfold received. rewrite decide_False by done. apply H6. apply eq_None_not_Some. intros Hx%Hsome. rewrite Hn in Hx. by destruct Hx.
  - intros c'. unfold countAnswers. rewrite Hans. apply H7.
  - intros c'. unfold countAnswers. rewrite Hans. apply H8.
  - intros c' _ Hc'%Hsome. rewrite Hans. by apply H9.
Qed.

(** What is put back counts as given once. *)
Lemma acks_ok_requeue t f ch v l t' :
  acks_ok (AckSystem t f) -> f ch = l ++ [v] -> requeueAck t ch v = Some t' ->
  acks_ok (AckSystem t' (fun c => if decide (c = ch) then l else f c)).
Proof.
  intros Hs Hf. unfold requeueAck. destruct (k_chans t !! ch) as [c|] eqn:Ec; [|done]. cbn [mbind option_bind].
  destruct (_ <? _); [|done]. intros [= <-]. set (t' := set_chans _ _). set (f' := fun c' => if decide (c' = ch) then l else f c').
  assert (Hans : forall c', Permutation (answers (AckSystem t' f') c') (answers (AckSystem t f) c')).
  { intros c'. unfold answers, queuedAcks, f', t'. cbn [y_table y_received k_chans set_chans].
    destruct (decide (c' = ch)) as [->|Hne]; [|by rewrite lookup_insert_ne].
    rewrite lookup_insert_eq, Ec, Hf. cbn [pc_acks]. rewrite <- app_assoc. apply Permutation_app_head, Permutation_app_comm. }
  assert (Hcount : forall b c', countAnswers b (AckSystem t' f') c' = countAnswers b (AckSystem t f) c').
  { intros b c'. unfold countAnswers, countList. apply Permutation_length. induction (Hans c'); cbn; repeat case_match; eauto using Permutation. }
  assert (Hsome : forall c', is_Some (k_chans t' !! c') <-> is_Some (k_chans t !! c')).
  { intros c'. cbn [t' k_chans set_chans]. rewrite lookup_insert_is_Some'. split; [intros [<-|?]; [rewrite Ec; eauto|done]|auto]. }
  destruct Hs as [H1 H2 H3 H4 H5 H6 H7 H8 H9]. constructor; cbn [y_table y_received] in *; try done.
  - intros id tm [Hid Htm]%H3. split; [done|]. intros c' Hc'. by apply Hsome, Htm.
  - intros c' Hc'%H4. by apply Hsome.
  - intros c' x. cbn [t' k_chans set_chans]. destruct (decide (c' = ch)) as [->|Hne].
    + rewrite lookup_insert_eq. intros [= <-]. by apply (H5 ch c).
    + rewrite lookup_insert_ne by done. apply H5.
  - intros c' Hn. assert (Hne : c' <> ch). { intros ->. apply eq_None_not_Some in Hn. apply Hn, Hsome. rewrite Ec. eauto. }
    unfold f'. rewrite decide_False by done. apply H6. apply eq_None_not_Some. intros Hx%Hsome. rewrite Hn in Hx. by destruct Hx.
  - intros c'. rewrite Hcount. apply H7.
  - intros c'. rewrite Hcount. apply H8.
  - intros c' _ Hc'%Hsome. destruct (H9 c' I Hc') as [Ha|Hp]; [left|by right]. intros E. apply Ha. apply Permutation_nil. by rewrite <- E, Hans.
Qed.

Lemma ackStep_ok s s' : acks_ok s -> ackStep s s' -> acks_ok s'.
Proof.
  intros Hs Hst. destruct Hst as [t f n timeout now Hn|t f r timeout now|t f ack ts|t f nack|t f id now|t f i now|t f ch v t' Hr|t f ch v l t' Hf Hr].
  - unfold startProbe, nextSeqNo.
    pose proof (acks_ok_channels _ n (acks_ok_seq _ _ (u32 (k_sequenceNum t + 1)) Hs) Hn) as H. cbn [y_table y_received] in H.
    destruct (makeChannels _ n) as [ch t1]. destruct H as (H & Hc & Ha & Hs1 & Hs2).
    apply (acks_ok_addHandler t1 f _ (AckToChannel ch)); [done|]. by intros ? [= <-].
  - unfold nextSeqNo. apply (acks_ok_addHandler _ f _ (AckRelay r)); [|done].
    eapply acks_for_weaken; [|exact (acks_ok_seq _ _ (u32 (k_sequenceNum t + 1)) Hs)]. done.
  - by apply (acks_ok_invoke (AckSystem t f)).
  - by apply (acks_ok_nack (AckSystem t f)).
  - by apply (acks_ok_fire (AckSystem t f)).
  - by apply acks_ok_deliver.
  - by eapply acks_ok_receive.
  - by eapply acks_ok_requeue.
Qed.

Lemma ackSteps_ok s s' : acks_ok s -> rtc ackStep s s' -> acks_ok s'.
Proof. intros Hs Hst. induction Hst; [done|]. eauto using ackStep_ok. Qed.

(** A delivery for a channel leaves a message in it. *)
Lemma deliver_answers t f i d ch now :
  acks_ok (AckSystem t f) -> is_Some (k_chans t !! ch) -> k_flight t !! i = Some d -> ackInFlight ch d || timeoutInFlight ch d = true ->
  answers (AckSystem (deliver t i now).1 f) ch <> [].
Proof.
  intros Hs [c Hc] Hi Hd.
  assert (Hsend : forall t' v, k_chans t' = k_chans t -> answers (AckSystem (sendAck t' ch v) f) ch <> []).
  { intros t' v E. unfold sendAck, answers, queuedAcks. rewrite E, Hc. cbn [y_table y_received].
    destruct (Z.ltb_spec (len (pc_acks c)) (pc_cap c)) as [|Hge]; intros [_ Hn]%app_eq_nil.
    - cbn [k_chans set_chans] in Hn. rewrite lookup_insert_eq in Hn. cbn [pc_acks] in Hn. by apply app_eq_nil in Hn as [_ ?].
    - rewrite E, Hc in Hn. rewrite Hn in Hge. destruct (ao_chans _ _ Hs ch c Hc) as [_ H1]. unfold len in Hge. cbn [length] in Hge. lia. }
  unfold deliver. rewrite Hi. destruct d as [ah p ts|o|o]; cbn [ackInFlight timeoutInFlight orb] in Hd; [|done|].
  - unfold toChannel in Hd. destruct (ah_ackFn ah) as [c'|]; [|done]. rewrite orb_false_r in Hd. apply Z.eqb_eq in Hd as ->.
    cbn [fst]. apply Hsend. unfold stopAckTimer. by destruct (k_timers _ !! _).
  - destruct o as [c'|]; [|done]. apply Z.eqb_eq in Hd as ->. cbn [fst]. by apply Hsend.
Qed.

Lemma countList_pos {A} (P : A -> bool) l : (0 < countList P l)%nat -> exists i x, l !! i = Some x /\ P x = true.
Proof.
  induction l as [|x l IH]; [cbn; lia|]. unfold countList. cbn [List.filter]. destruct (P x) eqn:E.
  - intros _. by exists 0%nat, x.
  - intros (i & y & ? & ?)%IH. by exists (S i), y.
Qed.

Lemma countMap_pos {A} (P : A -> bool) m : (0 < countMap P m)%nat -> exists k x, m !! k = Some x /\ P x = true.
Proof.
  intros H. destruct (decide (filter (fun kv => P kv.2 = true) m = ∅)) as [E|Hne].
  - unfold countMap in H. rewrite E, map_size_empty in H. lia.
  - apply map_choose in Hne as (k & x & Hx). apply map_lookup_filter_Some in Hx as [? ?]. by exists k, x.
Qed.

Lemma countList_split {A} (f : A -> bool) l :
  (countList (fun x => Bool.eqb (f x) true) l + countList (fun x => Bool.eqb (f x) false) l = length l)%nat.
Proof. unfold countList. induction l as [|x l IH]; [done|]. cbn. destruct (f x); cbn; lia. Qed.

(** A probe with one place whose ack and timeout race: the timeout is received
    first, and the ack lands before it is put back. *)
Definition racedTimeout : ackTable :=
  (deliver (fireAckTimer (invokeAckHandler (startProbe newAckTable 1 500 0) (MkAckResp 1 None) 499) 0 500) 1 500).1.
Definition racedAck : ackTable :=
  match receiveAck racedTimeout 0 with Some (_, t) => (deliver t 0 501).1 | None => racedTimeout end.

Lemma raced_reachable :
  rtc ackStep (AckSystem newAckTable (fun _ => [])) (AckSystem racedAck (received (fun _ => []) 0 (AckMessage false None 500))).
Proof.
  eapply rtc_l; [apply (step_probe _ _ 1 500 0); lia|]. eapply rtc_l; [apply (step_ack _ _ (MkAckResp 1 None) 499)|].
  eapply rtc_l; [apply (step_timer _ _ 0 500)|]. eapply rtc_l; [apply (step_deliver _ _ 1 500)|]. fold racedTimeout.
  unfold racedAck. destruct (receiveAck racedTimeout 0) as [[v t]|] eqn:E; [|vm_compute in E; discriminate].
  assert (v = AckMessage false None 500) as -> by (vm_compute in E; congruence).
  eapply rtc_l; [by apply step_receive|]. apply rtc_once, step_deliver.
Qed.

(** ** Properties *)

(** Whatever the order of acks, nacks, expiring timers, deliveries and
    receives, a probe's channel is given at most one ack and at most one
    timeout; while it has been given nothing, either a delivery is in flight
    that will leave a message in it, or its timer is armed: the prober that
    waits on it is answered. *)
Theorem probe_answered s ch :
  rtc ackStep (AckSystem newAckTable (fun _ => [])) s -> is_Some (k_chans (y_table s) !! ch) ->
  (countAnswers true s ch <= 1)%nat /\ (countAnswers false s ch <= 1)%nat /\
  (answers s ch = [] ->
     (exists i, forall now, answers (AckSystem (deliver (y_table s) i now).1 (y_received s)) ch <> []) \/
     (exists id tm due, k_timers (y_table s) !! id = Some tm /\ tm_due tm = Some due /\ tm_ackCh tm = Some ch)).
Proof.
  intros Hr Hch. pose proof (ackSteps_ok _ _ acks_ok_init Hr) as Hs. destruct s as [t f]. cbn [y_table y_received] in *.
  pose proof (ao_acks _ _ Hs ch). pose proof (ao_expiries _ _ Hs ch). split_and!; [lia..|]. intros Hno.
  destruct (ao_live _ _ Hs ch I Hch) as [?|Hp]; [done|]. cbn [y_table] in Hp. unfold timeoutSources in Hp.
  assert (Hc : (0 < countList (ackInFlight ch) (k_flight t) \/ 0 < countMap (timerFor ch) (k_timers t) \/
     0 < countList (timeoutInFlight ch) (k_flight t))%nat) by lia.
  destruct Hc as [(i & d & Hi & Hd)%countList_pos|[(id & tm & Hid & Htm)%countMap_pos|(i & d & Hi & Hd)%countList_pos]].
  - left. exists i. intros now. eapply deliver_answers; [done..|]. by rewrite Hd.
  - right. unfold timerFor in Htm. destruct (tm_due tm) as [due|] eqn:Ed, (tm_ackCh tm) as [c|] eqn:Ec; try done.
    apply Z.eqb_eq in Htm as ->. by exists id, tm, due.
  - left. exists i. intros now. eapply deliver_answers; [done..|]. by rewrite Hd, orb_true_r.
Qed.

(** A probe is started, its ack arrives, and the prober has not yet looked. *)
Lemma probe_answered_witness :
  let s := AckSystem (deliver (invokeAckHandler (startProbe newAckTable 4 500 0) (MkAckResp 1 None) 20) 0 20).1 (fun _ => []) in
  answers s 0 = [AckMessage true None 20] /\ (countAnswers true s 0 <= 1)%nat /\ (countAnswers false s 0 <= 1)%nat.
Proof.
  split; [vm_compute; reflexivity|].
  match goal with |- (countAnswers true ?s 0 <= 1)%nat /\ _ =>
    assert (Hr : rtc ackStep (AckSystem newAckTable (fun _ => [])) s) end.
  - eapply rtc_l; [apply (step_probe _ _ 4 500 0); lia|]. eapply rtc_l; [apply (step_ack _ _ (MkAckResp 1 None) 20)|].
    apply rtc_once. apply (step_deliver _ _ 0 20).
  - assert (Hch : is_Some (k_chans (deliver (invokeAckHandler (startProbe newAckTable 4 500 0) (MkAckResp 1 None) 20) 0 20).1 !! 0)).
    { eexists. vm_compute. reflexivity. }
    destruct (probe_answered _ 0 Hr Hch) as (H1 & H2 & _). exact (conj H1 H2).
Defined.

(** Acks find their probe by sequence number and only once: an ack for a
    number without a handler changes nothing, the first ack takes the handler
    away so that later ones change nothing, an ack leaves the handlers of
    other numbers alone, and once the timer of a handler has fired no ack with
    its number does anything. *)
Theorem ack_routing t ack ts :
  (k_ackHandlers t !! Ack_SeqNo ack = None -> invokeAckHandler t ack ts = t) /\
  (forall ah, k_ackHandlers t !! Ack_SeqNo ack = Some ah ->
     k_flight (invokeAckHandler t ack ts) = k_flight t ++ [RunAck ah (Ack_Payload ack) ts]) /\
  (forall ack' ts', Ack_SeqNo ack' = Ack_SeqNo ack ->
     invokeAckHandler (invokeAckHandler t ack ts) ack' ts' = invokeAckHandler t ack ts) /\
  (forall seqNo, seqNo <> Ack_SeqNo ack -> k_ackHandlers (invokeAckHandler t ack ts) !! seqNo = k_ackHandlers t !! seqNo) /\
  (forall id tm due now, k_timers t !! id = Some tm -> tm_due tm = Some due -> due <= now -> Ack_SeqNo ack = tm_seqNo tm ->
     let t' := fireAckTimer t id now in invokeAckHandler t' ack ts = t').
Proof.
  assert (Hnone : forall t ack ts, k_ackHandlers t !! Ack_SeqNo ack = None -> invokeAckHandler t ack ts = t)
    by (intros t0 a0 ts0 E; unfold invokeAckHandler; by rewrite E).
  split_and!.
  - apply Hnone.
  - intros ah E. unfold invokeAckHandler. by rewrite E.
  - intros ack' ts' E. apply Hnone. rewrite E. unfold invokeAckHandler.
    destruct (k_ackHandlers t !! Ack_SeqNo ack) eqn:Eh; [|done]. apply lookup_delete_eq.
  - intros seqNo Hne. unfold invokeAckHandler. destruct (k_ackHandlers t !! Ack_SeqNo ack) eqn:Eh; [|done].
    by apply lookup_delete_ne.
  - intros id tm due now Hid Hdue Hnow Hseq. apply Hnone. unfold fireAckTimer. rewrite Hid, Hdue, (proj2 (Z.leb_le _ _)) by done.
    rewrite Hseq. apply lookup_delete_eq.
Qed.

(** C31: A prober that was told of the timeout while it still waited for the
    direct ack puts the timeout back for its second wait. With a channel of
    two or more places there is always room, whatever else is delivered in
    between. With one place, as [IndirectChecks] of 0 makes it, an ack that was
    on its way can have taken it: then the send blocks, on a channel that only
    the prober itself receives from. *)
Theorem timeout_put_back :
  (forall s ch c v l, rtc ackStep (AckSystem newAckTable (fun _ => [])) s -> k_chans (y_table s) !! ch = Some c ->
     y_received s ch = l ++ [v] -> am_Complete v = false -> 2 <= pc_cap c -> is_Some (requeueAck (y_table s) ch v)) /\
  (exists s v, rtc ackStep (AckSystem newAckTable (fun _ => [])) s /\ y_received s 0 = [v] /\ am_Complete v = false /\
     requeueAck (y_table s) 0 v = None).
Proof.
  split.
  - intros s ch c v l Hr Hc Hrec Hv Hcap. pose proof (ackSteps_ok _ _ acks_ok_init Hr) as Hs.
    pose proof (ao_acks _ _ Hs ch) as Ha. pose proof (ao_expiries _ _ Hs ch) as He.
    unfold countAnswers, answers, queuedAcks in Ha, He. rewrite Hrec, Hc in Ha, He. rewrite !countList_app in Ha, He.
    assert (H1 : countList (fun w => Bool.eqb (am_Complete w) false) [v] = 1%nat) by (unfold countList; cbn; by rewrite Hv).
    pose proof (countList_split am_Complete (pc_acks c)) as Hsplit.
    unfold requeueAck. rewrite Hc. cbn [mbind option_bind]. rewrite (proj2 (Z.ltb_lt _ _)); [by eexists|]. unfold len. lia.
  - eexists _, (AckMessage false None 500). split; [exact raced_reachable|]. split_and!; vm_compute; reflexivity.
Qed.
