(* ===== verification/Net.v ===== *)
(** Packets, [src/net.go]: sending with piggybacked broadcasts, compression,
    checksum, encryption and label, and receiving: undoing those, dispatching
    on the message type, the two handoff queues and their handlers.

    [Net] is the node as the packet goroutines see it: the membership state of
    [State.v], the ack table of [Acks.v], the handoff queues and what has been
    given to the transport. The packet listener handles one packet at a time,
    so a packet is one step; the packet handler takes one queued message per
    step. [None] is a panic. The application's delegates and the transport are
    the classes [Delegates] and [Transport]; the nonces are the parameter
    [nonceAt], numbered in the order they are drawn. *)

From S2P Require Import Prelude Msgpack Wire Timing Treap Queue NetAddr Nodes Events Packet State Security Checksum HostPort Acks.

(** ** Configuration *)

Section Config.
Context {GC : GCM}.

(** The fields of [Config] the network code reads, and the packet budget. *)
Record NetConfig := MkNetConfig {
  nc_Label : string;
  nc_SkipInboundLabelCheck : bool;
  nc_Keyring : option Keyring;
  nc_GossipVerifyIncoming : bool;
  nc_GossipVerifyOutgoing : bool;
  nc_EnableCompression : bool;
  nc_RequireNodeNames : bool;
  nc_BindPort : Z;
  nc_HandoffQueueDepth : Z;
  nc_packetBufferSize : Z;
  nc_ProbeTimeout : Z;
  nc_Delegate : bool;
  nc_Ping : bool;
  nc_Merge : bool;
}.

Definition EncryptionEnabled (nc : NetConfig) : bool :=
  match nc_Keyring nc with
  | Some k => len (view k (GetKeys k)) >? 0
  | None => false
  end.
End Config.

(** ** Interfaces *)

(** An address: host and port as text, and the node's name. *)
Definition PeerAddress : Type := bytes * string.

(** A transport error: [OpError] is a [*net.OpError]. *)
Inductive transportError := OpError (net op : string) | OtherError (text : string).

(** What the [n]th write of a packet answers. *)
Class Transport := { WriteToAddress : Z -> PeerAddress -> bytes -> option transportError }.

(** A node as the merge delegate is shown it; its state is the number the peer
    sent, whatever that is. *)
Record mergeNodeInfo := MergeNodeInfo {
  mn_Name : string;
  mn_Addr : slice;
  mn_Port : Z;
  mn_Meta : slice;
  mn_State : Z;
  mn_Vsn : vsnArray;
}.

(** The application behind [Delegate], [PingDelegate] and [MergeDelegate], with
    its state; [false] of [NotifyMerge] is an error. *)
Class Delegates (D : Type) := {
  DelegateGetBroadcasts : Z -> Z -> D -> list bytes * D;
  DelegateNotifyMsg : bytes -> D -> D;
  DelegateLocalState : bool -> D -> bytes * D;
  DelegateMergeRemoteState : bytes -> bool -> D -> D;
  DelegateAckPayload : D -> slice * D;
  DelegateNotifyPingComplete : Node -> Z -> slice -> D -> D;
  DelegateNotifyMerge : list mergeNodeInfo -> D -> bool * D;
}.

Inductive sendError :=
| NodeNamesRequired
| BadAddress
| LabelFailed (e : labelError)
| WriteFailed (e : transportError).

Record msgHandoff := MsgHandoff { h_msgType : Z; h_buf : bytes; h_from : bytes }.

(** A goroutine that waits to send a nack, until its channel is closed. *)
Record nackWait := NackWait { nw_SeqNo : Z; nw_Addr : bytes; nw_Name : string }.

Definition crcOverhead : Z := 5.
Definition compoundHeaderOverhead : Z := 2.
Definition compoundOverhead : Z := 2.
Definition userMsgOverhead : Z := 1.
Definition maxIncompressiblePacket : Z := 22.

Definition inCompound : Z := 1.
Definition inCompress : Z := 2.

Section Net.
Context {G : Type} {RG : Rand G} {ML : MathLog} {LZ : LZW} {GC : GCM} {TR : Transport} {D : Type} {DL : Delegates D}.
Context (cfg : Config) (nc : NetConfig) (nonceAt : Z -> bytes).

Record Net := MkNet {
  x_m : Memberlist (G := G);
  x_acks : ackTable;
  x_high : list msgHandoff;
  x_low : list msgHandoff;
  x_wake : bool;  (* [handoffCh] holds its one token *)
  x_advertise : slice * Z;
  x_delegate : D;
  x_nonces : Z;
  x_sent : list (PeerAddress * bytes);
  x_cancels : gmap Z bool;  (* the [cancelCh]s and whether each is closed *)
  x_nacks : gmap Z nackWait;
}.

Implicit Types x : Net.

Definition set_m x v := MkNet v (x_acks x) (x_high x) (x_low x) (x_wake x) (x_advertise x) (x_delegate x) (x_nonces x) (x_sent x) (x_cancels x) (x_nacks x).
Definition set_acks x v := MkNet (x_m x) v (x_high x) (x_low x) (x_wake x) (x_advertise x) (x_delegate x) (x_nonces x) (x_sent x) (x_cancels x) (x_nacks x).
Definition set_queues x hi lo w := MkNet (x_m x) (x_acks x) hi lo w (x_advertise x) (x_delegate x) (x_nonces x) (x_sent x) (x_cancels x) (x_nacks x).
Definition set_delegate x v := MkNet (x_m x) (x_acks x) (x_high x) (x_low x) (x_wake x) (x_advertise x) v (x_nonces x) (x_sent x) (x_cancels x) (x_nacks x).
Definition set_sent x n v := MkNet (x_m x) (x_acks x) (x_high x) (x_low x) (x_wake x) (x_advertise x) (x_delegate x) n v (x_cancels x) (x_nacks x).
Definition set_cancels x v w := MkNet (x_m x) (x_acks x) (x_high x) (x_low x) (x_wake x) (x_advertise x) (x_delegate x) (x_nonces x) (x_sent x) v w.

Definition ProtocolVersion : Z := c_ProtocolVersion cfg.

Definition encryptionVersion : Z := if ProtocolVersion =? 1 then 0 else 1.

(** ** Sending *)

(** [labelWrappedTransport.WriteToAddress] around the transport. *)
Definition writePacket x (a : PeerAddress) (buf : bytes) : result sendError unit * Net :=
  match AddLabelHeaderToPacket buf (nc_Label nc) with
  | Err e => (Err (LabelFailed e), x)
  | Ok wire =>
      (match WriteToAddress (len (x_sent x)) a wire with
       | Some e => Err (WriteFailed e)
       | None => Ok tt
       end, set_sent x (x_nonces x) (x_sent x ++ [(a, wire)]))
  end.

Definition shrink (msg : bytes) : bytes :=
  if nc_EnableCompression nc && (len msg >? maxIncompressiblePacket) then
    let buf := compressPayload msg in if len buf <? len msg then buf else msg
  else msg.

(** The checksum header for a peer that understands it. *)
Definition withCrc (node : option Node) (msg : bytes) : bytes :=
  match node with
  | Some n => if n_PMax n >=? 5 then z2b hasCrcMsg :: be 4 (ChecksumIEEE msg) ++ msg else msg
  | None => msg
  end.

Definition encrypting : bool := EncryptionEnabled nc && nc_GossipVerifyOutgoing nc.

Definition rawSendMsgPacket x (a : PeerAddress) (node : option Node) (msg : bytes)
    : option (result sendError unit * Net) :=
  if String.eqb a.2 "" && nc_RequireNodeNames nc then Some (Err NodeNamesRequired, x)
  else
    let msg := shrink msg in
    let lookup :=
      match node with
      | Some n => Ok (Some n)
      | None =>
          match SplitHostPort a.1 with
          | None => Err BadAddress
          | Some (toAddr, _) =>
              Ok (match nodeAt (x_m x) (b2str toAddr) with
                  | Some l => Some (st_Node (stateAt (x_m x) l))
                  | None => None
                  end)
          end
      end in
    match lookup with
    | Err e => Some (Err e, x)
    | Ok node =>
        let msg := withCrc node msg in
        if encrypting then
          k ← nc_Keyring nc;
          g ← primaryAEAD k;
          let sealed := sealPayload encryptionVersion g (nonceAt (x_nonces x)) msg (str2b (nc_Label nc)) [] in
          Some (writePacket (set_sent x (x_nonces x + 1) (x_sent x)) a sealed)
        else Some (writePacket x a msg)
    end.

(** [getBroadcasts] of [src/broadcast.go] *)
Definition frameUser (msg : bytes) : bytes := z2b userMsg :: msg.

Definition getBroadcasts x (overhead limit : Z) : option (list bytes * Net) :=
  let m := x_m x in
  '(q, toSend, finished, g) ← GetBroadcasts mb_msg (estNumNodes m) (m_rng m) (m_broadcasts m) overhead limit;
  let x := set_m x (set_queue m q finished g) in
  if nc_Delegate nc then
    let bytesUsed := fold_left (fun n msg => n + (len msg + overhead)) toSend 0 in
    let avail := limit - bytesUsed in
    if avail >? overhead + userMsgOverhead then
      let '(userMsgs, d) := DelegateGetBroadcasts (overhead + userMsgOverhead) avail (x_delegate x) in
      Some (toSend ++ map frameUser userMsgs, set_delegate x d)
    else Some (toSend, x)
  else Some (toSend, x).

Definition sendMsg x (a : PeerAddress) (msg : bytes) : option (result sendError unit * Net) :=
  let bytesAvail := nc_packetBufferSize nc - len msg - compoundHeaderOverhead - compoundOverhead - crcOverhead - labelOverhead (nc_Label nc) in
  bytesAvail ← (if encrypting then o ← encryptOverhead encryptionVersion; Some (bytesAvail - o) else Some bytesAvail);
  '(extra, x) ← getBroadcasts x compoundOverhead bytesAvail;
  match extra with
  | [] => rawSendMsgPacket x a None msg
  | _ => rawSendMsgPacket x a None (makeCompoundMessage (msg :: extra))
  end.

Definition encodeAndSendMsg x (a : PeerAddress) (msgType : Z) (msg : message) : option (result sendError unit * Net) :=
  sendMsg x a (encode msgType msg).

(** [SendToAddress] and [SendBestEffort] of [src/memberlist.go] *)
Definition SendToAddress x (a : PeerAddress) (msg : bytes) : option (result sendError unit * Net) :=
  rawSendMsgPacket x a None (frameUser msg).
Definition SendBestEffort x (to : Node) (msg : bytes) : option (result sendError unit * Net) :=
  rawSendMsgPacket x (FullAddress to) (Some to) (frameUser msg).

(** A send whose error is only logged. *)
Definition sendLogged (r : option (result sendError unit * Net)) : option Net := '(_, x) ← r; Some x.

(** ** Handlers that run on the packet listener *)

(** Where an answer goes: the address in the message, or the packet's. *)
Definition replyAddr (sourceAddr : slice) (sourcePort : Z) (from : bytes) : bytes :=
  if (len (slice_bytes sourceAddr) >? 0) && (sourcePort >? 0)
  then joinHostPort (ipString (slice_bytes sourceAddr)) sourcePort
  else from.

Definition handlePing x (buf from : bytes) : option Net :=
  match decode KPing buf with
  | Ok (MPing p) =>
      if negb (String.eqb (Ping_Node p) "") && negb (String.eqb (Ping_Node p) (c_Name cfg)) then Some x
      else
        let '(payload, x) :=
          if nc_Ping nc then let '(b, d) := DelegateAckPayload (x_delegate x) in (b, set_delegate x d) else (None, x) in
        let a := (replyAddr (Ping_SourceAddr p) (Ping_SourcePort p) from, Ping_SourceNode p) in
        sendLogged (encodeAndSendMsg x a ackRespMsg (MAckResp (MkAckResp (Ping_SeqNo p) payload)))
  | _ => Some x
  end.

(** The port of an old message, or of one that names none. *)
Definition portOrBind (port : Z) : Z :=
  if (ProtocolVersion <? 2) || (port =? 0) then u16 (nc_BindPort nc) else port.

Definition handleIndirectPing x (buf from : bytes) (now : Z) : option Net :=
  match decode KIndirectPingReq buf with
  | Ok (MIndirectPingReq ind) =>
      let port := portOrBind (Ind_Port ind) in
      let '(localSeqNo, t) := nextSeqNo (x_acks x) in
      let '(selfAddr, selfPort) := x_advertise x in
      let ping := MkPing localSeqNo (Ind_Node ind) selfAddr selfPort (c_Name cfg) in
      let indAddr := replyAddr (Ind_SourceAddr ind) (Ind_SourcePort ind) from in
      let cancelCh := fresh (dom (x_cancels x)) in
      let x := set_cancels x (<[cancelCh := false]> (x_cancels x)) (x_nacks x) in
      let r := Relay (Ind_SeqNo ind) indAddr (Ind_SourceNode ind) cancelCh in
      let x := set_acks x (setAckHandler t localSeqNo r (nc_ProbeTimeout nc) now) in
      let a := (joinHostPort (ipString (slice_bytes (Ind_Target ind))) port, Ind_Node ind) in
      x ← sendLogged (encodeAndSendMsg x a pingMsg (MPing ping));
      Some (if Ind_Nack ind then
              set_cancels x (x_cancels x) (<[cancelCh := NackWait (Ind_SeqNo ind) indAddr (Ind_SourceNode ind)]> (x_nacks x))
            else x)
  | _ => Some x
  end.

(** The waiting goroutine of an indirect ping: it saw its channel closed, or
    its time is up; when both happened, either. *)
Definition finishNack x (cancelCh : Z) (sawCancel : bool) : option Net :=
  match x_nacks x !! cancelCh with
  | None => Some x
  | Some w =>
      if sawCancel && negb (default false (x_cancels x !! cancelCh)) then Some x
      else
        let x := set_cancels x (x_cancels x) (delete cancelCh (x_nacks x)) in
        if sawCancel then Some x
        else sendLogged (encodeAndSendMsg x (nw_Addr w, nw_Name w) nackRespMsg (MNackResp (MkNackResp (nw_SeqNo w))))
  end.

(** [close] panics on a closed channel. *)
Definition closeCancel x (cancelCh : Z) : option Net :=
  match x_cancels x !! cancelCh with
  | Some false => Some (set_cancels x (<[cancelCh := true]> (x_cancels x)) (x_nacks x))
  | _ => None
  end.

(** The relaying ack function. *)
Definition runRelay x (r : relay) : option Net :=
  x ← closeCancel x (r_cancel r);
  sendLogged (encodeAndSendMsg x (r_Addr r, r_Name r) ackRespMsg (MAckResp (MkAckResp (r_SeqNo r) None))).

(** The handler found is run at once, on this goroutine. *)
Definition handleAck x (buf from : bytes) (timestamp now : Z) : option Net :=
  match decode KAckResp buf with
  | Ok (MAckResp ack) =>
      let i := length (k_flight (x_acks x)) in
      let '(t, r) := deliver (invokeAckHandler (x_acks x) ack timestamp) i now in
      let x := set_acks x t in
      match r with
      | Some r => runRelay x r
      | None => Some x
      end
  | _ => Some x
  end.

Definition handleNack x (buf from : bytes) (now : Z) : option Net :=
  match decode KNackResp buf with
  | Ok (MNackResp nack) =>
      let i := length (k_flight (x_acks x)) in
      Some (set_acks x (deliver (invokeNackHandler (x_acks x) nack) i now).1)
  | _ => Some x
  end.

(** ** Dispatch *)

(** The handoff queues, and the wake-up token of the packet handler. *)
Definition handoff x (msgType : Z) (buf from : bytes) : Net :=
  let m := MsgHandoff msgType buf from in
  if msgType =? aliveMsg then
    set_queues x (if len (x_high x) >=? nc_HandoffQueueDepth nc then x_high x else x_high x ++ [m]) (x_low x) true
  else
    set_queues x (x_high x) (if len (x_low x) >=? nc_HandoffQueueDepth nc then x_low x else x_low x ++ [m]) true.

Section Parts.
Variable handlePart : Net -> bytes -> option Net.
Fixpoint handleParts x (parts : list bytes) : option Net :=
  match parts with
  | [] => Some x
  | part :: parts => x ← handlePart x part; handleParts x parts
  end.
End Parts.

(** Each level of [fuel] is an envelope opened; [handleCompound] and
    [handleCompressed] are the two branches that use one. *)
Fixpoint handleCommandIn (fuel : nat) x (buf from : bytes) (timestamp now env : Z) : option Net :=
  match buf with
  | [] => Some x
  | t :: buf =>
      let msgType := b2z t in
      if msgType =? compoundMsg then
        if negb (Z.land env inCompound =? 0) then Some x
        else
          match fuel with
          | O => None
          | S fuel =>
              match decodeCompoundMessage buf with
              | Err _ => Some x
              | Ok (_, parts) =>
                  handleParts (fun x part => handleCommandIn fuel x part from timestamp now (Z.lor env inCompound)) x parts
              end
          end
      else if msgType =? compressMsg then
        if negb (Z.land env inCompress =? 0) then Some x
        else
          match fuel with
          | O => None
          | S fuel =>
              match decompressPayload buf with
              | Err _ => Some x
              | Ok payload => handleCommandIn fuel x payload from timestamp now (Z.lor env inCompress)
              end
          end
      else if msgType =? pingMsg then handlePing x buf from
      else if msgType =? indirectPingMsg then handleIndirectPing x buf from now
      else if msgType =? ackRespMsg then handleAck x buf from timestamp now
      else if msgType =? nackRespMsg then handleNack x buf from now
      else if (msgType =? suspectMsg) || (msgType =? aliveMsg) || (msgType =? deadMsg) || (msgType =? userMsg)
      then Some (handoff x msgType buf from)
      else Some x
  end.

(** Two envelopes at most. *)
Definition handleCommand x (buf from : bytes) (timestamp now : Z) : option Net :=
  handleCommandIn 2 x buf from timestamp now 0.

(** Removing label and encryption: what is left of a packet, if anything. *)
Definition openPacket (buf : bytes) : option bytes :=
  match RemoveLabelHeaderFromPacket buf with
  | Err _ => None
  | Ok (buf, packetLabel) =>
      if nc_SkipInboundLabelCheck nc && negb (String.eqb packetLabel "") then None
      else
        let packetLabel := if nc_SkipInboundLabelCheck nc then nc_Label nc else packetLabel in
        if negb (String.eqb (nc_Label nc) packetLabel) then None
        else if EncryptionEnabled nc then
          match nc_Keyring nc with
          | None => None
          | Some k =>
              match openPayload (getAEADs k) buf (str2b packetLabel) with
              | Ok plain => Some plain
              | Err _ => if negb (nc_GossipVerifyIncoming nc) then Some buf else None
              end
          end
        else Some buf
  end.

(** The checksum, if there is one. *)
Definition checkCrc (buf : bytes) : option bytes :=
  if (len buf >=? 5) && (b2z (List.hd (z2b 0) buf) =? hasCrcMsg) then
    let crc := ChecksumIEEE (drop 5 buf) in
    let expected := be_value (take 4 (drop 1 buf)) in
    if negb (crc =? expected) then None else Some (drop 5 buf)
  else Some buf.

Definition ingestPacket x (buf from : bytes) (timestamp now : Z) : option Net :=
  match openPacket buf with
  | None => Some x
  | Some buf =>
      match checkCrc buf with
      | None => Some x
      | Some buf => handleCommand x buf from timestamp now
      end
  end.

(** ** The packet handler *)

Definition getNextMessage x : option (msgHandoff * Net) :=
  match last (x_high x) with
  | Some m => Some (m, set_queues x (take (length (x_high x) - 1) (x_high x)) (x_low x) (x_wake x))
  | None =>
      match last (x_low x) with
      | Some m => Some (m, set_queues x (x_high x) (take (length (x_low x) - 1) (x_low x)) (x_wake x))
      | None => None
      end
  end.

Definition handleSuspect x (buf from : bytes) (now : Z) : option Net :=
  match decode KSuspect buf with
  | Ok (MSuspect sus) => m ← suspectNode cfg (x_m x) sus now; Some (set_m x m)
  | _ => Some x
  end.

Definition handleAlive x (buf from : bytes) (now : Z) : option Net :=
  if negb (ensureCanConnect (c_CIDRsAllowed cfg) from) then Some x
  else
    match decode KAlive buf with
    | Ok (MAlive live) =>
        if IPMustBeChecked (c_CIDRsAllowed cfg) &&
           match Alive_Addr live with Some ip => negb (IPAllowed (c_CIDRsAllowed cfg) ip) | None => false end
        then Some x
        else
          let live := MkAlive (Alive_Incarnation live) (Alive_Node live) (Alive_Addr live)
                        (portOrBind (Alive_Port live)) (Alive_Meta live) (Alive_Vsn live) in
          m ← aliveNode cfg (x_m x) live false now; Some (set_m x m)
    | _ => Some x
    end.

Definition handleDead x (buf from : bytes) (now : Z) : option Net :=
  match decode KDead buf with
  | Ok (MDead d) => m ← deadNode cfg (x_m x) d now; Some (set_m x m)
  | _ => Some x
  end.

Definition handleUser x (buf from : bytes) : Net :=
  if nc_Delegate nc then set_delegate x (DelegateNotifyMsg buf (x_delegate x)) else x.

Definition handleQueued x (msg : msgHandoff) (now : Z) : option Net :=
  let '(MsgHandoff msgType buf from) := msg in
  if msgType =? suspectMsg then handleSuspect x buf from now
  else if msgType =? aliveMsg then handleAlive x buf from now
  else if msgType =? deadMsg then handleDead x buf from now
  else if msgType =? userMsg then Some (handleUser x buf from)
  else Some x.

(** The inner loop of [packetHandler], which runs when the token is taken;
    [nows] are the times of its rounds. *)
Fixpoint drainLoop (nows : list Z) x : option Net :=
  match nows with
  | [] => Some x
  | now :: nows =>
      match getNextMessage x with
      | None => Some x
      | Some (msg, x) => x ← handleQueued x msg now; drainLoop nows x
      end
  end.
Definition packetHandler x (nows : list Z) : option Net :=
  if x_wake x then drainLoop nows (set_queues x (x_high x) (x_low x) false) else Some x.
End Net.

(** ** Specification *)

(** Only the broadcast queue was used: entries went out, none came in. *)
Definition onlyQueue {G} (m m' : Memberlist (G := G)) : Prop :=
  exists q f g, m' = set_queue m q f g /\ (queue_ok (m_broadcasts m) -> queue_ok q) /\
    q_idGen q = q_idGen (m_broadcasts m).

Section Spec.
Context {G : Type} {RG : Rand G} {ML : MathLog} {LZ : LZW} {GC : GCM} {TR : Transport} {D : Type} {DL : Delegates D}.
Context (cfg : Config) (nc : NetConfig).
Implicit Types x : Net (G := G) (D := D).

(** What sending may change. *)
Record transmits x x' : Prop := {
  tr_m : onlyQueue (x_m x) (x_m x');
  tr_acks : x_acks x' = x_acks x;
  tr_high : x_high x' = x_high x;
  tr_low : x_low x' = x_low x;
  tr_wake : x_wake x' = x_wake x;
  tr_advertise : x_advertise x' = x_advertise x;
  tr_cancels : x_cancels x' = x_cancels x;
  tr_nacks : x_nacks x' = x_nacks x;
  tr_sent : x_sent x `prefix_of` x_sent x';
}.

Definition keys_ok : Prop := forall k, nc_Keyring nc = Some k -> keyring_ok k.

(** The relaying handlers: each has its own cancel channel, still open, and
    none is waiting to run. *)
Record relays_ok (t : ackTable) (cancels : gmap Z bool) : Prop := {
  rl_open : forall seqNo ah r, k_ackHandlers t !! seqNo = Some ah -> ah_ackFn ah = AckRelay r ->
    cancels !! r_cancel r = Some false;
  rl_own : forall s1 s2 a1 a2 r1 r2, k_ackHandlers t !! s1 = Some a1 -> k_ackHandlers t !! s2 = Some a2 ->
    ah_ackFn a1 = AckRelay r1 -> ah_ackFn a2 = AckRelay r2 -> r_cancel r1 = r_cancel r2 -> s1 = s2;
  rl_flight : forall ah p ts r, RunAck ah p ts ∈ k_flight t -> ah_ackFn ah <> AckRelay r;
}.

Record net_ok x : Prop := {
  no_state : state_ok cfg (x_m x);
  no_relays : relays_ok (x_acks x) (x_cancels x);
  no_high : len (x_high x) <= Z.max 0 (nc_HandoffQueueDepth nc);
  no_low : len (x_low x) <= Z.max 0 (nc_HandoffQueueDepth nc);
}.
End Spec.

(** ** Lemmas: sending *)

Section Sending.
Context {G : Type} {RG : Rand G} {ML : MathLog} {LZ : LZW} {GC : GCM} {TR : Transport} {D : Type} {DL : Delegates D}.
Context (cfg : Config) (nc : NetConfig) (nonceAt : Z -> bytes).
Implicit Types x : Net (G := G) (D := D).

Lemma onlyQueue_refl (m : Memberlist (G := G)) : onlyQueue m m.
Proof.
  exists (m_broadcasts m), [], (m_rng m). split; [|done]. destruct m. unfold set_queue. cbn. by rewrite app_nil_r.
Qed.

Lemma onlyQueue_trans (m1 m2 m3 : Memberlist (G := G)) : onlyQueue m1 m2 -> onlyQueue m2 m3 -> onlyQueue m1 m3.
Proof.
  intros (q1 & f1 & g1 & -> & Hq1 & Hg1) (q2 & f2 & g2 & -> & Hq2 & Hg2). cbn in *. exists q2, (f1 ++ f2), g2. split.
  - unfold set_queue. cbn. by rewrite app_assoc.
  - split; [auto|congruence].
Qed.

Lemma transmits_refl x : transmits x x.
Proof. constructor; try done. apply onlyQueue_refl. Qed.

Lemma transmits_trans x1 x2 x3 : transmits x1 x2 -> transmits x2 x3 -> transmits x1 x3.
Proof.
  intros [] []. constructor; try congruence; [by eapply onlyQueue_trans|by etrans].
Qed.

Lemma onlyQueue_members (m m' : Memberlist (G := G)) : onlyQueue m m' -> members m' = members m.
Proof. by intros (q & f & g & -> & _). Qed.

Lemma onlyQueue_ok (m m' : Memberlist (G := G)) : onlyQueue m m' -> state_ok cfg m -> state_ok cfg m'.
Proof. intros (q & f & g & -> & Hq & _) [H1 H2 H3 H4]. constructor; try done. cbn. auto. Qed.

Lemma writePacket_transmits x a buf : transmits x (writePacket nc x a buf).2.
Proof.
  unfold writePacket. destruct (AddLabelHeaderToPacket buf (nc_Label nc)); [|apply transmits_refl].
  constructor; try done; [apply onlyQueue_refl|]. cbn. by apply prefix_app_r.
Qed.

Lemma primaryAEAD_some k : keyring_ok k -> (len (view k (GetKeys k)) >? 0) = true -> is_Some (primaryAEAD k).
Proof.
  intros Hk H. unfold primaryAEAD. rewrite (kr_aeads _ Hk). unfold keysOf. change (GetKeys k) with (k_keys k) in H.
  destruct (view k (k_keys k)); [done|]. by eexists.
Qed.

Lemma rawSendMsgPacket_total x a node msg : keys_ok nc ->
  exists r x', rawSendMsgPacket cfg nc nonceAt x a node msg = Some (r, x') /\ transmits x x'.
Proof.
  intros Hk. unfold rawSendMsgPacket. destruct (String.eqb a.2 "" && nc_RequireNodeNames nc); [eexists _, _; split; [done|apply transmits_refl]|].
  destruct (match node with Some n => Ok (Some n) | None => _ end) as [n|e]; [|eexists _, _; split; [done|apply transmits_refl]].
  destruct (encrypting nc) eqn:Ee.
  - unfold encrypting, EncryptionEnabled in Ee. destruct (nc_Keyring nc) as [k|] eqn:Ek; [|done].
    apply andb_prop in Ee as [Ee _]. cbn [mbind option_bind]. destruct (primaryAEAD_some k (Hk k Ek) Ee) as [g ->]. cbn [mbind option_bind].
    match goal with |- exists r x', Some (writePacket nc ?y a ?b) = _ /\ _ =>
      exists (writePacket nc y a b).1, (writePacket nc y a b).2; split; [by destruct (writePacket nc y a b)|];
      eapply (transmits_trans _ y); [|apply writePacket_transmits] end.
    constructor; try done. apply onlyQueue_refl.
  - match goal with |- exists r x', Some (writePacket nc ?y a ?b) = _ /\ _ =>
      exists (writePacket nc y a b).1, (writePacket nc y a b).2; split; [by destruct (writePacket nc y a b)|];
      apply writePacket_transmits end.
Qed.

Lemma getBroadcasts_total x overhead limit : queue_ok (m_broadcasts (x_m x)) -> 0 <= overhead ->
  exists msgs x', getBroadcasts nc x overhead limit = Some (msgs, x') /\ transmits x x'.
Proof.
  intros Hq Ho. unfold getBroadcasts.
  destruct (GetBroadcasts_ok mb_msg (estNumNodes (x_m x)) (m_rng (x_m x)) (m_broadcasts (x_m x)) overhead limit Hq Ho)
    as (q' & g' & sent & rest & -> & Hq' & _ & _ & _ & _ & _ & Hg). cbn [mbind option_bind].
  set (f := map lb_b _). clearbody f.
  assert (Ht : transmits x (set_m x (set_queue (x_m x) q' f g'))).
  { constructor; try done. by exists q', f, g'. }
  destruct (nc_Delegate nc); [|by eexists _, _]. destruct (_ >? overhead + userMsgOverhead); [|by eexists _, _].
  destruct (DelegateGetBroadcasts _ _ _) as [u d]. eexists _, _. split; [done|]. eapply transmits_trans; [exact Ht|].
  constructor; try done. apply onlyQueue_refl.
Qed.

Lemma encryptOverhead_some : is_Some (encryptOverhead (encryptionVersion cfg)).
Proof. unfold encryptionVersion. destruct (ProtocolVersion cfg =? 1); by eexists. Qed.

Lemma sendMsg_total x a msg : keys_ok nc -> queue_ok (m_broadcasts (x_m x)) ->
  exists r x', sendMsg cfg nc nonceAt x a msg = Some (r, x') /\ transmits x x'.
Proof.
  intros Hk Hq. unfold sendMsg. set (avail := _ - labelOverhead _).
  assert (Hb : exists b, (if encrypting nc then o ← encryptOverhead (encryptionVersion cfg); Some (avail - o) else Some avail) = Some b).
  { destruct (encrypting nc); [|by eexists]. destruct encryptOverhead_some as [o ->]. by eexists. }
  destruct Hb as [b ->]. cbn [mbind option_bind].
  destruct (getBroadcasts_total x compoundOverhead b Hq) as (msgs & x1 & -> & H1); [done|]. cbn [mbind option_bind].
  destruct msgs as [|m msgs];
    [destruct (rawSendMsgPacket_total x1 a None msg Hk) as (r & x2 & -> & H2)
    |destruct (rawSendMsgPacket_total x1 a None (makeCompoundMessage (msg :: m :: msgs)) Hk) as (r & x2 & -> & H2)];
    exists r, x2; (split; [done|]); by eapply transmits_trans.
Qed.
End Sending.

(** ** Lemmas: handling packets *)

Lemma relays_mono t t' cancels :
  (forall seqNo ah, k_ackHandlers t' !! seqNo = Some ah -> k_ackHandlers t !! seqNo = Some ah) ->
  (forall ah p ts, RunAck ah p ts ∈ k_flight t' -> RunAck ah p ts ∈ k_flight t) ->
  relays_ok t cancels -> relays_ok t' cancels.
Proof. intros Hh Hf [H1 H2 H3]. constructor; eauto. Qed.

Lemma sendAck_frame t ch v : k_ackHandlers (sendAck t ch v) = k_ackHandlers t /\ k_flight (sendAck t ch v) = k_flight t.
Proof. unfold sendAck. destruct (k_chans t !! ch); [|done]. by destruct (_ <? _). Qed.

Lemma sendNack_frame t ch : k_ackHandlers (sendNack t ch) = k_ackHandlers t /\ k_flight (sendNack t ch) = k_flight t.
Proof. unfold sendNack. destruct ch as [ch|]; [|done]. destruct (k_chans t !! ch); [|done]. by destruct (_ <? _). Qed.

Lemma stopAckTimer_frame t id : k_ackHandlers (stopAckTimer t id) = k_ackHandlers t /\ k_flight (stopAckTimer t id) = k_flight t.
Proof. unfold stopAckTimer. by destruct (k_timers t !! id). Qed.

(** Running a delivery touches neither the handlers nor the other ones. *)
Lemma deliver_frame t i now :
  k_ackHandlers (deliver t i now).1 = k_ackHandlers t /\ k_flight (deliver t i now).1 = delete i (k_flight t).
Proof.
  unfold deliver. destruct (k_flight t !! i) as [d|] eqn:E; [|by rewrite delete_beyond].
  set (t1 := set_flight t (delete i (k_flight t))).
  destruct d as [ah p ts|o|[o|]]; cbn [fst]; [|apply (sendNack_frame t1)|apply (sendAck_frame t1)|done].
  destruct (stopAckTimer_frame t1 (ah_timer ah)) as [E1 E2].
  destruct (ah_ackFn ah); cbn [fst]; [|by rewrite E1, E2].
  destruct (sendAck_frame (stopAckTimer t1 (ah_timer ah)) ch (AckMessage true p ts)) as [-> ->]. by rewrite E1, E2.
Qed.

Lemma deliver_relay t i now r : (deliver t i now).2 = Some r ->
  exists ah p ts, k_flight t !! i = Some (RunAck ah p ts) /\ ah_ackFn ah = AckRelay r.
Proof.
  unfold deliver. destruct (k_flight t !! i) as [d|] eqn:E; [|done].
  destruct d as [ah p ts|o|[o|]]; try done. destruct (ah_ackFn ah) eqn:Ef; cbn [snd]; [done|]. intros [= ->]. eauto.
Qed.

Section Handling.
Context {G : Type} {RG : Rand G} {ML : MathLog} {LZ : LZW} {GC : GCM} {TR : Transport} {D : Type} {DL : Delegates D}.
Context (cfg : Config) (nc : NetConfig) (nonceAt : Z -> bytes) (Hk : keys_ok nc).
Implicit Types x : Net (G := G) (D := D).

(** What a packet may do before the packet handler runs. *)
Record handled x x' : Prop := {
  hd_ok : net_ok cfg nc x';
  hd_m : onlyQueue (x_m x) (x_m x');
  hd_high : x_high x `prefix_of` x_high x';
  hd_low : x_low x `prefix_of` x_low x';
}.

Lemma handled_refl x : net_ok cfg nc x -> handled x x.
Proof. intros Hx. constructor; try done. apply onlyQueue_refl. Qed.

Lemma handled_trans x1 x2 x3 : handled x1 x2 -> handled x2 x3 -> handled x1 x3.
Proof. intros [] []. constructor; try done; [by eapply onlyQueue_trans|by etrans..]. Qed.

Lemma transmits_handled x x' : net_ok cfg nc x -> transmits x x' -> handled x x'.
Proof.
  intros [H1 H2 H3 H4] [T1 T2 T3 T4 T5 T6 T7 T8 T9]. constructor; try done; [|by rewrite T3|by rewrite T4].
  constructor; [by eapply onlyQueue_ok|by rewrite T2, T7|by rewrite T3|by rewrite T4].
Qed.

Lemma sendLogged_total x a msgType msg : net_ok cfg nc x ->
  exists x', sendLogged (encodeAndSendMsg cfg nc nonceAt x a msgType msg) = Some x' /\ transmits x x'.
Proof.
  intros Hx. unfold sendLogged, encodeAndSendMsg.
  destruct (sendMsg_total cfg nc nonceAt x a (encode msgType msg) Hk) as (r & x' & -> & Ht); [apply (so_queue _ _ (no_state _ _ _ Hx))|].
  by exists x'.
Qed.

Lemma sendLogged_handled x a msgType msg : net_ok cfg nc x ->
  exists x', sendLogged (encodeAndSendMsg cfg nc nonceAt x a msgType msg) = Some x' /\ handled x x'.
Proof.
  intros Hx. destruct (sendLogged_total x a msgType msg Hx) as (x' & E & Ht). exists x'. split; [done|]. by apply transmits_handled.
Qed.

Lemma set_delegate_ok x d : net_ok cfg nc x -> net_ok cfg nc (set_delegate x d).
Proof. intros []. by constructor. Qed.

Lemma handlePing_total x buf from : net_ok cfg nc x -> exists x', handlePing cfg nc nonceAt x buf from = Some x' /\ handled x x'.
Proof.
  intros Hx. pose proof (handled_refl x Hx) as Hr. unfold handlePing.
  destruct (decode KPing buf) as [[p| | | | | | | | | | |]|]; try by exists x.
  destruct (negb _ && negb _); [by exists x|]. destruct (nc_Ping nc); [|by apply sendLogged_handled].
  destruct (DelegateAckPayload (x_delegate x)) as [b d].
  destruct (sendLogged_handled (set_delegate x d) (replyAddr (Ping_SourceAddr p) (Ping_SourcePort p) from, Ping_SourceNode p)
    ackRespMsg (MAckResp (MkAckResp (Ping_SeqNo p) b)) (set_delegate_ok x d Hx)) as (x' & E & H).
  exists x'. split; [done|]. eapply handled_trans; [|exact H]. constructor; try done; [by apply set_delegate_ok|apply onlyQueue_refl].
Qed.

(** A relay registered with a channel of its own. *)
Lemma relays_register t cancels seqNo r timeout now :
  relays_ok t cancels -> cancels !! r_cancel r = None ->
  relays_ok (setAckHandler t seqNo r timeout now) (<[r_cancel r := false]> cancels).
Proof.
  intros [H1 H2 H3] Hf.
  assert (Hne : forall s a r', k_ackHandlers t !! s = Some a -> ah_ackFn a = AckRelay r' -> r_cancel r <> r_cancel r').
  { intros s a r' Hs Ha E. pose proof (H1 s a r' Hs Ha) as Ho. rewrite <- E in Ho. congruence. }
  constructor; cbn.
  - intros s ah r'. destruct (decide (seqNo = s)) as [<-|Hs].
    + rewrite lookup_insert_eq. intros [= <-] [= ->]. by rewrite lookup_insert_eq.
    + rewrite (lookup_insert_ne _ seqNo s) by done. intros Hh Hr. rewrite lookup_insert_ne by eauto. eauto.
  - intros s1 s2 a1 a2 r1 r2. destruct (decide (seqNo = s1)) as [<-|Hs1], (decide (seqNo = s2)) as [<-|Hs2]; try done.
    + rewrite lookup_insert_eq, lookup_insert_ne by done. intros [= <-] Hh [= <-] Hr E. by destruct (Hne _ _ _ Hh Hr).
    + rewrite lookup_insert_eq, lookup_insert_ne by done. intros Hh [= <-] Hr [= <-] E. by destruct (Hne _ _ _ Hh Hr).
    + rewrite !lookup_insert_ne by done. apply H2.
  - apply H3.
Qed.

Lemma handleIndirectPing_total x buf from now : net_ok cfg nc x ->
  exists x', handleIndirectPing cfg nc nonceAt x buf from now = Some x' /\ handled x x'.
Proof.
  intros Hx. pose proof (handled_refl x Hx) as Hr. unfold handleIndirectPing.
  destruct (decode KIndirectPingReq buf) as [[|ind| | | | | | | | | |]|]; try by exists x.
  unfold nextSeqNo. destruct (x_advertise x) as [selfAddr selfPort].
  set (c := fresh (dom (x_cancels x))). set (indAddr := replyAddr _ _ _).
  match goal with |- context[sendLogged (encodeAndSendMsg _ _ _ ?y ?a ?t ?msg)] => set (x1 := y) end.
  assert (H1 : net_ok cfg nc x1).
  { destruct Hx as [A1 A2 A3 A4]. constructor; try done. apply (relays_register _ _ _ (Relay (Ind_SeqNo ind) indAddr (Ind_SourceNode ind) c)).
    - eapply relays_mono; [| |exact A2]; done.
    - apply not_elem_of_dom, is_fresh. }
  match goal with |- context[sendLogged (encodeAndSendMsg _ _ _ _ ?a ?t ?msg)] =>
    destruct (sendLogged_handled x1 a t msg H1) as (x2 & -> & H2) end. cbn [mbind option_bind].
  assert (H12 : handled x x2).
  { eapply handled_trans; [|exact H2]. constructor; try done. apply onlyQueue_refl. }
  destruct (Ind_Nack ind); [|by exists x2]. eexists. split; [done|]. destruct H12 as [[] ? ? ?]. by constructor.
Qed.

Lemma closed_relays t cancels r :
  relays_ok t cancels -> (forall seqNo ah r', k_ackHandlers t !! seqNo = Some ah -> ah_ackFn ah = AckRelay r' -> r_cancel r' <> r_cancel r) ->
  relays_ok t (<[r_cancel r := true]> cancels).
Proof.
  intros [H1 H2 H3] Hne. constructor; try done. intros seqNo ah r' Hh Hr.
  rewrite lookup_insert_ne; [eauto|]. intros E. by eapply Hne.
Qed.

Lemma handleAck_total x buf from ts now : net_ok cfg nc x ->
  exists x', handleAck cfg nc nonceAt x buf from ts now = Some x' /\ handled x x'.
Proof.
  intros Hx. pose proof (handled_refl x Hx) as Hr. unfold handleAck.
  destruct (decode KAckResp buf) as [[| |ack| | | | | | | | |]|]; try by exists x.
  set (i := length (k_flight (x_acks x))). set (t := invokeAckHandler (x_acks x) ack ts).
  destruct (deliver_frame t i now) as [Eh Ef]. pose proof (deliver_relay t i now) as Hd.
  destruct (deliver t i now) as [t' o]. cbn [fst snd] in *.
  pose proof (no_relays _ _ _ Hx) as Hrel.
  assert (Hinv : t = x_acks x \/ exists ah, k_ackHandlers (x_acks x) !! Ack_SeqNo ack = Some ah /\
    k_ackHandlers t = delete (Ack_SeqNo ack) (k_ackHandlers (x_acks x)) /\
    k_flight t = k_flight (x_acks x) ++ [RunAck ah (Ack_Payload ack) ts]).
  { unfold t, invokeAckHandler. destruct (k_ackHandlers (x_acks x) !! Ack_SeqNo ack) as [ah|] eqn:E; [|by left].
    right. by exists ah. }
  assert (Hflight : k_flight t' = k_flight (x_acks x)).
  { rewrite Ef. destruct Hinv as [->|(ah & _ & _ & ->)]; [rewrite delete_beyond; [done|by apply lookup_ge_None]|].
    rewrite delete_take_drop. unfold i. rewrite take_app_length, drop_ge by (rewrite length_app; cbn; lia). apply app_nil_r. }
  assert (Hsub : forall seqNo ah, k_ackHandlers t' !! seqNo = Some ah -> k_ackHandlers (x_acks x) !! seqNo = Some ah).
  { intros seqNo ah. rewrite Eh. destruct Hinv as [->|(ah0 & _ & -> & _)]; [done|]. by intros [_ ?]%lookup_delete_Some. }
  assert (Hrel' : relays_ok t' (x_cancels x)).
  { eapply relays_mono; [done| |exact Hrel]. by rewrite Hflight. }
  assert (H1 : net_ok cfg nc (set_acks x t')) by (destruct Hx; by constructor).
  assert (H01 : handled x (set_acks x t')) by (constructor; try done; apply onlyQueue_refl).
  destruct o as [r|]; [|by eexists]. destruct (Hd r eq_refl) as (ah & p & ts' & Hi & Hfn).
  destruct Hinv as [E|(ah0 & Hah & Hdel & Hfl)].
  { rewrite E in Hi. apply lookup_lt_Some in Hi. unfold i in Hi. lia. }
  rewrite Hfl in Hi. unfold i in Hi. rewrite list_lookup_middle in Hi by done. simplify_eq.
  unfold runRelay, closeCancel. change (x_cancels (set_acks x t')) with (x_cancels x).
  rewrite (rl_open _ _ Hrel _ _ _ Hah Hfn). cbn [mbind option_bind].
  set (y := set_cancels _ _ _).
  assert (Hy : net_ok cfg nc y).
  { destruct H1 as [A1 A2 A3 A4]. constructor; try done. cbn. apply closed_relays; [done|].
    intros seqNo ah' r' Hh Hr' E. pose proof (rl_own _ _ Hrel _ _ _ _ _ _ (Hsub _ _ Hh) Hah Hr' Hfn E) as ->.
    by rewrite Eh, Hdel, lookup_delete_eq in Hh. }
  destruct (sendLogged_handled y (r_Addr r, r_Name r) ackRespMsg (MAckResp (MkAckResp (r_SeqNo r) None)) Hy) as (x2 & -> & H2).
  eexists. split; [done|]. eapply handled_trans; [exact H01|]. eapply handled_trans; [|exact H2].
  constructor; try done. apply onlyQueue_refl.
Qed.

Lemma handleNack_total x buf from now : net_ok cfg nc x ->
  exists x', handleNack x buf from now = Some x' /\ handled x x'.
Proof.
  intros Hx. pose proof (handled_refl x Hx) as Hr. unfold handleNack.
  destruct (decode KNackResp buf) as [[| | |nack| | | | | | | |]|]; try by exists x.
  set (i := length (k_flight (x_acks x))). set (t := invokeNackHandler (x_acks x) nack).
  destruct (deliver_frame t i now) as [Eh Ef].
  assert (Hinv : k_ackHandlers t = k_ackHandlers (x_acks x) /\ (forall d, d ∈ k_flight t -> d ∈ k_flight (x_acks x) \/ exists ch, d = RunNack ch)).
  { unfold t, invokeNackHandler. destruct (k_ackHandlers (x_acks x) !! Nack_SeqNo nack) as [ah|]; [|by split; [|left]].
    destruct (ah_nackFn ah) as [ch|]; [|by split; [|left]]. split; [done|]. intros d [?|Hd]%elem_of_app; [by left|].
    apply list_elem_of_singleton in Hd. right. by exists ch. }
  eexists. split; [done|]. destruct Hinv as [Ht Hfl]. destruct Hx as [A1 A2 A3 A4].
  constructor; try done; [|apply onlyQueue_refl]. constructor; try done. eapply relays_mono; [| |exact A2]; cbn.
  - intros seqNo ah. by rewrite Eh, Ht.
  - intros ah p ts. rewrite Ef. intros Hin. destruct (Hfl (RunAck ah p ts)) as [?|[ch ?]]; [|done|done].
    eapply elem_of_submseteq; [exact Hin|]. apply sublist_submseteq, sublist_delete.
Qed.

Lemma handoff_handled x msgType buf from : net_ok cfg nc x -> handled x (handoff nc x msgType buf from).
Proof.
  intros [A1 A2 A3 A4]. unfold handoff.
  assert (Hq : forall (l : list msgHandoff) e, len l <= Z.max 0 (nc_HandoffQueueDepth nc) ->
    len (if len l >=? nc_HandoffQueueDepth nc then l else l ++ [e]) <= Z.max 0 (nc_HandoffQueueDepth nc) /\
    l `prefix_of` (if len l >=? nc_HandoffQueueDepth nc then l else l ++ [e])).
  { intros l e Hl. destruct (Z.geb_spec (len l) (nc_HandoffQueueDepth nc)); [done|]. rewrite len_app. change (len [e]) with 1.
    split; [lia|]. by apply prefix_app_r. }
  destruct (msgType =? aliveMsg).
  - destruct (Hq (x_high x) (MsgHandoff msgType buf from) A3). constructor; try done; apply onlyQueue_refl.
  - destruct (Hq (x_low x) (MsgHandoff msgType buf from) A4). constructor; try done; apply onlyQueue_refl.
Qed.

Lemma handleParts_total (f : Net (G := G) (D := D) -> bytes -> option (Net (G := G) (D := D))) x parts :
  (forall x part, net_ok cfg nc x -> exists x', f x part = Some x' /\ handled x x') ->
  net_ok cfg nc x -> exists x', handleParts f x parts = Some x' /\ handled x x'.
Proof.
  intros Hf. revert x. induction parts as [|p parts IH]; intros x Hx; cbn [handleParts]; [eauto using handled_refl|].
  destruct (Hf x p Hx) as (x1 & -> & H1). cbn [mbind option_bind]. destruct (IH x1 (hd_ok _ _ H1)) as (x2 & E & H2).
  exists x2. split; [done|]. by eapply handled_trans.
Qed.

(** How many more envelopes may be opened. *)
Definition envelopesLeft (env : Z) : nat :=
  (if Z.land env inCompound =? 0 then 1 else 0) + (if Z.land env inCompress =? 0 then 1 else 0).

Lemma envelope_compound env : (Z.land env inCompound =? 0) = true -> (S (envelopesLeft (Z.lor env inCompound)) = envelopesLeft env)%nat.
Proof.
  intros E. unfold envelopesLeft. rewrite E. rewrite !Z.land_lor_distr_l. change (Z.land inCompound inCompound) with 1.
  change (Z.land inCompound inCompress) with 0. apply Z.eqb_eq in E. rewrite E, Z.lor_0_r. done.
Qed.

Lemma envelope_compress env : (Z.land env inCompress =? 0) = true -> (S (envelopesLeft (Z.lor env inCompress)) = envelopesLeft env)%nat.
Proof.
  intros E. unfold envelopesLeft. rewrite E. rewrite !Z.land_lor_distr_l. change (Z.land inCompress inCompress) with 2.
  change (Z.land inCompress inCompound) with 0. apply Z.eqb_eq in E. rewrite E, Z.lor_0_r. by destruct (Z.land env inCompound =? 0).
Qed.

(** The branches that open no envelope. *)
Lemma plain_total x t buf from ts now : net_ok cfg nc x -> exists x',
  (if t =? pingMsg then handlePing cfg nc nonceAt x buf from
   else if t =? indirectPingMsg then handleIndirectPing cfg nc nonceAt x buf from now
   else if t =? ackRespMsg then handleAck cfg nc nonceAt x buf from ts now
   else if t =? nackRespMsg then handleNack x buf from now
   else if (t =? suspectMsg) || (t =? aliveMsg) || (t =? deadMsg) || (t =? userMsg)
   then Some (handoff nc x t buf from) else Some x) = Some x' /\ handled x x'.
Proof.
  intros Hx. destruct (t =? pingMsg); [by apply handlePing_total|]. destruct (t =? indirectPingMsg); [by apply handleIndirectPing_total|].
  destruct (t =? ackRespMsg); [by apply handleAck_total|]. destruct (t =? nackRespMsg); [by apply handleNack_total|].
  destruct (_ || _); [eexists; split; [done|]; by apply handoff_handled|eauto using handled_refl].
Qed.

Lemma handleCommandIn_total fuel x buf from ts now env :
  (envelopesLeft env <= fuel)%nat -> net_ok cfg nc x ->
  exists x', handleCommandIn cfg nc nonceAt fuel x buf from ts now env = Some x' /\ handled x x'.
Proof.
  revert x buf env. induction fuel as [|fuel IH]; intros x buf env Hf Hx; (destruct buf as [|t buf]; [eauto using handled_refl|]);
    pose proof (handled_refl x Hx) as Hr; cbn [handleCommandIn];
    (destruct (b2z t =? compoundMsg);
      [destruct (Z.land env inCompound =? 0) eqn:E; cbn [negb]; [|by exists x]|];
      [|destruct (b2z t =? compressMsg);
         [destruct (Z.land env inCompress =? 0) eqn:E; cbn [negb]; [|by exists x]|by apply plain_total]]).
  - unfold envelopesLeft in Hf. rewrite E in Hf. lia.
  - unfold envelopesLeft in Hf. rewrite E in Hf. lia.
  - destruct (decodeCompoundMessage buf) as [[tr parts]|]; [|by exists x]. apply handleParts_total; [|done].
    intros x0 part Hx0. apply IH; [|done]. pose proof (envelope_compound env E). lia.
  - destruct (decompressPayload buf) as [payload|]; [|by exists x]. apply IH; [|done]. pose proof (envelope_compress env E). lia.
Qed.

Lemma ingestPacket_total x buf from ts now : net_ok cfg nc x ->
  exists x', ingestPacket cfg nc nonceAt x buf from ts now = Some x' /\ handled x x'.
Proof.
  intros Hx. unfold ingestPacket. destruct (openPacket nc buf) as [b|]; [|eauto using handled_refl].
  destruct (checkCrc b) as [b'|]; [|eauto using handled_refl]. apply handleCommandIn_total; [done|done].
Qed.
End Handling.

(** ** Lemmas: the parts of a message *)

Definition firstByte (b : bytes) : option Z := b2z <$> head b.

Lemma firstByte_head b t : firstByte b = Some t -> exists c r, b = c :: r /\ b2z c = t.
Proof. destruct b as [|c r]; [done|]. intros [= <-]. eauto. Qed.

Lemma unlabelled buf t : firstByte buf = Some t -> t <> hasLabelMsg -> RemoveLabelHeaderFromPacket buf = Ok (buf, ""%string).
Proof.
  intros (c & r & -> & <-)%firstByte_head Hne. cbn [RemoveLabelHeaderFromPacket]. by rewrite (proj2 (Z.eqb_neq _ _) Hne).
Qed.

(** The label around a packet comes off. *)
Lemma label_removed label buf wire t :
  AddLabelHeaderToPacket buf label = Ok wire -> firstByte buf = Some t -> t <> hasLabelMsg ->
  RemoveLabelHeaderFromPacket wire = Ok (buf, label).
Proof.
  unfold AddLabelHeaderToPacket. destruct (String.eqb_spec label "") as [->|Hne]; [intros [= <-]; apply unlabelled|].
  destruct (Z.gtb_spec (len (str2b label)) LabelMaxSize) as [|Hl]; [done|]. intros [= <-] _ _. apply RemoveLabel_header.
  split; [|done]. destruct (str2b label) as [|c l] eqn:E; [|rewrite len_cons; pose proof (len_nonneg l); lia].
  apply (f_equal b2str) in E. by rewrite b2str_str2b in E.
Qed.

Lemma vsn_cases cfg : encryptionVersion cfg = 0 \/ encryptionVersion cfg = 1.
Proof. unfold encryptionVersion. destruct (_ =? 1); auto. Qed.

Lemma len_compressed `{LZW} msg : len (lzwCompress msg) <= len (compressPayload msg).
Proof.
  unfold compressPayload. rewrite encode_cons, len_cons. cbn [AppendMsgpack]. unfold Compress_AppendMsgpack, appendB.
  cbn [Compress_Buf AppendBytes]. rewrite len_app. pose proof (len_nonneg (appendRawHeader (AppendString (appendU (AppendMapHeader [] 2) "Algo" lzwAlgo) "Buf") (len (lzwCompress msg)))).
  cbn [Compress_Algo]. lia.
Qed.
