(* ===== verification/Streams.v ===== *)
(** Streams, [src/net.go]: framing, encryption and compression of stream
    messages, push/pull exchanges, user messages and stream pings.

    What a connection will deliver is a [source]: bytes and the error after
    them; the cutting into reads is dealt with in [Packet.v], where the label
    is removed, and the buffered reader hides it from there on. What is
    written is the bytes. Deadlines, dialling and closing are not modelled:
    an expired deadline is an error at the end of a source. *)

From S2P Require Import Prelude Msgpack Wire Timing Treap Queue NetAddr Nodes Events Packet State Security Checksum HostPort Acks Net.

(** ** Limits *)

Definition maxPushStateNodes : Z := 1024 * 1024.
Definition maxUserMsgBytes : Z := 20 * 1024 * 1024.
Definition maxPushPullRequests : Z := 128.
Definition maxStreamMessageBytes : Z := maxDecompressedBytes.
Definition maxCompressedStreamBytes : Z :=
  maxDecompressedBytes * 3 / 2 + maxDecompressedBytes / 1024 + Z.shiftl 64 10.

(** [io.LimitReader], and [limitedSource], which is the same on a buffered
    reader: at most [n] bytes, then EOF. *)
Definition limitedSource (s : source) (n : Z) : source :=
  if n <=? len (src_data s) then Source (take (Z.to_nat n) (src_data s)) EOF else s.

(** [bufio.Reader.ReadByte] *)
Definition readByteFrom (s : source) : result io_error (byte * source) :=
  match src_data s with
  | [] => Err (src_err s)
  | c :: data => Ok (c, Source data (src_err s))
  end.

(** [io.CopyN] *)
Definition copyN (s : source) (n : Z) : result io_error (bytes * source) :=
  if n <=? len (src_data s) then
    Ok (take (Z.to_nat n) (src_data s), Source (drop (Z.to_nat n) (src_data s)) (src_err s))
  else Err (src_err s).

Inductive streamError :=
| StreamIO (e : io_error)
| StateTooLarge (n : Z)
| StreamCrypto (e : securityError)
| EncryptionNotConfigured
| StateNotEncrypted
| EmptyMessage
| StreamDecode (e : error)
| StreamDecompress (e : decompressError)
| TooManyNodes (n : Z)
| UserStateTooLarge (n : Z)
| NamelessState (i : Z)
| UserMsgTooLarge (n : Z)
| ErrMessageTooLarge (n limit : Z)
| StreamWrite.

(** The error of a decoder, as the callers pass it on. *)
Definition decoding {A} (r : result error A) : result streamError A :=
  match r with Ok a => Ok a | Err e => Err (StreamDecode e) end.

Section Streams.
Context {LZ : LZW} {GC : GCM} (cfg : Config) (nc : NetConfig).

(** ** Writing *)

(** [None] is the nil cipher of a keyring without keys. *)
Definition encryptLocalState (nonce sendBuf : bytes) (streamLabel : string) : option bytes :=
  let encVsn := encryptionVersion cfg in
  let encLen := encryptedLength encVsn (len sendBuf) in
  let out := z2b encryptMsg :: be 4 (u32 encLen) in
  k ← nc_Keyring nc;
  g ← primaryAEAD k;
  Some (sealPayload encVsn g nonce sendBuf (out ++ str2b streamLabel) out).

(** What [rawSendMsgStream] writes, or why it writes nothing. *)
Definition streamBytes (nonce sendBuf : bytes) (streamLabel : string) : option (result streamError bytes) :=
  let sendBuf :=
    if nc_EnableCompression nc then
      let compBuf := compressPayload sendBuf in if len compBuf <? len sendBuf then compBuf else sendBuf
    else sendBuf in
  if encrypting nc then
    let n := encryptedLength (encryptionVersion cfg) (len sendBuf) in
    if n >? maxPushStateBytes then Some (Err (ErrMessageTooLarge n maxPushStateBytes))
    else crypt ← encryptLocalState nonce sendBuf streamLabel; Some (Ok crypt)
  else Some (Ok sendBuf).

(** The state of a node as it is pushed. *)
Definition localNode (s : nodeState) : PushNodeState :=
  let n := st_Node s in
  MkPushNodeState (n_Name n) (n_Addr n) (n_Port n) (n_Meta n) (st_Incarnation s) (stateNumber (n_State n))
    (vsnBytes (versions n)).

Definition encodeStates (states : list PushNodeState) (out : bytes) : bytes :=
  fold_left (fun out n => PushNodeState_AppendMsgpack n out) states out.

Definition pushPullMessage (localNodes : list PushNodeState) (join : bool) (userData : bytes) : bytes :=
  let out := [z2b pushPullMsg] in
  let out := PushPullHeader_AppendMsgpack (MkPushPullHeader (len localNodes) (len userData) join) out in
  encodeStates localNodes out ++ userData.

(** ** Reading *)

Definition decryptRemoteState (k : Keyring) (bufConn : source) (streamLabel : string) : result streamError bytes :=
  match copyN bufConn 4 with
  | Err e => Err (StreamIO e)
  | Ok (lenBytes, bufConn) =>
      let moreBytes := be_value lenBytes in
      if moreBytes >? maxPushStateBytes then Err (StateTooLarge moreBytes)
      else
        match copyN bufConn moreBytes with
        | Err e => Err (StreamIO e)
        | Ok (cipherBytes, _) =>
            let dataBytes := appendBytes (z2b encryptMsg :: lenBytes) (str2b streamLabel) in
            match openPayload (getAEADs k) cipherBytes dataBytes with
            | Ok plain => Ok plain
            | Err e => Err (StreamCrypto e)
            end
        end
  end.

(** A decoder positioned after the type byte of [b]. *)
Definition typedSlice (b : bytes) : result streamError (Z * decoder) :=
  match b with
  | [] => Err EmptyMessage
  | t :: rest => Ok (b2z t, NewDecoder rest)
  end.

(** The type and a decoder of what is under the encryption. *)
Definition readOuter (src : source) (streamLabel : string) : result streamError (Z * decoder) :=
  let bufConn := limitedSource src maxCompressedStreamBytes in
  match readByteFrom bufConn with
  | Err e => Err (StreamIO e)
  | Ok (b, bufConn) =>
      let msgType := b2z b in
      if msgType =? encryptMsg then
        if negb (EncryptionEnabled nc) then Err EncryptionNotConfigured
        else
          match nc_Keyring nc with
          | None => Err EncryptionNotConfigured
          | Some k => let! plain := decryptRemoteState k bufConn streamLabel in typedSlice plain
          end
      else if EncryptionEnabled nc && nc_GossipVerifyIncoming nc then Err StateNotEncrypted
      else if msgType =? compressMsg then Ok (msgType, NewStreamDecoder bufConn)
      else Ok (msgType, NewStreamDecoder (limitedSource bufConn (maxStreamMessageBytes - 1)))
  end.

Definition readStream (src : source) (streamLabel : string) : result streamError (Z * decoder) :=
  let! (msgType, dec) := readOuter src streamLabel in
  if msgType =? compressMsg then
    let! (c, _) := decoding (Compress_DecodeMsgpack dec) in
    match decompressBuffer c maxDecompressedBytes with
    | Err e => Err (StreamDecompress e)
    | Ok decomp => typedSlice decomp
    end
  else Ok (msgType, dec).

(** The loop over the node states; [i] counts them. *)
Fixpoint readStates (n : nat) (i : Z) (dec : decoder) : result streamError (list PushNodeState * decoder) :=
  match n with
  | O => Ok ([], dec)
  | S n =>
      let! (s, dec) := decoding (PushNodeState_DecodeMsgpack dec) in
      if String.eqb (PNS_Name s) "" then Err (NamelessState i)
      else let! (l, dec) := readStates n (i + 1) dec in Ok (s :: l, dec)
  end.

Definition withPort (s : PushNodeState) : PushNodeState :=
  MkPushNodeState (PNS_Name s) (PNS_Addr s) (portOrBind cfg nc (PNS_Port s)) (PNS_Meta s) (PNS_Incarnation s) (PNS_State s) (PNS_Vsn s).

(** [Join], the states and the user state, which is nil when there is none. *)
Definition readRemoteState (dec : decoder) : result streamError (bool * list PushNodeState * slice) :=
  let! (header, dec) := decoding (PushPullHeader_DecodeMsgpack dec) in
  let nodes := PPH_Nodes header in
  let userLen := PPH_UserStateLen header in
  if (nodes <? 0) || (nodes >? maxPushStateNodes) then Err (TooManyNodes nodes)
  else if (userLen <? 0) || (userLen >? maxPushStateBytes) then Err (UserStateTooLarge userLen)
  else
    let! (remoteNodes, dec) := readStates (Z.to_nat nodes) 0 dec in
    let! userBuf :=
      (if userLen >? 0 then let! (b, _) := decoding (ReadRaw userLen dec) in Ok (Some b) else Ok None) in
    Ok (PPH_Join header, map withPort remoteNodes, userBuf).

(** The message of [readUserMsg]; [None] for the empty one, which is not
    delivered. *)
Definition userMessage (dec : decoder) : result streamError (option bytes) :=
  let! (header, dec) := decoding (UserMsgHeader_DecodeMsgpack dec) in
  let n := UMH_UserMsgLen header in
  if (n <? 0) || (n >? maxUserMsgBytes) then Err (UserMsgTooLarge n)
  else if n =? 0 then Ok None
  else let! (b, _) := decoding (ReadRaw n dec) in Ok (Some b).
End Streams.

(** ** The node *)

(** The writing side of a connection: what it took so far, and how many more
    writes it takes before they fail. What a failed write may still have
    delivered is not modelled; the writer does nothing more with such a
    connection. *)
Record outConn := OutConn { oc_data : bytes; oc_writes : nat }.

(** [conn.Write] *)
Definition connWrite (c : outConn) (b : bytes) : option outConn :=
  match oc_writes c with
  | O => None
  | S n => Some (OutConn (oc_data c ++ b) n)
  end.

(** A dialled connection: its writing side, and what it will deliver once the
    given bytes have been written to it. *)
Record dialled := Dialled { dl_conn : outConn; dl_answer : bytes -> source }.

Inductive mergeError := Incompatible (e : protocolError) | MergeRefused.

Inductive exchangeError :=
| ExchangeStream (e : streamError)
| NamesRequired
| DialFailed
| LabelNotSent (e : labelError)
| RemoteError (text : string)
| UnexpectedType (t : Z)
| MergeFailed (e : mergeError)
| SeqNoMismatch (got want : Z).

Section Node.
Context {G : Type} {RG : Rand G} {ML : MathLog} {LZ : LZW} {GC : GCM} {D : Type} {DL : Delegates D}.
Context (cfg : Config) (nc : NetConfig) (nonceAt : Z -> bytes) (errorText : streamError -> string).
Implicit Types x : Net (G := G) (D := D).

Definition rawSendMsgStream x (c : outConn) (sendBuf : bytes) (streamLabel : string)
    : option (result streamError unit * outConn * Net) :=
  r ← streamBytes cfg nc (nonceAt (x_nonces x)) sendBuf streamLabel;
  match r with
  | Err e => Some (Err e, c, x)
  | Ok out =>
      let x := if encrypting nc then set_sent x (x_nonces x + 1) (x_sent x) else x in
      match connWrite c out with
      | Some c => Some (Ok tt, c, x)
      | None => Some (Err StreamWrite, c, x)
      end
  end.

(** [AddLabelHeaderToStream] of [src/label.go] *)
Definition AddLabelHeaderToStream (c : outConn) (label : string) : result labelError outConn :=
  if String.eqb label "" then Ok c
  else if len (str2b label) >? LabelMaxSize then Err LabelTooLong
  else
    match connWrite c (makeLabelHeader label []) with
    | Some c => Ok c
    | None => Err (LabelIO (IOError "write"))
    end.

(** [m.nodes] *)
Definition nodeList x : list nodeState := map (stateAt (x_m x)) (t_nodes (m_table (x_m x))).

Definition sendLocalState x (c : outConn) (join : bool) (streamLabel : string)
    : option (result streamError unit * outConn * Net) :=
  let localNodes := map localNode (nodeList x) in
  let '(userData, x) :=
    if nc_Delegate nc then let '(b, d) := DelegateLocalState join (x_delegate x) in (b, set_delegate x d) else ([], x) in
  let out := pushPullMessage localNodes join userData in
  if len userData >? maxPushStateBytes then Some (Err (ErrMessageTooLarge (len userData) maxPushStateBytes), c, x)
  else if len out >? maxStreamMessageBytes then Some (Err (ErrMessageTooLarge (len out) maxStreamMessageBytes), c, x)
  else rawSendMsgStream x c out streamLabel.

Definition mergeInfo (r : PushNodeState) : mergeNodeInfo :=
  MergeNodeInfo (PNS_Name r) (PNS_Addr r) (PNS_Port r) (PNS_Meta r) (PNS_State r) (vsnOf r).

(** The part under [mergeLock], and the delegate after it. *)
Definition mergeCommit x (join : bool) (remote : list PushNodeState) (userBuf : slice) (now : Z)
    : option (result mergeError unit * Net) :=
  match verifyProtocol (nodeList x) remote with
  | Err e => Some (Err (Incompatible e), x)
  | Ok _ =>
      m ← mergeState cfg (x_m x) remote now;
      let x := set_m x m in
      Some (Ok tt,
        match userBuf with
        | Some b => if nc_Delegate nc then set_delegate x (DelegateMergeRemoteState b join (x_delegate x)) else x
        | None => x
        end)
  end.

Definition mergeRemoteState x (join : bool) (remote : list PushNodeState) (userBuf : slice) (now : Z)
    : option (result mergeError unit * Net) :=
  match verifyProtocol (nodeList x) remote with
  | Err e => Some (Err (Incompatible e), x)
  | Ok _ =>
      if join && nc_Merge nc then
        let '(ok, d) := DelegateNotifyMerge (map mergeInfo remote) (x_delegate x) in
        if ok then mergeCommit (set_delegate x d) join remote userBuf now
        else Some (Err MergeRefused, set_delegate x d)
      else mergeCommit x join remote userBuf now
  end.

Definition readUserMsg x (dec : decoder) : result streamError Net :=
  let! msg := userMessage dec in
  Ok match msg with
     | Some b => if nc_Delegate nc then set_delegate x (DelegateNotifyMsg b (x_delegate x)) else x
     | None => x
     end.

(** An answer whose failure is only logged. *)
Definition reply x (c : outConn) (out : bytes) (streamLabel : string) : option (outConn * Net) :=
  '(_, c, x) ← rawSendMsgStream x c out streamLabel; Some (c, x).

Definition sendErr x (c : outConn) (e : streamError) (streamLabel : string) : option (outConn * Net) :=
  reply x c (encode errMsg (MErrResp (MkErrResp (errorText e)))) streamLabel.

(** The [pushPullMsg] case; [pending] is the counter before it. *)
Definition handlePushPull x (c : outConn) (dec : decoder) (streamLabel : string) (pending now : Z)
    : option (outConn * Net) :=
  if u32 (pending + 1) >=? maxPushPullRequests then Some (c, x)
  else
    match readRemoteState cfg nc dec with
    | Err _ => Some (c, x)
    | Ok (join, remoteNodes, userState) =>
        '(r, c, x) ← sendLocalState x c join streamLabel;
        match r with
        | Err (ErrMessageTooLarge n limit) => sendErr x c (ErrMessageTooLarge n limit) streamLabel
        | Err _ => Some (c, x)
        | Ok _ => '(_, x) ← mergeRemoteState x join remoteNodes userState now; Some (c, x)
        end
    end.

Definition handleStreamPing x (c : outConn) (dec : decoder) (streamLabel : string) : option (outConn * Net) :=
  match Ping_DecodeMsgpack dec with
  | Err _ => Some (c, x)
  | Ok (p, _) =>
      if negb (String.eqb (Ping_Node p) "") && negb (String.eqb (Ping_Node p) (c_Name cfg)) then Some (c, x)
      else reply x c (encode ackRespMsg (MAckResp (MkAckResp (Ping_SeqNo p) None))) streamLabel
  end.

Definition handleMessage x (c : outConn) (src : source) (streamLabel : string) (pending now : Z)
    : option (outConn * Net) :=
  match readStream nc src streamLabel with
  | Err (StreamIO EOF) => Some (c, x)
  | Err e => sendErr x c e streamLabel
  | Ok (msgType, dec) =>
      if msgType =? userMsg then
        Some (c, match readUserMsg x dec with Ok x => x | Err _ => x end)
      else if msgType =? pushPullMsg then handlePushPull x c dec streamLabel pending now
      else if msgType =? pingMsg then handleStreamPing x c dec streamLabel
      else Some (c, x)
  end.

(** [inp] is what the peer sends, [c] takes the answer. *)
Definition handleConn x (inp : conn) (c : outConn) (pending now : Z) : option (outConn * Net) :=
  match RemoveLabelHeaderFromStream inp with
  | Err _ => Some (c, x)
  | Ok (pc, streamLabel) =>
      if nc_SkipInboundLabelCheck nc && negb (String.eqb streamLabel "") then Some (c, x)
      else
        let streamLabel := if nc_SkipInboundLabelCheck nc then nc_Label nc else streamLabel in
        if negb (String.eqb (nc_Label nc) streamLabel) then Some (c, x)
        else handleMessage x c (Source (remaining pc) (c_err (pc_Conn pc))) streamLabel pending now
  end.

(** ** Dialling: [None] is a connection that could not be made *)

(** [labelWrappedTransport.DialAddressTimeout] *)
Definition dialLabelled (peer : option dialled) : result exchangeError dialled :=
  match peer with
  | None => Err DialFailed
  | Some p =>
      match AddLabelHeaderToStream (dl_conn p) (nc_Label nc) with
      | Err e => Err (LabelNotSent e)
      | Ok c => Ok (Dialled c (dl_answer p))
      end
  end.

Definition nameless (a : PeerAddress) : bool := String.eqb a.2 "" && nc_RequireNodeNames nc.

(** The bytes written are returned too. *)
Definition sendUserMsg x (a : PeerAddress) (sendBuf : bytes) (peer : option dialled)
    : option (result exchangeError bytes * Net) :=
  if nameless a then Some (Err NamesRequired, x)
  else if len sendBuf >? maxUserMsgBytes then
    Some (Err (ExchangeStream (ErrMessageTooLarge (len sendBuf) maxUserMsgBytes)), x)
  else
    match dialLabelled peer with
    | Err e => Some (Err e, x)
    | Ok (Dialled c _) =>
        let out := UserMsgHeader_AppendMsgpack (MkUserMsgHeader (len sendBuf)) [z2b userMsg] ++ sendBuf in
        '(r, c, x) ← rawSendMsgStream x c out (nc_Label nc);
        Some (match r with Ok _ => Ok (oc_data c) | Err e => Err (ExchangeStream e) end, x)
    end.

(** What the initiator makes of the answer. *)
Definition readAnswer (src : source) : result exchangeError (list PushNodeState * slice) :=
  match readStream nc src (nc_Label nc) with
  | Err e => Err (ExchangeStream e)
  | Ok (msgType, dec) =>
      if msgType =? errMsg then
        match ErrResp_DecodeMsgpack dec with
        | Err e => Err (ExchangeStream (StreamDecode e))
        | Ok (resp, _) => Err (RemoteError (ErrResp_Error resp))
        end
      else if negb (msgType =? pushPullMsg) then Err (UnexpectedType msgType)
      else
        match readRemoteState cfg nc dec with
        | Err e => Err (ExchangeStream e)
        | Ok (_, remoteNodes, userState) => Ok (remoteNodes, userState)
        end
  end.

Definition sendAndReceiveState x (a : PeerAddress) (join : bool) (peer : option dialled)
    : option (result exchangeError (list PushNodeState * slice) * Net) :=
  if nameless a then Some (Err NamesRequired, x)
  else
    match dialLabelled peer with
    | Err e => Some (Err e, x)
    | Ok (Dialled c answer) =>
        '(r, c, x) ← sendLocalState x c join (nc_Label nc);
        Some (match r with Ok _ => readAnswer (answer (oc_data c)) | Err e => Err (ExchangeStream e) end, x)
    end.

(** [pushPullNode] of [src/state.go] *)
Definition pushPullNode x (a : PeerAddress) (join : bool) (peer : option dialled) (now : Z)
    : option (result exchangeError unit * Net) :=
  '(r, x) ← sendAndReceiveState x a join peer;
  match r with
  | Err e => Some (Err e, x)
  | Ok (remote, userState) =>
      '(r, x) ← mergeRemoteState x join remote userState now;
      Some (match r with Ok _ => Ok tt | Err e => Err (MergeFailed e) end, x)
  end.

Definition sendPingAndWaitForAck x (a : PeerAddress) (p : Ping) (peer : option dialled)
    : option (result exchangeError bool * Net) :=
  if nameless a then Some (Err NamesRequired, x)
  else
    match dialLabelled peer with
    | Err _ => Some (Ok false, x)
    | Ok (Dialled c answer) =>
        '(r, c, x) ← rawSendMsgStream x c (encode pingMsg (MPing p)) (nc_Label nc);
        Some (match r with
              | Err e => Err (ExchangeStream e)
              | Ok _ =>
                  match readStream nc (answer (oc_data c)) (nc_Label nc) with
                  | Err e => Err (ExchangeStream e)
                  | Ok (msgType, dec) =>
                      if negb (msgType =? ackRespMsg) then Err (UnexpectedType msgType)
                      else
                        match AckResp_DecodeMsgpack dec with
                        | Err e => Err (ExchangeStream (StreamDecode e))
                        | Ok (ack, _) =>
                            if negb (Ack_SeqNo ack =? Ping_SeqNo p) then Err (SeqNoMismatch (Ack_SeqNo ack) (Ping_SeqNo p))
                            else Ok true
                        end
                  end
              end, x)
    end.
End Node.

(** ** Lemmas: every stream is handled *)

Lemma readStates_length n i d l d' : readStates n i d = Ok (l, d') -> length l = n.
Proof.
  revert i d l d'. induction n as [|n IH]; intros i d l d'; cbn [readStates]; [by intros [= <- _]|].
  destruct (decoding (PushNodeState_DecodeMsgpack d)) as [[s d1]|e]; cbn [rbind]; [|done].
  destruct (String.eqb (PNS_Name s) ""); [done|].
  destruct (readStates n (i + 1) d1) as [[l1 d2]|e] eqn:E; cbn [rbind]; [|done]. intros [= <- _]. cbn. by rewrite (IH _ _ _ _ E).
Qed.

Section Total.
Context {G : Type} {RG : Rand G} {RL : RandLaws G} {ML : MathLog} {LZ : LZW} {GC : GCM} {D : Type} {DL : Delegates D}.
Context (cfg : Config) (nc : NetConfig) (nonceAt : Z -> bytes) (errorText : streamError -> string) (Hk : keys_ok nc).
Implicit Types x : Net (G := G) (D := D).

Lemma readRemoteState_length dec join remote user :
  readRemoteState cfg nc dec = Ok (join, remote, user) -> len remote <= maxPushStateNodes.
Proof.
  unfold readRemoteState. destruct (decoding (PushPullHeader_DecodeMsgpack dec)) as [[h d]|]; cbn [rbind]; [|done].
  destruct (Z.ltb_spec (PPH_Nodes h) 0) as [|H0]; [done|].
  destruct (Z.gtb_spec (PPH_Nodes h) maxPushStateNodes) as [|H1]; [done|]. cbn [orb].
  destruct (_ || _); [done|].
  destruct (readStates (Z.to_nat (PPH_Nodes h)) 0 d) as [[l d']|] eqn:E; cbn [rbind]; [|done].
  apply readStates_length in E. destruct (if PPH_UserStateLen h >? 0 then _ else _) as [u|]; cbn [rbind]; [|done].
  intros [= _ <- _]. unfold len. rewrite length_map, E. lia.
Qed.

(** What a step that only talks may change. *)
Definition talks x x' : Prop := exists d n, x' = set_sent (set_delegate x d) n (x_sent x).

Lemma talks_refl x : talks x x.
Proof. exists (x_delegate x), (x_nonces x). by destruct x. Qed.

Lemma talks_trans x1 x2 x3 : talks x1 x2 -> talks x2 x3 -> talks x1 x3.
Proof. intros (d & n & ->) (d' & n' & ->). by exists d', n'. Qed.

Lemma talks_delegate x d : talks x (set_delegate x d).
Proof. exists d, (x_nonces x). by destruct x. Qed.

Lemma talks_m x x' : talks x x' -> x_m x' = x_m x.
Proof. by intros (d & n & ->). Qed.

Lemma streamBytes_total nonce buf label : exists r, streamBytes cfg nc nonce buf label = Some r.
Proof.
  unfold streamBytes. set (b := if nc_EnableCompression nc then _ else buf). destruct (encrypting nc) eqn:Ee; [|by eexists].
  destruct (_ >? maxPushStateBytes); [by eexists|]. unfold encryptLocalState, encrypting, EncryptionEnabled in *.
  destruct (nc_Keyring nc) as [k|] eqn:Ek; [|done]. apply andb_prop in Ee as [Ee _].
  cbn [mbind option_bind]. destruct (primaryAEAD_some k (Hk k Ek) Ee) as [g ->]. by eexists.
Qed.

Lemma rawSendMsgStream_total x c buf label :
  exists r c' x', rawSendMsgStream cfg nc nonceAt x c buf label = Some (r, c', x') /\ talks x x'.
Proof.
  unfold rawSendMsgStream. destruct (streamBytes_total (nonceAt (x_nonces x)) buf label) as [[out|e] ->]; cbn [mbind option_bind].
  - destruct (connWrite c out); eexists _, _, _; (split; [done|]); destruct (encrypting nc); try apply talks_refl;
      exists (x_delegate x), (x_nonces x + 1); by destruct x.
  - eexists _, _, _. split; [done|apply talks_refl].
Qed.

Lemma sendLocalState_total x c join label :
  exists r c' x', sendLocalState cfg nc nonceAt x c join label = Some (r, c', x') /\ talks x x'.
Proof.
  unfold sendLocalState.
  set (u := if nc_Delegate nc then _ else ([], x)). assert (Hu : talks x u.2).
  { unfold u. destruct (nc_Delegate nc); [|apply talks_refl]. destruct (DelegateLocalState join (x_delegate x)). apply talks_delegate. }
  destruct u as [data x1]. cbn [snd] in Hu.
  destruct (_ >? _); [by eexists _, _, _|]. destruct (_ >? _); [by eexists _, _, _|].
  destruct (rawSendMsgStream_total x1 c (pushPullMessage (map localNode (nodeList x)) join data) label) as (r & c' & x' & -> & H).
  eexists _, _, _. split; [done|]. by eapply talks_trans.
Qed.

Lemma reply_total x c out label : exists c' x', reply cfg nc nonceAt x c out label = Some (c', x') /\ talks x x'.
Proof.
  unfold reply. destruct (rawSendMsgStream_total x c out label) as (r & c' & x' & -> & H). by eexists _, _.
Qed.

(** A merge: nothing happens to the members, or the whole list is merged. *)
Definition merges x (remote : list PushNodeState) (now : Z) x' : Prop :=
  talks x x' \/ exists m d n, mergeState cfg (x_m x) remote now = Some m /\ x' = set_sent (set_delegate (set_m x m) d) n (x_sent x).

Lemma mergeCommit_total x join remote user now :
  is_Some (mergeState cfg (x_m x) remote now) ->
  exists r x', mergeCommit cfg nc x join remote user now = Some (r, x') /\ merges x remote now x'.
Proof.
  intros [m Em]. unfold mergeCommit. destruct (verifyProtocol _ _); [|eexists _, _; split; [done|left; apply talks_refl]].
  rewrite Em. cbn [mbind option_bind]. eexists _, _. split; [done|]. right.
  destruct user as [b|]; [destruct (nc_Delegate nc)|];
    [exists m, (DelegateMergeRemoteState b join (x_delegate x)), (x_nonces x)|exists m, (x_delegate x), (x_nonces x)..]; done.
Qed.

Lemma mergeRemoteState_total x join remote user now :
  is_Some (mergeState cfg (x_m x) remote now) ->
  exists r x', mergeRemoteState cfg nc x join remote user now = Some (r, x') /\ merges x remote now x'.
Proof.
  intros Hm. unfold mergeRemoteState. destruct (verifyProtocol _ _); [|eexists _, _; split; [done|left; apply talks_refl]].
  destruct (join && nc_Merge nc); [|by apply mergeCommit_total].
  destruct (DelegateNotifyMerge (map mergeInfo remote) (x_delegate x)) as [[] d];
    [|eexists _, _; split; [done|left; apply talks_delegate]].
  destruct (mergeCommit_total (set_delegate x d) join remote user now Hm) as (r & x' & -> & [Ht|(m & d' & n & Em & ->)]);
    (eexists _, _; split; [done|]).
  - left. eapply talks_trans; [apply talks_delegate|done].
  - right. by exists m, d', n.
Qed.

Lemma handlePushPull_total x c dec label pending now :
  (forall remote, len remote <= maxPushStateNodes -> is_Some (mergeState cfg (x_m x) remote now)) ->
  exists c' x' remote, handlePushPull cfg nc nonceAt errorText x c dec label pending now = Some (c', x') /\
    len remote <= maxPushStateNodes /\ merges x remote now x'.
Proof.
  intros Hm. unfold handlePushPull. assert (H0 : len (@nil PushNodeState) <= maxPushStateNodes) by done.
  destruct (_ >=? _); [exists c, x, []; split_and!; [done..|left; apply talks_refl]|].
  destruct (readRemoteState cfg nc dec) as [[[join remote] user]|e] eqn:Er; [|exists c, x, []; split_and!; [done..|left; apply talks_refl]].
  apply readRemoteState_length in Er.
  destruct (sendLocalState_total x c join label) as (r & c1 & x1 & -> & Ht). cbn [mbind option_bind].
  destruct r as [[]|e].
  - destruct (mergeRemoteState_total x1 join remote user now) as (r & x2 & -> & H); [rewrite (talks_m x x1 Ht); by apply Hm|].
    exists c1, x2, remote. split_and!; [done..|]. destruct Ht as (d1 & n1 & ->).
    destruct H as [(d & n & ->)|(m & d & n & Em & ->)]; [left; by exists d, n|right; by exists m, d, n].
  - assert (Hq : forall e', exists c' x', sendErr cfg nc nonceAt errorText x1 c1 e' label = Some (c', x') /\ talks x x').
    { intros e'. destruct (reply_total x1 c1 (encode errMsg (MErrResp (MkErrResp (errorText e')))) label) as (c2 & x2 & E & H).
      exists c2, x2. split; [exact E|]. by eapply talks_trans. }
    destruct e; try (exists c1, x1, []; split_and!; [done..|by left]).
    destruct (Hq (ErrMessageTooLarge n limit)) as (c2 & x2 & -> & H). exists c2, x2, []. split_and!; [done..|by left].
Qed.

(** Whatever arrives on a stream is handled. *)
Lemma handleConn_total x inp c pending now :
  (forall remote, len remote <= maxPushStateNodes -> is_Some (mergeState cfg (x_m x) remote now)) ->
  exists c' x' remote, handleConn cfg nc nonceAt errorText x inp c pending now = Some (c', x') /\
    len remote <= maxPushStateNodes /\ merges x remote now x'.
Proof.
  intros Hm. assert (Hq : forall (c' : outConn) x', talks x x' -> exists c2 x2 remote, Some (c', x') = Some (c2, x2) /\
    len remote <= maxPushStateNodes /\ merges x remote now x2) by (intros c' x' H; exists c', x', []; split_and!; [done..|by left]).
  pose proof (talks_refl x) as Hx. unfold handleConn. destruct (RemoveLabelHeaderFromStream inp) as [[pc label]|]; [|by apply Hq].
  destruct (_ && _); [by apply Hq|]. destruct (negb (String.eqb (nc_Label nc) _)); [by apply Hq|].
  set (src := Source _ _). set (l := if nc_SkipInboundLabelCheck nc then _ else _). unfold handleMessage.
  destruct (readStream nc src l) as [[t dec]|e].
  - destruct (t =? userMsg); [|destruct (t =? pushPullMsg); [by apply handlePushPull_total|destruct (t =? pingMsg); [|by apply Hq]]].
    + apply Hq. unfold readUserMsg. destruct (userMessage dec) as [[b|]|]; [|done..]. cbn [rbind].
      destruct (nc_Delegate nc); [apply talks_delegate|done].
    + unfold handleStreamPing. destruct (Ping_DecodeMsgpack dec) as [[p d]|]; [|by apply Hq]. destruct (_ && _); [by apply Hq|].
      destruct (reply_total x c (encode ackRespMsg (MAckResp (MkAckResp (Ping_SeqNo p) None))) l) as (c' & x' & -> & H). by apply Hq.
  - assert (He : forall e', exists c2 x2 remote, sendErr cfg nc nonceAt errorText x c e' l = Some (c2, x2) /\
      len remote <= maxPushStateNodes /\ merges x remote now x2).
    { intros e'. unfold sendErr. destruct (reply_total x c (encode errMsg (MErrResp (MkErrResp (errorText e')))) l) as (c' & x' & -> & H). by apply Hq. }
    destruct e as [[]|n|e|  | | |e|e|n|n|n|n|n m|]; solve [by apply Hq | apply He].
Qed.

Lemma pushPullNode_total x a join peer now :
  (forall remote, len remote <= maxPushStateNodes -> is_Some (mergeState cfg (x_m x) remote now)) ->
  exists r x' remote, pushPullNode cfg nc nonceAt x a join peer now = Some (r, x') /\
    len remote <= maxPushStateNodes /\ merges x remote now x'.
Proof.
  intros Hm. assert (Hq : forall (r : exchangeError) x', talks x x' -> exists (r2 : result exchangeError unit) x2 remote, Some (Err r, x') = Some (r2, x2) /\
    len remote <= maxPushStateNodes /\ merges x remote now x2).
  { intros r x' H. exists (Err r), x', []. split_and!; [done..|by left]. }
  pose proof (talks_refl x) as Hx. unfold pushPullNode, sendAndReceiveState.
  destruct (nameless nc a); [by apply Hq|]. destruct (dialLabelled nc peer) as [[c answer]|]; [|by apply Hq].
  destruct (sendLocalState_total x c join (nc_Label nc)) as (r & c1 & x1 & -> & Ht). cbn [mbind option_bind].
  destruct r as [[]|e]; [|by apply Hq]. destruct (readAnswer cfg nc (answer (oc_data c1))) as [[remote user]|e] eqn:Ea; [|by apply Hq].
  assert (Hl : len remote <= maxPushStateNodes).
  { unfold readAnswer in Ea. destruct (readStream nc _ _) as [[t dec]|]; [|done].
    destruct (t =? errMsg); [by destruct (ErrResp_DecodeMsgpack dec) as [[]|]|]. destruct (negb _); [done|].
    destruct (readRemoteState cfg nc dec) as [[[j l] u]|] eqn:Er; [|done]. simplify_eq. by eapply readRemoteState_length. }
  destruct (mergeRemoteState_total x1 join remote user now) as (r & x2 & -> & H); [rewrite (talks_m x x1 Ht); by apply Hm|].
  cbn [mbind option_bind]. eexists _, x2, remote. split_and!; [done..|]. destruct Ht as (d1 & n1 & ->).
  destruct H as [(d & n & ->)|(m & d & n & Em & ->)]; [left; by exists d, n|right; by exists m, d, n].
Qed.

Lemma sendPingAndWaitForAck_total x a p peer :
  exists r x', sendPingAndWaitForAck cfg nc nonceAt x a p peer = Some (r, x') /\ talks x x'.
Proof.
  pose proof (talks_refl x). unfold sendPingAndWaitForAck. destruct (nameless nc a); [by eexists _, _|].
  destruct (dialLabelled nc peer) as [[c answer]|]; [|by eexists _, _].
  destruct (rawSendMsgStream_total x c (encode pingMsg (MPing p)) (nc_Label nc)) as (r & c1 & x1 & -> & Ht). by eexists _, _.
Qed.
End Total.

(** ** Lemmas: what is written is read *)

Lemma limitedSource_long s n e rest :
  0 <= n -> src_data s = e ++ rest -> len e <= n -> exists rest', src_data (limitedSource s n) = e ++ rest'.
Proof.
  intros Hn E Hl. unfold limitedSource. destruct (n <=? len (src_data s)); [|by exists rest]. cbn [src_data]. rewrite E.
  exists (take (Z.to_nat n - length e) rest). rewrite take_app. f_equal. apply take_ge. unfold len in Hl. lia.
Qed.

Lemma copyN_app s e rest : src_data s = e ++ rest -> copyN s (len e) = Ok (e, Source rest (src_err s)).
Proof.
  intros E. unfold copyN. rewrite E, len_app. pose proof (len_nonneg rest). rewrite (proj2 (Z.leb_le _ _)) by lia.
  unfold len. by rewrite Nat2Z.id, take_app_length, drop_app_length.
Qed.

Section Delivered.
Context {LZ : LZW} {LL : LZWLaws} {GC : GCM} {GL : GCMLaws}.
Context (cfgS : Config) (ncS ncR : NetConfig).

(** The receiver reads what the sender writes: without encryption, if it does
    not insist on it; else it has the sender's primary key, and none that it
    tries before opens the message by accident. *)
Definition reads_from (nonce wire : bytes) (label : string) : Prop :=
  if encrypting ncS then
    len nonce = nonceSize /\ EncryptionEnabled ncR = true /\
    exists kS kR g pre post,
      nc_Keyring ncS = Some kS /\ primaryAEAD kS = Some g /\ nc_Keyring ncR = Some kR /\
      getAEADs kR = pre ++ g :: post /\
      Forall (fun g' => Open g' nonce (drop 18 wire) (take 5 wire ++ str2b label) = None) pre
  else EncryptionEnabled ncR && nc_GossipVerifyIncoming ncR = false.

(** The body of [msg] is what the decoder has next. *)
Definition positioned (msg : bytes) (r : result streamError (Z * decoder)) : Prop :=
  exists t dec rest, r = Ok (t, dec) /\ firstByte msg = Some t /\ dec_ok dec /\ pending dec = drop 1 msg ++ rest.

Lemma typedSlice_positioned msg t : firstByte msg = Some t -> len msg <= MaxInt64 -> positioned msg (typedSlice msg).
Proof.
  intros (c & r & -> & <-)%firstByte_head Hl. rewrite len_cons in Hl. pose proof (len_nonneg r).
  exists (b2z c), (NewDecoder r), []. cbn. rewrite !drop_0, app_nil_r. split_and!; (done || lia).
Qed.

(** Compression. *)
Lemma read_compressed msg r t :
  firstByte msg = Some t -> t <> compressMsg -> len msg <= maxDecompressedBytes ->
  (exists sent, (sent = msg \/ sent = compressPayload msg /\ len sent < len msg) /\ positioned sent r) ->
  positioned msg
    (let! (msgType, dec) := r in
     if msgType =? compressMsg then
       let! (c, _) := decoding (Compress_DecodeMsgpack dec) in
       match decompressBuffer c maxDecompressedBytes with
       | Err e => Err (StreamDecompress e)
       | Ok decomp => typedSlice decomp
       end
     else Ok (msgType, dec)).
Proof.
  intros Ht Hne Hl (sent & [-> |[-> Hlt]] & (t' & dec & rest & -> & Ht' & Hd & Hp)); cbn [rbind].
  - assert (t' = t) as -> by congruence. rewrite (proj2 (Z.eqb_neq _ _) Hne). by exists t, dec, rest.
  - unfold compressPayload in Ht'. rewrite encode_cons in Ht'. cbn in Ht'. injection Ht' as <-.
    change (b2z (z2b compressMsg) =? compressMsg) with true. cbv iota.
    pose proof (len_compressed msg) as Hc. assert (Hm : len (lzwCompress msg) <= MaxCompressedBytes).
    { change MaxCompressedBytes with 67108864. change maxDecompressedBytes with 41943040 in Hl. lia. }
    assert (E : Compress_DecodeMsgpack dec = Ok (MkCompress lzwAlgo (Some (lzwCompress msg)), consume (len (drop 1 (compressPayload msg))) dec)).
    { unfold compressPayload in *. rewrite encode_cons in *. cbn [drop] in *. rewrite drop_0 in *.
      apply (Compress_roundtrip (MkCompress lzwAlgo (Some (lzwCompress msg))) ltac:(split; [by vm_compute|done]) dec rest Hd Hp). }
    rewrite E. cbn [decoding rbind]. rewrite decompressBuffer_compressed by done.
    apply (typedSlice_positioned msg t); [done|]. change maxDecompressedBytes with 41943040 in Hl. unfold MaxInt64. lia.
Qed.

(** Without encryption. *)
Lemma readOuter_plain sent more e t label :
  firstByte sent = Some t -> t <> encryptMsg -> len sent <= maxStreamMessageBytes ->
  EncryptionEnabled ncR && nc_GossipVerifyIncoming ncR = false ->
  positioned sent (readOuter ncR (Source (sent ++ more) e) label).
Proof.
  intros (c & r & -> & <-)%firstByte_head Hne Hl Hv. unfold readOuter.
  destruct (limitedSource_long (Source ((c :: r) ++ more) e) maxCompressedStreamBytes (c :: r) more) as [m1 E1]; [done|done| |].
  { change maxCompressedStreamBytes with 63021056. change maxStreamMessageBytes with 41943040 in Hl. lia. }
  unfold readByteFrom. rewrite E1. cbn [app]. rewrite (proj2 (Z.eqb_neq _ _) Hne), Hv. rewrite len_cons in Hl.
  destruct (b2z c =? compressMsg).
  - by exists (b2z c), (NewStreamDecoder (Source (r ++ m1) (src_err (limitedSource (Source ((c :: r) ++ more) e) maxCompressedStreamBytes)))), m1.
  - destruct (limitedSource_long (Source (r ++ m1) (src_err (limitedSource (Source ((c :: r) ++ more) e) maxCompressedStreamBytes)))
      (maxStreamMessageBytes - 1) r m1) as [m2 E2]; [done|done|lia|].
    eexists (b2z c), _, m2. split_and!; [done..|]. exact E2.
Qed.

(** Under encryption. *)
Lemma readOuter_encrypted nonce sent more e t label k g :
  firstByte sent = Some t -> nc_Keyring ncS = Some k -> primaryAEAD k = Some g -> encrypting ncS = true ->
  encryptedLength (encryptionVersion cfgS) (len sent) <= maxPushStateBytes ->
  let out := z2b encryptMsg :: be 4 (u32 (encryptedLength (encryptionVersion cfgS) (len sent))) in
  let wire := sealPayload (encryptionVersion cfgS) g nonce sent (out ++ str2b label) out in
  reads_from nonce wire label ->
  positioned sent (readOuter ncR (Source (wire ++ more) e) label).
Proof.
  intros Ht Ek Eg Ee Hl out wire Hr. unfold reads_from in Hr. rewrite Ee in Hr.
  destruct Hr as (Hn & Hen & kS & kR & g' & pre & post & E1 & E2 & E3 & E4 & Hpre). simplify_eq.
  set (vsn := encryptionVersion cfgS) in *. pose proof (vsn_cases cfgS) as Hv. fold vsn in Hv.
  set (n := encryptedLength vsn (len sent)) in *.
  assert (Hs : 0 <= len sent <= n).
  { pose proof (len_nonneg sent). split; [done|]. pose proof (pad_range (len sent) ltac:(done)).
    unfold n, encryptedLength, versionSize, nonceSize, tagSize. destruct (vsn >=? 1); lia. }
  change maxPushStateBytes with 20971520 in Hl.
  assert (Hm : len sent + 16 <= gcmMax) by (unfold gcmMax; lia).
  set (body := sealPayload vsn g nonce sent (out ++ str2b label) []).
  assert (Ew : wire = out ++ body) by done.
  assert (Hb : len body = n) by (unfold body; rewrite len_sealPayload by done; change (len []) with 0; lia).
  assert (Ho : len out = 5) by (unfold out; rewrite len_cons, len_be; lia).
  destruct (limitedSource_long (Source (wire ++ more) e) maxCompressedStreamBytes wire more) as [m1 L1]; [done|done| |].
  { rewrite Ew, len_app, Ho, Hb. change maxCompressedStreamBytes with 63021056. lia. }
  unfold readOuter, readByteFrom. rewrite L1, Ew. unfold out at 1. cbn [app].
  change (b2z (z2b encryptMsg) =? encryptMsg) with true. cbv iota. rewrite Hen, E3. cbn [negb].
  unfold decryptRemoteState. rewrite <- app_assoc.
  assert (H4 : len (be 4 (u32 n)) = 4) by apply len_be. rewrite <- H4, (copyN_app _ (be 4 (u32 n)) (body ++ m1)) by done.
  rewrite be_value_be by lia. rewrite u32_small by lia. rewrite Z.mod_small by lia.
  change maxPushStateBytes with 20971520. destruct (Z.gtb_spec n 20971520) as [|_]; [lia|].
  rewrite <- Hb, (copyN_app _ body m1) by done.
  assert (Ea : appendBytes (z2b encryptMsg :: be 4 (u32 n)) (str2b label) = out ++ str2b label).
  { unfold appendBytes. destruct (str2b label); [by rewrite app_nil_r|done]. }
  rewrite u32_small in Ea by lia. rewrite Hb, Ea, E4. unfold body. rewrite open_sealed; try done.
  cbn [rbind]. apply (typedSlice_positioned sent t); [done|]. unfold MaxInt64. lia.
Qed.

(** A stream message arrives: the receiver gets the sender's type and body,
    whatever of compression and encryption lies between. *)
Lemma stream_arrives nonce msg wire more e t label :
  firstByte msg = Some t -> t <> compressMsg -> t <> encryptMsg -> len msg <= maxStreamMessageBytes ->
  streamBytes cfgS ncS nonce msg label = Some (Ok wire) -> reads_from nonce wire label ->
  positioned msg (readStream ncR (Source (wire ++ more) e) label).
Proof.
  intros Ht H1 H2 Hl Hw Hr. unfold streamBytes in Hw. unfold readStream.
  set (sent := if nc_EnableCompression ncS then _ else msg) in Hw.
  assert (Hs : sent = msg \/ sent = compressPayload msg /\ len sent < len msg).
  { unfold sent. destruct (nc_EnableCompression ncS); [|by left].
    destruct (Z.ltb_spec (len (compressPayload msg)) (len msg)); [by right|by left]. }
  assert (exists t', firstByte sent = Some t' /\ t' <> encryptMsg) as (t' & Ht' & Hne).
  { destruct Hs as [-> |[-> _]]; [by exists t|]. exists compressMsg. split; [|done]. unfold compressPayload. by rewrite encode_cons. }
  assert (Hls : len sent <= maxStreamMessageBytes) by (destruct Hs as [-> |[_ ?]]; lia).
  apply (read_compressed msg _ t); [done..|]. exists sent. split; [done|]. destruct (encrypting ncS) eqn:Ee.
  - destruct (Z.gtb_spec (encryptedLength (encryptionVersion cfgS) (len sent)) maxPushStateBytes) as [|Hn]; [done|].
    unfold encryptLocalState in Hw. destruct (nc_Keyring ncS) as [k|] eqn:Ek; [|done]. cbn [mbind option_bind] in Hw.
    destruct (primaryAEAD k) as [g|] eqn:Eg; [|done]. cbn [mbind option_bind] in Hw. injection Hw as <-.
    by eapply readOuter_encrypted.
  - injection Hw as <-. unfold reads_from in Hr. rewrite Ee in Hr. by eapply readOuter_plain.
Qed.
End Delivered.

(** ** Lemmas: states are read back *)

(** The smallest encoding of a state is longer than the 40 bytes that
    [maxStreamMessageBytes] leaves each of [maxPushStateNodes] states: a sender
    within the one limit is within the other. *)
Lemma min_AppendString b k : len b + 1 + len (str2b k) <= len (AppendString b k).
Proof. unfold AppendString, appendRawHeader. repeat case_match; rewrite ?len_app, ?len_cons, ?len_be; change (len []) with 0; lia. Qed.

Lemma min_AppendBytes b p : len b + 1 <= len (AppendBytes b p).
Proof.
  destruct p as [p|]; cbn [AppendBytes]; unfold AppendNil, appendRawHeader; repeat case_match; rewrite ?len_app, ?len_cons, ?len_be;
    change (len []) with 0; try pose proof (len_nonneg p); lia.
Qed.

Lemma min_AppendUint b v : len b + 1 <= len (AppendUint b v).
Proof. unfold AppendUint. repeat case_match; rewrite ?len_app, ?len_cons, ?len_be; change (len []) with 0; lia. Qed.

Lemma min_AppendInt b v : len b + 1 <= len (AppendInt b v).
Proof.
  unfold AppendInt. repeat case_match; try apply min_AppendUint; rewrite ?len_app, ?len_cons, ?len_be; change (len []) with 0; lia.
Qed.

Lemma min_PushNodeState s : 40 <= len (PushNodeState_AppendMsgpack s []).
Proof.
  unfold PushNodeState_AppendMsgpack, appendB, appendU, appendS, appendI. cbv zeta.
  repeat match goal with
  | |- context [len (AppendBytes ?b ?p)] => pose proof (min_AppendBytes b p); generalize dependent (AppendBytes b p); intros
  end.
  repeat match goal with
  | H : context [len (AppendString ?b ?k)] |- _ =>
      lazymatch goal with _ : len b + 1 + len (str2b k) <= _ |- _ => fail | _ => pose proof (min_AppendString b k) end
  | H : context [len (AppendBytes ?b ?p)] |- _ =>
      lazymatch goal with _ : len b + 1 <= len (AppendBytes b p) |- _ => fail | _ => pose proof (min_AppendBytes b p) end
  | H : context [len (AppendUint ?b ?p)] |- _ =>
      lazymatch goal with _ : len b + 1 <= len (AppendUint b p) |- _ => fail | _ => pose proof (min_AppendUint b p) end
  | H : context [len (AppendInt ?b ?p)] |- _ =>
      lazymatch goal with _ : len b + 1 <= len (AppendInt b p) |- _ => fail | _ => pose proof (min_AppendInt b p) end
  end.
  change (len (str2b "Addr")) with 4 in *. change (len (str2b "Incarnation")) with 11 in *.
  change (len (str2b "Meta")) with 4 in *. change (len (str2b "Name")) with 4 in *.
  change (len (str2b "Port")) with 4 in *. change (len (str2b "State")) with 5 in *. change (len (str2b "Vsn")) with 3 in *.
  pose proof (len_nonneg (str2b (PNS_Name s))). pose proof (len_nonneg (AppendMapHeader [] 7)). lia.
Qed.

Definition encodedStates (states : list PushNodeState) : bytes :=
  concat (map (fun s => PushNodeState_AppendMsgpack s []) states).

Lemma PushNodeState_app s b : PushNodeState_AppendMsgpack s b = b ++ PushNodeState_AppendMsgpack s [].
Proof. exact (AppendMsgpack_app (MPushNodeState s) b). Qed.

Lemma encodeStates_eq states out : encodeStates states out = out ++ encodedStates states.
Proof.
  revert out. induction states as [|s states IH]; intros out; cbn; [by rewrite app_nil_r|].
  unfold encodeStates in IH. rewrite IH, PushNodeState_app, <- app_assoc. done.
Qed.

Lemma pushPullMessage_eq nodes join user :
  pushPullMessage nodes join user =
  z2b pushPullMsg :: PushPullHeader_AppendMsgpack (MkPushPullHeader (len nodes) (len user) join) [] ++ encodedStates nodes ++ user.
Proof.
  unfold pushPullMessage. rewrite encodeStates_eq. set (h := MkPushPullHeader _ _ _).
  pose proof (AppendMsgpack_app (MPushPullHeader h) [z2b pushPullMsg]) as E. cbn [AppendMsgpack] in E.
  rewrite E. cbn [app]. by rewrite <- !app_assoc.
Qed.

Lemma encodedStates_min nodes : 40 * len nodes <= len (encodedStates nodes).
Proof.
  induction nodes as [|s nodes IH]; [done|]. unfold encodedStates in *. cbn [map concat]. rewrite len_cons, len_app.
  pose proof (min_PushNodeState s). lia.
Qed.

(** A state that can be sent: its fields fit, and it names its node. *)
Definition sendable (s : PushNodeState) : Prop := PushNodeState_valid s /\ PNS_Name s <> ""%string.

Lemma readStates_roundtrip nodes i d rest :
  Forall sendable nodes -> dec_ok d -> pending d = encodedStates nodes ++ rest ->
  exists d', readStates (length nodes) i d = Ok (nodes, d') /\ dec_ok d' /\ pending d' = rest.
Proof.
  intros Hn. revert i d. induction Hn as [|s nodes [Hv Hs] _ IH]; intros i d Hd Hp; cbn [length readStates]; [by exists d|].
  unfold encodedStates in Hp. cbn [map concat] in Hp. rewrite <- app_assoc in Hp.
  rewrite (PushNodeState_roundtrip s Hv d _ Hd Hp). cbn [decoding rbind].
  destruct (String.eqb_spec (PNS_Name s) "") as [|_]; [done|].
  destruct (IH (i + 1) (consume (len (PushNodeState_AppendMsgpack s [])) d)) as (d' & -> & Hd' & Hp').
  - by eapply dec_ok_consume_app.
  - by eapply pending_consume_app.
  - by exists d'.
Qed.

(** What the sender's limits let pass, the receiver's do. *)
Lemma readRemoteState_roundtrip `{GCM} cfg nc nodes join user d rest :
  Forall sendable nodes -> len user <= maxPushStateBytes ->
  len (pushPullMessage nodes join user) <= maxStreamMessageBytes ->
  dec_ok d -> pending d = drop 1 (pushPullMessage nodes join user) ++ rest ->
  readRemoteState cfg nc d = Ok (join, map (withPort cfg nc) nodes, match user with [] => None | _ => Some user end).
Proof.
  intros Hn Hu Hl Hd Hp. rewrite pushPullMessage_eq in *. cbn [drop] in Hp. rewrite drop_0, <- !app_assoc in Hp.
  rewrite len_cons, !len_app in Hl. pose proof (encodedStates_min nodes). pose proof (len_nonneg nodes). pose proof (len_nonneg user).
  set (h := MkPushPullHeader (len nodes) (len user) join) in *. pose proof (len_nonneg (PushPullHeader_AppendMsgpack h [])).
  change maxStreamMessageBytes with 41943040 in Hl. change maxPushStateBytes with 20971520 in Hu.
  assert (Hh : PushPullHeader_valid h) by (split; unfold int_ok, MinInt64, MaxInt64; cbn; lia).
  unfold readRemoteState. rewrite (PushPullHeader_roundtrip h Hh d _ Hd Hp). cbn [decoding rbind].
  change (PPH_Nodes h) with (len nodes). change (PPH_UserStateLen h) with (len user). change (PPH_Join h) with join.
  change maxPushStateNodes with 1048576. change maxPushStateBytes with 20971520.
  destruct (Z.ltb_spec (len nodes) 0) as [|_]; [lia|]. destruct (Z.gtb_spec (len nodes) 1048576) as [|_]; [lia|].
  destruct (Z.ltb_spec (len user) 0) as [|_]; [lia|]. destruct (Z.gtb_spec (len user) 20971520) as [|_]; [lia|]. cbn [orb].
  replace (Z.to_nat (len nodes)) with (length nodes) by (unfold len; lia).
  destruct (readStates_roundtrip nodes 0 (consume (len (PushPullHeader_AppendMsgpack h [])) d) (user ++ rest) Hn) as (d' & -> & Hd' & Hp').
  - by eapply dec_ok_consume_app.
  - by eapply pending_consume_app.
  - cbn [rbind]. destruct user as [|u user]; [done|]. rewrite (proj2 (Z.gtb_lt _ _)) by (rewrite len_cons; pose proof (len_nonneg user); lia).
    unfold ReadRaw. rewrite (proj2 (Z.ltb_ge _ _)) by apply len_nonneg. by rewrite (reads_into (u :: user) d' rest Hd' Hp').
Qed.
