(* ===== verification/Ingest.v ===== *)
(** The node under arbitrary network input: packets of any bytes, the packet
    handler, timers and state merges composed, and what senders and receivers
    of packets promise each other. *)

From S2P Require Import Prelude Msgpack Wire Timing Treap Queue NetAddr Nodes Events Packet State Lifecycle Membership Security Checksum HostPort Acks Net Streams.

(** ** The network as a source of inputs *)

(** What can happen next: a packet arrives, the packet handler takes one
    message off the queues, a waiting nack goroutine ends, an ack timer fires,
    a delivery in flight runs, a stream is accepted, a push/pull or a stream
    ping is tried with a peer that answers anything, or another part of the
    instance handles an input of [Membership.v]. *)
Inductive netInput :=
| NPacket (buf from : bytes) (timestamp : Z)
| NQueued
| NNack (cancelCh : Z) (sawCancel : bool)
| NAckTimer (id : Z)
| NDeliver (i : nat)
| NStream (inp : conn) (c : outConn) (pushPulls : Z)
| NPushPull (a : PeerAddress) (join : bool) (peer : option dialled)
| NStreamPing (a : PeerAddress) (p : Ping) (peer : option dialled)
| NMember (i : input).

Section System.
Context {G : Type} {RG : Rand G} {ML : MathLog} {LZ : LZW} {GC : GCM} {TR : Transport} {D : Type} {DL : Delegates D}.
Context (cfg : Config) (nc : NetConfig) (nonceAt : Z -> bytes) (errorText : streamError -> string).
Implicit Types x : Net (G := G) (D := D).

Definition netHandle x (i : netInput) (now : Z) : option Net :=
  match i with
  | NPacket buf from ts => ingestPacket cfg nc nonceAt x buf from ts now
  | NQueued =>
      match getNextMessage x with
      | None => Some x
      | Some (msg, x) => handleQueued cfg nc x msg now
      end
  | NNack cancelCh sawCancel => finishNack cfg nc nonceAt x cancelCh sawCancel
  | NAckTimer id => Some (set_acks x (fireAckTimer (x_acks x) id now))
  | NDeliver i =>
      let '(t, r) := deliver (x_acks x) i now in
      match r with
      | Some r => runRelay cfg nc nonceAt (set_acks x t) r
      | None => Some (set_acks x t)
      end
  | NStream inp c pushPulls => '(_, x) ← handleConn cfg nc nonceAt errorText x inp c pushPulls now; Some x
  | NPushPull a join peer => '(_, x) ← pushPullNode cfg nc nonceAt x a join peer now; Some x
  | NStreamPing a p peer => '(_, x) ← sendPingAndWaitForAck cfg nc nonceAt x a p peer; Some x
  | NMember i => m ← handle cfg (x_m x) i now; Some (set_m x m)
  end.

(** Broadcast numbers an input may use up. *)
Definition netCost (i : netInput) : Z :=
  match i with
  | NQueued => 1
  | NStream _ _ _ | NPushPull _ _ _ => maxPushStateNodes
  | NMember i => Membership.cost i
  | _ => 0
  end.
Definition totalCost (l : list (netInput * Z)) : Z := foldr (fun i n => netCost i.1 + n) 0 l.

(** An input that comes from others. *)
Definition foreign (i : netInput) : bool :=
  match i with NMember i => remoteInput i | _ => true end.

Fixpoint runNet x (l : list (netInput * Z)) : option Net :=
  match l with
  | [] => Some x
  | (i, now) :: l => x ← netHandle x i now; runNet x l
  end.
End System.

(** ** Lemmas: the membership behind the queues *)

Abbreviation gen m := (q_idGen (m_broadcasts m)).

Section Behind.
Context {G : Type} {RG : Rand G} {RL : RandLaws G} {ML : MathLog} (cfg : Config).
Implicit Types m : Memberlist (G := G).

Lemma mergeState_gen m remote now :
  state_ok cfg m -> room (len remote) m ->
  exists m', mergeState cfg m remote now = Some m' /\ gen m' <= gen m + len remote.
Proof.
  revert m. induction remote as [|r remote IH]; intros m Hok Hr; cbn [mergeState]; [exists m; split; [done|]; change (len []) with 0; lia|].
  unfold room in Hr. rewrite len_cons in *. pose proof (len_nonneg remote).
  destruct (mergeNode_ok cfg m r now Hok) as (m1 & -> & Hok1 & Hg); [unfold room; lia|]. cbn [mbind option_bind].
  destruct (IH m1 Hok1) as (m' & -> & Hg'); [unfold room; lia|]. exists m'. split; [done|lia].
Qed.

(** An input from others is handled, keeps the invariant and the local node,
    and queues no more broadcasts than its cost. *)
Lemma handle_remote m i now :
  state_ok cfg m -> room (Membership.cost i) m -> remoteInput i = true ->
  exists m', handle cfg m i now = Some m' /\ state_ok cfg m' /\ keepsLocal cfg m m' /\ gen m' <= gen m + Membership.cost i.
Proof.
  intros Hok Hr Hi. destruct (handle_ok cfg m i now Hok Hr) as (m' & E & Hok').
  exists m'. split_and!; [done|done|by eapply handle_keepsLocal|].
  destruct i as [a|x|d|remote|id|k| | |inc addr port meta r|meta n r|r| |]; try done; cbn [handle Membership.cost] in *.
  - destruct (aliveNode_ok cfg m a false now Hok Hr) as (m1 & E1 & _ & ?). simplify_eq. lia.
  - destruct (suspectNode_ok cfg m x now Hok Hr) as (m1 & E1 & _ & ?). simplify_eq. lia.
  - destruct (deadNode_ok cfg m d now Hok Hr) as (m1 & E1 & _ & ?). simplify_eq. lia.
  - destruct (mergeState_gen m remote now Hok Hr) as (m1 & E1 & ?). simplify_eq. lia.
  - simplify_eq. unfold expireDue, expireTimer. destruct (tt_heap (m_timers m) !! id) as [p|]; [|lia].
    destruct (s_timer (p_susp p)); [|lia]. destruct (_ <=? now); cbn; lia.
  - destruct (runCallback_outcome cfg m k now Hok Hr) as (m1 & E1 & Ho). simplify_eq.
    destruct Ho as [|id m1 _ _ ->|id p s m0 m1 _ _ _ _ _ _ -> Ho _]; [lia|cbn; lia|]. apply dead_outcome_gen in Ho. exact Ho.
  - destruct (resetNodes_ok cfg m now Hok) as (m1 & E1 & _ & _ & Hrest & _). simplify_eq. rewrite Hrest. cbn. lia.
Qed.
End Behind.

(** ** Lemmas: every input is handled *)

Section Inputs.
Context {G : Type} {RG : Rand G} {RL : RandLaws G} {ML : MathLog} {LZ : LZW} {GC : GCM} {TR : Transport} {D : Type} {DL : Delegates D}.
Context (cfg : Config) (nc : NetConfig) (nonceAt : Z -> bytes) (errorText : streamError -> string) (Hk : keys_ok nc).
Implicit Types x : Net (G := G) (D := D).

(** What an input from others leaves: [n] broadcasts were queued at most. *)
Record survives (n : Z) x x' : Prop := {
  sv_ok : net_ok cfg nc x';
  sv_local : keepsLocal cfg (x_m x) (x_m x');
  sv_gen : gen (x_m x') <= gen (x_m x) + n;
}.

Lemma survives_trans n1 n2 x1 x2 x3 : survives n1 x1 x2 -> survives n2 x2 x3 -> survives (n1 + n2) x1 x3.
Proof. intros [] []. constructor; [done|by eapply keepsLocal_trans|lia]. Qed.

Lemma onlyQueue_keeps (m m' : Memberlist (G := G)) : onlyQueue m m' -> keepsLocal cfg m m' /\ gen m' = gen m.
Proof.
  intros H. split; [apply keepsLocal_same; [|by apply onlyQueue_members]|]; destruct H as (q & f & g & -> & _ & Hg); [done|exact Hg].
Qed.

Lemma handled_survives x x' : handled cfg nc x x' -> survives 0 x x'.
Proof. intros [H1 H2 _ _]. destruct (onlyQueue_keeps _ _ H2). constructor; [done|done|lia]. Qed.

Lemma survives_same x x' : net_ok cfg nc x' -> x_m x' = x_m x -> survives 0 x x'.
Proof. intros Hx E. constructor; [done|by apply keepsLocal_same; rewrite E|rewrite E; lia]. Qed.

Lemma member_survives x i now :
  net_ok cfg nc x -> room (Membership.cost i) (x_m x) -> remoteInput i = true ->
  exists m, handle cfg (x_m x) i now = Some m /\ survives (Membership.cost i) x (set_m x m).
Proof.
  intros Hx Hr Hi. destruct (handle_remote cfg (x_m x) i now (no_state _ _ _ Hx) Hr Hi) as (m & E & Hok & Hl & Hg).
  exists m. split; [done|]. destruct Hx. constructor; [by constructor|done|done].
Qed.

Lemma handleQueued_survives x msg now :
  net_ok cfg nc x -> room 1 (x_m x) -> exists x', handleQueued cfg nc x msg now = Some x' /\ survives 1 x x'.
Proof.
  intros Hx Hr. assert (Hsame : survives 1 x x).
  { eapply (survives_trans 0 1); [by apply survives_same|]. constructor; [done|by apply keepsLocal_same|lia]. }
  unfold handleQueued. destruct msg as [t buf from].
  destruct (t =? suspectMsg); [|destruct (t =? aliveMsg); [|destruct (t =? deadMsg); [|destruct (t =? userMsg); [|by exists x]]]].
  - unfold handleSuspect. destruct (decode KSuspect buf) as [[| | | | |s| | | | | |]|]; try by exists x.
    destruct (member_survives x (InSuspect s) now Hx Hr eq_refl) as (m & E & H). cbn [handle] in E. rewrite E. by eexists.
  - unfold handleAlive. destruct (negb (ensureCanConnect _ _)); [by exists x|].
    destruct (decode KAlive buf) as [[| | | | | |a| | | | |]|]; try by exists x. destruct (_ && _); [by exists x|].
    set (a' := MkAlive _ _ _ _ _ _).
    destruct (member_survives x (InAlive a') now Hx Hr eq_refl) as (m & E & H). cbn [handle] in E. rewrite E. by eexists.
  - unfold handleDead. destruct (decode KDead buf) as [[| | | | | | |d| | | |]|]; try by exists x.
    destruct (member_survives x (InDead d) now Hx Hr eq_refl) as (m & E & H). cbn [handle] in E. rewrite E. by eexists.
  - eexists. split; [done|]. unfold handleUser. destruct (nc_Delegate nc); [|done].
    constructor; [destruct Hx; by constructor|by apply keepsLocal_same|cbn; lia].
Qed.

Lemma getNextMessage_ok x msg x' :
  getNextMessage x = Some (msg, x') -> net_ok cfg nc x -> net_ok cfg nc x' /\ x_m x' = x_m x.
Proof.
  unfold getNextMessage. intros E [H1 H2 H3 H4].
  assert (Ht : forall l : list msgHandoff, len l <= Z.max 0 (nc_HandoffQueueDepth nc) ->
    len (take (length l - 1) l) <= Z.max 0 (nc_HandoffQueueDepth nc)).
  { intros l Hl. unfold len in *. rewrite length_take. lia. }
  revert E. destruct (last (x_high x)); [intros [= <- <-]; split; [constructor; cbn; eauto|done]|].
  destruct (last (x_low x)); [intros [= <- <-]; split; [constructor; cbn; eauto|done]|done].
Qed.

Lemma room_merges x now :
  net_ok cfg nc x -> room maxPushStateNodes (x_m x) ->
  forall remote, len remote <= maxPushStateNodes -> is_Some (mergeState cfg (x_m x) remote now).
Proof.
  intros Hx Hr remote Hl. destruct (mergeState_gen cfg (x_m x) remote now (no_state _ _ _ Hx)) as (m & -> & _); [|by eexists].
  unfold room in *. lia.
Qed.

(** A peer's state, of whatever content. *)
Lemma merges_survives x remote now x' :
  net_ok cfg nc x -> room maxPushStateNodes (x_m x) -> len remote <= maxPushStateNodes ->
  merges cfg x remote now x' -> survives maxPushStateNodes x x'.
Proof.
  intros Hx Hr Hl [(d & n & ->)|(m & d & n & Em & ->)].
  - assert (Hs : survives 0 x (set_sent (set_delegate x d) n (x_sent x))) by (apply survives_same; [by destruct Hx; constructor|done]).
    destruct Hs as [? ? Hg]. constructor; [done..|]. change maxPushStateNodes with 1048576. lia.
  - destruct (member_survives x (InMerge remote) now Hx) as (m' & E & H); [cbn [Membership.cost]; unfold room in *; lia|done|].
    cbn [handle] in E. simplify_eq. destruct H as [[? ? ? ?] ? Hg]. cbn [Membership.cost] in Hg.
    constructor; [by constructor|done|]. cbn in *. lia.
Qed.

Lemma talks_survives x x' : net_ok cfg nc x -> talks x x' -> survives 0 x x'.
Proof. intros Hx (d & n & ->). apply survives_same; [by destruct Hx; constructor|done]. Qed.

Lemma netHandle_survives x i now :
  net_ok cfg nc x -> room (netCost i) (x_m x) -> foreign i = true ->
  exists x', netHandle cfg nc nonceAt errorText x i now = Some x' /\ survives (netCost i) x x'.
Proof.
  intros Hx Hr Hf. destruct i as [buf from ts| |c b|id|i|inp c n|a join peer|a p peer|i]; cbn [netHandle netCost] in *.
  - destruct (ingestPacket_total cfg nc nonceAt Hk x buf from ts now Hx) as (x' & E & H). exists x'. split; [done|]. by apply handled_survives.
  - destruct (getNextMessage x) as [[msg x1]|] eqn:E.
    + destruct (getNextMessage_ok x msg x1 E Hx) as [H1 Em].
      destruct (handleQueued_survives x1 msg now H1) as (x' & E' & H); [by rewrite Em|]. exists x'. split; [done|].
      apply (survives_trans 0 1) with x1; [by apply survives_same|done].
    + exists x. split; [done|]. constructor; [done|by apply keepsLocal_same|lia].
  - unfold finishNack. pose proof (survives_same x x Hx eq_refl) as Hs. destruct (x_nacks x !! c) as [w|]; [|by exists x].
    destruct (b && _); [by exists x|].
    assert (H1 : net_ok cfg nc (set_cancels x (x_cancels x) (delete c (x_nacks x)))) by (destruct Hx; by constructor).
    destruct b; [eexists; split; [done|]; by apply survives_same|].
    destruct (sendLogged_handled cfg nc nonceAt Hk _ (nw_Addr w, nw_Name w) nackRespMsg (MNackResp (MkNackResp (nw_SeqNo w))) H1)
      as (x' & E & H). exists x'. split; [done|]. apply (survives_trans 0 0) with (set_cancels x (x_cancels x) (delete c (x_nacks x)));
      [by apply survives_same|by apply handled_survives].
  - eexists. split; [done|]. apply survives_same; [|done]. destruct Hx as [A1 A2 A3 A4]. constructor; try done.
    eapply relays_mono; [| |exact A2]; cbn; unfold fireAckTimer;
      (destruct (k_timers (x_acks x) !! id) as [tm|]; [|done]); (destruct (tm_due tm); [|done]); (destruct (_ <=? now); [|done]); cbn.
    + intros seqNo ah. by intros [_ ?]%lookup_delete_Some.
    + intros ah p ts [?|Hin]%elem_of_app; [done|]. by apply list_elem_of_singleton in Hin.
  - destruct (deliver_frame (x_acks x) i now) as [Eh Ef]. pose proof (deliver_relay (x_acks x) i now) as Hd.
    destruct (deliver (x_acks x) i now) as [t o]. cbn [fst snd] in *. destruct o as [r|].
    { destruct (Hd r eq_refl) as (ah & p & ts & Hi & Hfn). destruct Hx as [_ [_ _ H3] _ _].
      by destruct (H3 ah p ts r (list_elem_of_lookup_2 _ _ _ Hi)). }
    eexists. split; [done|]. apply survives_same; [|done]. destruct Hx as [A1 A2 A3 A4]. constructor; try done.
    eapply relays_mono; [| |exact A2]; cbn; [by rewrite Eh|]. intros ah p ts. rewrite Ef. intros Hin.
    eapply elem_of_submseteq; [exact Hin|]. apply sublist_submseteq, sublist_delete.
  - destruct (handleConn_total cfg nc nonceAt errorText Hk x inp c n now) as (c' & x' & remote & -> & Hl & H); [by apply room_merges|].
    exists x'. split; [done|]. by eapply merges_survives.
  - destruct (pushPullNode_total cfg nc nonceAt Hk x a join peer now) as (r & x' & remote & -> & Hl & H); [by apply room_merges|].
    exists x'. split; [done|]. by eapply merges_survives.
  - destruct (sendPingAndWaitForAck_total cfg nc nonceAt Hk x a p peer) as (r & x' & -> & H).
    exists x'. split; [done|]. by apply talks_survives.
  - destruct (member_survives x i now Hx Hr Hf) as (m & -> & H). by eexists.
Qed.

Lemma netCost_nonneg i : 0 <= netCost i.
Proof. destruct i as [| | | | | | | |i]; cbn; [lia || by vm_compute..|]. destruct i; cbn; try lia. apply len_nonneg. Qed.

Lemma totalCost_nonneg l : 0 <= totalCost l.
Proof. induction l as [|[i now] l IH]; cbn; [done|]. pose proof (netCost_nonneg i). unfold totalCost in IH. lia. Qed.

Lemma runNet_survives x l :
  net_ok cfg nc x -> room (totalCost l) (x_m x) -> Forall (fun i => foreign i.1 = true) l ->
  exists x', runNet cfg nc nonceAt errorText x l = Some x' /\ survives (totalCost l) x x'.
Proof.
  revert x. induction l as [|[i now] l IH]; intros x Hx Hr Hf; cbn [runNet].
  - exists x. split; [done|]. by apply survives_same.
  - apply Forall_cons in Hf as [Hi Hf]. change (totalCost ((i, now) :: l)) with (netCost i + totalCost l) in *.
    pose proof (netCost_nonneg i). pose proof (totalCost_nonneg l). unfold room in Hr.
    destruct (netHandle_survives x i now Hx) as (x1 & -> & H1); [unfold room; lia|done|]. cbn [mbind option_bind].
    destruct (IH x1 (sv_ok _ _ _ H1)) as (x' & E & H2); [pose proof (sv_gen _ _ _ H1); unfold room; lia|done|].
    exists x'. split; [done|]. by eapply survives_trans.
Qed.
End Inputs.

(** ** Lemmas: what is sent is received *)

Section Delivery.
Context {LZ : LZW} {LL : LZWLaws} {GC : GCM} {GL : GCMLaws}.
Implicit Types nc : NetConfig.

(** The receiver has the sender's primary key, and none that it tries before
    opens the packet [wire] by accident. *)
Definition shares_key (ncS ncR : NetConfig) (nonce wire : bytes) : Prop :=
  EncryptionEnabled ncR = true /\
  exists kS kR g pre post,
    nc_Keyring ncS = Some kS /\ primaryAEAD kS = Some g /\ nc_Keyring ncR = Some kR /\
    getAEADs kR = pre ++ g :: post /\
    Forall (fun g' => Open g' nonce (drop (Z.to_nat (labelOverhead (nc_Label ncR) + 13)) wire) (str2b (nc_Label ncR)) = None) pre.

Lemma shrink_first nc msg t : firstByte msg = Some t -> firstByte (shrink nc msg) = Some t \/ firstByte (shrink nc msg) = Some compressMsg.
Proof.
  intros Ht. unfold shrink. destruct (_ && _); [|by left]. destruct (_ <? _); [|by left]. right.
  unfold compressPayload. by rewrite encode_cons.
Qed.

Lemma checkCrc_header crc msg : 0 <= crc < 2 ^ 32 ->
  checkCrc (z2b hasCrcMsg :: be 4 crc ++ msg) = if ChecksumIEEE msg =? crc then Some msg else None.
Proof.
  intros Hc. unfold checkCrc. cbn [List.hd]. rewrite len_cons, len_app, len_be. pose proof (len_nonneg msg).
  rewrite (proj2 (Z.geb_le _ _)) by lia. rewrite b2z_z2b_small by (unfold hasCrcMsg; lia). rewrite Z.eqb_refl. cbn [andb].
  change (drop 5 (z2b hasCrcMsg :: be 4 crc ++ msg)) with (drop 4 (be 4 crc ++ msg)).
  cbn [drop]. rewrite drop_0. assert (Hl : length (be 4 crc) = 4%nat) by (apply Nat2Z.inj; apply len_be).
  rewrite <- Hl, drop_app_length, take_app_length, Hl. rewrite be_value_be by lia.
  rewrite Z.mod_small by apply Hc. by destruct (ChecksumIEEE msg =? crc).
Qed.

(** The checksum in front of a packet is checked and taken off. *)
Lemma crc_removed node msg t :
  firstByte msg = Some t -> t <> hasCrcMsg -> checkCrc (withCrc node msg) = Some msg.
Proof.
  intros Ht Hne. assert (Hplain : checkCrc msg = Some msg).
  { apply firstByte_head in Ht as (c & r & -> & <-). unfold checkCrc. cbn [List.hd]. rewrite (proj2 (Z.eqb_neq _ _) Hne).
    by rewrite andb_false_r. }
  unfold withCrc. destruct node as [n|]; [|done]. destruct (n_PMax n >=? 5); [|done].
  rewrite checkCrc_header by apply ChecksumIEEE_range. by rewrite Z.eqb_refl.
Qed.

Lemma label_added label buf wire : AddLabelHeaderToPacket buf label = Ok wire -> drop (Z.to_nat (labelOverhead label)) wire = buf.
Proof.
  unfold AddLabelHeaderToPacket, labelOverhead. destruct (String.eqb label ""); [intros [= <-]; apply drop_0|].
  destruct (_ >? _); [done|]. intros [= <-]. unfold makeLabelHeader.
  replace (Z.to_nat (2 + len (str2b label))) with (S (S (length (str2b label)))) by (unfold len; lia). cbn [app drop].
  apply drop_app_length.
Qed.

(** A packet that was sealed or left plain, and labelled, is opened. *)
Lemma openPacket_sent ncS ncR vsn nonce body wire t :
  nc_Label ncR = nc_Label ncS -> nc_SkipInboundLabelCheck ncR = false ->
  vsn = 0 \/ vsn = 1 -> firstByte body = Some t -> t <> hasLabelMsg -> len body + 16 <= gcmMax ->
  (if encrypting ncS then len nonce = nonceSize /\ shares_key ncS ncR nonce wire else EncryptionEnabled ncR = false) ->
  (if encrypting ncS then
     exists k g, nc_Keyring ncS = Some k /\ primaryAEAD k = Some g /\
       AddLabelHeaderToPacket (sealPayload vsn g nonce body (str2b (nc_Label ncS)) []) (nc_Label ncS) = Ok wire
   else AddLabelHeaderToPacket body (nc_Label ncS) = Ok wire) ->
  openPacket ncR wire = Some body.
Proof.
  intros Hl Hs Hv Ht Hne Hm Hk Hw. unfold openPacket. destruct (encrypting ncS).
  - destruct Hk as [Hn [He (kS & kR & g & pre & post & EkS & Eg & EkR & Ea & Hpre)]].
    destruct Hw as (k & g' & Ek & Eg' & Hw). simplify_eq.
    assert (Hf : firstByte (sealPayload vsn g nonce body (str2b (nc_Label ncS)) []) = Some vsn).
    { unfold sealPayload, firstByte. cbn. f_equal. apply b2z_z2b_small. lia. }
    rewrite (label_removed _ _ _ _ Hw Hf) by (unfold hasLabelMsg; lia). rewrite Hs. cbn [andb negb].
    rewrite Hl, String.eqb_refl. cbn [negb]. rewrite He, EkR, Ea.
    rewrite open_sealed; [done|done|done|done|].
    rewrite Hl in Hpre. apply label_added in Hw. eapply Forall_impl; [exact Hpre|]. intros g' Hg'. rewrite <- Hw. rewrite drop_drop. revert Hg'. by replace (Z.to_nat (labelOverhead (nc_Label ncS)) + 13)%nat with (Z.to_nat (labelOverhead (nc_Label ncS) + 13))
      by (unfold labelOverhead; destruct (String.eqb _ _); pose proof (len_nonneg (str2b (nc_Label ncS))); lia).
  - rewrite (label_removed _ _ _ _ Hw Ht Hne), Hs. cbn [andb negb]. rewrite Hl, String.eqb_refl. cbn [negb]. by rewrite Hk.
Qed.
End Delivery.

Section Sent.
Context {G : Type} {RG : Rand G} {ML : MathLog} {LZ : LZW} {LL : LZWLaws} {GC : GCM} {GL : GCMLaws} {TR : Transport} {D : Type} {DL : Delegates D}.
Context (cfg : Config) (nc : NetConfig) (nonceAt : Z -> bytes).
Implicit Types x : Net (G := G) (D := D).

Lemma writePacket_Ok x a buf x' : writePacket nc x a buf = (Ok tt, x') ->
  exists wire, AddLabelHeaderToPacket buf (nc_Label nc) = Ok wire /\ x_sent x' = x_sent x ++ [(a, wire)].
Proof.
  unfold writePacket. destruct (AddLabelHeaderToPacket buf (nc_Label nc)) as [wire|]; [|done].
  destruct (WriteToAddress _ _ _); [done|]. intros [= <-]. by exists wire.
Qed.

(** A packet that was sent is what the steps make of the message. *)
Lemma rawSendMsgPacket_Ok x a node msg x' :
  rawSendMsgPacket cfg nc nonceAt x a node msg = Some (Ok tt, x') ->
  exists node' wire, x_sent x' = x_sent x ++ [(a, wire)] /\
    let body := withCrc node' (shrink nc msg) in
    if encrypting nc then
      exists k g, nc_Keyring nc = Some k /\ primaryAEAD k = Some g /\
        AddLabelHeaderToPacket (sealPayload (encryptionVersion cfg) g (nonceAt (x_nonces x)) body (str2b (nc_Label nc)) []) (nc_Label nc) = Ok wire
    else AddLabelHeaderToPacket body (nc_Label nc) = Ok wire.
Proof.
  unfold rawSendMsgPacket. destruct (_ && _); [done|].
  destruct (match node with Some n => Ok (Some n) | None => _ end) as [node'|]; [|done].
  destruct (encrypting nc).
  - destruct (nc_Keyring nc) as [k|]; [|done]. cbn [mbind option_bind]. destruct (primaryAEAD k) as [g|] eqn:Eg; [|done]. cbn [mbind option_bind].
    intros [= (wire & Hw & Hs)%writePacket_Ok]. exists node', wire. split; [exact Hs|]. by exists k, g.
  - intros [= (wire & Hw & Hs)%writePacket_Ok]. by exists node', wire.
Qed.

Lemma len_withCrc node msg : len msg <= len (withCrc node msg) <= len msg + crcOverhead.
Proof.
  unfold withCrc. destruct node as [n|]; [destruct (_ >=? 5)|]; rewrite ?len_cons, ?len_app, ?len_be; unfold crcOverhead; lia.
Qed.

Lemma len_shrink msg : len (shrink nc msg) <= len msg.
Proof. unfold shrink. destruct (_ && _); [|lia]. destruct (Z.ltb_spec (len (compressPayload msg)) (len msg)); lia. Qed.

(** A message that is no envelope: what senders put in packets. *)
Definition plain (msg : bytes) : Prop :=
  exists t, firstByte msg = Some t /\ t <> compoundMsg /\ t <> compressMsg /\ t <> hasCrcMsg /\ t <> hasLabelMsg.

(** It is handled alike at every depth. *)
Lemma plain_env fuel x msg from ts now env :
  plain msg -> handleCommandIn cfg nc nonceAt fuel x msg from ts now env = handleCommand cfg nc nonceAt x msg from ts now.
Proof.
  intros (t & (c & r & -> & <-)%firstByte_head & H1 & H2 & _). unfold handleCommand.
  destruct fuel; cbn [handleCommandIn]; by rewrite !(proj2 (Z.eqb_neq _ _)) by done.
Qed.

Lemma handleParts_ext (f g : Net (G := G) (D := D) -> bytes -> option (Net (G := G) (D := D))) (P : bytes -> Prop) x parts :
  (forall x part, P part -> f x part = g x part) -> Forall P parts -> handleParts f x parts = handleParts g x parts.
Proof.
  intros Hfg HP. revert x. induction HP as [|p parts Hp _ IH]; intros x; [done|]. cbn [handleParts]. rewrite Hfg by done.
  destruct (g x p); [|done]. cbn [mbind option_bind]. apply IH.
Qed.

(** One packet's content: a message as it is, several in a compound. *)
Definition packed (parts : list bytes) : bytes :=
  match parts with [m] => m | _ => makeCompoundMessage parts end.

Lemma packed_first parts : Forall plain parts -> exists t, firstByte (packed parts) = Some t /\
  t <> compressMsg /\ t <> hasCrcMsg /\ t <> hasLabelMsg.
Proof.
  intros Hp. assert (Hc : forall ps, firstByte (makeCompoundMessage ps) = Some compoundMsg) by done.
  destruct Hp as [|p parts (t & ? & ? & ? & ? & ?) Hps]; [by eexists|]. destruct parts; [by exists t|by eexists].
Qed.

Lemma handle_packed fuel x parts from ts now env :
  Z.land env inCompound = 0 -> Forall plain parts -> len parts <= 255 -> Forall (fun m => len m <= 65535) parts ->
  handleCommandIn cfg nc nonceAt (S fuel) x (packed parts) from ts now env =
  handleParts (fun x part => handleCommand cfg nc nonceAt x part from ts now) x parts.
Proof.
  intros Henv Hp Hn Hl.
  assert (Hc : handleCommandIn cfg nc nonceAt (S fuel) x (makeCompoundMessage parts) from ts now env =
    handleParts (fun x part => handleCommand cfg nc nonceAt x part from ts now) x parts).
  { pose proof (compound_decodes parts [] Hn Hl) as Hd. rewrite app_nil_r in Hd. unfold makeCompoundMessage in Hd |- *.
    cbn [app handleCommandIn drop] in *. change (b2z (z2b compoundMsg)) with compoundMsg. rewrite Z.eqb_refl, Henv. cbn [Z.eqb negb].
    rewrite Hd. eapply handleParts_ext; [|exact Hp]. intros y part Hpart. by apply plain_env. }
  destruct parts as [|p [|q parts]]; [exact Hc| |exact Hc]. cbn [packed handleParts].
  apply Forall_cons in Hp as [Hp _]. rewrite plain_env by done. by destruct (handleCommand _ _ _ _ _ _ _ _).
Qed.

Lemma open_compressed fuel x buf payload from ts now env :
  Z.land env inCompress = 0 -> decompressPayload buf = Ok payload ->
  handleCommandIn cfg nc nonceAt (S fuel) x (z2b compressMsg :: buf) from ts now env =
  handleCommandIn cfg nc nonceAt fuel x payload from ts now (Z.lor env inCompress).
Proof.
  intros Henv Hd. cbn [handleCommandIn]. change (b2z (z2b compressMsg)) with compressMsg.
  change (compressMsg =? compoundMsg) with false. by rewrite Z.eqb_refl, Henv, Hd.
Qed.

(** Compression does not change what is handled. *)
Lemma handle_shrunk ncS x parts from ts now :
  Forall plain parts -> len parts <= 255 -> Forall (fun m => len m <= 65535) parts -> len (packed parts) <= maxPacketDecompressedBytes ->
  handleCommand cfg nc nonceAt x (shrink ncS (packed parts)) from ts now =
  handleParts (fun x part => handleCommand cfg nc nonceAt x part from ts now) x parts.
Proof.
  intros Hp Hn Hl Hm. unfold handleCommand at 1, shrink. destruct (_ && _); [|by apply handle_packed].
  destruct (Z.ltb_spec (len (compressPayload (packed parts))) (len (packed parts))) as [Hlt|]; [|by apply handle_packed].
  pose proof (len_compressed (packed parts)). unfold maxPacketDecompressedBytes in Hm.
  pose proof (decompress_compressed (packed parts) Hm) as Hd.
  unfold compressPayload in *. rewrite encode_cons in *. cbn [drop] in Hd. rewrite drop_0 in Hd.
  erewrite open_compressed; [|done|apply Hd]; [by apply handle_packed|].
  change MaxCompressedBytes with 67108864. change (Z.shiftl 1 20) with 1048576 in Hm. lia.
Qed.
End Sent.

(** A packet between two nodes, of any kinds. *)
Lemma packet_arrives {GS DS GR DR} `{Rand GR} `{MathLog} `{LZWLaws} `{GCMLaws} `{Transport} `{Delegates DR}
    cfgS ncS nonceS cfgR ncR nonceR (x x' : Net (G := GS) (D := DS)) a node parts :
  rawSendMsgPacket cfgS ncS nonceS x a node (packed parts) = Some (Ok tt, x') ->
  Forall plain parts -> len parts <= 255 -> Forall (fun m => len m <= 65535) parts ->
  len (packed parts) <= maxPacketDecompressedBytes ->
  nc_Label ncR = nc_Label ncS -> nc_SkipInboundLabelCheck ncR = false ->
  exists wire, x_sent x' = x_sent x ++ [(a, wire)] /\
    ((if encrypting ncS then len (nonceS (x_nonces x)) = nonceSize /\ shares_key ncS ncR (nonceS (x_nonces x)) wire
      else EncryptionEnabled ncR = false) ->
     forall (y : Net (G := GR) (D := DR)) from ts now,
       ingestPacket cfgR ncR nonceR y wire from ts now =
       handleParts (fun y part => handleCommand cfgR ncR nonceR y part from ts now) y parts).
Proof.
  intros Hs Hp Hn Hl Hm Hlab Hskip. apply rawSendMsgPacket_Ok in Hs as (node' & wire & Hs & Hw). exists wire. split; [done|].
  intros Hkey y from ts now. destruct (packed_first parts Hp) as (t & Ht & Hc1 & Hc2 & Hc3).
  set (body := withCrc node' (shrink ncS (packed parts))) in *.
  assert (Hf : exists t, firstByte (shrink ncS (packed parts)) = Some t /\ t <> hasCrcMsg /\ t <> hasLabelMsg).
  { destruct (shrink_first ncS _ _ Ht) as [E|E]; [by exists t|by exists compressMsg]. }
  destruct Hf as (t' & Ht' & Hcrc & Hlbl).
  assert (Hb : exists t, firstByte body = Some t /\ t <> hasLabelMsg).
  { unfold body, withCrc. destruct node' as [nd|]; [|by exists t']. destruct (n_PMax nd >=? 5); [by exists hasCrcMsg|by exists t']. }
  destruct Hb as (tb & Htb & Hlb). unfold ingestPacket.
  rewrite (openPacket_sent ncS ncR (encryptionVersion cfgS) (nonceS (x_nonces x)) body wire tb); try done; [|apply vsn_cases|].
  - unfold body. rewrite (crc_removed node' _ t') by done. by apply handle_shrunk.
  - pose proof (len_withCrc node' (shrink ncS (packed parts))). pose proof (len_shrink ncS (packed parts)).
    change maxPacketDecompressedBytes with 1048576 in Hm. change gcmMax with 68719476704. unfold body, crcOverhead in *. lia.
Qed.

(** ** Lemmas: the packet budget *)

(** [GetBroadcasts] of a delegate stays within the limit it is given, each
    buffer with its overhead. *)
Class DelegateLaws (D : Type) `{Delegates D} : Prop := {
  DelegateGetBroadcasts_within overhead limit d : 0 <= limit ->
    foldr (fun m n => len m + overhead + n) 0 (DelegateGetBroadcasts overhead limit d).1 <= limit;
}.

Definition framed (overhead : Z) (msgs : list bytes) : Z := foldr (fun m n => len m + overhead + n) 0 msgs.

Lemma framed_app o l r : framed o (l ++ r) = framed o l + framed o r.
Proof. unfold framed. induction l as [|m l IH]; cbn [app foldr]; lia. Qed.

Lemma framed_fold o l n : fold_left (fun n msg => n + (len msg + o)) l n = n + framed o l.
Proof. unfold framed. revert n. induction l as [|m l IH]; intros n; cbn [fold_left foldr]; [lia|]. rewrite IH. lia. Qed.

Lemma framed_user o l : framed o (map frameUser l) = framed (o + userMsgOverhead) l.
Proof. unfold framed. induction l as [|m l IH]; cbn [map foldr]; [done|]. rewrite IH. unfold frameUser, userMsgOverhead. rewrite len_cons. lia. Qed.

Lemma framed_cost {B} (Message : B -> bytes) o (l : list (limitedBroadcast B)) :
  framed o (map (fun e => Message (lb_b e)) l) = Queue.cost Message o l.
Proof. induction l as [|e l IH]; [done|]. cbn. unfold framed in IH. rewrite IH. unfold Queue.cost. cbn. lia. Qed.

Lemma len_compound parts : len (makeCompoundMessage parts) = compoundHeaderOverhead + framed compoundOverhead parts.
Proof.
  unfold makeCompoundMessage. rewrite !len_app, length_lengths. change (len [_; _]) with 2. unfold compoundHeaderOverhead, framed.
  enough (len (concat parts) + 2 * len parts = foldr (fun m n => len m + compoundOverhead + n) 0 parts) by lia.
  induction parts as [|p parts IH]; [done|]. cbn [concat foldr]. rewrite len_app, len_cons, <- IH. unfold compoundOverhead. lia.
Qed.

Section Budget.
Context {G : Type} {RG : Rand G} {ML : MathLog} {LZ : LZW} {GC : GCM} {GL : GCMLaws} {TR : Transport} {D : Type} {DL : Delegates D} {DW : DelegateLaws D}.
Context (cfg : Config) (nc : NetConfig) (nonceAt : Z -> bytes).
Implicit Types x : Net (G := G) (D := D).

Lemma getBroadcasts_within x o limit msgs x' :
  queue_ok (m_broadcasts (x_m x)) -> 0 <= o -> getBroadcasts nc x o limit = Some (msgs, x') ->
  (msgs = [] \/ framed o msgs <= limit) /\ x_sent x' = x_sent x /\ x_nonces x' = x_nonces x.
Proof.
  intros Hq Ho. unfold getBroadcasts.
  destruct (GetBroadcasts_ok mb_msg (estNumNodes (x_m x)) (m_rng (x_m x)) (m_broadcasts (x_m x)) o limit Hq Ho)
    as (q' & g' & sent & rest & -> & _ & _ & _ & Hs & _). cbn [mbind option_bind].
  set (toSend := map _ sent). assert (Hc : toSend = [] \/ framed o toSend <= limit).
  { destruct Hs as [->|Hs]; [by left|right]. unfold toSend. by rewrite framed_cost. }
  destruct (nc_Delegate nc); [|by intros [= <- <-]]. rewrite framed_fold.
  destruct (Z.gtb_spec (limit - (0 + framed o toSend)) (o + userMsgOverhead)) as [Hg|]; [|by intros [= <- <-]].
  destruct (DelegateGetBroadcasts _ _ _) as [u d] eqn:Eu. intros [= <- <-]. split; [right|done].
  rewrite framed_app, framed_user.
  match type of Eu with DelegateGetBroadcasts ?a ?b ?c = _ => pose proof (DelegateGetBroadcasts_within a b c) as Hw end.
  rewrite Eu in Hw. cbn [fst] in Hw. specialize (Hw ltac:(unfold userMsgOverhead in *; lia)). unfold framed at 2. lia.
Qed.

(** What a send adds around a message. *)
Definition envelopeOverhead : Z :=
  crcOverhead + labelOverhead (nc_Label nc) +
  (if encrypting nc then default 0 (encryptOverhead (encryptionVersion cfg)) else 0).

Lemma label_length buf wire : AddLabelHeaderToPacket buf (nc_Label nc) = Ok wire -> len wire = labelOverhead (nc_Label nc) + len buf.
Proof.
  unfold AddLabelHeaderToPacket, labelOverhead. destruct (String.eqb _ _); [intros [= <-]; lia|]. destruct (_ >? _); [done|].
  intros [= <-]. unfold makeLabelHeader. cbn [app]. rewrite !len_cons, len_app. lia.
Qed.

Lemma writePacket_sent x a buf : exists l, x_sent (writePacket nc x a buf).2 = x_sent x ++ l /\
  Forall (fun p => p.1 = a /\ len p.2 = labelOverhead (nc_Label nc) + len buf) l.
Proof.
  unfold writePacket. destruct (AddLabelHeaderToPacket buf (nc_Label nc)) as [wire|] eqn:E.
  - exists [(a, wire)]. split; [done|]. constructor; [|done]. split; [done|]. by apply label_length.
  - exists []. by rewrite app_nil_r.
Qed.

Lemma rawSendMsgPacket_sent x a node msg r x' limit :
  (forall i, len (nonceAt i) = nonceSize) -> limit <= MaxUint32 -> len msg + envelopeOverhead <= limit ->
  rawSendMsgPacket cfg nc nonceAt x a node msg = Some (r, x') ->
  exists l, x_sent x' = x_sent x ++ l /\ Forall (fun p => p.1 = a /\ len p.2 <= limit) l.
Proof.
  intros Hn Hlim Hmsg. unfold rawSendMsgPacket, envelopeOverhead in *.
  destruct (_ && _); [intros [= <- <-]; exists []; by rewrite app_nil_r|].
  destruct (match node with Some n => Ok (Some n) | None => _ end) as [node'|]; [|intros [= <- <-]; exists []; by rewrite app_nil_r].
  pose proof (len_withCrc node' (shrink nc msg)) as Hw. pose proof (len_shrink nc msg) as Hs. pose proof (len_nonneg (shrink nc msg)).
  assert (Hw0 : 0 <= labelOverhead (nc_Label nc)).
  { unfold labelOverhead. destruct (String.eqb _ _); [done|]. pose proof (len_nonneg (str2b (nc_Label nc))). lia. }
  destruct (encrypting nc) eqn:Ee.
  - destruct (nc_Keyring nc) as [k|]; [|done]. cbn [mbind option_bind]. destruct (primaryAEAD k) as [g|]; [|done]. cbn [mbind option_bind].
    set (body := withCrc node' (shrink nc msg)) in *.
    destruct (encryptedLength_overhead (encryptionVersion cfg) (len body) (vsn_cases cfg) (len_nonneg body)) as (o & Eo & Ho).
    rewrite Eo in Hmsg. change (default 0 (Some o)) with o in Hmsg.
    assert (Hgcm : len body + 16 <= gcmMax).
    { change gcmMax with 68719476704. unfold MaxUint32, crcOverhead in *. unfold encryptOverhead in Eo.
      destruct (vsn_cases cfg) as [E|E]; rewrite E in Eo; cbn in Eo; injection Eo as <-; lia. }
    match goal with |- context[writePacket nc ?y a ?b] => destruct (writePacket_sent y a b) as (l & El & Hl);
      destruct (writePacket nc y a b) as [r0 x0] end.
    intros [= <- <-]. exists l. split; [exact El|]. eapply Forall_impl; [exact Hl|]. intros p [Ha Hp]. split; [exact Ha|].
    rewrite Hp, len_sealPayload by (done || apply vsn_cases || apply Hn). change (len []) with 0. unfold crcOverhead in *. lia.
  - match goal with |- context[writePacket nc ?y a ?b] => destruct (writePacket_sent y a b) as (l & El & Hl);
      destruct (writePacket nc y a b) as [r0 x0] end.
    intros [= <- <-]. exists l. split; [exact El|]. eapply Forall_impl; [exact Hl|]. intros p [Ha Hp]. split; [exact Ha|]. rewrite Hp. lia.
Qed.

Lemma sendMsg_sent x a msg r x' :
  queue_ok (m_broadcasts (x_m x)) -> (forall i, len (nonceAt i) = nonceSize) -> nc_packetBufferSize nc <= MaxUint32 ->
  len msg + envelopeOverhead <= nc_packetBufferSize nc -> sendMsg cfg nc nonceAt x a msg = Some (r, x') ->
  exists l, x_sent x' = x_sent x ++ l /\ Forall (fun p => p.1 = a /\ len p.2 <= nc_packetBufferSize nc) l.
Proof.
  intros Hq Hn Hb Hmsg. unfold sendMsg. set (avail := _ - labelOverhead _).
  assert (He : exists b, (if encrypting nc then o ← encryptOverhead (encryptionVersion cfg); Some (avail - o) else Some avail) = Some b /\
    b = nc_packetBufferSize nc - len msg - compoundHeaderOverhead - compoundOverhead - envelopeOverhead).
  { unfold envelopeOverhead, avail. destruct (encrypting nc); [|eexists; split; [done|lia]].
    destruct (encryptOverhead_some cfg) as [o ->]. eexists. split; [done|]. change (default 0 (Some o)) with o. lia. }
  destruct He as (b & -> & Hbv). cbn [mbind option_bind]. destruct (getBroadcasts nc x compoundOverhead b) as [[extra x1]|] eqn:Eg; [|done].
  cbn [mbind option_bind]. destruct (getBroadcasts_within x compoundOverhead b extra x1 Hq ltac:(done) Eg) as (Hc & Es & _).
  destruct extra as [|e extra].
  - intros H. rewrite <- Es. by eapply rawSendMsgPacket_sent.
  - intros H. rewrite <- Es. eapply rawSendMsgPacket_sent; [done..| |exact H]. rewrite len_compound.
    destruct Hc as [?|Hc]; [done|]. unfold framed in *. cbn [foldr] in *. lia.
Qed.
End Budget.

(** ** Lemmas: the handoff queues *)

Section Handoff.
Context {G : Type} {RG : Rand G} {ML : MathLog} {GC : GCM} {D : Type} {DL : Delegates D}.
Context (cfg : Config) (nc : NetConfig).
Implicit Types x : Net (G := G) (D := D).

(** Handling a queued message does not look at the queues. *)
Lemma handleQueued_queues x hi lo w msg now :
  handleQueued cfg nc (set_queues x hi lo w) msg now = (fun y => set_queues y hi lo w) <$> handleQueued cfg nc x msg now.
Proof.
  destruct msg as [t buf from]. unfold handleQueued. destruct (t =? suspectMsg).
  { unfold handleSuspect. destruct (decode KSuspect buf) as [[]|]; try done. cbn [x_m set_queues]. by destruct (suspectNode _ _ _ _). }
  destruct (t =? aliveMsg).
  { unfold handleAlive. destruct (negb _); [done|]. destruct (decode KAlive buf) as [[]|]; try done. destruct (_ && _); [done|].
    cbn [x_m set_queues]. by destruct (aliveNode _ _ _ _ _). }
  destruct (t =? deadMsg).
  { unfold handleDead. destruct (decode KDead buf) as [[]|]; try done. cbn [x_m set_queues]. by destruct (deadNode _ _ _ _). }
  destruct (t =? userMsg); [|done]. unfold handleUser. by destruct (nc_Delegate nc).
Qed.

(** Messages handled one after the other, each at its time. *)
Fixpoint handleAll x (msgs : list (msgHandoff * Z)) : option (Net (G := G) (D := D)) :=
  match msgs with
  | [] => Some x
  | (msg, now) :: msgs => x ← handleQueued cfg nc x msg now; handleAll x msgs
  end.

Lemma last_take {A} (l : list A) a : last l = Some a -> l = take (length l - 1) l ++ [a].
Proof.
  intros (l' & ->)%last_Some. rewrite length_app. cbn [length]. replace (length l' + 1 - 1)%nat with (length l') by lia.
  by rewrite take_app_length.
Qed.

Lemma rev_last {A} (l : list A) a : last l = Some a -> rev l = a :: rev (take (length l - 1) l).
Proof. intros E. rewrite (last_take l a E) at 1. by rewrite rev_app_distr. Qed.

(** With enough rounds the loop empties the queues: alive messages first,
    then the others, in both queues the latest first. *)
Lemma drainLoop_spec nows x hi lo w :
  (length hi + length lo <= length nows)%nat ->
  drainLoop cfg nc nows (set_queues x hi lo w) =
  (fun y => set_queues y [] [] w) <$> handleAll x (zip (rev hi ++ rev lo) nows).
Proof.
  revert x hi lo. induction nows as [|now nows IH]; intros x hi lo Hl; cbn [drainLoop].
  { cbn in Hl. destruct hi, lo; [done|cbn in Hl; lia..]. }
  unfold getNextMessage. cbn [x_high x_low x_wake set_queues].
  destruct (last hi) as [msg|] eqn:Eh; [|destruct (last lo) as [msg|] eqn:El].
  - rewrite (rev_last _ _ Eh). cbn [app zip zip_with handleAll]. change (set_queues (set_queues x hi lo w)) with (set_queues x).
    rewrite handleQueued_queues. destruct (handleQueued cfg nc x msg now) as [x1|]; [|done].
    cbn [mbind option_bind fmap option_fmap option_map]. apply IH.
    apply last_take, (f_equal length) in Eh. rewrite length_app in Eh. cbn in Eh, Hl. lia.
  - apply last_None in Eh as ->. rewrite (rev_last _ _ El). cbn [rev app zip zip_with handleAll].
    change (set_queues (set_queues x [] lo w)) with (set_queues x).
    rewrite handleQueued_queues. destruct (handleQueued cfg nc x msg now) as [x1|]; [|done].
    cbn [mbind option_bind fmap option_fmap option_map]. etrans; [apply (IH x1 [])|done].
    apply last_take, (f_equal length) in El. rewrite length_app in El. cbn in El, Hl |- *. lia.
  - apply last_None in Eh as ->. apply last_None in El as ->. done.
Qed.
End Handoff.

(** ** Properties *)

(** A transport that takes every packet and an application with little to say,
    which remembers the user messages it got. *)
#[local] Instance exampleTransport : Transport := {| WriteToAddress _ _ _ := None |}.
#[local] Instance exampleDelegates : Delegates (list bytes) := {|
  DelegateGetBroadcasts _ _ d := ([], d);
  DelegateNotifyMsg b d := d ++ [b];
  DelegateLocalState _ d := (concat d, d);
  DelegateMergeRemoteState b _ d := d ++ [b];
  DelegateAckPayload d := (None, d);
  DelegateNotifyPingComplete _ _ _ d := d;
  DelegateNotifyMerge _ d := (true, d);
|}.
#[local] Existing Instance storedLZW.
#[local] Existing Instance storedLZW_laws.
#[local] Existing Instance tagging.
#[local] Existing Instance tagging_laws.

#[local] Instance exampleDelegates_laws : DelegateLaws (list bytes).
Proof. constructor. done. Qed.

Definition exampleNonce (i : Z) : bytes := replicate 12 (z2b i).

Definition netRing : Keyring :=
  match NewKeyring [] (exampleKey 3) with Some (Ok k) => k | _ => initKeyring end.

(** Labelled and encrypted. *)
Definition exampleNet : NetConfig :=
  MkNetConfig "dc1" false (Some netRing) true true true false 7946 2 1400 500 true false false.

Definition exampleNode (m : Memberlist (G := Z)) : Net (G := Z) (D := list bytes) :=
  MkNet m newAckTable [] [] false (exampleAddr 1, 7946) [] 0 [] ∅ ∅.

Lemma netRing_ok : keys_ok exampleNet.
Proof.
  intros k [= <-]. unfold netRing. change (NewKeyring [] (exampleKey 3)) with (addKeys initKeyring [exampleKey 3]).
  destruct (addKeys_ok [exampleKey 3] initKeyring initKeyring_ok) as (k' & -> & Hk & _); [by repeat constructor|done].
Qed.

Lemma exampleNode_ok : net_ok (exampleConfig "a") exampleNet (exampleNode exampleState).
Proof. constructor; [apply exampleState_ok| |done|done]. constructor; cbn; try done. by intros ? ? ? ? ?%elem_of_nil. Qed.


Definition exampleText (e : streamError) : string := "refused".

(** An indirect ping, noise, a suspicion of the node itself, the handler
    that takes it, and a broken push/pull. *)
Definition exampleInputs : list (netInput * Z) :=
  [(NPacket (map z2b [1; 2; 3]) (str2b "10.0.0.9:7946") 5, 10); (NQueued, 11);
   (NMember (InDead (MkDead 7 "a" "c")), 12); (NNack 0 true, 13); (NDeliver 0, 14);
   (NStream (Conn [map z2b [6; 131]] EOF) (OutConn [] 1) 0, 15)].


(** C7: What one node sends, the other handles. A packet that was written, of
    one message or of up to 255 in a compound, with or without compression,
    checksum, encryption and label, makes a receiver with the same label, and
    the sender's primary key if it encrypts, handle exactly the messages that
    were sent, in their order. *)
Theorem packet_delivered {G D} `{Rand G} `{MathLog} `{LZWLaws} `{GCMLaws} `{Transport} `{Delegates D}
    cfgS ncS nonceS cfgR ncR nonceR (x x' : Net (G := G) (D := D)) a node parts :
  rawSendMsgPacket cfgS ncS nonceS x a node (packed parts) = Some (Ok tt, x') ->
  Forall plain parts -> len parts <= 255 -> Forall (fun m => len m <= 65535) parts ->
  len (packed parts) <= maxPacketDecompressedBytes ->
  nc_Label ncR = nc_Label ncS -> nc_SkipInboundLabelCheck ncR = false ->
  exists wire, x_sent x' = x_sent x ++ [(a, wire)] /\
    ((if encrypting ncS then len (nonceS (x_nonces x)) = nonceSize /\ shares_key ncS ncR (nonceS (x_nonces x)) wire
      else EncryptionEnabled ncR = false) ->
     forall (y : Net (G := G) (D := D)) from ts now,
       ingestPacket cfgR ncR nonceR y wire from ts now =
       handleParts (fun y part => handleCommand cfgR ncR nonceR y part from ts now) y parts).
Proof. apply packet_arrives. Qed.

(** A ping and an alive message in one packet. *)
Definition examplePing : bytes := encode pingMsg (MPing (MkPing 5 "a" None 0 "b")).
Definition exampleAlive : bytes := encode aliveMsg (MAlive (MkAlive 4 "b" (exampleAddr 2) 7946 None exampleVsn)).
Definition examplePeer : PeerAddress := (str2b "10.0.0.1:7946", "a"%string).

Definition exampleSent : Net (G := Z) (D := list bytes) :=
  match rawSendMsgPacket (exampleConfig "b") exampleNet exampleNonce (exampleNode exampleStart) examplePeer None
          (packed [examplePing; exampleAlive]) with
  | Some (_, x) => x
  | None => exampleNode exampleStart
  end.

Lemma exampleShared nonce wire : exists kS kR g pre post,
  nc_Keyring exampleNet = Some kS /\ primaryAEAD kS = Some g /\ nc_Keyring exampleNet = Some kR /\
  getAEADs kR = pre ++ g :: post /\
  Forall (fun g' => Open g' nonce (drop (Z.to_nat (labelOverhead (nc_Label exampleNet) + 13)) wire) (str2b (nc_Label exampleNet)) = None) pre.
Proof.
  exists netRing, netRing, (exampleKey 3), [], []. split; [reflexivity|]. split; [vm_compute; reflexivity|].
  split; [reflexivity|]. split; [vm_compute; reflexivity|constructor].
Qed.

Lemma packet_delivered_witness :
  exists wire, x_sent exampleSent = [(examplePeer, wire)] /\
    ingestPacket (exampleConfig "a") exampleNet exampleNonce (exampleNode exampleStart) wire (str2b "10.0.0.2:7946") 7 8 =
    handleParts (fun y part => handleCommand (exampleConfig "a") exampleNet exampleNonce y part (str2b "10.0.0.2:7946") 7 8)
      (exampleNode exampleStart) [examplePing; exampleAlive].
Proof.
  destruct (packet_delivered (exampleConfig "b") exampleNet exampleNonce (exampleConfig "a") exampleNet exampleNonce
    (exampleNode exampleStart) exampleSent examplePeer None [examplePing; exampleAlive]) as (wire & Hs & H).
  - vm_compute. reflexivity.
  - repeat constructor; eexists; (split; [vm_compute; reflexivity|]); vm_compute; intuition congruence.
  - vm_compute. congruence.
  - repeat constructor; vm_compute; congruence.
  - vm_compute. congruence.
  - reflexivity.
  - reflexivity.
  - exists wire. split; [exact Hs|]. apply H.
    assert (Ee : encrypting exampleNet = true) by (vm_compute; reflexivity). rewrite Ee. split; [reflexivity|].
    split; [vm_compute; reflexivity|]. apply exampleShared.
Defined.

(** C16: Damaged and foreign packets are dropped. When the checksummed part of
    a packet is hit by a burst of errors of up to four bytes, or when a node
    that verifies incoming traffic gets a packet that no installed key sealed
    under its label, or one with another label, the node is left as it was. *)
Theorem only_intact_packets {G D} `{Rand G} `{MathLog} `{LZW} `{GCMLaws} `{Transport} `{Delegates D}
    cfg nc nonceAt (x : Net (G := G) (D := D)) buf from ts now :
  (forall pre v w post, length v = length w -> (length v <= 4)%nat -> v <> w ->
     openPacket nc buf = Some (z2b hasCrcMsg :: be 4 (ChecksumIEEE (pre ++ v ++ post)) ++ pre ++ w ++ post) ->
     ingestPacket cfg nc nonceAt x buf from ts now = Some x) /\
  (EncryptionEnabled nc = true -> nc_GossipVerifyIncoming nc = true -> ingestPacket cfg nc nonceAt x buf from ts now <> Some x ->
     exists k g vsn nonce src sealed, nc_Keyring nc = Some k /\ g ∈ getAEADs k /\ len nonce = nonceSize /\
       sealed = z2b vsn :: nonce ++ Seal g nonce src (str2b (nc_Label nc)) /\
       exists l, RemoveLabelHeaderFromPacket buf = Ok (sealed, l)) /\
  (forall rest label, nc_SkipInboundLabelCheck nc = false -> label <> nc_Label nc ->
     RemoveLabelHeaderFromPacket buf = Ok (rest, label) -> ingestPacket cfg nc nonceAt x buf from ts now = Some x).
Proof.
  unfold ingestPacket. split_and!.
  - intros pre v w post Hl Hlen Hne ->. rewrite checkCrc_header by apply ChecksumIEEE_range.
    rewrite (proj2 (Z.eqb_neq _ _)); [done|]. apply ChecksumIEEE_burst; [done|lia|]. intros E. by apply Hne.
  - intros He Hv Hne. unfold openPacket in Hne. destruct (RemoveLabelHeaderFromPacket buf) as [[b l]|] eqn:El; [|done].
    destruct (nc_SkipInboundLabelCheck nc && _); [done|]. destruct (negb (String.eqb _ _)) eqn:Eq; [done|].
    apply negb_false_iff, String.eqb_eq in Eq. rewrite He, Hv in Hne. destruct (nc_Keyring nc) as [k|] eqn:Ek; [|done].
    rewrite <- Eq in Hne. destruct (openPayload (getAEADs k) b (str2b (nc_Label nc))) as [plain|] eqn:Eo; [|done].
    apply open_authentic in Eo as (vsn & g & nonce & src & Hg & Hn & Hb & _).
    exists k, g, vsn, nonce, src, b. split_and!; try done. by exists l.
  - intros rest label Hs Hne Hr. unfold openPacket. rewrite Hr, Hs. cbn [andb]. destruct (String.eqb_spec (nc_Label nc) label); [congruence|done].
Qed.

(** The packet handler works off what was queued, and all of it. Woken, it
    handles every queued message exactly once: the alive messages before the
    others, in either queue the latest first, and leaves both queues empty and
    the wake-up token taken; the token is set whenever a message was offered.
    A queue never holds more than its depth. *)
Theorem handoff_drains {G D} `{Rand G} `{MathLog} `{GCM} `{Delegates D}
    cfg nc (x : Net (G := G) (D := D)) nows :
  (length (x_high x) + length (x_low x) <= length nows)%nat ->
  (x_wake x = true ->
   packetHandler cfg nc x nows =
     (fun y => set_queues y [] [] false) <$> handleAll cfg nc x (zip (rev (x_high x) ++ rev (x_low x)) nows)) /\
  (forall t buf from, x_wake (handoff nc x t buf from) = true /\
     (len (x_high x) <= Z.max 0 (nc_HandoffQueueDepth nc) -> len (x_high (handoff nc x t buf from)) <= Z.max 0 (nc_HandoffQueueDepth nc)) /\
     (len (x_low x) <= Z.max 0 (nc_HandoffQueueDepth nc) -> len (x_low (handoff nc x t buf from)) <= Z.max 0 (nc_HandoffQueueDepth nc))).
Proof.
  intros Hl. split.
  - intros Hw. unfold packetHandler. rewrite Hw. by apply drainLoop_spec.
  - intros t buf from. unfold handoff.
    destruct (t =? aliveMsg); cbn [x_wake x_high x_low set_queues]; (split; [done|]); split; try done; intros Hq;
      destruct (Z.geb_spec (len (x_high x)) (nc_HandoffQueueDepth nc)), (Z.geb_spec (len (x_low x)) (nc_HandoffQueueDepth nc));
      rewrite ?len_app; change (len [_]) with 1; lia.
Qed.

(** A node with two messages waiting: a suspicion and, after it, an alive. *)
Definition exampleWaiting : Net (G := Z) (D := list bytes) :=
  handoff exampleNet (handoff exampleNet (exampleNode exampleState) suspectMsg (drop 1 (encode suspectMsg (MSuspect (MkSuspect 3 "b" "d")))) [])
    aliveMsg (drop 1 exampleAlive) [].

Lemma handoff_drains_witness :
  packetHandler (exampleConfig "a") exampleNet exampleWaiting [20; 21] =
  (fun y => set_queues y [] [] false) <$> handleAll (exampleConfig "a") exampleNet exampleWaiting
    (zip (rev (x_high exampleWaiting) ++ rev (x_low exampleWaiting)) [20; 21]).
Proof.
  refine (proj1 (handoff_drains (exampleConfig "a") exampleNet exampleWaiting [20; 21] _) _); [vm_compute; lia|reflexivity].
Defined.

(** C32: Packets fit. A message that fits the packet budget on its own, with
    checksum, label and encryption, never makes [sendMsg] write more than the
    budget: the broadcasts it adds are chosen so that the compound message
    with all of those still fits. It goes to the address given. *)
Theorem packet_budget {G D} `{Rand G} `{MathLog} `{LZW} `{GCMLaws} `{Transport} `{DelegateLaws D}
    cfg nc nonceAt (x x' : Net (G := G) (D := D)) a msg r :
  net_ok cfg nc x -> (forall i, len (nonceAt i) = nonceSize) -> nc_packetBufferSize nc <= MaxUint32 ->
  len msg + envelopeOverhead cfg nc <= nc_packetBufferSize nc ->
  sendMsg cfg nc nonceAt x a msg = Some (r, x') ->
  exists l, x_sent x' = x_sent x ++ l /\ Forall (fun p => p.1 = a /\ len p.2 <= nc_packetBufferSize nc) l.
Proof. intros Hx. apply sendMsg_sent. apply (so_queue _ _ (no_state _ _ _ Hx)). Qed.

Lemma packet_budget_witness :
  exists r x' l, sendMsg (exampleConfig "a") exampleNet exampleNonce (exampleNode exampleState) examplePeer examplePing = Some (r, x') /\
    x_sent x' = [] ++ l /\ Forall (fun p => p.1 = examplePeer /\ len p.2 <= 1400) l.
Proof.
  destruct (sendMsg (exampleConfig "a") exampleNet exampleNonce (exampleNode exampleState) examplePeer examplePing) as [[r x']|] eqn:E;
    [|vm_compute in E; discriminate].
  destruct (packet_budget (exampleConfig "a") exampleNet exampleNonce (exampleNode exampleState) x' examplePeer examplePing r) as (l & Hl).
  - apply exampleNode_ok.
  - intros i. reflexivity.
  - vm_compute. congruence.
  - vm_compute. congruence.
  - exact E.
  - exists r, x', l. split; [reflexivity|exact Hl].
Defined.

(** An application with 255 short messages to broadcast whenever they fit. *)
#[local] Instance chattyDelegates : Delegates unit := {|
  DelegateGetBroadcasts overhead limit d := (if 255 * (1 + overhead) <=? limit then replicate 255 [z2b 65] else [], d);
  DelegateNotifyMsg _ d := d;
  DelegateLocalState _ d := ([], d);
  DelegateMergeRemoteState _ _ d := d;
  DelegateAckPayload d := (None, d);
  DelegateNotifyPingComplete _ _ _ d := d;
  DelegateNotifyMerge _ d := (true, d);
|}.

#[local] Instance chattyDelegates_laws : DelegateLaws unit.
Proof.
  constructor. intros overhead limit d Hl. cbn [DelegateGetBroadcasts chattyDelegates fst].
  destruct (Z.leb_spec (255 * (1 + overhead)) limit); [|done].
  enough (E : forall n, foldr (fun m k => len m + overhead + k) 0 (replicate n [z2b 65]) = Z.of_nat n * (1 + overhead)) by (rewrite E; lia).
  intros n. induction n as [|n IH]; [done|]. cbn [replicate foldr]. rewrite IH. change (len [z2b 65]) with 1. lia.
Qed.

(** No label, encryption or compression, and the usual packet size. *)
Definition plainNet : NetConfig := MkNetConfig "" false None false false false false 7946 1024 1400 500 true false false.
Definition chattyNode : Net (G := Z) (D := unit) :=
  MkNet exampleStart newAckTable [] [] false (exampleAddr 1, 7946) tt 0 [] ∅ ∅.

(** Two wrong bytes of a ping under its checksum. *)
Lemma only_intact_packets_witness :
  let damaged := z2b hasCrcMsg :: be 4 (ChecksumIEEE (map z2b [0; 1; 2] ++ map z2b [3; 4] ++ map z2b [5])) ++
    map z2b [0; 1; 2] ++ map z2b [3; 9] ++ map z2b [5] in
  ingestPacket (exampleConfig "a") plainNet exampleNonce chattyNode damaged (str2b "10.0.0.2:7946") 7 8 = Some chattyNode.
Proof.
  cbn zeta.
  refine (proj1 (only_intact_packets (exampleConfig "a") plainNet exampleNonce chattyNode _ (str2b "10.0.0.2:7946") 7 8)
    (map z2b [0; 1; 2]) (map z2b [3; 4]) (map z2b [3; 9]) (map z2b [5]) _ _ _ _).
  - reflexivity.
  - vm_compute. lia.
  - vm_compute. congruence.
  - vm_compute. reflexivity.
Defined.

Definition chattyWire : bytes := makeCompoundMessage (examplePing :: replicate 255 (map z2b [8; 65])).

(** C33: A packet can carry more messages than it can count. [sendMsg] does not
    split what it piggybacks, unlike [gossip], and the count in a compound
    message is one byte: with 256 messages it is zero, and the receiver
    handles none of them. An application that keeps to its contract makes an
    ordinary ping end like that, within the packet size. *)
Theorem piggyback_overflow :
  (forall G D (RG : Rand G) (ML : MathLog) (LZ : LZW) (GC : GCM) (TR : Transport) (DL : Delegates D)
     cfg nc nonceAt (x : Net (G := G) (D := D)) parts from ts now,
     len parts = 256 -> handleCommand cfg nc nonceAt x (makeCompoundMessage parts) from ts now = Some x) /\
  (exists x', sendMsg (exampleConfig "a") plainNet exampleNonce chattyNode examplePeer examplePing = Some (Ok tt, x') /\
     x_sent x' = [(examplePeer, chattyWire)] /\ len chattyWire <= nc_packetBufferSize plainNet /\
     forall y from ts now, ingestPacket (exampleConfig "b") plainNet exampleNonce (y : Net (G := Z) (D := unit)) chattyWire from ts now = Some y).
Proof.
  assert (Hlost : forall G D (RG : Rand G) (ML : MathLog) (LZ : LZW) (GC : GCM) (TR : Transport) (DL : Delegates D)
     cfg nc nonceAt (x : Net (G := G) (D := D)) parts from ts now,
     len parts = 256 -> handleCommand cfg nc nonceAt x (makeCompoundMessage parts) from ts now = Some x).
  { intros. unfold handleCommand, makeCompoundMessage. cbn [app handleCommandIn]. change (b2z (z2b compoundMsg)) with compoundMsg.
    rewrite Z.eqb_refl. change (negb (Z.land 0 inCompound =? 0)) with false. cbn [decodeCompoundMessage]. rewrite H.
    change (b2z (z2b 256)) with 0. set (rest := concat (map _ parts) ++ _). pose proof (len_nonneg rest).
    rewrite (proj2 (Z.ltb_ge _ _)) by lia. done. }
  split; [exact Hlost|]. eexists. split; [vm_compute; reflexivity|]. split; [vm_compute; reflexivity|]. split; [vm_compute; congruence|].
  intros y from ts now. unfold ingestPacket. change (openPacket plainNet chattyWire) with (Some chattyWire). cbn iota.
  change (checkCrc chattyWire) with (Some chattyWire). apply Hlost. reflexivity.
Qed.

(** The allow-list guards the membership. An alive message from an IPv4
    source outside the configured networks, or from one that does not parse,
    and a message that announces an address outside them, are dropped without
    effect; where they pass, or no list is configured, the message takes
    effect with its port, or the configured one when it names none. *)
Theorem alive_filtered {G D} `{Rand G} `{MathLog} `{GCM} `{Delegates D}
    cfg nc (x : Net (G := G) (D := D)) buf from now :
  let nets := c_CIDRsAllowed cfg in
  let handled := handleQueued cfg nc x (MsgHandoff aliveMsg buf from) now in
  (forall ip port, len ip = 4 -> 0 <= port -> from = joinHostPort (ipString ip) port -> IPAllowed nets ip = false -> handled = Some x) /\
  (IPMustBeChecked nets = true -> from <> str2b "pipe" -> SplitHostPort from = None -> handled = Some x) /\
  (forall live ip, decode KAlive buf = Ok (MAlive live) -> Alive_Addr live = Some ip -> IPAllowed nets ip = false -> handled = Some x) /\
  (forall live, decode KAlive buf = Ok (MAlive live) -> ensureCanConnect nets from = true ->
     (forall ip, Alive_Addr live = Some ip -> IPAllowed nets ip = true) ->
     handled = m ← aliveNode cfg (x_m x) (MkAlive (Alive_Incarnation live) (Alive_Node live) (Alive_Addr live)
                     (portOrBind cfg nc (Alive_Port live)) (Alive_Meta live) (Alive_Vsn live)) false now;
               Some (set_m x m)).
Proof.
  cbn zeta. change (handleQueued cfg nc x (MsgHandoff aliveMsg buf from) now) with (handleAlive cfg nc x buf from now). unfold handleAlive.
  split_and!.
  - intros ip port Hip Hport -> Hn. by rewrite ensureCanConnect_ip4, Hn.
  - intros Hc Hp Hs. unfold ensureCanConnect. rewrite Hc, Hs. cbn [negb]. by rewrite bool_decide_false.
  - intros live ip -> Ha Hn. destruct (ensureCanConnect _ _); [|done]. cbn [negb]. rewrite Ha, Hn.
    unfold IPAllowed in Hn. by destruct (IPMustBeChecked (c_CIDRsAllowed cfg)).
  - intros live -> -> Hip. cbn [negb]. destruct (Alive_Addr live) as [ip|]; [|by rewrite andb_false_r]. by rewrite Hip, andb_false_r.
Qed.
