(* ===== verification/Exchange.v ===== *)
(** Two nodes on a stream: what one side's [sendUserMsg], [pushPullNode] and
    [sendPingAndWaitForAck] and the other side's [handleConn] do together. *)

From S2P Require Import Prelude Msgpack Wire Timing Treap Queue NetAddr Nodes Events Packet State Lifecycle Membership Protocol Merge Security Checksum HostPort Acks Net Streams Ingest.

(** ** Specification *)

(** The receiver is set up to read what the sender writes: the same label, and
    every message sealed by the sender opens. *)
Record understood {LZ : LZW} {GC : GCM} (cfgS : Config) (ncS : NetConfig) (nonceS : Z -> bytes) (ncR : NetConfig) : Prop := {
  un_label : nc_Label ncR = nc_Label ncS;
  un_reads : forall i msg wire, streamBytes cfgS ncS (nonceS i) msg (nc_Label ncS) = Some (Ok wire) ->
    reads_from ncS ncR (nonceS i) wire (nc_Label ncS);
}.

(** A network that delivers a stream's bytes in non-empty pieces. *)
Definition delivers (cut : bytes -> list bytes) : Prop := forall b, concat (cut b) = b /\ Forall (fun chunk => chunk <> []) (cut b).

(** The user state of a node, and as its peer reads it. *)
Definition localUser {G D} {GC : GCM} `{Delegates D} (nc : NetConfig) (x : Net (G := G) (D := D)) (join : bool) : bytes :=
  if nc_Delegate nc then (DelegateLocalState join (x_delegate x)).1 else [].
Definition userState (b : bytes) : slice := match b with [] => None | _ => Some b end.

(** A connection that has just been dialled. *)
Definition freshly (peer : option dialled) : Prop := forall p, peer = Some p -> oc_data (dl_conn p) = [].

(** ** Lemmas: the connection *)

(** The label's header goes before everything else. *)
Lemma label_stream c label c' :
  AddLabelHeaderToStream c label = Ok c' -> oc_data c = [] ->
  exists hdr, oc_data c' = hdr /\ forall buf, AddLabelHeaderToPacket buf label = Ok (hdr ++ buf).
Proof.
  unfold AddLabelHeaderToStream, AddLabelHeaderToPacket, connWrite. intros H Hc. exists (oc_data c'). split; [done|]. intros buf.
  destruct (String.eqb label ""); [injection H as <-; by rewrite Hc|].
  destruct (_ >? LabelMaxSize); [done|]. destruct (oc_writes c); [done|]. injection H as <-. cbn [oc_data]. rewrite Hc. unfold makeLabelHeader.
  by rewrite app_nil_r, <- app_assoc.
Qed.

Section Link.
Context {GA GB : Type} {RA : Rand GA} {RB : Rand GB} {ML : MathLog} {LZ : LZW} {LL : LZWLaws} {GC : GCM} {GL : GCMLaws}.
Context {DA DB : Type} {EA : Delegates DA} {EB : Delegates DB}.
Context (cfgA cfgB : Config) (ncA ncB : NetConfig) (nonceA nonceB : Z -> bytes) (errorText : streamError -> string).
Implicit Types x : Net (G := GA) (D := DA).
Implicit Types y : Net (G := GB) (D := DB).

(** What the first write on a stream starts with. *)
Lemma streamBytes_first nonce msg label wire t :
  streamBytes cfgA ncA nonce msg label = Some (Ok wire) -> firstByte msg = Some t -> t <> hasLabelMsg ->
  exists t', firstByte wire = Some t' /\ t' <> hasLabelMsg.
Proof.
  unfold streamBytes. set (sent := if nc_EnableCompression ncA then _ else msg). intros Hw Ht Hne.
  destruct (encrypting ncA).
  - destruct (_ >? maxPushStateBytes); [done|]. unfold encryptLocalState in Hw. destruct (nc_Keyring ncA) as [k|]; [|done].
    cbn [mbind option_bind] in Hw. destruct (primaryAEAD k); [|done]. cbn [mbind option_bind] in Hw. injection Hw as <-.
    by exists encryptMsg.
  - injection Hw as <-. unfold sent. destruct (nc_EnableCompression ncA); [|by exists t].
    destruct (_ <? _); [|by exists t]. exists compressMsg. unfold compressPayload. by rewrite encode_cons.
Qed.

(** A message of A's, whole, behind A's label, on a connection B accepted:
    B's handler gets to its body. *)
Lemma handleConn_arrives y nonce msg wire hdr inp c pending now t :
  firstByte msg = Some t -> t <> compressMsg -> t <> encryptMsg -> t <> hasLabelMsg -> len msg <= maxStreamMessageBytes ->
  streamBytes cfgA ncA nonce msg (nc_Label ncA) = Some (Ok wire) -> reads_from ncA ncB nonce wire (nc_Label ncA) ->
  nc_Label ncB = nc_Label ncA -> nc_SkipInboundLabelCheck ncB = false ->
  AddLabelHeaderToPacket wire (nc_Label ncA) = Ok (hdr ++ wire) -> lively inp -> content inp = hdr ++ wire ->
  handleConn cfgB ncB nonceB errorText y inp c pending now =
    handleMessage cfgB ncB nonceB errorText y c (Source wire (c_err inp)) (nc_Label ncB) pending now /\
  positioned msg (readStream ncB (Source wire (c_err inp)) (nc_Label ncB)).
Proof.
  intros Ht H1 H2 H3 Hl Hw Hr El Es Ha Hi Hc.
  destruct (streamBytes_first nonce msg (nc_Label ncA) wire t Hw Ht H3) as (t' & Ht' & Hne).
  pose proof (label_removed _ _ _ _ Ha Ht' Hne) as Hrm. pose proof (RemoveLabel_stream inp Hi) as Hs. rewrite Hc, Hrm in Hs.
  destruct Hs as (pc & E & Hrem & He).
  { left. apply firstByte_head in Ht' as (b & r & -> & _). by destruct hdr. }
  split.
  - unfold handleConn. rewrite E, Es, El. cbn [andb]. rewrite String.eqb_refl. cbn [negb]. by rewrite Hrem, He.
  - rewrite El. rewrite <- (app_nil_r wire). by eapply (stream_arrives cfgA ncA ncB).
Qed.

(** What a write that succeeded wrote. *)
Lemma rawSendMsgStream_Ok x c buf label c' x' :
  rawSendMsgStream cfgA ncA nonceA x c buf label = Some (Ok tt, c', x') ->
  talks x x' /\ exists wire, streamBytes cfgA ncA (nonceA (x_nonces x)) buf label = Some (Ok wire) /\ oc_data c' = oc_data c ++ wire.
Proof.
  unfold rawSendMsgStream, connWrite. destruct (streamBytes cfgA ncA _ buf label) as [[wire|e]|]; cbn [mbind option_bind]; [|done..].
  destruct (oc_writes c); [done|]. intros [= <- <-]. split; [|by exists wire].
  destruct (encrypting ncA); [|apply talks_refl]. exists (x_delegate x), (x_nonces x + 1). by destruct x.
Qed.

Lemma dialLabelled_Ok peer p :
  freshly peer -> dialLabelled ncA peer = Ok p ->
  (exists q, peer = Some q /\ dl_answer p = dl_answer q) /\
  exists hdr, oc_data (dl_conn p) = hdr /\ forall buf, AddLabelHeaderToPacket buf (nc_Label ncA) = Ok (hdr ++ buf).
Proof.
  unfold dialLabelled. destruct peer as [q|]; [|done]. intros Hf.
  destruct (AddLabelHeaderToStream (dl_conn q) (nc_Label ncA)) as [c|] eqn:E; [|done]. intros [= <-].
  split; [by exists q|]. by eapply label_stream; [|apply Hf].
Qed.

(** The two ends of a message put together. *)
Lemma written_read x c msg c' x' y peer p inp oc pending now t :
  understood cfgA ncA nonceA ncB -> nc_SkipInboundLabelCheck ncB = false -> freshly peer -> dialLabelled ncA peer = Ok p -> c = dl_conn p ->
  rawSendMsgStream cfgA ncA nonceA x c msg (nc_Label ncA) = Some (Ok tt, c', x') ->
  firstByte msg = Some t -> t <> compressMsg -> t <> encryptMsg -> t <> hasLabelMsg -> len msg <= maxStreamMessageBytes ->
  lively inp -> content inp = oc_data c' ->
  exists src, handleConn cfgB ncB nonceB errorText y inp oc pending now =
      handleMessage cfgB ncB nonceB errorText y oc src (nc_Label ncB) pending now /\
    positioned msg (readStream ncB src (nc_Label ncB)).
Proof.
  intros [El Hu] Es Hf Hd -> Hw Ht H1 H2 H3 Hl Hi Hc. apply rawSendMsgStream_Ok in Hw as (_ & wire & Hw & Hdata).
  destruct (dialLabelled_Ok peer p Hf Hd) as (_ & hdr & Hh & Ha). rewrite Hdata, Hh in Hc.
  exists (Source wire (c_err inp)). by eapply (handleConn_arrives y (nonceA (x_nonces x)) msg wire hdr); eauto.
Qed.

(** The answer to what A wrote, [b]: B's handler on a connection that delivers
    it and then [e]. *)
Definition served y (cut : bytes -> list bytes) (e : io_error) (pending now : Z) (b : bytes) : source :=
  match handleConn cfgB ncB nonceB errorText y (Conn (cut b) e) (OutConn [] 1) pending now with
  | Some (c, _) => Source (oc_data c) EOF
  | None => Source [] EOF
  end.

(** A's reading of B's one write. *)
Lemma answer_read y msg c' y' t :
  understood cfgB ncB nonceB ncA ->
  rawSendMsgStream cfgB ncB nonceB y (OutConn [] 1) msg (nc_Label ncB) = Some (Ok tt, c', y') ->
  firstByte msg = Some t -> t <> compressMsg -> t <> encryptMsg -> len msg <= maxStreamMessageBytes ->
  positioned msg (readStream ncA (Source (oc_data c') EOF) (nc_Label ncA)).
Proof.
  intros [El Hu] Hw Ht H1 H2 Hl. unfold rawSendMsgStream in Hw. specialize (Hu (x_nonces y) msg).
  destruct (streamBytes cfgB ncB _ msg _) as [[wire|e]|] eqn:E; [|done..]. cbn in Hw. injection Hw as <- _. cbn [oc_data].
  rewrite El, <- (app_nil_r wire). by eapply (stream_arrives cfgB ncB ncA); [..|apply Hu].
Qed.
End Link.

Lemma sendLocalState_Ok {G D} `{LZW} `{GCM} `{Delegates D} cfg nc nonceAt (x : Net (G := G) (D := D)) c join label c' x' :
  sendLocalState cfg nc nonceAt x c join label = Some (Ok tt, c', x') ->
  let msg := pushPullMessage (map localNode (nodeList x)) join (localUser nc x join) in
  len (localUser nc x join) <= maxPushStateBytes /\ len msg <= maxStreamMessageBytes /\
  exists x1, talks x x1 /\ rawSendMsgStream cfg nc nonceAt x1 c msg label = Some (Ok tt, c', x').
Proof.
  unfold sendLocalState, localUser. cbv zeta. intros Hs.
  destruct (nc_Delegate nc); [destruct (DelegateLocalState join (x_delegate x)) as [u d]; cbn [fst]|];
    (match goal with H : (if ?n >? ?l then _ else _) = _ |- _ => destruct (Z.gtb_spec n l); [done|] end);
    (match goal with H : (if ?n >? ?l then _ else _) = _ |- _ => destruct (Z.gtb_spec n l); [done|] end);
    eauto using talks_delegate, talks_refl.
Qed.

(** Trying to send one's state leaves the members alone, whatever comes of it. *)
Lemma sendLocalState_members {G D} `{LZW} `{GCM} `{Delegates D} cfg nc nonceAt (x : Net (G := G) (D := D)) c join label r c' x' :
  sendLocalState cfg nc nonceAt x c join label = Some (r, c', x') -> x_m x' = x_m x.
Proof.
  unfold sendLocalState. set (u := if nc_Delegate nc then _ else ([], x)). assert (Hu : x_m u.2 = x_m x).
  { unfold u. destruct (nc_Delegate nc); [|done]. by destruct (DelegateLocalState join (x_delegate x)). }
  destruct u as [data x1]. cbn [snd] in Hu. destruct (_ >? _); [by intros [= _ _ <-]|]. destruct (_ >? _); [by intros [= _ _ <-]|].
  unfold rawSendMsgStream. destruct (streamBytes cfg nc _ _ label) as [[out|err]|]; cbn [mbind option_bind]; [|by intros [= _ _ <-]|done].
  destruct (connWrite c out), (encrypting nc); intros [= _ _ <-]; done.
Qed.

(** Sending one's state leaves the members alone, and a state within the
    limits has no more nodes than the receiver takes. *)
Lemma sendLocalState_sent {G D} `{LZW} `{GCM} `{Delegates D} cfg nc nonceAt (x : Net (G := G) (D := D)) c join label c' x' :
  sendLocalState cfg nc nonceAt x c join label = Some (Ok tt, c', x') -> x_m x' = x_m x /\ len (nodeList x) <= maxPushStateNodes.
Proof.
  intros (_ & Hl & x1 & Ht & Hw)%sendLocalState_Ok. split.
  - apply rawSendMsgStream_Ok in Hw as (Hw & _). by rewrite (talks_m _ _ Hw), (talks_m _ _ Ht).
  - rewrite pushPullMessage_eq, len_cons, !len_app in Hl. pose proof (encodedStates_min (map localNode (nodeList x))) as Hm.
    assert (E : len (map localNode (nodeList x)) = len (nodeList x)) by (unfold len; by rewrite length_map). rewrite E in *.
    change maxStreamMessageBytes with 41943040 in Hl. change maxPushStateNodes with 1048576.
    pose proof (len_nonneg (localUser nc x join)). match type of Hl with _ + (len ?h + _) <= _ => pose proof (len_nonneg h) end. lia.
Qed.

Lemma pushPull_first nodes join user : firstByte (pushPullMessage nodes join user) = Some pushPullMsg.
Proof. by rewrite pushPullMessage_eq. Qed.

Definition userMsgMessage (msg : bytes) : bytes := UserMsgHeader_AppendMsgpack (MkUserMsgHeader (len msg)) [z2b userMsg] ++ msg.

Lemma userMsgMessage_eq msg :
  userMsgMessage msg = z2b userMsg :: UserMsgHeader_AppendMsgpack (MkUserMsgHeader (len msg)) [] ++ msg.
Proof.
  unfold userMsgMessage. set (h := MkUserMsgHeader (len msg)).
  pose proof (AppendMsgpack_app (MUserMsgHeader h) [z2b userMsg]) as Eh. cbn [AppendMsgpack app] in Eh. by rewrite Eh.
Qed.

Lemma len_userMsgMessage msg : len (userMsgMessage msg) <= len msg + 30.
Proof.
  rewrite userMsgMessage_eq, len_cons, len_app. unfold UserMsgHeader_AppendMsgpack, appendI.
  pose proof (len_AppendString (AppendMapHeader [] 1) "UserMsgLen"). pose proof (len_AppendMapHeader [] 1).
  change (len (str2b "UserMsgLen")) with 10 in *. change (len []) with 0 in *. unfold AppendInt. cbn [UMH_UserMsgLen].
  pose proof (len_AppendUint (AppendString (AppendMapHeader [] 1) "UserMsgLen") (u64 (len msg))).
  repeat case_match; rewrite ?len_app, ?len_cons, ?len_be; change (len []) with 0; lia.
Qed.

Lemma userMessage_roundtrip msg dec rest :
  len msg <= maxUserMsgBytes -> dec_ok dec -> pending dec = drop 1 (userMsgMessage msg) ++ rest ->
  userMessage dec = Ok (if len msg =? 0 then None else Some msg).
Proof.
  intros Hl Hd Hp. pose proof (len_nonneg msg). rewrite userMsgMessage_eq in Hp. cbn [drop] in Hp. rewrite drop_0, <- app_assoc in Hp.
  change maxUserMsgBytes with 20971520 in *. set (h := MkUserMsgHeader (len msg)) in *.
  assert (Hv : UserMsgHeader_valid h) by (unfold UserMsgHeader_valid, int_ok, MinInt64, MaxInt64; cbn; lia).
  unfold userMessage. rewrite (UserMsgHeader_roundtrip h Hv dec _ Hd Hp). cbn [decoding rbind]. change (UMH_UserMsgLen h) with (len msg).
  rewrite (proj2 (Z.ltb_ge _ 0)) by lia. change maxUserMsgBytes with 20971520.
  destruct (Z.gtb_spec (len msg) 20971520) as [|_]; [lia|]. cbn [orb]. destruct (len msg =? 0); [done|].
  unfold ReadRaw. rewrite (proj2 (Z.ltb_ge _ 0)) by lia.
  by rewrite (reads_into msg _ rest); [|eapply dec_ok_consume_app|eapply pending_consume_app].
Qed.

(** A message of a few megabytes is written, if the connection takes it. *)
Lemma small_sent {G D} `{LZW} `{GCM} cfg nc nonceAt (x : Net (G := G) (D := D)) c buf label :
  keys_ok nc -> len buf <= 5000000 -> oc_writes c <> 0%nat ->
  exists c' x', rawSendMsgStream cfg nc nonceAt x c buf label = Some (Ok tt, c', x').
Proof.
  intros Hk Hl Hc. assert (Hw : exists wire, streamBytes cfg nc (nonceAt (x_nonces x)) buf label = Some (Ok wire)).
  { destruct (streamBytes_total cfg nc Hk (nonceAt (x_nonces x)) buf label) as [[wire|e] E]; [by exists wire|]. exfalso. revert E.
    unfold streamBytes. set (b := if nc_EnableCompression nc then _ else buf).
    assert (Hb : len b <= len buf).
    { unfold b. destruct (nc_EnableCompression nc); [|lia]. destruct (Z.ltb_spec (len (compressPayload buf)) (len buf)); lia. }
    destruct (encrypting nc); [|done]. pose proof (len_nonneg b) as Hb0. pose proof (pad_range (len b) Hb0).
    destruct (Z.gtb_spec (encryptedLength (encryptionVersion cfg) (len b)) maxPushStateBytes) as [Hx|_].
    - change maxPushStateBytes with 20971520 in Hx. unfold encryptedLength, versionSize, nonceSize, tagSize in Hx. destruct (_ >=? 1); lia.
    - by destruct (encryptLocalState cfg nc _ b label). }
  destruct Hw as [wire Hw]. unfold rawSendMsgStream, connWrite. rewrite Hw. cbn [mbind option_bind]. destruct (oc_writes c); [done|]. by eexists _, _.
Qed.

Lemma len_Ping p : Ping_valid p -> len (encode pingMsg (MPing p)) <= 5000000.
Proof.
  destruct p as [seqNo node addr port src]. unfold Ping_valid, bytes_ok, str_ok. rewrite encode_cons, len_cons. cbn [AppendMsgpack].
  cbn [Ping_SeqNo Ping_Node Ping_SourceAddr Ping_SourcePort Ping_SourceNode]. intros (_ & Hn & Ha & _ & Hs).
  unfold Ping_AppendMsgpack, appendSource, appendB, appendU, appendS.
  cbn [Ping_SeqNo Ping_Node Ping_SourceAddr Ping_SourcePort Ping_SourceNode]. cbv zeta.
  destruct (negb (len (slice_bytes addr) =? 0)), (negb (String.eqb src "")), (negb (port =? 0)); len_fields;
  change (len (str2b "SeqNo")) with 5 in *; change (len (str2b "Node")) with 4 in *; change (len (str2b "SourceAddr")) with 10 in *;
  change (len (str2b "SourceNode")) with 10 in *; change (len (str2b "SourcePort")) with 10 in *; change (len []) with 0 in *;
  change MaxFieldBytes with 1048576 in *; lia.
Qed.

Lemma len_ErrResp text : str_ok text -> len (encode errMsg (MErrResp (MkErrResp text))) <= 5000000.
Proof.
  unfold str_ok. intros Ht. rewrite encode_cons, len_cons. cbn [AppendMsgpack]. unfold ErrResp_AppendMsgpack, appendS. cbn [ErrResp_Error].
  len_fields. change (len (str2b "Error")) with 5 in *. change (len []) with 0 in *. change MaxFieldBytes with 1048576 in *. lia.
Qed.

Lemma len_Ack seqNo : len (encode ackRespMsg (MAckResp (MkAckResp seqNo None))) <= 100.
Proof.
  rewrite encode_cons, len_cons. cbn [AppendMsgpack]. unfold AckResp_AppendMsgpack, appendU, appendB. cbn [Ack_SeqNo Ack_Payload].
  len_fields. change (len (str2b "SeqNo")) with 5 in *. change (len (str2b "Payload")) with 7 in *. change (len []) with 0 in *.
  change (len (slice_bytes None)) with 0 in *. lia.
Qed.

(** ** Properties *)

(** A user message sent over a stream reaches the peer's delegate, once and
    unchanged, whatever of labels, compression and encryption lies between and
    however the network cuts the bytes; the receiver's limit accepts every
    message the sender's accepts, and the empty message is not delivered. *)
Theorem user_message_delivered {GA GB DA DB} `{Rand GB} `{MathLog} `{LZWLaws} `{GCMLaws} `{Delegates DA} `{Delegates DB}
    cfgA cfgB ncA ncB nonceA nonceB errorText (x : Net (G := GA) (D := DA)) (y : Net (G := GB) (D := DB))
    a msg peer wire x' inp c pending now :
  understood cfgA ncA nonceA ncB -> nc_SkipInboundLabelCheck ncB = false -> freshly peer ->
  sendUserMsg cfgA ncA nonceA x a msg peer = Some (Ok wire, x') ->
  lively inp -> content inp = wire ->
  handleConn cfgB ncB nonceB errorText y inp c pending now =
    Some (c, if (len msg =? 0) || negb (nc_Delegate ncB) then y else set_delegate y (DelegateNotifyMsg msg (x_delegate y))).
Proof.
  intros Hu Hs Hf Hw Hi Hc. unfold sendUserMsg in Hw. destruct (nameless ncA a); [done|].
  destruct (Z.gtb_spec (len msg) maxUserMsgBytes) as [|Hl]; [done|].
  destruct (dialLabelled ncA peer) as [[cA answer]|] eqn:Ed; [|done].
  set (out := UserMsgHeader_AppendMsgpack _ _ ++ msg) in Hw.
  destruct (rawSendMsgStream cfgA ncA nonceA x cA out (nc_Label ncA)) as [[[r c'] x1]|] eqn:Er; [|done].
  cbn [mbind option_bind] in Hw. destruct r as [[]|]; [|done]. injection Hw as <- <-.
  fold (userMsgMessage msg) in out. pose proof (len_userMsgMessage msg).
  edestruct (written_read cfgA cfgB ncA ncB nonceA nonceB errorText x cA out c' x1 y peer (Dialled cA answer) inp c pending now userMsg)
    as (src & -> & t & dec & rest & Et & Ht & Hd & Hp); try done.
  { unfold out. by rewrite userMsgMessage_eq. }
  { change maxUserMsgBytes with 20971520 in Hl. change maxStreamMessageBytes with 41943040. unfold out. lia. }
  unfold handleMessage. rewrite Et. unfold out in Ht. rewrite userMsgMessage_eq in Ht. injection Ht as <-.
  change (b2z (z2b userMsg) =? userMsg) with true. cbv iota. unfold readUserMsg.
  rewrite (userMessage_roundtrip msg dec rest Hl Hd Hp). cbn [rbind]. by destruct (len msg =? 0), (nc_Delegate ncB).
Qed.

(** What the peer's reader makes of a pushed state. *)
Lemma pushed_states_read {G D} `{GCM} `{Delegates D} cfg nc ncR (x : Net (G := G) (D := D)) join dec rest :
  Forall sendable (map localNode (nodeList x)) -> len (localUser nc x join) <= maxPushStateBytes ->
  let msg := pushPullMessage (map localNode (nodeList x)) join (localUser nc x join) in
  len msg <= maxStreamMessageBytes -> dec_ok dec -> pending dec = drop 1 msg ++ rest ->
  readRemoteState cfg ncR dec = Ok (join, map (withPort cfg ncR) (map localNode (nodeList x)), userState (localUser nc x join)).
Proof. intros. by eapply readRemoteState_roundtrip. Qed.

Section PushPull.
Context {GA GB : Type} {RA : Rand GA} {RB : Rand GB} {ML : MathLog} {LZ : LZW} {LL : LZWLaws} {GC : GCM} {GL : GCMLaws}.
Context {DA DB : Type} {EA : Delegates DA} {EB : Delegates DB}.
Context (cfgA cfgB : Config) (ncA ncB : NetConfig) (nonceA nonceB : Z -> bytes) (errorText : streamError -> string).
Implicit Types x : Net (G := GA) (D := DA).
Implicit Types y : Net (G := GB) (D := DB).

(** B's side: from the initiator's bytes to the answer. *)
Lemma pushed_state_handled x y join inp oc pending now peer p cA' x1 :
  understood cfgA ncA nonceA ncB -> nc_SkipInboundLabelCheck ncB = false -> freshly peer -> dialLabelled ncA peer = Ok p ->
  0 <= pending < maxPushPullRequests - 1 -> Forall sendable (map localNode (nodeList x)) ->
  sendLocalState cfgA ncA nonceA x (dl_conn p) join (nc_Label ncA) = Some (Ok tt, cA', x1) ->
  lively inp -> content inp = oc_data cA' ->
  handleConn cfgB ncB nonceB errorText y inp oc pending now =
    ('(r, c, y) ← sendLocalState cfgB ncB nonceB y oc join (nc_Label ncB);
     match r with
     | Err (ErrMessageTooLarge n limit) => sendErr cfgB ncB nonceB errorText y c (ErrMessageTooLarge n limit) (nc_Label ncB)
     | Err _ => Some (c, y)
     | Ok _ =>
         '(_, y) ← mergeRemoteState cfgB ncB y join (map (withPort cfgB ncB) (map localNode (nodeList x)))
           (userState (localUser ncA x join)) now; Some (c, y)
     end).
Proof.
  intros Hu Hs Hf Hd Hpend Hn Hw Hi Hc. apply sendLocalState_Ok in Hw as (L1 & L2 & xw & _ & Hw).
  set (msg := pushPullMessage _ _ _) in *. pose proof (pushPull_first (map localNode (nodeList x)) join (localUser ncA x join)) as Hm.
  destruct (written_read cfgA cfgB ncA ncB nonceA nonceB errorText xw (dl_conn p) msg cA' x1 y peer p inp oc pending now pushPullMsg)
    as (src & -> & t & dec & rest & Et & Ht & Hdec & Hp); try done.
  assert (t = pushPullMsg) as -> by (unfold msg in Ht; congruence). unfold handleMessage. rewrite Et.
  change (pushPullMsg =? userMsg) with false. rewrite Z.eqb_refl. cbv iota. unfold handlePushPull.
  change maxPushPullRequests with 128 in *. rewrite u32_small by lia. destruct (Z.geb_spec (pending + 1) 128) as [|_]; [lia|].
  by rewrite (pushed_states_read cfgB ncA ncB x join dec rest Hn L1 L2 Hdec Hp).
Qed.

(** A's side: what comes back. *)
Lemma answered_state y join cB' y1 :
  understood cfgB ncB nonceB ncA -> Forall sendable (map localNode (nodeList y)) ->
  sendLocalState cfgB ncB nonceB y (OutConn [] 1) join (nc_Label ncB) = Some (Ok tt, cB', y1) ->
  readAnswer cfgA ncA (Source (oc_data cB') EOF) =
    Ok (map (withPort cfgA ncA) (map localNode (nodeList y)), userState (localUser ncB y join)).
Proof.
  intros Hu Hn Hw. apply sendLocalState_Ok in Hw as (L1 & L2 & yw & _ & Hw).
  set (msg := pushPullMessage _ _ _) in *. pose proof (pushPull_first (map localNode (nodeList y)) join (localUser ncB y join)) as Hm.
  destruct (answer_read cfgB ncA ncB nonceB yw msg cB' y1 pushPullMsg) as (t & dec & rest & Et & Ht & Hdec & Hp); try done.
  assert (t = pushPullMsg) as -> by (unfold msg in Ht; congruence). unfold readAnswer. rewrite Et.
  change (pushPullMsg =? errMsg) with false. rewrite Z.eqb_refl. cbv iota. cbn [negb].
  by rewrite (pushed_states_read cfgA ncB ncA y join dec rest Hn L1 L2 Hdec Hp).
Qed.
End PushPull.

(** C8: A push/pull exchange does what it is for: when both sides can send
    their state, the accepting node runs its merge on exactly the nodes and the
    user state the initiator has, and the initiator on exactly those of the
    accepting node, both as they were before the exchange. Nothing is lost to
    labels, compression, encryption, the cutting of the stream or the limits
    of either side. *)
Theorem push_pull_exchange {GA GB DA DB} `{RandLaws GA} `{RandLaws GB} `{MathLog} `{LZWLaws} `{GCMLaws} `{Delegates DA} `{Delegates DB}
    cfgA cfgB ncA ncB nonceA nonceB errorText (x : Net (G := GA) (D := DA)) (y : Net (G := GB) (D := DB))
    a join cut e pending nowA nowB writes cA cA' x1 cB' y1 :
  understood cfgA ncA nonceA ncB -> understood cfgB ncB nonceB ncA -> nc_SkipInboundLabelCheck ncB = false ->
  delivers cut -> nameless ncA a = false -> 0 <= pending < maxPushPullRequests - 1 ->
  net_ok cfgA ncA x -> room maxPushStateNodes (x_m x) -> net_ok cfgB ncB y -> room maxPushStateNodes (x_m y) ->
  Forall sendable (map localNode (nodeList x)) -> Forall sendable (map localNode (nodeList y)) ->
  let serve := served cfgB ncB nonceB errorText y cut e pending nowB in
  let peer := Some (Dialled (OutConn [] writes) serve) in
  dialLabelled ncA peer = Ok (Dialled cA serve) ->
  sendLocalState cfgA ncA nonceA x cA join (nc_Label ncA) = Some (Ok tt, cA', x1) ->
  sendLocalState cfgB ncB nonceB y (OutConn [] 1) join (nc_Label ncB) = Some (Ok tt, cB', y1) ->
  exists rA x2 rB y2,
    mergeRemoteState cfgB ncB y1 join (map (withPort cfgB ncB) (map localNode (nodeList x))) (userState (localUser ncA x join)) nowB = Some (rB, y2) /\
    handleConn cfgB ncB nonceB errorText y (Conn (cut (oc_data cA')) e) (OutConn [] 1) pending nowB = Some (cB', y2) /\
    mergeRemoteState cfgA ncA x1 join (map (withPort cfgA ncA) (map localNode (nodeList y))) (userState (localUser ncB y join)) nowA = Some (rA, x2) /\
    pushPullNode cfgA ncA nonceA x a join peer nowA = Some (match rA with Ok _ => Ok tt | Err err => Err (MergeFailed err) end, x2).
Proof.
  intros HuA HuB Hs Hcut Hna Hpend Hx Hrx Hy Hry HnA HnB serve peer Ed EA EB.
  assert (Hfresh : freshly peer) by (by intros ? [= <-]). destruct (Hcut (oc_data cA')) as [Hc1 Hc2].
  assert (Hmap : forall (f : PushNodeState -> PushNodeState) (l : list nodeState), len (map f (map localNode l)) = len l)
    by (intros; unfold len; by rewrite !length_map).
  destruct (sendLocalState_sent _ _ _ _ _ _ _ _ _ EA) as [Em1 Ln1]. destruct (sendLocalState_sent _ _ _ _ _ _ _ _ _ EB) as [Em2 Ln2].
  edestruct (mergeRemoteState_total cfgB ncB y1 join (map (withPort cfgB ncB) (map localNode (nodeList x))) (userState (localUser ncA x join)) nowB)
    as (rB & y2 & MB & _); [rewrite Em2; eapply room_merges; [done..|by rewrite Hmap]|].
  edestruct (mergeRemoteState_total cfgA ncA x1 join (map (withPort cfgA ncA) (map localNode (nodeList y))) (userState (localUser ncB y join)) nowA)
    as (rA & x2 & MA & _); [rewrite Em1; eapply room_merges; [done..|by rewrite Hmap]|].
  assert (Hh : handleConn cfgB ncB nonceB errorText y (Conn (cut (oc_data cA')) e) (OutConn [] 1) pending nowB = Some (cB', y2)).
  { rewrite (pushed_state_handled cfgA cfgB ncA ncB nonceA nonceB errorText x y join _ _ pending nowB peer (Dialled cA serve) cA' x1) by done.
    rewrite EB. cbn [mbind option_bind]. by rewrite MB. }
  exists rA, x2, rB, y2. split_and!; [done..|]. unfold pushPullNode, sendAndReceiveState. rewrite Hna, Ed, EA. cbn [mbind option_bind].
  assert (Ea : serve (oc_data cA') = Source (oc_data cB') EOF) by (unfold serve, served; by rewrite Hh).
  rewrite Ea, (answered_state cfgA cfgB ncA ncB nonceB y join cB' y1 HuB HnB EB). by rewrite MA.
Qed.

Section StreamPing.
Context {GA GB : Type} {RA : Rand GA} {RB : Rand GB} {ML : MathLog} {LZ : LZW} {LL : LZWLaws} {GC : GCM} {GL : GCMLaws}.
Context {DA DB : Type} {EA : Delegates DA} {EB : Delegates DB}.
Context (cfgA cfgB : Config) (ncA ncB : NetConfig) (nonceA nonceB : Z -> bytes) (errorText : streamError -> string).
Implicit Types x : Net (G := GA) (D := DA).
Implicit Types y : Net (G := GB) (D := DB).

(** B's side: the ping of A, and the answer if it is for B. *)
Lemma ping_handled x y p peer c cA' x' inp oc pending now :
  understood cfgA ncA nonceA ncB -> nc_SkipInboundLabelCheck ncB = false -> freshly peer -> dialLabelled ncA peer = Ok c ->
  Ping_valid p -> rawSendMsgStream cfgA ncA nonceA x (dl_conn c) (encode pingMsg (MPing p)) (nc_Label ncA) = Some (Ok tt, cA', x') ->
  lively inp -> content inp = oc_data cA' ->
  handleConn cfgB ncB nonceB errorText y inp oc pending now =
    if String.eqb (Ping_Node p) "" || String.eqb (Ping_Node p) (c_Name cfgB)
    then reply cfgB ncB nonceB y oc (encode ackRespMsg (MAckResp (MkAckResp (Ping_SeqNo p) None))) (nc_Label ncB)
    else Some (oc, y).
Proof.
  intros Hu Hs Hf Hd Hv Hw Hi Hc. pose proof (len_Ping p Hv) as Hlp. set (out := encode pingMsg (MPing p)) in *.
  assert (Hfb : firstByte out = Some pingMsg) by (unfold out; by rewrite encode_cons).
  destruct (written_read cfgA cfgB ncA ncB nonceA nonceB errorText x (dl_conn c) out cA' x' y peer c inp oc pending now pingMsg)
    as (src & -> & t & dec & rest & Et & Ht & Hdec & Hp); try done.
  { change maxStreamMessageBytes with 41943040. lia. }
  assert (t = pingMsg) as -> by congruence. unfold handleMessage. rewrite Et.
  change (pingMsg =? userMsg) with false. change (pingMsg =? pushPullMsg) with false. rewrite Z.eqb_refl. cbv iota.
  unfold out in Hp. rewrite encode_cons in Hp. cbn [drop] in Hp. rewrite drop_0 in Hp.
  unfold handleStreamPing. rewrite (Ping_roundtrip p Hv dec rest Hdec Hp). cbn [Ping_Node Ping_SeqNo]. rewrite <- negb_orb.
  by destruct (_ || _).
Qed.

(** A's side: the ack. *)
Lemma ack_read y seqNo cB' y' :
  understood cfgB ncB nonceB ncA -> u32_ok seqNo ->
  rawSendMsgStream cfgB ncB nonceB y (OutConn [] 1) (encode ackRespMsg (MAckResp (MkAckResp seqNo None))) (nc_Label ncB) = Some (Ok tt, cB', y') ->
  exists dec d', readStream ncA (Source (oc_data cB') EOF) (nc_Label ncA) = Ok (ackRespMsg, dec) /\
    AckResp_DecodeMsgpack dec = Ok (MkAckResp seqNo None, d').
Proof.
  intros Hu Hs Hw. pose proof (len_Ack seqNo) as Hla. set (ack := MkAckResp seqNo None) in *.
  destruct (answer_read cfgB ncA ncB nonceB y (encode ackRespMsg (MAckResp ack)) cB' y' ackRespMsg) as (t & dec & rest & Et & Ht & Hdec & Hp); try done.
  { by rewrite encode_cons. }
  { change maxStreamMessageBytes with 41943040. lia. }
  rewrite encode_cons in Ht, Hp. cbn [drop] in Hp. rewrite drop_0 in Hp. injection Ht as <-. exists dec. eexists. split; [exact Et|].
  exact (AckResp_roundtrip ack ltac:(by split) dec rest Hdec Hp).
Qed.
End StreamPing.

(** A stream ping finds out whether the node it names is at the other end:
    a node of that name, or any node if the ping names none, answers, and the
    pinger reports success; any other node answers nothing, and the pinger
    reports an error and not a success. *)
Theorem stream_ping_decides {GA GB DA DB} `{Rand GA} `{Rand GB} `{MathLog} `{LZWLaws} `{GCMLaws} `{Delegates DA} `{Delegates DB}
    cfgA cfgB ncA ncB nonceA nonceB errorText (x : Net (G := GA) (D := DA)) (y : Net (G := GB) (D := DB))
    a p cut e pending now writes cA :
  understood cfgA ncA nonceA ncB -> understood cfgB ncB nonceB ncA -> nc_SkipInboundLabelCheck ncB = false ->
  keys_ok ncA -> keys_ok ncB -> delivers cut -> nameless ncA a = false -> Ping_valid p ->
  let serve := served cfgB ncB nonceB errorText y cut e pending now in
  let peer := Some (Dialled (OutConn [] writes) serve) in
  dialLabelled ncA peer = Ok (Dialled cA serve) -> oc_writes cA <> 0%nat ->
  exists x', sendPingAndWaitForAck cfgA ncA nonceA x a p peer =
    Some (if String.eqb (Ping_Node p) "" || String.eqb (Ping_Node p) (c_Name cfgB)
          then Ok true else Err (ExchangeStream (StreamIO EOF)), x').
Proof.
  intros HuA HuB Hs HkA HkB Hcut Hna Hv serve peer Ed Hwr.
  assert (Hfresh : freshly peer) by (by intros ? [= <-]).
  destruct (small_sent cfgA ncA nonceA x cA (encode pingMsg (MPing p)) (nc_Label ncA) HkA (len_Ping p Hv) Hwr) as (cA' & x' & EA).
  exists x'. unfold sendPingAndWaitForAck. rewrite Hna, Ed, EA. cbn [mbind option_bind]. do 2 f_equal.
  destruct (Hcut (oc_data cA')) as [Hc1 Hc2]. unfold serve, served.
  rewrite (ping_handled cfgA cfgB ncA ncB nonceA nonceB errorText x y p peer (Dialled cA serve) cA' x') by done.
  destruct (_ || _); [|done]. pose proof (len_Ack (Ping_SeqNo p)) as Hla.
  edestruct (small_sent cfgB ncB nonceB y (OutConn [] 1)) as (cB' & y' & EB); [done|shelve|done|].
  unfold reply. rewrite EB. cbn [mbind option_bind].
  destruct (ack_read cfgB ncA ncB nonceB y (Ping_SeqNo p) cB' y' HuB (proj1 Hv) EB) as (dec & d' & -> & E).
  rewrite Z.eqb_refl. cbn [negb]. rewrite E. cbn [Ack_SeqNo]. by rewrite Z.eqb_refl.
  Unshelve. lia.
Qed.

(** An accepting node whose own state is over the limits says so: the
    initiator's push/pull ends with that error, and neither side has merged
    anything. *)
Theorem oversized_state_reported {GA GB DA DB} `{Rand GA} `{Rand GB} `{MathLog} `{LZWLaws} `{GCMLaws} `{Delegates DA} `{Delegates DB}
    cfgA cfgB ncA ncB nonceA nonceB errorText (x : Net (G := GA) (D := DA)) (y : Net (G := GB) (D := DB))
    a join cut e pending nowA nowB writes cA cA' x1 n limit y1 :
  understood cfgA ncA nonceA ncB -> understood cfgB ncB nonceB ncA -> nc_SkipInboundLabelCheck ncB = false -> keys_ok ncB ->
  delivers cut -> nameless ncA a = false -> 0 <= pending < maxPushPullRequests - 1 ->
  Forall sendable (map localNode (nodeList x)) -> str_ok (errorText (ErrMessageTooLarge n limit)) ->
  let serve := served cfgB ncB nonceB errorText y cut e pending nowB in
  let peer := Some (Dialled (OutConn [] writes) serve) in
  dialLabelled ncA peer = Ok (Dialled cA serve) ->
  sendLocalState cfgA ncA nonceA x cA join (nc_Label ncA) = Some (Ok tt, cA', x1) ->
  sendLocalState cfgB ncB nonceB y (OutConn [] 1) join (nc_Label ncB) = Some (Err (ErrMessageTooLarge n limit), OutConn [] 1, y1) ->
  pushPullNode cfgA ncA nonceA x a join peer nowA = Some (Err (RemoteError (errorText (ErrMessageTooLarge n limit))), x1) /\
  x_m x1 = x_m x /\
  exists c y2, handleConn cfgB ncB nonceB errorText y (Conn (cut (oc_data cA')) e) (OutConn [] 1) pending nowB = Some (c, y2) /\ x_m y2 = x_m y.
Proof.
  intros HuA HuB Hs HkB Hcut Hna Hpend HnA Htext serve peer Ed EA EB.
  assert (Hfresh : freshly peer) by (by intros ? [= <-]). destruct (Hcut (oc_data cA')) as [Hc1 Hc2].
  pose proof (len_ErrResp _ Htext) as Hle. set (msg := encode errMsg (MErrResp (MkErrResp (errorText (ErrMessageTooLarge n limit))))) in *.
  destruct (small_sent cfgB ncB nonceB y1 (OutConn [] 1) msg (nc_Label ncB) HkB Hle) as (c & y2 & ES); [done|].
  assert (Hh : handleConn cfgB ncB nonceB errorText y (Conn (cut (oc_data cA')) e) (OutConn [] 1) pending nowB = Some (c, y2)).
  { rewrite (pushed_state_handled cfgA cfgB ncA ncB nonceA nonceB errorText x y join _ _ pending nowB peer (Dialled cA serve) cA' x1) by done.
    rewrite EB. cbn [mbind option_bind]. unfold sendErr, reply. fold msg. by rewrite ES. }
  destruct (sendLocalState_sent _ _ _ _ _ _ _ _ _ EA) as [Em _]. split_and!; [|done|].
  - unfold pushPullNode, sendAndReceiveState. rewrite Hna, Ed, EA. cbn [mbind option_bind].
    assert (Ea : serve (oc_data cA') = Source (oc_data c) EOF) by (unfold serve, served; by rewrite Hh). rewrite Ea.
    destruct (answer_read cfgB ncA ncB nonceB y1 msg c y2 errMsg) as (t & dec & rest & Et & Ht & Hdec & Hp); try done.
    { unfold msg. by rewrite encode_cons. }
    { change maxStreamMessageBytes with 41943040. lia. }
    unfold msg in Ht, Hp. rewrite encode_cons in Ht, Hp. cbn [drop] in Hp. rewrite drop_0 in Hp. injection Ht as <-.
    unfold readAnswer. rewrite Et. change (b2z (z2b errMsg) =? errMsg) with true. cbv iota.
    by rewrite (ErrResp_roundtrip (MkErrResp (errorText (ErrMessageTooLarge n limit))) Htext dec rest Hdec Hp).
  - exists c, y2. split; [done|]. apply rawSendMsgStream_Ok in ES as [Ht _]. rewrite (talks_m _ _ Ht).
    by eapply sendLocalState_members.
Qed.

(** ** Witnesses: two labelled, compressing and encrypting nodes *)

#[local] Existing Instance exampleDelegates.
#[local] Existing Instance storedLZW.
#[local] Existing Instance storedLZW_laws.
#[local] Existing Instance tagging.
#[local] Existing Instance tagging_laws.

Definition exampleCut (b : bytes) : list bytes := map (fun c => [c]) b.

Lemma exampleCut_delivers : delivers exampleCut.
Proof.
  intros b. induction b as [|c b [IH1 IH2]]; [by split|]. split; [cbn; by f_equal|]. by constructor.
Qed.

Lemma exampleNet_understood name : understood (exampleConfig name) exampleNet exampleNonce exampleNet.
Proof.
  constructor; [reflexivity|]. intros i msg wire _. unfold reads_from.
  replace (encrypting exampleNet) with true by (vm_compute; reflexivity).
  split; [reflexivity|]. split; [vm_compute; reflexivity|].
  exists netRing, netRing, (exampleKey 3), [], []. split; [reflexivity|]. split; [vm_compute; reflexivity|].
  split; [reflexivity|]. split; [vm_compute; reflexivity|constructor].
Qed.

Definition exampleDialled : option dialled := Some (Dialled (OutConn [] 2) (fun _ => Source [] EOF)).
Definition exampleHello : bytes := str2b "hello hello hello hello".
Definition exampleNodeB : Net (G := Z) (D := list bytes) := exampleNode exampleStateB.
Definition examplePeerB : PeerAddress := (str2b "10.0.0.2:7946", "b"%string).

Lemma exampleDialled_fresh : freshly exampleDialled.
Proof. by intros p [= <-]. Qed.

Lemma exampleHello_sent : exists wire x',
  sendUserMsg (exampleConfig "a") exampleNet exampleNonce (exampleNode exampleState) examplePeerB exampleHello exampleDialled = Some (Ok wire, x').
Proof.
  destruct (sendUserMsg _ _ _ _ _ _ _) as [[[wire|e] x']|] eqn:E; [by exists wire, x'|exfalso..]; revert E; vm_compute; discriminate.
Qed.

Lemma user_message_delivered_witness : exists wire,
  handleConn (exampleConfig "b") exampleNet exampleNonce exampleText exampleNodeB (Conn (exampleCut wire) EOF) (OutConn [] 1) 0 9 =
    Some (OutConn [] 1, set_delegate exampleNodeB [exampleHello]).
Proof.
  destruct exampleHello_sent as (wire & x' & E). exists wire. destruct (exampleCut_delivers wire) as [H1 H2].
  exact (user_message_delivered (exampleConfig "a") (exampleConfig "b") exampleNet exampleNet exampleNonce exampleNonce exampleText
    (exampleNode exampleState) exampleNodeB examplePeerB exampleHello exampleDialled wire x' (Conn (exampleCut wire) EOF) (OutConn [] 1) 0 9
    (exampleNet_understood "a") eq_refl exampleDialled_fresh E H2 H1).
Defined.

Definition exampleServe (now : Z) : bytes -> source :=
  served (exampleConfig "b") exampleNet exampleNonce exampleText exampleNodeB exampleCut EOF 0 now.
Definition exampleServed (now : Z) : option dialled := Some (Dialled (OutConn [] 2) (exampleServe now)).
Definition exampleLabelled : outConn := OutConn (makeLabelHeader "dc1" []) 1.

Lemma exampleNodeB_ok : net_ok (exampleConfig "b") exampleNet exampleNodeB.
Proof. constructor; [apply exampleStateB_ok| |done|done]. constructor; cbn; try done. by intros ? ? ? ? ?%elem_of_nil. Qed.

Ltac all_sendable :=
  match goal with |- Forall _ ?l => let l' := eval vm_compute in l in change (Forall sendable l') end;
  repeat (apply Forall_cons; split; [split; [repeat split; vm_compute; congruence|discriminate]|]); apply Forall_nil; exact I.

Lemma exampleA_sendable : Forall sendable (map localNode (nodeList (exampleNode exampleState))).
Proof. all_sendable. Qed.

Lemma exampleB_sendable : Forall sendable (map localNode (nodeList exampleNodeB)).
Proof. all_sendable. Qed.

Lemma exampleA_sends : exists c' x1,
  sendLocalState (exampleConfig "a") exampleNet exampleNonce (exampleNode exampleState) exampleLabelled true (nc_Label exampleNet) = Some (Ok tt, c', x1).
Proof.
  destruct (sendLocalState _ _ _ _ _ _ _) as [[[[[]|e] c'] x']|] eqn:E; [by exists c', x'|exfalso..]; revert E; vm_compute; discriminate.
Qed.

Lemma exampleB_sends : exists c' y1,
  sendLocalState (exampleConfig "b") exampleNet exampleNonce exampleNodeB (OutConn [] 1) true (nc_Label exampleNet) = Some (Ok tt, c', y1).
Proof.
  destruct (sendLocalState _ _ _ _ _ _ _) as [[[[[]|e] c'] x']|] eqn:E; [by exists c', x'|exfalso..]; revert E; vm_compute; discriminate.
Qed.

Lemma push_pull_exchange_witness : exists r x2,
  pushPullNode (exampleConfig "a") exampleNet exampleNonce (exampleNode exampleState) examplePeerB true (exampleServed 70) 60 = Some (r, x2).
Proof.
  destruct exampleA_sends as (cA' & x1 & EA). destruct exampleB_sends as (cB' & y1 & EB).
  destruct (push_pull_exchange (exampleConfig "a") (exampleConfig "b") exampleNet exampleNet exampleNonce exampleNonce exampleText
    (exampleNode exampleState) exampleNodeB examplePeerB true exampleCut EOF 0 60 70 2 exampleLabelled cA' x1 cB' y1)
    as (rA & x2 & rB & y2 & _ & _ & _ & E).
  - apply exampleNet_understood.
  - apply exampleNet_understood.
  - reflexivity.
  - apply exampleCut_delivers.
  - reflexivity.
  - split; [discriminate|reflexivity].
  - apply exampleNode_ok.
  - vm_compute. congruence.
  - apply exampleNodeB_ok.
  - vm_compute. congruence.
  - apply exampleA_sendable.
  - apply exampleB_sendable.
  - reflexivity.
  - exact EA.
  - exact EB.
  - eexists _, x2. exact E.
Defined.

Lemma stream_ping_decides_witness : exists x',
  sendPingAndWaitForAck (exampleConfig "a") exampleNet exampleNonce (exampleNode exampleState) examplePeerB
    (MkPing 7 "b" None 0 "a") (exampleServed 70) = Some (Ok true, x').
Proof.
  refine (stream_ping_decides (exampleConfig "a") (exampleConfig "b") exampleNet exampleNet exampleNonce exampleNonce exampleText
    (exampleNode exampleState) exampleNodeB examplePeerB (MkPing 7 "b" None 0 "a") exampleCut EOF 0 70 2 exampleLabelled _ _ _ _ _ _ _ _ _ _).
  - apply exampleNet_understood.
  - apply exampleNet_understood.
  - reflexivity.
  - apply netRing_ok.
  - apply netRing_ok.
  - apply exampleCut_delivers.
  - reflexivity.
  - repeat split; vm_compute; congruence.
  - reflexivity.
  - discriminate.
Defined.

(** A node whose application has a byte of state too many. *)
Definition hugeData : bytes := replicate (Z.to_nat (maxPushStateBytes + 1)) (z2b 0).
Definition hugeDelegates : Delegates unit := {|
  DelegateGetBroadcasts _ _ d := ([], d);
  DelegateNotifyMsg _ d := d;
  DelegateLocalState _ d := (hugeData, d);
  DelegateMergeRemoteState _ _ d := d;
  DelegateAckPayload d := (None, d);
  DelegateNotifyPingComplete _ _ _ d := d;
  DelegateNotifyMerge _ d := (true, d);
|}.
Definition hugeNode : Net (G := Z) (D := unit) := MkNet exampleStateB newAckTable [] [] false (exampleAddr 2, 7946) tt 0 [] ∅ ∅.

Lemma len_hugeData : len hugeData = maxPushStateBytes + 1.
Proof. unfold len, hugeData. rewrite length_replicate. apply Z2Nat.id. discriminate. Qed.

Lemma hugeNode_sends :
  sendLocalState (DL := hugeDelegates) (exampleConfig "b") exampleNet exampleNonce hugeNode (OutConn [] 1) true (nc_Label exampleNet) =
    Some (Err (ErrMessageTooLarge (maxPushStateBytes + 1) maxPushStateBytes), OutConn [] 1, hugeNode).
Proof.
  unfold sendLocalState. change (nc_Delegate exampleNet) with true. cbv iota. cbn [DelegateLocalState hugeDelegates].
  rewrite len_hugeData. destruct (Z.gtb_spec (maxPushStateBytes + 1) maxPushStateBytes) as [_|]; [reflexivity|lia].
Qed.

Lemma oversized_state_reported_witness : exists serve x1,
  pushPullNode (exampleConfig "a") exampleNet exampleNonce (exampleNode exampleState) examplePeerB true
    (Some (Dialled (OutConn [] 2) serve)) 60 = Some (Err (RemoteError "refused"), x1).
Proof.
  destruct exampleA_sends as (cA' & x1 & EA). eexists _, x1.
  refine (proj1 (oversized_state_reported (H7 := hugeDelegates) (exampleConfig "a") (exampleConfig "b") exampleNet exampleNet exampleNonce exampleNonce
    exampleText (exampleNode exampleState) hugeNode examplePeerB true exampleCut EOF 0 60 70 2 exampleLabelled cA' x1
    (maxPushStateBytes + 1) maxPushStateBytes hugeNode _ _ _ _ _ _ _ _ _ _ EA hugeNode_sends)).
  - apply exampleNet_understood.
  - apply exampleNet_understood.
  - reflexivity.
  - apply netRing_ok.
  - apply exampleCut_delivers.
  - reflexivity.
  - split; [discriminate|reflexivity].
  - apply exampleA_sendable.
  - vm_compute. congruence.
  - reflexivity.
Defined.
