(* ===== verification/Cluster.v ===== *)
(** A cluster: nodes that gossip, exchange their states, suspect each other and
    serve their users, over a network that loses, repeats, delays and reorders
    what it carries but does not make it up.

    What was ever sent stays in the network and can be delivered any number of
    times. Gossip is carried as the bytes that [getBroadcasts] hands out and is
    received by [handleQueued]; states are carried as what [sendLocalState] puts
    on the wire, which [Exchange] shows to arrive, and are merged by
    [mergeState]. *)

From S2P Require Import Prelude Msgpack Wire Treap Timing Queue NetAddr Nodes Events Packet State Lifecycle Membership Beliefs Typing Protocol Merge Security HostPort Acks Net Streams Ingest.

(** ** The system *)

Section System.
Context {G : Type} {RG : Rand G} {ML : MathLog} {GC : GCM} {D : Type} {DL : Delegates D}.
Context (cfgOf : string -> Config) (ncOf : string -> NetConfig).
Implicit Types m : Memberlist (G := G).
Implicit Types x : Net (G := G) (D := D).

Record cluster := MkCluster {
  cl_nodes : gmap string (Net (G := G) (D := D));
  cl_gossip : list bytes;
  cl_states : list (list PushNodeState);
}.
Implicit Types C : cluster.

Inductive event :=
| EDeliver (p : string) (i : nat) (from : bytes)       (* the [i]th gossip reaches [p] *)
| EMerge (p : string) (i : nat)                        (* the [i]th state reaches [p] *)
| ESuspect (p q : string) (inc : Z)                    (* a probe of [q] by [p] fails *)
| EGossip (p : string) (overhead limit : Z)            (* [p] sends broadcasts *)
| EPush (p : string)                                   (* [p] sends its state *)
| ELocal (p : string) (i : input).                     (* a timer or a call of the user *)

(** The inputs of a node that come from itself, with values as its callers may
    give them; an announcement is of an incarnation number drawn before. *)
Definition ownInput m (i : input) : bool :=
  match i with
  | InExpire _ | InCallback _ | InReset | InDraw | InLeave _ | InShutdown | InFinish => true
  | InUpdate meta _ _ => len (slice_bytes meta) <=? MaxFieldBytes
  | InAnnounce inc addr _ meta _ =>
      (0 <=? inc) && (inc <=? m_incarnation m) && (len (slice_bytes addr) <=? MaxFieldBytes) && (len (slice_bytes meta) <=? MaxFieldBytes)
  | InAlive _ | InSuspect _ | InDead _ | InMerge _ => false
  end.

(** The counters of a node, for broadcasts and for incarnations, have room. *)
Definition fits m (n : Z) : bool := (q_idGen (m_broadcasts m) + n <=? MaxInt64) && (m_incarnation m + n <=? MaxUint32).

Definition setNodeOf C (p : string) x : cluster := MkCluster (<[p := x]> (cl_nodes C)) (cl_gossip C) (cl_states C).

(** A handler at [p]. *)
Definition handleAt C (p : string) x (i : input) (now : Z) : option cluster :=
  if fits (x_m x) (draws i) then m ← handle (cfgOf p) (x_m x) i now; Some (setNodeOf C p (set_m x m)) else None.

(** [None] when the event cannot happen: there is no such node or message, or
    no room in a counter. *)
Definition happen C (e : event) (now : Z) : option cluster :=
  match e with
  | EDeliver p i from =>
      x ← cl_nodes C !! p;
      b ← cl_gossip C !! i;
      match b with
      | [] => None
      | t :: buf =>
          if fits (x_m x) 1 then x ← handleQueued (cfgOf p) (ncOf p) x (MsgHandoff (b2z t) buf from) now; Some (setNodeOf C p x) else None
      end
  | EMerge p i =>
      x ← cl_nodes C !! p;
      remote ← cl_states C !! i;
      handleAt C p x (InMerge remote) now
  | ESuspect p q inc =>
      x ← cl_nodes C !! p;
      s ← members (x_m x) !! q;
      if (0 <=? inc) && (inc <=? st_Incarnation s) then handleAt C p x (InSuspect (MkSuspect inc q p)) now else None
  | EGossip p overhead limit =>
      x ← cl_nodes C !! p;
      if 0 <=? overhead then
        '(msgs, x) ← getBroadcasts (ncOf p) x overhead limit;
        Some (MkCluster (<[p := x]> (cl_nodes C)) (cl_gossip C ++ msgs) (cl_states C))
      else None
  | EPush p =>
      x ← cl_nodes C !! p;
      Some (MkCluster (cl_nodes C) (cl_gossip C) (cl_states C ++ [map localNode (map (stateAt (x_m x)) (t_nodes (m_table (x_m x))))]))
  | ELocal p i =>
      x ← cl_nodes C !! p;
      if ownInput (x_m x) i then handleAt C p x i now else None
  end.

(** Which events can happen. *)
Definition enabled C (e : event) : bool :=
  match e with
  | EDeliver p i _ => match cl_nodes C !! p with Some x => (i <? length (cl_gossip C))%nat && fits (x_m x) 1 | None => false end
  | EMerge p i =>
      match cl_nodes C !! p, cl_states C !! i with Some x, Some remote => fits (x_m x) (len remote) | _, _ => false end
  | ESuspect p q inc =>
      match cl_nodes C !! p with
      | Some x => match members (x_m x) !! q with Some s => (0 <=? inc) && (inc <=? st_Incarnation s) && fits (x_m x) 1 | None => false end
      | None => false
      end
  | EGossip p overhead _ => bool_decide (is_Some (cl_nodes C !! p)) && (0 <=? overhead)
  | EPush p => bool_decide (is_Some (cl_nodes C !! p))
  | ELocal p i => match cl_nodes C !! p with Some x => ownInput (x_m x) i && fits (x_m x) (draws i) | None => false end
  end.

Fixpoint runCluster C (es : list (event * Z)) : option cluster :=
  match es with
  | [] => Some C
  | (e, now) :: es => C ← happen C e now; runCluster C es
  end.

(** Nodes that have just been built. *)
Definition freshNode x : Prop := exists aw mult g, x_m x = newMemberlist aw mult g.
Definition freshCluster (nodes : gmap string (Net (G := G) (D := D))) : cluster := MkCluster nodes [] [].

(** ** Knowledge *)

(** The incarnation counter of a node and whether it has left. *)
Definition ownOf C (q : string) : Z := match cl_nodes C !! q with Some x => m_incarnation (x_m x) | None => 0 end.
Definition leftOf C (q : string) : bool := match cl_nodes C !! q with Some x => m_leave (x_m x) | None => false end.
End System.

(** The node a piece of gossip is about and the incarnation it gives it. *)
Definition gossipAbout (b : bytes) : option (string * Z) :=
  match b with
  | [] => None
  | t :: buf =>
      if b2z t =? suspectMsg then match decode KSuspect buf with Ok (MSuspect x) => Some (Suspect_Node x, Suspect_Incarnation x) | _ => None end
      else if b2z t =? aliveMsg then match decode KAlive buf with Ok (MAlive a) => Some (Alive_Node a, Alive_Incarnation a) | _ => None end
      else if b2z t =? deadMsg then match decode KDead buf with Ok (MDead d) => Some (Dead_Node d, Dead_Incarnation d) | _ => None end
      else None
  end.

(** What is true of a cluster in which node [q] has drawn [own q] incarnation
    numbers and has left if [left q]. *)
Section Known.
Context (own : string -> Z) (left : string -> bool).

Definition known (name : string) (inc : Z) : Prop := 0 <= inc <= own name.
Definition knownState (s : nodeState) : Prop := known (st_Name s) (st_Incarnation s) /\ (st_State s = StateLeft -> left (st_Name s) = true).
Definition knownAlive (a : Alive) : Prop := known (Alive_Node a) (Alive_Incarnation a).
Definition knownSuspect (x : Suspect) : Prop := known (Suspect_Node x) (Suspect_Incarnation x).
Definition knownDead (d : Dead) : Prop := known (Dead_Node d) (Dead_Incarnation d) /\ (Dead_Node d = Dead_From d -> left (Dead_Node d) = true).
End Known.

(** The same from inside the node [me]. *)
Definition ownAt (own : string -> Z) (me : string) (v : standing) (q : string) : Z := if String.eqb q me then v.1 else own q.
Definition leftAt (left : string -> bool) (me : string) (v : standing) (q : string) : bool := if String.eqb q me then v.2 else left q.

Definition knownBeliefs (own : string -> Z) (left : string -> bool) (me : string) : Beliefs := {|
  okCounter c := 0 <= c <= MaxUint32;
  budget c n := c + n <= MaxUint32;
  grows v v' := v.1 <= v'.1 /\ (v.2 = true -> v'.2 = true);
  okState v := knownState (ownAt own me v) (leftAt left me v);
  okAlive v := knownAlive (ownAt own me v);
  okSuspect v := knownSuspect (ownAt own me v);
  okDead v := knownDead (ownAt own me v) (leftAt left me v);
  okAccused v acc := 0 <= acc <= v.1;
  okMeta _ := True |}.

(** *** Monotonicity *)

Lemma known_mono (own own' : string -> Z) name inc : (forall q, own q <= own' q) -> known own name inc -> known own' name inc.
Proof. intros H [? ?]. specialize (H name). split; lia. Qed.
Lemma knownState_mono own own' left left' s :
  (forall q, own q <= own' q) -> (forall q, left q = true -> left' q = true) -> knownState own left s -> knownState own' left' s.
Proof. intros H1 H2 [? ?]. split; [by eapply known_mono|auto]. Qed.
Lemma knownDead_mono own own' left left' s :
  (forall q, own q <= own' q) -> (forall q, left q = true -> left' q = true) -> knownDead own left s -> knownDead own' left' s.
Proof. intros H1 H2 [? ?]. split; [by eapply known_mono|auto]. Qed.

Lemma ownAt_grows own me v v' : v.1 <= v'.1 -> forall q, ownAt own me v q <= ownAt own me v' q.
Proof. intros H q. unfold ownAt. destruct (String.eqb q me); lia. Qed.
Lemma leftAt_grows left me v v' : (v.2 = true -> v'.2 = true) -> forall q, leftAt left me v q = true -> leftAt left me v' q = true.
Proof. intros H q. unfold leftAt. destruct (String.eqb q me); auto. Qed.
Lemma ownAt_me own me v : ownAt own me v me = v.1.
Proof. unfold ownAt. by rewrite String.eqb_refl. Qed.
Lemma leftAt_me left me v : leftAt left me v me = v.2.
Proof. unfold leftAt. by rewrite String.eqb_refl. Qed.

Lemma aliveUpdate_known s a now : st_Name (aliveUpdate s a now) = st_Name s /\ st_Incarnation (aliveUpdate s a now) = Alive_Incarnation a /\
  st_State (aliveUpdate s a now) = StateAlive.
Proof.
  unfold aliveUpdate. destruct (parseVsn (Alive_Vsn a)) as [vsn ok]. destruct (_ >? 0); cbn; case_bool_decide; cbn; auto.
Qed.

Lemma knownLaws own left cfg : (forall q, 0 <= own q) -> BeliefLaws (knownBeliefs own left (c_Name cfg)) cfg.
Proof.
  intros Hown. constructor; cbn.
  - split; [by split|]. intros v1 v2 v3 [] []. split; [lia|auto].
  - intros c n k ? ?. lia.
  - intros v v' s [G1 G2] H. eapply knownState_mono; [by apply ownAt_grows|by apply leftAt_grows|exact H].
  - intros v v' a [G1 G2] H. eapply known_mono; [by apply ownAt_grows|exact H].
  - intros v v' x [G1 G2] H. eapply known_mono; [by apply ownAt_grows|exact H].
  - intros v v' d [G1 G2] H. eapply knownDead_mono; [by apply ownAt_grows|by apply leftAt_grows|exact H].
  - intros v a [H1 H2]. unfold knownState, known, newRecord. destruct (_ >? 0); cbn; (split; [lia|done]).
  - intros v s a now Hs Ha E. destruct (aliveUpdate_known s a now) as (E1 & E2 & E3). unfold knownState. rewrite E1, E2, E3, E. split; [exact Ha|done].
  - intros v s x now Hs Hx E. unfold knownState. change (st_Name (suspectUpdate s x now)) with (st_Name s). rewrite E. split; [exact Hx|done].
  - intros v s d now Hs [Hd Hl] E. unfold knownState, st_Name, st_State, set_State, set_Incarnation in *. cbn. rewrite E. split; [exact Hd|].
    unfold diedAs. destruct (String.eqb_spec (Dead_Node d) (Dead_From d)); [auto|done].
  - intros v a Ha E. unfold knownAlive, known in Ha. by rewrite E, ownAt_me in Ha.
  - intros v x Ha E. unfold knownSuspect, known in Ha. by rewrite E, ownAt_me in Ha.
  - intros v d [Ha _] E. unfold known in Ha. by rewrite E, ownAt_me in Ha.
  - intros c n l Hn [H1 H2] Hb. rewrite u32_small by (unfold MaxUint32 in *; lia). split_and!; [lia..|auto].
  - intros c n l acc Hn [H1 H2] Hb Hacc. rewrite refutedInc_eq by lia. rewrite Z.max_l by lia. split_and!; [lia..|auto].
  - intros c l s [H1 H2] [_ Hl] E. split; [|split; cbn; [done|fold (st_Name s); rewrite E, ownAt_me; cbn; lia]].
    split; [|exact Hl]. change (st_Name (set_Incarnation s c)) with (st_Name s). rewrite E. split; [done|]. rewrite ownAt_me. cbn. lia.
  - intros c l s meta [H1 H2] _ _. split; cbn; [done|]. rewrite ownAt_me. cbn. lia.
  - intros c l s [Hk _] E. split; [split; [lia|done]|]. split; cbn.
    + destruct Hk as [? Hk]. split; [done|]. cbn in *. rewrite E, ownAt_me in *. exact Hk.
    + intros _. by rewrite E, leftAt_me.
  - intros v s [Hk _] _ Hne. split; [exact Hk|done].
Qed.

(** ** The invariant *)

(** A change of family that holds of the node as it is. *)
Lemma sound_impl {G} `{Rand G} (B1 B2 : Beliefs) (m : Memberlist (G := G)) (v := standingOf m) :
  (okCounter (Beliefs := B1) (m_incarnation m) -> okCounter (Beliefs := B2) (m_incarnation m)) ->
  (forall s, okState (Beliefs := B1) v s -> okState (Beliefs := B2) v s) -> (forall a, okAlive (Beliefs := B1) v a -> okAlive (Beliefs := B2) v a) ->
  (forall x, okSuspect (Beliefs := B1) v x -> okSuspect (Beliefs := B2) v x) -> (forall d, okDead (Beliefs := B1) v d -> okDead (Beliefs := B2) v d) ->
  sound (B := B1) m -> sound (B := B2) m.
Proof.
  intros H0 H1 H2 H3 H4 [Hc Hn Hb]. constructor; [auto|eauto|]. intros k b Hin. destruct (Hb k b Hin); constructor; auto.
Qed.

Section Invariant.
Context {G : Type} {RG : Rand G} {RL : RandLaws G} {ML : MathLog} {GC : GCM} {D : Type} {DL : Delegates D}.
Context (cfgOf : string -> Config) (ncOf : string -> NetConfig).
Implicit Types m : Memberlist (G := G).
Implicit Types x : Net (G := G) (D := D).
Implicit Types C : cluster (G := G) (D := D).

(** Well typed and known. *)
Definition beliefsAt own left (p : string) : Beliefs := both typedBeliefs (knownBeliefs own left p).

(** Gossip on the wire is of the user or one of three messages. *)
Inductive gossipOk (own : string -> Z) (left : string -> bool) : bytes -> Prop :=
| gossip_user buf : gossipOk own left (z2b userMsg :: buf)
| gossip_alive a : Alive_valid a -> knownAlive own a -> gossipOk own left (encode aliveMsg (MAlive a))
| gossip_suspect (x : Suspect) : Suspect_valid x -> knownSuspect own x -> gossipOk own left (encode suspectMsg (MSuspect x))
| gossip_dead d : Dead_valid d -> knownDead own left d -> gossipOk own left (encode deadMsg (MDead d)).

Record pushedOk (own : string -> Z) (left : string -> bool) (r : PushNodeState) : Prop := {
  pu_valid : PushNodeState_valid r;
  pu_known : known own (PNS_Name r) (PNS_Incarnation r);
  pu_left : toNodeStateType (PNS_State r) = Some StateLeft -> left (PNS_Name r) = true;
}.

Record cluster_ok C : Prop := {
  co_name p x : cl_nodes C !! p = Some x -> c_Name (cfgOf p) = p /\ str_ok p;
  co_state p x : cl_nodes C !! p = Some x -> state_ok (cfgOf p) (x_m x);
  co_sound p x : cl_nodes C !! p = Some x -> sound (B := beliefsAt (ownOf C) (leftOf C) p) (x_m x);
  co_gossip b : b ∈ cl_gossip C -> gossipOk (ownOf C) (leftOf C) b;
  co_states remote : remote ∈ cl_states C -> Forall (pushedOk (ownOf C) (leftOf C)) remote;
}.

(** *** Moving between views *)

(** The view of a node that is in the cluster is the cluster's. *)
Lemma ownAt_cluster C p x q : cl_nodes C !! p = Some x -> ownAt (ownOf C) p (standingOf (x_m x)) q = ownOf C q.
Proof. intros E. unfold ownAt, ownOf. destruct (String.eqb_spec q p) as [->|]; [by rewrite E|done]. Qed.
Lemma leftAt_cluster C p x q : cl_nodes C !! p = Some x -> leftAt (leftOf C) p (standingOf (x_m x)) q = leftOf C q.
Proof. intros E. unfold leftAt, leftOf. destruct (String.eqb_spec q p) as [->|]; [by rewrite E|done]. Qed.

Lemma gossipOk_mono own own' left left' b :
  (forall q, own q <= own' q) -> (forall q, left q = true -> left' q = true) -> gossipOk own left b -> gossipOk own' left' b.
Proof.
  intros H1 H2 []; constructor; try done; [by eapply known_mono|by eapply known_mono|by eapply knownDead_mono].
Qed.
Lemma pushedOk_mono own own' left left' r :
  (forall q, own q <= own' q) -> (forall q, left q = true -> left' q = true) -> pushedOk own left r -> pushedOk own' left' r.
Proof. intros H1 H2 []. constructor; [done|by eapply known_mono|auto]. Qed.

(** A node among others that have moved on. *)
Lemma sound_mono p own own' left left' m :
  (forall q, ownAt own p (standingOf m) q <= ownAt own' p (standingOf m) q) ->
  (forall q, leftAt left p (standingOf m) q = true -> leftAt left' p (standingOf m) q = true) ->
  sound (B := beliefsAt own left p) m -> sound (B := beliefsAt own' left' p) m.
Proof.
  intros H1 H2. apply sound_impl; cbn.
  - done.
  - intros s [? ?]. split; [done|by eapply knownState_mono].
  - intros a [? ?]. split; [done|by eapply known_mono].
  - intros a [? ?]. split; [done|by eapply known_mono].
  - intros a [? ?]. split; [done|by eapply knownDead_mono].
Qed.

(** *** One node moves *)

Lemma own_nonneg C q : cluster_ok C -> 0 <= ownOf C q.
Proof. intros Hc. unfold ownOf. destruct (cl_nodes C !! q) eqn:E; [|done]. apply (co_sound _ Hc) in E as [[_ H] _ _]. cbn in H. lia. Qed.

Lemma beliefLaws C p x : cluster_ok C -> cl_nodes C !! p = Some x -> BeliefLaws (beliefsAt (ownOf C) (leftOf C) p) (cfgOf p).
Proof.
  intros Hc E. destruct (co_name _ Hc p x E) as [Hname Hsize]. apply both_laws; [apply typedLaws; unfold config_typed; by rewrite Hname|].
  pose proof (knownLaws (ownOf C) (leftOf C) (cfgOf p)) as H. rewrite Hname in H. apply H. intros q. by apply own_nonneg.
Qed.

Lemma move_ok C p x x' gossip :
  cluster_ok C -> cl_nodes C !! p = Some x -> state_ok (cfgOf p) (x_m x') -> kept (B := beliefsAt (ownOf C) (leftOf C) p) 0 (x_m x) (x_m x') ->
  (forall b, b ∈ gossip -> gossipOk (ownOf C) (leftOf C) b) ->
  cluster_ok (MkCluster (<[p := x']> (cl_nodes C)) (cl_gossip C ++ gossip) (cl_states C)).
Proof.
  intros Hc E Hok [Hs [_ [Hg1 Hg2]] _] Hgo. cbn in Hg1, Hg2. set (C' := MkCluster _ _ _).
  assert (H1 : forall q, ownOf C q <= ownOf C' q).
  { intros q. unfold ownOf. cbn. destruct (decide (p = q)) as [<-|Hne]; [rewrite E, lookup_insert_eq; done|by rewrite lookup_insert_ne]. }
  assert (H2 : forall q, leftOf C q = true -> leftOf C' q = true).
  { intros q. unfold leftOf. cbn. destruct (decide (p = q)) as [<-|Hne]; [rewrite E, lookup_insert_eq; done|by rewrite lookup_insert_ne]. }
  constructor; cbn.
  - intros q y. destruct (decide (p = q)) as [<-|Hne]; [intros _; by apply (co_name _ Hc p x)|rewrite lookup_insert_ne by done; apply Hc].
  - intros q y. destruct (decide (p = q)) as [<-|Hne]; [rewrite lookup_insert_eq; by intros [= <-]|rewrite lookup_insert_ne by done; apply Hc].
  - intros q y Hq. apply (sound_mono q (ownOf C) _ (leftOf C)); [|intros r; unfold leftAt; destruct (String.eqb r q); auto|].
    + intros r. unfold ownAt. destruct (String.eqb r q); [lia|apply H1].
    + destruct (decide (p = q)) as [<-|Hne]; [rewrite lookup_insert_eq in Hq; by injection Hq as <-|].
      rewrite lookup_insert_ne in Hq by done. by apply (co_sound _ Hc).
  - intros b [Hb|Hb]%elem_of_app; (eapply gossipOk_mono; [exact H1|exact H2|]); [by apply (co_gossip _ Hc)|by apply Hgo].
  - intros r Hr. eapply Forall_impl; [by apply (co_states _ Hc)|]. intros ?. by apply pushedOk_mono.
Qed.

Lemma fits_spec m n : fits m n = true <-> q_idGen (m_broadcasts m) + n <= MaxInt64 /\ m_incarnation m + n <= MaxUint32.
Proof. unfold fits. by rewrite andb_true_iff, !Z.leb_le. Qed.

Lemma cost_draws i : 0 <= cost i <= draws i.
Proof. destruct i; cbn; try lia. pose proof (len_nonneg remote). lia. Qed.

(** A handler with an input of the cluster. *)
Lemma handle_move C p x x' i now :
  cluster_ok C -> cl_nodes C !! p = Some x -> fits (x_m x) (draws i) = true -> okInput (B := beliefsAt (ownOf C) (leftOf C) p) (cfgOf p) (x_m x) i ->
  handle (cfgOf p) (x_m x) i now = Some (x_m x') -> cluster_ok (setNodeOf C p x').
Proof.
  intros Hc E [Hf1 Hf2]%fits_spec Hi H. pose proof (beliefLaws C p x Hc E). pose proof (cost_draws i).
  pose proof (co_state _ Hc p x E) as Hok. assert (Hr : room (cost i) (x_m x)) by (unfold room; lia).
  unfold setNodeOf. rewrite <- (app_nil_r (cl_gossip C)). apply (move_ok C p x); [done|done| | |set_solver].
  - destruct (handle_ok (cfgOf p) (x_m x) i now Hok Hr) as (m' & E' & Hok'). congruence.
  - eapply (handle_kept (B := beliefsAt (ownOf C) (leftOf C) p) (cfgOf p)); [exact Hok|by apply (co_sound _ Hc)|exact Hr|done| |exact Hi|exact H].
    split; [done|]. cbn. lia.
Qed.

Lemma handleAt_ok C C' p x i now :
  cluster_ok C -> cl_nodes C !! p = Some x -> okInput (B := beliefsAt (ownOf C) (leftOf C) p) (cfgOf p) (x_m x) i ->
  handleAt cfgOf C p x i now = Some C' -> cluster_ok C'.
Proof.
  intros Hc E Hi. unfold handleAt. destruct (fits _ _) eqn:Hf; [|done]. destruct (handle _ _ _ _) as [m|] eqn:H; [|done].
  cbn [mbind option_bind]. intros [= <-]. by eapply handle_move.
Qed.

(** *** What reaches a node *)

(** The known part of a belief, in the view of a node of the cluster. *)
Lemma known_at C p x name inc : cl_nodes C !! p = Some x -> known (ownOf C) name inc -> known (ownAt (ownOf C) p (standingOf (x_m x))) name inc.
Proof. intros E. unfold known. by rewrite (ownAt_cluster C p x). Qed.
Lemma knownDead_at C p x d :
  cl_nodes C !! p = Some x -> knownDead (ownOf C) (leftOf C) d ->
  knownDead (ownAt (ownOf C) p (standingOf (x_m x))) (leftAt (leftOf C) p (standingOf (x_m x))) d.
Proof. intros E [H1 H2]. split; [by apply known_at|]. by rewrite (leftAt_cluster C p x). Qed.

Lemma merge_input C p x remote :
  cluster_ok C -> cl_nodes C !! p = Some x -> remote ∈ cl_states C -> okInput (B := beliefsAt (ownOf C) (leftOf C) p) (cfgOf p) (x_m x) (InMerge remote).
Proof.
  intros Hc E Hin. cbn [okInput]. eapply Forall_impl; [by apply (co_states _ Hc)|]. intros r [(Hn & Ha & Hp & Hm & Hi & _ & Hv) Hk Hl].
  destruct (co_name _ Hc p x E) as [Hname Hsize]. pose proof (known_at C p x _ _ E Hk) as Hk'.
  unfold okRemote. destruct (toNodeStateType (PNS_State r)) as [[]|] eqn:Es; [| | | |done]; (split; [by rewrite ?Hname|]); try exact Hk'.
  apply knownDead_at; [done|]. split; [exact Hk|]. intros _. by apply Hl.
Qed.

Lemma suspect_input C p x q s inc :
  cluster_ok C -> cl_nodes C !! p = Some x -> members (x_m x) !! q = Some s -> 0 <= inc <= st_Incarnation s ->
  okInput (B := beliefsAt (ownOf C) (leftOf C) p) (cfgOf p) (x_m x) (InSuspect (MkSuspect inc q p)).
Proof.
  intros Hc E Hs Hi. rewrite members_lookup in Hs. destruct (nodeAt (x_m x) q) as [l|] eqn:El; [|done]. injection Hs as <-.
  destruct (node_known (x_m x) q l) as (s & Hl & Es & Hn); [apply (co_state _ Hc p x E)|done|]. rewrite Es in Hi.
  destruct (sd_nodes _ (co_sound _ Hc p x E) l s Hl) as [[Ht1 _ _ _ _ [Ht2 Ht3]] [[Hk1 Hk2] _]]. destruct (co_name _ Hc p x E) as [_ Hsize].
  rewrite Hn in *. split; [split_and!; [unfold u32_ok; cbn; lia|done|done]|]. split; cbn; [lia|]. cbn in Hk2. lia.
Qed.

Lemma own_input C p x i :
  cluster_ok C -> cl_nodes C !! p = Some x -> ownInput (x_m x) i = true -> okInput (B := beliefsAt (ownOf C) (leftOf C) p) (cfgOf p) (x_m x) i.
Proof.
  intros Hc E. destruct (co_name _ Hc p x E) as [Hname Hsize]. pose proof (sd_counter _ (co_sound _ Hc p x E)) as [Hct _]. cbn in Hct.
  destruct i; cbn [ownInput okInput]; try done.
  - rewrite !andb_true_iff, !Z.leb_le. intros [[[H1 H2] H3] H4]. rewrite Hname. split.
    + split_and!; [unfold u32_ok in *; cbn; lia|done|done|apply u16_typed|done|by apply vsnBytes_typed].
    + split; cbn; [done|]. by rewrite ownAt_me.
  - rewrite Z.leb_le. by split.
Qed.

Lemma same_move C p x x' gossip :
  cluster_ok C -> cl_nodes C !! p = Some x -> x_m x' = x_m x -> (forall b, b ∈ gossip -> gossipOk (ownOf C) (leftOf C) b) ->
  cluster_ok (MkCluster (<[p := x']> (cl_nodes C)) (cl_gossip C ++ gossip) (cl_states C)).
Proof.
  intros Hc E Em Hg. pose proof (beliefLaws C p x Hc E). apply (move_ok C p x); [done|done| | |done]; rewrite Em; [by apply (co_state _ Hc)|].
  pose proof (co_sound _ Hc p x E) as Hs. apply (kept_refl (cfgOf p)); [done|]. destruct (sd_counter _ Hs) as [_ [H1 H2]]. split; [done|]. cbn. lia.
Qed.
Lemma same_set C p x x' : cluster_ok C -> cl_nodes C !! p = Some x -> x_m x' = x_m x -> cluster_ok (setNodeOf C p x').
Proof. intros Hc E Em. unfold setNodeOf. rewrite <- (app_nil_r (cl_gossip C)). apply (same_move C p x); [done..|set_solver]. Qed.

Lemma portOrBind_typed cfg nc port : u16_ok port -> u16_ok (portOrBind cfg nc port).
Proof. unfold portOrBind. destruct (_ || _); [intros _; apply u16_typed|done]. Qed.

(** Gossip is handled as the message it encodes, or not at all. *)
Lemma deliver_input own left cfg nc x x' t buf from now :
  gossipOk own left (t :: buf) -> handleQueued cfg nc x (MsgHandoff (b2z t) buf from) now = Some x' ->
  x_m x' = x_m x \/ exists i, handle cfg (x_m x) i now = Some (x_m x') /\
    ((exists a, i = InAlive a /\ Alive_valid a /\ knownAlive own a) \/ (exists s, i = InSuspect s /\ Suspect_valid s /\ knownSuspect own s) \/
     (exists d, i = InDead d /\ Dead_valid d /\ knownDead own left d)).
Proof.
  intros Hg H. remember (t :: buf) as b eqn:Eb. destruct Hg as [ub|a Ha Hk|s Hs Hk|d Hd Hk]; rewrite ?encode_cons in Eb; injection Eb as <- <-.
  - left. cbn in H. unfold handleUser in H. by destruct (nc_Delegate nc); injection H as <-.
  - pose proof (decode_encode_alive a Ha) as Ed. rewrite encode_cons in Ed. cbn [drop] in Ed. rewrite drop_0 in Ed.
    change (handleAlive cfg nc x (AppendMsgpack (MAlive a) []) from now = Some x') in H. unfold handleAlive in H. rewrite Ed in H.
    destruct (negb _); [left; by injection H as <-|]. destruct (_ && _); [left; by injection H as <-|]. right.
    set (a' := MkAlive _ _ _ _ _ _) in H. exists (InAlive a'). cbn [handle]. destruct (aliveNode cfg (x_m x) a' false now) as [m|]; [|done].
    injection H as <-. split; [done|]. left. exists a'. destruct Ha as (? & ? & ? & ? & ? & ?). split_and!; [done| |exact Hk].
    split_and!; [done|done|done|by apply portOrBind_typed|done|done].
  - pose proof (decode_encode_suspect s Hs) as Ed. rewrite encode_cons in Ed. cbn [drop] in Ed. rewrite drop_0 in Ed.
    change (handleSuspect cfg x (AppendMsgpack (MSuspect s) []) from now = Some x') in H. unfold handleSuspect in H. rewrite Ed in H. right.
    exists (InSuspect s). cbn [handle]. destruct (suspectNode cfg (x_m x) s now) as [m|]; [|done]. injection H as <-. eauto 8.
  - pose proof (decode_encode_dead d Hd) as Ed. rewrite encode_cons in Ed. cbn [drop] in Ed. rewrite drop_0 in Ed.
    change (handleDead cfg x (AppendMsgpack (MDead d) []) from now = Some x') in H. unfold handleDead in H. rewrite Ed in H. right.
    exists (InDead d). cbn [handle]. destruct (deadNode cfg (x_m x) d now) as [m|]; [|done]. injection H as <-. eauto 8.
Qed.

Lemma deliver_ok C p x x' t buf from now :
  cluster_ok C -> cl_nodes C !! p = Some x -> t :: buf ∈ cl_gossip C -> fits (x_m x) 1 = true ->
  handleQueued (cfgOf p) (ncOf p) x (MsgHandoff (b2z t) buf from) now = Some x' -> cluster_ok (setNodeOf C p x').
Proof.
  intros Hc E Hin Hf H. destruct (deliver_input _ _ _ _ _ _ _ _ _ _ (co_gossip _ Hc _ Hin) H) as [Em|(i & Hh & Hi)]; [by eapply same_set|].
  destruct Hi as [(a & -> & Hv & Hk)|[(s & -> & Hv & Hk)|(d & -> & Hv & Hk)]]; (refine (handle_move C p x x' _ now Hc E _ _ Hh); [exact Hf|]); (split; [exact Hv|]);
    [by apply known_at|by apply known_at|by apply knownDead_at].
Qed.

(** *** What a node sends *)

Lemma said_gossip C p x b : cl_nodes C !! p = Some x -> said (B := beliefsAt (ownOf C) (leftOf C) p) (standingOf (x_m x)) b -> gossipOk (ownOf C) (leftOf C) b.
Proof.
  intros E [a [Hv Hk]|s [Hv Hk]|d [Hv [Hk Hl]]]; constructor; try done.
  - unfold knownAlive, known in *. cbn in Hk. unfold knownAlive, known in Hk. by rewrite (ownAt_cluster C p x) in Hk.
  - unfold knownSuspect, known in *. cbn in Hk. unfold knownSuspect, known in Hk. by rewrite (ownAt_cluster C p x) in Hk.
  - unfold known in Hk. rewrite (ownAt_cluster C p x) in Hk by done. rewrite (leftAt_cluster C p x) in Hl by done. by split.
Qed.

Lemma gossip_ok C p x x' overhead limit msgs :
  cluster_ok C -> cl_nodes C !! p = Some x -> 0 <= overhead -> getBroadcasts (ncOf p) x overhead limit = Some (msgs, x') ->
  cluster_ok (MkCluster (<[p := x']> (cl_nodes C)) (cl_gossip C ++ msgs) (cl_states C)).
Proof.
  intros Hc E Ho. pose proof (co_state _ Hc p x E) as Hok. pose proof (co_sound _ Hc p x E) as Hs. pose proof (beliefLaws C p x Hc E) as HL.
  unfold getBroadcasts.
  destruct (GetBroadcasts_ok mb_msg (estNumNodes (x_m x)) (m_rng (x_m x)) (m_broadcasts (x_m x)) overhead limit (so_queue _ _ Hok) Ho)
    as (q' & g' & sent & rest & -> & Hq' & Hp & Hcont & _). cbn [mbind option_bind]. set (f := map lb_b _). set (m' := set_queue (x_m x) q' f g').
  assert (Hin : forall e, e ∈ sent \/ e ∈ rest -> said (B := beliefsAt (ownOf C) (leftOf C) p) (standingOf (x_m x)) (mb_msg (lb_b e))).
  { intros e He. apply (sd_queue _ Hs (Queue.view e).1). unfold contents. apply list_elem_of_fmap. exists e. split; [done|]. rewrite Hp. by apply elem_of_app. }
  assert (Hm' : kept (B := beliefsAt (ownOf C) (leftOf C) p) 0 (x_m x) m').
  { destruct (sd_counter _ Hs) as [_ [H1 H2]]. constructor; [|done|split; [done|cbn; lia]]. destruct Hs as [Hc1 Hc2 _]. constructor; [done|done|]. cbn. intros k b. rewrite Hcont, elem_of_app.
    rewrite !list_elem_of_fmap. intros [(e & [= -> ->] & (e0 & -> & He0)%list_elem_of_fmap)|(e & [= -> ->] & He)]; [|apply Hin; by right].
    apply (Hin e0). left. rewrite list_elem_of_In, List.filter_In in He0. apply list_elem_of_In, He0. }
  assert (Hok' : state_ok (cfgOf p) m') by (destruct Hok; by constructor).
  assert (Hsent : forall b, b ∈ map (fun e => mb_msg (lb_b e)) sent -> gossipOk (ownOf C) (leftOf C) b).
  { intros b (e & -> & He)%list_elem_of_fmap. eapply said_gossip; [done|]. apply Hin. by left. }
  assert (Hmove : forall y msgs, x_m y = m' -> (forall b, b ∈ msgs -> gossipOk (ownOf C) (leftOf C) b) ->
    cluster_ok (MkCluster (<[p := y]> (cl_nodes C)) (cl_gossip C ++ msgs) (cl_states C))).
  { intros y ms Ey Hms. apply (move_ok C p x); rewrite ?Ey; done. }
  destruct (nc_Delegate (ncOf p)); [|intros [= <- <-]; by apply Hmove]. destruct (_ >? overhead + userMsgOverhead); [|intros [= <- <-]; by apply Hmove].
  destruct (DelegateGetBroadcasts _ _ _) as [u d]. intros [= <- <-]. apply Hmove; [done|].
  intros b [Hb|(um & -> & _)%list_elem_of_fmap]%elem_of_app; [by apply Hsent|constructor].
Qed.

Lemma localNode_pushed C p x l :
  cluster_ok C -> cl_nodes C !! p = Some x -> l ∈ t_nodes (m_table (x_m x)) -> pushedOk (ownOf C) (leftOf C) (localNode (stateAt (x_m x) l)).
Proof.
  intros Hc E Hl. destruct (to_listed _ (so_table _ _ (co_state _ Hc p x E)) l Hl) as [s Hs].
  unfold stateAt, deref. rewrite Hs. cbn [default]. destruct (sd_nodes _ (co_sound _ Hc p x E) l s Hs) as [[] [Hk Hkl]].
  cbn in Hk, Hkl. unfold known in Hk. rewrite (ownAt_cluster C p x) in Hk by done. rewrite (leftAt_cluster C p x) in Hkl by done. constructor.
  - split_and!; try done. cbn. by destruct (n_State _).
  - exact Hk.
  - cbn. intros Hst. apply Hkl. unfold st_State. by destruct (n_State _).
Qed.

(** *** Every event *)

Lemma happen_ok C e now C' : cluster_ok C -> happen cfgOf ncOf C e now = Some C' -> cluster_ok C'.
Proof.
  intros Hc. destruct e as [p i from|p i|p q inc|p overhead limit|p|p i]; cbn [happen];
    (destruct (cl_nodes C !! p) as [x|] eqn:E; cbn [mbind option_bind]; [|done]).
  - destruct (cl_gossip C !! i) as [[|t buf]|] eqn:Ei; cbn [mbind option_bind]; [done| |done]. destruct (fits _ _) eqn:Hf; [|done].
    destruct (handleQueued _ _ _ _ _) as [x'|] eqn:H; [|done]. intros [= <-]. eapply deliver_ok; [done|done|by eapply list_elem_of_lookup_2|done|exact H].
  - destruct (cl_states C !! i) as [remote|] eqn:Ei; cbn [mbind option_bind]; [|done]. apply handleAt_ok; [done|done|].
    apply merge_input; [done|done|by eapply list_elem_of_lookup_2].
  - destruct (members (x_m x) !! q) as [s|] eqn:Es; cbn [mbind option_bind]; [|done]. destruct (_ && _) eqn:Hi; [|done].
    apply andb_true_iff in Hi as [Hi1%Z.leb_le Hi2%Z.leb_le]. apply handleAt_ok; [done|done|]. by eapply suspect_input.
  - destruct (Z.leb_spec 0 overhead); [|done]. destruct (getBroadcasts _ _ _ _) as [[msgs x']|] eqn:H'; [|done]. cbn [mbind option_bind].
    intros [= <-]. by eapply gossip_ok.
  - intros [= <-]. destruct Hc as [H1 H2 H3 H4 H5]. pose proof (Build_cluster_ok C H1 H2 H3 H4 H5) as Hc. constructor; cbn; try done.
    intros remote [Hr|Hr]%elem_of_app; [by apply H5|]. apply list_elem_of_singleton in Hr as ->.
    apply Forall_forall. intros r (s & -> & (l & -> & Hl)%list_elem_of_fmap)%list_elem_of_fmap. exact (localNode_pushed C p x l Hc E Hl).
  - destruct (ownInput _ _) eqn:Hi; [|done]. apply handleAt_ok; [done|done|]. by apply own_input.
Qed.

Lemma runCluster_ok C es C' : cluster_ok C -> runCluster cfgOf ncOf C es = Some C' -> cluster_ok C'.
Proof.
  revert C. induction es as [|[e now] es IH]; intros C Hc; cbn [runCluster]; [by intros [= <-]|].
  destruct (happen _ _ C e now) as [C1|] eqn:H; [|done]. cbn [mbind option_bind]. apply IH. by eapply happen_ok.
Qed.

Lemma freshCluster_ok nodes :
  (forall p x, nodes !! p = Some x -> freshNode x /\ c_Name (cfgOf p) = p /\ str_ok p) -> cluster_ok (freshCluster nodes).
Proof.
  intros H. constructor; cbn.
  - intros p x E. apply (H p x E).
  - intros p x E. destruct (H p x E) as [(aw & mult & g & ->) _]. apply newMemberlist_ok.
  - intros p x E. destruct (H p x E) as [(aw & mult & g & ->) _]. apply sound_new. split; [by vm_compute|]. cbn. done.
  - set_solver.
  - set_solver.
Qed.

(** *** Events that can happen do *)

Lemma gossipOk_cons own left b : gossipOk own left b -> exists t buf, b = t :: buf.
Proof. intros []; rewrite ?encode_cons; eauto. Qed.

Lemma gossipAbout_known own left b q inc : gossipOk own left b -> gossipAbout b = Some (q, inc) -> known own q inc.
Proof.
  intros [ub|a Ha Hk|x Hs Hk|d Hd [Hk _]]; [done|..]; rewrite encode_cons; unfold gossipAbout.
  - pose proof (decode_encode_alive a Ha) as Ed. rewrite encode_cons in Ed. cbn [drop] in Ed. rewrite drop_0 in Ed.
    change (b2z (z2b aliveMsg)) with aliveMsg. change (aliveMsg =? suspectMsg) with false. rewrite Z.eqb_refl, Ed. by intros [= <- <-].
  - pose proof (decode_encode_suspect x Hs) as Ed. rewrite encode_cons in Ed. cbn [drop] in Ed. rewrite drop_0 in Ed.
    change (b2z (z2b suspectMsg)) with suspectMsg. rewrite Z.eqb_refl, Ed. by intros [= <- <-].
  - pose proof (decode_encode_dead d Hd) as Ed. rewrite encode_cons in Ed. cbn [drop] in Ed. rewrite drop_0 in Ed.
    change (b2z (z2b deadMsg)) with deadMsg. change (deadMsg =? suspectMsg) with false. change (deadMsg =? aliveMsg) with false. rewrite Z.eqb_refl, Ed. by intros [= <- <-].
Qed.

Lemma handleAt_total C p x i now :
  cluster_ok C -> cl_nodes C !! p = Some x -> fits (x_m x) (draws i) = true -> is_Some (handleAt cfgOf C p x i now).
Proof.
  intros Hc E Hf. unfold handleAt. rewrite Hf. apply fits_spec in Hf as [Hf _]. pose proof (cost_draws i).
  destruct (handle_ok (cfgOf p) (x_m x) i now (co_state _ Hc p x E)) as (m & -> & _); [unfold room; lia|]. by eexists.
Qed.

Lemma deliver_total x p from now t buf :
  state_ok (cfgOf p) (x_m x) -> room 1 (x_m x) ->
  is_Some (handleQueued (cfgOf p) (ncOf p) x (MsgHandoff (b2z t) buf from) now).
Proof.
  intros Hok Hr. unfold handleQueued. repeat case_match; try by eexists.
  - unfold handleSuspect. destruct (decode KSuspect buf) as [[]|]; try by eexists.
    match goal with |- context [suspectNode _ _ ?a _] => destruct (suspectNode_ok (cfgOf p) (x_m x) a now Hok Hr) as (m' & -> & _) end. by eexists.
  - unfold handleAlive. destruct (negb _); [by eexists|]. destruct (decode KAlive buf) as [[]|]; try by eexists. destruct (_ && _); [by eexists|].
    match goal with |- context [aliveNode _ _ ?a _ _] => destruct (aliveNode_ok (cfgOf p) (x_m x) a false now Hok Hr) as (m' & -> & _) end. by eexists.
  - unfold handleDead. destruct (decode KDead buf) as [[]|]; try by eexists.
    match goal with |- context [deadNode _ _ ?a _] => destruct (deadNode_ok (cfgOf p) (x_m x) a now Hok Hr) as (m' & -> & _) end. by eexists.
Qed.

Lemma happen_total C e now : cluster_ok C -> enabled C e = true -> is_Some (happen cfgOf ncOf C e now).
Proof.
  intros Hc. destruct e as [p i from|p i|p q inc|p overhead limit|p|p i]; cbn [enabled happen].
  - destruct (cl_nodes C !! p) as [x|] eqn:E; [|done]. intros [Hi%Nat.ltb_lt Hf]%andb_true_iff. cbn [mbind option_bind].
    destruct (lookup_lt_is_Some_2 _ _ Hi) as [b Eb]. rewrite Eb. cbn [mbind option_bind].
    pose proof (co_gossip _ Hc b (list_elem_of_lookup_2 _ _ _ Eb)) as Hg. destruct (gossipOk_cons _ _ _ Hg) as (t & buf & ->). rewrite Hf.
    apply fits_spec in Hf as [Hf _]. destruct (deliver_total x p from now t buf (co_state _ Hc p x E) Hf) as [x' ->]. by eexists.
  - destruct (cl_nodes C !! p) as [x|] eqn:E; [|done]. destruct (cl_states C !! i) as [remote|]; [|done]. cbn [mbind option_bind]. intros Hf.
    exact (handleAt_total C p x (InMerge remote) now Hc E Hf).
  - destruct (cl_nodes C !! p) as [x|] eqn:E; [|done]. cbn [mbind option_bind]. destruct (members (x_m x) !! q) as [s|]; [|done]. cbn [mbind option_bind].
    intros [-> Hf]%andb_true_iff. exact (handleAt_total C p x (InSuspect (MkSuspect inc q p)) now Hc E Hf).
  - intros [[x E]%bool_decide_eq_true Ho]%andb_true_iff. rewrite E, Ho. cbn [mbind option_bind]. apply Z.leb_le in Ho.
    destruct (getBroadcasts_total (ncOf p) x overhead limit (so_queue _ _ (co_state _ Hc p x E)) Ho) as (msgs & x' & -> & _). by eexists.
  - intros [x ->]%bool_decide_eq_true. by eexists.
  - destruct (cl_nodes C !! p) as [x|] eqn:E; [|done]. cbn [mbind option_bind]. intros [-> Hf]%andb_true_iff. by apply handleAt_total.
Qed.

Lemma member_known C p x q s :
  cluster_ok C -> cl_nodes C !! p = Some x -> members (x_m x) !! q = Some s -> known (ownOf C) q (st_Incarnation s) /\ (st_State s = StateLeft -> leftOf C q = true).
Proof.
  intros Hc E Hs. rewrite members_lookup in Hs. destruct (nodeAt (x_m x) q) as [l|] eqn:El; [|done]. injection Hs as <-.
  destruct (node_known (x_m x) q l) as (s & Hl & Es & Hn); [apply (co_state _ Hc p x E)|done|]. rewrite Es.
  destruct (sd_nodes _ (co_sound _ Hc p x E) l s Hl) as [_ [Hk Hkl]]. cbn in Hk, Hkl. unfold known in *.
  rewrite (ownAt_cluster C p x) in Hk by done. rewrite (leftAt_cluster C p x) in Hkl by done. by rewrite Hn in *.
Qed.

(** *** Refutation *)

(** The bytes of an accusation of [q] at [acc]. *)
Inductive accuses (q : string) (acc : Z) : bytes -> Prop :=
| accuses_suspect from : Suspect_valid (MkSuspect acc q from) -> accuses q acc (encode suspectMsg (MSuspect (MkSuspect acc q from)))
| accuses_dead from : Dead_valid (MkDead acc q from) -> accuses q acc (encode deadMsg (MDead (MkDead acc q from))).

Lemma accused_handles cfg nc x q acc t buf from now :
  accuses q acc (t :: buf) ->
  exists f o, handleQueued cfg nc x (MsgHandoff (b2z t) buf from) now = set_m x <$> o /\
    (o = suspectNode cfg (x_m x) (MkSuspect acc q f) now \/ o = deadNode cfg (x_m x) (MkDead acc q f) now).
Proof.
  intros H. remember (t :: buf) as b eqn:Eb. destruct H as [f Hv|f Hv]; rewrite encode_cons in Eb; injection Eb as <- <-; exists f.
  - pose proof (decode_encode_suspect _ Hv) as Ed. rewrite encode_cons in Ed. cbn [drop] in Ed. rewrite drop_0 in Ed.
    eexists. split; [|by left]. etransitivity; [|reflexivity]. change (handleSuspect cfg x (AppendMsgpack (MSuspect (MkSuspect acc q f)) []) from now = set_m x <$> suspectNode cfg (x_m x) (MkSuspect acc q f) now).
    unfold handleSuspect. rewrite Ed. by destruct (suspectNode _ _ _ _).
  - pose proof (decode_encode_dead _ Hv) as Ed. rewrite encode_cons in Ed. cbn [drop] in Ed. rewrite drop_0 in Ed.
    eexists. split; [|by right]. change (handleDead cfg x (AppendMsgpack (MDead (MkDead acc q f)) []) from now = set_m x <$> deadNode cfg (x_m x) (MkDead acc q f) now).
    unfold handleDead. rewrite Ed. by destruct (deadNode _ _ _ _).
Qed.

Lemma accuses_about q acc b : accuses q acc b -> gossipAbout b = Some (q, acc).
Proof.
  intros [f Hv|f Hv]; rewrite encode_cons; unfold gossipAbout.
  - pose proof (decode_encode_suspect _ Hv) as Ed. rewrite encode_cons in Ed. cbn [drop] in Ed. rewrite drop_0 in Ed.
    change (b2z (z2b suspectMsg)) with suspectMsg. by rewrite Z.eqb_refl, Ed.
  - pose proof (decode_encode_dead _ Hv) as Ed. rewrite encode_cons in Ed. cbn [drop] in Ed. rewrite drop_0 in Ed.
    change (b2z (z2b deadMsg)) with deadMsg. change (deadMsg =? suspectMsg) with false. change (deadMsg =? aliveMsg) with false. by rewrite Z.eqb_refl, Ed.
Qed.

(** The accused draws one number, and says so. *)
Lemma accused_refutes_at C q x s i b acc from now :
  cluster_ok C -> cl_nodes C !! q = Some x -> m_shutdown (x_m x) = false -> m_leave (x_m x) = false ->
  members (x_m x) !! q = Some s -> st_State s = StateAlive ->
  cl_gossip C !! i = Some b -> accuses q acc b -> st_Incarnation s <= acc -> fits (x_m x) 1 = true ->
  exists x' k bc, happen cfgOf ncOf C (EDeliver q i from) now = Some (setNodeOf C q x') /\ m_incarnation (x_m x') = ownOf C q + 1 /\
    (k, bc) ∈ contents (m_broadcasts (x_m x')) /\ mb_msg bc = encode aliveMsg (MAlive (aliveOf (st_Node s) (ownOf C q + 1))) /\ acc <= ownOf C q.
Proof.
  intros Hc E Hd Hl Hs Ha Ei Hacc Hle Hf. pose proof (co_state _ Hc q x E) as Hok. destruct (co_name _ Hc q x E) as [Hname _].
  pose proof (co_gossip _ Hc b (list_elem_of_lookup_2 _ _ _ Ei)) as Hg. pose proof (gossipAbout_known _ _ _ _ _ Hg (accuses_about _ _ _ Hacc)) as [H0 H1].
  destruct (gossipOk_cons _ _ _ Hg) as (t & buf & ->). cbn [happen]. rewrite E, Ei. cbn [mbind option_bind]. rewrite Hf. apply fits_spec in Hf as [Hf1 Hf2].
  destruct (accused_handles (cfgOf q) (ncOf q) x q acc t buf from now Hacc) as (f & o & -> & Ho).
  assert (Hs' : members (x_m x) !! c_Name (cfgOf q) = Some s) by (by rewrite Hname).
  assert (Eo : ownOf C q = m_incarnation (x_m x)) by (unfold ownOf; by rewrite E).
  assert (Ho' : o = suspectNode (cfgOf q) (x_m x) (MkSuspect acc (c_Name (cfgOf q)) f) now \/ o = deadNode (cfgOf q) (x_m x) (MkDead acc (c_Name (cfgOf q)) f) now)
    by (by rewrite Hname).
  destruct (refutation_effect (cfgOf q) (x_m x) s acc f now o Hok Hf1 Hd Hl Hs' Ha Hle Ho') as (m' & -> & _ & Ei' & _ & k & Hq).
  rewrite refutedInc_eq, Z.max_l in * by lia. cbn [fmap option_fmap option_map mbind option_bind].
  eexists (set_m x m'), k, _. split_and!; [done|by rewrite Eo|exact Hq|by rewrite Eo|done].
Qed.
End Invariant.

(** ** Examples *)

#[local] Existing Instance exampleDelegates.
#[local] Existing Instance tagging.

(** Nodes [a] and [b] start, exchange their states, and [b] suspects [a] and
    gossips it. *)
Definition exampleNodes : gmap string (Net (G := Z) (D := list bytes)) :=
  <["a"%string := exampleNode exampleStart]> (<["b"%string := exampleNode exampleStart]> ∅).
Definition exampleEvents : list (event * Z) :=
  [(ELocal "a" InDraw, 1); (ELocal "a" (InAnnounce 1 (exampleAddr 1) 7946 None None), 2);
   (ELocal "b" InDraw, 3); (ELocal "b" (InAnnounce 1 (exampleAddr 2) 7946 None None), 4);
   (EPush "a", 5); (EMerge "b" 0, 6); (EPush "b", 7); (EMerge "a" 1, 8); (EGossip "b" 2 1400, 9); (ESuspect "b" "a" 1, 10); (EGossip "b" 2 1400, 11)].
Definition exampleRun : cluster := default (freshCluster ∅) (runCluster exampleConfig (fun _ => exampleNet) (freshCluster exampleNodes) exampleEvents).

Lemma exampleNodes_fresh p x : exampleNodes !! p = Some x -> freshNode x /\ c_Name (exampleConfig p) = p /\ str_ok p.
Proof.
  unfold exampleNodes. rewrite !lookup_insert_Some, lookup_empty.
  intros [[<- <-]|[_ [[<- <-]|[_ ?]]]]; [..|done]; (split; [by exists 8, 4, 1|split; [done|by vm_compute]]).
Qed.
Lemma exampleRun_runs : runCluster exampleConfig (fun _ => exampleNet) (freshCluster exampleNodes) exampleEvents = Some exampleRun.
Proof.
  unfold exampleRun. destruct (runCluster _ _ _ exampleEvents) as [C|] eqn:E; [done|]. vm_compute in E. discriminate.
Qed.

(** ** Properties *)

(** C3: What a cluster knows. Nodes that start fresh and gossip, exchange
    states, suspect each other, leave and serve their users, over a network that
    loses, repeats, delays and reorders, are never in a state that breaks the
    membership invariant, and no event that can happen fails. Nobody knows of a
    node an incarnation number it has not drawn, neither in a table nor in
    gossip under way, and nobody believes of a node that it left unless it
    did. *)
Theorem cluster_knowledge {G D} `{RandLaws G} `{MathLog} `{GCM} `{Delegates D} cfgOf ncOf
    (nodes : gmap string (Net (G := G) (D := D))) es C :
  (forall p x, nodes !! p = Some x -> freshNode x /\ c_Name (cfgOf p) = p /\ str_ok p) ->
  runCluster cfgOf ncOf (freshCluster nodes) es = Some C ->
  (forall e now, enabled C e = true -> is_Some (happen cfgOf ncOf C e now)) /\
  (forall b q inc, b ∈ cl_gossip C -> gossipAbout b = Some (q, inc) -> 0 <= inc <= ownOf C q) /\
  (forall p x, cl_nodes C !! p = Some x ->
     state_ok (cfgOf p) (x_m x) /\
     forall q s, members (x_m x) !! q = Some s -> 0 <= st_Incarnation s <= ownOf C q /\ (st_State s = StateLeft -> leftOf C q = true)).
Proof.
  intros Hf Hr. assert (Hc : cluster_ok cfgOf C) by (eapply runCluster_ok; [by apply freshCluster_ok|exact Hr]). split_and!.
  - intros e now. by apply happen_total.
  - intros b q inc Hb. by apply (gossipAbout_known (ownOf C) (leftOf C)), (co_gossip _ _ Hc).
  - intros p x E. split; [by apply (co_state _ _ Hc)|]. intros q s. by apply (member_known cfgOf C p x).
Qed.

Lemma cluster_knowledge_witness :
  cl_gossip exampleRun <> [] /\ (forall p x, cl_nodes exampleRun !! p = Some x -> state_ok (exampleConfig p) (x_m x)).
Proof.
  split; [by vm_compute|]. intros p x E.
  apply (proj2 (proj2 (cluster_knowledge exampleConfig (fun _ => exampleNet) exampleNodes exampleEvents exampleRun exampleNodes_fresh exampleRun_runs)) p x E).
Defined.

(** C4: A refutation wins everywhere. When gossip that accuses a live node
    reaches it, the node queues an alive message with its next incarnation
    number, which is above every number anyone knows of it, in any table but its
    own and in any gossip ever sent; so that any node that hears it, knows the
    accused under its address and accepts the message sees it alive at that
    number with no suspicion timer left, whatever it believed before. *)
Theorem refutation_wins {G D} `{RandLaws G} `{MathLog} `{GCM} `{Delegates D} cfgOf ncOf
    (nodes : gmap string (Net (G := G) (D := D))) es C q x s i b acc from now :
  (forall p x, nodes !! p = Some x -> freshNode x /\ c_Name (cfgOf p) = p /\ str_ok p) ->
  runCluster cfgOf ncOf (freshCluster nodes) es = Some C ->
  cl_nodes C !! q = Some x -> m_shutdown (x_m x) = false -> m_leave (x_m x) = false ->
  members (x_m x) !! q = Some s -> st_State s = StateAlive ->
  cl_gossip C !! i = Some b -> accuses q acc b -> st_Incarnation s <= acc -> fits (x_m x) 1 = true ->
  exists C' x' k bc a, happen cfgOf ncOf C (EDeliver q i from) now = Some C' /\ cl_nodes C' !! q = Some x' /\
    (k, bc) ∈ contents (m_broadcasts (x_m x')) /\ mb_msg bc = encode aliveMsg (MAlive a) /\ Alive_Node a = q /\
    Alive_Incarnation a = ownOf C' q /\
    (forall b' inc, b' ∈ cl_gossip C' -> gossipAbout b' = Some (q, inc) -> inc < Alive_Incarnation a) /\
    (forall p y s', p <> q -> cl_nodes C' !! p = Some y -> members (x_m y) !! q = Some s' ->
       st_Incarnation s' < Alive_Incarnation a /\
       (m_shutdown (x_m y) = false -> room 1 (x_m y) -> sameAddress (st_Node s') a = true -> aliveAcceptable (cfgOf p) (x_m y) a false = true ->
        forall now', exists m' s2, aliveNode (cfgOf p) (x_m y) a false now' = Some m' /\ members m' !! q = Some s2 /\
          statusOf s2 = (StateAlive, Alive_Incarnation a) /\ tt_nodeTimers (m_timers m') !! q = None)).
Proof.
  intros Hfr Hr E Hd Hl Hs Ha Ei Hacc Hle Hf. assert (Hc : cluster_ok cfgOf C) by (eapply runCluster_ok; [by apply freshCluster_ok|exact Hr]).
  destruct (accused_refutes_at cfgOf ncOf C q x s i b acc from now Hc E Hd Hl Hs Ha Ei Hacc Hle Hf) as (x' & k & bc & Eh & Einc & Hin & Hm & _).
  assert (Hn : st_Name s = q) by (apply (entry_name (m_table (x_m x))); [apply (co_state _ _ Hc q x E)|exact Hs]).
  assert (Eown : ownOf (setNodeOf C q x') q = ownOf C q + 1) by (unfold ownOf at 1; cbn; by rewrite lookup_insert_eq).
  exists (setNodeOf C q x'), x', k, bc, (aliveOf (st_Node s) (ownOf C q + 1)). cbn [Alive_Incarnation aliveOf Alive_Node].
  split_and!; [done|apply lookup_insert_eq|done|done|exact Hn|by rewrite Eown| |].
  - intros b' inc Hb' Hab. apply (gossipAbout_known (ownOf C) (leftOf C)) in Hab as [_ ?]; [lia|]. by apply (co_gossip _ _ Hc).
  - intros p y s' Hne Ey Hs'. cbn in Ey. rewrite lookup_insert_ne in Ey by done. destruct (member_known cfgOf C p y q s' Hc Ey Hs') as [[_ Hlt] _]. split; [lia|].
    intros Hdy Hry Hsa Hok now'. pose proof (co_state _ _ Hc p y Ey) as Hoky. set (a := aliveOf _ _) in *.
    destruct (aliveNodeLocked_outcome (cfgOf p) (x_m y) a None false None now' Hoky Hry) as (m' & Em & Ho).
    destruct (alive_clears (cfgOf p) (x_m y) a None false None now' m' s' Hoky Ho) as (s2 & Hs2 & Hst2 & Htm2);
      [by cbn; rewrite ?Hn; fold (st_Name s); rewrite Hn|cbn; fold (st_Name s); rewrite Hn; destruct (co_name _ _ Hc p y Ey) as [-> _]; congruence|done|done|cbn; lia|].
    cbn in Hs2, Htm2. fold (st_Name s) in Hs2, Htm2. rewrite Hn in Hs2, Htm2. exists m', s2. split_and!; [|done|exact Hst2|done]. unfold aliveNode, hasShutdown. by rewrite Hdy.
Qed.

(** The suspicion of [a] that [b] gossips is the third piece of gossip. *)
Definition exampleAccused : Net (G := Z) (D := list bytes) := default (exampleNode exampleStart) (cl_nodes exampleRun !! "a"%string).
Definition exampleRecord : nodeState := default nilState (members (x_m exampleAccused) !! "a"%string).
Definition exampleAccusation : bytes := encode suspectMsg (MSuspect (MkSuspect 1 "a" "b")).

Lemma exampleAccused_at : cl_nodes exampleRun !! "a"%string = Some exampleAccused.
Proof. unfold exampleAccused. destruct (cl_nodes exampleRun !! "a"%string) eqn:E; [done|]. vm_compute in E. discriminate. Qed.
Lemma exampleRecord_at : members (x_m exampleAccused) !! "a"%string = Some exampleRecord.
Proof. unfold exampleRecord. destruct (members (x_m exampleAccused) !! "a"%string) eqn:E; [done|]. vm_compute in E. discriminate. Qed.

Lemma refutation_wins_witness :
  exists C' x' k bc a, happen exampleConfig (fun _ => exampleNet) exampleRun (EDeliver "a" 2 (str2b "10.0.0.2:7946")) 12 = Some C' /\
    cl_nodes C' !! "a"%string = Some x' /\ (k, bc) ∈ contents (m_broadcasts (x_m x')) /\ mb_msg bc = encode aliveMsg (MAlive a) /\
    Alive_Incarnation a = ownOf C' "a".
Proof.
  destruct (refutation_wins exampleConfig (fun _ => exampleNet) exampleNodes exampleEvents exampleRun "a" exampleAccused exampleRecord 2 exampleAccusation 1
    (str2b "10.0.0.2:7946") 12) as (C' & x' & k & bc & a & H1 & H2 & H3 & H4 & _ & H5 & _).
  - exact exampleNodes_fresh.
  - exact exampleRun_runs.
  - exact exampleAccused_at.
  - vm_compute. reflexivity.
  - vm_compute. reflexivity.
  - exact exampleRecord_at.
  - vm_compute. reflexivity.
  - vm_compute. reflexivity.
  - apply accuses_suspect. vm_compute. intuition congruence.
  - vm_compute. congruence.
  - vm_compute. reflexivity.
  - exists C', x', k, bc, a. split; [exact H1|]. split; [exact H2|]. split; [exact H3|]. split; [exact H4|exact H5].
Defined.
