(* ===== verification/Probe.v ===== *)
(** The periodic work, [src/state.go]: choosing whom to probe, a round of
    failure detection, gossiping and push/pulls.

    A tick is the body of one trigger. Between the parts of a probe, and while
    it waits, the rest of the node goes on: those are runs of inputs of
    [Ingest.v]. The tickers themselves are not modelled. *)

From S2P Require Import Prelude Msgpack Wire Timing Treap Queue NetAddr Nodes Events Packet State Lifecycle Membership Protocol Security Checksum HostPort Acks Net Streams Ingest.

(** ** Whom to probe *)

Section Select.
Context {G : Type} {RG : Rand G} {ML : MathLog} (cfg : Config).
Implicit Types m : Memberlist (G := G).

(** Not the local node, and not dead or left. *)
Definition probed (s : nodeState) : bool := negb (String.eqb (st_Name s) (c_Name cfg)) && negb (DeadOrLeft s).

(** The loop of [probe] from its label [START]; each round but the last counts
    [numCheck] up, so [fuel] of one per node is enough. The node chosen, if
    any, is a copy. *)
Fixpoint probeFrom (fuel : nat) m (probeIndex numCheck now : Z) : option (option nodeState * Memberlist * Z) :=
  let nodes := t_nodes (m_table m) in
  if numCheck >=? len nodes then Some (None, m, probeIndex)
  else
    match fuel with
    | O => None
    | S fuel =>
        if probeIndex >=? len nodes then
          m ← resetNodes cfg m now;
          probeFrom fuel m 0 (numCheck + 1) now
        else
          l ← nodes !! Z.to_nat probeIndex;
          let node := stateAt m l in
          if probed node then Some (Some node, m, probeIndex + 1)
          else probeFrom fuel m (probeIndex + 1) (numCheck + 1) now
    end.

Definition probeNext m (probeIndex now : Z) : option (option nodeState * Memberlist * Z) :=
  probeFrom (length (t_nodes (m_table m))) m probeIndex 0 now.

(** Ticks at the given times, with what each chose. *)
Fixpoint probeTicks m (probeIndex : Z) (nows : list Z) : option (list (option nodeState) * Memberlist * Z) :=
  match nows with
  | [] => Some ([], m, probeIndex)
  | now :: nows =>
      '(node, m, probeIndex) ← probeNext m probeIndex now;
      '(picks, m, probeIndex) ← probeTicks m probeIndex nows;
      Some (node :: picks, m, probeIndex)
  end.
End Select.

(** ** Lemmas: whom to probe *)

Section SelectLemmas.
Context {G : Type} {RG : Rand G} {RL : RandLaws G} {ML : MathLog} (cfg : Config).
Implicit Types m : Memberlist (G := G).

Definition listed m : list nodeState := map (stateAt m) (t_nodes (m_table m)).

Lemma listed_len m : len (t_nodes (m_table m)) = len (listed m).
Proof. unfold len, listed. by rewrite length_map. Qed.

Lemma listed_at m i s rest : 0 <= i -> drop (Z.to_nat i) (listed m) = s :: rest ->
  i < len (listed m) /\ exists l, t_nodes (m_table m) !! Z.to_nat i = Some l /\ stateAt m l = s.
Proof.
  intros Hi E. assert (Hs : listed m !! Z.to_nat i = Some s).
  { rewrite <- (Nat.add_0_r (Z.to_nat i)), <- lookup_drop, E. done. }
  split; [apply lookup_lt_Some in Hs; unfold len; lia|]. unfold listed in Hs. rewrite list_lookup_fmap in Hs.
  apply fmap_Some in Hs as (l & Hl & ->). by exists l.
Qed.

Lemma drop_next {A} (l : list A) i x rest : 0 <= i -> drop (Z.to_nat i) l = x :: rest -> drop (Z.to_nat (i + 1)) l = rest.
Proof.
  intros Hi E. replace (Z.to_nat (i + 1)) with (Z.to_nat i + 1)%nat by lia. rewrite <- drop_drop, E. cbn. by rewrite drop_0.
Qed.

Lemma drop_past {A} (l : list A) i pre x rest :
  0 <= i -> drop (Z.to_nat i) l = pre ++ x :: rest -> drop (Z.to_nat (i + len pre + 1)) l = rest.
Proof.
  intros Hi E. pose proof (len_nonneg pre). apply (drop_next l (i + len pre) x); [lia|].
  replace (Z.to_nat (i + len pre)) with (Z.to_nat i + length pre)%nat by (unfold len; lia). by rewrite <- drop_drop, E, drop_app_length.
Qed.

(** Nodes that are not probed are passed over, as long as [numCheck] allows. *)
Lemma probeFrom_skip m fuel i c now pre rest :
  0 <= i -> drop (Z.to_nat i) (listed m) = pre ++ rest -> Forall (fun s => probed cfg s = false) pre ->
  c + len pre <= len (listed m) ->
  probeFrom cfg (length pre + fuel) m i c now = probeFrom cfg fuel m (i + len pre) (c + len pre) now.
Proof.
  intros Hi E Hp. revert i c Hi E. induction Hp as [|s pre Hs _ IH]; intros i c Hi E Hc.
  - change (len []) with 0. by rewrite !Z.add_0_r.
  - rewrite len_cons in *. pose proof (len_nonneg pre). destruct (listed_at m i s (pre ++ rest) Hi E) as (Hlt & l & Hl & <-).
    cbn [length Nat.add probeFrom]. rewrite listed_len. destruct (Z.geb_spec c (len (listed m))) as [|_]; [lia|].
    destruct (Z.geb_spec i (len (listed m))) as [|_]; [lia|]. rewrite Hl. cbn [mbind option_bind]. rewrite Hs.
    rewrite IH; [f_equal; lia|lia|by eapply drop_next|lia].
Qed.

(** The first node that is probed is chosen. *)
Lemma probeFrom_pick m fuel i c now pre s rest :
  0 <= i -> drop (Z.to_nat i) (listed m) = pre ++ s :: rest -> Forall (fun s => probed cfg s = false) pre -> probed cfg s = true ->
  c + len pre < len (listed m) -> (length pre < fuel)%nat ->
  probeFrom cfg fuel m i c now = Some (Some s, m, i + len pre + 1).
Proof.
  intros Hi E Hp Hs Hc Hf. replace fuel with (length pre + S (fuel - length pre - 1))%nat by lia.
  rewrite (probeFrom_skip m _ i c now pre (s :: rest)) by (done || lia). pose proof (len_nonneg pre).
  assert (E' : drop (Z.to_nat (i + len pre)) (listed m) = s :: rest).
  { replace (Z.to_nat (i + len pre)) with (Z.to_nat i + length pre)%nat by (unfold len; lia). by rewrite <- drop_drop, E, drop_app_length. }
  destruct (listed_at m (i + len pre) s rest ltac:(lia) E') as (Hlt & l & Hl & El).
  cbn [probeFrom]. rewrite listed_len. destruct (Z.geb_spec (c + len pre) (len (listed m))) as [|_]; [lia|].
  destruct (Z.geb_spec (i + len pre) (len (listed m))) as [|_]; [lia|]. rewrite Hl. cbn [mbind option_bind]. rewrite El, Hs. done.
Qed.

(** The budget of a tick ends among nodes that are not probed. *)
Lemma probeFrom_stop m fuel i c now pre rest :
  0 <= i -> drop (Z.to_nat i) (listed m) = pre ++ rest -> Forall (fun s => probed cfg s = false) pre ->
  c <= len (listed m) -> len (listed m) <= c + len pre -> len (listed m) - c <= Z.of_nat fuel ->
  probeFrom cfg fuel m i c now = Some (None, m, i + (len (listed m) - c)).
Proof.
  intros Hi E Hp Hc Hl Hf. set (k := Z.to_nat (len (listed m) - c)).
  assert (Hk : len (take k pre) = len (listed m) - c) by (unfold len in *; rewrite length_take; lia).
  replace fuel with (length (take k pre) + (fuel - length (take k pre)))%nat by (unfold len in *; lia).
  rewrite (probeFrom_skip m _ i c now (take k pre) (drop k pre ++ rest));
    [|done|by rewrite app_assoc, take_drop|by apply Forall_take|lia].
  rewrite Hk. replace (c + (len (listed m) - c)) with (len (listed m)) by lia.
  destruct (fuel - _)%nat; cbn [probeFrom]; rewrite listed_len; (destruct (Z.geb_spec (len (listed m)) (len (listed m))) as [_|]; [done|lia]).
Qed.

(** Every list splits at its first probed node. *)
Lemma first_probed l : Forall (fun s => probed cfg s = false) l \/
  exists pre s rest, l = pre ++ s :: rest /\ Forall (fun s => probed cfg s = false) pre /\ probed cfg s = true.
Proof.
  induction l as [|s l IH]; [by left|]. destruct (probed cfg s) eqn:Hs; [right; by exists [], s, l|].
  destruct IH as [H|(pre & s' & rest & -> & Hp & Hs')]; [left; by constructor|]. right. exists (s :: pre), s', rest. split_and!; [done| |done]. by constructor.
Qed.

Lemma probeTicks_cons m i now nows node m1 i1 picks m2 i2 :
  probeNext cfg m i now = Some (node, m1, i1) -> probeTicks cfg m1 i1 nows = Some (picks, m2, i2) ->
  probeTicks cfg m i (now :: nows) = Some (node :: picks, m2, i2).
Proof. intros E1 E2. cbn [probeTicks]. rewrite E1. cbn [mbind option_bind]. by rewrite E2. Qed.

(** [s] is chosen by one of the first ticks at [nows]. *)
Definition chosenBy m (i : Z) (nows : list Z) (s : nodeState) : Prop :=
  exists nows1 nows2 picks m' i', nows = nows1 ++ nows2 /\ probeTicks cfg m i nows1 = Some (picks ++ [Some s], m', i').

Lemma chosenBy_now m i now nows s m1 i1 : probeNext cfg m i now = Some (Some s, m1, i1) -> chosenBy m i (now :: nows) s.
Proof. intros E. exists [now], nows, [], m1, i1. split; [done|]. by eapply (probeTicks_cons m i now []). Qed.

Lemma chosenBy_later m i now nows node m1 i1 s :
  probeNext cfg m i now = Some (node, m1, i1) -> chosenBy m1 i1 nows s -> chosenBy m i (now :: nows) s.
Proof.
  intros E (n1 & n2 & picks & m' & i' & -> & H). exists (now :: n1), n2, (node :: picks), m', i'. split; [done|].
  by eapply probeTicks_cons.
Qed.

(** Within a tick's reach of the end of the list, a node is never missed. *)
Lemma chosen_ahead m i nows s :
  0 <= i -> s ∈ drop (Z.to_nat i) (listed m) -> probed cfg s = true -> (length (drop (Z.to_nat i) (listed m)) <= length nows)%nat ->
  chosenBy m i nows s.
Proof.
  intros Hi Hin Hs. remember (length (drop (Z.to_nat i) (listed m))) as n eqn:En. revert i nows Hi Hin En.
  induction n as [n IH] using lt_wf_ind. intros i nows Hi Hin En Hl.
  destruct (first_probed (drop (Z.to_nat i) (listed m))) as [Hno|(pre & s1 & rest & E & Hp & Hs1)].
  { apply (proj1 (Forall_forall _ _) Hno) in Hin. congruence. }
  destruct nows as [|now nows]; [rewrite E, length_app in En; cbn in *; lia|].
  assert (Hlen : len pre < len (listed m)).
  { assert (length (drop (Z.to_nat i) (listed m)) <= length (listed m))%nat by (rewrite length_drop; lia).
    rewrite E, length_app in *. cbn in *. unfold len. lia. }
  assert (E1 : probeNext cfg m i now = Some (Some s1, m, i + len pre + 1)).
  { eapply probeFrom_pick; [done..|lia|]. unfold len, listed in Hlen. rewrite length_map in Hlen. lia. }
  rewrite E in Hin. apply elem_of_app in Hin as [Hin|[-> |Hin]%elem_of_cons].
  - apply (proj1 (Forall_forall _ _) Hp) in Hin. congruence.
  - by eapply chosenBy_now.
  - pose proof (len_nonneg pre). pose proof (drop_past _ _ _ _ _ Hi E) as E'.
    rewrite E, length_app in En. cbn in En, Hl. eapply chosenBy_later; [exact E1|].
    apply (IH (length rest)); [lia|lia|by rewrite E'|by rewrite E'|lia].
Qed.

Lemma members_listed m name s : state_ok cfg m -> members m !! name = Some s -> s ∈ listed m.
Proof.
  intros Hok Hs. rewrite members_lookup in Hs. apply fmap_Some in Hs as (l & Hl & ->).
  apply list_elem_of_fmap_2. by destruct (table_name (m_table m) name l (so_table _ _ Hok) Hl).
Qed.

(** The tick that wraps around. *)
Lemma chosen_wrapping m i now nows s m' name :
  state_ok cfg m -> 0 <= i -> members m !! name = Some s -> probed cfg s = true -> 0 < i ->
  Forall (fun s => probed cfg s = false) (drop (Z.to_nat i) (listed m)) ->
  resetNodes cfg m now = Some m' -> members m' !! name = Some s -> state_ok cfg m' -> (length (listed m') <= length (listed m))%nat ->
  (length (listed m') <= length nows)%nat -> chosenBy m i (now :: nows) s.
Proof.
  intros Hok Hi Hs Hp Hi0 Hno Er Hs' Hok' Hl Hn.
  set (old := drop (Z.to_nat i) (listed m)) in *. set (c := len old + 1).
  assert (Hpos : (0 < length (listed m))%nat) by (pose proof (members_listed m name s Hok Hs) as Hin; destruct (listed m); [by apply not_elem_of_nil in Hin|cbn; lia]).
  assert (Hold : len old < len (listed m)) by (unfold old, len; rewrite length_drop; lia).
  assert (Hlm : length (t_nodes (m_table m)) = length (listed m)) by (unfold listed; by rewrite length_map).
  assert (E1 : probeNext cfg m i now = probeFrom cfg (length (listed m) - length old - 1) m' 0 c now).
  { unfold probeNext. rewrite Hlm. replace (length (listed m)) with (length old + S (length (listed m) - length old - 1))%nat at 1 by (unfold len in *; lia).
    rewrite (probeFrom_skip m _ i 0 now old []) by (rewrite ?app_nil_r; done || lia). cbn [probeFrom]. rewrite listed_len.
    destruct (Z.geb_spec (0 + len old) (len (listed m))) as [|_]; [lia|].
    destruct (Z.geb_spec (i + len old) (len (listed m))) as [_|Hx]; [|unfold old, len in Hx; rewrite length_drop in Hx; unfold len in *; lia].
    rewrite Er. cbn [mbind option_bind]. done. }
  pose proof (members_listed m' name s Hok' Hs') as Hin.
  destruct (first_probed (listed m')) as [Hx|(pre & s1 & rest & E & Hpre & Hs1)].
  { apply (proj1 (Forall_forall _ _) Hx) in Hin. congruence. }
  pose proof (len_nonneg pre). pose proof (len_nonneg old).
  destruct (Z.lt_ge_cases (c + len pre) (len (listed m'))) as [Hroom|Hnone].
  - rewrite (probeFrom_pick m' _ 0 c now pre s1 rest) in E1 by (rewrite ?drop_0; done || (unfold c, len in *; lia)).
    rewrite E in Hin. apply elem_of_app in Hin as [Hin|[-> |Hin]%elem_of_cons].
    + apply (proj1 (Forall_forall _ _) Hpre) in Hin. congruence.
    + by eapply chosenBy_now.
    + eapply chosenBy_later; [exact E1|]. apply chosen_ahead; [lia| |done|rewrite length_drop; lia]. by rewrite (drop_past (listed m') 0 pre s1 rest).
  - assert (E2 : exists j, probeNext cfg m i now = Some (None, m', j) /\ 0 <= j <= len pre).
    { destruct (Z.le_gt_cases c (len (listed m'))) as [Hc|Hc].
      - exists (0 + (len (listed m') - c)). split; [|lia]. rewrite E1.
        apply (probeFrom_stop m' _ 0 c now pre (s1 :: rest)); [lia|by rewrite drop_0|done|done|lia|unfold c, len in *; lia].
      - exists 0. split; [|lia]. rewrite E1. destruct (_ - _ - 1)%nat; cbn [probeFrom]; rewrite listed_len;
          (destruct (Z.geb_spec c (len (listed m'))) as [_|]; [done|lia]). }
    destruct E2 as (j & E2 & Hj). eapply chosenBy_later; [exact E2|]. apply chosen_ahead; [lia| |done|rewrite length_drop; lia].
    rewrite E in Hin |- *. rewrite drop_app_le by (unfold len in *; lia). apply elem_of_app. right.
    apply elem_of_app in Hin as [Hin|Hin]; [|done]. apply (proj1 (Forall_forall _ _) Hpre) in Hin. congruence.
Qed.

Lemma listed_members m s : state_ok cfg m -> s ∈ listed m -> members m !! st_Name s = Some s.
Proof.
  intros Hok (l & -> & Hl)%list_elem_of_fmap. pose proof (so_table _ _ Hok) as Ht. destruct (to_listed _ Ht l Hl) as [s' Hs'].
  rewrite members_lookup. apply fmap_Some. exists l. split; [|done]. apply (to_map _ Ht). split; [done|]. exists s'. split; [done|].
  unfold stateAt. by rewrite (deref_lookup _ _ _ Hs').
Qed.

Lemma reset_shrinks m now m' : state_ok cfg m -> resetNodes cfg m now = Some m' ->
  state_ok cfg m' /\ members m' = unexpired cfg now (members m) /\ (length (listed m') <= length (listed m))%nat.
Proof.
  intros Hok E. destruct (resetNodes_ok cfg m now Hok) as (m1 & E1 & Hok1 & Hms & _ & Hperm). simplify_eq. split_and!; [done..|].
  unfold listed. rewrite !length_map, Hperm. rewrite filter_length_le. done.
Qed.

(** Every tick ends, and chooses a member that is to be probed. *)
Lemma probeFrom_total fuel m i c now :
  state_ok cfg m -> 0 <= i -> 0 <= c -> len (listed m) - c <= Z.of_nat fuel ->
  exists o m' i', probeFrom cfg fuel m i c now = Some (o, m', i') /\ state_ok cfg m' /\ 0 <= i' /\
    forall s, o = Some s -> probed cfg s = true /\ members m' !! st_Name s = Some s.
Proof.
  revert m i c. induction fuel as [|fuel IH]; intros m i c Hok Hi Hc Hf; cbn [probeFrom]; rewrite listed_len;
    (destruct (Z.geb_spec c (len (listed m))) as [|Hlt]; [by exists None, m, i|]); [lia|].
  destruct (Z.geb_spec i (len (listed m))) as [|Hil].
  - destruct (resetNodes_ok cfg m now Hok) as (m1 & E1 & _). rewrite E1. cbn [mbind option_bind].
    destruct (reset_shrinks m now m1 Hok E1) as (Hok1 & _ & Hl). apply IH; [done|lia..|unfold len in *; lia].
  - destruct (lookup_lt_is_Some_2 (t_nodes (m_table m)) (Z.to_nat i)) as [l Hl]; [rewrite <- listed_len in Hil; unfold len in Hil; lia|].
    rewrite Hl. cbn [mbind option_bind]. destruct (probed cfg (stateAt m l)) eqn:Hp; [|apply IH; [done|lia..]].
    exists (Some (stateAt m l)), m, (i + 1). split_and!; [done|done|lia|]. intros s [= <-]. split; [done|].
    apply listed_members; [done|]. apply list_elem_of_fmap_2. by eapply list_elem_of_lookup_2.
Qed.

Lemma chosen_eventually m i nows name s :
  state_ok cfg m -> 0 <= i -> members m !! name = Some s -> probed cfg s = true ->
  (length (drop (Z.to_nat i) (listed m)) + 1 + length (listed m) <= length nows)%nat -> chosenBy m i nows s.
Proof.
  intros Hok Hi Hs Hp. remember (length (drop (Z.to_nat i) (listed m))) as k eqn:Ek. revert i nows Hi Ek.
  induction k as [k IH] using lt_wf_ind. intros i nows Hi Ek Hl. destruct nows as [|now nows]; [cbn in Hl; lia|]. cbn [length] in Hl.
  pose proof (members_listed m name s Hok Hs) as Hin.
  destruct (first_probed (drop (Z.to_nat i) (listed m))) as [Hno|(pre & s1 & rest & E & Hpre & Hs1)].
  - assert (Hi0 : 0 < i).
    { destruct (Z.eq_dec i 0) as [-> |]; [|lia]. rewrite drop_0 in Hno. apply (proj1 (Forall_forall _ _) Hno) in Hin. congruence. }
    destruct (resetNodes_ok cfg m now Hok) as (m1 & E1 & _). destruct (reset_shrinks m now m1 Hok E1) as (Hok1 & Hms & Hlen).
    eapply (chosen_wrapping m i now nows s m1 name); try done; [|lia]. rewrite Hms. apply map_lookup_filter_Some. split; [done|]. cbn.
    unfold expired. unfold probed in Hp. apply andb_prop in Hp as [_ Hd%negb_true_iff]. by rewrite Hd.
  - pose proof (len_nonneg pre). assert (Hlen : len pre < len (listed m)).
    { assert (length (drop (Z.to_nat i) (listed m)) <= length (listed m))%nat by (rewrite length_drop; lia).
      rewrite E, length_app in *. cbn in *. unfold len. lia. }
    assert (E1 : probeNext cfg m i now = Some (Some s1, m, i + len pre + 1)).
    { eapply probeFrom_pick; [done..|lia|]. unfold len, listed in Hlen. rewrite length_map in Hlen. lia. }
    assert (H1 : members m !! st_Name s1 = Some s1).
    { apply listed_members; [done|]. rewrite <- (take_drop (Z.to_nat i) (listed m)), E. set_solver. }
    destruct (decide (st_Name s1 = st_Name s)) as [En|Hne].
    + assert (s1 = s) as ->; [|by eapply chosenBy_now]. pose proof (listed_members m s Hok Hin) as H2. congruence.
    + eapply chosenBy_later; [exact E1|].
      pose proof (drop_past _ _ _ _ _ Hi E) as E'.
      rewrite E, length_app in Ek. cbn in Ek. apply (IH (length rest)); [lia|lia|by rewrite E'|lia].
Qed.
End SelectLemmas.

(** ** A round of failure detection *)

(** The fields of [Config] the periodic work reads besides those of [Config]
    and [NetConfig]. *)
Record ProbeConfig := MkProbeConfig {
  pb_IndirectChecks : Z;
  pb_DisableTcpPings : bool;
  pb_DisableTcpPingsForNode : option (string -> bool);
  pb_GossipNodes : Z;
  pb_PushPullConcurrency : Z;
}.

(** [err.(type)] is [*net.OpError] itself, not one wrapped. *)
Definition failedRemote (e : sendError) : bool :=
  match e with
  | WriteFailed (OpError net op) =>
      if String.prefix "tcp" net then String.eqb op "dial" || String.eqb op "read" || String.eqb op "write"
      else if String.prefix "udp" net then String.eqb op "write"
      else false
  | _ => false
  end.

(** How sending the ping went. *)
Inductive pingSent := PingSent | PingRemoteFailure | PingLocalFailure.

(** A probe under way: what [probeNode] has in its variables. *)
Record probing := Probing {
  pr_node : nodeState;
  pr_ping : Ping;
  pr_chan : Z;
  pr_sent : Z;
}.

(** Where a probe ends. *)
Inductive probeResult :=
| ProbeNotSent         (* the ping could not be sent, and it is our fault *)
| ProbeAcked           (* the node answered *)
| ProbeAckedIndirectly (* the node answered late, or through another *)
| ProbeContacted       (* only over a stream *)
| ProbeFailed          (* not at all: the node is suspected *)
| ProbeWaiting         (* not ended: nothing to receive yet *)
| ProbeBlocked.        (* not ended: the timeout cannot be put back *)

Section Round.
Context {G : Type} {RG : Rand G} {ML : MathLog} {LZ : LZW} {GC : GCM} {TR : Transport} {D : Type} {DL : Delegates D}.
Context (cfg : Config) (nc : NetConfig) (pb : ProbeConfig) (nonceAt : Z -> bytes).
Implicit Types x : Net (G := G) (D := D).

Definition makePing x (seqNo : Z) (node : string) : Ping :=
  let '(selfAddr, selfPort) := x_advertise x in MkPing seqNo node selfAddr selfPort (c_Name cfg).

(** The sequence number, channels and handler, with the timeout given;
    [make] panics at a negative size. *)
Definition setupProbe x (node : string) (nack : bool) (timeout now : Z) : option (Ping * Z * Net) :=
  let '(seqNo, t) := nextSeqNo (x_acks x) in
  let n := pb_IndirectChecks pb + 1 in
  if n <? 0 then None
  else
    let '(ch, t) := makeChannels t n in
    let t := setProbeChannels t seqNo ch (if nack then Some ch else None) timeout now in
    Some (makePing x seqNo node, ch, set_acks x t).

(** Up to the first wait. *)
Definition probeSend x (node : nodeState) (now : Z) : option (pingSent * probing * Net) :=
  let probeInterval := ScaleTimeout (m_awareness (x_m x)) (c_ProbeInterval cfg) in
  '(ping, ch, x) ← setupProbe x (st_Name node) true probeInterval now;
  let n := st_Node node in
  '(r, x) ←
    (if bool_decide (st_State node = StateAlive) then encodeAndSendMsg cfg nc nonceAt x (FullAddress n) pingMsg (MPing ping)
     else
       let s := MkSuspect (st_Incarnation node) (st_Name node) (c_Name cfg) in
       let msgs := [encode pingMsg (MPing ping); encode suspectMsg (MSuspect s)] in
       rawSendMsgPacket cfg nc nonceAt x (FullAddress n) (Some n) (makeCompoundMessage msgs));
  Some (match r with
        | Ok _ => PingSent
        | Err e => if failedRemote e then PingRemoteFailure else PingLocalFailure
        end, Probing node ping ch now, x).

(** Whom to ask for an indirect ping. *)
Definition notHelper (node : string) (s : nodeState) : bool :=
  String.eqb (st_Name s) (c_Name cfg) || String.eqb (st_Name s) node || negb (bool_decide (st_State s = StateAlive)).

(** The requests, one per peer; the answer is [expectedNacks]. *)
Fixpoint askPeers x (ind : bool -> IndirectPingReq) (peers : list Node) (expectedNacks : Z) : option (Z * Net) :=
  match peers with
  | [] => Some (expectedNacks, x)
  | peer :: peers =>
      let nack := n_PMax peer >=? 4 in
      x ← sendLogged (encodeAndSendMsg cfg nc nonceAt x (FullAddress peer) indirectPingMsg (MIndirectPingReq (ind nack)));
      askPeers x ind peers (if nack then expectedNacks + 1 else expectedNacks)
  end.

(** From [HANDLE_REMOTE_FAILURE] to the second wait. *)
Definition probeIndirect x (p : probing) : option (Z * Net) :=
  let m := x_m x in
  let node := st_Node (pr_node p) in
  '(kNodes, g) ← kRandomNodes (stateAt m) (pb_IndirectChecks pb) (t_nodes (m_table m)) (Some (notHelper (n_Name node))) (m_rng m);
  let x := set_m x (set_rng m g) in
  let '(selfAddr, selfPort) := x_advertise x in
  let ind nack := MkIndirectPingReq (Ping_SeqNo (pr_ping p)) (n_Addr node) (n_Port node) (n_Name node) nack selfAddr selfPort (c_Name cfg) in
  askPeers x ind kNodes 0.

(** Whether the node is pinged over a stream too. *)
Definition tcpFallback (n : Node) : bool :=
  let disableTcpPings := pb_DisableTcpPings pb ||
    match pb_DisableTcpPingsForNode pb with Some f => f (n_Name n) | None => false end in
  negb disableTcpPings && (n_PMax n >=? 3).

(** The background stream ping, run at some point; what [fallbackCh] holds
    when it is polled. *)
Definition runFallback x (p : probing) (peer : option dialled) : option (bool * Net) :=
  let n := st_Node (pr_node p) in
  if tcpFallback n then
    '(r, x) ← sendPingAndWaitForAck cfg nc nonceAt x (FullAddress n) (pr_ping p) peer;
    Some (match r with Ok didContact => didContact | Err _ => false end, x)
  else Some (false, x).

(** What a failed probe says of our own health. *)
Definition failedDelta (expectedNacks nackCount : Z) : Z :=
  if expectedNacks >? 0 then (if nackCount <? expectedNacks then expectedNacks - nackCount else 0) else 1.

(** The deferred update. *)
Definition finishProbe x (delta : Z) : Net := set_m x (set_awareness (x_m x) (ApplyDelta (m_awareness (x_m x)) delta)).

(** From the second receive on. *)
Definition probeVerdict x (p : probing) (expectedNacks : Z) (contacted : bool) (delta now : Z) : option (probeResult * Net) :=
  match receiveAck (x_acks x) (pr_chan p) with
  | None => Some (ProbeWaiting, x)
  | Some (v, t) =>
      let x := set_acks x t in
      if am_Complete v then Some (ProbeAckedIndirectly, finishProbe x delta)
      else if contacted then Some (ProbeContacted, finishProbe x delta)
      else
        let nackCount := match k_chans (x_acks x) !! pr_chan p with Some c => pc_nacks c | None => 0 end in
        let s := MkSuspect (st_Incarnation (pr_node p)) (st_Name (pr_node p)) (c_Name cfg) in
        m ← suspectNode cfg (x_m x) s now;
        Some (ProbeFailed, finishProbe (set_m x m) (failedDelta expectedNacks nackCount))
  end.

(** What is not up to the prober: what the node does while it waits, twice,
    whether the probe timeout came before anything was received, and how the
    stream connection goes. *)
Record surroundings := Surroundings {
  su_first : list (netInput * Z);
  su_timeout : bool;
  su_second : list (netInput * Z);
  su_peer : option dialled;
  su_end : Z;
}.

Variable errorText : streamError -> string.

(** From [HANDLE_REMOTE_FAILURE] on; [delta] is [awarenessDelta] there. *)
Definition handleRemoteFailure x (p : probing) (e : surroundings) (delta : Z) : option (probeResult * Net) :=
  '(expectedNacks, x) ← probeIndirect x p;
  '(contacted, x) ← runFallback x p (su_peer e);
  x ← runNet cfg nc nonceAt errorText x (su_second e);
  probeVerdict x p expectedNacks contacted delta (su_end e).

(** The first wait: an answer, a timeout that is put back, or no answer in
    time, which is also what happens when there is nothing to receive. *)
Definition probeWait x (p : probing) (e : surroundings) : option (probeResult * Net) :=
  match receiveAck (x_acks x) (pr_chan p) with
  | Some (v, t) =>
      if su_timeout e then handleRemoteFailure x p e (-1)
      else if am_Complete v then
        let rtt := Since (am_Timestamp v) (pr_sent p) in
        let x := set_acks x t in
        let x := if nc_Ping nc then set_delegate x (DelegateNotifyPingComplete (st_Node (pr_node p)) rtt (am_Payload v) (x_delegate x)) else x in
        Some (ProbeAcked, finishProbe x (-1))
      else
        match requeueAck t (pr_chan p) v with
        | Some t => handleRemoteFailure (set_acks x t) p e (-1)
        | None => Some (ProbeBlocked, set_acks x t)
        end
  | None => handleRemoteFailure x p e (-1)
  end.

Definition probeNode x (node : nodeState) (e : surroundings) (now : Z) : option (probeResult * Net) :=
  '(sent, p, x) ← probeSend x node now;
  match sent with
  | PingLocalFailure => Some (ProbeNotSent, finishProbe x 0)
  | PingRemoteFailure => handleRemoteFailure x p e 0
  | PingSent => x ← runNet cfg nc nonceAt errorText x (su_first e); probeWait x p e
  end.

Inductive pingError := PingSendFailed (e : sendError) | NoPingResponseError (node : string).

(** [Memberlist.Ping]; [during] is what happens while it waits, [timeout] that
    the timeout came first. *)
Definition pingNode x (node : string) (addr : bytes) (during : list (netInput * Z)) (timeout : bool) (now sentAt : Z)
    : option (result pingError Z * Net) :=
  '(ping, ch, x) ← setupProbe x node false (c_ProbeInterval cfg) now;
  '(r, x) ← encodeAndSendMsg cfg nc nonceAt x (addr, node) pingMsg (MPing ping);
  match r with
  | Err e => Some (Err (PingSendFailed e), x)
  | Ok _ =>
      x ← runNet cfg nc nonceAt errorText x during;
      match receiveAck (x_acks x) ch with
      | Some (v, t) =>
          if timeout then Some (Err (NoPingResponseError node), x)
          else if am_Complete v then Some (Ok (Since (am_Timestamp v) sentAt), set_acks x t)
          else Some (Err (NoPingResponseError node), set_acks x t)
      | None => Some (Err (NoPingResponseError node), x)
      end
  end.

(** ** Gossip *)

Definition notGossiped (now : Z) (s : nodeState) : bool :=
  if String.eqb (st_Name s) (c_Name cfg) then true
  else
    match st_State s with
    | StateAlive | StateSuspect => false
    | StateDead => Since now (st_StateChange s) >? c_GossipToTheDeadTime cfg
    | StateLeft => true
    end.

Fixpoint sendAll x (node : Node) (packets : list bytes) : option Net :=
  match packets with
  | [] => Some x
  | p :: packets => x ← sendLogged (rawSendMsgPacket cfg nc nonceAt x (FullAddress node) (Some node) p); sendAll x node packets
  end.

(** The loop over the nodes, with the bytes available to each. *)
Fixpoint gossipTo x (bytesAvail : Z) (kNodes : list Node) : option Net :=
  match kNodes with
  | [] => Some x
  | node :: kNodes =>
      '(msgs, x) ← getBroadcasts nc x compoundOverhead bytesAvail;
      match msgs with
      | [] => Some x
      | [msg] => x ← sendAll x node [msg]; gossipTo x bytesAvail kNodes
      | _ => x ← sendAll x node (makeCompoundMessages msgs); gossipTo x bytesAvail kNodes
      end
  end.

(** Encryption counts when it is configured, sent or not. *)
Definition gossipBudget : option Z :=
  let bytesAvail := nc_packetBufferSize nc - compoundHeaderOverhead - crcOverhead - labelOverhead (nc_Label nc) in
  if EncryptionEnabled nc then o ← encryptOverhead (encryptionVersion cfg); Some (bytesAvail - o) else Some bytesAvail.

Definition gossip x (now : Z) : option Net :=
  let m := x_m x in
  '(kNodes, g) ← kRandomNodes (stateAt m) (pb_GossipNodes pb) (t_nodes (m_table m)) (Some (notGossiped now)) (m_rng m);
  let x := set_m x (set_rng m g) in
  bytesAvail ← gossipBudget;
  gossipTo x bytesAvail kNodes.

(** ** Push/pulls *)

Definition notPushPulled (s : nodeState) : bool :=
  String.eqb (st_Name s) (c_Name cfg) || negb (bool_decide (st_State s = StateAlive)).

(** The nodes of a cycle. *)
Definition pushPullNodes x : option (list Node * Net) :=
  let m := x_m x in
  let k := Z.min (Z.max 1 (pb_PushPullConcurrency pb)) (len (t_nodes (m_table m))) in
  '(nodes, g) ← kRandomNodes (stateAt m) k (t_nodes (m_table m)) (Some notPushPulled) (m_rng m);
  Some (nodes, set_m x (set_rng m g)).

(** The exchanges, in the order they end; each with its connection and time. *)
Fixpoint pushPullAll x (l : list (Node * option dialled * Z)) : option Net :=
  match l with
  | [] => Some x
  | (node, peer, now) :: l =>
      '(_, x) ← pushPullNode cfg nc nonceAt x (FullAddress node) false peer now;
      pushPullAll x l
  end.

(** [dial] is the connection to a node and when its exchange ends; [order] how
    the exchanges that run in parallel are ordered. *)
Definition pushPull x (dial : Node -> option dialled * Z) (order : list Node -> list Node) : option Net :=
  '(nodes, x) ← pushPullNodes x;
  pushPullAll x (map (fun n => (n, (dial n).1, (dial n).2)) (order nodes)).
End Round.
