(* ===== verification/Detect.v ===== *)
(** What the periodic work guarantees: every member is probed, a node that
    answers is not suspected and one that is silent is, gossip fits its
    packets, and none of it can fail. *)

From S2P Require Import Prelude Msgpack Wire Timing Treap Queue NetAddr Nodes Events Packet State Lifecycle Membership Protocol Merge Security Checksum HostPort Acks Net Streams Ingest Exchange Probe.

(** ** Lemmas: nothing fails *)

Section Total.
Context {G : Type} {RG : Rand G} {RL : RandLaws G} {ML : MathLog} {LZ : LZW} {GC : GCM} {TR : Transport} {D : Type} {DL : Delegates D}.
Context (cfg : Config) (nc : NetConfig) (pb : ProbeConfig) (nonceAt : Z -> bytes) (errorText : streamError -> string).
Implicit Types x : Net (G := G) (D := D).

(** Sizes that are no configuration errors. *)
Record probe_config_ok : Prop := {
  pc_indirect : 0 <= pb_IndirectChecks pb <= MaxInt32;
  pc_gossip : 0 <= pb_GossipNodes pb <= MaxInt32;
  pc_pushPull : pb_PushPullConcurrency pb <= MaxInt32;
}.

Lemma random_nodes x k exclude :
  net_ok cfg nc x -> 0 <= k -> k * 3 <= MaxInt64 ->
  exists l g', kRandomNodes (stateAt (x_m x)) k (t_nodes (m_table (x_m x))) (Some exclude) (m_rng (x_m x)) = Some (l, g') /\ len l <= k /\
    Forall (fun n => exists s, members (x_m x) !! n_Name n = Some s /\ n = st_Node s /\ exclude s = false) l.
Proof.
  intros Hx Hk Hov. pose proof (no_state _ _ _ Hx) as Hok.
  destruct (kRandomNodes_ok (stateAt (x_m x)) k (t_nodes (m_table (x_m x))) (Some exclude) (m_rng (x_m x)) Hk Hov) as (l & g' & E & Hlk & _ & Hc & _).
  - apply (NoDup_fmap_2_strong (fun l => st_Name (stateAt (x_m x) l))); [|apply (to_nodup _ (so_table _ _ Hok))].
    intros l1 l2 H1 H2 En. pose proof (so_table _ _ Hok) as Ht.
    assert (Hl : forall l, l ∈ t_nodes (m_table (x_m x)) -> t_nodeMap (m_table (x_m x)) !! st_Name (stateAt (x_m x) l) = Some l).
    { intros l Hl. destruct (to_listed _ Ht l Hl) as [s Hs]. apply (to_map _ Ht). split; [done|]. exists s. split; [done|].
      unfold stateAt. by rewrite (deref_lookup _ _ _ Hs). }
    pose proof (Hl l1 H1). pose proof (Hl l2 H2). congruence.
  - exists l, g'. split_and!; [done..|]. eapply Forall_impl; [exact Hc|]. intros n (l0 & Hl0 & He & ->). exists (stateAt (x_m x) l0).
    split_and!; [|done|done]. apply (listed_members cfg (x_m x)); [done|]. by apply list_elem_of_fmap_2.
Qed.

Lemma set_rng_survives x g : net_ok cfg nc x -> survives cfg nc 0 x (set_m x (set_rng (x_m x) g)).
Proof.
  intros [H1 H2 H3 H4]. constructor; [constructor; try done; by destruct H1|by apply keepsLocal_same|cbn; lia].
Qed.

Lemma finishProbe_survives x delta : net_ok cfg nc x -> survives cfg nc 0 x (finishProbe x delta).
Proof.
  intros [H1 H2 H3 H4]. constructor; [constructor; try done; by destruct H1|by apply keepsLocal_same|cbn; lia].
Qed.

(** A probe's own handler is no relay. *)
Lemma setupProbe_ok x node nack timeout now :
  net_ok cfg nc x -> 0 <= pb_IndirectChecks pb ->
  exists ping ch x', setupProbe cfg pb x node nack timeout now = Some (ping, ch, x') /\ survives cfg nc 0 x x' /\
    x_m x' = x_m x /\ x_sent x' = x_sent x /\ x_nonces x' = x_nonces x /\ x_advertise x' = x_advertise x.
Proof.
  intros Hx Hi. unfold setupProbe. cbn [nextSeqNo makeChannels]. rewrite (proj2 (Z.ltb_ge _ 0)) by lia.
  eexists _, _, _. split; [done|]. split; [|done]. apply survives_same; [|done].
  destruct Hx as [H1 [R1 R2 R3] H3 H4]. constructor; try done. constructor; cbn.
  - intros s ah r. rewrite lookup_insert_Some. intros [[<- <-]|[_ Hs]]; [done|]. eauto.
  - intros s1 s2 a1 a2 r1 r2. rewrite !lookup_insert_Some. intros [[<- <-]|[_ Hs1]] [[<- <-]|[_ Hs2]]; try done. eauto.
  - exact R3.
Qed.

Hypothesis Hk : keys_ok nc.

Lemma askPeers_total x ind peers n :
  net_ok cfg nc x -> exists n' x', askPeers cfg nc nonceAt x ind peers n = Some (n', x') /\ transmits x x' /\ n <= n'.
Proof.
  revert x n. induction peers as [|peer peers IH]; intros x n Hx; cbn [askPeers].
  { exists n, x. split_and!; [done|apply transmits_refl|lia]. }
  destruct (sendLogged_total cfg nc nonceAt Hk x (FullAddress peer) indirectPingMsg (MIndirectPingReq (ind (n_PMax peer >=? 4))) Hx)
    as (x1 & -> & H1). cbn [mbind option_bind].
  destruct (IH x1 (if n_PMax peer >=? 4 then n + 1 else n)) as (n' & x' & -> & H2 & Hn).
  { by apply (hd_ok _ _ _ _ (transmits_handled cfg nc x x1 Hx H1)). }
  exists n', x'. split_and!; [done|by eapply transmits_trans|destruct (_ >=? 4); lia].
Qed.

Lemma survives_0_r n x1 x2 x3 : survives cfg nc n x1 x2 -> survives cfg nc 0 x2 x3 -> survives cfg nc n x1 x3.
Proof. intros H1 H2. rewrite <- (Z.add_0_r n). by eapply survives_trans. Qed.

Lemma survives_0_l n x1 x2 x3 : survives cfg nc 0 x1 x2 -> survives cfg nc n x2 x3 -> survives cfg nc n x1 x3.
Proof. intros H1 H2. rewrite <- (Z.add_0_l n). by eapply survives_trans. Qed.

Lemma transmits_survives x x' : net_ok cfg nc x -> transmits x x' -> survives cfg nc 0 x x'.
Proof. intros Hx Ht. by apply handled_survives, transmits_handled. Qed.

Lemma survives_room n k x x' : survives cfg nc n x x' -> room (n + k) (x_m x) -> room k (x_m x').
Proof. intros [_ _ Hg] Hr. unfold room in *. lia. Qed.

Lemma probeSend_total x node now :
  net_ok cfg nc x -> 0 <= pb_IndirectChecks pb ->
  exists r p x1 x', probeSend cfg nc pb nonceAt x node now = Some (r, p, x') /\ survives cfg nc 0 x x' /\ pr_node p = node /\
    setupProbe cfg pb x (st_Name node) true (ScaleTimeout (m_awareness (x_m x)) (c_ProbeInterval cfg)) now = Some (pr_ping p, pr_chan p, x1) /\
    x_m x1 = x_m x /\ transmits x1 x'.
Proof.
  intros Hx Hi. unfold probeSend.
  destruct (setupProbe_ok x (st_Name node) true (ScaleTimeout (m_awareness (x_m x)) (c_ProbeInterval cfg)) now Hx Hi)
    as (ping & ch & x1 & -> & H1 & Em & _). cbn [mbind option_bind].
  assert (H2 : exists r x2,
    (if bool_decide (st_State node = StateAlive) then encodeAndSendMsg cfg nc nonceAt x1 (FullAddress (st_Node node)) pingMsg (MPing ping)
     else rawSendMsgPacket cfg nc nonceAt x1 (FullAddress (st_Node node)) (Some (st_Node node))
       (makeCompoundMessage [encode pingMsg (MPing ping); encode suspectMsg (MSuspect (MkSuspect (st_Incarnation node) (st_Name node) (c_Name cfg)))])) =
    Some (r, x2) /\ transmits x1 x2).
  { destruct (bool_decide _); [|by apply rawSendMsgPacket_total]. apply sendMsg_total; [done|].
    apply (so_queue _ _ (no_state _ _ _ (sv_ok _ _ _ _ _ H1))). }
  destruct H2 as (r & x2 & E2 & H2). rewrite E2. cbn [mbind option_bind]. eexists _, _, x1, x2. split_and!; [done| |done..].
  eapply survives_0_r; [exact H1|]. apply transmits_survives; [apply H1|done].
Qed.

(** The table of members is as it was. *)
Definition steady x x' : Prop := members (x_m x') = members (x_m x) /\ m_shutdown (x_m x') = m_shutdown (x_m x).

Lemma transmits_steady x x' : transmits x x' -> steady x x'.
Proof. intros Ht. pose proof (tr_m _ _ Ht) as Hq. split; [by apply onlyQueue_members|]. by destruct Hq as (q & f & g & -> & _). Qed.

Lemma steady_trans x1 x2 x3 : steady x1 x2 -> steady x2 x3 -> steady x1 x3.
Proof. intros [A1 A2] [B1 B2]. split; congruence. Qed.

Lemma probeIndirect_total x p :
  net_ok cfg nc x -> probe_config_ok ->
  exists n x', probeIndirect cfg nc pb nonceAt x p = Some (n, x') /\ survives cfg nc 0 x x' /\ 0 <= n /\ x_acks x' = x_acks x /\ steady x x'.
Proof.
  intros Hx [Hi _ _]. unfold probeIndirect. unfold_ints.
  destruct (random_nodes x (pb_IndirectChecks pb) (notHelper cfg (n_Name (st_Node (pr_node p)))) Hx) as (l & g & E & _); [lia|unfold MaxInt64; lia|].
  rewrite E. cbn [mbind option_bind]. pose proof (set_rng_survives x g Hx) as H1.
  destruct (x_advertise (set_m x (set_rng (x_m x) g))) as [selfAddr selfPort].
  match goal with |- context [askPeers _ _ _ ?y ?ind l 0] => destruct (askPeers_total y ind l 0 (sv_ok _ _ _ _ _ H1)) as (n & x' & -> & Ht & Hn) end.
  exists n, x'. split_and!; [done| |done|by rewrite (tr_acks _ _ Ht)|by destruct (transmits_steady _ _ Ht)]. eapply survives_0_r; [exact H1|]. apply transmits_survives; [apply H1|done].
Qed.

Lemma runFallback_total x p peer :
  net_ok cfg nc x -> exists b x', runFallback cfg nc pb nonceAt x p peer = Some (b, x') /\ survives cfg nc 0 x x' /\ x_acks x' = x_acks x /\ steady x x' /\
    (peer = None -> b = false).
Proof.
  intros Hx. unfold runFallback. destruct (tcpFallback pb _); [|exists false, x; split_and!; [done|by apply survives_same|done..]].
  destruct (sendPingAndWaitForAck_total cfg nc nonceAt Hk x (FullAddress (st_Node (pr_node p))) (pr_ping p) peer) as (r & x' & E & Ht). rewrite E.
  eexists _, x'. split_and!; [done|by apply talks_survives|by destruct Ht as (d & n & ->)..|].
  intros ->. unfold sendPingAndWaitForAck, dialLabelled in E. destruct (nameless nc _); injection E as <- _; done.
Qed.

Lemma set_acks_chan x t ch v :
  net_ok cfg nc x -> receiveAck (x_acks x) ch = Some (v, t) -> survives cfg nc 0 x (set_acks x t) /\
  k_ackHandlers t = k_ackHandlers (x_acks x) /\ k_flight t = k_flight (x_acks x).
Proof.
  intros Hx. unfold receiveAck. destruct (k_chans (x_acks x) !! ch) as [c|]; [|done]. cbn [mbind option_bind].
  destruct (pc_acks c); [done|]. intros [= _ <-]. split; [|done]. apply survives_same; [|done]. destruct Hx as [? [] ? ?]. by constructor.
Qed.

Lemma probeVerdict_total x p n contacted delta now :
  net_ok cfg nc x -> room 1 (x_m x) ->
  exists r x', probeVerdict cfg x p n contacted delta now = Some (r, x') /\ survives cfg nc 1 x x'.
Proof.
  intros Hx Hr. unfold probeVerdict. destruct (receiveAck (x_acks x) (pr_chan p)) as [[v t]|] eqn:E.
  2: { exists ProbeWaiting, x. split; [done|]. constructor; [done|by apply keepsLocal_same|lia]. }
  destruct (set_acks_chan x t _ v Hx E) as [H1 _]. set (x1 := set_acks x t) in *.
  assert (Hfin : forall d, survives cfg nc 1 x (finishProbe x1 d)).
  { intros d. destruct (survives_0_r 0 _ _ _ H1 (finishProbe_survives x1 d (sv_ok _ _ _ _ _ H1))) as [A1 A2 A3]. constructor; [done..|lia]. }
  destruct (am_Complete v); [by eexists _, _|]. destruct contacted; [by eexists _, _|].
  destruct (member_survives cfg nc x1 (InSuspect (MkSuspect (st_Incarnation (pr_node p)) (st_Name (pr_node p)) (c_Name cfg))) now)
    as (m & E2 & H2); [apply H1|by apply (survives_room 0 1 x x1)|done|].
  cbn [handle] in E2. rewrite E2. cbn [mbind option_bind]. eexists _, _. split; [done|]. eapply survives_0_r; [|apply finishProbe_survives; apply H2].
  by eapply survives_0_l.
Qed.

(** What goes on around a probe comes from others. *)
Definition surroundings_ok (e : surroundings) : Prop :=
  Forall (fun i => foreign i.1 = true) (su_first e) /\ Forall (fun i => foreign i.1 = true) (su_second e).
Definition probeCost (e : surroundings) : Z := totalCost (su_first e) + (totalCost (su_second e) + 1).

Lemma handleRemoteFailure_total x p e delta :
  net_ok cfg nc x -> probe_config_ok -> surroundings_ok e -> room (totalCost (su_second e) + 1) (x_m x) ->
  exists r x', handleRemoteFailure cfg nc pb nonceAt errorText x p e delta = Some (r, x') /\
    survives cfg nc (totalCost (su_second e) + 1) x x'.
Proof.
  intros Hx Hp [_ He] Hr. unfold handleRemoteFailure.
  destruct (probeIndirect_total x p Hx Hp) as (n & x1 & -> & H1 & _). cbn [mbind option_bind].
  destruct (runFallback_total x1 p (su_peer e) (sv_ok _ _ _ _ _ H1)) as (b & x2 & -> & H2 & _). cbn [mbind option_bind].
  pose proof (survives_0_r _ _ _ _ H1 H2) as H12. pose proof (totalCost_nonneg (su_second e)).
  destruct (runNet_survives cfg nc nonceAt errorText Hk x2 (su_second e)) as (x3 & -> & H3); [apply H2| |done|].
  { apply (survives_room 0 _ x x2 H12). unfold room in *. lia. }
  cbn [mbind option_bind]. pose proof (survives_0_l _ _ _ _ H12 H3) as H123.
  destruct (probeVerdict_total x3 p n b delta (su_end e)) as (r & x4 & -> & H4); [apply H3|by apply (survives_room _ 1 x x3 H123)|].
  exists r, x4. split; [done|]. by eapply survives_trans.
Qed.

Lemma requeue_survives x ch v t t' :
  net_ok cfg nc x -> receiveAck (x_acks x) ch = Some (v, t) -> requeueAck t ch v = Some t' -> survives cfg nc 0 x (set_acks x t').
Proof.
  intros Hx Hr Hq. destruct (set_acks_chan x t ch v Hx Hr) as (_ & Eh & Ef). unfold requeueAck in Hq.
  destruct (k_chans t !! ch) as [c|]; [|done]. cbn [mbind option_bind] in Hq. destruct (_ <? _); [|done]. injection Hq as <-.
  apply survives_same; [|done]. destruct Hx as [H1 H2 H3 H4]. constructor; try done. cbn.
  eapply relays_mono; [| |exact H2]; cbn; [by rewrite Eh|by rewrite Ef].
Qed.

Lemma survives_more n k x x' : survives cfg nc n x x' -> n <= k -> survives cfg nc k x x'.
Proof. intros [] ?. constructor; [done..|lia]. Qed.

Lemma probeWait_total x p e :
  net_ok cfg nc x -> probe_config_ok -> surroundings_ok e -> room (totalCost (su_second e) + 1) (x_m x) ->
  exists r x', probeWait cfg nc pb nonceAt errorText x p e = Some (r, x') /\ survives cfg nc (totalCost (su_second e) + 1) x x'.
Proof.
  intros Hx Hp He Hr. pose proof (totalCost_nonneg (su_second e)). unfold probeWait.
  destruct (receiveAck (x_acks x) (pr_chan p)) as [[v t]|] eqn:E; [|by apply handleRemoteFailure_total].
  destruct (su_timeout e); [by apply handleRemoteFailure_total|]. destruct (set_acks_chan x t _ v Hx E) as [H1 _].
  destruct (am_Complete v).
  - eexists _, _. split; [done|]. apply (survives_more 0); [|lia]. eapply survives_0_r; [|apply finishProbe_survives].
    + destruct (nc_Ping nc); [|done]. eapply survives_0_r; [exact H1|]. apply survives_same; [|done]. apply set_delegate_ok, H1.
    + destruct (nc_Ping nc); [apply set_delegate_ok|]; apply H1.
  - destruct (requeueAck t (pr_chan p) v) as [t'|] eqn:Eq; [|eexists _, _; split; [done|]; by apply (survives_more 0); [|lia]].
    pose proof (requeue_survives x _ v t t' Hx E Eq) as H2.
    destruct (handleRemoteFailure_total (set_acks x t') p e (-1)) as (r & x' & -> & H3); [apply H2|done..|].
    exists r, x'. split; [done|]. by eapply survives_0_l.
Qed.

Lemma probeNode_total x node e now :
  net_ok cfg nc x -> probe_config_ok -> surroundings_ok e -> room (probeCost e) (x_m x) ->
  exists r x', probeNode cfg nc pb nonceAt errorText x node e now = Some (r, x') /\ survives cfg nc (probeCost e) x x'.
Proof.
  intros Hx Hp He Hr. unfold probeCost in *. pose proof (totalCost_nonneg (su_first e)). pose proof (totalCost_nonneg (su_second e)).
  unfold probeNode. destruct (probeSend_total x node now Hx) as (sent & p & x0 & x1 & -> & H1 & _); [apply Hp|]. cbn [mbind option_bind].
  pose proof (sv_ok _ _ _ _ _ H1) as Hx1. destruct sent.
  - destruct (runNet_survives cfg nc nonceAt errorText Hk x1 (su_first e) Hx1) as (x2 & -> & H2); [|apply He|].
    { apply (survives_room 0 _ x x1 H1). unfold room in *. lia. }
    cbn [mbind option_bind]. pose proof (survives_0_l _ _ _ _ H1 H2) as H12.
    destruct (probeWait_total x2 p e) as (r & x3 & -> & H3); [apply H2|done|done|by apply (survives_room _ _ x x2 H12)|].
    exists r, x3. split; [done|]. by eapply survives_trans.
  - destruct (handleRemoteFailure_total x1 p e 0 Hx1 Hp He) as (r & x2 & -> & H2).
    { apply (survives_room 0 _ x x1 H1). unfold room in *. lia. }
    exists r, x2. split; [done|]. apply (survives_more (totalCost (su_second e) + 1)); [by eapply survives_0_l|lia].
  - eexists _, _. split; [done|]. apply (survives_more 0); [|lia]. eapply survives_0_r; [exact H1|]. by apply finishProbe_survives.
Qed.

(** Nothing came but the timeout. *)
Definition timedOut x (p : probing) (id due : Z) : Prop :=
  (exists seqNo, k_timers (x_acks x) !! id = Some (AckTimer (Some due) seqNo (Some (pr_chan p)))) /\
  exists cap, 1 <= cap /\ k_chans (x_acks x) !! pr_chan p = Some (ProbeChannels cap [] 0).

Lemma probeSend_pending x node now r p x' :
  net_ok cfg nc x -> 0 <= pb_IndirectChecks pb -> probeSend cfg nc pb nonceAt x node now = Some (r, p, x') ->
  pr_node p = node /\ steady x x' /\ survives cfg nc 0 x x' /\ k_flight (x_acks x') = k_flight (x_acks x) /\
  timedOut x' p (k_nextTimer (x_acks x)) (now + ScaleTimeout (m_awareness (x_m x)) (c_ProbeInterval cfg)).
Proof.
  intros Hx Hi E. destruct (probeSend_total x node now Hx Hi) as (r' & p' & x1 & x2 & E' & Hs & Hp & Hset & Em & Ht).
  rewrite E in E'. injection E' as <- <- <-. unfold setupProbe in Hset. cbn [nextSeqNo makeChannels] in Hset.
  rewrite (proj2 (Z.ltb_ge _ 0)) in Hset by lia. injection Hset as _ Ech <-.
  destruct (transmits_steady _ _ Ht) as [A1 A2]. unfold timedOut, steady. rewrite (tr_acks _ _ Ht), <- Ech. cbn. rewrite !lookup_insert_eq.
  split_and!; [done..|by eexists|]. eexists. split; [|done]. lia.
Qed.

Definition silence x (late t_end : Z) : surroundings :=
  Surroundings [] true [(NAckTimer (k_nextTimer (x_acks x)), late); (NDeliver (length (k_flight (x_acks x))), late)] None t_end.

Lemma timeout_delivered x p id due late i :
  timedOut x p id due -> due <= late -> i = length (k_flight (x_acks x)) ->
  exists x' t', runNet cfg nc nonceAt errorText x [(NAckTimer id, late); (NDeliver i, late)] = Some x' /\
    receiveAck (x_acks x') (pr_chan p) = Some (AckMessage false None late, t') /\ x_m x' = x_m x.
Proof.
  intros [[seqNo Ht] (cap & Hcap & Hc)] Hl ->. cbn [runNet netHandle mbind option_bind]. unfold fireAckTimer. rewrite Ht. cbn [tm_due tm_ackCh tm_seqNo].
  rewrite (proj2 (Z.leb_le due late)) by done. unfold deliver. cbn [x_acks set_acks k_flight set_flight set_handlers set_ackTimers].
  rewrite list_lookup_middle by done. unfold sendAck. cbn. rewrite Hc. cbn [pc_acks pc_cap]. change (len []) with 0.
  rewrite (proj2 (Z.ltb_lt 0 cap)) by lia. eexists _, _. split_and!; [done| |done]. unfold receiveAck. cbn. by rewrite lookup_insert_eq.
Qed.

Lemma silence_suspected x x1 p due late t_end delta :
  net_ok cfg nc x1 -> probe_config_ok -> room 1 (x_m x1) -> m_shutdown (x_m x1) = false ->
  timedOut x1 p (k_nextTimer (x_acks x)) due -> due <= late -> k_flight (x_acks x1) = k_flight (x_acks x) ->
  members (x_m x1) !! st_Name (pr_node p) = Some (pr_node p) -> st_Name (pr_node p) <> c_Name cfg -> st_State (pr_node p) = StateAlive ->
  exists x', handleRemoteFailure cfg nc pb nonceAt errorText x1 p (silence x late t_end) delta = Some (ProbeFailed, x') /\ net_ok cfg nc x' /\
    (exists s', members (x_m x') !! st_Name (pr_node p) = Some s' /\ statusOf s' = (StateSuspect, st_Incarnation (pr_node p))) /\
    forall n, n <> st_Name (pr_node p) -> members (x_m x') !! n = members (x_m x1) !! n.
Proof.
  intros Hx Hp Hr Hd Hto Hl Hf Hm Hne Hst. unfold handleRemoteFailure.
  destruct (probeIndirect_total x1 p Hx Hp) as (n & x2 & -> & H2 & _ & Ea2 & S2). cbn [mbind option_bind su_peer silence].
  destruct (runFallback_total x2 p None (sv_ok _ _ _ _ _ H2)) as (b & x3 & -> & H3 & Ea3 & S3 & ->); [|done]. cbn [mbind option_bind su_second silence].
  destruct (steady_trans _ _ _ S2 S3) as [Em Es]. pose proof (survives_0_r _ _ _ _ H2 H3) as H23.
  assert (Eacks : x_acks x3 = x_acks x1) by congruence.
  destruct (timeout_delivered x3 p (k_nextTimer (x_acks x)) due late (length (k_flight (x_acks x)))) as (x4 & t' & E4 & Er & Em4);
    [unfold timedOut; by rewrite Eacks|done|by rewrite Eacks, Hf|].
  destruct (runNet_survives cfg nc nonceAt errorText Hk x3 (su_second (silence x late t_end))) as (x4' & E4' & H4); [apply H3| |by repeat constructor|].
  { apply (survives_room 0 _ x1 x3 H23). unfold room in *. cbn. lia. }
  cbn [su_second silence] in E4'. rewrite E4 in *. injection E4' as <-. cbn [mbind option_bind]. unfold probeVerdict. rewrite Er. cbn [am_Complete].
  destruct (set_acks_chan x4 t' _ _ (sv_ok _ _ _ _ _ H4) Er) as [H5 _]. set (s := MkSuspect _ _ _).
  assert (Hr5 : room 1 (x_m x4)) by (rewrite Em4; by apply (survives_room 0 1 x1 x3 H23)).
  destruct (member_survives cfg nc (set_acks x4 t') (InSuspect s) (su_end (silence x late t_end))) as (m & E6 & H6); [apply H5|done..|].
  cbn [handle] in E6. rewrite E6. cbn [mbind option_bind]. eexists. split; [done|].
  destruct (suspectNode_outcome cfg (x_m x4) s (su_end (silence x late t_end))) as (m0 & E0 & Ho); [apply H5|done|]. cbn in E6, E0. rewrite E0 in E6. injection E6 as ->.
  destruct (suspect_members cfg (x_m x4) s _ m (pr_node p) (no_state _ _ _ (sv_ok _ _ _ _ _ H5)) Ho) as [Hoth Hs]; [cbn; congruence|].
  split; [apply finishProbe_survives, H6|]. split.
  - destruct Hs as (s' & Hs' & Est); [done|congruence|]. exists s'. split; [done|]. rewrite Est. unfold swim_suspect, statusOf. cbn.
    by rewrite Hst, Z.leb_refl.
  - intros k Hk'. cbn. rewrite Hoth by done. congruence.
Qed.

(** Gossip. *)
Lemma sendAll_total x node packets :
  net_ok cfg nc x -> exists x', sendAll cfg nc nonceAt x node packets = Some x' /\ transmits x x'.
Proof.
  revert x. induction packets as [|b packets IH]; intros x Hx; cbn [sendAll]; [exists x; split; [done|apply transmits_refl]|].
  destruct (rawSendMsgPacket_total cfg nc nonceAt x (FullAddress node) (Some node) b Hk) as (r & x1 & -> & H1). cbn [sendLogged mbind option_bind].
  destruct (IH x1) as (x' & -> & H2); [by apply (transmits_survives x x1)|]. exists x'. split; [done|]. by eapply transmits_trans.
Qed.

Lemma gossipTo_total x avail nodes :
  net_ok cfg nc x -> exists x', gossipTo cfg nc nonceAt x avail nodes = Some x' /\ transmits x x'.
Proof.
  revert x. induction nodes as [|node nodes IH]; intros x Hx; cbn [gossipTo]; [exists x; split; [done|apply transmits_refl]|].
  destruct (getBroadcasts_total nc x compoundOverhead avail (so_queue _ _ (no_state _ _ _ Hx))) as (msgs & x1 & -> & H1); [done|].
  cbn [mbind option_bind]. pose proof (sv_ok _ _ _ _ _ (transmits_survives x x1 Hx H1)) as Hx1.
  assert (Hgo : forall packets, exists x', (x2 ← sendAll cfg nc nonceAt x1 node packets; gossipTo cfg nc nonceAt x2 avail nodes) = Some x' /\ transmits x x').
  { intros packets. destruct (sendAll_total x1 node packets Hx1) as (x2 & -> & H2). cbn [mbind option_bind].
    destruct (IH x2) as (x' & -> & H3); [by apply (transmits_survives x1 x2)|]. exists x'. split; [done|].
    eapply transmits_trans; [exact H1|]. by eapply transmits_trans. }
  destruct msgs as [|msg [|msg2 msgs]]; [by exists x1|apply Hgo..].
Qed.

Lemma gossip_total x now :
  net_ok cfg nc x -> probe_config_ok -> exists x', gossip cfg nc pb nonceAt x now = Some x' /\ survives cfg nc 0 x x'.
Proof.
  intros Hx [_ Hg _]. unfold gossip. unfold_ints.
  destruct (random_nodes x (pb_GossipNodes pb) (notGossiped cfg now) Hx) as (l & g & -> & _); [lia|unfold MaxInt64; lia|]. cbn [mbind option_bind].
  assert (Hb : exists b, gossipBudget cfg nc = Some b).
  { unfold gossipBudget. destruct (EncryptionEnabled nc); [|by eexists]. destruct (encryptOverhead_some cfg) as [o ->]. by eexists. }
  destruct Hb as [b ->]. cbn [mbind option_bind]. pose proof (set_rng_survives x g Hx) as H1.
  destruct (gossipTo_total (set_m x (set_rng (x_m x) g)) b l (sv_ok _ _ _ _ _ H1)) as (x' & -> & Ht). exists x'. split; [done|].
  eapply survives_0_r; [exact H1|]. apply transmits_survives; [apply H1|done].
Qed.

(** Push/pulls. *)
Lemma pushPullAll_total x l :
  net_ok cfg nc x -> room (maxPushStateNodes * len l) (x_m x) ->
  exists x', pushPullAll cfg nc nonceAt x l = Some x' /\ survives cfg nc (maxPushStateNodes * len l) x x'.
Proof.
  revert x. induction l as [|[[node peer] now] l IH]; intros x Hx Hr; cbn [pushPullAll].
  { exists x. split; [done|]. apply (survives_more 0); [by apply survives_same|done]. }
  rewrite len_cons in *. pose proof (len_nonneg l). change maxPushStateNodes with 1048576 in *.
  destruct (pushPullNode_total cfg nc nonceAt Hk x (FullAddress node) false peer now) as (r & x1 & remote & -> & Hl & H1).
  { apply (room_merges cfg nc); [done|]. change maxPushStateNodes with 1048576. unfold room in *. lia. }
  cbn [mbind option_bind].
  assert (H1' : survives cfg nc 1048576 x x1).
  { eapply merges_survives; [done| |exact Hl|exact H1]. change maxPushStateNodes with 1048576. unfold room in *. lia. }
  destruct (IH x1) as (x' & -> & H2); [apply H1'|apply (survives_room _ _ x x1 H1'); unfold room in *; lia|].
  exists x'. split; [done|]. replace (1048576 * (1 + len l)) with (1048576 + 1048576 * len l) by lia. by eapply survives_trans.
Qed.

Lemma pushPull_total x dial order :
  net_ok cfg nc x -> probe_config_ok -> (forall l, Permutation (order l) l) ->
  room (maxPushStateNodes * Z.max 1 (pb_PushPullConcurrency pb)) (x_m x) ->
  exists x', pushPull cfg nc pb nonceAt x dial order = Some x' /\
    survives cfg nc (maxPushStateNodes * Z.max 1 (pb_PushPullConcurrency pb)) x x'.
Proof.
  intros Hx [_ _ Hc] Ho Hr. unfold pushPull, pushPullNodes. pose proof (len_nonneg (t_nodes (m_table (x_m x)))).
  set (k := Z.min _ _). unfold_ints.
  destruct (random_nodes x k (notPushPulled cfg) Hx) as (l & g & -> & Hl & _); [lia|unfold MaxInt64; lia|]. cbn [mbind option_bind].
  pose proof (set_rng_survives x g Hx) as H1. set (l' := map _ (order l)).
  assert (El : len l' = len l) by (unfold l', len; by rewrite length_map, Ho). change maxPushStateNodes with 1048576 in *.
  destruct (pushPullAll_total (set_m x (set_rng (x_m x) g)) l' (sv_ok _ _ _ _ _ H1)) as (x' & -> & H2).
  { apply (survives_room 0 _ x _ H1). change maxPushStateNodes with 1048576. unfold room in *. lia. }
  exists x'. split; [done|]. apply (survives_more (maxPushStateNodes * len l')); [by eapply survives_0_l|].
  change maxPushStateNodes with 1048576. lia.
Qed.
End Total.

(** ** Lemmas: gossip fits *)

Section Fits.
Context {G : Type} {RG : Rand G} {RL : RandLaws G} {ML : MathLog} {LZ : LZW} {GC : GCM} {GL : GCMLaws} {TR : Transport} {D : Type} {DL : Delegates D} {DW : DelegateLaws D}.
Context (cfg : Config) (nc : NetConfig) (nonceAt : Z -> bytes) (Hk : keys_ok nc) (Hn : forall i, len (nonceAt i) = nonceSize).
Implicit Types x : Net (G := G) (D := D).

Definition sentTo (P : PeerAddress -> Prop) x x' : Prop :=
  exists l, x_sent x' = x_sent x ++ l /\ Forall (fun p => P p.1 /\ len p.2 <= nc_packetBufferSize nc) l.

Lemma sentTo_refl P x : sentTo P x x.
Proof. exists []. by rewrite app_nil_r. Qed.

Lemma sentTo_trans P x1 x2 x3 : sentTo P x1 x2 -> sentTo P x2 x3 -> sentTo P x1 x3.
Proof.
  intros (l1 & E1 & H1) (l2 & E2 & H2). exists (l1 ++ l2). split; [by rewrite E2, E1, app_assoc|]. by apply Forall_app.
Qed.

Lemma sendAll_fits x node packets x' :
  nc_packetBufferSize nc <= MaxUint32 -> Forall (fun b => len b + envelopeOverhead cfg nc <= nc_packetBufferSize nc) packets ->
  sendAll cfg nc nonceAt x node packets = Some x' -> sentTo (fun a => a = FullAddress node) x x'.
Proof.
  intros Hb Hp. revert x. induction Hp as [|b packets Hb1 _ IH]; intros x; cbn [sendAll]; [intros [= <-]; apply sentTo_refl|].
  destruct (rawSendMsgPacket cfg nc nonceAt x (FullAddress node) (Some node) b) as [[r x1]|] eqn:E; [|done]. cbn [sendLogged mbind option_bind].
  intros H. eapply sentTo_trans; [|by apply IH]. by eapply rawSendMsgPacket_sent.
Qed.

Lemma framed_nonneg o l : 0 <= o -> 0 <= framed o l.
Proof. intros Ho. unfold framed. induction l as [|m l IH]; cbn [foldr]; [done|]. pose proof (len_nonneg m). lia. Qed.

(** Splitting a compound message only makes the parts shorter. *)
Lemma compounds_fit msgs limit : framed compoundOverhead msgs <= limit ->
  Forall (fun b => len b <= compoundHeaderOverhead + limit) (makeCompoundMessages msgs).
Proof.
  unfold makeCompoundMessages. intros Hl. enough (Hx : forall fuel msgs out, framed compoundOverhead msgs <= limit ->
    Forall (fun b => len b <= compoundHeaderOverhead + limit) out ->
    Forall (fun b => len b <= compoundHeaderOverhead + limit) (makeCompoundLoop fuel msgs out)) by (by apply Hx).
  clear msgs Hl. induction fuel as [|fuel IH]; intros msgs out Hl Ho; cbn [makeCompoundLoop]; [done|].
  assert (Hsplit : framed compoundOverhead (take maxMsgs msgs) + framed compoundOverhead (drop maxMsgs msgs) <= limit)
    by (rewrite <- framed_app, take_drop; done).
  pose proof (framed_nonneg compoundOverhead (take maxMsgs msgs) ltac:(done)). pose proof (framed_nonneg compoundOverhead (drop maxMsgs msgs) ltac:(done)).
  destruct (maxMsgs <? length msgs)%nat; [apply IH; [lia|]|destruct (0 <? length msgs)%nat; [|done]];
    (apply Forall_app; split; [done|]; constructor; [|done]); rewrite len_compound; lia.
Qed.

Lemma gossipTo_fits x avail nodes x' :
  net_ok cfg nc x -> nc_packetBufferSize nc <= MaxUint32 -> compoundHeaderOverhead + avail + envelopeOverhead cfg nc <= nc_packetBufferSize nc ->
  gossipTo cfg nc nonceAt x avail nodes = Some x' -> sentTo (fun a => exists n, n ∈ nodes /\ a = FullAddress n) x x'.
Proof.
  intros Hx Hb Ha. revert x Hx. induction nodes as [|node nodes IH]; intros x Hx; cbn [gossipTo]; [intros [= <-]; apply sentTo_refl|].
  assert (Hweak : forall x x', sentTo (fun a => exists n, n ∈ nodes /\ a = FullAddress n) x x' \/ sentTo (fun a => a = FullAddress node) x x' ->
    sentTo (fun a => exists n, n ∈ node :: nodes /\ a = FullAddress n) x x').
  { intros y y' [(l & E & H)|(l & E & H)]; exists l; (split; [done|]); eapply Forall_impl; [exact H| |exact H|];
      [intros p [(n & Hin & Ep) Hl]|intros p [Ep Hl]]; (split; [|done]); [exists n; split; [by right|done]|exists node; split; [by left|done]]. }
  destruct (getBroadcasts_total nc x compoundOverhead avail (so_queue _ _ (no_state _ _ _ Hx))) as (msgs & x1 & E1 & H1); [done|].
  rewrite E1. cbn [mbind option_bind].
  destruct (getBroadcasts_within nc x compoundOverhead avail msgs x1 (so_queue _ _ (no_state _ _ _ Hx)) ltac:(done) E1) as (Hw & Es & _).
  pose proof (sv_ok _ _ _ _ _ (transmits_survives cfg nc x x1 Hx H1)) as Hx1.
  assert (H01 : sentTo (fun a => exists n, n ∈ node :: nodes /\ a = FullAddress n) x x1) by (exists []; by rewrite app_nil_r).
  assert (Hgo : forall packets, Forall (fun b => len b + envelopeOverhead cfg nc <= nc_packetBufferSize nc) packets ->
    (x2 ← sendAll cfg nc nonceAt x1 node packets; gossipTo cfg nc nonceAt x2 avail nodes) = Some x' ->
    sentTo (fun a => exists n, n ∈ node :: nodes /\ a = FullAddress n) x x').
  { intros packets Hp. destruct (sendAll_total cfg nc nonceAt Hk x1 node packets Hx1) as (x2 & E2 & H2). rewrite E2. cbn [mbind option_bind].
    intros H. eapply sentTo_trans; [exact H01|]. eapply sentTo_trans; [apply Hweak; right; by eapply sendAll_fits|].
    apply Hweak. left. apply IH; [|done]. by apply (transmits_survives cfg nc x1 x2). }
  destruct msgs as [|msg [|msg2 msgs]]; [by intros [= <-]| |]; apply Hgo.
  - constructor; [|done]. destruct Hw as [|Hw]; [done|]. unfold framed, compoundOverhead, compoundHeaderOverhead in *. cbn [foldr] in Hw. lia.
  - destruct Hw as [|Hw]; [done|]. eapply Forall_impl; [by apply compounds_fit|]. cbn. intros b Hl. lia.
Qed.

(** The budget of [gossip] leaves room for every envelope. *)
Lemma gossipBudget_fits b : gossipBudget cfg nc = Some b -> compoundHeaderOverhead + b + envelopeOverhead cfg nc <= nc_packetBufferSize nc.
Proof.
  unfold gossipBudget, envelopeOverhead, encrypting, encryptOverhead.
  destruct (vsn_cases cfg) as [-> | ->], (EncryptionEnabled nc), (nc_GossipVerifyOutgoing nc); cbn; intros [= <-]; unfold compoundHeaderOverhead, crcOverhead; lia.
Qed.
End Fits.

(** ** Lemmas: a ping and its ack *)

(** Nothing to piggyback. *)
Definition quiet {G D} {GC : GCM} (nc : NetConfig) (x : Net (G := G) (D := D)) : Prop :=
  nc_Delegate nc = false /\ NumQueued (m_broadcasts (x_m x)) = 0.

(** The receiver opens what the sender writes. *)
Record reaches {G D} {LZ : LZW} {GC : GCM} {TR : Transport} (cfgS : Config) (ncS : NetConfig) (nonceS : Z -> bytes) (ncR : NetConfig) : Prop := {
  re_label : nc_Label ncR = nc_Label ncS;
  re_check : nc_SkipInboundLabelCheck ncR = false;
  re_opens : forall (x : Net (G := G) (D := D)) a node msg x' wire,
    rawSendMsgPacket cfgS ncS nonceS x a node msg = Some (Ok tt, x') -> x_sent x' = x_sent x ++ [(a, wire)] ->
    if encrypting ncS then len (nonceS (x_nonces x)) = nonceSize /\ shares_key ncS ncR (nonceS (x_nonces x)) wire
    else EncryptionEnabled ncR = false;
}.

Section PingAck.
Context {GS GR : Type} {RS : Rand GS} {RR : Rand GR} {ML : MathLog} {LZ : LZW} {LL : LZWLaws} {GC : GCM} {GL : GCMLaws} {TR : Transport}.
Context {DS DR : Type} {ES : Delegates DS} {ER : Delegates DR}.
Context (cfgS cfgR : Config) (ncS ncR : NetConfig) (nonceS nonceR : Z -> bytes).

Lemma quiet_sendMsg (x : Net (G := GS) (D := DS)) a msg :
  quiet ncS x -> sendMsg cfgS ncS nonceS x a msg = rawSendMsgPacket cfgS ncS nonceS x a None msg.
Proof.
  intros [Hd Hq]. unfold sendMsg. set (avail := _ - labelOverhead _).
  assert (Hb : exists b, (if encrypting ncS then o ← encryptOverhead (encryptionVersion cfgS); Some (avail - o) else Some avail) = Some b).
  { destruct (encrypting ncS); [|by eexists]. destruct (encryptOverhead_some cfgS) as [o ->]. by eexists. }
  destruct Hb as [b ->]. cbn [mbind option_bind]. unfold getBroadcasts, GetBroadcasts. unfold NumQueued in Hq. rewrite Hq, Hd. cbn.
  do 2 f_equal. destruct x as [m]. unfold set_m, set_queue. cbn. rewrite app_nil_r. by destruct m.
Qed.

(** A small message that was sent is handled by whoever ingests the packet. *)
Lemma message_arrives (x x' : Net (G := GS) (D := DS)) a msgType m :
  reaches (G := GS) (D := DS) cfgS ncS nonceS ncR -> quiet ncS x -> plain (encode msgType m) -> len (encode msgType m) <= 65535 ->
  encodeAndSendMsg cfgS ncS nonceS x a msgType m = Some (Ok tt, x') ->
  exists wire, x_sent x' = x_sent x ++ [(a, wire)] /\ forall (y : Net (G := GR) (D := DR)) from ts now,
    ingestPacket cfgR ncR nonceR y wire from ts now = handleCommand cfgR ncR nonceR y (encode msgType m) from ts now.
Proof.
  intros [Hl Hc Ho] Hq Hp Hm Hs. unfold encodeAndSendMsg in Hs. rewrite quiet_sendMsg in Hs by done.
  destruct (packet_arrives cfgS ncS nonceS cfgR ncR nonceR x x' a None [encode msgType m]) as (wire & Ew & Hi); try done.
  - by constructor.
  - by constructor.
  - change maxPacketDecompressedBytes with 1048576. cbn [packed]. lia.
  - exists wire. split; [done|]. intros y from ts now. rewrite Hi by (by eapply Ho). cbn [handleParts].
    by destruct (handleCommand cfgR ncR nonceR y (encode msgType m) from ts now).
Qed.
End PingAck.

Lemma plain_encode t m : 0 <= t < 256 -> t <> compoundMsg -> t <> compressMsg -> t <> hasCrcMsg -> t <> hasLabelMsg -> plain (encode t m).
Proof.
  intros Ht H1 H2 H3 H4. exists t. rewrite encode_cons. split_and!; try done. unfold firstByte. cbn. f_equal. apply b2z_z2b_small. lia.
Qed.

Section Answer.
Context {G : Type} {RG : Rand G} {ML : MathLog} {LZ : LZW} {GC : GCM} {TR : Transport} {D : Type} {DL : Delegates D}.
Context (cfg : Config) (nc : NetConfig) (nonceAt : Z -> bytes).
Implicit Types x : Net (G := G) (D := D).

(** What a node makes of a ping that names it. *)
Lemma ping_answered x p from ts now :
  Ping_valid p -> len (encode pingMsg (MPing p)) <= 65535 -> Ping_Node p = c_Name cfg -> nc_Ping nc = false ->
  handleCommand cfg nc nonceAt x (encode pingMsg (MPing p)) from ts now =
    sendLogged (encodeAndSendMsg cfg nc nonceAt x (replyAddr (Ping_SourceAddr p) (Ping_SourcePort p) from, Ping_SourceNode p) ackRespMsg
      (MAckResp (MkAckResp (Ping_SeqNo p) None))).
Proof.
  intros Hv Hl Hn Hp. rewrite encode_cons in *. rewrite len_cons in Hl. unfold handleCommand. cbn [handleCommandIn].
  change (b2z (z2b pingMsg)) with pingMsg. change (pingMsg =? compoundMsg) with false. change (pingMsg =? compressMsg) with false.
  rewrite Z.eqb_refl. cbv iota. unfold handlePing.
  set (p' := MkPing (Ping_SeqNo p) (Ping_Node p) (emptyAsNil (Ping_SourceAddr p)) (Ping_SourcePort p) (Ping_SourceNode p)).
  assert (E : decode KPing (AppendMsgpack (MPing p) []) = Ok (MPing p')).
  { rewrite <- (app_nil_r (AppendMsgpack _ _)). apply reads_decode; [|rewrite app_nil_r; unfold MaxInt64; lia].
    apply reads_setting. by apply Ping_roundtrip. }
  rewrite E. cbn [Ping_Node p']. rewrite Hn, String.eqb_refl, andb_false_r, Hp.
  assert (Er : replyAddr (emptyAsNil (Ping_SourceAddr p)) (Ping_SourcePort p) from = replyAddr (Ping_SourceAddr p) (Ping_SourcePort p) from).
  { unfold replyAddr, emptyAsNil. destruct (Z.eqb_spec (len (slice_bytes (Ping_SourceAddr p))) 0) as [E0|]; [|done]. by rewrite E0. }
  cbn [Ping_SourceAddr Ping_SourcePort Ping_SourceNode Ping_SeqNo p']. by rewrite Er.
Qed.

(** What the prober makes of its ack. *)
Lemma ack_received x seqNo ch ah c from ts now :
  u32_ok seqNo -> k_ackHandlers (x_acks x) !! seqNo = Some ah -> ah_ackFn ah = AckToChannel ch ->
  k_chans (x_acks x) !! ch = Some c -> pc_acks c = [] -> 1 <= pc_cap c ->
  exists x' t', handleCommand cfg nc nonceAt x (encode ackRespMsg (MAckResp (MkAckResp seqNo None))) from ts now = Some x' /\
    receiveAck (x_acks x') ch = Some (AckMessage true None ts, t') /\ x_m x' = x_m x.
Proof.
  intros Hs Hh Hf Hc Hnil Hcap. pose proof (len_Ack seqNo) as Hl. rewrite encode_cons in *. rewrite len_cons in Hl.
  unfold handleCommand. cbn [handleCommandIn]. change (b2z (z2b ackRespMsg)) with ackRespMsg.
  change (ackRespMsg =? compoundMsg) with false. change (ackRespMsg =? compressMsg) with false.
  change (ackRespMsg =? pingMsg) with false. change (ackRespMsg =? indirectPingMsg) with false. rewrite Z.eqb_refl. cbv iota. unfold handleAck.
  assert (E : decode KAckResp (AppendMsgpack (MAckResp (MkAckResp seqNo None)) []) = Ok (MAckResp (MkAckResp seqNo None))).
  { rewrite <- (app_nil_r (AppendMsgpack _ _)). apply reads_decode; [|rewrite app_nil_r; unfold MaxInt64; lia].
    apply reads_setting, AckResp_roundtrip. by split. }
  rewrite E. unfold invokeAckHandler. cbn [Ack_SeqNo Ack_Payload]. rewrite Hh. unfold deliver. cbn [k_flight set_flight set_handlers].
  rewrite list_lookup_middle by done. rewrite Hf. set (t := set_flight _ _).
  assert (Ht : forall id, k_chans (stopAckTimer t id) !! ch = Some c).
  { intros id. unfold stopAckTimer. by destruct (k_timers t !! id). }
  unfold sendAck. rewrite Ht, Hnil. change (len []) with 0. rewrite (proj2 (Z.ltb_lt 0 (pc_cap c))) by lia.
  eexists _, _. split; [done|]. split; [|done]. unfold receiveAck. cbn [x_acks set_acks k_chans set_chans]. by rewrite lookup_insert_eq.
Qed.
End Answer.

Section Sent.
Context {G : Type} {RG : Rand G} {ML : MathLog} {LZ : LZW} {GC : GCM} {TR : Transport} {D : Type} {DL : Delegates D}.
Context (cfg : Config) (nc : NetConfig) (pb : ProbeConfig) (nonceAt : Z -> bytes).
Implicit Types x : Net (G := G) (D := D).

Lemma rawSendMsgPacket_same x a node msg r x' :
  rawSendMsgPacket cfg nc nonceAt x a node msg = Some (r, x') -> x_m x' = x_m x /\ x_acks x' = x_acks x.
Proof.
  assert (Hw : forall (y : Net (G := G) (D := D)) b r y', writePacket nc y a b = (r, y') -> x_m y' = x_m y /\ x_acks y' = x_acks y).
  { intros y b r0 y'. unfold writePacket. destruct (AddLabelHeaderToPacket _ _); by intros [= _ <-]. }
  unfold rawSendMsgPacket. destruct (_ && _); [by intros [= _ <-]|].
  destruct (match node with Some n => Ok (Some n) | None => _ end) as [node'|]; [|by intros [= _ <-]].
  destruct (encrypting nc); [|by intros [= ?%Hw]].
  destruct (nc_Keyring nc) as [k|]; [|done]. cbn [mbind option_bind]. destruct (primaryAEAD k) as [g|]; [|done]. by intros [= ?%Hw].
Qed.

(** A probe whose ping went out waits on channels of its own. *)
Definition waits (t : ackTable) (p : probing) : Prop :=
  exists ah c, k_ackHandlers t !! Ping_SeqNo (pr_ping p) = Some ah /\ ah_ackFn ah = AckToChannel (pr_chan p) /\
    k_chans t !! pr_chan p = Some c /\ pc_acks c = [] /\ 1 <= pc_cap c.

Lemma probeSend_alive x node now p x1 :
  st_State node = StateAlive -> quiet nc x -> probe_config_ok pb -> probeSend cfg nc pb nonceAt x node now = Some (PingSent, p, x1) ->
  (exists x0, encodeAndSendMsg cfg nc nonceAt x0 (FullAddress (st_Node node)) pingMsg (MPing (pr_ping p)) = Some (Ok tt, x1) /\
     x_sent x0 = x_sent x /\ quiet nc x0) /\
  x_m x1 = x_m x /\ waits (x_acks x1) p /\ pr_ping p = makePing cfg x (Ping_SeqNo (pr_ping p)) (st_Name node) /\ pr_node p = node.
Proof.
  intros Hst Hq [Hi _ _]. unfold probeSend, setupProbe. cbn [nextSeqNo makeChannels]. rewrite (proj2 (Z.ltb_ge _ 0)) by lia. cbn [mbind option_bind].
  rewrite bool_decide_true by done. set (x0 := set_acks x _). set (ping := makePing _ _ _ _).
  destruct (encodeAndSendMsg cfg nc nonceAt x0 _ pingMsg (MPing ping)) as [[r x2]|] eqn:E; [|done]. cbn [mbind option_bind].
  destruct r as [[]|e]; [|by destruct (failedRemote e)]. intros [= <- <-].
  assert (Hq0 : quiet nc x0) by exact Hq. pose proof E as E'. unfold encodeAndSendMsg in E'. rewrite quiet_sendMsg in E' by done.
  apply rawSendMsgPacket_same in E' as [Em Ea]. split_and!; [by exists x0|by rewrite Em| | |done].
  - rewrite Ea. unfold waits. subst x0 ping. unfold makePing. destruct (x_advertise x) as [sa sp]. cbn.
    eexists _, _. rewrite !lookup_insert_eq. split_and!; try done. cbn. lia.
  - subst ping. unfold makePing. by destruct (x_advertise x) as [sa sp].
Qed.
End Sent.

(** ** Properties *)

(** C13: Every member is probed in time: in a membership that does not change,
    whatever the place of the round robin, each node that is neither the local
    one nor dead or left is chosen within two ticks per listed node and one,
    though the list is shuffled in between; each tick ends, keeps the
    invariant, and chooses nothing but such members. *)
Theorem probe_complete {G} `{RandLaws G} `{MathLog} cfg (m : Memberlist (G := G)) probeIndex :
  state_ok cfg m -> 0 <= probeIndex ->
  (forall now, exists o m' i', probeNext cfg m probeIndex now = Some (o, m', i') /\ state_ok cfg m' /\ 0 <= i' /\
     forall s, o = Some s -> probed cfg s = true /\ members m' !! st_Name s = Some s) /\
  (forall name s nows, members m !! name = Some s -> name <> c_Name cfg -> DeadOrLeft s = false ->
     2 * len (t_nodes (m_table m)) + 1 <= len nows -> chosenBy cfg m probeIndex nows s).
Proof.
  intros Hok Hi. split.
  - intros now. apply probeFrom_total; [done..|]. unfold len, listed. rewrite length_map. lia.
  - intros name s nows Hs Hne Hd Hl. apply (chosen_eventually cfg m probeIndex nows name s); [done..| |].
    + unfold probed. rewrite Hd, (entry_name _ _ _ (so_table _ _ Hok) Hs). by rewrite (proj2 (String.eqb_neq _ _) Hne).
    + rewrite length_drop. unfold len, listed in *. rewrite length_map. lia.
Qed.

Lemma probe_complete_witness : chosenBy (exampleConfig "a") exampleState 1 (replicate 5 20) exampleB.
Proof.
  destruct (probe_complete (exampleConfig "a") exampleState 1) as [_ Hall]; [apply exampleState_ok|lia|].
  apply (Hall "b"%string exampleB (replicate 5 20)); [exact exampleB_known|discriminate|vm_compute; reflexivity|vm_compute; congruence].
Defined.

#[local] Existing Instance exampleTransport.
#[local] Existing Instance exampleDelegates.
#[local] Existing Instance exampleDelegates_laws.
#[local] Existing Instance storedLZW.
#[local] Existing Instance storedLZW_laws.
#[local] Existing Instance tagging.
#[local] Existing Instance tagging_laws.

Definition exampleProbe : ProbeConfig := MkProbeConfig 3 false None 3 1.

Lemma exampleProbe_ok : probe_config_ok exampleProbe.
Proof. constructor; vm_compute; intuition congruence. Qed.



(** C15: Gossip fits its packets and goes where it should: every packet a round
    writes is within the packet budget, checksum, label and encryption
    included, and is addressed to a member other than the local node that is
    alive, suspect, or dead for no longer than nodes are told about it. *)
Theorem gossip_fits {G D} `{RandLaws G} `{MathLog} `{LZW} `{GCMLaws} `{Transport} `{DelegateLaws D}
    cfg nc pb nonceAt (x : Net (G := G) (D := D)) now :
  keys_ok nc -> net_ok cfg nc x -> probe_config_ok pb -> (forall i, len (nonceAt i) = nonceSize) -> nc_packetBufferSize nc <= MaxUint32 ->
  exists x' l, gossip cfg nc pb nonceAt x now = Some x' /\ x_sent x' = x_sent x ++ l /\
    Forall (fun p => len p.2 <= nc_packetBufferSize nc /\
      exists s, members (x_m x) !! st_Name s = Some s /\ p.1 = FullAddress (st_Node s) /\ st_Name s <> c_Name cfg /\ st_State s <> StateLeft /\
        (st_State s = StateDead -> Since now (st_StateChange s) <= c_GossipToTheDeadTime cfg)) l.
Proof.
  intros Hk Hx Hp Hn Hb. unfold gossip. destruct Hp as [_ Hg _]. unfold_ints.
  destruct (random_nodes cfg nc x (pb_GossipNodes pb) (notGossiped cfg now) Hx) as (nodes & g & -> & _ & Hnodes); [lia|unfold MaxInt64; lia|].
  cbn [mbind option_bind]. pose proof (set_rng_survives cfg nc x g Hx) as Hrng.
  assert (Hbud : exists b, gossipBudget cfg nc = Some b).
  { unfold gossipBudget. destruct (EncryptionEnabled nc); [|by eexists]. destruct (encryptOverhead_some cfg) as [o ->]. by eexists. }
  destruct Hbud as [b Eb]. rewrite Eb. cbn [mbind option_bind].
  destruct (gossipTo_total cfg nc nonceAt Hk (set_m x (set_rng (x_m x) g)) b nodes (sv_ok _ _ _ _ _ Hrng)) as (x' & E & _). rewrite E.
  destruct (gossipTo_fits cfg nc nonceAt Hk Hn _ b nodes x' (sv_ok _ _ _ _ _ Hrng) Hb (gossipBudget_fits cfg nc b Eb) E) as (l & El & Hl).
  exists x', l. split_and!; [done|exact El|]. eapply Forall_impl; [exact Hl|]. intros p [(n & Hin & Ep) Hlen]. split; [done|].
  apply (proj1 (Forall_forall _ _) Hnodes) in Hin as (s & Hs & -> & Hex). exists s. split_and!; [exact Hs|done|..]; unfold notGossiped in Hex;
    (destruct (String.eqb_spec (st_Name s) (c_Name cfg)) as [|Hne]; [done|]); [done|by destruct (st_State s)|].
  intros Ed. rewrite Ed in Hex. by destruct (Z.gtb_spec (Since now (st_StateChange s)) (c_GossipToTheDeadTime cfg)).
Qed.

Lemma gossip_fits_witness :
  exists x' l, gossip (exampleConfig "a") exampleNet exampleProbe exampleNonce (exampleNode exampleState) 9 = Some x' /\ x_sent x' = l /\
    Forall (fun p => len p.2 <= 1400) l.
Proof.
  destruct (gossip_fits (exampleConfig "a") exampleNet exampleProbe exampleNonce (exampleNode exampleState) 9) as (x' & l & E & Hs & Hl);
    [apply netRing_ok|apply exampleNode_ok|apply exampleProbe_ok|reflexivity|vm_compute; congruence|].
  exists x', l. split; [exact E|]. split; [exact Hs|]. eapply Forall_impl; [exact Hl|]. intros p [Hp _]. exact Hp.
Defined.


(** Node [a] before it hears of a suspicion, with no delegate. *)
Definition calmNet : NetConfig :=
  MkNetConfig "dc1" false (Some netRing) true true true false 7946 2 1400 500 false false false.
Definition calmState : Memberlist (G := Z) :=
  default exampleStart (runInputs (exampleConfig "a") exampleStart (take 3 exampleTrace)).
Definition calmB : nodeState := default nilState (members calmState !! "b"%string).
Definition calmProber : Net (G := Z) (D := list bytes) := exampleNode (set_queue calmState (m_broadcasts exampleStart) [] (m_rng calmState)).
Definition calmProbe (x : Net (G := Z) (D := list bytes)) : pingSent * probing * Net :=
  default (PingLocalFailure, Probing calmB (MkPing 0 "" None 0 "") 0 0, x)
    (probeSend (exampleConfig "a") calmNet exampleProbe exampleNonce x calmB 12).
Definition calmAcked : Net (G := Z) (D := list bytes) :=
  match encodeAndSendMsg (exampleConfig "b") calmNet exampleNonce (exampleNode exampleStart)
    (replyAddr (exampleAddr 1) 7946 [], "a"%string) ackRespMsg (MAckResp (MkAckResp 1 None)) with
  | Some (_, y) => y
  | None => exampleNode exampleStart
  end.

Lemma calmB_alive : st_Name calmB = "b"%string /\ st_State calmB = StateAlive.
Proof. split; vm_compute; reflexivity. Qed.

Lemma exampleReaches name : reaches (G := Z) (D := list bytes) (exampleConfig name) calmNet exampleNonce calmNet.
Proof.
  constructor; [done..|]. intros x a node msg x' wire _ _. assert (Ee : encrypting calmNet = true) by (vm_compute; reflexivity). rewrite Ee.
  split; [reflexivity|]. split; [vm_compute; reflexivity|]. apply exampleShared.
Qed.

Lemma calmProbe_runs :
  probeSend (exampleConfig "a") calmNet exampleProbe exampleNonce calmProber calmB 12 = Some (PingSent, (calmProbe calmProber).1.2, (calmProbe calmProber).2).
Proof. vm_compute. reflexivity. Qed.



Lemma calmNode_ok : net_ok (exampleConfig "a") calmNet (exampleNode calmState).
Proof.
  constructor; [|constructor; cbn; try done; by intros ? ? ? ? ?%elem_of_nil|done|done].
  apply (reachable_ok (exampleConfig "a") 8 4 1), (runInputs_rtc _ _ (take 3 exampleTrace)). cbn [x_m exampleNode]. unfold calmState, exampleStart.
  destruct (runInputs (exampleConfig "a") _ _) as [m|] eqn:E; [done|]. vm_compute in E. discriminate.
Qed.

Lemma calmB_known : members calmState !! "b"%string = Some calmB.
Proof. unfold calmB. destruct (members calmState !! "b"%string) eqn:E; [done|]. vm_compute in E. discriminate. Qed.

Lemma calmNode_runs : probeSend (exampleConfig "a") calmNet exampleProbe exampleNonce (exampleNode calmState) calmB 12 =
  Some (PingSent, (calmProbe (exampleNode calmState)).1.2, (calmProbe (exampleNode calmState)).2).
Proof. vm_compute. reflexivity. Qed.

