(* ===== verification/LockQueue.v ===== *)
(** Bounded acquisition of the node lock, [src/memberlist.go]: [lockNodes], its
    queue of waiters and the helper that waits on the lock for them.

    Goroutines run step by step in any interleaving; what happens under the
    queue's own mutex is one step. A caller is identified by the channel it
    waits on, and a caller that spawns the helper does so in the step that
    queues it: a goroutine that starts later is one that is scheduled later. *)

From S2P Require Import Prelude.

(** ** State *)

(** Where a call is. *)
Inductive callerAt :=
| AtLock        (* a context that cannot end: waits for the lock itself *)
| AtTryLock
| AtEnqueue     (* the lock was not free *)
| AtSelect      (* queued: waits for its token or the end of its context *)
| AtDeregister  (* its context has ended *)
| AtToken       (* no longer queued: the token is for it *)
| AtRelease     (* has the token, and the lock with it *)
| Locked        (* returned nil: in its critical section *)
| Failed.       (* returned the error of the context *)

(** Who has [nodeLock]. *)
Inductive lockOwner := LockFree | OthersHold | CallerHolds (c : Z) | HelperHolds | HelperLeaves.

#[global] Instance callerAt_eq_dec : EqDecision callerAt.
Proof. solve_decision. Defined.
#[global] Instance lockOwner_eq_dec : EqDecision lockOwner.
Proof. solve_decision. Defined.

(** [lk_ready] are the channels that hold their token; [lk_helpers] counts the
    helper goroutines that wait for the lock, which have no other state. *)
Record lockNodesQueue := LockNodesQueue {
  lk_owner : lockOwner;
  lk_waiters : list Z;
  lk_parked : bool;
  lk_ready : gset Z;
  lk_helpers : nat;
  lk_callers : gmap Z callerAt;
}.

Implicit Types s : lockNodesQueue.

Definition newLockQueue : lockNodesQueue := LockNodesQueue LockFree [] false ∅ 0 ∅.

Definition set_owner s (o : lockOwner) : lockNodesQueue :=
  LockNodesQueue o (lk_waiters s) (lk_parked s) (lk_ready s) (lk_helpers s) (lk_callers s).
Definition goes s (c : Z) (pc : callerAt) : lockNodesQueue :=
  LockNodesQueue (lk_owner s) (lk_waiters s) (lk_parked s) (lk_ready s) (lk_helpers s) (<[c := pc]> (lk_callers s)).
Definition isAt s (c : Z) (pc : callerAt) : bool := bool_decide (lk_callers s !! c = Some pc).

(** ** [lockNodes] *)

(** The call, up to the lock or the attempt at it. *)
Definition lockNodes s (c : Z) (bounded expired : bool) : option lockNodesQueue :=
  if bool_decide (is_Some (lk_callers s !! c)) then None
  else Some (goes s c (if negb bounded then AtLock else if expired then Failed else AtTryLock)).

(** [nodeLock.Lock()] returns. *)
Definition lockUnbounded s (c : Z) : option lockNodesQueue :=
  if isAt s c AtLock && bool_decide (lk_owner s = LockFree) then Some (set_owner (goes s c Locked) (CallerHolds c)) else None.

(** [TryLock] takes a free lock; it may fail in any state. *)
Definition tryLock s (c : Z) (taken : bool) : option lockNodesQueue :=
  if isAt s c AtTryLock then
    if taken then if bool_decide (lk_owner s = LockFree) then Some (set_owner (goes s c Locked) (CallerHolds c)) else None
    else Some (goes s c AtEnqueue)
  else None.

Definition enqueueWaiter s (c : Z) : option lockNodesQueue :=
  if isAt s c AtEnqueue then
    let spawn := negb (lk_parked s) in
    Some (LockNodesQueue (lk_owner s) (lk_waiters s ++ [c]) true (lk_ready s) (if spawn then S (lk_helpers s) else lk_helpers s)
      (<[c := AtSelect]> (lk_callers s)))
  else None.

(** The caller receives its token. *)
Definition receiveToken s (c : Z) (from to : callerAt) : option lockNodesQueue :=
  if isAt s c from && bool_decide (c ∈ lk_ready s) then
    Some (LockNodesQueue (lk_owner s) (lk_waiters s) (lk_parked s) (lk_ready s ∖ {[c]}) (lk_helpers s) (<[c := to]> (lk_callers s)))
  else None.

Definition contextEnds s (c : Z) : option lockNodesQueue :=
  if isAt s c AtSelect then Some (goes s c AtDeregister) else None.

Fixpoint removeWaiter (c : Z) (waiters : list Z) : option (list Z) :=
  match waiters with
  | [] => None
  | w :: rest => if w =? c then Some rest else rest' ← removeWaiter c rest; Some (w :: rest')
  end.

Definition deregister s (c : Z) : option lockNodesQueue :=
  if isAt s c AtDeregister then
    match removeWaiter c (lk_waiters s) with
    | Some rest =>
        Some (LockNodesQueue (lk_owner s) rest (lk_parked s) (lk_ready s) (lk_helpers s) (<[c := Failed]> (lk_callers s)))
    | None => Some (goes s c AtToken)
    end
  else None.

(** [nodeLock.Unlock()], of a call that gives up or at the end of a critical
    section; of a lock that is free it is fatal. *)
Definition unlockNodes s : option lockNodesQueue :=
  if bool_decide (lk_owner s = LockFree) then None else Some (set_owner s LockFree).
Definition giveBack s (c : Z) : option lockNodesQueue := if isAt s c AtRelease then unlockNodes (goes s c Failed) else None.
Definition endSection s (c : Z) : option lockNodesQueue :=
  if isAt s c Locked then
    unlockNodes (LockNodesQueue (lk_owner s) (lk_waiters s) (lk_parked s) (lk_ready s) (lk_helpers s) (delete c (lk_callers s)))
  else None.

(** ** [lockNodesHelper] *)

Definition helperLock s : option lockNodesQueue :=
  match lk_helpers s with
  | O => None
  | S n =>
      if bool_decide (lk_owner s = LockFree) then
        Some (LockNodesQueue HelperHolds (lk_waiters s) (lk_parked s) (lk_ready s) n (lk_callers s))
      else None
  end.

(** The helper hands the lock over, and goes on, ends or leaves. *)
Definition helperPass s : option lockNodesQueue :=
  if bool_decide (lk_owner s = HelperHolds) then
    match lk_waiters s with
    | [] => Some (LockNodesQueue HelperLeaves [] false (lk_ready s) (lk_helpers s) (lk_callers s))
    | [w] => Some (LockNodesQueue (CallerHolds w) [] false ({[w]} ∪ lk_ready s) (lk_helpers s) (lk_callers s))
    | w :: rest => Some (LockNodesQueue (CallerHolds w) rest (lk_parked s) ({[w]} ∪ lk_ready s) (S (lk_helpers s)) (lk_callers s))
    end
  else None.

Definition helperUnlock s : option lockNodesQueue :=
  if bool_decide (lk_owner s = HelperLeaves) then unlockNodes s else None.

(** The rest of the program takes and releases the lock too. *)
Definition othersLock s : option lockNodesQueue := if bool_decide (lk_owner s = LockFree) then Some (set_owner s OthersHold) else None.
Definition othersUnlock s : option lockNodesQueue := if bool_decide (lk_owner s = OthersHold) then unlockNodes s else None.

(** ** Steps *)

(** A step of what is under way: no call, lock by others or end of a context
    is needed for it. *)
Inductive workStep : lockNodesQueue -> lockNodesQueue -> Prop :=
| work_lock s s' c : lockUnbounded s c = Some s' -> workStep s s'
| work_try s s' c taken : tryLock s c taken = Some s' -> workStep s s'
| work_enqueue s s' c : enqueueWaiter s c = Some s' -> workStep s s'
| work_ready s s' c : receiveToken s c AtSelect Locked = Some s' -> workStep s s'
| work_deregister s s' c : deregister s c = Some s' -> workStep s s'
| work_token s s' c : receiveToken s c AtToken AtRelease = Some s' -> workStep s s'
| work_back s s' c : giveBack s c = Some s' -> workStep s s'
| work_end s s' c : endSection s c = Some s' -> workStep s s'
| work_helperLock s s' : helperLock s = Some s' -> workStep s s'
| work_helperPass s s' : helperPass s = Some s' -> workStep s s'
| work_helperUnlock s s' : helperUnlock s = Some s' -> workStep s s'
| work_others s s' : othersUnlock s = Some s' -> workStep s s'.

(** With the ends of contexts. *)
Inductive innerStep : lockNodesQueue -> lockNodesQueue -> Prop :=
| inner_work s s' : workStep s s' -> innerStep s s'
| inner_ends s s' c : contextEnds s c = Some s' -> innerStep s s'.

Inductive lockStep : lockNodesQueue -> lockNodesQueue -> Prop :=
| lock_inner s s' : innerStep s s' -> lockStep s s'
| lock_call s s' c bounded expired : lockNodes s c bounded expired = Some s' -> lockStep s s'
| lock_others s s' : othersLock s = Some s' -> lockStep s s'.

(** ** The invariant *)

(** A call neither waits for the lock nor has it, waits in the queue, has it
    with its token still in the channel, or has it. *)
Inductive standing := Outside | Queued | Handed | Holding.

Definition stands s (c : Z) (t : standing) : Prop :=
  match t with
  | Outside => (c ∉ lk_waiters s) /\ (c ∉ lk_ready s) /\ lk_owner s <> CallerHolds c
  | Queued => (c ∈ lk_waiters s) /\ (c ∉ lk_ready s) /\ lk_owner s <> CallerHolds c
  | Handed => (c ∉ lk_waiters s) /\ (c ∈ lk_ready s) /\ lk_owner s = CallerHolds c
  | Holding => (c ∉ lk_waiters s) /\ (c ∉ lk_ready s) /\ lk_owner s = CallerHolds c
  end.

Definition callerOk s (c : Z) (pc : option callerAt) : Prop :=
  match pc with
  | Some AtSelect | Some AtDeregister => stands s c Queued \/ stands s c Handed
  | Some AtToken => stands s c Handed
  | Some AtRelease | Some Locked => stands s c Holding
  | _ => stands s c Outside
  end.

(** The helpers that wait for the lock or have it to pass it on. *)
Definition liveHelpers s : nat := lk_helpers s + (if bool_decide (lk_owner s = HelperHolds) then 1 else 0).

Record lock_ok s : Prop := {
  lo_callers : forall c, callerOk s c (lk_callers s !! c);
  lo_nodup : NoDup (lk_waiters s);
  lo_helpers : liveHelpers s = (if lk_parked s then 1%nat else 0%nat);
  lo_parked : lk_waiters s <> [] -> lk_parked s = true;
}.

Lemma isAt_true s c pc : isAt s c pc = true -> lk_callers s !! c = Some pc.
Proof. unfold isAt. by intros ?%bool_decide_eq_true. Qed.

Lemma removeWaiter_spec c l :
  match removeWaiter c l with
  | Some l' => exists l1 l2, l = l1 ++ c :: l2 /\ l' = l1 ++ l2
  | None => c ∉ l
  end.
Proof.
  induction l as [|w l IH]; cbn [removeWaiter]; [apply not_elem_of_nil|]. destruct (Z.eqb_spec w c) as [->|Hne]; [by exists [], l|].
  destruct (removeWaiter c l) as [l'|]; cbn [mbind option_bind]; [|rewrite not_elem_of_cons; by split].
  destruct IH as (l1 & l2 & -> & ->). by exists (w :: l1), l2.
Qed.

(** What a step does to the caller that takes it and to the others. *)
Lemma callers_moved (s s' : lockNodesQueue) c pc :
  lk_callers s' = <[c := pc]> (lk_callers s) -> (forall d, callerOk s d (lk_callers s !! d)) ->
  callerOk s' c (Some pc) -> (forall d t, d <> c -> stands s d t -> stands s' d t) -> forall d, callerOk s' d (lk_callers s' !! d).
Proof.
  intros E Hall Hc Hd d. rewrite E. destruct (decide (d = c)) as [->|Hne]; [by rewrite lookup_insert_eq|].
  rewrite lookup_insert_ne by done. specialize (Hall d). unfold callerOk in *. destruct (lk_callers s !! d) as [[]|]; intuition eauto.
Qed.

Ltac lock_step H :=
  repeat match type of H with
  | (if isAt ?s ?c ?pc && _ then _ else _) = Some _ => destruct (isAt s c pc) eqn:?; [cbn [andb] in H|done]
  | (if isAt ?s ?c ?pc then _ else _) = Some _ => destruct (isAt s c pc) eqn:?; [|done]
  | (if bool_decide ?P then _ else _) = Some _ => destruct (bool_decide_reflect P); try done
  end;
  repeat match goal with E : isAt _ _ _ = true |- _ => apply isAt_true in E end.

(** The other callers, and a caller that neither waits nor holds. *)
Ltac others := intros d t Hne; destruct t; cbn; set_solver.
Ltac move_caller s c H := eapply (callers_moved s _ c); [reflexivity|exact H| |others].

Lemma lockNodes_ok s s' c bounded expired : lock_ok s -> lockNodes s c bounded expired = Some s' -> lock_ok s'.
Proof.
  intros [H1 H2 H3 H4] H. unfold lockNodes in H. destruct (lk_callers s !! c) eqn:E; [done|]. injection H as <-. constructor; try done.
  move_caller s c H1. pose proof (H1 c) as Hc. rewrite E in Hc.
  destruct bounded; [destruct expired|]; exact Hc.
Qed.

Lemma locked_ok s c pc :
  lock_ok s -> lk_callers s !! c = Some pc -> stands s c Outside -> lk_owner s = LockFree -> lock_ok (set_owner (goes s c Locked) (CallerHolds c)).
Proof.
  intros [H1 H2 H3 H4] E Hc Ho. constructor; try done.
  - eapply (callers_moved s _ c); [reflexivity|exact H1|cbn in *; set_solver|]. intros d t Hne. destruct t; cbn; rewrite Ho; set_solver.
  - unfold liveHelpers in *. rewrite Ho in H3. exact H3.
Qed.

Lemma lockUnbounded_ok s s' c : lock_ok s -> lockUnbounded s c = Some s' -> lock_ok s'.
Proof.
  intros Hs H. unfold lockUnbounded in H. lock_step H. injection H as <-. eapply locked_ok; try done.
  pose proof (lo_callers _ Hs c) as Hc. by rewrite Heqb in Hc.
Qed.

Lemma tryLock_ok s s' c taken : lock_ok s -> tryLock s c taken = Some s' -> lock_ok s'.
Proof.
  intros Hs H. unfold tryLock in H. lock_step H. pose proof (lo_callers _ Hs c) as Hc. rewrite Heqb in Hc. destruct taken.
  - lock_step H. injection H as <-. by eapply locked_ok.
  - injection H as <-. destruct Hs as [H1 H2 H3 H4]. constructor; try done.
    move_caller s c H1; exact Hc.
Qed.

Lemma enqueueWaiter_ok s s' c : lock_ok s -> enqueueWaiter s c = Some s' -> lock_ok s'.
Proof.
  intros [H1 H2 H3 H4] H. unfold enqueueWaiter in H. lock_step H. injection H as <-. pose proof (H1 c) as Hc. rewrite Heqb in Hc. constructor.
  - move_caller s c H1; left; cbn in *; set_solver.
  - cbn. apply NoDup_app. split; [done|]. split; [|apply NoDup_singleton]. cbn in Hc. set_solver.
  - unfold liveHelpers in *. cbn. destruct (lk_parked s); cbn; lia.
  - done.
Qed.

Lemma receiveToken_ok s s' c from to :
  lock_ok s -> (from = AtSelect /\ to = Locked) \/ (from = AtToken /\ to = AtRelease) -> receiveToken s c from to = Some s' -> lock_ok s'.
Proof.
  intros [H1 H2 H3 H4] Hft H. unfold receiveToken in H. lock_step H. injection H as <-. pose proof (H1 c) as Hc. rewrite Heqb in Hc. constructor; try done.
  move_caller s c H1. destruct Hft as [[-> ->]|[-> ->]]; cbn in *; set_solver.
Qed.

Lemma contextEnds_ok s s' c : lock_ok s -> contextEnds s c = Some s' -> lock_ok s'.
Proof.
  intros [H1 H2 H3 H4] H. unfold contextEnds in H. lock_step H. injection H as <-. pose proof (H1 c) as Hc. rewrite Heqb in Hc. constructor; try done.
  move_caller s c H1; exact Hc.
Qed.

Lemma deregister_ok s s' c : lock_ok s -> deregister s c = Some s' -> lock_ok s'.
Proof.
  intros [H1 H2 H3 H4] H. unfold deregister in H. lock_step H. pose proof (H1 c) as Hc. rewrite Heqb in Hc.
  pose proof (removeWaiter_spec c (lk_waiters s)) as Hr. destruct (removeWaiter c (lk_waiters s)) as [rest|]; injection H as <-.
  - destruct Hr as (l1 & l2 & E & ->). rewrite E in H2. apply NoDup_app in H2 as (N1 & N2 & [N3 N4]%NoDup_cons).
    constructor; try done.
    + eapply (callers_moved s _ c); [reflexivity|exact H1|cbn in *; rewrite E in Hc; set_solver|]. intros d t Hne. destruct t; cbn; rewrite E; set_solver.
    + cbn. apply NoDup_app. set_solver.
    + intros _. apply H4. rewrite E. by destruct l1.
  - constructor; try done. move_caller s c H1; cbn in *; set_solver.
Qed.

Lemma giveBack_ok s s' c : lock_ok s -> giveBack s c = Some s' -> lock_ok s'.
Proof.
  intros [H1 H2 H3 H4] H. unfold giveBack, unlockNodes in H. lock_step H. injection H as <-. pose proof (H1 c) as Hc. rewrite Heqb in Hc.
  destruct Hc as (C1 & C2 & C3). constructor; try done.
  - eapply (callers_moved s _ c); [reflexivity|exact H1|cbn; set_solver|]. intros d t Hne. destruct t; cbn; rewrite C3; set_solver.
  - unfold liveHelpers in *. rewrite C3 in H3. exact H3.
Qed.

Lemma endSection_ok s s' c : lock_ok s -> endSection s c = Some s' -> lock_ok s'.
Proof.
  intros [H1 H2 H3 H4] H. unfold endSection, unlockNodes in H. lock_step H. injection H as <-. pose proof (H1 c) as Hc. rewrite Heqb in Hc.
  destruct Hc as (C1 & C2 & C3). constructor; try done.
  - intros d. cbn. destruct (decide (d = c)) as [->|Hne]; [rewrite lookup_delete_eq; cbn; set_solver|]. rewrite lookup_delete_ne by done.
    pose proof (H1 d) as Hd. destruct (lk_callers s !! d) as [[]|]; cbn in *; rewrite C3 in Hd; set_solver.
  - unfold liveHelpers in *. rewrite C3 in H3. exact H3.
Qed.

(** A step that only moves the lock between those who are no callers. *)
Lemma owner_moved s s' :
  lk_callers s' = lk_callers s -> lk_waiters s' = lk_waiters s -> lk_ready s' = lk_ready s ->
  (forall c, lk_owner s <> CallerHolds c) -> (forall c, lk_owner s' <> CallerHolds c) ->
  (forall d, callerOk s d (lk_callers s !! d)) -> forall d, callerOk s' d (lk_callers s' !! d).
Proof.
  intros E1 E2 E3 N1 N2 Hall d. specialize (Hall d). specialize (N1 d). specialize (N2 d). rewrite E1.
  destruct (lk_callers s !! d) as [[]|]; cbn in *; rewrite E2, E3; tauto.
Qed.

Lemma helperLock_ok s s' : lock_ok s -> helperLock s = Some s' -> lock_ok s'.
Proof.
  intros [H1 H2 H3 H4] H. unfold helperLock in H. destruct (lk_helpers s) as [|n] eqn:En; [done|]. lock_step H. injection H as <-. constructor; try done.
  - apply (owner_moved s); try done. by rewrite e.
  - unfold liveHelpers in *. rewrite e, En, bool_decide_false in H3 by done. cbn [lk_owner lk_helpers lk_parked]. rewrite bool_decide_true by done. lia.
Qed.

Lemma helperPass_ok s s' : lock_ok s -> helperPass s = Some s' -> lock_ok s'.
Proof.
  intros [H1 H2 H3 H4] H. unfold helperPass in H. lock_step H. unfold liveHelpers in H3. rewrite e in H3. rewrite bool_decide_true in H3 by done.
  assert (Hpass : forall w rest parked n, lk_waiters s = w :: rest -> forall d,
    callerOk (LockNodesQueue (CallerHolds w) rest parked ({[w]} ∪ lk_ready s) n (lk_callers s)) d (lk_callers s !! d)).
  { intros w rest parked n Ew d. pose proof (H1 d) as Hd. rewrite Ew in H2. apply NoDup_cons in H2 as [Hw _].
    destruct (lk_callers s !! d) as [[]|]; cbn in *; rewrite e, Ew in Hd; set_solver. }
  destruct (lk_waiters s) as [|w rest] eqn:Ew.
  - injection H as <-. constructor; [|done| |done].
    + apply (owner_moved s); try done. by rewrite e.
    + unfold liveHelpers. cbn [lk_owner lk_helpers lk_parked]. rewrite bool_decide_false by done. destruct (lk_parked s); lia.
  - assert (Hr : NoDup rest) by (by apply NoDup_cons in H2 as [_ ?]). rewrite H4 in H3 by done.
    destruct rest as [|w2 rest]; injection H as <-; (constructor; [by apply Hpass|done| |intros ?; first [done|by apply H4]]);
      unfold liveHelpers; cbn [lk_owner lk_helpers lk_parked]; rewrite bool_decide_false by done; rewrite ?H4 by done; lia.
Qed.

Lemma unlockNodes_ok s s' o :
  lock_ok s -> lk_owner s = o -> o <> HelperHolds -> (forall c, o <> CallerHolds c) -> unlockNodes s = Some s' -> lock_ok s'.
Proof.
  intros [H1 H2 H3 H4] Ho Hn Hc H. unfold unlockNodes in H. lock_step H. injection H as <-. constructor; try done.
  - apply (owner_moved s); try done. by rewrite Ho.
  - unfold liveHelpers in *. rewrite Ho, bool_decide_false in H3 by done. exact H3.
Qed.

Lemma othersLock_ok s s' : lock_ok s -> othersLock s = Some s' -> lock_ok s'.
Proof.
  intros [H1 H2 H3 H4] H. unfold othersLock in H. lock_step H. injection H as <-. constructor; try done.
  - apply (owner_moved s); try done. by rewrite e.
  - unfold liveHelpers in *. rewrite e in H3. exact H3.
Qed.

Lemma workStep_ok s s' : lock_ok s -> workStep s s' -> lock_ok s'.
Proof.
  intros Hs H. destruct H.
  - by eapply lockUnbounded_ok.
  - by eapply tryLock_ok.
  - by eapply enqueueWaiter_ok.
  - eapply receiveToken_ok; [done| |done]. by left.
  - by eapply deregister_ok.
  - eapply receiveToken_ok; [done| |done]. by right.
  - by eapply giveBack_ok.
  - by eapply endSection_ok.
  - by eapply helperLock_ok.
  - by eapply helperPass_ok.
  - unfold helperUnlock in H. lock_step H. by eapply unlockNodes_ok.
  - unfold othersUnlock in H. lock_step H. by eapply unlockNodes_ok.
Qed.

Lemma innerStep_ok s s' : lock_ok s -> innerStep s s' -> lock_ok s'.
Proof. intros Hs H. destruct H; [by eapply workStep_ok|by eapply contextEnds_ok]. Qed.

Lemma lockStep_ok s s' : lock_ok s -> lockStep s s' -> lock_ok s'.
Proof. intros Hs H. destruct H; [by eapply innerStep_ok|by eapply lockNodes_ok|by eapply othersLock_ok]. Qed.

Lemma newLockQueue_ok : lock_ok newLockQueue.
Proof. constructor; [|constructor|done|done]. intros c. cbn. rewrite lookup_empty. cbn. set_solver. Qed.

Lemma lock_reachable s : rtc lockStep newLockQueue s -> lock_ok s.
Proof. intros H. apply (rtc_ind_r lock_ok newLockQueue newLockQueue_ok) in H; [done|]. intros y z _ Hst Hy. by eapply lockStep_ok. Qed.

(** ** Termination *)

(** More than the steps a call, a waiter or a holder has left. *)
Definition callWeight (pc : callerAt) : nat :=
  match pc with
  | AtTryLock => 13 | AtEnqueue => 12 | AtSelect => 5 | AtDeregister => 4 | AtToken => 3
  | AtRelease => 2 | AtLock => 2 | Locked => 1 | Failed => 0
  end.
Definition ownerWeight (o : lockOwner) : nat :=
  match o with HelperHolds => 2 | HelperLeaves | OthersHold => 1 | _ => 0 end.
Definition lockWork s : nat := totalWeight callWeight (lk_callers s) + ownerWeight (lk_owner s) + 3 * lk_helpers s + 2 * length (lk_waiters s).

Ltac weigh :=
  match goal with
  | E : lk_callers ?s !! ?c = Some ?pc |- context [<[?c := ?pc']> (lk_callers ?s)] =>
      let W := fresh in pose proof (totalWeight_insert callWeight (lk_callers s) c pc pc' E) as W; cbn [callWeight] in W
  | E : lk_callers ?s !! ?c = Some ?pc |- context [delete ?c (lk_callers ?s)] =>
      let W := fresh in pose proof (totalWeight_delete callWeight (lk_callers s) c pc E) as W; cbn [callWeight] in W
  end.

(** No step of what is under way can be taken for ever. *)
Lemma innerStep_less s s' : innerStep s s' -> (lockWork s' < lockWork s)%nat.
Proof.
  intros H. unfold lockWork. destruct H as [s s' H|s s' c H].
  2: { unfold contextEnds in H. lock_step H. injection H as <-. cbn. weigh. lia. }
  destruct H as [s s' c H|s s' c taken H|s s' c H|s s' c H|s s' c H|s s' c H|s s' c H|s s' c H|s s' H|s s' H|s s' H|s s' H].
  - unfold lockUnbounded in H. lock_step H. injection H as <-. cbn. weigh. rewrite e. cbn. lia.
  - unfold tryLock in H. lock_step H. destruct taken; [lock_step H|]; injection H as <-; cbn; weigh; [rewrite e; cbn|]; lia.
  - unfold enqueueWaiter in H. lock_step H. injection H as <-. cbn. weigh. rewrite length_app. destruct (lk_parked s); cbn; lia.
  - unfold receiveToken in H. lock_step H. injection H as <-. cbn. weigh. lia.
  - unfold deregister in H. lock_step H. pose proof (removeWaiter_spec c (lk_waiters s)) as Hr. destruct (removeWaiter c (lk_waiters s)) as [rest|];
      injection H as <-; cbn; weigh; [|lia]. destruct Hr as (l1 & l2 & -> & ->). rewrite !length_app. cbn. lia.
  - unfold receiveToken in H. lock_step H. injection H as <-. cbn. weigh. lia.
  - unfold giveBack, unlockNodes in H. lock_step H. injection H as <-. cbn. weigh. lia.
  - unfold endSection, unlockNodes in H. lock_step H. injection H as <-. cbn. weigh. lia.
  - unfold helperLock in H. destruct (lk_helpers s) eqn:En; [done|]. lock_step H. injection H as <-. rewrite e. cbn. lia.
  - unfold helperPass in H. lock_step H. rewrite e. destruct (lk_waiters s) as [|w [|w2 rest]]; injection H as <-; cbn; lia.
  - unfold helperUnlock, unlockNodes in H. lock_step H. injection H as <-. cbn. rewrite e. cbn. lia.
  - unfold othersUnlock, unlockNodes in H. lock_step H. injection H as <-. cbn. rewrite e. cbn. lia.
Qed.

Lemma innerSteps_bounded n s s' : nsteps innerStep n s s' -> (n <= lockWork s)%nat.
Proof. apply nsteps_measure, innerStep_less. Qed.

(** ** Progress *)

Lemma isAt_self s c pc : lk_callers s !! c = Some pc -> isAt s c pc = true.
Proof. intros H. unfold isAt. by rewrite bool_decide_true. Qed.

Lemma owner_progress s : lock_ok s -> lk_owner s <> LockFree -> exists s', workStep s s'.
Proof.
  intros Hs Ho. destruct (lk_owner s) as [| |c| |] eqn:E; [done|..].
  - eexists. apply work_others. unfold othersUnlock, unlockNodes. by rewrite !E.
  - pose proof (lo_callers _ Hs c) as Hc. destruct (lk_callers s !! c) as [[]|] eqn:Ec; cbn in Hc; try naive_solver.
    + destruct Hc as [?|(_ & Hr & _)]; [naive_solver|]. eexists. eapply work_ready. unfold receiveToken. by rewrite isAt_self, bool_decide_true.
    + assert (Hd : exists s', deregister s c = Some s').
      { unfold deregister. rewrite isAt_self by done. destruct (removeWaiter c _); by eexists. }
      destruct Hd as [s' ?]. exists s'. by eapply work_deregister.
    + eexists. eapply work_token. unfold receiveToken. rewrite isAt_self by done. by rewrite bool_decide_true by naive_solver.
    + eexists. eapply work_back. unfold giveBack, unlockNodes. rewrite isAt_self by done. cbn. by rewrite E.
    + eexists. eapply work_end. unfold endSection, unlockNodes. rewrite isAt_self by done. cbn. by rewrite E.
  - assert (Hd : exists s', helperPass s = Some s').
    { unfold helperPass. rewrite E. destruct (lk_waiters s) as [|w [|]]; by eexists. }
    destruct Hd as [s' ?]. exists s'. by eapply work_helperPass.
  - eexists. apply work_helperUnlock. unfold helperUnlock, unlockNodes. by rewrite !E.
Qed.

Lemma idle_clean s :
  lock_ok s -> (forall s', ~ workStep s s') ->
  lk_owner s = LockFree /\ lk_waiters s = [] /\ lk_parked s = false /\ lk_ready s = ∅ /\ lk_helpers s = 0%nat /\
  forall c pc, lk_callers s !! c = Some pc -> pc = Failed.
Proof.
  intros Hs Hidle. assert (Ho : lk_owner s = LockFree).
  { destruct (decide (lk_owner s = LockFree)) as [|Hne]; [done|]. by destruct (owner_progress s Hs Hne) as [s' ?%Hidle]. }
  assert (Hh : lk_helpers s = 0%nat).
  { destruct (lk_helpers s) as [|n] eqn:E; [done|]. edestruct Hidle. apply work_helperLock. unfold helperLock. by rewrite E, Ho. }
  assert (Hp : lk_parked s = false).
  { pose proof (lo_helpers _ Hs) as Hl. unfold liveHelpers in Hl. rewrite Ho, Hh in Hl. by destruct (lk_parked s). }
  assert (Hw : lk_waiters s = []).
  { destruct (lk_waiters s) eqn:E; [done|]. pose proof (lo_parked _ Hs) as Hq. rewrite E in Hq. rewrite Hq in Hp; done. }
  assert (Hc : forall c, (c ∉ lk_ready s) /\ forall pc, lk_callers s !! c = Some pc -> pc = Failed).
  { intros c. pose proof (lo_callers _ Hs c) as Hc. destruct (lk_callers s !! c) as [[]|] eqn:Ec; cbn in Hc; rewrite Ho, Hw in Hc;
      try (split; [set_solver|naive_solver]); try (exfalso; set_solver); exfalso.
    - eapply Hidle, work_lock. unfold lockUnbounded. by rewrite isAt_self, Ho.
    - eapply Hidle, (work_try _ _ c false). unfold tryLock. by rewrite isAt_self.
    - eapply Hidle, work_enqueue. unfold enqueueWaiter. by rewrite isAt_self. }
  split_and!; try done; [|intros c; apply Hc]. apply elem_of_equiv_empty_L. intros c. apply Hc.
Qed.

(** ** Order *)

Definition before (a b : Z) (l : list Z) : Prop := exists l1 l2 l3, l = l1 ++ a :: l2 ++ b :: l3.

Lemma handed_in_order s s' a b : lock_ok s -> lockStep s s' -> before a b (lk_waiters s) -> lk_owner s' <> CallerHolds b.
Proof.
  intros Hs H (l1 & l2 & l3 & Ew). pose proof (lo_callers _ Hs b) as Hb. pose proof (lo_nodup _ Hs) as Hn.
  assert (Hin : b ∈ lk_waiters s) by (rewrite Ew; set_solver).
  assert (Hown : lk_owner s <> CallerHolds b) by (destruct (lk_callers s !! b) as [[]|]; cbn in Hb; naive_solver).
  destruct H as [s s' H|s s' c bounded expired H|s s' H].
  - destruct H as [s s' H|s s' c H].
    2: { unfold contextEnds in H. lock_step H. by injection H as <-. }
    destruct H as [s s' c H|s s' c taken H|s s' c H|s s' c H|s s' c H|s s' c H|s s' c H|s s' c H|s s' H|s s' H|s s' H|s s' H].
    + unfold lockUnbounded in H. lock_step H. injection H as <-. cbn. intros [= ->]. rewrite Heqb0 in Hb. cbn in Hb. naive_solver.
    + unfold tryLock in H. lock_step H. destruct taken; [lock_step H|]; injection H as <-; cbn; [|done]. intros [= ->]. rewrite Heqb0 in Hb. cbn in Hb. naive_solver.
    + unfold enqueueWaiter in H. lock_step H. by injection H as <-.
    + unfold receiveToken in H. lock_step H. by injection H as <-.
    + unfold deregister in H. lock_step H. destruct (removeWaiter c _); by injection H as <-.
    + unfold receiveToken in H. lock_step H. by injection H as <-.
    + unfold giveBack, unlockNodes in H. lock_step H. by injection H as <-.
    + unfold endSection, unlockNodes in H. lock_step H. by injection H as <-.
    + unfold helperLock in H. destruct (lk_helpers s); [done|]. lock_step H. by injection H as <-.
    + unfold helperPass in H. lock_step H. rewrite Ew in Hn, H.
      assert (Hhead : forall w rest, l1 ++ a :: l2 ++ b :: l3 = w :: rest -> w <> b).
      { intros w rest E ->. destruct l1 as [|x l1]; cbn in E; injection E as -> <-; apply NoDup_cons in Hn as [Hn _]; set_solver. }
      destruct (l1 ++ a :: l2 ++ b :: l3) as [|w [|w2 rest]]; injection H as <-; cbn; [done|..]; intros [= ->]; by eapply Hhead.
    + unfold helperUnlock, unlockNodes in H. lock_step H. by injection H as <-.
    + unfold othersUnlock, unlockNodes in H. lock_step H. by injection H as <-.
  - unfold lockNodes in H. lock_step H. by injection H as <-.
  - unfold othersLock in H. lock_step H. by injection H as <-.
Qed.

(** A schedule of steps, each chosen by name. *)
Inductive lockOp := OpOthersLock | OpOthersUnlock | OpCall (c : Z) | OpBusy (c : Z) | OpEnqueue (c : Z) | OpHelperLock | OpHelperPass.

Definition perform s (op : lockOp) : option lockNodesQueue :=
  match op with
  | OpOthersLock => othersLock s
  | OpOthersUnlock => othersUnlock s
  | OpCall c => lockNodes s c true false
  | OpBusy c => tryLock s c false
  | OpEnqueue c => enqueueWaiter s c
  | OpHelperLock => helperLock s
  | OpHelperPass => helperPass s
  end.

Fixpoint performAll s (ops : list lockOp) : option lockNodesQueue :=
  match ops with
  | [] => Some s
  | op :: ops => s ← perform s op; performAll s ops
  end.

Lemma perform_step s op s' : perform s op = Some s' -> lockStep s s'.
Proof.
  destruct op; cbn [perform]; intros H.
  2, 4-7: apply lock_inner, inner_work.
  all: eauto using workStep, lockStep.
Qed.

Lemma performAll_steps s ops s' : performAll s ops = Some s' -> rtc lockStep s s'.
Proof.
  revert s. induction ops as [|op ops IH]; intros s; cbn [performAll]; [by intros [= <-]|].
  destruct (perform s op) as [s1|] eqn:E; [|done]. cbn [mbind option_bind]. intros H. eapply rtc_l; [by eapply perform_step|by apply IH].
Qed.

(** Two calls queue up behind another holder, who releases the lock; the
    helper hands it to the first. *)
Definition exampleSchedule : list lockOp :=
  [OpOthersLock; OpCall 1; OpBusy 1; OpEnqueue 1; OpCall 2; OpBusy 2; OpEnqueue 2; OpOthersUnlock; OpHelperLock; OpHelperPass].
Definition exampleHanded : lockNodesQueue := default newLockQueue (performAll newLockQueue exampleSchedule).

Lemma exampleHanded_reachable : rtc lockStep newLockQueue exampleHanded.
Proof.
  apply (performAll_steps _ exampleSchedule). unfold exampleHanded.
  destruct (performAll newLockQueue exampleSchedule) as [s|] eqn:E; [done|]. vm_compute in E. discriminate.
Qed.

(** ** Properties *)



(** Bounded locking drains: without new calls and new holders, whatever is
    under way ends after a number of steps that is bounded in advance, in any
    interleaving and with contexts ending at any time; and where nothing can
    go on without one, no call is left waiting for its lock or its token, the
    lock is free and no helper is left behind. *)
Theorem lockNodes_drains s :
  rtc lockStep newLockQueue s ->
  (forall n s', nsteps innerStep n s s' -> (n <= lockWork s)%nat) /\
  ((forall s', ~ workStep s s') ->
   lk_owner s = LockFree /\ lk_waiters s = [] /\ lk_parked s = false /\ lk_ready s = ∅ /\ lk_helpers s = 0%nat /\
   forall c pc, lk_callers s !! c = Some pc -> pc = Failed).
Proof. intros Hs%lock_reachable. split; [intros n s'; apply innerSteps_bounded|by apply idle_clean]. Qed.

Lemma lockNodes_drains_witness : lockWork exampleHanded = 15%nat /\ forall n s', nsteps innerStep n exampleHanded s' -> (n <= 15)%nat.
Proof. split; [vm_compute; reflexivity|]. exact (proj1 (lockNodes_drains exampleHanded exampleHanded_reachable)). Defined.
