(* ===== verification/NetTransport.v ===== *)
(** The standard transport, [src/net_transport.go], and the address it
    advertises, [src/netaddr.go].

    Sockets of the system are numbers; which ones are open is the state. What
    the system answers to a call is an argument, and so are the interfaces of
    the host. *)

From S2P Require Import Prelude NetAddr HostPort.

Definition udpPacketBufSize : Z := 65536.
Definition udpRecvBufSize : Z := 2 * 1024 * 1024.
Definition maxUDPPayloadSize : Z := 65507.

(** ** The system *)

(** The answers to the call that would open socket [i]: the address and port a
    TCP listener is bound to, whether a UDP listener could be bound, and
    whether a receive buffer of that size could be set. *)
Class Sockets := {
  ListenTCP : Z -> slice -> Z -> option (bytes * Z);
  ListenUDP : Z -> slice -> Z -> bool;
  SetReadBuffer : Z -> Z -> bool;
}.

(** A listener is bound to the port asked for, or, for port 0, to a free one. *)
Class SocketLaws `{Sockets} := {
  ListenTCP_port i ip port bound p : ListenTCP i ip port = Some (bound, p) -> (port <> 0 -> p = port) /\ p <> 0;
}.

Record sockets := MkSockets { sk_next : Z; sk_open : list Z }.

Definition openSocket (s : sockets) : Z * sockets := (sk_next s, MkSockets (sk_next s + 1) (sk_open s ++ [sk_next s])).
Definition closeSockets (s : sockets) (ids : list Z) : sockets :=
  MkSockets (sk_next s) (List.filter (fun i => negb (bool_decide (i ∈ ids))) (sk_open s)).

(** ** Listeners *)

Record tcpListener := TcpListener { ln_id : Z; ln_ip : bytes; ln_port : Z }.

Record NetTransport := MkNetTransport {
  nt_BindAddrs : list string;
  nt_tcpListeners : list tcpListener;
  nt_udpListeners : list Z;
}.

Inductive listenError := NoBindAddress | TCPListenFailed (addr : string) (port : Z) | UDPListenFailed (addr : string) (port : Z) | RecvBufFailed (id : Z).

Section Transport.
Context {OS : Sockets}.

(** The loop of [setUDPRecvBuf]: the size that was set. *)
Fixpoint recvBufLoop (fuel : nat) (id size : Z) : option Z :=
  match fuel with
  | O => None
  | S fuel =>
      if size >? 0 then
        if SetReadBuffer id size then Some size else recvBufLoop fuel id (size / 2)
      else None
  end.
Definition setUDPRecvBuf (id : Z) : option Z := recvBufLoop 64 id udpRecvBufSize.

(** The loop over the addresses: the port of the first listener is applied to
    everything else when none was given. *)
Fixpoint listenAll (s : sockets) (tcp : list tcpListener) (udp : list Z) (port : Z) (addrs : list string)
    : sockets * list tcpListener * list Z * option listenError :=
  match addrs with
  | [] => (s, tcp, udp, None)
  | addr :: addrs =>
      let ip := ParseIP (str2b addr) in
      match ListenTCP (sk_next s) ip port with
      | None => (s, tcp, udp, Some (TCPListenFailed addr port))
      | Some (bound, p) =>
          let '(id, s) := openSocket s in
          let tcp := tcp ++ [TcpListener id bound p] in
          let port := if port =? 0 then p else port in
          if ListenUDP (sk_next s) ip port then
            let '(uid, s) := openSocket s in
            match setUDPRecvBuf uid with
            | None => (s, tcp, udp, Some (RecvBufFailed uid))
            | Some _ => listenAll s tcp (udp ++ [uid]) port addrs
            end
          else (s, tcp, udp, Some (UDPListenFailed addr port))
      end
  end.

(** [Shutdown], of the listeners the transport knows. *)
Definition shutdownTransport (s : sockets) (t : NetTransport) : sockets :=
  closeSockets (closeSockets s (map ln_id (nt_tcpListeners t))) (nt_udpListeners t).

Definition NewNetTransport (s : sockets) (bindAddrs : list string) (bindPort : Z) : result listenError NetTransport * sockets :=
  match bindAddrs with
  | [] => (Err NoBindAddress, s)
  | _ =>
      let '(s, tcp, udp, e) := listenAll s [] [] bindPort bindAddrs in
      let t := MkNetTransport bindAddrs tcp udp in
      match e with
      | Some e => (Err e, shutdownTransport s t)
      | None => (Ok t, s)
      end
  end.
End Transport.

(** An index out of range panics. *)
Definition GetAutoBindPort (t : NetTransport) : option Z := ln_port <$> nt_tcpListeners t !! 0%nat.

(** ** The address to advertise *)

#[global] Instance Addr_eq_dec : EqDecision Addr.
Proof. solve_decision. Defined.

(** [Addr.As16] *)
Definition As16 (a : Addr) : bytes := match a with Addr4 v => v4InV6Prefix ++ be 4 v | Addr6 v => be 16 v end.

(** An address of an interface: an IP network, or something else. *)
Inductive ifaceAddr := IfaceNet (ip : bytes) (bits : Z) | IfaceOther.
Record iface := Iface { if_up : bool; if_addrs : option (list ifaceAddr) }.

Definition unmapped (ip : bytes) : option Addr := Unmap <$> AddrFromSlice ip.

(** The source addresses of the two probes that could be dialled. *)
Definition defaultSources (probes : list (option bytes)) : list Addr := omap (fun p => ip ← p; unmapped ip) probes.

(** The addresses of one interface. *)
Fixpoint ifaceCandidates (defaultSrc : list Addr) (addrs : list ifaceAddr) (cands : list advertiseCandidate) (isDefault : bool)
    : list advertiseCandidate * bool :=
  match addrs with
  | [] => (cands, isDefault)
  | IfaceOther :: addrs => ifaceCandidates defaultSrc addrs cands isDefault
  | IfaceNet ip bits :: addrs =>
      match unmapped ip with
      | None => ifaceCandidates defaultSrc addrs cands isDefault
      | Some a => ifaceCandidates defaultSrc addrs (cands ++ [Candidate a bits false]) (isDefault || bool_decide (a ∈ defaultSrc))
      end
  end.

(** The candidates of all interfaces and the ranges of the default ones. *)
Fixpoint allCandidates (defaultSrc : list Addr) (ifaces : list iface) (cands : list advertiseCandidate) (defaultIfaces : list (nat * nat))
    : list advertiseCandidate * list (nat * nat) :=
  match ifaces with
  | [] => (cands, defaultIfaces)
  | i :: ifaces =>
      match if_up i, if_addrs i with
      | true, Some addrs =>
          let '(cands', isDefault) := ifaceCandidates defaultSrc addrs cands false in
          allCandidates defaultSrc ifaces cands' (if isDefault then defaultIfaces ++ [(length cands, length cands')] else defaultIfaces)
      | _, _ => allCandidates defaultSrc ifaces cands defaultIfaces
      end
  end.

Definition markDefault (cands : list advertiseCandidate) (range : nat * nat) : list advertiseCandidate :=
  imap (fun j c => if (range.1 <=? j)%nat && (j <? range.2)%nat then Candidate (c_addr c) (c_bits c) true else c) cands.

Definition privateAdvertiseAddr (ifaces : option (list iface)) (probes : list (option bytes)) : option Addr :=
  ifaces ← ifaces;
  let '(cands, defaultIfaces) := allCandidates (defaultSources probes) ifaces [] [] in
  pickAdvertiseAddr (fold_left markDefault defaultIfaces cands).

Inductive advertiseError := BadAdvertiseAddr | NoPrivateAddr.

(** [FinalAdvertiseAddr]; [private] is what [privateAdvertiseAddr] answers. *)
Definition advertiseAddr (t : NetTransport) (private : option Addr) (ip : string) (port : Z) : option (result advertiseError (bytes * Z)) :=
  if negb (String.eqb ip "") then
    Some (match ParseIP (str2b ip) with
          | None => Err BadAdvertiseAddr
          | Some a => Ok (match To4 a with Some ip4 => ip4 | None => a end, port)
          end)
  else
    bind ← nt_BindAddrs t !! 0%nat;
    if String.eqb bind "0.0.0.0" then
      match private with
      | None => Some (Err NoPrivateAddr)
      | Some a => advertisePort ← GetAutoBindPort t; Some (Ok (As16 a, advertisePort))
      end
    else
      ln ← nt_tcpListeners t !! 0%nat;
      advertisePort ← GetAutoBindPort t;
      Some (Ok (ln_ip ln, advertisePort)).

(** ** Receiving *)

Definition baseDelay : Z := 5000000.
Definition maxDelay : Z := 1000000000.

(** What [AcceptTCP] and [ReadFrom] return: a connection or a packet, or an
    error, with the shutdown flag as it is read after one. *)
Inductive accepted := Accepted (conn : Z) | AcceptFailed (shutdown : bool).

(** A round of [tcpListen]: [None] is the end, otherwise the new delay, the
    connection handed on and how long it sleeps. *)
Definition tcpListen (loopDelay : Z) (a : accepted) : option (Z * option Z * Z) :=
  match a with
  | AcceptFailed true => None
  | AcceptFailed false =>
      let d := if loopDelay =? 0 then baseDelay else loopDelay * 2 in
      let d := if d >? maxDelay then maxDelay else d in
      Some (d, None, d)
  | Accepted conn => Some (0, Some conn, 0)
  end.

Inductive received := Received (buf : bytes) | ReadFailed (shutdown : bool).

(** A round of [udpListen]: the packet handed on, if any. *)
Definition udpListen (r : received) : option (option bytes) :=
  match r with
  | ReadFailed true => None
  | ReadFailed false => Some None
  | Received buf => if len buf <? 1 then Some None else Some (Some buf)
  end.

(** [IngestPacket], of the bytes a connection gave before its end or error. *)
Definition IngestPacket (data : option bytes) : result unit bytes :=
  match data with
  | None => Err tt
  | Some buf => if len buf <? 1 then Err tt else Ok buf
  end.

(** ** Lemmas: sockets *)

Section SocketLemmas.
Context {OS : Sockets} {OL : SocketLaws}.

(** The sockets a transport knows. *)
Definition owned (tcp : list tcpListener) (udp : list Z) : list Z := map ln_id tcp ++ udp.

(** [base] are the sockets of others; ids are not used twice. *)
Record holds (base : list Z) (s : sockets) (tcp : list tcpListener) (udp : list Z) : Prop := {
  ho_open : forall i, i ∈ sk_open s <-> i ∈ base \/ i ∈ owned tcp udp;
  ho_apart : forall i, i ∈ base -> ~ i ∈ owned tcp udp;
  ho_fresh : Forall (fun i => i < sk_next s) (sk_open s);
}.

Lemma owned_tcp tcp udp l i : i ∈ owned (tcp ++ [l]) udp <-> i ∈ owned tcp udp \/ i = ln_id l.
Proof. unfold owned. rewrite map_app. cbn. rewrite !elem_of_app, list_elem_of_singleton. tauto. Qed.

Lemma owned_udp tcp udp u i : i ∈ owned tcp (udp ++ [u]) <-> i ∈ owned tcp udp \/ i = u.
Proof. unfold owned. rewrite !elem_of_app, list_elem_of_singleton. tauto. Qed.

Lemma fresh_next s : Forall (fun i => i < sk_next s) (sk_open s) -> ~ sk_next s ∈ sk_open s.
Proof. intros H Hin. rewrite Forall_forall in H. specialize (H _ Hin). lia. Qed.

Lemma open_fresh s : Forall (fun i => i < sk_next s) (sk_open s) -> Forall (fun i => i < sk_next (openSocket s).2) (sk_open (openSocket s).2).
Proof. intros H. cbn. apply Forall_app. split; [|by repeat constructor; lia]. eapply Forall_impl; [exact H|]. cbn. lia. Qed.

Lemma holds_tcp base s tcp udp ip p :
  holds base s tcp udp -> holds base (openSocket s).2 (tcp ++ [TcpListener (sk_next s) ip p]) udp.
Proof.
  intros [H1 H2 H3]. pose proof (fresh_next s H3) as Hn. constructor; [| |by apply open_fresh].
  - intros i. cbn. rewrite elem_of_app, list_elem_of_singleton, owned_tcp, H1. cbn. tauto.
  - intros i Hb. rewrite owned_tcp. cbn. intros [Ho| ->]; [by eapply H2|]. apply Hn, H1. by left.
Qed.

Lemma holds_udp base s tcp udp : holds base s tcp udp -> holds base (openSocket s).2 tcp (udp ++ [sk_next s]).
Proof.
  intros [H1 H2 H3]. pose proof (fresh_next s H3) as Hn. constructor; [| |by apply open_fresh].
  - intros i. cbn. rewrite elem_of_app, list_elem_of_singleton, owned_udp, H1. tauto.
  - intros i Hb. rewrite owned_udp. intros [Ho| ->]; [by eapply H2|]. apply Hn, H1. by left.
Qed.

(** What the loop has opened when it ends. *)
Definition leaked (base : list Z) (s : sockets) (tcp : list tcpListener) (udp : list Z) (e : option listenError) : Prop :=
  match e with
  | Some (RecvBufFailed u) => (forall i, i ∈ sk_open s <-> (i ∈ base \/ i = u) \/ i ∈ owned tcp udp) /\
      (forall i, i ∈ base \/ i = u -> ~ i ∈ owned tcp udp) /\ ~ u ∈ base
  | _ => holds base s tcp udp
  end.

Lemma listenAll_sockets base addrs s tcp udp port s' tcp' udp' e :
  holds base s tcp udp -> listenAll s tcp udp port addrs = (s', tcp', udp', e) ->
  leaked base s' tcp' udp' e /\
  (e = None -> exists more moreU p, tcp' = tcp ++ more /\ udp' = udp ++ moreU /\ length more = length addrs /\ length moreU = length addrs /\
    (port <> 0 -> p = port) /\ p <> 0 /\ Forall (fun l => ln_port l = p) more).
Proof.
  revert s tcp udp port. induction addrs as [|addr addrs IH]; intros s tcp udp port Hs; cbn [listenAll].
  { intros [= <- <- <- <-]. split; [exact Hs|]. intros _. exists [], [], (if port =? 0 then 1 else port). rewrite !app_nil_r.
    split_and!; try done; destruct (Z.eqb_spec port 0); lia. }
  destruct (ListenTCP (sk_next s) (ParseIP (str2b addr)) port) as [[bound p]|] eqn:El; [|by intros [= <- <- <- <-]].
  destruct (ListenTCP_port _ _ _ _ _ El) as [Hp Hp0]. pose proof (holds_tcp base s tcp udp bound p Hs) as H1.
  cbn [openSocket] in *. set (s1 := (openSocket s).2) in *. change (MkSockets (sk_next s + 1) (sk_open s ++ [sk_next s])) with s1.
  set (tcp1 := tcp ++ _) in *. destruct (ListenUDP (sk_next s1) _ _); [|by intros [= <- <- <- <-]].
  pose proof (holds_udp base s1 tcp1 udp H1) as H2. change (MkSockets (sk_next s1 + 1) (sk_open s1 ++ [sk_next s1])) with (openSocket s1).2.
  destruct (setUDPRecvBuf (sk_next s1)) as [size|].
  - intros E. destruct (IH _ _ _ _ H2 E) as [HL Hmore]. split; [done|]. intros ->. destruct (Hmore eq_refl) as (more & moreU & q & -> & -> & E1 & E2 & Hq & Hq0 & Hall).
    assert (Hqp : q = p). { destruct (Z.eqb_spec port 0) as [Hz|Hz]; rewrite Hq by done; [done|]. symmetry. by apply Hp. }
    exists (TcpListener (sk_next s) bound p :: more), (sk_next s1 :: moreU), q. subst tcp1. rewrite <- !app_assoc. cbn [app length].
    split_and!; try done; [by f_equal..|intros Hz; rewrite Hqp; by apply Hp|]. constructor; [by rewrite Hqp|done].
  - intros [= <- <- <- <-]. split; [|done]. cbn [leaked]. destruct H1 as [A1 A2 A3]. pose proof (fresh_next s1 A3) as Hn. split_and!.
    + intros i. change (i ∈ sk_open s1 ++ [sk_next s1] <-> (i ∈ base \/ i = sk_next s1) \/ i ∈ owned tcp1 udp). rewrite elem_of_app, list_elem_of_singleton, A1. tauto.
    + intros i [Hb| ->]; [by apply A2|]. intros Ho. apply Hn, A1. by right.
    + intros Hb. apply Hn, A1. by left.
Qed.

Lemma close_open s ids i : i ∈ sk_open (closeSockets s ids) <-> i ∈ sk_open s /\ ~ i ∈ ids.
Proof. unfold closeSockets. cbn. rewrite !list_elem_of_In, filter_In, negb_true_iff, bool_decide_eq_false, !list_elem_of_In. tauto. Qed.

Lemma shutdown_open s t i : i ∈ sk_open (shutdownTransport s t) <-> i ∈ sk_open s /\ ~ i ∈ owned (nt_tcpListeners t) (nt_udpListeners t).
Proof. unfold shutdownTransport, owned. rewrite !close_open, elem_of_app. tauto. Qed.

Lemma holds_nothing s : Forall (fun i => i < sk_next s) (sk_open s) -> holds (sk_open s) s [] [].
Proof. intros H. constructor; [|by intros i _ ?%elem_of_nil|done]. intros i. unfold owned. cbn. rewrite elem_of_nil. tauto. Qed.
End SocketLemmas.

(** ** Lemmas: buffers *)

Section Buffers.
Context {OS : Sockets}.

(** The first size of the halvings the system takes, or none of them. *)
Lemma recvBufLoop_spec fuel id size :
  0 <= size < 2 ^ Z.of_nat fuel ->
  match recvBufLoop fuel id size with
  | Some s => exists k, 0 <= k /\ s = size / 2 ^ k /\ 0 < s /\ SetReadBuffer id s = true /\ forall j, 0 <= j < k -> SetReadBuffer id (size / 2 ^ j) = false
  | None => forall j, 0 <= j -> 0 < size / 2 ^ j -> SetReadBuffer id (size / 2 ^ j) = false
  end.
Proof.
  assert (Hhalf : forall n j, 0 <= j -> n / 2 / 2 ^ j = n / 2 ^ (1 + j)).
  { intros n j Hj. rewrite Z.div_div by (try apply Z.pow_pos_nonneg; lia). f_equal. rewrite Z.pow_add_r by lia. lia. }
  revert size. induction fuel as [|fuel IH]; intros size Hs; cbn [recvBufLoop].
  { change (2 ^ Z.of_nat 0) with 1 in Hs. replace size with 0 by lia. intros j Hj. rewrite Z.div_0_l; [lia|]. apply Z.pow_nonzero; lia. }
  destruct (Z.gtb_spec size 0) as [Hp|Hp].
  2: { replace size with 0 by lia. intros j Hj. rewrite Z.div_0_l; [lia|]. apply Z.pow_nonzero; lia. }
  destruct (SetReadBuffer id size) eqn:E.
  { exists 0. change (2 ^ 0) with 1. rewrite Z.div_1_r. split_and!; [lia|done|lia|done|lia]. }
  specialize (IH (size / 2)). destruct (recvBufLoop fuel id (size / 2)) as [s|].
  - destruct IH as (k & Hk & -> & Hpos & Ha & Hb).
    { rewrite Nat2Z.inj_succ, Z.pow_succ_r in Hs by lia. split; [apply Z.div_pos; lia|apply Z.div_lt_upper_bound; lia]. }
    exists (1 + k). rewrite <- Hhalf by lia. split_and!; [lia|done|done|done|]. intros j Hj.
    destruct (decide (j = 0)) as [->|Hj0]; [change (2 ^ 0) with 1; by rewrite Z.div_1_r|].
    replace j with (1 + (j - 1)) by lia. rewrite <- Hhalf by lia. apply Hb. lia.
  - intros j Hj Hpos. destruct (decide (j = 0)) as [->|Hj0]; [change (2 ^ 0) with 1; by rewrite Z.div_1_r|].
    replace j with (1 + (j - 1)) in * by lia. rewrite <- Hhalf in * by lia. apply IH; [|lia|done].
    rewrite Nat2Z.inj_succ, Z.pow_succ_r in Hs by lia. split; [apply Z.div_pos; lia|apply Z.div_lt_upper_bound; lia].
Qed.
End Buffers.

(** ** Lemmas: the address to advertise *)

(** The candidates, interface by interface. *)
Definition ifaceAddrs (addrs : list ifaceAddr) : list (Addr * Z) :=
  omap (fun a => match a with IfaceNet ip bits => a ← unmapped ip; Some (a, bits) | IfaceOther => None end) addrs.
Definition isDefaultIface (defaultSrc : list Addr) (addrs : list ifaceAddr) : bool :=
  existsb (fun a => bool_decide (a.1 ∈ defaultSrc)) (ifaceAddrs addrs).
Definition candidatesOf (defaultSrc : list Addr) (i : iface) : list advertiseCandidate :=
  match if_up i, if_addrs i with
  | true, Some addrs => map (fun a => Candidate a.1 a.2 (isDefaultIface defaultSrc addrs)) (ifaceAddrs addrs)
  | _, _ => []
  end.

Definition undecided (c : advertiseCandidate) : advertiseCandidate := Candidate (c_addr c) (c_bits c) false.

Lemma ifaceCandidates_spec defaultSrc addrs cands isDefault :
  ifaceCandidates defaultSrc addrs cands isDefault =
    (cands ++ map (fun a => Candidate a.1 a.2 false) (ifaceAddrs addrs), isDefault || isDefaultIface defaultSrc addrs).
Proof.
  unfold isDefaultIface. revert cands isDefault. induction addrs as [|[ip bits|] addrs IH]; intros cands isDefault; cbn [ifaceCandidates ifaceAddrs omap list_omap].
  - by rewrite app_nil_r, orb_false_r.
  - destruct (unmapped ip) as [a|]; cbn [mbind option_bind]; rewrite IH; [|done]. fold (ifaceAddrs addrs). cbn [map existsb fst].
    by rewrite <- app_assoc, orb_assoc.
  - apply IH.
Qed.

(** Ranges that are marked cover whole interfaces. *)
Lemma imap_nochange {A} (f : nat -> A -> A) l : (forall j x, l !! j = Some x -> f j x = x) -> imap f l = l.
Proof.
  intros H. apply list_eq. intros j. rewrite list_lookup_imap. destruct (l !! j) as [x|] eqn:E; cbn; [|done]. f_equal. by apply H.
Qed.

Lemma markDefault_app cands new more :
  markDefault (cands ++ new ++ more) (length cands, length (cands ++ new)) =
  cands ++ map (fun c => Candidate (c_addr c) (c_bits c) true) new ++ more.
Proof.
  unfold markDefault. apply list_eq. intros j. rewrite list_lookup_imap. cbn [fst snd]. rewrite length_app.
  set (inside := _ && _). destruct (decide (j < length cands)%nat) as [H1|H1].
  { assert (E : inside = false) by (unfold inside; by rewrite (proj2 (Nat.leb_gt _ _))). rewrite E, !lookup_app_l by done. by destruct (cands !! j). }
  rewrite !(lookup_app_r cands) by lia. destruct (decide (j - length cands < length new)%nat) as [H2|H2].
  - assert (E : inside = true) by (unfold inside; rewrite (proj2 (Nat.leb_le _ _)), (proj2 (Nat.ltb_lt _ _)) by lia; done).
    rewrite E, !lookup_app_l by (rewrite ?length_map; lia). rewrite list_lookup_fmap. by destruct (new !! _).
  - assert (E : inside = false) by (unfold inside; rewrite (proj2 (Nat.ltb_ge _ _)) by lia; apply andb_false_r).
    rewrite E, !lookup_app_r by (rewrite ?length_map; lia). rewrite length_map. by destruct (more !! _).
Qed.

Lemma allCandidates_spec defaultSrc ifaces cands ranges :
  exists new more, allCandidates defaultSrc ifaces cands ranges = (cands ++ new, ranges ++ more) /\
    forall cands0, length cands0 = length cands -> fold_left markDefault more (cands0 ++ new) = cands0 ++ concat (map (candidatesOf defaultSrc) ifaces).
Proof.
  revert cands ranges. induction ifaces as [|i ifaces IH]; intros cands ranges; cbn [allCandidates map concat].
  { exists [], []. by rewrite !app_nil_r. }
  unfold candidatesOf at 1. destruct (if_up i); [|apply IH]. destruct (if_addrs i) as [addrs|]; [|apply IH].
  rewrite ifaceCandidates_spec. cbn [orb]. set (new1 := map (fun a => Candidate a.1 a.2 false) (ifaceAddrs addrs)).
  destruct (IH (cands ++ new1) (if isDefaultIface defaultSrc addrs then ranges ++ [(length cands, length (cands ++ new1))] else ranges))
    as (new & more & -> & Hmore). destruct (isDefaultIface defaultSrc addrs).
  - exists (new1 ++ new), ((length cands, length (cands ++ new1)) :: more). rewrite <- !app_assoc. split; [done|]. intros cands0 Hl.
    cbn [fold_left]. rewrite length_app, <- Hl, <- length_app, markDefault_app, app_assoc, Hmore by (by rewrite !length_app, length_map, Hl).
    subst new1. rewrite map_map. cbn [c_addr c_bits]. by rewrite app_assoc.
  - exists (new1 ++ new), more. rewrite <- app_assoc. split; [done|]. intros cands0 Hl.
    rewrite app_assoc, Hmore by (by rewrite !length_app, Hl). by rewrite app_assoc.
Qed.

(** The choice is among the addresses of the interfaces that are up, those of
    an interface that carries the default route marked as such. *)
Lemma privateAdvertiseAddr_spec ifaces probes :
  privateAdvertiseAddr (Some ifaces) probes = pickAdvertiseAddr (concat (map (candidatesOf (defaultSources probes)) ifaces)).
Proof.
  unfold privateAdvertiseAddr. cbn [mbind option_bind]. destruct (allCandidates_spec (defaultSources probes) ifaces [] []) as (new & more & -> & Hm).
  cbn [app]. specialize (Hm []). cbn [app] in Hm. by rewrite Hm.
Qed.

Lemma As16_length a : len (As16 a) = 16.
Proof. destruct a; cbn [As16]; rewrite ?len_app, ?len_be; done. Qed.


(** ** Lemmas: accepting *)

(** [n] errors in a row. *)
Fixpoint failures (n : nat) (loopDelay : Z) : option Z :=
  match n with
  | O => Some loopDelay
  | S n => '(d, _, _) ← tcpListen loopDelay (AcceptFailed false); failures n d
  end.

(** The delay doubles from 5 milliseconds up to a second and starts over with
    a connection. *)
Lemma tcpListen_backoff n conn :
  failures (S n) 0 = Some (Z.min (baseDelay * 2 ^ Z.of_nat n) maxDelay) /\ forall d, tcpListen d (Accepted conn) = Some (0, Some conn, 0).
Proof.
  split; [|done]. assert (H : forall k d, 0 < d <= maxDelay -> failures k d = Some (Z.min (d * 2 ^ Z.of_nat k) maxDelay)).
  { intros k. induction k as [|k IH]; intros d Hd; cbn [failures].
    - change (2 ^ Z.of_nat 0) with 1. f_equal. lia.
    - unfold tcpListen. rewrite (proj2 (Z.eqb_neq d 0)) by lia. cbn [mbind option_bind]. rewrite Nat2Z.inj_succ, Z.pow_succ_r by lia.
      pose proof (Z.pow_pos_nonneg 2 (Z.of_nat k)) as Hp. unfold maxDelay in *.
      destruct (Z.gtb_spec (d * 2) 1000000000); rewrite IH by lia; f_equal; nia. }
  cbn [failures]. unfold tcpListen at 1. change (0 =? 0) with true. cbv iota. change (baseDelay >? maxDelay) with false. cbv iota.
  cbn [mbind option_bind]. apply H. vm_compute. split; [reflexivity|discriminate].
Qed.

(** ** Properties *)


(** A system that picks port 40000, takes buffers of up to 512 KiB, and has
    one other socket open. *)
#[local] Instance exampleSockets : Sockets := {|
  ListenTCP _ ip port := Some (default (replicate 16 (z2b 0)) ip, if port =? 0 then 40000 else port);
  ListenUDP _ _ _ := true;
  SetReadBuffer _ size := size <=? 524288;
|}.
#[local] Instance exampleSockets_laws : SocketLaws.
Proof.
  constructor. intros i ip port bound p [= _ <-]. destruct (Z.eqb_spec port 0); split; intros; try done; lia.
Qed.

