(* ===== verification/Setup.v ===== *)
(** Making a node, [src/config.go] and [src/memberlist.go]: the configuration
    and its defaults, the checks and the assembly of [buildMemberlist], and
    [Create].

    The transport a node is built on is what the code asks of it: whether it
    advertises a packet size, and the address to advertise. Starting the
    standard transport, which may be tried again, is an argument. *)

From S2P Require Import Prelude Msgpack Wire Treap Timing Queue NetAddr Nodes Events Packet State Lifecycle Membership Security HostPort Acks Net Streams Ingest Probe.

(** ** Configuration *)

(** [Config] without the logger, the metrics and what only they use. A delegate
    is whether there is one, or its verdict. *)
Record Settings `{GC : GCM} := MkSettings {
  cf_Name : string;
  cf_Label : string;
  cf_SkipInboundLabelCheck : bool;
  cf_BindAddr : string;
  cf_BindPort : Z;
  cf_AdvertiseAddr : string;
  cf_AdvertisePort : Z;
  cf_ProtocolVersion : Z;
  cf_TCPTimeout : Z;
  cf_IndirectChecks : Z;
  cf_RetransmitMult : Z;
  cf_SuspicionMult : Z;
  cf_SuspicionMaxTimeoutMult : Z;
  cf_PushPullInterval : Z;
  cf_PushPullConcurrency : Z;
  cf_ProbeInterval : Z;
  cf_ProbeTimeout : Z;
  cf_DisableTcpPings : bool;
  cf_DisableTcpPingsForNode : option (string -> bool);
  cf_AwarenessMaxMultiplier : Z;
  cf_GossipInterval : Z;
  cf_GossipNodes : Z;
  cf_GossipToTheDeadTime : Z;
  cf_GossipVerifyIncoming : bool;
  cf_GossipVerifyOutgoing : bool;
  cf_EnableCompression : bool;
  cf_SecretKey : bytes;
  cf_Keyring : option Keyring;
  cf_Delegate : bool;
  cf_DelegateProtocolVersion : Z;
  cf_DelegateProtocolMin : Z;
  cf_DelegateProtocolMax : Z;
  cf_Events : bool;
  cf_Conflict : bool;
  cf_Merge : bool;
  cf_Ping : bool;
  cf_Alive : option (Node -> bool);
  cf_DNSConfigPath : string;
  cf_HandoffQueueDepth : Z;
  cf_UDPBufferSize : Z;
  cf_MetaMaxSize : Z;
  cf_DeadNodeReclaimTime : Z;
  cf_RequireNodeNames : bool;
  cf_CIDRsAllowed : list IPNet;
  cf_QueueCheckInterval : Z;
}.

Definition Millisecond : Z := 1000000.
Definition Second : Z := 1000 * Millisecond.
Definition ProtocolVersion2Compatible : Z := 2.

Section Defaults.
Context {GC : GCM}.

Definition DefaultLANConfig (hostname : string) : Settings := {|
  cf_Name := hostname;
  cf_Label := "";
  cf_SkipInboundLabelCheck := false;
  cf_BindAddr := "0.0.0.0";
  cf_BindPort := 7946;
  cf_AdvertiseAddr := "";
  cf_AdvertisePort := 7946;
  cf_ProtocolVersion := ProtocolVersion2Compatible;
  cf_TCPTimeout := 10 * Second;
  cf_IndirectChecks := 3;
  cf_RetransmitMult := 4;
  cf_SuspicionMult := 4;
  cf_SuspicionMaxTimeoutMult := 6;
  cf_PushPullInterval := 30 * Second;
  cf_PushPullConcurrency := 0;
  cf_ProbeInterval := 1 * Second;
  cf_ProbeTimeout := 500 * Millisecond;
  cf_DisableTcpPings := false;
  cf_DisableTcpPingsForNode := None;
  cf_AwarenessMaxMultiplier := 8;
  cf_GossipInterval := 200 * Millisecond;
  cf_GossipNodes := 3;
  cf_GossipToTheDeadTime := 30 * Second;
  cf_GossipVerifyIncoming := true;
  cf_GossipVerifyOutgoing := true;
  cf_EnableCompression := true;
  cf_SecretKey := [];
  cf_Keyring := None;
  cf_Delegate := false;
  cf_DelegateProtocolVersion := 0;
  cf_DelegateProtocolMin := 0;
  cf_DelegateProtocolMax := 0;
  cf_Events := false;
  cf_Conflict := false;
  cf_Merge := false;
  cf_Ping := false;
  cf_Alive := None;
  cf_DNSConfigPath := "/etc/resolv.conf";
  cf_HandoffQueueDepth := 1024;
  cf_UDPBufferSize := 1400;
  cf_MetaMaxSize := 0;
  cf_DeadNodeReclaimTime := 0;
  cf_RequireNodeNames := false;
  cf_CIDRsAllowed := [];
  cf_QueueCheckInterval := 30 * Second;
|}.

(** The fields the other defaults set, as they are set. *)
Definition set_timing (c : Settings) (TCPTimeout IndirectChecks RetransmitMult SuspicionMult PushPullInterval ProbeTimeout ProbeInterval GossipNodes
    GossipInterval GossipToTheDeadTime : Z) : Settings := {|
  cf_Name := cf_Name c; cf_Label := cf_Label c; cf_SkipInboundLabelCheck := cf_SkipInboundLabelCheck c;
  cf_BindAddr := cf_BindAddr c; cf_BindPort := cf_BindPort c; cf_AdvertiseAddr := cf_AdvertiseAddr c; cf_AdvertisePort := cf_AdvertisePort c;
  cf_ProtocolVersion := cf_ProtocolVersion c; cf_TCPTimeout := TCPTimeout; cf_IndirectChecks := IndirectChecks; cf_RetransmitMult := RetransmitMult;
  cf_SuspicionMult := SuspicionMult; cf_SuspicionMaxTimeoutMult := cf_SuspicionMaxTimeoutMult c; cf_PushPullInterval := PushPullInterval;
  cf_PushPullConcurrency := cf_PushPullConcurrency c; cf_ProbeInterval := ProbeInterval; cf_ProbeTimeout := ProbeTimeout;
  cf_DisableTcpPings := cf_DisableTcpPings c; cf_DisableTcpPingsForNode := cf_DisableTcpPingsForNode c;
  cf_AwarenessMaxMultiplier := cf_AwarenessMaxMultiplier c; cf_GossipInterval := GossipInterval; cf_GossipNodes := GossipNodes;
  cf_GossipToTheDeadTime := GossipToTheDeadTime; cf_GossipVerifyIncoming := cf_GossipVerifyIncoming c;
  cf_GossipVerifyOutgoing := cf_GossipVerifyOutgoing c; cf_EnableCompression := cf_EnableCompression c; cf_SecretKey := cf_SecretKey c;
  cf_Keyring := cf_Keyring c; cf_Delegate := cf_Delegate c; cf_DelegateProtocolVersion := cf_DelegateProtocolVersion c;
  cf_DelegateProtocolMin := cf_DelegateProtocolMin c; cf_DelegateProtocolMax := cf_DelegateProtocolMax c; cf_Events := cf_Events c;
  cf_Conflict := cf_Conflict c; cf_Merge := cf_Merge c; cf_Ping := cf_Ping c; cf_Alive := cf_Alive c; cf_DNSConfigPath := cf_DNSConfigPath c;
  cf_HandoffQueueDepth := cf_HandoffQueueDepth c; cf_UDPBufferSize := cf_UDPBufferSize c; cf_MetaMaxSize := cf_MetaMaxSize c;
  cf_DeadNodeReclaimTime := cf_DeadNodeReclaimTime c; cf_RequireNodeNames := cf_RequireNodeNames c; cf_CIDRsAllowed := cf_CIDRsAllowed c;
  cf_QueueCheckInterval := cf_QueueCheckInterval c;
|}.

Definition DefaultWANConfig (hostname : string) : Settings :=
  let conf := DefaultLANConfig hostname in
  set_timing conf (30 * Second) (cf_IndirectChecks conf) (cf_RetransmitMult conf) 6 (60 * Second) (3 * Second) (5 * Second) 4
    (500 * Millisecond) (60 * Second).

Definition DefaultLocalConfig (hostname : string) : Settings :=
  let conf := DefaultLANConfig hostname in
  set_timing conf Second 1 2 3 (15 * Second) (200 * Millisecond) Second (cf_GossipNodes conf) (100 * Millisecond) (15 * Second).
End Defaults.

(** What the parts of a node read of it. *)
Section Views.
Context {GC : GCM}.

Definition stateConfig (c : Settings) : Config :=
  MkConfig (cf_Name c) (cf_ProtocolVersion c) (cf_DelegateProtocolVersion c) (cf_DelegateProtocolMin c) (cf_DelegateProtocolMax c)
    (cf_SuspicionMult c) (cf_SuspicionMaxTimeoutMult c) (cf_ProbeInterval c) (cf_GossipToTheDeadTime c) (cf_DeadNodeReclaimTime c)
    (cf_CIDRsAllowed c) (cf_Alive c) (cf_Events c) (cf_Conflict c).

Definition netConfig (c : Settings) (packetBufferSize : Z) : NetConfig :=
  MkNetConfig (cf_Label c) (cf_SkipInboundLabelCheck c) (cf_Keyring c) (cf_GossipVerifyIncoming c) (cf_GossipVerifyOutgoing c)
    (cf_EnableCompression c) (cf_RequireNodeNames c) (cf_BindPort c) (cf_HandoffQueueDepth c) packetBufferSize (cf_ProbeTimeout c)
    (cf_Delegate c) (cf_Ping c) (cf_Merge c).

Definition probeConfig (c : Settings) : ProbeConfig :=
  MkProbeConfig (cf_IndirectChecks c) (cf_DisableTcpPings c) (cf_DisableTcpPingsForNode c) (cf_GossipNodes c) (cf_PushPullConcurrency c).
End Views.

(** ** Transports *)

(** What a transport answers. *)
Record transportImpl := TransportImpl {
  ti_nodeAware : bool;
  ti_MaxPacketSize : option Z;
  ti_FinalAdvertiseAddr : string -> Z -> option (slice * Z);
}.

Inductive transport :=
| plainTransport (t : transportImpl)
| shimNodeAwareTransport (t : transport)
| labelWrappedTransport (label : string) (t : transport).

Fixpoint maxPacketSizeOf (t : transport) : option Z :=
  match t with
  | plainTransport t => match ti_MaxPacketSize t with Some size => if size >? 0 then Some size else None | None => None end
  | shimNodeAwareTransport t => maxPacketSizeOf t
  | labelWrappedTransport _ t => maxPacketSizeOf t
  end.

(** The wrappers embed the transport below. *)
Fixpoint FinalAdvertiseAddr (t : transport) (ip : string) (port : Z) : option (slice * Z) :=
  match t with
  | plainTransport t => ti_FinalAdvertiseAddr t ip port
  | shimNodeAwareTransport t => FinalAdvertiseAddr t ip port
  | labelWrappedTransport _ t => FinalAdvertiseAddr t ip port
  end.

(** ** Building *)

Definition MetaMaxSize : Z := 512.

Inductive buildError :=
| VersionTooLow
| VersionTooHigh
| KeyRefused (e : keyringError)
| NoTransport
| LabelRefused
| MetaOverBudget (limit budget : Z)
| AliveOverBudget (limit msgSize budget : Z)
| NoAdvertiseAddr.

Section Build.
Context {G : Type} {ML : MathLog} {GC : GCM} {D : Type}.
Implicit Types c : Settings.

Definition set_network c (keyring : option Keyring) (bindPort advertisePort : Z) : Settings := {|
  cf_Name := cf_Name c; cf_Label := cf_Label c; cf_SkipInboundLabelCheck := cf_SkipInboundLabelCheck c;
  cf_BindAddr := cf_BindAddr c; cf_BindPort := bindPort; cf_AdvertiseAddr := cf_AdvertiseAddr c; cf_AdvertisePort := advertisePort;
  cf_ProtocolVersion := cf_ProtocolVersion c; cf_TCPTimeout := cf_TCPTimeout c; cf_IndirectChecks := cf_IndirectChecks c;
  cf_RetransmitMult := cf_RetransmitMult c; cf_SuspicionMult := cf_SuspicionMult c; cf_SuspicionMaxTimeoutMult := cf_SuspicionMaxTimeoutMult c;
  cf_PushPullInterval := cf_PushPullInterval c; cf_PushPullConcurrency := cf_PushPullConcurrency c; cf_ProbeInterval := cf_ProbeInterval c;
  cf_ProbeTimeout := cf_ProbeTimeout c; cf_DisableTcpPings := cf_DisableTcpPings c; cf_DisableTcpPingsForNode := cf_DisableTcpPingsForNode c;
  cf_AwarenessMaxMultiplier := cf_AwarenessMaxMultiplier c; cf_GossipInterval := cf_GossipInterval c; cf_GossipNodes := cf_GossipNodes c;
  cf_GossipToTheDeadTime := cf_GossipToTheDeadTime c; cf_GossipVerifyIncoming := cf_GossipVerifyIncoming c;
  cf_GossipVerifyOutgoing := cf_GossipVerifyOutgoing c; cf_EnableCompression := cf_EnableCompression c; cf_SecretKey := cf_SecretKey c;
  cf_Keyring := keyring; cf_Delegate := cf_Delegate c; cf_DelegateProtocolVersion := cf_DelegateProtocolVersion c;
  cf_DelegateProtocolMin := cf_DelegateProtocolMin c; cf_DelegateProtocolMax := cf_DelegateProtocolMax c; cf_Events := cf_Events c;
  cf_Conflict := cf_Conflict c; cf_Merge := cf_Merge c; cf_Ping := cf_Ping c; cf_Alive := cf_Alive c; cf_DNSConfigPath := cf_DNSConfigPath c;
  cf_HandoffQueueDepth := cf_HandoffQueueDepth c; cf_UDPBufferSize := cf_UDPBufferSize c; cf_MetaMaxSize := cf_MetaMaxSize c;
  cf_DeadNodeReclaimTime := cf_DeadNodeReclaimTime c; cf_RequireNodeNames := cf_RequireNodeNames c; cf_CIDRsAllowed := cf_CIDRsAllowed c;
  cf_QueueCheckInterval := cf_QueueCheckInterval c;
|}.

(** The secret key becomes the primary key of the keyring. *)
Definition useSecretKey c : option (result keyringError Settings) :=
  if len (cf_SecretKey c) >? 0 then
    match cf_Keyring c with
    | None =>
        r ← NewKeyring [] (cf_SecretKey c);
        Some (match r with Ok k => Ok (set_network c (Some k) (cf_BindPort c) (cf_AdvertisePort c)) | Err e => Err e end)
    | Some k =>
        '(r, k) ← AddKey k (cf_SecretKey c);
        match r with
        | Err e => Some (Err e)
        | Ok _ =>
            '(r, k) ← UseKey k (cf_SecretKey c);
            Some (match r with Ok _ => Ok (set_network c (Some k) (cf_BindPort c) (cf_AdvertisePort c)) | Err e => Err e end)
        end
    end
  else Some (Ok c).

(** [makeNetRetry]: attempt [i] and those after it, [limit] in all; every
    error is tried again. *)
Fixpoint makeNetRetry (newNetTransport : nat -> option (transportImpl * Z)) (limit i : nat) : option (transportImpl * Z) :=
  match limit with
  | O => None
  | S limit =>
      match newNetTransport i with
      | Some nt => Some nt
      | None => makeNetRetry newNetTransport limit (S i)
      end
  end.

(** The transport, the one given or the standard one. *)
Definition makeTransport c (given : option transportImpl) (newNetTransport : nat -> option (transportImpl * Z)) : option (transportImpl * Settings) :=
  match given with
  | Some t => Some (t, c)
  | None =>
      '(nt, port) ← makeNetRetry newNetTransport (if cf_BindPort c =? 0 then 10%nat else 1%nat) 0%nat;
      Some (nt, if cf_BindPort c =? 0 then set_network c (cf_Keyring c) port port else c)
  end.

Definition wrapTransport c (t : transportImpl) : transport :=
  let t := if ti_nodeAware t then plainTransport t else shimNodeAwareTransport (plainTransport t) in
  if String.eqb (cf_Label c) "" then t else labelWrappedTransport (cf_Label c) t.

Definition packetBudget c (t : transport) : Z :=
  match maxPacketSizeOf t with
  | Some size => if cf_UDPBufferSize c <=? 0 then size else Z.min (cf_UDPBufferSize c) size
  | None => cf_UDPBufferSize c
  end.

Definition metaMaxSize c : Z := if cf_MetaMaxSize c >? 0 then cf_MetaMaxSize c else MetaMaxSize.

(** The message the budget is checked against. *)
Definition worstAlive c (limit : Z) : Alive :=
  MkAlive MaxUint32 (cf_Name c) (Some (replicate 16 (z2b 0))) MaxUint16 (Some (replicate (Z.to_nat limit) (z2b 0))) (BuildVsnArray (stateConfig c)).

Definition metaBudget c (packetBufferSize : Z) : option Z :=
  let budget := Z.min packetBufferSize MaxUint16 in
  let budget := budget - (compoundHeaderOverhead + compoundOverhead + crcOverhead) in
  let budget := budget - labelOverhead (cf_Label c) in
  if EncryptionEnabled (netConfig c packetBufferSize) then o ← encryptOverhead (encryptionVersion (stateConfig c)); Some (budget - o)
  else Some budget.

Definition validateMetaMaxSize c (packetBufferSize : Z) : option (result buildError unit) :=
  let limit := metaMaxSize c in
  if packetBufferSize <=? 0 then Some (Ok tt)
  else
    budget ← metaBudget c packetBufferSize;
    if limit >? budget then Some (Err (MetaOverBudget limit budget))
    else
      let msgSize := len (encode aliveMsg (MAlive (worstAlive c limit))) in
      if msgSize >? budget then Some (Err (AliveOverBudget limit msgSize budget)) else Some (Ok tt).

(** A node that is built: its configuration, transport, packet budget and
    state. *)
Record built := Built {
  bt_conf : Settings;
  bt_transport : transport;
  bt_packetBufferSize : Z;
  bt_net : Net (G := G) (D := D);
}.

Definition bt_nc (b : built) : NetConfig := netConfig (bt_conf b) (bt_packetBufferSize b).
Definition bt_cfg (b : built) : Config := stateConfig (bt_conf b).

(** [advertisePort] is a [uint16]. *)
Definition setAdvertise (x : Net (G := G) (D := D)) (addr : slice) (port : Z) : Net :=
  MkNet (x_m x) (x_acks x) (x_high x) (x_low x) (x_wake x) (addr, u16 port) (x_delegate x) (x_nonces x) (x_sent x) (x_cancels x) (x_nacks x).

Definition refreshAdvertise (b : built) : option (slice * Z * built) :=
  '(addr, port) ← FinalAdvertiseAddr (bt_transport b) (cf_AdvertiseAddr (bt_conf b)) (cf_AdvertisePort (bt_conf b));
  Some (addr, port, Built (bt_conf b) (bt_transport b) (bt_packetBufferSize b) (setAdvertise (bt_net b) addr port)).

Definition newNet c (g : G) (d : D) : Net (G := G) (D := D) :=
  MkNet (newMemberlist (cf_AwarenessMaxMultiplier c) (cf_RetransmitMult c) g) newAckTable [] [] false (None, 0) d 0 [] ∅ ∅.

(** A failed build, and whether a transport it was given or has started is
    still running when it returns. *)
Inductive buildOutcome := BuildOk (b : built) | BuildFailed (e : buildError) (running : bool).

Definition buildMemberlist c (given : option transportImpl) (newNetTransport : nat -> option (transportImpl * Z)) (g : G) (d : D)
    : option buildOutcome :=
  let running := match given with Some _ => true | None => false end in
  if cf_ProtocolVersion c <? ProtocolVersionMin then Some (BuildFailed VersionTooLow running)
  else if cf_ProtocolVersion c >? ProtocolVersionMax then Some (BuildFailed VersionTooHigh running)
  else
    r ← useSecretKey c;
    match r with
    | Err e => Some (BuildFailed (KeyRefused e) running)
    | Ok c =>
        match makeTransport c given newNetTransport with
        | None => Some (BuildFailed NoTransport running)
        | Some (t, c) =>
            if len (str2b (cf_Label c)) >? LabelMaxSize then Some (BuildFailed LabelRefused true)
            else
              let t := wrapTransport c t in
              let size := packetBudget c t in
              r ← validateMetaMaxSize c size;
              match r with
              | Err e => Some (BuildFailed e false)
              | Ok _ =>
                  match refreshAdvertise (Built c t size (newNet c g d)) with
                  | None => Some (BuildFailed NoAdvertiseAddr true)
                  | Some (_, _, b) => Some (BuildOk b)
                  end
              end
        end
    end.
End Build.

(** ** Creating *)

Inductive createError := CreateBuild (e : buildError) | CreateNoAddr | CreateMeta (size limit : Z) | CreateShutdown.

Section Create.
Context {G : Type} {RG : Rand G} {ML : MathLog} {GC : GCM} {D : Type}.

(** The application's meta data, refused over the limit. *)
Definition delegateMeta (c : Settings) (nodeMeta : Z -> slice) : result (Z * Z) slice :=
  if cf_Delegate c then
    let limit := metaMaxSize c in
    let meta := nodeMeta limit in
    if len (slice_bytes meta) >? limit then Err (len (slice_bytes meta), limit) else Ok meta
  else Ok None.

(** [setAlive], on a node nothing else runs on yet. *)
Definition announce (b : built (G := G) (D := D)) (nodeMeta : Z -> slice) (receipt : Z) (now : Z) : option (result createError unit * built) :=
  match refreshAdvertise b with
  | None => Some (Err CreateNoAddr, b)
  | Some (addr, port, b) =>
      match delegateMeta (bt_conf b) nodeMeta with
      | Err (size, limit) => Some (Err (CreateMeta size limit), b)
      | Ok meta =>
          '(r, m) ← setAlive (bt_cfg b) (x_m (bt_net b)) addr port meta (Some receipt) now;
          Some (match r with Ok _ => Ok tt | Err _ => Err CreateShutdown end,
                Built (bt_conf b) (bt_transport b) (bt_packetBufferSize b) (set_m (bt_net b) m))
      end
  end.

(** [Create], without its wait for the event; on failure the node is shut
    down. *)
Definition Create (c : Settings) (given : option transportImpl) (newNetTransport : nat -> option (transportImpl * Z)) (nodeMeta : Z -> slice)
    (g : G) (d : D) (receipt : Z) (now : Z) : option (result createError (built (G := G) (D := D))) :=
  o ← buildMemberlist c given newNetTransport g d;
  match o with
  | BuildFailed e _ => Some (Err (CreateBuild e))
  | BuildOk b =>
      '(r, b) ← announce b nodeMeta receipt now;
      Some (match r with Ok _ => Ok b | Err e => Err e end)
  end.
End Create.

(** ** Lemmas: building *)

Section BuildLemmas.
Context {G : Type} {RG : Rand G} {RL : RandLaws G} {ML : MathLog} {GC : GCM} {D : Type}.
Implicit Types c : Settings.

Definition keyring_valid c : Prop := forall k, cf_Keyring c = Some k -> keyring_ok k.

Lemma useSecretKey_total c :
  keyring_valid c -> exists r, useSecretKey c = Some r /\
    forall c', r = Ok c' -> keyring_valid c' /\ c' = set_network c (cf_Keyring c') (cf_BindPort c) (cf_AdvertisePort c) /\
      (cf_SecretKey c <> [] -> exists k rest, cf_Keyring c' = Some k /\ keysOf k = cf_SecretKey c :: rest).
Proof.
  intros Hk. unfold useSecretKey. destruct (Z.gtb_spec (len (cf_SecretKey c)) 0) as [Hl|Hl].
  2: { exists (Ok c). split; [done|]. intros c' [= <-]. split_and!; [done|by destruct c|]. intros Hne. destruct (cf_SecretKey c); [done|].
       rewrite len_cons in Hl. pose proof (len_nonneg l). lia. }
  destruct (cf_Keyring c) as [k|] eqn:Ek.
  - pose proof (Hk k Ek) as Hok. destruct (validKeySize (cf_SecretKey c)) eqn:Ev.
    + destruct (AddKey_ok k _ Hok Ev) as (k1 & -> & Hok1 & _ & E1). cbn [mbind option_bind].
      destruct (UseKey_ok k1 (cf_SecretKey c) Hok1) as (k2 & -> & Hok2 & _ & E2).
      { rewrite E1. destruct (hasKey (keysOf k) (cf_SecretKey c)) eqn:Eh; [by apply hasKey_spec|]. apply elem_of_app. right. by apply list_elem_of_singleton. }
      cbn [mbind option_bind]. eexists. split; [done|]. intros c' [= <-]. split_and!; [by intros ? [= <-]|done|]. intros _. by exists k2, (others (cf_SecretKey c) (keysOf k1)).
    + unfold AddKey, ValidateKey. rewrite Ev. cbn [mbind option_bind]. by eexists.
  - unfold NewKeyring. rewrite (proj2 (Z.gtb_lt (len (cf_SecretKey c)) 0)) by lia. rewrite orb_true_r. rewrite (proj2 (Z.eqb_neq (len (cf_SecretKey c)) 0)) by lia.
    destruct (validKeySize (cf_SecretKey c)) eqn:Ev.
    + destruct (addKeys_ok [cf_SecretKey c] initKeyring initKeyring_ok) as (k & -> & Hok & E); [by repeat constructor|]. cbn [mbind option_bind].
      eexists. split; [done|]. intros c' [= <-]. split_and!; [by intros ? [= <-]|done|]. intros _. exists k, []. split; [done|]. by rewrite E.
    + rewrite (addKeys_invalid [cf_SecretKey c] initKeyring (cf_SecretKey c)); [|apply initKeyring_ok|by apply list_elem_of_singleton|done].
      cbn [mbind option_bind]. by eexists.
Qed.
(** The label and encryption are settled before the budget is. *)
Lemma metaBudget_total c size : exists budget, metaBudget c size = Some budget.
Proof. unfold metaBudget. destruct (EncryptionEnabled _); [|by eexists]. destruct (encryptOverhead_some (stateConfig c)) as [o ->]. by eexists. Qed.

Lemma validateMetaMaxSize_total c size :
  exists r, validateMetaMaxSize c size = Some r /\ (r = Ok tt -> 0 < size -> exists budget, metaBudget c size = Some budget /\
    metaMaxSize c <= budget /\ len (encode aliveMsg (MAlive (worstAlive c (metaMaxSize c)))) <= budget) /\
    (forall e, r = Err e -> match e with MetaOverBudget _ _ | AliveOverBudget _ _ _ => True | _ => False end).
Proof.
  unfold validateMetaMaxSize. destruct (Z.leb_spec size 0); [eexists; split_and!; [done|intros; lia|done]|].
  destruct (metaBudget_total c size) as [budget E]. rewrite E. cbn [mbind option_bind].
  destruct (Z.gtb_spec (metaMaxSize c) budget); [eexists; split_and!; [done|done|by intros ? [= <-]]|].
  destruct (Z.gtb_spec (len (encode aliveMsg (MAlive (worstAlive c (metaMaxSize c))))) budget); [eexists; split_and!; [done|done|by intros ? [= <-]]|].
  eexists. split_and!; [done| |done]. intros _ _. by exists budget.
Qed.

Lemma newNet_ok c size (g : G) (d : D) addr port : net_ok (stateConfig c) (netConfig c size) (setAdvertise (newNet c g d) addr port).
Proof.
  constructor; [apply newMemberlist_ok| |unfold len; cbn; lia..]. constructor; cbn; try done. by intros ? ? ? ? ?%elem_of_nil.
Qed.

(** A node as it is built. *)
Record fresh (b : built (G := G) (D := D)) c : Prop := {
  fr_name : cf_Name (bt_conf b) = cf_Name c;
  fr_cidrs : cf_CIDRsAllowed (bt_conf b) = cf_CIDRsAllowed c;
  fr_version : ProtocolVersionMin <= cf_ProtocolVersion (bt_conf b) <= ProtocolVersionMax;
  fr_label : len (str2b (cf_Label (bt_conf b))) <= LabelMaxSize;
  fr_keyring : keyring_valid (bt_conf b);
  fr_secret : cf_SecretKey c <> [] -> exists k rest, cf_Keyring (bt_conf b) = Some k /\ keysOf k = cf_SecretKey c :: rest;
  fr_meta : validateMetaMaxSize (bt_conf b) (bt_packetBufferSize b) = Some (Ok tt);
  fr_state : exists g, x_m (bt_net b) = newMemberlist (cf_AwarenessMaxMultiplier (bt_conf b)) (cf_RetransmitMult (bt_conf b)) g;
  fr_ok : net_ok (bt_cfg b) (bt_nc b) (bt_net b);
}.

Lemma buildMemberlist_total c given start (g : G) (d : D) :
  keyring_valid c -> exists o, buildMemberlist c given start g d = Some o /\
    match o with
    | BuildOk b => fresh b c
    | BuildFailed e running =>
        running = match e with
                  | LabelRefused | NoAdvertiseAddr => true
                  | MetaOverBudget _ _ | AliveOverBudget _ _ _ => false
                  | _ => bool_decide (is_Some given)
                  end
    end.
Proof.
  intros Hk. unfold buildMemberlist. assert (Eg : match given with Some _ => true | None => false end = bool_decide (is_Some given)) by by destruct given.
  destruct (Z.ltb_spec (cf_ProtocolVersion c) ProtocolVersionMin) as [|Hv1]; [by eexists|].
  destruct (Z.gtb_spec (cf_ProtocolVersion c) ProtocolVersionMax) as [|Hv2]; [by eexists|].
  destruct (useSecretKey_total c Hk) as (r & -> & Hr). cbn [mbind option_bind]. destruct r as [c1|e]; [|by eexists].
  destruct (Hr c1 eq_refl) as (Hk1 & E1 & Hs1). clear Hr.
  destruct (makeTransport c1 given start) as [[t c2]|] eqn:Et; [|by eexists].
  assert (E2 : exists b a, c2 = set_network c1 (cf_Keyring c1) b a).
  { unfold makeTransport in Et. destruct given; [injection Et as _ <-; exists (cf_BindPort c1), (cf_AdvertisePort c1); by destruct c1|].
    destruct (makeNetRetry start _ _) as [[nt port]|]; [|done]. injection Et as _ <-.
    destruct (_ =? 0); [by eexists _, _|]. exists (cf_BindPort c1), (cf_AdvertisePort c1). by destruct c1. }
  destruct E2 as (bp & ap & ->). clear Et. set (c2 := set_network c1 _ _ _).
  destruct (Z.gtb_spec (len (str2b (cf_Label c2))) LabelMaxSize) as [|Hl]; [by eexists|].
  set (size := packetBudget c2 (wrapTransport c2 t)). destruct (validateMetaMaxSize_total c2 size) as (r & Er & _ & He). rewrite Er. cbn [mbind option_bind].
  destruct r as [[]|e]; [|eexists; split; [done|]; specialize (He e eq_refl); by destruct e].
  unfold refreshAdvertise. cbn [bt_transport bt_conf bt_net bt_packetBufferSize].
  destruct (FinalAdvertiseAddr _ _ _) as [[addr port]|]; [|by eexists]. cbn [mbind option_bind]. eexists. split; [done|].
  assert (Ef : cf_Name c1 = cf_Name c /\ cf_CIDRsAllowed c1 = cf_CIDRsAllowed c /\ cf_ProtocolVersion c1 = cf_ProtocolVersion c) by by rewrite E1.
  destruct Ef as (En & Ec & Ev). constructor; try done; [cbn; by rewrite Ev|by eexists|apply newNet_ok].
Qed.
End BuildLemmas.

Section AnnounceLemmas.
Context {G : Type} {RG : Rand G} {RL : RandLaws G} {ML : MathLog} (cfg : Config).

Definition ownAlive (addr : slice) (port : Z) (meta : slice) : Alive := MkAlive 1 (c_Name cfg) addr (u16 port) meta (BuildVsnArray cfg).

Lemma ownAlive_acceptable (m : Memberlist (G := G)) addr port meta :
  m_leave m = false -> aliveAcceptable cfg m (ownAlive addr port meta) true = true.
Proof. intros Hl. unfold aliveAcceptable, hasLeft. rewrite Hl. cbn. by destruct (c_Alive cfg). Qed.

(** The first announcement of a node that knows nobody. *)
Lemma setAlive_fresh aw mult (g : G) addr port meta r now :
  let a := ownAlive addr port meta in
  exists m', setAlive cfg (newMemberlist aw mult g) addr port meta r now = Some (Ok tt, m') /\ state_ok cfg m' /\
    if IPAllowed (c_CIDRsAllowed cfg) (slice_bytes addr) then
      members m' = {[c_Name cfg := aliveUpdate (freshNode a) a now]} /\ queued m' (c_Name cfg) aliveMsg (MAlive a) None
    else members m' = ∅.
Proof.
  intros a. unfold setAlive, setAliveCommit, hasShutdown. cbn [nextIncarnation m_shutdown newMemberlist set_incarnation].
  set (m := set_incarnation (newMemberlist aw mult g) _). change (u32 (m_incarnation _ + 1)) with 1. fold a.
  assert (Hok : state_ok cfg m). { destruct (newMemberlist_ok cfg aw mult g). by constructor. }
  assert (Hr : room 1 m). { unfold room. cbn. unfold MaxInt64. lia. }
  assert (Hm : members m = ∅) by reflexivity.
  destruct (aliveNodeLocked_outcome cfg m a None true r now Hok Hr) as (m' & E & Ho). change (MkAlive 1 (c_Name cfg) addr (u16 port) meta (BuildVsnArray cfg)) with a.
  rewrite E. cbn [mbind option_bind]. exists m'. split; [done|]. split; [by eapply alive_outcome_ok|].
  pose proof (ownAlive_acceptable m addr port meta eq_refl) as Hacc. fold a in Hacc.
  assert (Ht0 : aliveTarget cfg (members m !! Alive_Node a) a now = if IPAllowed (c_CIDRsAllowed cfg) (slice_bytes addr) then Some (freshNode a, false) else None)
    by (by rewrite Hm).
  destruct (IPAllowed _ _) eqn:Eip.
  - destruct Ho as [Ha|Ha Ht|s Ha Ht Hs Hc|s u l m1 Ha Ht Hta Hnews|s u l m1 Ha Ht Hta Hnews Hb Hloc Hsame
      |s u l m1 m2 Ha Ht Hta Hnews Hb Hloc Hsame Href|s u l m1 m2 Ha Ht Hta Hnews Hb Hbr]; try congruence;
      assert (s = freshNode a) as -> by congruence.
    + exfalso. unfold isNews in Hnews. cbn in Hnews. by rewrite String.eqb_refl in Hnews.
    + split; [|destruct Hbr as (q & f & gg & -> & _ & _ & Hq); unfold queued in *; rewrite aliveEvent_queue; exact Hq].
      apply broadcasts_frame in Hbr as (E1 & _). rewrite members_aliveEvent. destruct (aliveUpdate_fields (freshNode a) a now) as (Hun & _).
      rewrite (members_put m1 _ (Alive_Node a));
        [|apply Hta|done|exact (ta_at _ _ _ _ _ _ Hta)|by rewrite Hun; apply (ta_name _ _ _ _ _ _ Hta)].
      by rewrite (ta_members _ _ _ _ _ _ Hta), insert_insert_eq, Hm.
  - destruct (alive_effect _ _ _ _ _ _ _ _ Ho) as [-> |(s & u & Ht & _)]; [done|]. congruence.
Qed.
End AnnounceLemmas.

(** ** Lemmas: sizes *)

Definition uintSize (v : Z) : Z :=
  if v <=? posFixintMax then 1 else if v <=? MaxUint8 then 2 else if v <=? MaxUint16 then 3 else if v <=? MaxUint32 then 5 else 9.
Definition rawSize (n : Z) : Z := n + (if n <? 32 then 1 else if n <? 65536 then 3 else 5).
Definition bytesSize (p : slice) : Z := match p with None => 1 | Some p => rawSize (len p) end.

Lemma uint_size b v : len (AppendUint b v) = len b + uintSize v.
Proof. unfold AppendUint, uintSize. repeat destruct (_ <=? _); rewrite ?len_app, ?len_cons, ?len_be, ?len_nil; lia. Qed.

Lemma raw_size b n : 0 <= n -> len (appendRawHeader b n) + n = len b + rawSize n.
Proof. intros Hn. unfold appendRawHeader, rawSize. repeat destruct (_ <? _); rewrite ?len_app, ?len_cons, ?len_be, ?len_nil; lia. Qed.

Lemma bytes_size b p : len (AppendBytes b p) = len b + bytesSize p.
Proof.
  destruct p as [p|]; cbn [AppendBytes bytesSize]; [rewrite len_app, <- raw_size by apply len_nonneg; lia|].
  unfold AppendNil. by rewrite len_app.
Qed.

Lemma string_size b s : len (AppendString b s) = len b + rawSize (len (str2b s)).
Proof. unfold AppendString. rewrite len_app, <- raw_size by apply len_nonneg. lia. Qed.

Lemma uintSize_mono v w : v <= w -> uintSize v <= uintSize w.
Proof.
  intros Hv. unfold uintSize, posFixintMax. unfold_ints. repeat match goal with |- context [?a <=? ?b] => destruct (Z.leb_spec a b) end; lia.
Qed.

Lemma rawSize_mono n k : n <= k -> rawSize n <= rawSize k.
Proof. intros Hn. unfold rawSize. repeat match goal with |- context [?a <? ?b] => destruct (Z.ltb_spec a b) end; lia. Qed.

Lemma bytesSize_mono p q : 0 <= q -> len (slice_bytes p) <= q -> bytesSize p <= rawSize q.
Proof.
  intros Hq Hl. destruct p as [p|]; cbn in *; [by apply rawSize_mono|]. pose proof (rawSize_mono 0 q Hq) as H. exact H.
Qed.

(** What the fields of an alive message add up to. *)
Definition aliveSize (a : Alive) : Z :=
  bytesSize (Alive_Addr a) + uintSize (Alive_Incarnation a) + bytesSize (Alive_Meta a) + rawSize (len (str2b (Alive_Node a))) +
  uintSize (Alive_Port a) + bytesSize (Alive_Vsn a).

Lemma encode_alive_size a : len (encode aliveMsg (MAlive a)) = aliveSize a + 38.
Proof.
  unfold encode, aliveSize. cbn [AppendMsgpack]. unfold Alive_AppendMsgpack, appendB, appendU, appendS.
  repeat first [rewrite bytes_size|rewrite string_size|rewrite uint_size].
  change (len (AppendMapHeader [z2b aliveMsg] 6)) with 2. change (rawSize (len (str2b "Incarnation"))) with 12.
  change (rawSize (len (str2b "Addr"))) with 5. change (rawSize (len (str2b "Vsn"))) with 4. change (rawSize (len (str2b "Meta"))) with 5.
  change (rawSize (len (str2b "Node"))) with 5. change (rawSize (len (str2b "Port"))) with 5. lia.
Qed.

Section Budget.
Context {GC : GCM}.

(** Whatever the node announces is no larger than what was checked. *)
Lemma own_alive_size (c : Settings) inc addr port meta :
  u32_ok inc -> len (slice_bytes addr) <= 16 -> u16_ok port -> len (slice_bytes meta) <= metaMaxSize c ->
  len (encode aliveMsg (MAlive (MkAlive inc (cf_Name c) addr port meta (BuildVsnArray (stateConfig c))))) <=
  len (encode aliveMsg (MAlive (worstAlive c (metaMaxSize c)))).
Proof.
  intros Hi Ha Hp Hm. rewrite !encode_alive_size. unfold aliveSize, worstAlive. cbn [Alive_Addr Alive_Incarnation Alive_Meta Alive_Node Alive_Port Alive_Vsn].
  pose proof (len_nonneg (slice_bytes meta)). unfold u32_ok, u16_ok in *.
  pose proof (bytesSize_mono addr 16 ltac:(lia) Ha). pose proof (bytesSize_mono meta (metaMaxSize c) ltac:(lia) Hm).
  pose proof (uintSize_mono inc MaxUint32 ltac:(lia)). pose proof (uintSize_mono port MaxUint16 ltac:(lia)).
  change (bytesSize (Some (replicate 16 (z2b 0)))) with (rawSize 16).
  assert (E : bytesSize (Some (replicate (Z.to_nat (metaMaxSize c)) (z2b 0))) = rawSize (metaMaxSize c)).
  { cbn [bytesSize]. unfold len. rewrite length_replicate. f_equal. lia. }
  rewrite E. lia.
Qed.

Lemma metaBudget_gossip (c : Settings) size budget :
  metaBudget c size = Some budget -> exists avail, gossipBudget (stateConfig c) (netConfig c size) = Some avail /\ budget + compoundOverhead <= avail.
Proof.
  unfold metaBudget, gossipBudget. cbn [nc_packetBufferSize nc_Label netConfig]. destruct (EncryptionEnabled _).
  - destruct (encryptOverhead _) as [o|]; [|done]. cbn [mbind option_bind]. intros [= <-]. eexists. split; [done|]. lia.
  - intros [= <-]. eexists. split; [done|]. lia.
Qed.
End Budget.

(** ** Properties *)


(** A transport that is there at once, and one that cannot name an address. *)
Definition exampleImpl : transportImpl := TransportImpl true (Some 65507) (fun _ port => Some (exampleAddr 1, port)).
Definition exampleStarts (i : nat) : option (transportImpl * Z) := Some (exampleImpl, 7946).

#[local] Existing Instance tagging.

Lemma default_keyring_valid hostname : keyring_valid (DefaultLANConfig hostname).
Proof. by intros k [=]. Qed.

Lemma exampleCreates :
  match Create (DefaultLANConfig "a") None exampleStarts (fun _ => None) 1 tt 0 5 with Some (Ok _) => true | _ => false end = true.
Proof. vm_compute. reflexivity. Qed.


(** A node's own announcement always fits its gossip: once the packet
    budget was checked at creation, an alive message of the node at any
    incarnation, with any IP address, port and meta data within the limit,
    leaves room for its framing in what a round of gossip may fill. *)
Theorem own_alive_fits {G D} `{RandLaws G} `{MathLog} `{GCM} c given start (g : G) (d : D) b inc addr port meta :
  keyring_valid c -> buildMemberlist c given start g d = Some (BuildOk b) -> 0 < bt_packetBufferSize b ->
  u32_ok inc -> len (slice_bytes addr) <= 16 -> u16_ok port -> len (slice_bytes meta) <= metaMaxSize (bt_conf b) ->
  exists avail, gossipBudget (bt_cfg b) (bt_nc b) = Some avail /\
    len (encode aliveMsg (MAlive (MkAlive inc (cf_Name c) addr port meta (BuildVsnArray (bt_cfg b))))) + compoundOverhead <= avail.
Proof.
  intros Hk Hb Hsize Hi Ha Hp Hm. destruct (buildMemberlist_total c given start g d Hk) as (o & E & Ho). rewrite Hb in E. injection E as <-.
  destruct (validateMetaMaxSize_total (bt_conf b) (bt_packetBufferSize b)) as (r & Er & Hfit & _). rewrite (fr_meta _ _ Ho) in Er. injection Er as <-.
  destruct (Hfit eq_refl Hsize) as (budget & Eb & _ & Hl). destruct (metaBudget_gossip _ _ _ Eb) as (avail & Eg & Hle).
  exists avail. split; [exact Eg|]. rewrite <- (fr_name _ _ Ho). pose proof (own_alive_size (bt_conf b) inc addr port meta Hi Ha Hp Hm). unfold bt_cfg. lia.
Qed.

Definition exampleBuilt : built (G := Z) (D := unit) :=
  match buildMemberlist (DefaultLANConfig "a") None exampleStarts 1 tt with
  | Some (BuildOk b) => b
  | _ => Built (DefaultLANConfig "a") (plainTransport exampleImpl) 0 (newNet (DefaultLANConfig "a") 1 tt)
  end.

Lemma exampleBuilds : buildMemberlist (DefaultLANConfig "a") None exampleStarts 1 tt = Some (BuildOk exampleBuilt).
Proof.
  unfold exampleBuilt. destruct (buildMemberlist (DefaultLANConfig "a") None exampleStarts 1 tt) as [[b|e running]|] eqn:E; [done|..];
    assert (Hb : match buildMemberlist (DefaultLANConfig "a") None exampleStarts 1 tt with Some (BuildOk _) => true | _ => false end = true)
      by (vm_compute; reflexivity); by rewrite E in Hb.
Qed.

Lemma own_alive_fits_witness :
  exists avail, gossipBudget (bt_cfg exampleBuilt) (bt_nc exampleBuilt) = Some avail /\
    len (encode aliveMsg (MAlive (MkAlive 1 "a" (exampleAddr 1) 7946 None (BuildVsnArray (bt_cfg exampleBuilt))))) + compoundOverhead <= avail.
Proof.
  apply (own_alive_fits (DefaultLANConfig "a") None exampleStarts 1 tt exampleBuilt 1 (exampleAddr 1) 7946 None).
  - apply default_keyring_valid.
  - exact exampleBuilds.
  - vm_compute. reflexivity.
  - vm_compute. split; discriminate.
  - vm_compute. discriminate.
  - vm_compute. split; discriminate.
  - vm_compute. discriminate.
Defined.


Definition exampleNowhere (i : nat) : option (transportImpl * Z) := Some (TransportImpl true None (fun _ _ => None), 7946).

Lemma exampleNowhere_fails : buildMemberlist (DefaultLANConfig "a") None exampleNowhere 1 tt = Some (BuildFailed NoAdvertiseAddr true).
Proof.
  assert (Hb : match buildMemberlist (DefaultLANConfig "a") None exampleNowhere 1 tt with Some (BuildFailed NoAdvertiseAddr true) => true | _ => false end = true)
    by (vm_compute; reflexivity).
  destruct (buildMemberlist (DefaultLANConfig "a") None exampleNowhere 1 tt) as [[|[] []]|]; done.
Qed.


(** The defaults are accepted, for every host name of up to 800 bytes, on a
    transport that takes packets of the default size. *)
Lemma defaults_build {G D} `{RandLaws G} `{MathLog} `{GCM} hostname start t port (g : G) (d : D) c :
  c = DefaultLANConfig hostname \/ c = DefaultWANConfig hostname \/ c = DefaultLocalConfig hostname ->
  len (str2b hostname) <= 800 -> start 0%nat = Some (t, port) -> is_Some (ti_FinalAdvertiseAddr t "" 7946) ->
  (forall size, ti_MaxPacketSize t = Some size -> size <= 0 \/ 1400 <= size) ->
  exists b, buildMemberlist c None start g d = Some (BuildOk b) /\ bt_packetBufferSize b = 1400.
Proof.
  intros Hc Hl Hs [[addr p] Ha] Hm.
  assert (Ec : cf_Name c = hostname /\ cf_Label c = "" /\ cf_ProtocolVersion c = 2 /\ cf_SecretKey c = [] /\ cf_Keyring c = None /\ cf_BindPort c = 7946 /\
    cf_UDPBufferSize c = 1400 /\ cf_MetaMaxSize c = 0 /\ cf_AdvertiseAddr c = "" /\ cf_AdvertisePort c = 7946)
    by (destruct Hc as [-> |[-> | ->]]; by split_and!).
  destruct Ec as (E1 & E2 & E3 & E4 & E5 & E6 & E7 & E8 & E9 & E10). unfold buildMemberlist. rewrite E3.
  change (2 <? ProtocolVersionMin) with false. change (2 >? ProtocolVersionMax) with false. cbv iota.
  unfold useSecretKey. rewrite E4. change (len [] >? 0) with false. cbv iota. cbn [mbind option_bind]. unfold makeTransport. rewrite E6. change (7946 =? 0) with false. cbv iota. cbn [makeNetRetry]. rewrite Hs. cbn [mbind option_bind].
  rewrite E2. change (len (str2b "") >? LabelMaxSize) with false. cbv iota.
  assert (Ew : wrapTransport c t = plainTransport t \/ wrapTransport c t = shimNodeAwareTransport (plainTransport t))
    by (unfold wrapTransport; rewrite E2; cbn; destruct (ti_nodeAware t); [by left|by right]).
  assert (Ep : packetBudget c (wrapTransport c t) = 1400).
  { unfold packetBudget. rewrite E7. assert (Ex : maxPacketSizeOf (wrapTransport c t) = maxPacketSizeOf (plainTransport t)) by (by destruct Ew as [-> | ->]).
    rewrite Ex. cbn [maxPacketSizeOf]. destruct (ti_MaxPacketSize t) as [size|]; [|done]. destruct (Hm size eq_refl); destruct (Z.gtb_spec size 0); try lia; try done.
    cbn [Z.leb Z.compare]. lia. }
  assert (Ev : validateMetaMaxSize c 1400 = Some (Ok tt)).
  { unfold validateMetaMaxSize, metaMaxSize, metaBudget, EncryptionEnabled. rewrite E8, E2. cbn [nc_Keyring netConfig]. rewrite E5.
    change (1400 <=? 0) with false. change (0 >? 0) with false. cbv iota. cbn [mbind option_bind].
    change (Z.min 1400 MaxUint16 - (compoundHeaderOverhead + compoundOverhead + crcOverhead) - labelOverhead "") with 1391.
    change (MetaMaxSize >? 1391) with false. cbv iota. rewrite encode_alive_size. unfold aliveSize, worstAlive. cbn [Alive_Addr Alive_Incarnation Alive_Meta Alive_Node Alive_Port Alive_Vsn].
    change (bytesSize (BuildVsnArray (stateConfig c))) with 7. change (bytesSize (Some (replicate 16 (z2b 0)))) with 17.
    change (bytesSize (Some (replicate (Z.to_nat MetaMaxSize) (z2b 0)))) with 515. change (uintSize MaxUint32) with 5. change (uintSize MaxUint16) with 3.
    rewrite E1. pose proof (rawSize_mono _ _ Hl) as Hr. change (rawSize 800) with 803 in Hr.
    match goal with |- context [?a >? 1391] => destruct (Z.gtb_spec a 1391) end; [lia|done]. }
  rewrite Ep, Ev. cbn [mbind option_bind]. unfold refreshAdvertise. cbn [bt_transport bt_conf]. rewrite E9, E10.
  assert (Ef : FinalAdvertiseAddr (wrapTransport c t) "" 7946 = Some (addr, p)) by (destruct Ew as [-> | ->]; exact Ha).
  rewrite Ef. cbn [mbind option_bind]. by eexists.
Qed.
