(* ===== verification/Join.v ===== *)
(** Joining a cluster, [src/memberlist.go]: how the text a caller gives is
    resolved to addresses, the name servers of a [resolv.conf], and the state
    exchanges of [Join].

    The system resolver and the lookup over TCP are arguments; what they are
    asked is not. *)

From S2P Require Import Prelude Msgpack Wire Treap Timing Queue NetAddr Nodes Events Packet State Lifecycle Membership Security HostPort Acks Net Streams Ingest.

(** ** Text of the standard library *)

Definition newline : byte := z2b 10.
Definition slash : byte := ch "/".

(** [strings.Lines], each line with its end. *)
Fixpoint linesFrom (line s : bytes) : list bytes :=
  match s with
  | [] => if len line =? 0 then [] else [line]
  | c :: s => if Byte.eqb c newline then (line ++ [c]) :: linesFrom [] s else linesFrom (line ++ [c]) s
  end.
Definition Lines (s : bytes) : list bytes := linesFrom [] s.

(** The bytes of the white space at the front: [unicode.IsSpace], whose
    characters start with bytes no other character continues with. *)
Definition spaceWidth (s : bytes) : nat :=
  match map b2z (take 3 s) with
  | c :: rest =>
      if ((9 <=? c) && (c <=? 13)) || (c =? 32) then 1%nat
      else
        match rest with
        | d :: rest =>
            if (c =? 194) && ((d =? 133) || (d =? 160)) then 2%nat
            else
              match rest with
              | e :: _ =>
                  if ((c =? 225) && (d =? 154) && (e =? 128)) ||
                     ((c =? 226) && (d =? 128) && (((128 <=? e) && (e <=? 138)) || (e =? 168) || (e =? 169) || (e =? 175))) ||
                     ((c =? 226) && (d =? 129) && (e =? 159)) || ((c =? 227) && (d =? 128) && (e =? 128)) then 3%nat
                  else 0%nat
              | [] => 0%nat
              end
        | [] => 0%nat
        end
  | [] => 0%nat
  end.

(** [strings.Fields]; a round takes a byte or a white space. *)
Fixpoint fieldsFrom (fuel : nat) (field s : bytes) : list bytes :=
  let done := if len field =? 0 then [] else [field] in
  match fuel with
  | O => done
  | S fuel =>
      match s with
      | [] => done
      | c :: s' =>
          match spaceWidth s with
          | O => fieldsFrom fuel (field ++ [c]) s'
          | n => done ++ fieldsFrom fuel [] (drop n s)
          end
      end
  end.
Definition Fields (s : bytes) : list bytes := fieldsFrom (length s) [] s.

(** [strconv.ParseUint(s, 10, 16)] *)
Fixpoint parseUint (s : bytes) (n : Z) : option Z :=
  match s with
  | [] => Some n
  | c :: s =>
      if isDigit c then
        let n := n * 10 + (b2z c - 48) in
        if n >? MaxUint16 then None else parseUint s n
      else None
  end.
Definition ParseUint16 (s : bytes) : option Z := match s with [] => None | _ => parseUint s 0 end.

(** ** Name servers *)

Definition comment (c : byte) : bool := Byte.eqb c (ch "#") || Byte.eqb c (ch ";").

(** [line[:i]] for the first comment character, if there is one. *)
Fixpoint uncommented (line : bytes) : bytes :=
  match line with
  | [] => []
  | c :: line => if comment c then [] else c :: uncommented line
  end.

Definition nameserver (line : bytes) : option bytes :=
  match Fields (uncommented line) with
  | keyword :: server :: _ =>
      if bool_decide (keyword = str2b "nameserver") then
        Some (if hasPort server then server else JoinHostPort (trimBrackets server) (str2b "53"))
      else None
  | _ => None
  end.

(** [data] is the file, if it could be read. *)
Definition readNameservers (data : option bytes) : option (list bytes) := text ← data; Some (omap nameserver (Lines text)).

(** ** Resolving *)

Record ipPort := IpPort { ip_ip : bytes; ip_port : Z; ip_nodeName : string }.

(** [Unmap] and [AsSlice] of an address. *)
Definition unmapSlice (ip : bytes) : bytes := match To4 ip with Some p4 => p4 | None => ip end.

(** What the resolvers answer: the addresses of a name, asked of a server or
    of the system; [None] is an error. *)
Class Resolver := {
  LookupNetIP : bytes -> bytes -> option (list bytes);
  LookupIP : bytes -> option (list bytes);
}.

Inductive resolveError := EmptyNodeName | BadHostPort | BadPort | LookupFailed.

Section Resolve.
Context {RS : Resolver}.

(** [None] is an error, which only is logged. *)
Definition tcpLookupIP (dnsConfig : option bytes) (host : bytes) (defaultPort : Z) (nodeName : string) : option (list ipPort) :=
  if negb (contains host dot) then Some []
  else
    let dn := match last host with Some c => if Byte.eqb c dot then host else host ++ [dot] | None => host end in
    servers ← readNameservers dnsConfig;
    match servers with
    | [] => Some []
    | server :: _ =>
        addrs ← LookupNetIP server dn;
        Some (map (fun a => IpPort (unmapSlice a) defaultPort nodeName) addrs)
    end.

(** The node name in front, if there is one. *)
Definition splitName (hostStr : bytes) : result resolveError (string * bytes) :=
  let slashIdx := IndexByte hostStr slash in
  if slashIdx >=? 0 then
    if slashIdx =? 0 then Err EmptyNodeName
    else Ok (b2str (take (Z.to_nat slashIdx) hostStr), drop (Z.to_nat (slashIdx + 1)) hostStr)
  else Ok (""%string, hostStr).

Definition resolveAddr (bindPort : Z) (dnsConfig : option bytes) (hostStr : bytes) : result resolveError (list ipPort) :=
  let! (nodeName, hostStr) := splitName hostStr in
  match SplitHostPort (ensurePort hostStr bindPort) with
  | None => Err BadHostPort
  | Some (host, sport) =>
      match ParseUint16 sport with
      | None => Err BadPort
      | Some port =>
          match ParseIP host with
          | Some ip => Ok [IpPort ip port nodeName]
          | None =>
              match default [] (tcpLookupIP dnsConfig host port nodeName) with
              | ip :: ips => Ok (ip :: ips)
              | [] =>
                  match LookupIP host with
                  | None => Err LookupFailed
                  | Some ans => Ok (map (fun ip => IpPort ip port nodeName) ans)
                  end
              end
          end
      end
  end.
End Resolve.

(** ** Joining *)

Inductive joinError := ResolveFailed (host : bytes) (e : resolveError) | JoinFailed (a : PeerAddress) (e : exchangeError).

Section Join.
Context {G : Type} {RG : Rand G} {ML : MathLog} {LZ : LZW} {GC : GCM} {TR : Transport} {D : Type} {DL : Delegates D} {RS : Resolver}.
Context (cfg : Config) (nc : NetConfig) (nonceAt : Z -> bytes) (dnsConfig : option bytes).
Implicit Types x : Net (G := G) (D := D).

(** How each connection goes, and when its merge happens; the attempts are
    numbered. *)
Variable dial : Z -> option dialled * Z.

Definition joinAddress (addr : ipPort) : PeerAddress := (joinHostPort (ipString (ip_ip addr)) (ip_port addr), ip_nodeName addr).

(** The loop over the addresses of one host. *)
Fixpoint joinHost x (addrs : list ipPort) (attempt numSuccess : Z) (errs : list joinError) : option (Z * Z * list joinError * Net) :=
  match addrs with
  | [] => Some (attempt, numSuccess, errs, x)
  | addr :: addrs =>
      let a := joinAddress addr in
      let '(peer, now) := dial attempt in
      '(r, x) ← pushPullNode cfg nc nonceAt x a true peer now;
      match r with
      | Err e => joinHost x addrs (attempt + 1) numSuccess (errs ++ [JoinFailed a e])
      | Ok _ => joinHost x addrs (attempt + 1) (numSuccess + 1) errs
      end
  end.

Fixpoint joinAll x (existing : list bytes) (attempt numSuccess : Z) (errs : list joinError) : option (Z * list joinError * Net) :=
  match existing with
  | [] => Some (numSuccess, errs, x)
  | host :: existing =>
      match resolveAddr (nc_BindPort nc) dnsConfig host with
      | Err e => joinAll x existing attempt numSuccess (errs ++ [ResolveFailed host e])
      | Ok addrs =>
          '(attempt, numSuccess, errs, x) ← joinHost x addrs attempt numSuccess errs;
          joinAll x existing attempt numSuccess errs
      end
  end.

(** The count, or the errors; joining no errors gives no error. *)
Definition Join x (existing : list bytes) : option (Z * list joinError * Net) :=
  '(numSuccess, errs, x) ← joinAll x existing 0 0 [];
  Some (if numSuccess >? 0 then (numSuccess, [], x) else (0, errs, x)).
End Join.

(** ** Lemmas: addresses *)

Lemma parseUint_app a b n : parseUint (a ++ b) n = v ← parseUint a n; parseUint b v.
Proof.
  revert n. induction a as [|c a IH]; intros n; [done|]. cbn [app parseUint]. destruct (isDigit c); [|done]. destruct (_ >? MaxUint16); [done|]. apply IH.
Qed.

Lemma digit_value d : 0 <= d < 10 -> isDigit (digit d) = true /\ b2z (digit d) - 48 = d.
Proof.
  intros Hd. unfold isDigit, digit. rewrite (proj2 (Z.ltb_lt d 10)) by lia. rewrite b2z_z2b_small by lia.
  split; [|lia]. apply andb_true_intro. split; apply Z.leb_le; lia.
Qed.

Lemma parseUint_digits fuel n : 0 <= n <= MaxUint16 -> n < 10 ^ Z.of_nat fuel -> parseUint (digits fuel 10 n) 0 = Some n.
Proof.
  revert n. induction fuel as [|fuel IH]; intros n Hn Hf; [change (10 ^ Z.of_nat 0) with 1 in Hf; replace n with 0 by lia; done|].
  cbn [digits]. destruct (Z.ltb_spec n 10) as [Hs|Hs].
  - cbn [parseUint]. destruct (digit_value n) as [-> ->]; [lia|]. replace (0 * 10 + n) with n by lia.
    destruct (Z.gtb_spec n MaxUint16); [lia|done].
  - assert (Hq : 0 <= n / 10 <= MaxUint16 /\ n / 10 < 10 ^ Z.of_nat fuel).
    { rewrite Nat2Z.inj_succ, Z.pow_succ_r in Hf by lia. split; [|apply Z.div_lt_upper_bound; lia].
      split; [apply Z.div_pos; lia|]. pose proof (Z.div_le_upper_bound n 10 n). lia. }
    rewrite parseUint_app, IH by apply Hq. cbn [mbind option_bind parseUint]. pose proof (Z.mod_pos_bound n 10).
    destruct (digit_value (n mod 10)) as [-> ->]; [lia|]. replace (n / 10 * 10 + n mod 10) with n by (pose proof (Z.div_mod n 10); lia).
    destruct (Z.gtb_spec n MaxUint16); [lia|done].
Qed.

Lemma ParseUint16_itoa n : u16_ok n -> ParseUint16 (itoa n) = Some n.
Proof.
  intros Hn. unfold u16_ok, MaxUint16 in Hn. assert (E : parseUint (itoa n) 0 = Some n) by (apply parseUint_digits; [unfold MaxUint16; lia|cbn; lia]).
  unfold ParseUint16. destruct (itoa n) eqn:Ei; [|done]. exfalso. unfold itoa in Ei. cbn [digits] in Ei. destruct (n <? 10); [done|].
  by apply app_eq_nil in Ei as [_ ?].
Qed.

Lemma splitName_named name rest :
  name <> [] -> slash ∉ name -> splitName (name ++ slash :: rest) = Ok (b2str name, rest).
Proof.
  intros Hne Hs. unfold splitName. rewrite IndexByte_at by done. pose proof (len_nonneg name) as Hl.
  rewrite (proj2 (Z.geb_le _ _)) by lia. rewrite (proj2 (Z.eqb_neq _ _)) by (destruct name; [done|rewrite len_cons; pose proof (len_nonneg name); lia]).
  replace (Z.to_nat (len name)) with (length name) by (unfold len; lia). replace (Z.to_nat (len name + 1)) with (length name + 1)%nat by (unfold len; lia).
  by rewrite take_app_length, drop_app_add.
Qed.

Lemma ipString_mapped ip : len ip = 4 -> ipString (v4InV6Prefix ++ ip) = ip4String ip /\ ipString ip = ip4String ip.
Proof.
  intros Hip. assert (E : To4 ip = Some ip) by (unfold To4; by rewrite Hip). unfold ipString. rewrite To4_mapped, E by done.
  rewrite len_app, Hip. done.
Qed.

Lemma trimLeft_bare s : lbracket ∉ s -> rbracket ∉ s -> trimLeft s = s.
Proof.
  intros Hl Hr. destruct s as [|c s]; [done|]. cbn [trimLeft]. unfold bracket. rewrite !byte_eqb_neq; [done|..];
    intros ->; [apply Hr|apply Hl]; by left.
Qed.

Lemma ip4String_bare ip : hasPort (ip4String ip) = false /\ trimBrackets (ip4String ip) = ip4String ip.
Proof.
  pose proof (ip4String_plain ip) as Hp. split.
  - unfold hasPort, LastIndex. rewrite lastIndexFrom_absent by (apply Hp; auto). rewrite Count_absent by (apply Hp; auto). done.
  - unfold trimBrackets. rewrite (trimLeft_bare (ip4String ip)) by (apply Hp; auto). rewrite trimLeft_bare; [apply rev_involutive|..];
      rewrite list_elem_of_In, <- in_rev, <- list_elem_of_In; apply Hp; auto.
Qed.

(** ** Lemmas: joining *)

Section JoinLemmas.
Context {G : Type} {RG : Rand G} {RL : RandLaws G} {ML : MathLog} {LZ : LZW} {GC : GCM} {TR : Transport} {D : Type} {DL : Delegates D} {RS : Resolver}.
Context (cfg : Config) (nc : NetConfig) (nonceAt : Z -> bytes) (dnsConfig : option bytes) (dial : Z -> option dialled * Z) (Hk : keys_ok nc).
Implicit Types x : Net (G := G) (D := D).

(** An exchange that fails merges nothing. *)
Lemma pushPullNode_failed x a join peer now e x' :
  pushPullNode cfg nc nonceAt x a join peer now = Some (Err e, x') -> x_m x' = x_m x.
Proof.
  unfold pushPullNode. destruct (sendAndReceiveState cfg nc nonceAt x a join peer) as [[r x1]|] eqn:E1; [|done]. cbn [mbind option_bind].
  assert (Em : x_m x1 = x_m x).
  { unfold sendAndReceiveState in E1. destruct (nameless nc a); [by injection E1 as _ <-|].
    destruct (dialLabelled nc peer) as [[c answer]|]; [|by injection E1 as _ <-].
    destruct (sendLocalState_total cfg nc nonceAt Hk x c join (nc_Label nc)) as (r' & c1 & x2 & E2 & Ht). rewrite E2 in E1. cbn [mbind option_bind] in E1.
    rewrite <- (talks_m x x2 Ht). destruct r' as [[]|]; [|by injection E1 as _ <-]. by injection E1 as _ <-. }
  destruct r as [[remote user]|e']; [|by intros [= _ <-]]. rewrite <- Em. clear E1 Em. unfold mergeRemoteState, mergeCommit.
  destruct (verifyProtocol (nodeList x1) remote); [|by intros [= _ <-]].
  destruct (join && nc_Merge nc); [destruct (DelegateNotifyMerge _ _) as [[] d]; [|by intros [= _ <-]]|];
    repeat match goal with
    | |- context [verifyProtocol ?l remote] => destruct (verifyProtocol l remote); [|by intros [= _ <-]]
    | |- context [mergeState cfg ?m remote now] => by destruct (mergeState cfg m remote now)
    end.
Qed.

(** The exchanges with a list of addresses, one after the other from the
    attempt with the given number, and how each of them ended. *)
Inductive exchanges : Net (G := G) (D := D) -> Z -> list ipPort -> list (result exchangeError unit) -> Net -> Prop :=
| exchanges_none x attempt : exchanges x attempt [] [] x
| exchanges_next x attempt addr addrs r outs x1 x' :
    pushPullNode cfg nc nonceAt x (joinAddress addr) true (dial attempt).1 (dial attempt).2 = Some (r, x1) ->
    exchanges x1 (attempt + 1) addrs outs x' -> exchanges x attempt (addr :: addrs) (r :: outs) x'.

Definition succeeded (r : result exchangeError unit) : bool := match r with Ok _ => true | Err _ => false end.
Definition successes (outs : list (result exchangeError unit)) : Z := len (List.filter succeeded outs).

(** The errors of the exchanges that failed, and all errors in the order of
    the hosts. *)
Definition exchangeErrors (addrs : list ipPort) (outs : list (result exchangeError unit)) : list joinError :=
  omap (fun '(addr, r) => match r with Err e => Some (JoinFailed (joinAddress addr) e) | Ok _ => None end) (zip addrs outs).
Fixpoint joinErrors (existing : list bytes) (outs : list (result exchangeError unit)) : list joinError :=
  match existing with
  | [] => []
  | host :: existing =>
      match resolveAddr (nc_BindPort nc) dnsConfig host with
      | Err e => ResolveFailed host e :: joinErrors existing outs
      | Ok addrs => exchangeErrors addrs (take (length addrs) outs) ++ joinErrors existing (drop (length addrs) outs)
      end
  end.

Lemma successes_cons r outs : successes (r :: outs) = (if succeeded r then 1 else 0) + successes outs.
Proof. unfold successes. cbn [List.filter]. destruct (succeeded r); [by rewrite len_cons|done]. Qed.

Lemma successes_app a b : successes (a ++ b) = successes a + successes b.
Proof. unfold successes. by rewrite List.filter_app, len_app. Qed.

Lemma successes_nonneg outs : 0 <= successes outs.
Proof. apply len_nonneg. Qed.

Lemma exchanges_length x attempt addrs outs x' : exchanges x attempt addrs outs x' -> length outs = length addrs.
Proof. induction 1; cbn; congruence. Qed.

Lemma exchanges_app x attempt a outs x1 b outs' x' :
  exchanges x attempt a outs x1 -> exchanges x1 (attempt + len a) b outs' x' -> exchanges x attempt (a ++ b) (outs ++ outs') x'.
Proof.
  induction 1 as [|x attempt addr addrs r outs x1 x2 E _ IH]; cbn [app]; intros Hb; [by rewrite Z.add_0_r in Hb|].
  econstructor; [exact E|]. apply IH. rewrite len_cons in Hb. by replace (attempt + 1 + len addrs) with (attempt + (1 + len addrs)) by lia.
Qed.

Lemma joinHost_total x addrs attempt n errs :
  net_ok cfg nc x -> room (maxPushStateNodes * len addrs) (x_m x) ->
  exists outs x', exchanges x attempt addrs outs x' /\
    joinHost cfg nc nonceAt dial x addrs attempt n errs = Some (attempt + len addrs, n + successes outs, errs ++ exchangeErrors addrs outs, x') /\
    survives cfg nc (maxPushStateNodes * len addrs) x x' /\ (successes outs = 0 -> x_m x' = x_m x).
Proof.
  revert x attempt n errs. induction addrs as [|addr addrs IH]; intros x attempt n errs Hx Hr; cbn [joinHost].
  { exists [], x. change (successes []) with 0. rewrite app_nil_r, !Z.add_0_r. split_and!; [constructor|done|by apply survives_same|done]. }
  rewrite len_cons in *. change maxPushStateNodes with 1048576 in *. pose proof (len_nonneg addrs) as Hl.
  destruct (dial attempt) as [peer now] eqn:Ed.
  assert (Hr1 : room maxPushStateNodes (x_m x)) by (unfold room in *; change maxPushStateNodes with 1048576; lia).
  destruct (pushPullNode_total cfg nc nonceAt Hk x (joinAddress addr) true peer now) as (r & x1 & remote & E & Hlr & Hm); [by apply (room_merges cfg nc)|].
  rewrite E. cbn [mbind option_bind]. pose proof (merges_survives cfg nc x remote now x1 Hx Hr1 Hlr Hm) as H1. change maxPushStateNodes with 1048576 in H1.
  assert (Hr2 : room (1048576 * len addrs) (x_m x1)) by (destruct H1 as [_ _ Hg]; unfold room in *; lia).
  assert (Hstep : exists errs1, match r with
      | Err e => joinHost cfg nc nonceAt dial x1 addrs (attempt + 1) n (errs ++ [JoinFailed (joinAddress addr) e])
      | Ok _ => joinHost cfg nc nonceAt dial x1 addrs (attempt + 1) (n + 1) errs
      end = joinHost cfg nc nonceAt dial x1 addrs (attempt + 1) (n + (if succeeded r then 1 else 0)) errs1 /\
      forall outs, errs1 ++ exchangeErrors addrs outs = errs ++ exchangeErrors (addr :: addrs) (r :: outs)).
  { destruct r as [[]|e]; cbn [succeeded]; [by exists errs|]. exists (errs ++ [JoinFailed (joinAddress addr) e]). rewrite Z.add_0_r.
    split; [done|]. intros outs. by rewrite <- app_assoc. }
  destruct Hstep as (errs1 & -> & He). destruct (IH x1 (attempt + 1) (n + (if succeeded r then 1 else 0)) errs1 (sv_ok _ _ _ _ _ H1) Hr2)
    as (outs & x' & Ht & -> & H2 & Hz). exists (r :: outs), x'. rewrite He, successes_cons. pose proof (successes_nonneg outs). split_and!.
  - econstructor; [rewrite Ed; exact E|exact Ht].
  - rewrite !Z.add_assoc. by replace (attempt + 1 + len addrs) with (attempt + 1 + len addrs) by lia.
  - replace (1048576 * (1 + len addrs)) with (1048576 + 1048576 * len addrs) by lia. by eapply survives_trans.
  - intros Ez. destruct r as [[]|e]; cbn [succeeded] in Ez; [lia|]. rewrite (Hz Ez). by eapply pushPullNode_failed.
Qed.

(** The addresses a list of hosts stands for. *)
Definition resolved (existing : list bytes) : list ipPort :=
  concat (map (fun host => match resolveAddr (nc_BindPort nc) dnsConfig host with Ok addrs => addrs | Err _ => [] end) existing).

Lemma joinAll_total x existing attempt n errs :
  net_ok cfg nc x -> room (maxPushStateNodes * len (resolved existing)) (x_m x) ->
  exists outs x', exchanges x attempt (resolved existing) outs x' /\
    joinAll cfg nc nonceAt dnsConfig dial x existing attempt n errs = Some (n + successes outs, errs ++ joinErrors existing outs, x') /\
    survives cfg nc (maxPushStateNodes * len (resolved existing)) x x' /\ (successes outs = 0 -> x_m x' = x_m x).
Proof.
  revert x attempt n errs. induction existing as [|host existing IH]; intros x attempt n errs Hx Hr; cbn [joinAll joinErrors].
  { exists [], x. change (successes []) with 0. rewrite app_nil_r, Z.add_0_r. split_and!; [constructor|done|by apply survives_same|done]. }
  unfold resolved in *. cbn [map concat] in *. destruct (resolveAddr (nc_BindPort nc) dnsConfig host) as [addrs|e].
  - rewrite len_app in *. set (rest := concat _) in *. pose proof (len_nonneg addrs). pose proof (len_nonneg rest). change maxPushStateNodes with 1048576 in *.
    destruct (joinHost_total x addrs attempt n errs Hx) as (outs & x1 & Ht & -> & H1 & Hz).
    { unfold room in *. change maxPushStateNodes with 1048576. lia. }
    change maxPushStateNodes with 1048576 in H1. cbn [mbind option_bind].
    destruct (IH x1 (attempt + len addrs) (n + successes outs) (errs ++ exchangeErrors addrs outs) (sv_ok _ _ _ _ _ H1)) as (outs2 & x' & Ht2 & -> & H2 & Hz2).
    { destruct H1 as [_ _ Hg]. unfold room in *. lia. }
    pose proof (exchanges_length _ _ _ _ _ Ht) as Hl. pose proof (successes_nonneg outs). pose proof (successes_nonneg outs2).
    exists (outs ++ outs2), x'. rewrite successes_app, Z.add_assoc, <- app_assoc, <- Hl, take_app_length, drop_app_length. split_and!; [|done| |].
    + by eapply exchanges_app.
    + rewrite Z.mul_add_distr_l. by eapply survives_trans.
    + intros E. rewrite Hz2, Hz by lia. done.
  - cbn [app] in *. destruct (IH x attempt n (errs ++ [ResolveFailed host e]) Hx Hr) as (outs & x' & Ht & -> & H2 & Hz).
    exists outs, x'. rewrite <- app_assoc. by split_and!.
Qed.
End JoinLemmas.

(** ** Properties *)


(** An address is its own name: a node name and an IPv4 address with a
    port, written as the node itself writes them, resolve to that address
    without any lookup, and contacting it uses the text it was written as;
    without a port it is the configured one. *)
Theorem resolve_literal `{Resolver} bindPort dnsConfig name ip port :
  name <> [] -> slash ∉ name -> len ip = 4 -> u16_ok port -> u16_ok bindPort ->
  resolveAddr bindPort dnsConfig (name ++ slash :: joinHostPort (ipString ip) port) = Ok [IpPort (v4InV6Prefix ++ ip) port (b2str name)] /\
  joinAddress (IpPort (v4InV6Prefix ++ ip) port (b2str name)) = (joinHostPort (ipString ip) port, b2str name) /\
  resolveAddr bindPort dnsConfig (name ++ slash :: ipString ip) = Ok [IpPort (v4InV6Prefix ++ ip) bindPort (b2str name)].
Proof.
  intros Hne Hs Hip Hp Hb. destruct (ipString_mapped ip Hip) as [Em E4].
  assert (Hres : forall p, u16_ok p -> forall text, ensurePort text bindPort = joinHostPort (ip4String ip) p ->
    resolveAddr bindPort dnsConfig (name ++ slash :: text) = Ok [IpPort (v4InV6Prefix ++ ip) p (b2str name)]).
  { intros p Hp' text Et. unfold resolveAddr. rewrite splitName_named by done. cbn [rbind]. rewrite Et, SplitHostPort_ip4 by apply Hp'.
    by rewrite ParseUint16_itoa, ParseIP_ip4String by done. }
  assert (Hpl : forall p, u16_ok p -> hasPort (joinHostPort (ip4String ip) p) = true).
  { intros p [Hp0 _]. apply JoinHostPort_hasPort; [apply ip4String_plain; auto..|done]. }
  split_and!.
  - rewrite E4. apply Hres; [done|]. unfold ensurePort. by rewrite Hpl.
  - unfold joinAddress. cbn [ip_ip ip_port ip_nodeName]. by rewrite Em, E4.
  - rewrite E4. apply Hres; [done|]. unfold ensurePort, joinHostPort.
    by rewrite (proj1 (ip4String_bare ip)), (proj2 (ip4String_bare ip)).
Qed.

#[local] Existing Instance exampleTransport.
#[local] Existing Instance exampleDelegates.
#[local] Existing Instance storedLZW.
#[local] Existing Instance tagging.
#[local] Instance exampleResolver : Resolver := {| LookupNetIP _ _ := None; LookupIP _ := None |}.

(** An address, a name that does not resolve and one that is empty. *)
Definition exampleHosts : list bytes := [str2b "b/10.0.0.2:7946"; str2b "nowhere"; str2b "/10.0.0.3"].

