(* ===== verification/Schedule.v ===== *)
(** The periodic triggers, [src/state.go]: which are started, and that they
    are stopped.

    A trigger goroutine runs until the stop channel it was given is closed;
    the times at which it fires are those of its ticker, or of the scaled
    interval for push/pulls. *)

From S2P Require Import Prelude Timing.

Inductive trigger := ProbeTrigger | PushPullTrigger | GossipTrigger.

(** The intervals of [Config] that decide what runs. *)
Record intervals := Intervals {
  iv_ProbeInterval : Z;
  iv_PushPullInterval : Z;
  iv_GossipInterval : Z;
  iv_GossipNodes : Z;
}.

(** [sd_running] are the trigger goroutines with their stop channels, which
    are numbers, and [sd_closed] the channels that are closed. *)
Record scheduler := Scheduler {
  sd_stopTick : option Z;
  sd_tickers : list trigger;
  sd_running : list (trigger * Z);
  sd_closed : list Z;
  sd_next : Z;
}.

Definition newScheduler : scheduler := Scheduler None [] [] [] 0.

Definition schedule (c : intervals) (s : scheduler) : scheduler :=
  match sd_stopTick s with
  | Some _ => s
  | None =>
      let stopCh := sd_next s in
      let s := Scheduler None (sd_tickers s) (sd_running s) (sd_closed s) (sd_next s + 1) in
      let s := if iv_ProbeInterval c >? 0 then
                 Scheduler None (sd_tickers s ++ [ProbeTrigger]) (sd_running s ++ [(ProbeTrigger, stopCh)]) (sd_closed s) (sd_next s) else s in
      let s := if iv_PushPullInterval c >? 0 then
                 Scheduler None (sd_tickers s) (sd_running s ++ [(PushPullTrigger, stopCh)]) (sd_closed s) (sd_next s) else s in
      let s := if (iv_GossipInterval c >? 0) && (iv_GossipNodes c >? 0) then
                 Scheduler None (sd_tickers s ++ [GossipTrigger]) (sd_running s ++ [(GossipTrigger, stopCh)]) (sd_closed s) (sd_next s) else s in
      if (len (sd_tickers s) >? 0) || (iv_PushPullInterval c >? 0) then
        Scheduler (Some stopCh) (sd_tickers s) (sd_running s) (sd_closed s) (sd_next s)
      else s
  end.

Definition deschedule (s : scheduler) : scheduler :=
  match sd_stopTick s with
  | None => s
  | Some stop => Scheduler None [] (sd_running s) (sd_closed s ++ [stop]) (sd_next s)
  end.

(** The triggers that go on: their stop channel is open. *)
Definition active (s : scheduler) : list trigger := map fst (List.filter (fun t => negb (bool_decide (t.2 ∈ sd_closed s))) (sd_running s)).

(** ** Trigger goroutines *)

(** How a select of a trigger ends: its timer or ticker, or the stop channel. *)
Inductive selected := Fired | Stopped.

Section Triggers.
Context {S : Type} (f : S -> S).

(** The loop of [triggerFunc]; the answer says whether it has returned. *)
Fixpoint triggerLoop (s : S) (w : list selected) : S * bool :=
  match w with
  | [] => (s, false)
  | Fired :: w => triggerLoop (f s) w
  | Stopped :: _ => (s, true)
  end.

(** [None] is the panic of [rand.N] for a stagger that is not positive. *)
Definition triggerFunc (stagger : Z) (s : S) (w : list selected) : option (S * bool) :=
  if stagger <=? 0 then None
  else
    Some match w with
         | [] => (s, false)
         | Fired :: w => triggerLoop s w
         | Stopped :: _ => (s, true)
         end.

(** The loop of [pushPullTrigger] with the waits it asked for. *)
Fixpoint pushPullLoop `{MathLog} (interval : Z) (estNumNodes : S -> Z) (s : S) (w : list selected) (asked : list Z) : S * bool * list Z :=
  let asked := asked ++ [pushPullScale interval (estNumNodes s)] in
  match w with
  | [] => (s, false, asked)
  | Fired :: w => pushPullLoop interval estNumNodes (f s) w asked
  | Stopped :: _ => (s, true, asked)
  end.

Definition pushPullTrigger `{MathLog} (interval : Z) (estNumNodes : S -> Z) (s : S) (w : list selected) : option (S * bool * list Z) :=
  if interval <=? 0 then None
  else
    Some match w with
         | [] => (s, false, [])
         | Fired :: w => pushPullLoop interval estNumNodes s w []
         | Stopped :: _ => (s, true, [])
         end.
End Triggers.

(** The stagger each trigger is started with. *)
Definition staggerOf (c : intervals) (t : trigger) : Z :=
  match t with ProbeTrigger => iv_ProbeInterval c | PushPullTrigger => iv_PushPullInterval c | GossipTrigger => iv_GossipInterval c end.

(** What the configuration asks for. *)
Definition configured (c : intervals) : list trigger :=
  (if iv_ProbeInterval c >? 0 then [ProbeTrigger] else []) ++ (if iv_PushPullInterval c >? 0 then [PushPullTrigger] else []) ++
  (if (iv_GossipInterval c >? 0) && (iv_GossipNodes c >? 0) then [GossipTrigger] else []).

Record scheduler_ok (c : intervals) (s : scheduler) : Prop := {
  sc_active : active s = match sd_stopTick s with Some _ => configured c | None => [] end;
  sc_tickers : sd_stopTick s = None -> sd_tickers s = [];
  sc_stop : forall stop, sd_stopTick s = Some stop -> ~ stop ∈ sd_closed s /\ forall t, t ∈ sd_running s -> ~ t.2 ∈ sd_closed s -> t.2 = stop;
  sc_old : forall stop, sd_stopTick s = Some stop -> stop < sd_next s;
  sc_fresh : Forall (fun t => t.2 < sd_next s) (sd_running s) /\ Forall (fun i => i < sd_next s) (sd_closed s);
}.

(** ** Lemmas *)

Lemma schedule_running c s :
  sd_stopTick s = None -> sd_tickers s = [] ->
  exists tickers, schedule c s = Scheduler (match configured c with [] => None | _ => Some (sd_next s) end) tickers
    (sd_running s ++ map (fun t => (t, sd_next s)) (configured c)) (sd_closed s) (sd_next s + 1) /\ (configured c = [] -> tickers = []).
Proof.
  intros Hs Ht. unfold schedule, configured. rewrite Hs. destruct (iv_ProbeInterval c >? 0), (iv_PushPullInterval c >? 0), ((iv_GossipInterval c >? 0) && _);
    cbn; rewrite Ht, ?app_nil_r, <- ?app_assoc; by eexists.
Qed.

Lemma schedule_ok c s : scheduler_ok c s -> scheduler_ok c (schedule c s).
Proof.
  intros [H1 H2 H3 Hn [H4 H5]]. destruct (sd_stopTick s) as [stop|] eqn:Es.
  { unfold schedule. rewrite Es. constructor; rewrite ?Es; done. }
  destruct (schedule_running c s Es (H2 eq_refl)) as (tickers & -> & Htick).
  assert (Hopen : ~ sd_next s ∈ sd_closed s) by (intros Hin; rewrite Forall_forall in H5; specialize (H5 _ Hin); lia).
  assert (Hnew : forall l : list trigger, List.filter (fun t : trigger * Z => negb (bool_decide (t.2 ∈ sd_closed s))) (map (fun t => (t, sd_next s)) l) = map (fun t => (t, sd_next s)) l).
  { intros l. induction l as [|t l IH]; [done|]. cbn. rewrite bool_decide_false by done. cbn. by rewrite IH. }
  constructor; cbn.
  - unfold active in *. cbn. rewrite List.filter_app, map_app, H1, Hnew, map_map. cbn [app]. rewrite map_id. by destruct (configured c).
  - intros E. apply Htick. by destruct (configured c).
  - intros stop E. assert (stop = sd_next s) as -> by (destruct (configured c); [done|by injection E]). split; [done|].
    intros t [Hin|Hin]%elem_of_app Ho; [|by apply list_elem_of_fmap in Hin as (k & -> & _)]. exfalso.
    assert (Ha : t.1 ∈ active s).
    { unfold active. apply list_elem_of_fmap. exists t. split; [done|]. apply list_elem_of_In, filter_In. rewrite bool_decide_false by done.
      split; [by apply list_elem_of_In|done]. }
    rewrite H1 in Ha. by apply elem_of_nil in Ha.
  - intros stop E. destruct (configured c); [done|]. injection E as <-. lia.
  - split.
    + apply Forall_app. split; [eapply Forall_impl; [exact H4|cbn; lia]|]. apply Forall_forall. intros t (k & -> & _)%list_elem_of_fmap. cbn. lia.
    + eapply Forall_impl; [exact H5|cbn; lia].
Qed.

Lemma deschedule_ok c s : scheduler_ok c s -> scheduler_ok c (deschedule s).
Proof.
  intros [H1 H2 H3 Hn [H4 H5]]. unfold deschedule. destruct (sd_stopTick s) as [stop|] eqn:Es; [|by constructor; rewrite ?Es].
  destruct (H3 stop eq_refl) as [Hc Hall]. constructor; cbn; try done.
  - unfold active. cbn. assert (E : List.filter (fun t : trigger * Z => negb (bool_decide (t.2 ∈ sd_closed s ++ [stop]))) (sd_running s) = []); [|by rewrite E].
    assert (Hin : forall t, t ∈ sd_running s -> t.2 ∈ sd_closed s ++ [stop]).
    { intros t Ht. rewrite elem_of_app, list_elem_of_singleton. destruct (decide (t.2 ∈ sd_closed s)); [by left|right; by apply Hall]. }
    clear -Hin. induction (sd_running s) as [|t l IH]; [done|]. cbn. rewrite bool_decide_true by (apply Hin; by left).
    apply IH. intros t' Ht'. apply Hin. by right.
  - split; [done|]. apply Forall_app. split; [done|]. repeat constructor. by apply Hn.
Qed.

Inductive schedulerCall := CallSchedule | CallDeschedule.
Definition callScheduler (c : intervals) (s : scheduler) (call : schedulerCall) : scheduler :=
  match call with CallSchedule => schedule c s | CallDeschedule => deschedule s end.

(** ** Properties *)

(** Whatever the calls, each configured trigger runs once while the node is
    scheduled, none of them when it is not: scheduling again starts nothing,
    and descheduling stops every one, with the tickers. *)
Theorem triggers_follow_calls c calls :
  let s := fold_left (callScheduler c) calls newScheduler in
  active s = (match sd_stopTick s with Some _ => configured c | None => [] end) /\
  active (deschedule s) = [] /\ sd_tickers (deschedule s) = [] /\ active (schedule c s) = configured c.
Proof.
  intros s. assert (Hs : scheduler_ok c s).
  { subst s. apply (rev_ind (fun calls => scheduler_ok c (fold_left (callScheduler c) calls newScheduler))).
    - constructor; cbn; done.
    - intros [] l IH; rewrite fold_left_app; cbn; [by apply schedule_ok|by apply deschedule_ok]. }
  pose proof (deschedule_ok c s Hs) as Hd. pose proof (schedule_ok c s Hs) as Hc.
  assert (Ed : sd_stopTick (deschedule s) = None) by (unfold deschedule; by destruct (sd_stopTick s) eqn:E).
  split_and!; [apply Hs| |by apply (sc_tickers _ _ Hd)|].
  - rewrite (sc_active _ _ Hd). by rewrite Ed.
  - rewrite (sc_active _ _ Hc). destruct (sd_stopTick s) as [stop|] eqn:Es.
    + assert (E : schedule c s = s) by (unfold schedule; by rewrite Es). by rewrite E, Es.
    + destruct (schedule_running c s Es (sc_tickers _ _ Hs Es)) as (tickers & -> & _). cbn. by destruct (configured c).
Qed.

(** The ticks before the stop. *)
Fixpoint firedBefore (w : list selected) : nat := match w with Fired :: w => S (firedBefore w) | _ => 0 end.

(** A trigger that was started does not panic; it runs its function once for
    each tick between its stagger and the stop and then returns, whatever comes
    after, and a push/pull trigger does so too, each of its waits scaled by the
    cluster as the cycles before have left it. *)
Theorem trigger_runs `{MathLog} {S} (f : S -> S) (numNodes : S -> Z) c t s w w' :
  t ∈ configured c ->
  let calls := firedBefore w in
  triggerFunc f (staggerOf c t) s (Fired :: w ++ Stopped :: w') = Some (Nat.iter calls f s, true) /\
  triggerFunc f (staggerOf c t) s (Stopped :: w) = Some (s, true) /\
  pushPullTrigger f (staggerOf c t) numNodes s (Fired :: w ++ Stopped :: w')
  = Some (Nat.iter calls f s, true, map (fun i => pushPullScale (staggerOf c t) (numNodes (Nat.iter i f s))) (seq 0 (calls + 1))).
Proof.
  intros Ht calls. assert (Hs : (staggerOf c t <=? 0) = false).
  { unfold configured in Ht. rewrite !elem_of_app in Ht. destruct (Z.gtb_spec (iv_ProbeInterval c) 0), (Z.gtb_spec (iv_PushPullInterval c) 0),
      (Z.gtb_spec (iv_GossipInterval c) 0), (iv_GossipNodes c >? 0); cbn [andb] in Ht; destruct t; cbn [staggerOf]; apply Z.leb_gt; set_solver || lia. }
  unfold triggerFunc, pushPullTrigger. rewrite Hs.
  assert (Hl : forall s, triggerLoop f s (w ++ Stopped :: w') = (Nat.iter calls f s, true)).
  { subst calls. clear. induction w as [|[] w IH]; intros s; cbn [app triggerLoop firedBefore]; [done| |done]. rewrite IH. by rewrite Nat.iter_succ_r. }
  assert (Hp : forall s acc, pushPullLoop f (staggerOf c t) numNodes s (w ++ Stopped :: w') acc
    = (Nat.iter calls f s, true, acc ++ map (fun i => pushPullScale (staggerOf c t) (numNodes (Nat.iter i f s))) (seq 0 (calls + 1)))).
  { subst calls. clear. induction w as [|[] w IH]; intros s acc; cbn [app pushPullLoop firedBefore]; [done| |done]. rewrite IH, <- app_assoc. f_equal; [by rewrite Nat.iter_succ_r|].
    f_equal. cbn [Nat.add seq map]. f_equal. rewrite <- seq_shift, map_map. apply map_ext. intros i. by rewrite Nat.iter_succ_r. }
  split_and!; [by rewrite Hl|done|by rewrite Hp].
Qed.
