(* ===== verification/Quiesce.v ===== *)
(** Shutting down, [src/memberlist.go]: the goroutines a node joins, the
    callbacks it makes on them, and [Shutdown] with [finishShutdown] among all
    of that.

    Goroutines run step by step in any interleaving. Each has its number, as
    [goid] gives it, which is never used again. What a goroutine does between
    the points that matter here (taking [nodeLock], calling a delegate,
    calling [Shutdown], starting another goroutine, ending) is left open: any
    sequence of them is possible. The listeners of the standard transport,
    [src/net_transport.go], are part of it, because [Shutdown] waits for them
    and they wait for the goroutines that take what they read. *)

From S2P Require Import Prelude Wire NetAddr Nodes Events.

(** ** State *)

(** [Handler]s are goroutines of [goBackground]; [Receiver]s are those two of
    them that loop over a channel of the transport, [streamListen] and
    [packetListen]. *)
Inductive role := Untracked | Handler | Receiver | Dispatching.

#[global] Instance role_eq_dec : EqDecision role.
Proof. solve_decision. Defined.

Definition joined (r : role) : bool := match r with Handler | Receiver => true | _ => false end.

(** Where a call of [Shutdown] is; the last four are [finishShutdown]. *)
Inductive shutdownPc :=
| SdLock                   (* waits for [shutdownLock] *)
| SdSockets                (* the transport's [Shutdown]: closes the sockets *)
| SdListeners              (* and waits for the listeners *)
| SdFlag
| SdUnlock (did : bool)
| SdDecide (did : bool)
| SdJoin                   (* [shutdownWG.Wait()] *)
| SdSeal
| SdWake
| SdDispatcher.            (* [eventWG.Wait()] *)

(** [Idle]: at the [select] of a receiver's loop, or in the dispatcher itself,
    outside of any callback. [Ending]: about to leave [shutdownWG]. *)
Inductive activity := Starting | Idle | Working | Locking | Calling (p : shutdownPc) | Ending.

Record goroutine := Goroutine { go_role : role; go_activity : activity }.

(** A listener of the transport, and who receives from its channel; [li_sending]
    when it has read something that was not received yet. *)
Record listener := Listener { li_receiver : Z; li_sending : bool }.

(** [q_nodeLock] is the goroutine in a section of [nodeLock] and whether it
    found the node running when it entered; [q_closes] counts how often
    [shutdownCh] was closed; [q_committed] is the history of events. *)
Record quiesce := Quiesce {
  q_go : gmap Z goroutine;
  q_next : Z;
  q_wg : Z;
  q_tracked : gset Z;
  q_callbacks : gmap Z Z;
  q_lock : option Z;
  q_nodeLock : option (Z * bool);
  q_shutdown : bool;
  q_closes : Z;
  q_sockets : bool;
  q_listeners : gmap Z listener;
  q_dispatcher : dispatcher;
  q_events : eventQueue;
  q_committed : list queuedEvent;
}.

Implicit Types s : quiesce.

Definition set_go s go : quiesce :=
  Quiesce go (q_next s) (q_wg s) (q_tracked s) (q_callbacks s) (q_lock s) (q_nodeLock s) (q_shutdown s) (q_closes s) (q_sockets s) (q_listeners s)
    (q_dispatcher s) (q_events s) (q_committed s).
Definition set_group s next wg tracked : quiesce :=
  Quiesce (q_go s) next wg tracked (q_callbacks s) (q_lock s) (q_nodeLock s) (q_shutdown s) (q_closes s) (q_sockets s) (q_listeners s)
    (q_dispatcher s) (q_events s) (q_committed s).
Definition set_callbacks s callbacks : quiesce :=
  Quiesce (q_go s) (q_next s) (q_wg s) (q_tracked s) callbacks (q_lock s) (q_nodeLock s) (q_shutdown s) (q_closes s) (q_sockets s) (q_listeners s)
    (q_dispatcher s) (q_events s) (q_committed s).
Definition set_locks s lock nodeLock : quiesce :=
  Quiesce (q_go s) (q_next s) (q_wg s) (q_tracked s) (q_callbacks s) lock nodeLock (q_shutdown s) (q_closes s) (q_sockets s) (q_listeners s)
    (q_dispatcher s) (q_events s) (q_committed s).
Definition set_down s shutdown closes sockets listeners : quiesce :=
  Quiesce (q_go s) (q_next s) (q_wg s) (q_tracked s) (q_callbacks s) (q_lock s) (q_nodeLock s) shutdown closes sockets listeners
    (q_dispatcher s) (q_events s) (q_committed s).
Definition set_delivery s d q committed : quiesce :=
  Quiesce (q_go s) (q_next s) (q_wg s) (q_tracked s) (q_callbacks s) (q_lock s) (q_nodeLock s) (q_shutdown s) (q_closes s) (q_sockets s) (q_listeners s)
    d q committed.

Definition goes s (c : Z) (r : role) (a : activity) : quiesce := set_go s (<[c := Goroutine r a]> (q_go s)).
Definition gone s (c : Z) : quiesce := set_go s (delete c (q_go s)).
Definition depth s (c : Z) : Z := default 0 (q_callbacks s !! c).
Definition hasNodes s (c : Z) : bool := match q_nodeLock s with Some (h, _) => h =? c | None => false end.

(** ** Joined goroutines *)

(** The call of [goBackground], by whoever makes it. *)
Definition goBackground s (r : role) : quiesce :=
  set_group (goes s (q_next s) r Starting) (q_next s + 1) (q_wg s + 1) (q_tracked s).

(** The goroutine: it registers its number, runs the function, removes the
    number and leaves the group. *)
Definition track s (c : Z) : option quiesce :=
  match q_go s !! c with
  | Some (Goroutine r Starting) =>
      Some (set_group (goes s c r (match r with Receiver => Idle | _ => Working end)) (q_next s) (q_wg s) ({[c]} ∪ q_tracked s))
  | _ => None
  end.

(** A function is through with its work when no callback of it and no section
    is left. *)
Definition through s (c : Z) : bool := (depth s c =? 0) && negb (hasNodes s c).

Definition untrack s (c : Z) : option quiesce :=
  let ends r := Some (set_group (goes s c r Ending) (q_next s) (q_wg s) (q_tracked s ∖ {[c]})) in
  match q_go s !! c with
  | Some (Goroutine Handler Working) => if through s c then ends Handler else None
  | Some (Goroutine Receiver Idle) => if q_shutdown s then ends Receiver else None
  | _ => None
  end.

Definition leaveGroup s (c : Z) : option quiesce :=
  match q_go s !! c with
  | Some (Goroutine r Ending) => Some (set_group (gone s c) (q_next s) (q_wg s - 1) (q_tracked s))
  | _ => None
  end.

(** [streamListen] and [packetListen]: receive, and handle. *)
Definition receive s (c l : Z) : option quiesce :=
  match q_go s !! c, q_listeners s !! l with
  | Some (Goroutine Receiver Idle), Some (Listener p true) =>
      if p =? c then
        Some (set_down (goes s c Receiver Working) (q_shutdown s) (q_closes s) (q_sockets s) (<[l := Listener p false]> (q_listeners s)))
      else None
  | _, _ => None
  end.
Definition handled s (c : Z) : option quiesce :=
  match q_go s !! c with
  | Some (Goroutine Receiver Working) => if through s c then Some (goes s c Receiver Idle) else None
  | _ => None
  end.

(** ** Callbacks and sections *)

(** [runCallback], before and after the callback. *)
Definition markCallback s (c : Z) : quiesce := set_callbacks s (<[c := depth s c + 1]> (q_callbacks s)).
Definition unmarkCallback s (c : Z) : quiesce :=
  let n := depth s c - 1 in
  set_callbacks s (if n <=? 0 then delete c (q_callbacks s) else <[c := n]> (q_callbacks s)).

Definition inReentrantContext s (c : Z) : bool := bool_decide (c ∈ q_tracked s) || (depth s c >? 0).

Definition enterCallback s (c : Z) : option quiesce :=
  match q_go s !! c with
  | Some (Goroutine _ Working) => Some (markCallback s c)
  | _ => None
  end.

(** The callback the dispatcher itself makes ends in the dispatcher. *)
Definition leaveCallback s (c : Z) : option quiesce :=
  match q_go s !! c with
  | Some (Goroutine Dispatching Working) => if depth s c >? 1 then Some (unmarkCallback s c) else None
  | Some (Goroutine _ Working) => if depth s c >? 0 then Some (unmarkCallback s c) else None
  | _ => None
  end.

Definition wantNodes s (c : Z) : option quiesce :=
  match q_go s !! c with
  | Some (Goroutine r Working) => if hasNodes s c then None else Some (goes s c r Locking)
  | _ => None
  end.
Definition takeNodes s (c : Z) : option quiesce :=
  match q_go s !! c, q_nodeLock s with
  | Some (Goroutine r Locking), None => Some (set_locks (goes s c r Working) (q_lock s) (Some (c, negb (q_shutdown s))))
  | _, _ => None
  end.
Definition releaseNodes s (c : Z) : option quiesce :=
  match q_go s !! c with
  | Some (Goroutine _ Working) => if hasNodes s c then Some (set_locks s (q_lock s) None) else None
  | _ => None
  end.

(** A change commits its event in the section, if the node was running when
    the section checked. *)
Definition commitChange s (c : Z) (kind : eventKind) (node : Node) (other : option Node) (r : option Z) : option quiesce :=
  match q_go s !! c, q_nodeLock s with
  | Some (Goroutine _ Working), Some (h, true) =>
      if h =? c then
        Some (set_delivery s (q_dispatcher s) (enqueueEventLocked (q_events s) kind node other r)
          (q_committed s ++ [MkEvent kind node other (u64 (e_seq (q_events s) + 1)) r]))
      else None
  | _, _ => None
  end.

(** ** The dispatcher *)

Definition dispatcherId : Z := 0.

(** A step of [eventDispatch]; delivering is inside a callback. *)
Definition dispatchEvent s : option quiesce :=
  match q_go s !! dispatcherId, q_dispatcher s with
  | Some (Goroutine r Working), DDelivering ev =>
      if (depth s dispatcherId =? 1) && negb (hasNodes s dispatcherId) then
        '(d, q) ← eventDispatch (q_dispatcher s) (q_events s);
        Some (set_delivery (unmarkCallback (goes s dispatcherId r Idle) dispatcherId) d q (q_committed s))
      else None
  | Some (Goroutine r Idle), _ =>
      '(d, q) ← eventDispatch (q_dispatcher s) (q_events s);
      let s := set_delivery s d q (q_committed s) in
      Some (match d with DDelivering _ => markCallback (goes s dispatcherId r Working) dispatcherId | _ => s end)
  | _, _ => None
  end.

(** ** The listeners of the transport *)

Definition listenerRead s (l : Z) : option quiesce :=
  match q_listeners s !! l with
  | Some (Listener p false) =>
      if q_sockets s then None
      else Some (set_down s (q_shutdown s) (q_closes s) (q_sockets s) (<[l := Listener p true]> (q_listeners s)))
  | _ => None
  end.
Definition listenerEnd s (l : Z) : option quiesce :=
  match q_listeners s !! l with
  | Some (Listener p false) =>
      if q_sockets s then Some (set_down s (q_shutdown s) (q_closes s) (q_sockets s) (delete l (q_listeners s))) else None
  | _ => None
  end.

(** ** [Shutdown] *)

(** Library code calls it outside of its sections. *)
Definition callShutdown s (c : Z) : option quiesce :=
  match q_go s !! c with
  | Some (Goroutine r Working) => if negb (hasNodes s c) || (depth s c >? 0) then Some (goes s c r (Calling SdLock)) else None
  | _ => None
  end.

(** [go m.finishShutdown()] *)
Definition goReaper s : quiesce :=
  set_group (goes s (q_next s) Untracked (Calling SdJoin)) (q_next s + 1) (q_wg s) (q_tracked s).

Definition finishShutdown s (c : Z) (r : role) (p : shutdownPc) : option quiesce :=
  match p with
  | SdJoin => if q_wg s =? 0 then Some (goes s c r (Calling SdSeal)) else None
  | SdSeal =>
      match q_nodeLock s with
      | None => Some (set_delivery (goes s c r (Calling SdWake)) (q_dispatcher s) (seal (q_events s)) (q_committed s))
      | Some _ => None
      end
  | SdWake => Some (set_delivery (goes s c r (Calling SdDispatcher)) (q_dispatcher s) (wake (q_events s)) (q_committed s))
  | SdDispatcher => match q_dispatcher s with DReturned => Some (goes s c r Working) | _ => None end
  | _ => None
  end.

Definition Shutdown s (c : Z) : option quiesce :=
  match q_go s !! c with
  | Some (Goroutine r (Calling p)) =>
      let at_ p := goes s c r (Calling p) in
      match p with
      | SdLock =>
          match q_lock s with
          | Some _ => None
          | None => Some (set_locks (at_ (if q_shutdown s then SdUnlock false else SdSockets)) (Some c) (q_nodeLock s))
          end
      | SdSockets => Some (set_down (at_ SdListeners) (q_shutdown s) (q_closes s) true (q_listeners s))
      | SdListeners => if bool_decide (q_listeners s = ∅) then Some (at_ SdFlag) else None
      | SdFlag => Some (set_down (at_ (SdUnlock true)) true (q_closes s + 1) (q_sockets s) (q_listeners s))
      | SdUnlock did => Some (set_locks (at_ (SdDecide did)) None (q_nodeLock s))
      | SdDecide did =>
          if inReentrantContext s c then
            let s := goes s c r Working in Some (if did then goReaper s else s)
          else Some (at_ SdJoin)
      | _ => finishShutdown s c r p
      end
  | _ => None
  end.

(** ** Steps *)

Inductive action :=
| ATrack (c : Z) | AUntrack (c : Z) | ALeaveGroup (c : Z)
| AReceive (c l : Z) | AHandled (c : Z)
| AEnter (c : Z) | ALeave (c : Z)
| AWant (c : Z) | ATake (c : Z) | ARelease (c : Z)
| ACommit (c : Z) (kind : eventKind) (node : Node) (other : option Node) (r : option Z)
| ADispatch
| ARead (l : Z) | AListenerEnd (l : Z)
| ACall (c : Z) | AShutdown (c : Z)
| ASpawn (c : Z)
| AUser | AUserEnds (c : Z).

(** Joined goroutines start others, and so did [newMemberlist] and [schedule];
    goroutines of the application come and go. *)
Definition perform (a : action) s : option quiesce :=
  match a with
  | ATrack c => track s c
  | AUntrack c => untrack s c
  | ALeaveGroup c => leaveGroup s c
  | AReceive c l => receive s c l
  | AHandled c => handled s c
  | AEnter c => enterCallback s c
  | ALeave c => leaveCallback s c
  | AWant c => wantNodes s c
  | ATake c => takeNodes s c
  | ARelease c => releaseNodes s c
  | ACommit c kind node other r => commitChange s c kind node other r
  | ADispatch => dispatchEvent s
  | ARead l => listenerRead s l
  | AListenerEnd l => listenerEnd s l
  | ACall c => callShutdown s c
  | AShutdown c => Shutdown s c
  | ASpawn c =>
      match q_go s !! c with
      | Some (Goroutine r Working) => if joined r then Some (goBackground s Handler) else None
      | _ => None
      end
  | AUser => Some (set_group (goes s (q_next s) Untracked Working) (q_next s + 1) (q_wg s) (q_tracked s))
  | AUserEnds c =>
      match q_go s !! c with
      | Some (Goroutine Untracked Working) => if through s c then Some (gone s c) else None
      | _ => None
      end
  end.

(** The actions that go on with what was begun. *)
Definition finishing (a : action) : bool :=
  match a with
  | AEnter _ | AWant _ | ACommit _ _ _ _ _ | ARead _ | ACall _ | ASpawn _ | AUser => false
  | _ => true
  end.

Definition quiesceStep s s' : Prop := exists a, perform a s = Some s'.
Definition finishStep s s' : Prop := exists a, finishing a = true /\ perform a s = Some s'.

(** [newMemberlist] and [schedule]: the two receivers, the packet handler, the
    check of the queue depth, the triggers, and the dispatcher. *)
Definition streamListenId : Z := 1.
Definition packetListenId : Z := 2.
Definition newQuiesce (listeners : gmap Z listener) : quiesce :=
  Quiesce {[dispatcherId := Goroutine Dispatching Idle]} 1 0 ∅ ∅ None None false 0 false listeners DTop newEventQueue [].
Definition newMemberlist (listeners : gmap Z listener) (triggers : nat) : quiesce :=
  let s := goBackground (newQuiesce listeners) Receiver in
  let s := goBackground s Receiver in
  Nat.iter (2 + triggers) (fun s => goBackground s Handler) s.

(** ** The invariant *)

Definition joinedOf (go : gmap Z goroutine) : gset Z := dom (filter (fun kv => joined (go_role kv.2) = true) go).

Definition registered (a : activity) : bool := match a with Starting | Ending => false | _ => true end.
Definition inTeardown (a : activity) : bool :=
  match a with Calling (SdSockets | SdListeners | SdFlag | SdUnlock _) => true | _ => false end.

(** A call of [finishShutdown] is made outside of callbacks, and the phases
    it went through hold. *)
Definition pc_ok s (r : role) (c : Z) (p : shutdownPc) : Prop :=
  let outside := joined r = false /\ q_callbacks s !! c = None /\ q_shutdown s = true in
  match p with
  | SdLock | SdSockets | SdListeners | SdFlag | SdUnlock _ => True
  | SdDecide _ => q_shutdown s = true
  | SdJoin => outside
  | SdSeal => outside /\ q_wg s = 0
  | SdWake => outside /\ q_wg s = 0 /\ e_sealed (q_events s) = true
  | SdDispatcher => outside /\ q_wg s = 0 /\ e_sealed (q_events s) = true /\ (q_dispatcher s = DWaiting -> e_wake (q_events s) = true)
  end.

Definition go_ok s (c : Z) (g : goroutine) : Prop :=
  c < q_next s /\ (go_role g = Dispatching <-> c = dispatcherId) /\
  (c ∈ q_tracked s <-> registered (go_activity g) && joined (go_role g) = true) /\
  (inTeardown (go_activity g) = true -> q_lock s = Some c) /\
  match go_activity g with
  | Starting => joined (go_role g) = true /\ q_callbacks s !! c = None
  | Ending => joined (go_role g) = true /\ q_callbacks s !! c = None /\ (go_role g = Receiver -> q_shutdown s = true)
  | Idle => (go_role g = Receiver \/ go_role g = Dispatching) /\ q_callbacks s !! c = None
  | Calling p => (q_callbacks s !! c = None -> hasNodes s c = false) /\ pc_ok s (go_role g) c p
  | _ => True
  end.

(** What the holder of [shutdownLock] has done. *)
Definition teardown_ok s (p : shutdownPc) : Prop :=
  match p with
  | SdSockets => q_shutdown s = false
  | SdListeners => q_shutdown s = false /\ q_sockets s = true
  | SdFlag => q_shutdown s = false /\ q_sockets s = true /\ q_listeners s = ∅
  | SdUnlock _ => q_shutdown s = true
  | _ => False
  end.

Definition delivering_ok s : Prop :=
  exists a, q_go s !! dispatcherId = Some (Goroutine Dispatching a) /\
    match q_dispatcher s with
    | DDelivering _ => a <> Idle /\ is_Some (q_callbacks s !! dispatcherId)
    | _ => a = Idle
    end.

Record quiesce_ok s : Prop := {
  qo_go : forall c g, q_go s !! c = Some g -> go_ok s c g;
  qo_wg : q_wg s = Z.of_nat (size (joinedOf (q_go s)));
  qo_tracked : forall c, c ∈ q_tracked s -> is_Some (q_go s !! c);
  qo_lock : forall c, q_lock s = Some c -> exists r p, q_go s !! c = Some (Goroutine r (Calling p)) /\ teardown_ok s p;
  qo_nodes : forall c ok, q_nodeLock s = Some (c, ok) ->
    (exists r a, q_go s !! c = Some (Goroutine r a) /\ (a = Working \/ exists p, a = Calling p)) /\ (ok = true -> e_sealed (q_events s) = false);
  qo_down : q_shutdown s = true -> q_sockets s = true /\ q_listeners s = ∅;
  qo_closes : q_closes s = if q_shutdown s then 1 else 0;
  qo_sealed : e_sealed (q_events s) = true -> q_shutdown s = true /\ q_wg s = 0;
  qo_delivering : delivering_ok s;
  qo_receivers : forall l p sending, q_listeners s !! l = Some (Listener p sending) ->
    exists a, q_go s !! p = Some (Goroutine Receiver a) /\ a <> Ending;
  qo_callbacks : forall c n, q_callbacks s !! c = Some n -> 0 < n /\ is_Some (q_go s !! c);
  qo_events : events_ok (System (q_events s) (q_dispatcher s) 1 (q_committed s));
}.

(** ** Lemmas: the set of joined goroutines *)

Lemma elem_of_joined go c : c ∈ joinedOf go <-> exists g, go !! c = Some g /\ joined (go_role g) = true.
Proof. unfold joinedOf. rewrite elem_of_dom. unfold is_Some. setoid_rewrite map_lookup_filter_Some. done. Qed.

Lemma joinedOf_moved go c r a a' : go !! c = Some (Goroutine r a) -> joinedOf (<[c := Goroutine r a']> go) = joinedOf go.
Proof.
  intros E. apply set_eq. intros d. rewrite !elem_of_joined. destruct (decide (d = c)) as [-> |Hne].
  - rewrite lookup_insert_eq, E. naive_solver.
  - by rewrite lookup_insert_ne.
Qed.

Lemma joinedOf_new go c r a :
  go !! c = None -> size (joinedOf (<[c := Goroutine r a]> go)) = (size (joinedOf go) + if joined r then 1 else 0)%nat.
Proof.
  intros E. assert (Hc : c ∉ joinedOf go) by (rewrite elem_of_joined; rewrite E; naive_solver).
  assert (H : joinedOf (<[c := Goroutine r a]> go) = (if joined r then {[c]} else ∅) ∪ joinedOf go).
  { apply set_eq. intros d. rewrite elem_of_union, !elem_of_joined. destruct (decide (d = c)) as [-> |Hne].
    - rewrite lookup_insert_eq, E. destruct (joined r) eqn:Er.
      + split; [|by eauto]. intros _. left. by apply elem_of_singleton.
      + split; [intros (g & [= <-] & Hg); cbn in Hg; congruence|intros [H|(g & [=] & _)]; by apply elem_of_empty in H].
    - rewrite lookup_insert_ne by done. split; [by right|]. intros [H|H]; [|done].
      destruct (joined r); [by apply elem_of_singleton in H|by apply elem_of_empty in H]. }
  rewrite H. destruct (joined r).
  - rewrite size_union by set_solver. rewrite size_singleton. lia.
  - by rewrite union_empty_l_L, Nat.add_0_r.
Qed.

Lemma joinedOf_gone go c r a :
  go !! c = Some (Goroutine r a) -> size (joinedOf go) = (size (joinedOf (delete c go)) + if joined r then 1 else 0)%nat.
Proof.
  intros E. rewrite <- (joinedOf_new (delete c go) c r a) by apply lookup_delete_eq. by rewrite insert_delete_id.
Qed.

Lemma joinedOf_none go : size (joinedOf go) = 0%nat -> forall c g, go !! c = Some g -> joined (go_role g) = false.
Proof.
  intros H%size_empty_inv c g E. destruct (joined (go_role g)) eqn:Er; [|done]. exfalso.
  assert (Hc : c ∈ joinedOf go) by (apply elem_of_joined; eauto). set_solver.
Qed.

(** ** Lemmas: steps *)

(** What a step must keep for the goroutines that it does not move. *)
Record later s s' (d : Z) : Prop := {
  la_next : q_next s <= q_next s';
  la_tracked : d ∈ q_tracked s' <-> d ∈ q_tracked s;
  la_callbacks : q_callbacks s' !! d = q_callbacks s !! d;
  la_nodes : hasNodes s d = false -> hasNodes s' d = false;
  la_lock : q_lock s = Some d -> q_lock s' = Some d;
  la_shutdown : q_shutdown s = true -> q_shutdown s' = true;
  la_wg : q_shutdown s = true -> q_wg s = 0 -> q_wg s' = 0;
  la_sealed : e_sealed (q_events s) = true -> e_sealed (q_events s') = true;
  la_waking : e_sealed (q_events s) = true -> (q_dispatcher s = DWaiting -> e_wake (q_events s) = true) ->
    q_dispatcher s' = DWaiting -> e_wake (q_events s') = true;
}.

Lemma go_ok_later s s' d g : later s s' d -> go_ok s d g -> go_ok s' d g.
Proof.
  intros [H1 H2 H3 Hn H4 H5 H6 H7 H8] (G1 & G2 & G3 & G4 & G5). unfold go_ok. split_and!; [lia|done|by rewrite H2|auto|].
  destruct (go_activity g) as [| | | |p|]; rewrite ?H3; try done; [|naive_solver].
  destruct G5 as [G5 G6]. split; [auto|]. unfold pc_ok in *. destruct p; rewrite ?H3; naive_solver.
Qed.

Section Moved.
Context s s' (c : Z) (r : role) (a a' : activity) (Hs : quiesce_ok s).
Context (Ec : q_go s !! c = Some (Goroutine r a)) (Eg : q_go s' = <[c := Goroutine r a']> (q_go s)).

Lemma moved_ok :
  q_wg s' = q_wg s -> (forall d, d <> c -> later s s' d) -> go_ok s' c (Goroutine r a') -> (forall d, d ∈ q_tracked s' -> d ∈ q_tracked s \/ d = c) ->
  (forall d, q_lock s' = Some d ->
    d <> c /\ q_lock s = Some d /\ (forall p, teardown_ok s p -> teardown_ok s' p) \/ d = c /\ exists p, a' = Calling p /\ teardown_ok s' p) ->
  (forall d ok, q_nodeLock s' = Some (d, ok) -> (ok = true -> e_sealed (q_events s') = false) /\
    (q_nodeLock s = Some (d, ok) /\ d <> c \/ d = c /\ (a' = Working \/ exists p, a' = Calling p))) ->
  (q_shutdown s' = true -> q_sockets s' = true /\ q_listeners s' = ∅) -> q_closes s' = (if q_shutdown s' then 1 else 0) ->
  (e_sealed (q_events s') = true -> q_shutdown s' = true /\ q_wg s' = 0) -> delivering_ok s' ->
  (forall l p sending, q_listeners s' !! l = Some (Listener p sending) -> (exists b, q_listeners s !! l = Some (Listener p b)) /\ (r = Receiver -> a' <> Ending)) ->
  (forall d n, q_callbacks s' !! d = Some n -> 0 < n /\ (is_Some (q_callbacks s !! d) \/ d = c)) ->
  events_ok (System (q_events s') (q_dispatcher s') 1 (q_committed s')) ->
  quiesce_ok s'.
Proof.
  intros Hwg Hl Hc Htr Hlock Hnode Hdown Hcl Hse Hd Hli Hcb Hev.
  assert (Hlook : forall d g, d <> c -> q_go s' !! d = Some g <-> q_go s !! d = Some g) by (intros d g Hne; by rewrite Eg, lookup_insert_ne).
  assert (Hsome : forall d, is_Some (q_go s !! d) -> is_Some (q_go s' !! d)) by (intros d Hsm; rewrite Eg; apply lookup_insert_is_Some'; by right).
  assert (Hself : q_go s' !! c = Some (Goroutine r a')) by (by rewrite Eg, lookup_insert_eq).
  constructor; try done.
  - intros d g E. destruct (decide (d = c)) as [-> |Hne]; [by rewrite Hself in E; injection E as <-|].
    apply Hlook in E; [|done]. eapply go_ok_later; [by apply Hl|by apply (qo_go _ Hs)].
  - by rewrite Hwg, Eg, (joinedOf_moved _ _ _ _ _ Ec), (qo_wg _ Hs).
  - intros d [Hd'| ->]%Htr; [|by eauto]. apply Hsome, (qo_tracked _ Hs _ Hd').
  - intros d Hd'. destruct (Hlock d Hd') as [(Hne & Hd2 & Ht)|[-> (p & -> & Ht)]]; [|by eauto].
    destruct (qo_lock _ Hs d Hd2) as (r2 & p & E & Ht2). exists r2, p. rewrite Hlook by done. auto.
  - intros d ok Hd'. destruct (Hnode d ok Hd') as [Hok Hx]. split; [|done]. destruct Hx as [[Hx Hne]|[-> Hx]]; [|by eauto].
    destruct (qo_nodes _ Hs d ok Hx) as [(r2 & a2 & E & Ha) _]. exists r2, a2. by rewrite Hlook.
  - intros l p sending El. destruct (Hli l p sending El) as [[b Eb] Ha]. destruct (qo_receivers _ Hs l p b Eb) as (a2 & E & Ha2).
    destruct (decide (p = c)) as [-> |Hne]; [|exists a2; by rewrite Hlook].
    rewrite Ec in E. injection E as Er _. exists a'. by rewrite Hself, Er; auto.
  - intros d n E. destruct (Hcb d n E) as [Hn Hx]. split; [done|]. destruct Hx as [[n2 Hx]| ->]; [|by eauto].
    apply Hsome, (qo_callbacks _ Hs d n2 Hx).
Qed.
End Moved.

Lemma lock_other s c r a d : quiesce_ok s -> q_go s !! c = Some (Goroutine r a) -> inTeardown a = false -> q_lock s = Some d -> d <> c.
Proof.
  intros Hs E Ha Hd ->. destruct (qo_lock _ Hs c Hd) as (r2 & p & E2 & Ht). rewrite E in E2. injection E2 as -> ->.
  by destruct p.
Qed.

Lemma holder_other s c r a : quiesce_ok s -> q_go s !! c = Some (Goroutine r a) -> hasNodes s c = false ->
  forall d ok, q_nodeLock s = Some (d, ok) -> d <> c.
Proof. intros _ _ Hn d ok E ->. unfold hasNodes in Hn. rewrite E, Z.eqb_refl in Hn. done. Qed.

Lemma holder_busy s c r a d ok : quiesce_ok s -> q_go s !! c = Some (Goroutine r a) -> q_nodeLock s = Some (d, ok) ->
  a = Starting \/ a = Idle \/ a = Locking \/ a = Ending -> d <> c.
Proof.
  intros Hs E Ed Ha ->. destruct (qo_nodes _ Hs c ok Ed) as [(r2 & a2 & E2 & H2) _]. rewrite E in E2. injection E2 as <- <-. naive_solver.
Qed.

Lemma dispatching_id s c r a : quiesce_ok s -> q_go s !! c = Some (Goroutine r a) -> r <> Dispatching -> c <> dispatcherId.
Proof. intros Hs E Hr Hc. destruct (qo_go _ Hs c _ E) as (_ & H & _). cbn in H. tauto. Qed.

(** The dispatcher is not moved, or goes on with its callback. *)
Lemma delivering_moved s s' c r a a' :
  quiesce_ok s -> q_go s !! c = Some (Goroutine r a) -> q_go s' = <[c := Goroutine r a']> (q_go s) ->
  q_dispatcher s' = q_dispatcher s -> q_callbacks s' !! dispatcherId = q_callbacks s !! dispatcherId \/ is_Some (q_callbacks s' !! dispatcherId) ->
  c <> dispatcherId \/ a <> Idle /\ a' <> Idle -> delivering_ok s'.
Proof.
  intros Hs E Eg Ed Hcb Hc. destruct (qo_delivering _ Hs) as (a0 & E0 & H0). unfold delivering_ok. rewrite Ed, Eg.
  destruct (decide (c = dispatcherId)) as [-> |Hne].
  - rewrite E in E0. injection E0 as -> <-. exists a'. rewrite lookup_insert_eq. split; [done|].
    destruct Hc as [Hc|[H1 H2]]; [done|]. destruct (q_dispatcher s); try done. split; [done|]. destruct H0 as [_ H0].
    destruct Hcb as [-> |Hcb]; done.
  - exists a0. rewrite lookup_insert_ne by done. split; [done|]. destruct (q_dispatcher s); try done. destruct H0 as [H1 H0]. split; [done|].
    destruct Hcb as [-> |Hcb]; done.
Qed.


Lemma through_spec s c : quiesce_ok s -> through s c = true -> q_callbacks s !! c = None /\ hasNodes s c = false.
Proof.
  intros Hs [Hd%Z.eqb_eq Hn%negb_true_iff]%andb_true_iff. split; [|done]. unfold depth in Hd. destruct (q_callbacks s !! c) as [n|] eqn:E; [|done].
  cbn in Hd. destruct (qo_callbacks _ Hs c n E). lia.
Qed.

(** What a step leaves alone follows from the state before. *)
Ltac unmoved Hs E :=
  match goal with
  | |- q_wg _ = q_wg _ => reflexivity
  | |- forall d, d <> _ -> later _ _ d => let d := fresh "d" in let Hne := fresh "Hne" in intros d Hne; constructor; cbn;
      first [done|lia|match goal with |- _ ∈ _ <-> _ => set_solver | |- _ -> (_ =? _) = false => intros _; apply Z.eqb_neq; congruence end]
  | |- forall d n, q_callbacks _ !! d = Some n -> _ => let d := fresh "d" in let n := fresh "n" in let H := fresh "H" in
      intros d n H; split; [by apply (qo_callbacks _ Hs d n)|by left]
  | |- forall l p sending, q_listeners _ !! l = _ -> _ => let H := fresh "H" in intros ? ? ? H; split; [by eexists|done]
  | |- events_ok _ => apply (qo_events _ Hs)
  | |- forall d, d ∈ _ -> d ∈ _ \/ d = _ => cbn; set_solver
  | |- _ = true -> _ /\ _ = ∅ => apply (qo_down _ Hs)
  | |- _ = (if _ then 1 else 0) => apply (qo_closes _ Hs)
  | |- e_sealed _ = true -> _ => apply (qo_sealed _ Hs)
  | |- forall d, q_lock _ = Some d -> _ => let d := fresh "d" in let H := fresh "H" in
      intros d H; left; split_and!; [by eapply (lock_other _ _ _ _ _ Hs E)|exact H|intros []; exact id]
  | |- forall d ok, q_nodeLock _ = Some (d, ok) -> _ => let d := fresh "d" in let ok := fresh "ok" in let H := fresh "H" in
      intros d ok H; split; [by apply (qo_nodes _ Hs d ok H)|];
      first [left; split; [exact H|]; eapply (holder_busy _ _ _ _ _ _ Hs E H); tauto
            |left; split; [exact H|]; by eapply (holder_other _ _ _ _ Hs E)
            |match goal with |- _ \/ ?d = ?c /\ _ => destruct (decide (d = c)); [right; split; [assumption|]; first [by left|right; by eexists]|left; by split] end]
  | |- delivering_ok _ => eapply (delivering_moved _ _ _ _ _ _ Hs E); [reflexivity|reflexivity|by left|];
      first [left; by eapply (dispatching_id _ _ _ _ Hs E)|by right]
  | |- go_ok _ _ _ => let G := fresh "G" in pose proof (qo_go _ Hs _ _ E) as G; unfold go_ok in *; cbn in *;
      destruct G as (? & ? & G & ? & ?); split_and!; try done; try tauto; match goal with |- _ ∈ _ <-> _ => set_solver end
  end.
Ltac moved Hs E a' := eapply (moved_ok _ _ _ _ _ a' Hs E); [reflexivity|..]; try unmoved Hs E.

(** A step that moves no goroutine. *)
Lemma unchanged_ok s s' :
  quiesce_ok s -> q_go s' = q_go s -> q_wg s' = q_wg s -> q_tracked s' = q_tracked s -> q_lock s' = q_lock s ->
  (forall d g, q_go s !! d = Some g -> later s s' d \/ go_ok s' d g) -> (forall p, teardown_ok s p -> teardown_ok s' p) ->
  (forall d ok, q_nodeLock s' = Some (d, ok) -> q_nodeLock s = Some (d, ok) /\ (ok = true -> e_sealed (q_events s') = false)) ->
  (q_shutdown s' = true -> q_sockets s' = true /\ q_listeners s' = ∅) -> q_closes s' = (if q_shutdown s' then 1 else 0) ->
  (e_sealed (q_events s') = true -> q_shutdown s' = true /\ q_wg s' = 0) -> delivering_ok s' ->
  (forall l p sending, q_listeners s' !! l = Some (Listener p sending) -> exists b, q_listeners s !! l = Some (Listener p b)) ->
  (forall d n, q_callbacks s' !! d = Some n -> 0 < n /\ is_Some (q_go s !! d)) ->
  events_ok (System (q_events s') (q_dispatcher s') 1 (q_committed s')) -> quiesce_ok s'.
Proof.
  intros Hs Eg Ew Et El Hl Ht Hn Hd Hc Hse Hde Hli Hcb Hev. constructor; rewrite ?Eg, ?Ew, ?Et; try done.
  - intros c g E. destruct (Hl c g E) as [Hx|Hx]; [|done]. by eapply go_ok_later; [exact Hx|apply (qo_go _ Hs)].
  - apply (qo_wg _ Hs).
  - apply (qo_tracked _ Hs).
  - intros c Hc'. rewrite El in Hc'. destruct (qo_lock _ Hs c Hc') as (r & p & E & Hp). eauto.
  - intros c ok E. destruct (Hn c ok E) as [E2 H2]. split; [|done]. apply (qo_nodes _ Hs c ok E2).
  - by rewrite <- Ew.
  - intros l p b E. destruct (Hli l p b E) as [b2 E2]. apply (qo_receivers _ Hs l p b2 E2).
Qed.

Ltac untouched Hs :=
  match goal with
  | |- _ = _ => reflexivity
  | |- forall d g, q_go _ !! d = Some g -> _ => intros d g _; left; constructor; cbn; solve [done|lia]
  | |- forall p, teardown_ok _ p -> _ => intros []; exact id
  | |- forall d ok, q_nodeLock _ = Some (d, ok) -> _ => let H := fresh "H" in intros ? ? H; split; [exact H|by apply (qo_nodes _ Hs _ _ H)]
  | |- _ = true -> _ /\ _ = ∅ => apply (qo_down _ Hs)
  | |- _ = (if _ then 1 else 0) => apply (qo_closes _ Hs)
  | |- e_sealed _ = true -> _ => apply (qo_sealed _ Hs)
  | |- delivering_ok _ => exact (qo_delivering _ Hs)
  | |- forall l p sending, q_listeners _ !! l = _ -> _ => let H := fresh "H" in intros ? ? ? H; by eexists
  | |- forall d n, q_callbacks _ !! d = Some n -> _ => apply (qo_callbacks _ Hs)
  | |- events_ok _ => apply (qo_events _ Hs)
  end.
Ltac stays Hs := eapply (unchanged_ok _ _ Hs); try untouched Hs.

Lemma listening s l li : quiesce_ok s -> q_listeners s !! l = Some li -> q_shutdown s = false.
Proof. intros Hs El. destruct (q_shutdown s) eqn:E; [|done]. destruct (qo_down _ Hs E) as [_ H]. by rewrite H, lookup_empty in El. Qed.

Lemma teardown_listening s s' l li p :
  q_listeners s !! l = Some li -> q_shutdown s' = q_shutdown s -> q_sockets s' = q_sockets s -> teardown_ok s p -> teardown_ok s' p.
Proof. intros El E1 E2. destruct p; cbn; rewrite ?E1, ?E2; try done. intros (_ & _ & H). by rewrite H, lookup_empty in El. Qed.

Lemma listeners_insert s l p b sending :
  q_listeners s !! l = Some (Listener p b) ->
  forall k q x, <[l := Listener p sending]> (q_listeners s) !! k = Some (Listener q x) -> exists y, q_listeners s !! k = Some (Listener q y).
Proof.
  intros El k q x. destruct (decide (k = l)) as [-> |Hne]; [rewrite lookup_insert_eq|rewrite lookup_insert_ne by done]; naive_solver.
Qed.

Lemma handled_ok s s' c : quiesce_ok s -> handled s c = Some s' -> quiesce_ok s'.
Proof.
  intros Hs H. unfold handled in H. destruct (q_go s !! c) as [[[] []]|] eqn:E; try done. destruct (through s c) eqn:Ht; [|done]. injection H as <-.
  apply through_spec in Ht as [Hcb Hn]; [|done]. moved Hs E Idle.
Qed.

Lemma wantNodes_ok s s' c : quiesce_ok s -> wantNodes s c = Some s' -> quiesce_ok s'.
Proof.
  intros Hs H. unfold wantNodes in H. destruct (q_go s !! c) as [[r []]|] eqn:E; try done. destruct (hasNodes s c) eqn:Ht; [done|]. injection H as <-.
  moved Hs E Locking.
Qed.

Lemma callShutdown_ok s s' c : quiesce_ok s -> callShutdown s c = Some s' -> quiesce_ok s'.
Proof.
  intros Hs H. unfold callShutdown in H. destruct (q_go s !! c) as [[r []]|] eqn:E; try done. destruct (_ || _) eqn:Hd; [|done]. injection H as <-.
  moved Hs E (Calling SdLock). destruct (qo_go _ Hs _ _ E) as (G1 & G2 & G3 & G4 & _). split_and!; try done; [].
  split; [|done]. cbn. intros Hcb. unfold depth in Hd. rewrite Hcb in Hd. by destruct (hasNodes s c) eqn:En.
Qed.

Lemma track_ok s s' c : quiesce_ok s -> track s c = Some s' -> quiesce_ok s'.
Proof.
  intros Hs H. unfold track in H. destruct (q_go s !! c) as [[r []]|] eqn:E; try done. injection H as <-.
  destruct (qo_go _ Hs _ _ E) as (G1 & G2 & G3 & G4 & G5 & G6). cbn in *.
  destruct r; try done; [moved Hs E Working|moved Hs E Idle].
Qed.

Lemma untrack_ok s s' c : quiesce_ok s -> untrack s c = Some s' -> quiesce_ok s'.
Proof.
  intros Hs H. unfold untrack in H. destruct (q_go s !! c) as [[[] []]|] eqn:E; try done.
  - destruct (through s c) eqn:Ht; [|done]. injection H as <-. apply through_spec in Ht as [Hcb Hn]; [|done]. moved Hs E Ending.
  - destruct (q_shutdown s) eqn:Ht; [|done]. injection H as <-. moved Hs E Ending. cbn. by rewrite (proj2 (qo_down _ Hs Ht)).
Qed.

Lemma receive_ok s s' c l : quiesce_ok s -> receive s c l = Some s' -> quiesce_ok s'.
Proof.
  intros Hs H. unfold receive in H. destruct (q_go s !! c) as [[[] []]|] eqn:E; try done. destruct (q_listeners s !! l) as [[p []]|] eqn:El; try done.
  destruct (Z.eqb_spec p c) as [-> |]; [|done]. injection H as <-. moved Hs E Working.
  - intros d Hd. left. split_and!; [by eapply (lock_other _ _ _ _ _ Hs E)|exact Hd|intros q; by eapply teardown_listening].
  - cbn. by rewrite (listening _ _ _ Hs El).
  - cbn. intros k q b E2. split; [by eapply listeners_insert|done].
Qed.

Lemma takeNodes_ok s s' c : quiesce_ok s -> takeNodes s c = Some s' -> quiesce_ok s'.
Proof.
  intros Hs H. unfold takeNodes in H. destruct (q_go s !! c) as [[r []]|] eqn:E; try done. destruct (q_nodeLock s) eqn:En; [done|]. injection H as <-.
  moved Hs E Working. cbn. intros d ok [= <- <-]. split; [|by right; split; [|left]]. intros Hd. destruct (e_sealed (q_events s)) eqn:Ese; [|done].
  destruct (qo_sealed _ Hs Ese) as [Hsh _]. by rewrite Hsh in Hd.
Qed.

Lemma releaseNodes_ok s s' c : quiesce_ok s -> releaseNodes s c = Some s' -> quiesce_ok s'.
Proof.
  intros Hs H. unfold releaseNodes in H. destruct (q_go s !! c) as [[r []]|] eqn:E; try done. destruct (hasNodes s c); [|done]. injection H as <-.
  by stays Hs.
Qed.

Lemma listenerRead_ok s s' l : quiesce_ok s -> listenerRead s l = Some s' -> quiesce_ok s'.
Proof.
  intros Hs H. unfold listenerRead in H. destruct (q_listeners s !! l) as [[p []]|] eqn:El; try done. destruct (q_sockets s) eqn:Eso; [done|].
  injection H as <-. stays Hs.
  - intros q. by eapply teardown_listening.
  - cbn. by rewrite (listening _ _ _ Hs El).
  - by eapply listeners_insert.
Qed.

Lemma listenerEnd_ok s s' l : quiesce_ok s -> listenerEnd s l = Some s' -> quiesce_ok s'.
Proof.
  intros Hs H. unfold listenerEnd in H. destruct (q_listeners s !! l) as [[p []]|] eqn:El; try done. destruct (q_sockets s) eqn:Eso; [|done].
  injection H as <-. stays Hs.
  - intros q. by eapply teardown_listening.
  - cbn. by rewrite (listening _ _ _ Hs El).
  - cbn. intros k q x. rewrite lookup_delete_Some. intros [_ E]. by eexists.
Qed.

Lemma callbacks_ok s c r callbacks :
  quiesce_ok s -> q_go s !! c = Some (Goroutine r Working) -> (forall d, d <> c -> callbacks !! d = q_callbacks s !! d) ->
  (forall n, callbacks !! c = Some n -> 0 < n) -> (r = Dispatching -> is_Some (callbacks !! c)) -> quiesce_ok (set_callbacks s callbacks).
Proof.
  intros Hs E Hd Hc Hdi. stays Hs.
  - intros d g Eg. destruct (decide (d = c)) as [-> |Hne].
    + right. rewrite E in Eg. injection Eg as <-. exact (qo_go _ Hs c _ E).
    + left. constructor; cbn; try done. by apply Hd.
  - destruct (qo_delivering _ Hs) as (a & Ea & Ha). exists a. split; [done|]. cbn. destruct (q_dispatcher s); try done. split; [apply Ha|].
    destruct (decide (c = dispatcherId)) as [-> |Hne]; [|rewrite Hd by done; apply Ha]. rewrite E in Ea. injection Ea as -> _. by apply Hdi.
  - cbn. intros d n En. destruct (decide (d = c)) as [-> |Hne]; [|rewrite Hd in En by done; by apply (qo_callbacks _ Hs d n)].
    split; [by apply Hc|by eauto].
Qed.

Lemma depth_nonneg s c : quiesce_ok s -> 0 <= depth s c.
Proof. intros Hs. unfold depth. destruct (q_callbacks s !! c) as [n|] eqn:E; [|done]. destruct (qo_callbacks _ Hs c n E). cbn. lia. Qed.

Lemma callbacks_none s c : quiesce_ok s -> (depth s c >? 0) = false -> q_callbacks s !! c = None.
Proof.
  intros Hs Hd. unfold depth in Hd. destruct (q_callbacks s !! c) as [n|] eqn:E; [|done]. destruct (qo_callbacks _ Hs c n E).
  cbn in Hd. destruct (Z.gtb_spec n 0); [done|lia].
Qed.

Lemma enterCallback_ok s s' c : quiesce_ok s -> enterCallback s c = Some s' -> quiesce_ok s'.
Proof.
  intros Hs H. unfold enterCallback in H. destruct (q_go s !! c) as [[r []]|] eqn:E; try done. injection H as <-. pose proof (depth_nonneg s c Hs).
  apply (callbacks_ok s c r); [done..|intros d Hne; by rewrite lookup_insert_ne| |by rewrite lookup_insert_eq].
  intros n. rewrite lookup_insert_eq. intros [= <-]. lia.
Qed.

Lemma leaveCallback_ok s s' c : quiesce_ok s -> leaveCallback s c = Some s' -> quiesce_ok s'.
Proof.
  intros Hs H. assert (Hx : exists r, q_go s !! c = Some (Goroutine r Working) /\ s' = unmarkCallback s c /\ (r = Dispatching -> 1 < depth s c)).
  { unfold leaveCallback in H. destruct (q_go s !! c) as [[r a]|]; [|done]. exists r.
    destruct r, a; try done; match type of H with (if ?d >? ?k then _ else _) = _ => destruct (Z.gtb_spec d k) end; try done; injection H as <-; by split_and!. }
  destruct Hx as (r & E & -> & Hr). apply (callbacks_ok s c r); [done..|intros d Hne| |].
  - destruct (_ <=? 0); [by apply lookup_delete_ne|by apply lookup_insert_ne].
  - intros n. destruct (Z.leb_spec (depth s c - 1) 0); [by rewrite lookup_delete_eq|]. rewrite lookup_insert_eq. intros [= <-]. lia.
  - intros Hd%Hr. rewrite (proj2 (Z.leb_gt _ _)) by lia. by rewrite lookup_insert_eq.
Qed.

Lemma commitChange_ok s s' c k n o rc : quiesce_ok s -> commitChange s c k n o rc = Some s' -> quiesce_ok s'.
Proof.
  intros Hs H. unfold commitChange in H. destruct (q_go s !! c) as [[r []]|] eqn:E; try done. destruct (q_nodeLock s) as [[h []]|] eqn:En; try done.
  destruct (Z.eqb_spec h c) as [-> |]; [|done]. injection H as <-. stays Hs.
  eapply (event_step_ok (System (commitEvent (q_events s) k n o rc) (q_dispatcher s) 2 _)); [by apply step_signal|].
  eapply event_step_ok; [apply step_commit; by apply (qo_nodes _ Hs c true En)|apply (qo_events _ Hs)].
Qed.

(** ** Lemmas: goroutines that come and go *)

Lemma next_fresh s : quiesce_ok s -> q_go s !! q_next s = None /\ q_callbacks s !! q_next s = None /\ ~ q_next s ∈ q_tracked s /\ q_lock s <> Some (q_next s) /\
  hasNodes s (q_next s) = false.
Proof.
  intros Hs. assert (H : q_go s !! q_next s = None).
  { destruct (q_go s !! q_next s) as [g|] eqn:E; [|done]. destruct (qo_go _ Hs _ _ E) as [H _]. lia. }
  split_and!; [done|..].
  - destruct (q_callbacks s !! q_next s) as [n|] eqn:E; [|done]. destruct (qo_callbacks _ Hs _ n E) as [_ [g Hg]]. congruence.
  - intros [g Hg]%(qo_tracked _ Hs). congruence.
  - intros (r & p & E & _)%(qo_lock _ Hs). congruence.
  - unfold hasNodes. destruct (q_nodeLock s) as [[h ok]|] eqn:E; [|done]. apply Z.eqb_neq. intros ->.
    destruct (qo_nodes _ Hs _ _ E) as [(r & a & E2 & _) _]. congruence.
Qed.

Lemma started_ok s r a :
  quiesce_ok s -> r <> Dispatching -> (joined r = true -> q_shutdown s = true -> 0 < q_wg s) ->
  (a = Starting /\ joined r = true \/ a = Working /\ joined r = false \/ a = Calling SdJoin /\ joined r = false /\ q_shutdown s = true) ->
  quiesce_ok (set_group (goes s (q_next s) r a) (q_next s + 1) (q_wg s + if joined r then 1 else 0) (q_tracked s)).
Proof.
  intros Hs Hr Hwg Ha. destruct (next_fresh s Hs) as (F1 & F2 & F3 & F4 & F5).
  assert (Hn : q_next s <> dispatcherId) by (intros Hn; destruct (qo_delivering _ Hs) as (? & E & _); rewrite Hn, E in F1; done).
  assert (Hlook : forall d g, q_go s !! d = Some g -> <[q_next s := Goroutine r a]> (q_go s) !! d = Some g).
  { intros d g E. rewrite lookup_insert_ne; [done|]. intros <-. congruence. }
  constructor; cbn.
  - intros c g. destruct (decide (c = q_next s)) as [-> |Hne].
    + rewrite lookup_insert_eq. intros [= <-]. unfold go_ok. cbn. rewrite F2.
      destruct Ha as [[-> Hj]|[[-> Hj]|[-> [Hj Hsh]]]]; rewrite ?Hj; cbn; split_and!; try done; try lia; try tauto.
    + rewrite lookup_insert_ne by done. intros E. eapply go_ok_later; [|by apply (qo_go _ Hs)]. constructor; cbn; try done; [lia|].
      intros Hsh Hz. destruct (joined r); [|lia]. specialize (Hwg eq_refl Hsh). lia.
  - rewrite joinedOf_new by done. rewrite (qo_wg _ Hs). destruct (joined r); lia.
  - intros c [g Hg]%(qo_tracked _ Hs). eauto.
  - intros c (r2 & p & E & Hp)%(qo_lock _ Hs). eauto 6.
  - intros c ok E. destruct (qo_nodes _ Hs c ok E) as [(r2 & a2 & E2 & H2) H3]. eauto 7.
  - apply (qo_down _ Hs).
  - apply (qo_closes _ Hs).
  - intros Hse. destruct (qo_sealed _ Hs Hse) as [H1 H2]. split; [done|]. destruct (joined r); [|lia]. specialize (Hwg eq_refl H1). lia.
  - destruct (qo_delivering _ Hs) as (a2 & E & H2). exists a2. cbn. by rewrite lookup_insert_ne.
  - intros l p b El. destruct (qo_receivers _ Hs l p b El) as (a2 & E & H2). eauto.
  - intros c n E. destruct (qo_callbacks _ Hs c n E) as [H1 [g H2]]. eauto.
  - apply (qo_events _ Hs).
Qed.

Lemma stopped_ok s c r a :
  quiesce_ok s -> q_go s !! c = Some (Goroutine r a) -> r <> Dispatching -> q_callbacks s !! c = None -> hasNodes s c = false ->
  ~ c ∈ q_tracked s -> inTeardown a = false -> (r = Receiver -> q_shutdown s = true) ->
  quiesce_ok (set_group (gone s c) (q_next s) (q_wg s - if joined r then 1 else 0) (q_tracked s)).
Proof.
  intros Hs E Hr Hcb Hn Ht Ha Hre. pose proof (dispatching_id _ _ _ _ Hs E Hr) as Hd.
  pose proof (joinedOf_gone _ _ _ _ E) as Hj. pose proof (qo_wg _ Hs) as Hw. 
  assert (Hlook : forall d g, d <> c -> q_go s !! d = Some g -> delete c (q_go s) !! d = Some g) by (intros; by rewrite lookup_delete_ne).
  constructor; cbn.
  - intros d g [Hne Ed]%lookup_delete_Some. eapply go_ok_later; [|by apply (qo_go _ Hs)]. constructor; cbn; try done. destruct (joined r); lia.
  - destruct (joined r); lia.
  - intros d Hd2. destruct (qo_tracked _ Hs d Hd2) as [g Hg]. exists g. apply Hlook; [|done]. by intros ->.
  - intros d Hd2. destruct (qo_lock _ Hs d Hd2) as (r2 & p & E2 & Hp). exists r2, p. split; [|done]. apply Hlook; [|done]. by eapply (lock_other _ _ _ _ _ Hs E).
  - intros d ok E2. destruct (qo_nodes _ Hs d ok E2) as [(r2 & a2 & E3 & H2) H3]. split; [|done]. exists r2, a2. split; [|done].
    apply Hlook; [|done]. by eapply (holder_other _ _ _ _ Hs E).
  - apply (qo_down _ Hs).
  - apply (qo_closes _ Hs).
  - intros Hse. destruct (qo_sealed _ Hs Hse) as [H1 H2]. split; [done|]. destruct (joined r); lia.
  - destruct (qo_delivering _ Hs) as (a2 & E2 & H2). exists a2. cbn. by rewrite lookup_delete_ne.
  - intros l p b El. destruct (qo_receivers _ Hs l p b El) as (a2 & E2 & H2). exists a2. split; [|done]. apply Hlook; [|done]. intros ->.
    rewrite E in E2. injection E2 as -> ->. rewrite (listening _ _ _ Hs El) in Hre. by specialize (Hre eq_refl).
  - intros d n E2. destruct (qo_callbacks _ Hs d n E2) as [H1 [g H2]]. split; [done|]. exists g. apply Hlook; [|done]. intros ->. congruence.
  - apply (qo_events _ Hs).
Qed.

Lemma leaveGroup_ok s s' c : quiesce_ok s -> leaveGroup s c = Some s' -> quiesce_ok s'.
Proof.
  intros Hs H. unfold leaveGroup in H. destruct (q_go s !! c) as [[r []]|] eqn:E; try done. injection H as <-.
  destruct (qo_go _ Hs _ _ E) as (_ & Gd & Gt & _ & Gj & Gc & Gr). cbn in *.
  assert (Hn : hasNodes s c = false).
  { unfold hasNodes. destruct (q_nodeLock s) as [[h ok]|] eqn:En; [|done]. apply Z.eqb_neq. eapply (holder_busy _ _ _ _ _ _ Hs E En). tauto. }
  pose proof (stopped_ok s c r Ending Hs E) as Hst. rewrite Gj in Hst. apply Hst; try done; [by intros ->|]. by rewrite Gt.
Qed.

Lemma userEnds_ok s s' c : quiesce_ok s -> perform (AUserEnds c) s = Some s' -> quiesce_ok s'.
Proof.
  intros Hs H. cbn in H. destruct (q_go s !! c) as [[[] []]|] eqn:E; try done. destruct (through s c) eqn:Ht; [|done]. injection H as <-.
  apply through_spec in Ht as [Hcb Hn]; [|done]. destruct (qo_go _ Hs _ _ E) as (_ & _ & Gt & _). cbn in Gt.
  pose proof (stopped_ok s c Untracked Working Hs E) as Hst. cbn in Hst. rewrite Z.sub_0_r in Hst. apply Hst; try done. by rewrite Gt.
Qed.

Lemma user_ok s s' : quiesce_ok s -> perform AUser s = Some s' -> quiesce_ok s'.
Proof.
  intros Hs [= <-]. pose proof (started_ok s Untracked Working Hs) as Hst. cbn in Hst. rewrite Z.add_0_r in Hst. apply Hst; [done..|]. tauto.
Qed.

Lemma joined_counted s c r a : quiesce_ok s -> q_go s !! c = Some (Goroutine r a) -> joined r = true -> 0 < q_wg s.
Proof. intros Hs E Hj. pose proof (joinedOf_gone _ _ _ _ E) as H. rewrite Hj in H. rewrite (qo_wg _ Hs). lia. Qed.

Lemma spawn_ok s s' c : quiesce_ok s -> perform (ASpawn c) s = Some s' -> quiesce_ok s'.
Proof.
  intros Hs H. cbn in H. destruct (q_go s !! c) as [[r []]|] eqn:E; try done. destruct (joined r) eqn:Hj; [|done]. injection H as <-.
  pose proof (joined_counted _ _ _ _ Hs E Hj). apply (started_ok s Handler Starting Hs); [done..|]. tauto.
Qed.

(** ** Lemmas: the dispatcher and [Shutdown] *)

Lemma dispatch_sealed q d d' q' : eventDispatch d q = Some (d', q') -> e_sealed q' = e_sealed q /\ (e_sealed q = true -> d' <> DWaiting).
Proof.
  destruct d; cbn; intros H; simplify_eq; try done.
  - unfold popEvent in H. destruct (e_events q); [|by injection H as <- <-]. destruct (e_sealed q) eqn:E; by injection H as <- <-.
  - destruct (e_wake q); [|done]. by injection H as <- <-.
Qed.

(** A step of the dispatcher outside of a delivery. *)
Lemma dispatched_ok s d q :
  quiesce_ok s -> q_go s !! dispatcherId = Some (Goroutine Dispatching Idle) -> eventDispatch (q_dispatcher s) (q_events s) = Some (d, q) ->
  (forall ev, d <> DDelivering ev) -> quiesce_ok (set_delivery s d q (q_committed s)).
Proof.
  intros Hs E Ee Hd. destruct (dispatch_sealed _ _ _ _ Ee) as [Hse Hw]. stays Hs.
  - intros c g _. left. constructor; cbn; rewrite ?Hse; try done. intros Hx _ ->. by specialize (Hw Hx).
  - cbn. rewrite Hse. intros c ok En. split; [done|]. apply (qo_nodes _ Hs c ok En).
  - cbn. rewrite Hse. apply (qo_sealed _ Hs).
  - exists Idle. split; [done|]. cbn. destruct d; try done. by destruct (Hd ev).
  - cbn. eapply dispatch_ok; [exact Ee|apply (qo_events _ Hs)].
Qed.

Lemma dispatchEvent_ok s s' : quiesce_ok s -> dispatchEvent s = Some s' -> quiesce_ok s'.
Proof.
  intros Hs H. unfold dispatchEvent in H. destruct (qo_delivering _ Hs) as (a & E & Ha). rewrite E in H. destruct a; try done.
  - destruct (eventDispatch _ _) as [[d q]|] eqn:Ee; [|done]. cbn in H. injection H as <-.
    destruct d as [| |ev| |]; [by apply dispatched_ok..| |by apply dispatched_ok|by apply dispatched_ok].
    destruct (dispatch_sealed _ _ _ _ Ee) as [Hse Hw]. destruct (qo_go _ Hs _ _ E) as (_ & _ & _ & _ & _ & Hcb). cbn in Hcb.
    assert (H0 : depth s dispatcherId = 0) by (unfold depth; by rewrite Hcb). unfold markCallback, depth in *. cbn in *. rewrite H0 in *.
    eapply (moved_ok s _ dispatcherId _ _ Working Hs E); [reflexivity|..]; cbn; rewrite ?Hse; try done; try unmoved Hs E.
    + intros c Hne. constructor; cbn; rewrite ?Hse; try done. by rewrite lookup_insert_ne.
    + exists Working. cbn. rewrite lookup_insert_eq. by rewrite lookup_insert_eq.
    + intros c n Hn. destruct (decide (c = dispatcherId)) as [-> |Hne].
      * rewrite lookup_insert_eq in Hn. injection Hn as <-. split; [lia|by right].
      * rewrite lookup_insert_ne in Hn by done. split; [by apply (qo_callbacks _ Hs c n)|left; by eexists].
    + eapply dispatch_ok; [exact Ee|apply (qo_events _ Hs)].
  - destruct (q_dispatcher s) as [| |ev| |] eqn:Ed; try done. destruct (_ && _) eqn:Hd; [|done]. cbn [eventDispatch mbind option_bind] in H. injection H as <-.
    apply andb_true_iff in Hd as [Hd%Z.eqb_eq Hn%negb_true_iff].
    unfold unmarkCallback, depth in *. cbn [goes set_go q_callbacks] in *. rewrite Hd. change (1 - 1 <=? 0) with true. cbv iota.
    eapply (moved_ok s _ dispatcherId _ _ Idle Hs E); [reflexivity|..]; cbn; try done; try unmoved Hs E.
    + intros c Hne. constructor; cbn; try done. by rewrite lookup_delete_ne.
    + destruct (qo_go _ Hs _ _ E) as (G1 & G2 & G3 & _). unfold go_ok. cbn in *. rewrite lookup_delete_eq. split_and!; try done. by right.
    + exists Idle. cbn. by rewrite lookup_insert_eq.
    + intros c n [_ Hc]%lookup_delete_Some. split; [by apply (qo_callbacks _ Hs c n)|left; by eexists].
    + pose proof (qo_events _ Hs) as Hev. rewrite Ed in Hev. by eapply dispatch_ok; [|exact Hev].
Qed.

(** The holder of [shutdownLock] is in the teardown, and nobody else is. *)
Lemma teardown_holder s c r p :
  quiesce_ok s -> q_go s !! c = Some (Goroutine r (Calling p)) -> inTeardown (Calling p) = true -> q_lock s = Some c /\ teardown_ok s p.
Proof.
  intros Hs E Hp. destruct (qo_go _ Hs _ _ E) as (_ & _ & _ & Hl & _). specialize (Hl Hp). split; [done|].
  destruct (qo_lock _ Hs c Hl) as (r2 & p2 & E2 & Ht). rewrite E in E2. by injection E2 as <- <-.
Qed.

(** A step inside the teardown: the lock stays with its holder. *)
Lemma teardown_step s c r p p' shutdown closes sockets listeners :
  quiesce_ok s -> q_go s !! c = Some (Goroutine r (Calling p)) -> inTeardown (Calling p) = true -> inTeardown (Calling p') = true ->
  let s' := set_down (goes s c r (Calling p')) shutdown closes sockets listeners in
  listeners = q_listeners s -> (q_shutdown s = true -> shutdown = true) -> (shutdown = true -> sockets = true /\ listeners = ∅) ->
  closes = (if shutdown then 1 else 0) -> teardown_ok s' p' -> quiesce_ok s'.
Proof.
  intros Hs E Hp Hp' s' -> Hsh Hdown Hcl Ht. destruct (teardown_holder _ _ _ _ Hs E Hp) as [Hl _]. subst s'. moved Hs E (Calling p'); cbn; try done.
  - destruct (qo_go _ Hs _ _ E) as (G1 & G2 & G3 & _ & G5 & _). unfold go_ok. cbn in *. split_and!; try done. by destruct p'.
  - intros d Hd. right. rewrite Hl in Hd. injection Hd as <-. eauto.
  - intros Hse. destruct (qo_sealed _ Hs Hse). auto.
Qed.

Lemma shutdownLock_ok s c r p p' lock :
  quiesce_ok s -> q_go s !! c = Some (Goroutine r (Calling p)) -> q_lock s = None /\ lock = Some c \/ q_lock s = Some c /\ lock = None ->
  let s' := set_locks (goes s c r (Calling p')) lock (q_nodeLock s) in
  (inTeardown (Calling p') = true -> lock = Some c /\ teardown_ok s' p') -> (lock = Some c -> inTeardown (Calling p') = true) ->
  pc_ok s' r c p' -> quiesce_ok s'.
Proof.
  intros Hs E Hl s' Hp' Hp Hpc. subst s'. moved Hs E (Calling p').
  - intros d Hne. constructor; cbn; try done. intros Hd. destruct Hl as [[Hx _]|[Hx _]]; congruence.
  - cbn. intros d ->. right. destruct Hl as [[_ [= ->]]|[_ [=]]]. split; [done|]. exists p'. split; [done|]. by apply Hp', Hp.
Qed.

Lemma signalling_ok q d n k l : events_ok (System q d n l) -> events_ok (System q d (S k) l).
Proof. intros [H1 H2 H3 H4 H5 H6 H7 H8]. constructor; cbn in *; try done. intros. by right. Qed.

Lemma finishPhase_ok s s' c r p :
  quiesce_ok s -> q_go s !! c = Some (Goroutine r (Calling p)) -> finishShutdown s c r p = Some s' -> quiesce_ok s'.
Proof.
  intros Hs E H. destruct (qo_go _ Hs _ _ E) as (G1 & G2 & G3 & G4 & G5 & G6). cbn [go_role go_activity] in *. destruct p; try done; cbn in H, G6.
  - destruct (Z.eqb_spec (q_wg s) 0) as [Hz|]; [|done]. injection H as <-. moved Hs E (Calling SdSeal).
  - destruct (q_nodeLock s) eqn:En; [done|]. injection H as <-. moved Hs E (Calling SdWake); cbn; try done.
    + by rewrite En.
    + tauto.
    + apply (signalling_ok _ _ 2). eapply event_step_ok; [apply step_seal|]. apply (qo_events _ Hs).
  - injection H as <-. moved Hs E (Calling SdDispatcher); cbn; try done.
    eapply event_step_ok; [apply step_signal|]. apply (signalling_ok _ _ 1), (qo_events _ Hs).
  - destruct (q_dispatcher s) eqn:Ed; try done. injection H as <-. moved Hs E Working.
Qed.

Lemma Shutdown_ok s s' c : quiesce_ok s -> Shutdown s c = Some s' -> quiesce_ok s'.
Proof.
  intros Hs H. unfold Shutdown in H. destruct (q_go s !! c) as [[r [| | | |p|]]|] eqn:E; try done.
  assert (Ht : inTeardown (Calling p) = true -> q_lock s = Some c /\ teardown_ok s p) by (by eapply teardown_holder).
  destruct p; try (by eapply (finishPhase_ok _ _ _ _ _ Hs E)); cbn in Ht.
  - destruct (q_lock s) eqn:El; [done|]. injection H as <-. eapply (shutdownLock_ok _ _ _ _ _ _ Hs E); [by left|..]; by destruct (q_shutdown s) eqn:?.
  - destruct (Ht eq_refl) as [_ Hsh]. injection H as <-. eapply (teardown_step _ _ _ _ _ _ _ _ _ Hs E); try done; cbn; try (by rewrite Hsh); apply (qo_closes _ Hs).
  - destruct (Ht eq_refl) as [_ [Hsh Hso]]. destruct (bool_decide_reflect (q_listeners s = ∅)) as [Hli|]; [|done]. injection H as <-.
    eapply (teardown_step _ _ _ _ _ (q_shutdown s) (q_closes s) (q_sockets s) (q_listeners s) Hs E); try done; cbn; try (by rewrite Hsh). apply (qo_closes _ Hs).
  - destruct (Ht eq_refl) as [_ (Hsh & Hso & Hli)]. injection H as <-.
    eapply (teardown_step _ _ _ _ _ _ _ _ _ Hs E); try done; cbn. pose proof (qo_closes _ Hs) as Hc. rewrite Hsh in Hc. by rewrite Hc.
  - destruct (Ht eq_refl) as [Hl Hsh]. injection H as <-. eapply (shutdownLock_ok _ _ _ _ _ _ Hs E); try done. by right.
  - destruct (qo_go _ Hs _ _ E) as (G1 & G2 & G3 & _ & G5 & Hsh). cbn in *. destruct (inReentrantContext s c) eqn:Hr; injection H as <-.
    + assert (Hw : quiesce_ok (goes s c r Working)) by moved Hs E Working. destruct did; [|done].
      pose proof (started_ok _ Untracked (Calling SdJoin) Hw) as Hst. cbn in Hst. rewrite Z.add_0_r in Hst. apply Hst; [done..|]. tauto.
    + apply orb_false_iff in Hr as [Hr%bool_decide_eq_false Hd]. pose proof (callbacks_none s c Hs Hd).
      assert (Hj : joined r = false) by (destruct (joined r); [by destruct Hr; apply G3|done]). moved Hs E (Calling SdJoin).
Qed.

Lemma perform_ok a s s' : quiesce_ok s -> perform a s = Some s' -> quiesce_ok s'.
Proof.
  intros Hs H. destruct a; cbn [perform] in H.
  - by eapply track_ok.
  - by eapply untrack_ok.
  - by eapply leaveGroup_ok.
  - by eapply receive_ok.
  - by eapply handled_ok.
  - by eapply enterCallback_ok.
  - by eapply leaveCallback_ok.
  - by eapply wantNodes_ok.
  - by eapply takeNodes_ok.
  - by eapply releaseNodes_ok.
  - by eapply commitChange_ok.
  - by eapply dispatchEvent_ok.
  - by eapply listenerRead_ok.
  - by eapply listenerEnd_ok.
  - by eapply callShutdown_ok.
  - by eapply Shutdown_ok.
  - by eapply (spawn_ok s s' c).
  - by eapply user_ok.
  - by eapply (userEnds_ok s s' c).
Qed.
