(* ===== verification/Shutdown.v ===== *)
(** That [Shutdown] of [src/memberlist.go] ends and what holds when it has: the
    steps of [Quiesce] are bounded once nothing new begins, a call is left
    waiting only where it was made on a goroutine the transport waits for, and
    a node that was shut down is quiet and stays so. *)

From S2P Require Import Prelude Wire NetAddr Nodes Events Quiesce.

Implicit Types s : quiesce.

(** ** Termination *)

(** More than the steps a goroutine, a listener, a callback or the dispatcher
    has left. *)
Definition pcWeight (p : shutdownPc) : nat :=
  match p with
  | SdLock => 19 | SdSockets => 18 | SdListeners => 17 | SdFlag => 16 | SdUnlock _ => 15 | SdDecide _ => 14
  | SdJoin => 10 | SdSeal => 9 | SdWake => 8 | SdDispatcher => 4
  end.
Definition goWeight (g : goroutine) : nat :=
  match go_activity g with
  | Starting => 4 | Idle => 2 | Working => 3 | Locking => 5 | Calling p => pcWeight p | Ending => 1
  end.
Definition listenerWeight (l : listener) : nat := if li_sending l then 3 else 1.
Definition deliveryWeight (d : dispatcher) (q : eventQueue) : nat :=
  8 * length (e_events q) + (if e_wake q then 3 else 0) +
  match d with DTop => 2 | DWaiting => 1 | DDelivering _ => 4 | DDelivered => 3 | DReturned => 0 end.
Definition shutdownWork s : nat :=
  totalWeight goWeight (q_go s) + totalWeight listenerWeight (q_listeners s) + totalWeight Z.to_nat (q_callbacks s) +
  (match q_nodeLock s with Some _ => 1 | None => 0 end) + deliveryWeight (q_dispatcher s) (q_events s).

Lemma delivery_less d q d' q' :
  eventDispatch d q = Some (d', q') ->
  (deliveryWeight d' q' + (match d' with DDelivering _ => 3 | _ => 1 end) <= deliveryWeight d q)%nat.
Proof.
  unfold deliveryWeight. destruct d; cbn; intros H; simplify_eq; cbn; try lia.
  - unfold popEvent in H. destruct (e_events q) eqn:Ee; [destruct (e_sealed q)|]; injection H as <- <-; cbn; rewrite ?Ee; cbn; lia.
  - destruct (e_wake q) eqn:Ew; [|done]. injection H as <- <-. cbn. lia.
Qed.

#[local] Arguments deliveryWeight : simpl never.
#[local] Arguments totalWeight : simpl never.
#[local] Arguments depth : simpl never.

Lemma unmark_less s c n : q_callbacks s !! c = Some n -> 0 < n ->
  (totalWeight Z.to_nat (q_callbacks (unmarkCallback s c)) + 1 <= totalWeight Z.to_nat (q_callbacks s))%nat.
Proof.
  intros E Hn. unfold unmarkCallback, depth. rewrite E. cbn. destruct (Z.leb_spec (n - 1) 0).
  - pose proof (totalWeight_delete Z.to_nat _ c n E). lia.
  - pose proof (totalWeight_insert Z.to_nat _ c n (n - 1) E). lia.
Qed.

Ltac weigh_go :=
  match goal with
  | E : q_go ?s !! ?c = Some ?g |- context [<[?c := ?g']> (q_go ?s)] =>
      let W := fresh in pose proof (totalWeight_insert goWeight (q_go s) c g g' E) as W; cbn [goWeight go_activity pcWeight] in W
  | E : q_go ?s !! ?c = Some ?g |- context [delete ?c (q_go ?s)] =>
      let W := fresh in pose proof (totalWeight_delete goWeight (q_go s) c g E) as W; cbn [goWeight go_activity pcWeight] in W
  end.

Lemma Shutdown_less s s' c : quiesce_ok s -> Shutdown s c = Some s' -> (shutdownWork s' < shutdownWork s)%nat.
Proof.
  intros Hs H. unfold Shutdown, finishShutdown in H. destruct (q_go s !! c) as [[r [| | | |p|]]|] eqn:E; try done. unfold shutdownWork. destruct p.
  - destruct (q_lock s); [done|]. injection H as <-. cbn. weigh_go. destruct (q_shutdown s); cbn in *; lia.
  - injection H as <-. cbn. weigh_go. lia.
  - destruct (bool_decide _); [|done]. injection H as <-. cbn. weigh_go. lia.
  - injection H as <-. cbn. weigh_go. lia.
  - injection H as <-. cbn. weigh_go. lia.
  - destruct (inReentrantContext s c); injection H as <-; [destruct did|]; cbn; weigh_go; try lia.
    assert (Hf : <[c := Goroutine r Working]> (q_go s) !! q_next s = None).
    { destruct (next_fresh s Hs) as [F _]. rewrite lookup_insert_ne; [done|]. intros ->. congruence. }
    rewrite (totalWeight_new goWeight _ _ _ Hf). cbn. lia.
  - destruct (q_wg s =? 0); [|done]. injection H as <-. cbn. weigh_go. lia.
  - destruct (q_nodeLock s) eqn:En; [done|]. injection H as <-. cbn. weigh_go. rewrite En. unfold deliveryWeight. cbn. lia.
  - injection H as <-. cbn. weigh_go. unfold deliveryWeight. cbn. destruct (e_wake (q_events s)); lia.
  - destruct (q_dispatcher s) eqn:Ed; try done. injection H as <-. cbn. weigh_go. rewrite ?Ed. lia.
Qed.

Lemma dispatchEvent_less s s' : quiesce_ok s -> dispatchEvent s = Some s' -> (shutdownWork s' < shutdownWork s)%nat.
Proof.
  intros Hs H. unfold dispatchEvent in H. destruct (q_go s !! dispatcherId) as [[r []]|] eqn:E; try done; [|destruct (q_dispatcher s) as [| |ev| |] eqn:Ed; try done].
  - destruct (eventDispatch _ _) as [[d q]|] eqn:Ee; [|done]. cbn in H. injection H as <-. apply delivery_less in Ee. unfold shutdownWork.
    destruct d; cbn in *; try lia. weigh_go. destruct (qo_go _ Hs _ _ E) as (_ & _ & _ & _ & _ & Hcb). cbn in Hcb.
    unfold depth. cbn. rewrite Hcb. cbn. rewrite (totalWeight_new Z.to_nat _ _ _ Hcb). lia.
  - destruct (_ && _) eqn:Hd; [|done]. destruct (eventDispatch _ _) as [[d q]|] eqn:Ee; [|done]. cbn in H. injection H as <-. rewrite <- Ed in Ee.
    apply delivery_less in Ee. unfold shutdownWork. apply andb_true_iff in Hd as [Hd%Z.eqb_eq _]. unfold depth in Hd.
    destruct (q_callbacks s !! dispatcherId) as [n|] eqn:Ec; [|done]. cbn in Hd. subst n.
    pose proof (unmark_less (goes s dispatcherId r Idle) dispatcherId 1 Ec eq_refl) as Hu. cbn in *. weigh_go. destruct d; lia.
Qed.

(** Steps that only go on with what was begun are bounded in number. *)
Lemma finishStep_less s s' : quiesce_ok s -> finishStep s s' -> (shutdownWork s' < shutdownWork s)%nat.
Proof.
  intros Hs (a & Ha & H). destruct a as [c|c|c|c l|c|c|c|c|c|c|c k n o rc| |l|l|c|c|c| |c]; try done; cbn [perform] in H.
  - unfold track in H. destruct (q_go s !! c) as [[r []]|] eqn:E; try done. injection H as <-. unfold shutdownWork. cbn. weigh_go. destruct r; cbn in *; lia.
  - unfold untrack in H. destruct (q_go s !! c) as [[[] []]|] eqn:E; try done;
      [destruct (through s c)|destruct (q_shutdown s)]; try done; injection H as <-; unfold shutdownWork; cbn; weigh_go; lia.
  - unfold leaveGroup in H. destruct (q_go s !! c) as [[r []]|] eqn:E; try done. injection H as <-. unfold shutdownWork. cbn. weigh_go. lia.
  - unfold receive in H. destruct (q_go s !! c) as [[[] []]|] eqn:E; try done. destruct (q_listeners s !! l) as [[p []]|] eqn:El; try done.
    destruct (p =? c); [|done]. injection H as <-. unfold shutdownWork. cbn. weigh_go.
    pose proof (totalWeight_insert listenerWeight _ l _ (Listener p false) El) as W. cbn in W. lia.
  - unfold handled in H. destruct (q_go s !! c) as [[[] []]|] eqn:E; try done. destruct (through s c); [|done]. injection H as <-.
    unfold shutdownWork. cbn. weigh_go. lia.
  - assert (Hx : 0 < depth s c /\ s' = unmarkCallback s c).
    { unfold leaveCallback in H. destruct (q_go s !! c) as [[r a]|]; [|done].
      destruct r, a; try done; match type of H with (if ?d >? ?k then _ else _) = _ => destruct (Z.gtb_spec d k) end; try done; injection H as <-; split; done || lia. }
    destruct Hx as [Hd ->]. unfold depth in Hd. destruct (q_callbacks s !! c) as [n|] eqn:Ec; [|done]. pose proof (unmark_less s c n Ec Hd).
    unfold shutdownWork. cbn in *. lia.
  - unfold takeNodes in H. destruct (q_go s !! c) as [[r []]|] eqn:E; try done. destruct (q_nodeLock s) eqn:En; [done|]. injection H as <-.
    unfold shutdownWork. cbn. weigh_go. rewrite En. lia.
  - unfold releaseNodes in H. destruct (q_go s !! c) as [[r []]|] eqn:E; try done. destruct (hasNodes s c) eqn:Hn; [|done]. injection H as <-.
    unfold shutdownWork, hasNodes in *. cbn. destruct (q_nodeLock s); [lia|done].
  - by apply dispatchEvent_less.
  - unfold listenerEnd in H. destruct (q_listeners s !! l) as [[p []]|] eqn:El; try done. destruct (q_sockets s); [|done]. injection H as <-.
    unfold shutdownWork. cbn. pose proof (totalWeight_delete listenerWeight _ l _ El) as W. cbn in W. lia.
  - by eapply Shutdown_less.
  - destruct (q_go s !! c) as [[[] []]|] eqn:E; try done. destruct (through s c); [|done]. injection H as <-. unfold shutdownWork. cbn. weigh_go. lia.
Qed.

(** ** Progress *)

Definition stuck s : Prop := forall a s', finishing a = true -> perform a s <> Some s'.

(** Nobody called [Shutdown] on a goroutine that receives from the transport,
    or inside a section of [nodeLock]. *)
Definition safeCalls s : Prop :=
  forall c r p, q_go s !! c = Some (Goroutine r (Calling p)) -> r <> Receiver /\ hasNodes s c = false.

Lemma stuck_none a s : stuck s -> finishing a = true -> perform a s = None.
Proof. intros Hst Ha. destruct (perform a s) as [s'|] eqn:E; [|done]. by destruct (Hst a s' Ha). Qed.

Lemma stuck_unlocked s : quiesce_ok s -> safeCalls s -> stuck s -> q_nodeLock s = None.
Proof.
  intros Hs Hsafe Hst. destruct (q_nodeLock s) as [[h ok]|] eqn:En; [|done]. exfalso.
  assert (Hh : hasNodes s h = true) by (unfold hasNodes; by rewrite En, Z.eqb_refl).
  destruct (qo_nodes _ Hs h ok En) as [(r & a & E & [-> |[p ->]]) _].
  - pose proof (stuck_none (ARelease h) s Hst eq_refl) as H. cbn in H. unfold releaseNodes in H. by rewrite E, Hh in H.
  - destruct (Hsafe h r p E) as [_ Hn]. congruence.
Qed.

(** Where nothing goes on, every goroutine waits in [Shutdown] or for work. *)
Lemma stuck_activity s c r a :
  quiesce_ok s -> safeCalls s -> stuck s -> q_go s !! c = Some (Goroutine r a) ->
  (exists p, a = Calling p) /\ r <> Receiver \/ a = Idle /\ (r = Receiver /\ q_shutdown s = false \/ r = Dispatching).
Proof.
  intros Hs Hsafe Hst E. pose proof (stuck_unlocked s Hs Hsafe Hst) as En.
  assert (Hn : hasNodes s c = false) by (unfold hasNodes; by rewrite En).
  assert (Hno : forall a s', finishing a = true -> perform a s = Some s' -> False) by (intros; by eapply Hst).
  destruct (qo_go _ Hs _ _ E) as (_ & Gd & _ & _ & Ga). cbn in Gd, Ga. destruct a as [| | | |p|].
  - exfalso. eapply (Hno (ATrack c)); [done|]. cbn. unfold track. by rewrite E.
  - right. split; [done|]. destruct Ga as [[-> | ->] _]; [left|by right]. split; [done|]. destruct (q_shutdown s) eqn:Hsh; [|done].
    exfalso. eapply (Hno (AUntrack c)); [done|]. cbn. unfold untrack. by rewrite E, Hsh.
  - exfalso. destruct (depth s c >? 0) eqn:Hd.
    + destruct (decide (r = Dispatching)) as [-> |Hr].
      * destruct (Z.gtb_spec (depth s c) 1) as [Hd1|Hd1].
        -- eapply (Hno (ALeave c)); [done|]. cbn. unfold leaveCallback. rewrite E. by rewrite (proj2 (Z.gtb_lt _ _)) by lia.
        -- assert (c = dispatcherId) as -> by tauto. destruct (qo_delivering _ Hs) as (a & E2 & Ha). rewrite E in E2. injection E2 as <-.
           destruct (q_dispatcher s) as [| |ev| |] eqn:Ed; try done. eapply (Hno ADispatch); [done|]. cbn. unfold dispatchEvent. rewrite E, Ed, Hn.
           assert (depth s dispatcherId = 1) as -> by (destruct (Z.gtb_spec (depth s dispatcherId) 0); [lia|done]). done.
      * eapply (Hno (ALeave c)); [done|]. cbn. unfold leaveCallback. rewrite E. by destruct r; try rewrite Hd.
    + pose proof (callbacks_none s c Hs Hd) as Hcb.
      assert (Ht : through s c = true) by (unfold through, depth; by rewrite Hcb, Hn).
      destruct r.
      * eapply (Hno (AUserEnds c)); [done|]. cbn. by rewrite E, Ht.
      * eapply (Hno (AUntrack c)); [done|]. cbn. unfold untrack. by rewrite E, Ht.
      * eapply (Hno (AHandled c)); [done|]. cbn. unfold handled. by rewrite E, Ht.
      * assert (c = dispatcherId) as -> by tauto. destruct (qo_delivering _ Hs) as (a & E2 & Ha). rewrite E in E2. injection E2 as <-.
        destruct (q_dispatcher s); try done. destruct Ha as [_ [n Hx]]. congruence.
  - exfalso. eapply (Hno (ATake c)); [done|]. cbn. unfold takeNodes. by rewrite E, En.
  - left. split; [by eexists|]. apply (Hsafe _ _ _ E).
  - exfalso. eapply (Hno (ALeaveGroup c)); [done|]. cbn. unfold leaveGroup. by rewrite E.
Qed.

Lemma stuck_listeners s : quiesce_ok s -> safeCalls s -> stuck s -> q_sockets s = true -> q_listeners s = ∅.
Proof.
  intros Hs Hsafe Hst Hso. apply map_eq. intros l. rewrite lookup_empty. destruct (q_listeners s !! l) as [[p []]|] eqn:El; [..|done]; exfalso.
  - destruct (qo_receivers _ Hs l p true El) as (a & E & Ha). destruct (stuck_activity s p _ a Hs Hsafe Hst E) as [[_ Hr]|[-> _]]; [done|].
    eapply (Hst (AReceive p l)); [done|]. cbn. unfold receive. by rewrite E, El, Z.eqb_refl.
  - eapply (Hst (AListenerEnd l)); [done|]. cbn. unfold listenerEnd. by rewrite El, Hso.
Qed.

Lemma stuck_unteared s : quiesce_ok s -> safeCalls s -> stuck s -> q_lock s = None.
Proof.
  intros Hs Hsafe Hst. destruct (q_lock s) as [c|] eqn:El; [|done]. exfalso. destruct (qo_lock _ Hs c El) as (r & p & E & Ht).
  pose proof (stuck_none (AShutdown c) s Hst eq_refl) as Hno. cbn in Hno. unfold Shutdown in Hno. rewrite E in Hno. destruct p; try done.
  destruct Ht as [_ Hso]. by rewrite bool_decide_true in Hno by by apply stuck_listeners.
Qed.

(** No call of [Shutdown] is left where nothing goes on. *)
Lemma stuck_returned s c r p : quiesce_ok s -> safeCalls s -> stuck s -> q_go s !! c = Some (Goroutine r (Calling p)) -> False.
Proof.
  intros Hs Hsafe Hst E. pose proof (stuck_unteared s Hs Hsafe Hst) as El. pose proof (stuck_unlocked s Hs Hsafe Hst) as En.
  pose proof (stuck_activity s) as Hact.
  assert (Hfin : forall c r p, q_go s !! c = Some (Goroutine r (Calling p)) -> joined r = false /\ q_callbacks s !! c = None /\ q_shutdown s = true).
  { clear c r p E. intros c r p E. destruct (qo_go _ Hs _ _ E) as (_ & _ & _ & Gl & _ & Gp). cbn in *.
    assert (Hno : Shutdown s c = None) by exact (stuck_none (AShutdown c) s Hst eq_refl). unfold Shutdown in Hno. rewrite E in Hno.
    destruct p; cbn in Gp; try tauto; [by rewrite El in Hno|by rewrite El in Gl; specialize (Gl eq_refl)..|]. by destruct (inReentrantContext s c). }
  destruct (Hfin c r p E) as (_ & _ & Hsh).
  assert (Hwg : q_wg s = 0).
  { rewrite (qo_wg _ Hs). assert (joinedOf (q_go s) = ∅) as ->; [|done]. apply set_eq. intros d. rewrite elem_of_joined.
    split; [|by intros ?%elem_of_empty]. intros ([r2 a2] & E2 & Hj). exfalso. cbn in Hj.
    destruct (Hact d r2 a2 Hs Hsafe Hst E2) as [[[p2 ->] _]|[-> [[-> Hf]| ->]]]; [|congruence|done]. destruct (Hfin _ _ _ E2). congruence. }
  assert (Hd : q_dispatcher s = DReturned \/ q_dispatcher s = DWaiting).
  { destruct (qo_delivering _ Hs) as (a & Ed & Ha). destruct (Hact _ _ _ Hs Hsafe Hst Ed) as [[[p2 ->] _]|[-> _]].
    - destruct (Hfin _ _ _ Ed) as (_ & Hcb & _). destruct (q_dispatcher s); try done. destruct Ha as [_ [n Hx]]. congruence.
    - pose proof (stuck_none ADispatch s Hst eq_refl) as Hno. cbn in Hno. unfold dispatchEvent in Hno. rewrite Ed in Hno.
      destruct (q_dispatcher s); cbn in Hno; try done; [|tauto..|tauto]. by destruct (popEvent (q_events s)). }
  assert (Hno : Shutdown s c = None) by exact (stuck_none (AShutdown c) s Hst eq_refl). unfold Shutdown in Hno. rewrite E in Hno.
  destruct (qo_go _ Hs _ _ E) as (_ & _ & _ & Gl & _ & Gp). cbn in *. destruct p; cbn in Hno, Gp; try done.
  - by rewrite El in Hno.
  - by rewrite El in Gl; specialize (Gl eq_refl).
  - by destruct (inReentrantContext s c).
  - by rewrite Hwg in Hno.
  - by rewrite En in Hno.
  - destruct Hd as [Hd|Hd]; rewrite Hd in *; [done|]. destruct Gp as (_ & _ & _ & Hw). specialize (Hw eq_refl).
    destruct (qo_delivering _ Hs) as (a & Ed & Ha). rewrite Hd in Ha. subst a.
    eapply (Hst ADispatch); [done|]. cbn. unfold dispatchEvent. by rewrite Ed, Hd; cbn; rewrite Hw.
Qed.

(** ** Lemmas: what stays *)

(** The branches of a step. *)
Ltac unfold_step H :=
  cbn [perform] in H; unfold track, untrack, leaveGroup, receive, handled, enterCallback, leaveCallback, wantNodes, takeNodes, releaseNodes,
    commitChange, dispatchEvent, listenerRead, listenerEnd, callShutdown, Shutdown, finishShutdown in H;
  repeat match type of H with
  | match ?x with _ => _ end = Some _ => destruct x eqn:?; try discriminate H
  | (_ ← ?x; _) = Some _ => destruct x eqn:?; cbn [mbind option_bind] in H; try discriminate H
  end; subst; injection H as <-; try match goal with |- context [if ?did then goReaper _ else _] => destruct did end.

Ltac elsewhere :=
  repeat first [rewrite lookup_insert_ne by congruence|rewrite lookup_delete_ne by congruence].

(** A call goes on only by its own steps. *)
Lemma calling_kept a s s' c r p :
  quiesce_ok s -> perform a s = Some s' -> a <> AShutdown c -> q_go s !! c = Some (Goroutine r (Calling p)) ->
  q_go s' !! c = Some (Goroutine r (Calling p)).
Proof.
  intros Hs H Ha E. destruct (next_fresh s Hs) as [F _]. destruct a; unfold_step H; cbn; elsewhere; try done;
    match goal with |- context [match ?d with _ => _ end] => destruct d end; cbn; elsewhere; done.
Qed.

Lemma calling_nodes a s s' c r p :
  quiesce_ok s -> perform a s = Some s' -> q_go s !! c = Some (Goroutine r (Calling p)) -> hasNodes s' c = hasNodes s c.
Proof.
  intros Hs H E. destruct a; unfold_step H; try done; try (match goal with |- context [match ?d with _ => _ end] => destruct d end; done).
  - unfold hasNodes. cbn. rewrite Heqo0. apply Z.eqb_neq. congruence.
  - unfold hasNodes in *. cbn. destruct (q_nodeLock s) as [[h ok]|]; [|done]. apply Z.eqb_eq in Heqb. subst h. symmetry. apply Z.eqb_neq. congruence.
Qed.

Lemma returned_kept a s s' :
  quiesce_ok s -> perform a s = Some s' -> q_dispatcher s = DReturned -> q_dispatcher s' = DReturned /\ q_committed s' = q_committed s.
Proof.
  intros Hs H Ed. pose proof (ok_returned _ (qo_events _ Hs) Ed) as [Hse _]. cbn in Hse. destruct a; unfold_step H; try done.
  - exfalso. match goal with En : q_nodeLock s = Some (_, true) |- _ => destruct (qo_nodes _ Hs _ _ En) as [_ Hx] end. by rewrite (Hx eq_refl) in Hse.
  - by rewrite Ed in *.
Qed.

(** ** Lemmas: after the teardown *)

Definition responsible (p : shutdownPc) : bool := match p with SdUnlock did | SdDecide did => did | SdJoin | SdSeal | SdWake | SdDispatcher => true | _ => false end.

(** Once the node is shut down, everything has ended or some call goes on to
    wait for it. *)
Definition owed s : Prop :=
  q_shutdown s = true -> q_dispatcher s = DReturned \/ exists c r p, q_go s !! c = Some (Goroutine r (Calling p)) /\ responsible p = true.

Lemma Shutdown_owed s s' c : quiesce_ok s -> owed s -> Shutdown s c = Some s' -> owed s'.
Proof.
  intros Hs Ho H Hsh. destruct (next_fresh s Hs) as [F _].
  assert (Hother : q_shutdown s = true -> q_dispatcher s' = DReturned \/
    (exists d r p, d <> c /\ q_go s' !! d = Some (Goroutine r (Calling p)) /\ responsible p = true) \/
    exists r p, q_go s !! c = Some (Goroutine r (Calling p)) /\ responsible p = true).
  { intros Hx. destruct (Ho Hx) as [Hd|(d & r & p & E & Hp)]; [left; by apply (returned_kept (AShutdown c) s s' Hs H Hd)|].
    destruct (decide (d = c)) as [-> |Hne]; [right; right; eauto|]. right. left. exists d, r, p. split_and!; try done.
    by apply (calling_kept (AShutdown c) s s' d r p Hs H); [congruence|]. }
  destruct (q_go s !! c) as [[r [| | | |p|]]|] eqn:E; unfold Shutdown in H; rewrite E in H; try done.
  destruct (q_shutdown s) eqn:Hs0.
  - destruct (Hother eq_refl) as [Hx|[(d & r2 & p2 & _ & E2 & Hp)|(r2 & p2 & [= <- <-] & Hp)]]; [by left|right; by eauto|].
    destruct p; try done; cbn in Hp; subst; cbn in H.
    all: repeat match type of H with match ?x with _ => _ end = Some _ => destruct x eqn:?; try discriminate H end; injection H as <-.
    all: cbn; try (left; assumption); right.
    all: try (eexists c, r, _; split; [apply lookup_insert_eq|done]).
    eexists (q_next s), _, _. split; [apply lookup_insert_eq|done].
  - right. assert (p = SdFlag) as ->.
    { destruct p; try done; cbn in H; repeat match type of H with match ?x with _ => _ end = Some _ => destruct x eqn:?; try discriminate H end;
        injection H as <-; try (cbn in Hsh; congruence). destruct did; cbn in Hsh; congruence. }
    injection H as <-. eexists c, r, _. split; [apply lookup_insert_eq|done].
Qed.

Lemma shutdown_or_not a : (exists c, a = AShutdown c) \/ forall c, a <> AShutdown c.
Proof. destruct a; try (right; done). left. by eexists. Qed.

Lemma owed_kept a s s' : quiesce_ok s -> owed s -> perform a s = Some s' -> owed s'.
Proof.
  intros Hs Ho H. destruct (shutdown_or_not a) as [[c ->]|Ha]; [by eapply Shutdown_owed|]. intros Hsh.
  assert (Hx : q_shutdown s = true).
  { destruct a; unfold_step H; try done; try (match goal with _ : context [match ?d with _ => _ end] |- _ => destruct d end; done). by destruct (Ha c). }
  destruct (Ho Hx) as [Hd|(c & r & p & E & Hp)]; [left; by apply (returned_kept a s s' Hs H Hd)|].
  right. exists c, r, p. split; [|done]. by apply (calling_kept a s s' c r p Hs H).
Qed.

(** Nothing is left running, and everything that was committed was told. *)
Definition quiet s : Prop :=
  q_shutdown s = true /\ q_closes s = 1 /\ q_listeners s = ∅ /\ (forall c g, q_go s !! c = Some g -> joined (go_role g) = false) /\
  e_delivered (q_events s) = q_committed s /\ forall r, r ∈ e_attached (q_events s) -> r ∈ e_closed (q_events s).

Lemma returned_quiet s : quiesce_ok s -> q_dispatcher s = DReturned -> quiet s.
Proof.
  intros Hs Ed. destruct (qo_events _ Hs) as [H1 _ _ _ H5 H6 _ H8]. cbn in *. destruct (H8 Ed) as [Hse He]. destruct (qo_sealed _ Hs Hse) as [Hsh Hwg].
  rewrite Ed, He in H1. cbn in H1. rewrite app_nil_r in H1. unfold quiet. rewrite (qo_closes _ Hs), Hsh. split_and!; try done.
  - apply (qo_down _ Hs Hsh).
  - apply joinedOf_none. rewrite (qo_wg _ Hs) in Hwg. lia.
  - intros r Hr%H6. by rewrite H5, <- H1.
Qed.

Lemma steps_ok s s' : quiesce_ok s -> rtc quiesceStep s s' -> quiesce_ok s'.
Proof. intros Hs H. induction H as [|s1 s2 s3 [a H] _ IH]; [done|]. apply IH. by eapply perform_ok. Qed.

Lemma returned_stays s s' :
  quiesce_ok s -> q_dispatcher s = DReturned -> rtc quiesceStep s s' -> q_dispatcher s' = DReturned /\ q_committed s' = q_committed s.
Proof.
  intros Hs Ed H. induction H as [|s1 s2 s3 [a H] _ IH]; [done|]. destruct (returned_kept a s1 s2 Hs H Ed) as [Ed2 Ec].
  destruct IH as [H1 H2]; [by eapply perform_ok|done|]. by rewrite H2.
Qed.

(** Only the reaper is a new call among the finishing steps. *)
Lemma calling_before a s s' c r p :
  finishing a = true -> perform a s = Some s' -> q_go s' !! c = Some (Goroutine r (Calling p)) ->
  (exists p0, q_go s !! c = Some (Goroutine r (Calling p0))) \/ r = Untracked /\ c = q_next s /\ q_nodeLock s' = q_nodeLock s.
Proof.
  intros Ha H E. destruct a; try done; unfold_step H; try (match type of E with context [match ?d with _ => _ end] => destruct d end); cbn in E;
    repeat match type of E with
    | <[_ := _]> _ !! _ = Some _ => apply lookup_insert_Some in E as [[? E]|[? E]]
    | delete _ _ !! _ = Some _ => apply lookup_delete_Some in E as [? E]
    end; simplify_eq; eauto.
Qed.

Lemma safeCalls_kept s s' : quiesce_ok s -> safeCalls s -> finishStep s s' -> safeCalls s'.
Proof.
  intros Hs Hsafe (a & Ha & H) c r p E. destruct (calling_before a s s' c r p Ha H E) as [[p0 E0]|(-> & -> & En)].
  - destruct (Hsafe _ _ _ E0) as [Hr Hn]. split; [done|]. by rewrite (calling_nodes a s s' c r p0 Hs H E0).
  - split; [done|]. unfold hasNodes. rewrite En. apply (next_fresh s Hs).
Qed.

Lemma finishSteps_kept s s' : quiesce_ok s -> owed s -> safeCalls s -> rtc finishStep s s' -> quiesce_ok s' /\ owed s' /\ safeCalls s'.
Proof.
  intros Hs Ho Hsafe H. induction H as [|s1 s2 s3 H _ IH]; [done|]. pose proof (safeCalls_kept _ _ Hs Hsafe H). destruct H as (a & _ & H).
  apply IH; [by eapply perform_ok|by eapply owed_kept|done].
Qed.

Lemma finishSteps_bounded n s s' : quiesce_ok s -> nsteps finishStep n s s' -> (n <= shutdownWork s)%nat.
Proof.
  intros Hs H. induction H as [|n s1 s2 s3 H _ IH]; [lia|]. pose proof (finishStep_less _ _ Hs H). destruct H as (a & _ & H).
  specialize (IH (perform_ok a s1 s2 Hs H)). lia.
Qed.

(** ** Lemmas: the start *)

Definition receiving (listeners : gmap Z listener) : Prop :=
  forall l p b, listeners !! l = Some (Listener p b) -> p = streamListenId \/ p = packetListenId.

Lemma goBackground_ok s r : quiesce_ok s -> q_shutdown s = false -> joined r = true -> quiesce_ok (goBackground s r).
Proof.
  intros Hs Hsh Hr. pose proof (started_ok s r Starting Hs) as Hst. rewrite Hr in Hst. apply Hst; [by intros ->|by rewrite Hsh|tauto].
Qed.

Lemma listening_ok s listeners :
  quiesce_ok s -> q_shutdown s = false -> q_lock s = None ->
  (forall l p b, listeners !! l = Some (Listener p b) -> exists a, q_go s !! p = Some (Goroutine Receiver a) /\ a <> Ending) ->
  quiesce_ok (set_down s (q_shutdown s) (q_closes s) (q_sockets s) listeners).
Proof.
  intros Hs Hsh El Hl. destruct Hs as [H1 H2 H3 H4 H5 H6 H7 H8 H9 H10 H11 H12]. constructor; try done; cbn.
  - by rewrite El.
  - by rewrite Hsh.
Qed.

Lemma startedMemberlist_ok listeners triggers :
  receiving listeners -> quiesce_ok (newMemberlist listeners triggers) /\ q_shutdown (newMemberlist listeners triggers) = false.
Proof.
  intros Hl. unfold newMemberlist.
  assert (H0 : quiesce_ok (newQuiesce ∅)).
  { constructor; cbn; try done.
    - intros c g [<- <-]%lookup_singleton_Some. unfold go_ok. cbn. split_and!; try done; by right.
    - by exists Idle.
    - apply (signalling_ok _ _ 0), initialSystem_ok. }
  assert (H2 : quiesce_ok (goBackground (goBackground (newQuiesce listeners) Receiver) Receiver)).
  { apply (listening_ok (goBackground (goBackground (newQuiesce ∅) Receiver) Receiver)); [by repeat apply goBackground_ok|done..|].
    intros l p b El. exists Starting. split; [|done]. by destruct (Hl l p b El) as [-> | ->]. }
  generalize (2 + triggers)%nat. intros n. induction n as [|n [IH1 IH2]]; [by split|]. split; [by apply goBackground_ok|exact IH2].
Qed.

Lemma quiesce_reachable listeners triggers s :
  receiving listeners -> rtc quiesceStep (newMemberlist listeners triggers) s -> quiesce_ok s /\ owed s.
Proof.
  intros Hl H. destruct (startedMemberlist_ok listeners triggers Hl) as [Hs Hsh].
  assert (Ho : owed (newMemberlist listeners triggers)) by (intros Hx; congruence). clear Hsh Hl.
  induction H as [|s1 s2 s3 [a H] _ IH]; [done|]. apply IH; [by eapply perform_ok|by eapply owed_kept].
Qed.

(** ** Lemmas: a listener that waits for the caller *)

Definition blocked s (p : Z) : Prop :=
  q_go s !! p = Some (Goroutine Receiver (Calling SdListeners)) /\ exists l, q_listeners s !! l = Some (Listener p true).

Lemma blocked_kept s s' p : quiesce_ok s -> blocked s p -> quiesceStep s s' -> blocked s' p.
Proof.
  intros Hs [E [l El]] [a H]. split.
  - eapply calling_kept; [done|exact H| |done]. intros ->. cbn in H. unfold Shutdown in H. rewrite E in H.
    rewrite bool_decide_false in H; [done|]. intros Hx. by rewrite Hx, lookup_empty in El.
  - exists l. destruct a; unfold_step H; rewrite ?Z.eqb_eq in *; cbn; try done; elsewhere; try done;
      match goal with |- context [match ?d with _ => _ end] => destruct d end; done.
Qed.

Lemma blocked_stays s s' p : quiesce_ok s -> blocked s p -> rtc quiesceStep s s' -> quiesce_ok s' /\ blocked s' p.
Proof.
  intros Hs Hb H. induction H as [|s1 s2 s3 H _ IH]; [done|]. apply IH; [destruct H as [a H]; by eapply perform_ok|by eapply blocked_kept].
Qed.

Fixpoint performAll s (actions : list action) : option quiesce :=
  match actions with [] => Some s | a :: actions => s ← perform a s; performAll s actions end.

Lemma performAll_reachable s actions s' : performAll s actions = Some s' -> rtc quiesceStep s s'.
Proof.
  revert s. induction actions as [|a actions IH]; cbn; intros s H; [by injection H as <-|].
  destruct (perform a s) as [s1|] eqn:E; [|done]. eapply rtc_l; [by exists a|by apply IH].
Qed.

(** [packetListen] receives a packet and answers it; while it is in the
    callback the listener has read the next one. *)
Definition exampleBlocking : list action :=
  [ATrack packetListenId; ARead 0; AReceive packetListenId 0; AEnter packetListenId; ARead 0; ACall packetListenId;
   AShutdown packetListenId; AShutdown packetListenId].

(** The application shuts a node down: the call, and what happens until it is
    about to return. *)
Definition exampleListeners : gmap Z listener := {[0 := Listener packetListenId false]}.
Definition exampleCall : list action := [AUser; ACall 5].
Definition exampleClosing : list action :=
  exampleCall ++ [AShutdown 5; AShutdown 5; AListenerEnd 0; AShutdown 5; AShutdown 5; AShutdown 5; AShutdown 5] ++
  map ATrack [1; 2; 3; 4] ++ map AUntrack [1; 2; 3; 4] ++ map ALeaveGroup [1; 2; 3; 4] ++ [AShutdown 5; AShutdown 5; AShutdown 5; ADispatch].
Definition exampleAfter (actions : list action) : quiesce :=
  default (newMemberlist exampleListeners 0) (performAll (newMemberlist exampleListeners 0) actions).

Lemma exampleAfter_reachable actions : rtc quiesceStep (newMemberlist exampleListeners 0) (exampleAfter actions).
Proof.
  unfold exampleAfter. destruct (performAll _ actions) as [s|] eqn:E; [by eapply performAll_reachable|apply rtc_refl].
Qed.

Lemma exampleListeners_receiving : receiving exampleListeners.
Proof. unfold exampleListeners. intros l p b [_ [= <- _]]%lookup_singleton_Some. by right. Qed.

(** ** Properties *)

(** C25: What a returned [Shutdown] means: in every interleaving of callers,
    callbacks, background goroutines, transport and dispatcher the shutdown
    channel is closed once at most, a call returns only when the node is shut
    down, and one that was made neither inside a callback nor on a joined
    goroutine returns to a node that is quiet and stays so: no joined
    goroutine and no listener runs, every committed event was delivered, its
    receipts are complete, and no event is committed any more. *)
Theorem shutdown_quiesces listeners triggers s s' c r p :
  receiving listeners -> rtc quiesceStep (newMemberlist listeners triggers) s -> q_go s !! c = Some (Goroutine r (Calling p)) ->
  Shutdown s c = Some s' -> q_go s' !! c = Some (Goroutine r Working) ->
  0 <= q_closes s' <= 1 /\ q_shutdown s' = true /\
  (inReentrantContext s c = false -> forall s'', rtc quiesceStep s' s'' -> quiet s'' /\ q_committed s'' = q_committed s').
Proof.
  intros Hl Hr E H Er. destruct (quiesce_reachable _ _ _ Hl Hr) as [Hs _]. pose proof (Shutdown_ok _ _ _ Hs H) as Hs'.
  assert (Hp : q_shutdown s' = true /\ (inReentrantContext s c = false -> q_dispatcher s' = DReturned)).
  { destruct (qo_go _ Hs _ _ E) as (_ & _ & _ & _ & _ & Hp). cbn in Hp. unfold Shutdown, finishShutdown in H. rewrite E in H.
    destruct p; repeat match type of H with match ?x with _ => _ end = Some _ => destruct x eqn:?; try discriminate H end; injection H as <-;
      try (cbn in Er; rewrite lookup_insert_eq in Er; congruence).
    - split; [|done]. by destruct did.
    - cbn in *. tauto. }
  destruct Hp as [Hsh Hd]. split_and!; [rewrite (qo_closes _ Hs'), Hsh; lia..|done|]. intros Hx s'' H2.
  destruct (returned_stays s' s'' Hs' (Hd Hx) H2) as [Ed Ec]. split; [|done]. apply returned_quiet; [by eapply steps_ok|done].
Qed.

Lemma shutdown_quiesces_witness :
  match Shutdown (exampleAfter exampleClosing) 5 with Some s' => quiet s' | None => False end.
Proof.
  destruct (Shutdown (exampleAfter exampleClosing) 5) as [s'|] eqn:E; [|vm_compute in E; discriminate E].
  assert (Eg : q_go s' !! 5 = Some (Goroutine Untracked Working)) by (vm_compute in E; injection E as <-; reflexivity).
  destruct (shutdown_quiesces exampleListeners 0 (exampleAfter exampleClosing) s' 5 Untracked SdDispatcher
    exampleListeners_receiving (exampleAfter_reachable exampleClosing) eq_refl E Eg) as (_ & _ & H).
  apply (H eq_refl s'). apply rtc_refl.
Defined.


Lemma exampleCall_safe : safeCalls (exampleAfter exampleCall).
Proof.
  intros c r p E. split; [|reflexivity]. intros ->. assert (Hc : c <> 5) by (intros ->; vm_compute in E; discriminate E).
  change (q_go (exampleAfter exampleCall)) with (<[5 := Goroutine Untracked (Calling SdLock)]> (<[5 := Goroutine Untracked Working]> (q_go (newMemberlist exampleListeners 0)))) in E.
  rewrite !lookup_insert_ne in E by congruence. cbn in E.
  repeat (apply lookup_insert_Some in E as [[_ E]|[_ E]]; [discriminate E|]). discriminate E.
Qed.


(** C27: [Shutdown] is not safe on the goroutine that receives packets: called
    in a callback there (the ping delegate's [AckPayload]) while the transport
    has read the next packet, it waits for the listener, which waits for the
    receiver, for ever; no other call of [Shutdown] returns either, and the
    node is never shut down. *)
Theorem shutdown_in_receiver_blocks :
  exists s, rtc quiesceStep (newMemberlist exampleListeners 0) s /\ inReentrantContext s packetListenId = true /\
    forall s', rtc quiesceStep s s' -> q_shutdown s' = false /\
      q_go s' !! packetListenId = Some (Goroutine Receiver (Calling SdListeners)) /\
      (forall c r p, q_go s' !! c = Some (Goroutine r (Calling p)) -> c = packetListenId \/ p = SdLock).
Proof.
  destruct (performAll (newMemberlist exampleListeners 0) exampleBlocking) as [s|] eqn:E; [|by vm_compute in E].
  exists s. pose proof (performAll_reachable _ _ _ E) as Hr. split; [done|]. vm_compute in E. injection E as <-. split; [reflexivity|]. intros s' H.
  destruct (quiesce_reachable _ _ _ exampleListeners_receiving Hr) as [Hs _].
  destruct (blocked_stays _ s' packetListenId Hs) as [Hs' [E [l El]]]; [split; [reflexivity|by exists 0]|done|].
  pose proof (listening _ _ _ Hs' El) as Hsh. split_and!; [done..|]. intros c r p Ec.
  destruct (teardown_holder _ _ _ _ Hs' E eq_refl) as [Hlock _]. destruct (qo_go _ Hs' _ _ Ec) as (_ & _ & _ & Ht & _ & Hp). cbn in Ht, Hp.
  rewrite Hlock in Ht. destruct p; cbn in Ht, Hp; try (by right); try (left; specialize (Ht eq_refl); congruence); rewrite Hsh in Hp; naive_solver.
Qed.
