(* ===== verification/Calls.v ===== *)
(** The lifecycle calls of [src/memberlist.go] as their callers see them:
    [UpdateNodeContext] and [LeaveContext] with their waits (for the leave
    semaphore, the node lock, the broadcast and the event) around the critical
    sections of [Lifecycle], and the convenience wrappers. How a wait ends is
    an argument; the state may have changed between two of them, so each part
    has the state it finds as an argument. *)

From S2P Require Import Prelude Msgpack Wire Treap Timing Queue NetAddr Nodes Events Packet State Lifecycle Membership Protocol Security HostPort Acks Net Streams Ingest Probe Setup.

(** ** Waiting *)

(** [timeoutContext]: the bound, if there is one. *)
Definition timeoutContext (timeout : Z) : option Z := if timeout >? 0 then Some timeout else None.

Inductive callError :=
| CallFailed (e : lifecycleError)
| CallMeta (size limit : Z)
| CallNotLocked                  (* the context ended before the commit *)
| BroadcastInterrupted | BroadcastTimeout
| DeliveryInterrupted | DeliveryTimeout.

(** The select of [waitForBroadcast]: [WokenByDelivery] when the channel fired. *)
Definition waitForBroadcast (hasPeers : bool) (w : wakeup) : result callError unit :=
  if negb hasPeers then Ok tt
  else match w with
       | WokenByDelivery => Ok tt
       | WokenByShutdown => Err BroadcastInterrupted
       | WokenByContext => Err BroadcastTimeout
       end.

Definition waitDelivery (q : eventQueue) (r : option Z) (inCallback : bool) (w : wakeup) : result callError unit :=
  match waitEventReceipt q r inCallback w with
  | Delivered => Ok tt
  | ContextError => Err DeliveryTimeout
  | ShutdownError => Err DeliveryInterrupted
  end.

(** How the waits of a call end, and the event queue at the last of them. *)
Record waits := Waits {
  w_locked : bool;
  w_broadcast : wakeup;
  w_inCallback : bool;
  w_delivery : wakeup;
  w_events : eventQueue;
}.

(** ** The calls *)

Section Calls.
Context {G : Type} {RG : Rand G} {ML : MathLog} {GC : GCM} (c : Settings).
Implicit Types m : Memberlist (G := G).
Let cfg : Config := stateConfig c.

(** [m0] is the state the call finds and [m] the one it locks. *)
Definition UpdateNode m0 m (nodeMeta : Z -> slice) (notify receipt : Z) (now : Z) (w : waits) : option (result callError unit * Memberlist) :=
  if hasShutdown m0 then Some (Err (CallFailed ErrShutdown), m)
  else
    match delegateMeta c nodeMeta with
    | Err (size, limit) => Some (Err (CallMeta size limit), m)
    | Ok meta =>
        if negb (w_locked w) then Some (Err CallNotLocked, m)
        else
          '(r, m) ← UpdateNodeContext cfg m meta notify receipt now;
          match r with
          | Err e => Some (Err (CallFailed e), m)
          | Ok hasPeers =>
              Some (let! _ := waitForBroadcast hasPeers (w_broadcast w) in waitDelivery (w_events w) (Some receipt) (w_inCallback w) (w_delivery w), m)
          end
    end.

(** [leaveSem] holds a token while a call is in the phase that commits. *)
Record leaving := Leaving { lv_sem : bool; lv_leaver : leaver (G := G) }.

(** [entered]: whether the semaphore was free before the context ended. With
    it held nobody else commits, so that the first look at the flags and the
    section see the same leave flag; the shutdown flag may be set in between,
    which [m] has. *)
Definition Leave (s : leaving) (m : Memberlist) (entered : bool) (receipt : Z) (now : Z) (w : waits) : option (result callError unit * leaving) :=
  if negb entered then Some (Err CallNotLocked, s)
  else if lv_sem s then None
  else
    let free l := Leaving false l in
    let l := lv_leaver s in
    if hasShutdown (le_m l) then Some (Err (CallFailed ErrShutdown), free l)
    else if hasLeft (le_m l) then
      Some (waitDelivery (w_events w) (le_receipt l) (w_inCallback w) (w_delivery w), free l)
    else if negb (w_locked w) then Some (Err CallNotLocked, free (Leaver m (le_receipt l)))
    else
      '(r, l) ← LeaveContext cfg (Leaver m (le_receipt l)) receipt now;
      match r with
      | LeaveError e => Some (Err (CallFailed e), free l)
      | LeaveRetry r => Some (waitDelivery (w_events w) r (w_inCallback w) (w_delivery w), free l)
      | LeaveCommitted receipt hasPeers =>
          Some (let! _ := waitForBroadcast hasPeers (w_broadcast w) in waitDelivery (w_events w) (Some receipt) (w_inCallback w) (w_delivery w), free l)
      end.
End Calls.

(** Which results say that the change was made. *)
Definition committed (r : result callError unit) : bool :=
  match r with Err (CallFailed _ | CallMeta _ _ | CallNotLocked) => false | _ => true end.

(** ** Lemmas *)

Section CallLemmas.
Context {G : Type} {RG : Rand G} {RL : RandLaws G} {ML : MathLog} (cfg : Config).
Implicit Types m : Memberlist (G := G).

(** An update of the local node from itself. *)
Lemma update_effect m s meta notify receipt now :
  state_ok cfg m -> room 1 m -> m_shutdown m = false -> m_leave m = false -> members m !! c_Name cfg = Some s ->
  0 <= st_Incarnation s <= m_incarnation m -> m_incarnation m < MaxUint32 ->
  let a := MkAlive (m_incarnation m + 1) (c_Name cfg) (n_Addr (st_Node s)) (n_Port (st_Node s)) meta (BuildVsnArray cfg) in
  exists m', UpdateNodeContext cfg m meta notify receipt now = Some (Ok (anyAliveLocked cfg m'), m') /\ state_ok cfg m' /\
    members m' = <[c_Name cfg := aliveUpdate s a now]> (members m) /\ queued m' (c_Name cfg) aliveMsg (MAlive a) (Some notify).
Proof.
  intros Hok Hr Hd Hl Hs Hi Hmax a. unfold UpdateNodeContext, hasShutdown, hasLeft. rewrite Hd, Hl.
  assert (Hat : exists l, nodeAt m (c_Name cfg) = Some l /\ stateAt m l = s).
  { rewrite members_lookup in Hs. destruct (nodeAt m (c_Name cfg)) as [l|]; [|done]. exists l. by injection Hs. }
  destruct Hat as (l & -> & Est). rewrite Est. cbn [nextIncarnation].
  replace (u32 (m_incarnation m + 1)) with (m_incarnation m + 1) by (symmetry; apply u32_small; unfold MaxUint32 in *; lia).
  set (m0 := set_incarnation m _). fold a. pose proof (set_incarnation_ok cfg m (m_incarnation m + 1) Hok) as Hok0. fold m0 in Hok0.
  assert (Hs0 : members m0 !! Alive_Node a = Some s) by exact Hs.
  destruct (aliveNodeLocked_outcome cfg m0 a (Some notify) true (Some receipt) now Hok0 Hr) as (m' & -> & Ho). cbn [mbind option_bind].
  exists m'. split; [done|]. split; [by eapply alive_outcome_ok|].
  assert (Hacc : aliveAcceptable cfg m0 a true = true) by (unfold aliveAcceptable, hasLeft; cbn; rewrite Hl; by destruct (c_Alive cfg)).
  assert (Ht0 : aliveTarget cfg (members m0 !! Alive_Node a) a now = Some (s, false)).
  { rewrite Hs0. unfold aliveTarget, sameAddress. cbn. by rewrite IPEqual_refl, Z.eqb_refl. }
  destruct Ho as [Ha|Ha Ht|s1 Ha Ht Hs1 Hc|s1 u l1 m1 Ha Ht Hta Hnews|s1 u l1 m1 Ha Ht Hta Hnews Hb Hloc Hsame
    |s1 u l1 m1 m2 Ha Ht Hta Hnews Hb Hloc Hsame Href|s1 u l1 m1 m2 Ha Ht Hta Hnews Hb Hbr]; try congruence; assert (s1 = s) as -> by congruence.
  - exfalso. unfold isNews in Hnews. cbn in Hnews. rewrite String.eqb_refl in Hnews. destruct (Z.leb_spec (st_Incarnation s) (m_incarnation m + 1)); [done|lia].
  - split; [|destruct Hbr as (q & f & gg & -> & _ & _ & Hq); unfold queued in *; rewrite aliveEvent_queue; exact Hq].
    apply broadcasts_frame in Hbr as (E1 & _). rewrite members_aliveEvent. destruct (aliveUpdate_fields s a now) as (Hun & _).
    rewrite (members_put m1 _ (Alive_Node a));
      [|apply Hta|done|exact (ta_at _ _ _ _ _ _ Hta)|by rewrite Hun; apply (ta_name _ _ _ _ _ _ Hta)].
    by rewrite (ta_members _ _ _ _ _ _ Hta), insert_insert_eq.
Qed.

Lemma waits_committed hasPeers w q r inCallback w' : committed (let! _ := waitForBroadcast hasPeers w in waitDelivery q r inCallback w') = true.
Proof. unfold waitForBroadcast, waitDelivery. destruct hasPeers, w, (waitEventReceipt q r inCallback w'); done. Qed.
End CallLemmas.

(** ** Properties *)


#[local] Existing Instance tagging.

(** Node [a] of the example history, with the default configuration: a call
    that gives up after its commit. *)
Definition exampleUpdate : waits := Waits true WokenByContext false WokenByContext newEventQueue.

Lemma exampleState_default : state_ok (stateConfig (DefaultLANConfig "a")) exampleState.
Proof. destruct exampleState_ok as [H1 H2 H3 H4]. by constructor. Qed.

