(* ===== verification/Mock.v ===== *)
(** The in-memory transport for tests, [src/mock_transport.go]: a network hands
    out transports with addresses of their own that write to each other
    directly. Transports are shared objects: the network keeps pointers, which
    are numbers here, and a channel is what was sent on it, oldest first. *)

From S2P Require Import Prelude Msgpack Wire Treap Timing Queue NetAddr Nodes Events Packet State Lifecycle Membership Protocol Merge Security HostPort Acks Net Streams Ingest Exchange NetTransport Join.

(** ** State *)

Record MockAddress := MkMockAddress { ma_addr : bytes; ma_name : string }.

Record MockTransport := MkMockTransport {
  mt_addr : MockAddress;
  mt_packetCh : list (bytes * bytes);  (* with the address of the sender *)
  mt_streamCh : list Z;                (* connections, by number *)
}.

Record MockNetwork := MkMockNetwork {
  mn_transportsByAddr : gmap bytes Z;
  mn_transportsByName : gmap string Z;
  mn_port : Z;
  mn_heap : gmap Z MockTransport;
  mn_next : Z;
}.

Definition newMockNetwork : MockNetwork := MkMockNetwork ∅ ∅ 0 ∅ 0.

(** ** Operations *)

Definition mockHost : bytes := str2b "127.0.0.1".

Definition NewTransport (n : MockNetwork) (name : string) : Z * MockNetwork :=
  let port := mn_port n + 1 in
  let addr := mockHost ++ colon :: itoa port in
  let t := mn_next n in
  (t, MkMockNetwork (<[addr := t]> (mn_transportsByAddr n)) (<[name := t]> (mn_transportsByName n)) port
        (<[t := MkMockTransport (MkMockAddress addr name) [] []]> (mn_heap n)) (t + 1)).

(** [strconv.ParseInt(s, 10, 16)] *)
Definition ParseInt16 (s : bytes) : option Z :=
  match s with
  | [] => None
  | c :: rest =>
      let neg := Byte.eqb c (ch "-") in
      un ← ParseUint16 (if neg || Byte.eqb c (ch "+") then rest else s);
      if negb neg && (un >=? 32768) then None
      else if neg && (un >? 32768) then None
      else Some (if neg then - un else un)
  end.

(** [FinalAdvertiseAddr]; it does not look at its arguments. *)
Definition mockAdvertiseAddr (t : MockTransport) : option (bytes * Z) :=
  '(host, portStr) ← SplitHostPort (ma_addr (mt_addr t));
  ip ← ParseIP host;
  port ← ParseInt16 portStr;
  Some (ip, port).

Definition getPeer (n : MockNetwork) (a : PeerAddress) : option Z :=
  let '(addr, name) := a in
  if negb (String.eqb name "") then mn_transportsByName n !! name else mn_transportsByAddr n !! addr.

Definition sendTo (n : MockNetwork) (dest : Z) (f : MockTransport -> MockTransport) : MockNetwork :=
  MkMockNetwork (mn_transportsByAddr n) (mn_transportsByName n) (mn_port n) (alter f dest (mn_heap n)) (mn_next n).

(** [WriteToAddress] of the transport [t]; [None] is an error. *)
Definition mockWriteToAddress (n : MockNetwork) (t : Z) (b : bytes) (a : PeerAddress) : option MockNetwork :=
  dest ← getPeer n a;
  self ← mn_heap n !! t;
  Some (sendTo n dest (fun d => MkMockTransport (mt_addr d) (mt_packetCh d ++ [(b, ma_addr (mt_addr self))]) (mt_streamCh d))).
Definition mockWriteTo (n : MockNetwork) (t : Z) (b : bytes) (addr : bytes) : option MockNetwork := mockWriteToAddress n t b (addr, "").

(** [DialAddressTimeout]: one end of the pipe [conn] goes to the peer. *)
Definition mockDialAddress (n : MockNetwork) (a : PeerAddress) (conn : Z) : option MockNetwork :=
  dest ← getPeer n a;
  Some (sendTo n dest (fun d => MkMockTransport (mt_addr d) (mt_packetCh d) (mt_streamCh d ++ [conn]))).
Definition mockDial (n : MockNetwork) (addr : bytes) (conn : Z) : option MockNetwork := mockDialAddress n (addr, "") conn.

Definition mockIngestStream (n : MockNetwork) (t : Z) (conn : Z) : MockNetwork :=
  sendTo n t (fun d => MkMockTransport (mt_addr d) (mt_packetCh d) (mt_streamCh d ++ [conn])).

(** [IngestPacket], with what the connection gave until it ended, if it did
    without an error. *)
Definition mockIngestPacket (n : MockNetwork) (t : Z) (data : option bytes) (addr : bytes) : result unit MockNetwork :=
  match IngestPacket data with
  | Err e => Err e
  | Ok b => Ok (sendTo n t (fun d => MkMockTransport (mt_addr d) (mt_packetCh d ++ [(b, addr)]) (mt_streamCh d)))
  end.

(** The transports made for a list of names. *)
Definition mockNetwork (names : list string) : MockNetwork := fold_left (fun n name => (NewTransport n name).2) names newMockNetwork.

Definition mockAddr (i : nat) : bytes := mockHost ++ colon :: itoa (Z.of_nat i + 1).

(** ** Lemmas *)

Lemma mockHost_ip4 : mockHost = ip4String (map z2b [127; 0; 0; 1]).
Proof. reflexivity. Qed.

Lemma mockAddr_join i : mockAddr i = joinHostPort (ip4String (map z2b [127; 0; 0; 1])) (Z.of_nat i + 1).
Proof.
  unfold mockAddr, joinHostPort, JoinHostPort. rewrite mockHost_ip4. by rewrite bool_decide_false by (apply ip4String_plain; auto).
Qed.

Lemma mockAddr_inj i j : Z.of_nat i < MaxUint16 -> Z.of_nat j < MaxUint16 -> mockAddr i = mockAddr j -> i = j.
Proof.
  intros Hi Hj E. apply app_inv_head in E. injection E as E. apply (f_equal ParseUint16) in E.
  rewrite !ParseUint16_itoa in E by (unfold u16_ok; lia). injection E. lia.
Qed.

Lemma ParseInt16_itoa n : u16_ok n -> ParseInt16 (itoa n) = if n <=? 32767 then Some n else None.
Proof.
  intros Hn. pose proof (ParseUint16_itoa n Hn) as E. unfold ParseInt16. destruct (itoa n) as [|c rest]; [done|].
  assert (Hc : isDigit c = true) by (cbn in E; by destruct (isDigit c)).
  assert (Byte.eqb c (ch "-") = false /\ Byte.eqb c (ch "+") = false) as [-> ->] by (by destruct c).
  cbn [orb]. rewrite E. cbn [mbind option_bind negb andb]. destruct (Z.geb_spec n 32768), (Z.leb_spec n 32767); done || lia.
Qed.

(** What the network holds after some transports were made. *)
Record wired (names : list string) (n : MockNetwork) : Prop := {
  wi_port : mn_port n = len names;
  wi_next : mn_next n = len names;
  wi_heap : forall i name, names !! i = Some name -> mn_heap n !! Z.of_nat i = Some (MkMockTransport (MkMockAddress (mockAddr i) name) [] []);
  wi_addr : forall i, (i < length names)%nat -> mn_transportsByAddr n !! mockAddr i = Some (Z.of_nat i);
  wi_name : forall i name, names !! i = Some name -> (forall j, (i < j)%nat -> names !! j <> Some name) ->
    mn_transportsByName n !! name = Some (Z.of_nat i);
}.

Lemma mockNetwork_wired names : len names <= MaxUint16 -> wired names (mockNetwork names).
Proof.
  apply (rev_ind (fun names => len names <= MaxUint16 -> wired names (mockNetwork names))).
  { intros _. constructor; try done. intros i. cbn. lia. }
  intros name l IH Hl. rewrite len_app in Hl. change (len [name]) with 1 in Hl. pose proof (len_nonneg l). destruct IH as [W1 W2 W3 W4 W5]; [lia|].
  unfold mockNetwork in *. rewrite fold_left_app. cbn [fold_left NewTransport snd]. set (n := fold_left _ _ _) in *.
  assert (Ea : mockHost ++ colon :: itoa (mn_port n + 1) = mockAddr (length l)) by (unfold mockAddr; by rewrite W1). rewrite Ea.
  constructor; cbn [mn_port mn_next mn_heap mn_transportsByAddr mn_transportsByName]; rewrite ?len_app, ?W1, ?W2; try done.
  - intros i nm Hi. apply lookup_app_Some in Hi as [Hi|[Hge Hi]].
    + rewrite lookup_insert_ne; [by apply W3|]. apply lookup_lt_Some in Hi. unfold len. lia.
    + apply list_lookup_singleton_Some in Hi as [Hz <-]. assert (i = length l) as -> by lia. by rewrite lookup_insert_eq.
  - intros i Hi. rewrite length_app in Hi. cbn in Hi. destruct (decide (i = length l)) as [-> |Hne]; [by rewrite lookup_insert_eq|].
    rewrite lookup_insert_ne; [apply W4; lia|]. intros E%mockAddr_inj; unfold len in *; lia.
  - intros i nm Hi Hlast. apply lookup_app_Some in Hi as [Hi|[Hge Hi]].
    + rewrite lookup_insert_ne.
      * apply W5; [done|]. intros j Hj E. apply (Hlast j Hj). by apply lookup_app_l_Some.
      * intros <-. apply lookup_lt_Some in Hi. apply (Hlast (length l)); [done|]. by rewrite list_lookup_middle.
    + apply list_lookup_singleton_Some in Hi as [Hz <-]. assert (i = length l) as -> by lia. by rewrite lookup_insert_eq.
Qed.

(** ** Properties *)

(** A network of up to 65535 transports is wired: every transport is reached
    under its own address, and under its name if no later one has it; a packet
    written to it is received by it, with the sender's address, and by nobody
    else. A transport advertises the address it is reached under, but for the
    numbers above 32767, which it reads as signed and refuses. *)
Theorem mock_network_wired names i name :
  len names <= MaxUint16 -> names !! i = Some name ->
  let n := mockNetwork names in
  getPeer n (mockAddr i, "") = Some (Z.of_nat i) /\
  (name <> "" -> (forall j, (i < j)%nat -> names !! j <> Some name) -> forall addr, getPeer n (addr, name) = Some (Z.of_nat i)) /\
  (forall j b, (j < length names)%nat -> exists n', mockWriteTo n (Z.of_nat j) b (mockAddr i) = Some n' /\ forall k t, mn_heap n !! k = Some t ->
    mn_heap n' !! k = Some (if k =? Z.of_nat i then MkMockTransport (mt_addr t) [(b, mockAddr j)] [] else t)) /\
  exists t, mn_heap n !! Z.of_nat i = Some t /\
    mockAdvertiseAddr t = if Z.of_nat i + 1 <=? 32767 then Some (v4InV6Prefix ++ map z2b [127; 0; 0; 1], Z.of_nat i + 1) else None.
Proof.
  intros Hl Hi n. destruct (mockNetwork_wired names Hl) as [_ _ W3 W4 W5]. fold n in W3, W4, W5. pose proof (lookup_lt_Some _ _ _ Hi) as Hlt.
  assert (Hp : getPeer n (mockAddr i, "") = Some (Z.of_nat i)) by (cbn; by apply W4). split_and!; [done|..].
  - intros Hne Hlast addr. cbn. rewrite (proj2 (String.eqb_neq _ _) Hne). by apply W5.
  - intros j b [nm Hj]%lookup_lt_is_Some. unfold mockWriteTo, mockWriteToAddress. rewrite Hp. cbn [mbind option_bind]. rewrite (W3 j nm Hj).
    cbn [mbind option_bind]. eexists. split; [done|]. intros k t Hk. cbn. destruct (Z.eqb_spec k (Z.of_nat i)) as [-> |Hne].
    + rewrite lookup_alter_eq, Hk. rewrite (W3 i name Hi) in Hk. by injection Hk as <-.
    + by rewrite lookup_alter_ne.
  - eexists. split; [by apply W3|]. unfold mockAdvertiseAddr. cbn [mt_addr ma_addr]. rewrite mockAddr_join, SplitHostPort_ip4 by lia. cbn [mbind option_bind].
    rewrite ParseIP_ip4String by done. cbn [mbind option_bind]. rewrite ParseInt16_itoa by (unfold u16_ok, len in *; lia). by destruct (_ <=? 32767).
Qed.
