(* ===== verification/Retry.v ===== *)
(** The retry helper of the tests, [src/internal/retry/retry.go]: an operation
    is repeated until it succeeds or the retryer gives up.

    An attempt is what the operation calls on its [R], in order; [FailNow] ends
    the goroutine of the attempt, so that what follows does not run. What the
    i-th attempt does and the time of the i-th call of [NextOr] are arguments. *)

From S2P Require Import Prelude NetAddr.

(** ** The context of an attempt *)

Record R := MkR { r_fail : bool; r_output : list bytes }.

(** The caller's file and line, if the runtime knows them. *)
Definition caller : Type := option (bytes * Z).

Inductive rcall :=
| RFailNow
| RFatal (at_ : caller) (msg : bytes)
| RError (at_ : caller) (msg : bytes)
| RCheck (at_ : caller) (err : option bytes).

(** What follows the last slash of a path. *)
Fixpoint baseName (file : bytes) : bytes :=
  match file with
  | [] => []
  | c :: rest => if bool_decide (ch "/" ∈ rest) then baseName rest else if Byte.eqb c (ch "/") then rest else file
  end.

Definition decorate (at_ : caller) (s : bytes) : bytes :=
  let '(file, line) := match at_ with Some (file, line) => (baseName file, line) | None => (str2b "???", 1) end in
  file ++ ch ":" :: itoa line ++ ch ":" :: ch " " :: s.

Definition log (r : R) (at_ : caller) (s : bytes) : R := MkR (r_fail r) (r_output r ++ [decorate at_ s]).
Definition setFail (r : R) : R := MkR true (r_output r).

Fixpoint attempt (r : R) (calls : list rcall) : R :=
  match calls with
  | [] => r
  | RFailNow :: _ => setFail r
  | RFatal at_ s :: _ => setFail (log r at_ s)
  | RError at_ s :: calls => attempt (setFail (log r at_ s)) calls
  | RCheck at_ (Some err) :: _ => setFail (log r at_ err)
  | RCheck _ None :: calls => attempt r calls
  end.

(** ** The report *)

Fixpoint dedupLoop (m : gmap bytes Z) (a : list bytes) : bytes :=
  match a with
  | [] => []
  | s :: a => if bool_decide (is_Some (m !! s)) then s ++ z2b 10 :: dedupLoop (delete s m) a else dedupLoop m a
  end.
Definition dedup (a : list bytes) : bytes :=
  match a with
  | [] => []
  | _ => dedupLoop (fold_left (fun m s => <[s := default 0 (m !! s) + 1]> m) a ∅) a
  end.

(** ** Retryers *)

(** [NextOr] at a time: whether to go on; if not, it has called [fail]. *)
Class Retryer (S : Type) := NextOr : S -> Z -> bool * S.

Record Counter := MkCounter { cn_Count : Z; cn_Wait : Z; cn_count : Z }.
#[global] Instance Counter_NextOr : Retryer Counter := fun r _ =>
  if cn_count r =? cn_Count r then (false, r) else (true, MkCounter (cn_Count r) (cn_Wait r) (cn_count r + 1)).

(** The zero time is [None]. *)
Record Timer := MkTimer { tm_Timeout : Z; tm_Wait : Z; tm_stop : option Z }.
#[global] Instance Timer_NextOr : Retryer Timer := fun r now =>
  match tm_stop r with
  | None => (true, MkTimer (tm_Timeout r) (tm_Wait r) (Some (now + tm_Timeout r)))
  | Some stop => (negb (now >? stop), r)
  end.

Definition DefaultFailer : Timer := MkTimer 7000000000 25000000 None.
Definition TwoSeconds : Timer := MkTimer 2000000000 25000000 None.
Definition ThreeTimes : Counter := MkCounter 3 25000000 0.

(** ** [run] *)

(** Success after some attempts, or [FailNow] with what was logged first. *)
Inductive outcome := Passed (attempts : nat) | FailedWith (out : option bytes).

Section Run.
Context {S : Type} {RT : Retryer S} (f : nat -> list rcall) (clock : nat -> Z).

(** [i] counts the calls of [NextOr]. *)
Fixpoint runFrom (fuel : nat) (r : S) (i : nat) (rr : R) : option outcome :=
  match fuel with
  | O => None
  | Datatypes.S fuel =>
      let '(next, r) := NextOr r (clock i) in
      if next then
        let rr := attempt rr (f i) in
        if r_fail rr then runFrom fuel r (i + 1) (MkR false (r_output rr)) else Some (Passed (i + 1))
      else
        let out := dedup (r_output rr) in
        Some (FailedWith (match out with [] => None | _ => Some out end))
  end.
Definition run (fuel : nat) (r : S) : option outcome := runFrom fuel r 0 (MkR false []).
End Run.

(** ** Lemmas *)

(** Whether an attempt fails and what it logs, whatever was before it. *)
Fixpoint fails (calls : list rcall) : bool :=
  match calls with
  | [] => false
  | RCheck _ None :: calls => fails calls
  | _ => true
  end.
Fixpoint messages (calls : list rcall) : list bytes :=
  match calls with
  | [] | RFailNow :: _ => []
  | RFatal at_ s :: _ | RCheck at_ (Some s) :: _ => [decorate at_ s]
  | RError at_ s :: calls => decorate at_ s :: messages calls
  | RCheck _ None :: calls => messages calls
  end.

Lemma attempt_spec calls r : attempt r calls = MkR (r_fail r || fails calls) (r_output r ++ messages calls).
Proof.
  revert r. induction calls as [|[|at_ s|at_ s|at_ [s|]] calls IH]; intros [b out]; cbn; rewrite ?orb_true_r, ?orb_false_r, ?app_nil_r; try done; rewrite IH; cbn; by rewrite <- ?app_assoc.
Qed.

(** The first occurrences of a list. *)
Fixpoint firsts (seen a : list bytes) : list bytes :=
  match a with
  | [] => []
  | s :: a => if bool_decide (s ∈ seen) then firsts seen a else s :: firsts (s :: seen) a
  end.

Lemma counted_spec (a : list bytes) (m : gmap bytes Z) (s : bytes) : is_Some (fold_left (fun m s => <[s := default 0 (m !! s) + 1]> m) a m !! s) <-> s ∈ a \/ is_Some (m !! s).
Proof.
  revert m. induction a as [|x a IH]; intros m; cbn; [set_solver|]. rewrite IH, lookup_insert_is_Some', elem_of_cons. naive_solver.
Qed.

Lemma dedupLoop_spec a m seen :
  (forall s, s ∈ a -> is_Some (m !! s) <-> s ∉ seen) -> dedupLoop m a = concat (map (fun s => s ++ [z2b 10]) (firsts seen a)).
Proof.
  revert m seen. induction a as [|x a IH]; intros m seen Hm; [done|]. cbn. pose proof (Hm x (list_elem_of_here _ _)) as Hx.
  destruct (bool_decide_reflect (x ∈ seen)) as [Hin|Hin].
  - rewrite bool_decide_false by tauto. apply IH. intros s Hs. apply Hm. by right.
  - rewrite bool_decide_true by tauto. cbn. rewrite <- app_assoc. cbn. do 2 f_equal. apply IH. intros s Hs.
    rewrite elem_of_cons. destruct (decide (s = x)) as [-> |Hne]; [rewrite lookup_delete_eq|rewrite lookup_delete_ne by done; rewrite Hm by (by right)].
    + split; [by intros [? ?]|]. tauto.
    + tauto.
Qed.

Lemma dedup_spec a : dedup a = concat (map (fun s => s ++ [z2b 10]) (firsts [] a)).
Proof.
  unfold dedup. destruct a as [|x a]; [done|]. apply dedupLoop_spec. intros s Hs. rewrite counted_spec. split; [by intros _ ?%not_elem_of_nil|by left].
Qed.

Definition report (out : list bytes) : option bytes := match dedup out with [] => None | o => Some o end.

Section RunLemmas.
Context {S : Type} {RT : Retryer S} (f : nat -> list rcall) (clock : nat -> Z).

(** One turn of the loop. *)
Lemma runFrom_step fuel r i out :
  runFrom f clock (Datatypes.S fuel) r i (MkR false out) =
    if (NextOr r (clock i)).1 then
      if fails (f i) then runFrom f clock fuel (NextOr r (clock i)).2 (i + 1) (MkR false (out ++ messages (f i))) else Some (Passed (i + 1))
    else Some (FailedWith (report out)).
Proof.
  cbn [runFrom]. destruct (NextOr r (clock i)) as [[] r']; cbn [fst snd]; [|unfold report; cbn; by destruct (dedup out)]. rewrite attempt_spec. cbn. by destruct (fails (f i)).
Qed.
End RunLemmas.

Lemma run_counter_from f clock w n i out :
  forall k, runFrom f clock (Datatypes.S n) (MkCounter (k + Z.of_nat n) w k) i (MkR false out) =
    match list_find (fun j => fails (f j) = false) (seq i n) with
    | Some (_, j) => Some (Passed (j + 1))
    | None => Some (FailedWith (report (out ++ concat (map (fun j => messages (f j)) (seq i n)))))
    end.
Proof.
  revert i out. induction n as [|n IH]; intros i out k; rewrite runFrom_step; unfold NextOr, Counter_NextOr; cbn [cn_count cn_Count cn_Wait].
  - rewrite Z.add_0_r, Z.eqb_refl. cbn. by rewrite app_nil_r.
  - rewrite (proj2 (Z.eqb_neq _ _)) by lia. cbn [fst snd seq list_find]. destruct (fails (f i)) eqn:E.
    + rewrite decide_False by done. replace (k + Z.of_nat (Datatypes.S n)) with (k + 1 + Z.of_nat n) by lia. rewrite IH.
      replace (i + 1)%nat with (Datatypes.S i) by lia. destruct (list_find _ (seq (Datatypes.S i) n)) as [[j0 j]|]; [done|]. cbn. by rewrite app_assoc.
    + by rewrite decide_True.
Qed.

(** ** Properties *)

(** Retrying a number of times ends, with success at the first attempt that
    does not fail, after the attempts before it, and otherwise with a failure
    that reports each message of all the attempts once, in order. Retrying for
    a time ends with the first call of [NextOr] after the deadline, at the
    latest, and fails only after it. *)
Theorem retry_ends f clock :
  (forall n w, run f clock (Datatypes.S n) (MkCounter (Z.of_nat n) w 0) =
    Some (match list_find (fun j => fails (f j) = false) (seq 0 n) with
          | Some (_, j) => Passed (j + 1)
          | None => FailedWith (report (concat (map (fun j => messages (f j)) (seq 0 n))))
          end)) /\
  (forall out, report out = match firsts [] out with [] => None | l => Some (concat (map (fun s => s ++ [z2b 10]) l)) end) /\
  (forall n w timeout, clock (Datatypes.S n) > clock 0%nat + timeout -> is_Some (run f clock (n + 2) (MkTimer timeout w None))).
Proof.
  split_and!.
  - intros n w. unfold run. pose proof (run_counter_from f clock w n 0 [] 0) as H. rewrite Z.add_0_l in H. cbn [app] in H. rewrite H. by destruct (list_find _ _) as [[? ?]|].
  - intros out. unfold report. rewrite dedup_spec. destruct (firsts [] out) as [|x l]; [done|]. cbn. by destruct x.
  - intros n w timeout Hc. unfold run. replace (n + 2)%nat with (Datatypes.S (Datatypes.S n)) by lia. rewrite runFrom_step. unfold NextOr, Timer_NextOr at 1 2. cbn [tm_stop fst snd tm_Timeout tm_Wait].
    destruct (fails (f 0%nat)); [|done]. generalize ([] ++ messages (f 0%nat)). 
    assert (H : forall k i out, (i + k = Datatypes.S n)%nat -> is_Some (runFrom f clock (Datatypes.S k) (MkTimer timeout w (Some (clock 0%nat + timeout))) i (MkR false out))).
    { induction k as [|k IH]; intros i out Hk; rewrite runFrom_step; unfold NextOr, Timer_NextOr; cbn [tm_stop fst snd].
      - rewrite Nat.add_0_r in Hk. subst i. rewrite (proj2 (Z.gtb_lt _ _)) by lia. done.
      - destruct (negb _); [|done]. destruct (fails (f i)); [|done]. apply IH. lia. }
    intros out. apply H. lia.
Qed.
