(* ===== verification/CheckDeps.v ===== *)
(** The dependency check, [src/tools/checkdeps/main.go]: what the root module,
    its packages, the tool modules and the source files may hold.

    What the go command prints, what its JSON decodes to and what the Go parser
    makes of a file are arguments. A directory is given as the tree that
    [filepath.WalkDir] walks, entries in its order. *)

From S2P Require Import Prelude Msgpack Wire Treap Timing Queue NetAddr Nodes Events Packet State Lifecycle Membership Protocol Merge Security HostPort Acks Net Streams Ingest Exchange Join.

(** ** Strings *)

Fixpoint HasPrefix (s prefix : bytes) : bool :=
  match prefix, s with
  | [], _ => true
  | p :: prefix, c :: s => Byte.eqb p c && HasPrefix s prefix
  | _ :: _, [] => false
  end.
Definition HasSuffix (s suffix : bytes) : bool := HasPrefix (rev s) (rev suffix).

Fixpoint trimLeftSpace (fuel : nat) (s : bytes) : bytes :=
  match fuel with
  | O => s
  | S fuel => match spaceWidth s with O => s | w => trimLeftSpace fuel (drop w s) end
  end.
(** A space of one, two or three bytes at the end of [s]. *)
Definition lastSpace (s : bytes) : nat :=
  let ends w := (w <=? length s)%nat && (spaceWidth (drop (length s - w) s) =? w)%nat in
  if ends 1%nat then 1 else if ends 2%nat then 2 else if ends 3%nat then 3 else 0.
Fixpoint trimRightSpace (fuel : nat) (s : bytes) : bytes :=
  match fuel with
  | O => s
  | S fuel => match lastSpace s with O => s | w => trimRightSpace fuel (take (length s - w) s) end
  end.
Definition TrimSpace (s : bytes) : bytes := let s := trimLeftSpace (length s) s in trimRightSpace (length s) s.

(** [strings.Cut] at one byte. *)
Fixpoint Cut (s : bytes) (c : byte) : bytes * bytes :=
  match s with
  | [] => ([], [])
  | x :: s => if Byte.eqb x c then ([], s) else let '(a, b) := Cut s c in (x :: a, b)
  end.

(** [filepath.Ext] and [filepath.Dir] of a relative path with a directory. *)
Fixpoint Ext (name : bytes) : bytes :=
  match name with
  | [] => []
  | c :: rest => match Ext rest with [] => if Byte.eqb c dot then name else [] | e => e end
  end.

(** ** Data *)

Record modFile := MkModFile { mf_Path : bytes; mf_Require : list bytes; mf_Replace : list (bytes * bytes) }.
Record module := MkModule { mo_Path : bytes; mo_Main : bool; mo_Replace : option bytes }.

Inductive depError :=
| GoFailed | BadModFile | ReplacedModule (old new : bytes) | RequiredModule (path : bytes)
| ForeignPackage (pkg mod_ : bytes)
| BadGraph | ReplacedTool (path new : bytes) | ForeignTool (path : bytes) | EmptyGraph
| WalkFailed | Assembly (path : bytes) | CgoSource (path : bytes) | BadSource (path : bytes) | BadImport (path : bytes)
| UnsafeImport (path : bytes) | CgoImport (path : bytes) | NestedModule (path : bytes).

Definition approvedForTools (path : bytes) : bool := HasPrefix path (str2b "golang.org/x/") || HasPrefix path (str2b "github.com/0xCarbon/").

(** ** Modules and packages *)

Definition auditRootRequirements (data : option modFile) : result depError bytes :=
  match data with
  | None => Err BadModFile
  | Some mf =>
      match mf_Replace mf, mf_Require mf with
      | (old, new) :: _, _ => Err (ReplacedModule old new)
      | [], path :: _ => Err (RequiredModule path)
      | [], [] => Ok (mf_Path mf)
      end
  end.

Definition ownPackage (modPath line : bytes) : option depError :=
  let '(pkg, mod_) := Cut (TrimSpace line) (ch "|") in
  if bool_decide (pkg = []) || bool_decide (mod_ = modPath) || (bool_decide (mod_ = []) && HasSuffix pkg (str2b ".test")) then None
  else Some (ForeignPackage pkg mod_).

Fixpoint auditLines (modPath : bytes) (lines : list bytes) : result depError unit :=
  match lines with
  | [] => Ok tt
  | line :: lines => match ownPackage modPath line with Some e => Err e | None => auditLines modPath lines end
  end.
Definition auditRootPackages (out : option bytes) (modPath : bytes) : result depError unit :=
  match out with None => Err GoFailed | Some out => auditLines modPath (Lines out) end.

(** The values of the stream until its end; [None] where one does not decode. *)
Fixpoint auditGraph (stream : list (option module)) (count : Z) : result depError Z :=
  match stream with
  | [] => Ok count
  | None :: _ => Err BadGraph
  | Some m :: stream =>
      if mo_Main m then auditGraph stream (count + 1)
      else
        match mo_Replace m with
        | Some new => Err (ReplacedTool (mo_Path m) new)
        | None => if negb (approvedForTools (mo_Path m)) then Err (ForeignTool (mo_Path m)) else auditGraph stream (count + 1)
        end
  end.
Definition auditToolGraph (stream : list (option module)) : result depError unit :=
  let! count := auditGraph stream 0 in if count =? 0 then Err EmptyGraph else Ok tt.

(** ** Files *)

(** A file has its imports if it is Go source that parses, each unquoted if it
    can be; an entry may not be readable, and a directory that cannot be listed
    has such an entry. *)
Inductive tree :=
| TFile (name : bytes) (imports : option (list (option bytes)))
| TDir (name : bytes) (children : list tree)
| TBroken (name : bytes).

Definition under (dir name : bytes) : bytes := match dir with [] => name | _ => dir ++ ch "/" :: name end.

Definition assemblyExts : list bytes := map str2b [".s"; ".S"; ".sx"; ".syso"].
Definition cgoExts : list bytes := map str2b [".c"; ".cc"; ".cpp"; ".cxx"; ".h"; ".hh"; ".hpp"; ".m"; ".f"; ".F"; ".for"; ".f90"].

Fixpoint auditImports (slash_ : bytes) (imports : list (option bytes)) : result depError unit :=
  match imports with
  | [] => Ok tt
  | None :: _ => Err (BadImport slash_)
  | Some name :: imports =>
      if bool_decide (name = str2b "unsafe") then Err (UnsafeImport slash_)
      else if bool_decide (name = str2b "C") then Err (CgoImport slash_)
      else auditImports slash_ imports
  end.

(** A file: nothing, or the tool module it makes its directory. *)
Definition auditFile (dir name : bytes) (imports : option (list (option bytes))) : result depError (list bytes) :=
  let slash_ := under dir name in
  let ext := Ext name in
  let! _ := (if bool_decide (ext ∈ assemblyExts) then Err (Assembly slash_)
             else if bool_decide (ext ∈ cgoExts) then Err (CgoSource slash_)
             else if bool_decide (ext = str2b ".go") then
               match imports with None => Err (BadSource slash_) | Some imports => auditImports slash_ imports end
             else Ok tt) in
  if bool_decide (name = str2b "go.mod") && negb (bool_decide (slash_ = str2b "go.mod")) then
    if negb (HasPrefix slash_ (str2b "tools/")) then Err (NestedModule slash_) else Ok [dir]
  else Ok [].

Definition skipped (dir name : bytes) : bool :=
  bool_decide (under dir name = str2b ".git") || bool_decide (under dir name = str2b "dist") || bool_decide (name = str2b "testdata").

Definition walkList (f : tree -> result depError (list bytes)) : list tree -> result depError (list bytes) :=
  fix go ts := match ts with [] => Ok [] | t :: ts => let! a := f t in let! b := go ts in Ok (a ++ b) end.

Fixpoint walkEntry (dir : bytes) (t : tree) : result depError (list bytes) :=
  match t with
  | TBroken _ => Err WalkFailed
  | TFile name imports => auditFile dir name imports
  | TDir name children => if skipped dir name then Ok [] else walkList (walkEntry (under dir name)) children
  end.

(** The root is skipped only for its name: its path is ["."]. *)
Definition walk (rootName : bytes) (root : list tree) : result depError (list bytes) :=
  if bool_decide (rootName = str2b "testdata") then Ok [] else walkList (walkEntry []) root.

(** ** The audit *)

Fixpoint auditTools (graph : bytes -> option (list (option module))) (dirs : list bytes) : result (bytes * depError) unit :=
  match dirs with
  | [] => Ok tt
  | dir :: dirs =>
      match graph dir with
      | None => Err ([], GoFailed)
      | Some stream => match auditToolGraph stream with Err e => Err (dir, e) | Ok _ => auditTools graph dirs end
      end
  end.

(** The number of tool modules, or the first error with the tool module it is
    reported under. *)
Definition audit (rootName : bytes) (root : list tree) (edit : option (option modFile)) (packages : option bytes) (graph : bytes -> option (list (option module)))
    : result (bytes * depError) Z :=
  let own {A} (r : result depError A) : result (bytes * depError) A := match r with Ok x => Ok x | Err e => Err ([], e) end in
  let! toolModules := own (walk rootName root) in
  let! data := own (match edit with None => Err GoFailed | Some data => Ok data end) in
  let! modPath := own (auditRootRequirements data) in
  let! _ := own (auditRootPackages packages modPath) in
  let! _ := auditTools graph toolModules in
  Ok (len toolModules).

(** ** The policy *)

(** [found dir ts d t]: among the entries [ts] of [dir], through directories that
    are not skipped, the walk meets [t], not a directory, in [d]. *)
Inductive found : bytes -> list tree -> bytes -> tree -> Prop :=
| found_here dir ts t : t ∈ ts -> (forall name children, t <> TDir name children) -> found dir ts dir t
| found_in dir ts name children d t :
    TDir name children ∈ ts -> skipped dir name = false -> found (under dir name) children d t -> found dir ts d t.

Definition pureImports (imports : list (option bytes)) : Prop :=
  Forall (fun i => exists name, i = Some name /\ name <> str2b "unsafe" /\ name <> str2b "C") imports.

Definition allowedFile (dir : bytes) (t : tree) : Prop :=
  match t with
  | TFile name imports =>
      (Ext name ∉ assemblyExts) /\ (Ext name ∉ cgoExts) /\ (Ext name = str2b ".go" -> exists l, imports = Some l /\ pureImports l) /\
      (name = str2b "go.mod" -> dir <> [] -> HasPrefix (under dir name) (str2b "tools/") = true)
  | _ => False
  end.

Definition allowedGraph (stream : list (option module)) : Prop :=
  stream <> [] /\
  Forall (fun e => exists m, e = Some m /\ (mo_Main m = true \/ (mo_Replace m = None /\ approvedForTools (mo_Path m) = true))) stream.

Record policy (root : list tree) (edit : option (option modFile)) (packages : option bytes) (graph : bytes -> option (list (option module)))
    : Prop := {
  policy_files d t : found [] root d t -> allowedFile d t;
  policy_module : exists path out, edit = Some (Some (MkModFile path [] [])) /\ packages = Some out /\
                                   Forall (fun line => ownPackage path line = None) (Lines out);
  policy_tools d imports : found [] root d (TFile (str2b "go.mod") imports) -> d <> [] -> exists stream, graph d = Some stream /\ allowedGraph stream }.

(** ** The walk *)

Lemma auditImports_ok slash_ imports : auditImports slash_ imports = Ok tt <-> pureImports imports.
Proof.
  unfold pureImports. induction imports as [|[name|] imports IH]; cbn [auditImports].
  - split; auto.
  - rewrite Forall_cons. repeat case_bool_decide; subst; [..|rewrite IH]; (split; [try done|intros [(n & [= <-] & ? & ?) ?]; done]).
    intros. split; [|done]. eauto.
  - rewrite Forall_cons. split; [done|]. intros [(n & ? & _) _]; done.
Qed.

Lemma under_top dir name : under dir name = name <-> dir = [].
Proof.
  destruct dir; cbn; [done|]. split; [|done]. intros H%(f_equal length). cbn in H. rewrite length_app in H. cbn in H. lia.
Qed.

Definition nestedModule (dir name : bytes) : bool := bool_decide (name = str2b "go.mod" /\ dir <> []).

Lemma nestedModule_spec dir name :
  bool_decide (name = str2b "go.mod") && negb (bool_decide (under dir name = str2b "go.mod")) = nestedModule dir name.
Proof.
  unfold nestedModule. case_bool_decide as Hn; cbn [andb]; [subst|symmetry; apply bool_decide_eq_false; tauto].
  rewrite <- bool_decide_not. apply bool_decide_ext. rewrite under_top. tauto.
Qed.

Lemma auditFile_ok dir name imports l :
  auditFile dir name imports = Ok l <-> allowedFile dir (TFile name imports) /\ l = (if nestedModule dir name then [dir] else []).
Proof.
  unfold auditFile, allowedFile. cbv zeta. rewrite nestedModule_spec.
  case_bool_decide as Ha; cbn [rbind]; [split; [done|tauto]|]. case_bool_decide as Hc; cbn [rbind]; [split; [done|tauto]|].
  set (src := if bool_decide _ then _ else Ok tt).
  assert (Hr : src = Ok tt <-> (Ext name = str2b ".go" -> exists l, imports = Some l /\ pureImports l)).
  { subst src. case_bool_decide as Hg; [|split; [by intros|done]]. destruct imports as [imports|].
    - rewrite auditImports_ok. split; [eauto|]. intros H. destruct (H Hg) as (? & [= <-] & ?). done.
    - split; [done|]. intros H. destruct (H Hg) as (? & ? & _). done. }
  destruct src as [[]|e]; cbn [rbind]; [|split; [done|]; intros [(_ & _ & H & _) _]; apply Hr in H; done].
  destruct Hr as [Hr _]. specialize (Hr eq_refl). unfold nestedModule. case_bool_decide as Hd.
  - destruct Hd as [Hd1 Hd2]. destruct (HasPrefix _ _) eqn:Hp; cbn [negb]; (split; [intros H|intros [(_ & _ & _ & H) ->]]); simplify_eq; [by split|done..|].
    by specialize (H eq_refl Hd2).
  - split; [intros [= <-]|by intros [_ ->]]. split_and!; tauto.
Qed.

Lemma tree_nested_ind (P : tree -> Prop) :
  (forall name imports, P (TFile name imports)) -> (forall name, P (TBroken name)) ->
  (forall name children, Forall P children -> P (TDir name children)) -> forall t, P t.
Proof.
  intros Hf Hb Hd. fix IH 1. intros [name imports|name children|name]; [done| |done].
  apply Hd. induction children; constructor; auto.
Qed.

Lemma walkList_cons f t ts l :
  walkList f (t :: ts) = Ok l <-> exists a b, f t = Ok a /\ walkList f ts = Ok b /\ l = a ++ b.
Proof.
  cbn [walkList]. destruct (f t) as [a|]; cbn [rbind]; [|split; [done|by intros (? & ? & ? & _)]].
  fold (walkList f ts). destruct (walkList f ts) as [b|]; cbn [rbind]; [|split; [done|by intros (? & ? & _ & ? & _)]].
  split; [intros [= <-]; eauto|intros (? & ? & [= <-] & [= <-] & ->); done].
Qed.

(** What the walk finds in one entry and in a list of them. *)
Lemma found_cons dir t ts d u : found dir (t :: ts) d u <-> found dir [t] d u \/ found dir ts d u.
Proof.
  split.
  - inversion 1 as [? ? ? Hin Hn|? ? ? ? ? ? Hin Hs Hf]; subst; apply elem_of_cons in Hin as [<-|Hin];
      [left; apply found_here; [set_solver|done]|right; by apply found_here
      |left; eapply found_in; [|done|done]; set_solver|right; by eapply found_in].
  - intros [H|H]; inversion H as [? ? ? Hin Hn|? ? ? ? ? ? Hin Hs Hf]; subst;
      ((apply found_here; [set_solver|done]) || (eapply found_in; [|done|done]; set_solver)).
Qed.
Lemma found_nil dir d u : ~ found dir [] d u.
Proof. inversion 1; set_solver. Qed.
Lemma found_dir dir name children d u : found dir [TDir name children] d u <-> skipped dir name = false /\ found (under dir name) children d u.
Proof.
  split.
  - inversion 1 as [? ? ? Hin Hn|? ? ? ? ? ? Hin Hs Hf]; subst; apply list_elem_of_singleton in Hin; [by edestruct Hn|by simplify_eq].
  - intros [Hs Hf]. eapply found_in; [|done|done]; set_solver.
Qed.
Lemma found_leaf dir t d u : (forall name children, t <> TDir name children) -> found dir [t] d u <-> d = dir /\ u = t.
Proof.
  intros Hn. split.
  - inversion 1 as [? ? ? Hin|? ? ? ? ? ? Hin]; subst; apply list_elem_of_singleton in Hin; subst; [done|by edestruct Hn].
  - intros [-> ->]. apply found_here; [set_solver|done].
Qed.

(** What it means for a walk to return the modules [l] of what it finds. *)
Definition walked (dir : bytes) (ts : list tree) (r : result depError (list bytes)) : Prop :=
  ((exists l, r = Ok l) <-> forall d u, found dir ts d u -> allowedFile d u) /\
  forall l, r = Ok l -> forall d, d ∈ l <-> exists imports, found dir ts d (TFile (str2b "go.mod") imports) /\ d <> [].

Lemma walkList_walked dir ts : Forall (fun t => walked dir [t] (walkEntry dir t)) ts -> walked dir ts (walkList (walkEntry dir) ts).
Proof.
  induction 1 as [|t ts [Ht1 Ht2] _ [IH1 IH2]].
  { split; [split; [intros _ d u []%found_nil|by eexists]|]. intros l [= <-] d. split; [set_solver|]. by intros (? & []%found_nil & _). }
  unfold walked. setoid_rewrite found_cons. split.
  - setoid_rewrite walkList_cons. split.
    + intros (l & a & b & Ha & Hb & _) d u [Hf|Hf]; [apply Ht1|apply IH1]; eauto.
    + intros Hall. destruct Ht1 as [_ [a Ha]]; [auto|]. destruct IH1 as [_ [b Hb]]; [auto|]. eauto 6.
  - intros l (a & b & Ha & Hb & ->)%walkList_cons d. rewrite elem_of_app, (Ht2 a Ha d), (IH2 b Hb d). naive_solver.
Qed.

Lemma walkEntry_walked t dir : walked dir [t] (walkEntry dir t).
Proof.
  revert dir. induction t as [name imports|name|name children IH] using tree_nested_ind; intros dir; cbn [walkEntry].
  - assert (Hn : forall n c, TFile name imports <> TDir n c) by done. unfold walked. setoid_rewrite (found_leaf dir _ _ _ Hn). setoid_rewrite auditFile_ok. split.
    + split; [by intros (l & H & _) d u [-> ->]|]. intros H. eexists. split; [by apply H|done].
    + intros l [_ ->] d. unfold nestedModule. case_bool_decide as Hd; [|set_solver].
      rewrite list_elem_of_singleton. destruct Hd as [-> Hd]. naive_solver.
  - assert (Hn : forall n c, TBroken name <> TDir n c) by done. unfold walked. setoid_rewrite (found_leaf dir _ _ _ Hn). split; [|done].
    split; [by intros [l ?]|]. intros H. by destruct (H dir (TBroken name)).
  - unfold walked. setoid_rewrite found_dir. destruct (skipped dir name).
    + split; [split; [intros _ d u [? _]; done|eauto]|]. intros l [= <-] d. split; [set_solver|]. by intros (? & [? _] & _).
    + destruct (walkList_walked (under dir name) children) as [H1 H2].
      { apply (Forall_impl _ _ _ IH). auto. }
      split; [rewrite H1; naive_solver|]. intros l Hl d. rewrite (H2 l Hl d). naive_solver.
Qed.

(** ** The graphs *)

Lemma auditGraph_ok stream count :
  (exists n, auditGraph stream count = Ok n)
  <-> Forall (fun e => exists m, e = Some m /\ (mo_Main m = true \/ (mo_Replace m = None /\ approvedForTools (mo_Path m) = true))) stream.
Proof.
  revert count. induction stream as [|[m|] stream IH]; intros count; cbn [auditGraph].
  - split; eauto.
  - rewrite Forall_cons. destruct (mo_Main m) eqn:Hm; [rewrite IH; split; [eauto 6|tauto]|].
    destruct (mo_Replace m) eqn:Hr; [split; [by intros [? ?]|intros [(? & [= <-] & [?|[? _]]) _]; congruence]|].
    destruct (approvedForTools (mo_Path m)) eqn:Ha; cbn [negb]; [rewrite IH; split; [eauto 7|tauto]|].
    split; [by intros [? ?]|intros [(? & [= <-] & [?|[_ ?]]) _]; congruence].
  - rewrite Forall_cons. split; [by intros [? ?]|by intros [(? & ? & _) _]].
Qed.

Lemma auditGraph_count stream count n : auditGraph stream count = Ok n -> n = count + len stream.
Proof.
  revert count. induction stream as [|[m|] stream IH]; intros count; cbn [auditGraph]; [intros [= <-]; unfold len; cbn; lia| |done].
  rewrite len_cons. repeat case_match; try done; intros ->%IH; lia.
Qed.

Lemma auditToolGraph_ok stream : auditToolGraph stream = Ok tt <-> allowedGraph stream.
Proof.
  unfold auditToolGraph, allowedGraph. rewrite <- (auditGraph_ok stream 0).
  destruct (auditGraph stream 0) as [n|] eqn:Hn; cbn [rbind]; [|split; [done|by intros [_ [? ?]]]].
  apply auditGraph_count in Hn. destruct (Z.eqb_spec n 0) as [H0|H0].
  - split; [done|]. intros [Hs _]. destruct stream; [done|]. rewrite len_cons in Hn. unfold len in Hn. lia.
  - split; [|done]. intros _. split; [|eauto]. intros ->. unfold len in Hn. cbn in Hn. lia.
Qed.

Lemma auditTools_ok graph dirs : auditTools graph dirs = Ok tt <-> Forall (fun d => exists stream, graph d = Some stream /\ allowedGraph stream) dirs.
Proof.
  induction dirs as [|d dirs IH]; cbn [auditTools]; [split; auto|]. rewrite Forall_cons.
  destruct (graph d) as [stream|]; [|split; [done|naive_solver]].
  destruct (auditToolGraph stream) as [[]|] eqn:Ht.
  - apply auditToolGraph_ok in Ht. rewrite IH. naive_solver.
  - split; [done|]. intros [(? & [= <-] & Hg%auditToolGraph_ok) _]. congruence.
Qed.

Lemma auditLines_ok modPath lines : auditLines modPath lines = Ok tt <-> Forall (fun line => ownPackage modPath line = None) lines.
Proof.
  induction lines as [|line lines IH]; cbn [auditLines]; [split; auto|]. rewrite Forall_cons.
  destruct (ownPackage modPath line); [split; [done|by intros [? _]]|]. rewrite IH. tauto.
Qed.

(** The audit of a root that is not itself skipped passes exactly when the
    policy holds. *)
Theorem audit_exact rootName root edit packages graph :
  rootName <> str2b "testdata" -> ((exists n, audit rootName root edit packages graph = Ok n) <-> policy root edit packages graph).
Proof.
  intros Hroot. destruct (walkList_walked [] root) as [W1 W2].
  { apply Forall_forall. intros t _. apply walkEntry_walked. }
  unfold audit, walk. rewrite bool_decide_eq_false_2 by done. split.
  - intros [n H]. destruct (walkList (walkEntry []) root) as [mods|]; [|done]. cbn [rbind] in H.
    destruct edit as [[[path req rep]|]|]; try done. cbn [rbind auditRootRequirements mf_Replace mf_Require] in H.
    destruct rep as [|[]]; [|done]. destruct req; [|done]. cbn [rbind mf_Path] in H.
    destruct packages as [out|]; [|done]. cbn [auditRootPackages] in H.
    destruct (auditLines path (Lines out)) as [[]|] eqn:Hl; [|done]. cbn [rbind] in H.
    destruct (auditTools graph mods) as [[]|] eqn:Ht; [|done]. apply auditLines_ok in Hl. apply auditTools_ok in Ht.
    split; [apply W1; eauto|eauto|]. intros d imports Hf Hd. rewrite Forall_forall in Ht. apply Ht, (W2 mods eq_refl). eauto.
  - intros [Hf (path & out & -> & -> & Hl) Ht]. apply W1 in Hf as [mods Hm]. rewrite Hm. cbn [rbind auditRootRequirements mf_Replace mf_Require mf_Path].
    cbn [auditRootPackages]. apply auditLines_ok in Hl. rewrite Hl. cbn [rbind].
    assert (Hg : auditTools graph mods = Ok tt).
    { apply auditTools_ok, Forall_forall. intros d (imports & Hd & Hne)%(W2 mods Hm). eauto. }
    rewrite Hg. cbn [rbind]. eauto.
Qed.

(** A repository with a tool module that needs golang.org/x/tools. *)
Example audit_example :
  let go imports := Some (map (fun i => Some (str2b i)) imports) in
  let root := [TDir (str2b ".git") [TFile (str2b "x.c") None]; TFile (str2b "go.mod") None; TFile (str2b "net.go") (go ["bytes"; "net"]);
               TDir (str2b "tools") [TDir (str2b "lint") [TFile (str2b "go.mod") None; TFile (str2b "main.go") (go ["os"])]]] in
  let graph (_ : bytes) := Some [Some (MkModule (str2b "lint") true None); Some (MkModule (str2b "golang.org/x/tools") false None)] in
  let out := str2b "mori|mori" ++ [newline] ++ str2b "mori.test|" ++ [newline] in
  audit (str2b "mori") root (Some (Some (MkModFile (str2b "mori") [] []))) (Some out) graph = Ok 1 /\
  audit (str2b "mori") (TDir (str2b "a") [TFile (str2b "b.go") (go ["unsafe"])] :: root) (Some (Some (MkModFile (str2b "mori") [] []))) (Some out) graph
  = Err ([], UnsafeImport (str2b "a/b.go")).
Proof. by vm_compute. Qed.
