(* ===== verification/BenchCmp.v ===== *)
(** The benchmark comparison, [src/tools/benchcmp/main.go]: samples from the
    lines of a benchmark run, the median, the Mann-Whitney U test with its exact
    distribution, and the rows of a comparison.

    An observation is a finite float64, which is a whole number of the smallest
    one, and is that number; NaN and infinities are not modelled. Medians, ranks
    and U are kept doubled, which makes them whole. Counts of arrangements are
    below 2^53 where the exact test is used, so that float64 adds them without
    rounding. The p-value of the normal approximation is not computed: its
    arguments are the result. *)

From S2P Require Import Prelude Msgpack Wire Treap Timing Queue NetAddr Nodes Events Packet State Lifecycle Membership Protocol Merge Security HostPort Acks Net Streams Ingest Exchange Join CheckDeps.

(** ** Reading results *)

Record samples := Samples { sm_order : list bytes; sm_units : gmap bytes (gmap bytes (list Z)) }.

(** [strconv.ParseUint] in base 10 with 64 bits: whether it succeeds. *)
Definition isUint64 (s : bytes) : bool :=
  negb (len s =? 0) && forallb isDigit s && (fold_left (fun n c => 10 * n + (b2z c - 48)) s 0 <=? MaxUint64).

(** [-\d+$] removed, read from the end: digits, then a dash. *)
Fixpoint cutProcs (rest : bytes) (seen : bool) : option bytes :=
  match rest with
  | [] => None
  | c :: rest => if isDigit c then cutProcs rest true else if seen && Byte.eqb c (ch "-") then Some rest else None
  end.
Definition procSuffix (name : bytes) : bytes := match cutProcs (rev name) false with Some s => rev s | None => name end.

Section Parse.
(** [strconv.ParseFloat] with 64 bits. *)
Variable ParseFloat : bytes -> option Z.

Fixpoint addValues (byUnit : gmap bytes (list Z)) (fields : list bytes) : result bytes (gmap bytes (list Z)) :=
  match fields with
  | value :: unit :: fields =>
      match ParseFloat value with
      | None => Err value
      | Some v => addValues (<[unit := default [] (byUnit !! unit) ++ [v]]> byUnit) fields
      end
  | _ => Ok byUnit
  end.

Definition parseLine (s : samples) (line : bytes) : result (bytes * bytes) samples :=
  match Fields line with
  | bench :: count :: ((_ :: _ :: _) as values) =>
      if negb (HasPrefix bench (str2b "Benchmark")) then Ok s
      else if negb (isUint64 count) then Ok s
      else
        let name := procSuffix bench in
        let '(byUnit, order) := match sm_units s !! name with Some u => (u, sm_order s) | None => (∅, sm_order s ++ [name]) end in
        match addValues byUnit values with
        | Err value => Err (name, value)
        | Ok byUnit => Ok (Samples order (<[name := byUnit]> (sm_units s)))
        end
  | _ => Ok s
  end.

(** The lines the scanner yields. *)
Fixpoint parseFrom (s : samples) (lines : list bytes) : result (bytes * bytes) samples :=
  match lines with
  | [] => Ok s
  | line :: lines => let! s := parseLine s line in parseFrom s lines
  end.
Definition parse (lines : list bytes) : result (bytes * bytes) samples := parseFrom (Samples [] ∅) lines.
End Parse.

(** ** The median *)

Fixpoint insertSorted {A} (le : A -> A -> bool) (x : A) (l : list A) : list A :=
  match l with [] => [x] | y :: l => if le x y then x :: y :: l else y :: insertSorted le x l end.
Definition sortBy {A} (le : A -> A -> bool) (l : list A) : list A := foldr (insertSorted le) [] l.

(** Twice the median; [None] is the index out of range of an empty sample. *)
Definition median (xs : list Z) : option Z :=
  let sorted := sortBy Z.leb xs in
  let n := length sorted in
  if Nat.odd n then m ← sorted !! (n / 2)%nat; Some (2 * m)
  else if (n =? 0)%nat then None
  else a ← sorted !! (n / 2 - 1)%nat; b ← sorted !! (n / 2)%nat; Some (a + b).

(** ** The exact distribution of U *)

Section Exact.
Variable maxU : nat.

(** [cur[j]] from [prev[j]] and [cur[j-1]]. *)
Definition nextRow (prev : list Z) (before : option (list Z)) (j : nat) : list Z :=
  map (fun k => (if (j <=? k)%nat then nth (k - j) prev 0 else 0) + match before with Some b => nth k b 0 | None => 0 end) (seq 0 (S maxU)).
Fixpoint nextRows (prev : list (list Z)) (before : option (list Z)) (j : nat) : list (list Z) :=
  match prev with
  | [] => []
  | p :: prev => let r := nextRow p before j in r :: nextRows prev (Some r) (S j)
  end.
Definition firstRows (n2 : nat) : list (list Z) := repeat (1 :: repeat 0 maxU) (S n2).
End Exact.

Definition distribution (n1 n2 : nat) : list Z :=
  let maxU := (n1 * n2)%nat in
  nth n2 (Nat.iter n1 (fun prev => nextRows maxU prev None 0) (firstRows maxU n2)) [].

(** Whether U is as far from its mean as the one observed, all doubled. The
    tolerance of the code is below the half that separates two of them. *)
Definition extreme (maxU u2 : Z) (k : Z) : bool := Z.abs (u2 - maxU) <=? Z.abs (2 * k - maxU).

Fixpoint tailTotal (maxU u2 : Z) (k : Z) (dist : list Z) (tail total : Z) : Z * Z :=
  match dist with
  | [] => (tail, total)
  | ways :: dist => tailTotal maxU u2 (k + 1) dist (if extreme maxU u2 k then tail + ways else tail) (total + ways)
  end.
Definition exactU (u2 : Z) (n1 n2 : nat) : Z * Z := tailTotal (Z.of_nat (n1 * n2)) u2 0 (distribution n1 n2) 0 0.

(** ** The test *)

Record obs := Obs { ob_v : Z; ob_fromX : bool }.

(** What the loop over groups of equal observations has gathered. *)
Record ranks := Ranks { rk_rankX2 : Z; rk_tieTerm : Z; rk_ties : bool }.

Fixpoint equalTo (v : Z) (l : list obs) : list obs := match l with o :: l' => if ob_v o =? v then o :: equalTo v l' else [] | [] => [] end.
Definition fromX (l : list obs) : Z := len (List.filter ob_fromX l).

Fixpoint rankLoop (fuel : nat) (i : Z) (l : list obs) (r : ranks) : ranks :=
  match fuel, l with
  | S fuel, o :: _ =>
      let g := equalTo (ob_v o) l in
      let t := len g in
      let j := i + t in
      rankLoop fuel j (drop (length g) l)
        (Ranks (rk_rankX2 r + (i + j + 1) * fromX g) (if t >? 1 then rk_tieTerm r + (t * t * t - t) else rk_tieTerm r) (rk_ties r || (t >? 1)))
  | _, _ => r
  end.

(** A p-value: 1, a fraction, or the normal approximation of a doubled
    deviation from the mean under a tie term. *)
Inductive pvalue := POne | PExact (tail total : Z) | PNormal (deviation2 : Z) (n1 n2 tieTerm : Z).

(** Whether the variance is positive: 12 (n - 1) n over n1 n2 times it. *)
Definition varianceSign (n tieTerm : Z) : bool := (n + 1) * (n * (n - 1)) - tieTerm >? 0.

Definition mannWhitney (x y : list Z) : pvalue :=
  let n1 := len x in
  let n2 := len y in
  if (n1 =? 0) || (n2 =? 0) then POne
  else
    let all := sortBy (fun a b => ob_v a <=? ob_v b) (map (fun v => Obs v true) x ++ map (fun v => Obs v false) y) in
    let r := rankLoop (length all) 0 all (Ranks 0 0 false) in
    let u2 := rk_rankX2 r - n1 * (n1 + 1) in
    if negb (rk_ties r) && (n1 * n2 <=? 400) then let '(tail, total) := exactU u2 (length x) (length y) in PExact tail total
    else if negb (varianceSign (n1 + n2) (rk_tieTerm r)) then POne
    else PNormal (Z.abs (u2 - n1 * n2)) n1 n2 (rk_tieTerm r).

(** ** The comparison *)

(** [None] is the index out of range for an empty [x]. *)
Definition constant (x y : list Z) : option bool :=
  match x with
  | [] => match y with [] => Some true | _ => None end
  | x0 :: _ => Some (forallb (Z.eqb x0) (x ++ y))
  end.

Fixpoint bytesLe (a b : bytes) : bool :=
  match a, b with
  | [], _ => true
  | _, [] => false
  | x :: a, y :: b => if b2z x =? b2z y then bytesLe a b else b2z x <? b2z y
  end.

Inductive delta := NoDifference | PlusInf | Relative (diff2 old2 : Z).
Record row := Row { rw_name : bytes; rw_unit : bytes; rw_old2 : Z; rw_new2 : Z; rw_delta : delta; rw_p : pvalue; rw_n1 : Z; rw_n2 : Z }.

Section Compare.
(** Whether a p-value is at most alpha. *)
Variable significant : pvalue -> bool.

Definition compareUnit (name unit : bytes) (x y : list Z) : option (list row) :=
  c ← constant x y;
  if (c : bool) then Some []
  else
    mo ← median x;
    mn ← median y;
    let p := mannWhitney x y in
    let d := if significant p && negb (mo =? mn) then (if mo =? 0 then PlusInf else Relative (mn - mo) mo) else NoDifference in
    Some [Row name unit mo mn d p (len x) (len y)].

Fixpoint compareUnits (name : bytes) (old new : gmap bytes (list Z)) (units : list bytes) : option (list row) :=
  match units with
  | [] => Some []
  | unit :: units =>
      a ← compareUnit name unit (default [] (old !! unit)) (default [] (new !! unit));
      b ← compareUnits name old new units;
      Some (a ++ b)
  end.

Fixpoint compareNames (old cur : samples) (names : list bytes) : option (list row) :=
  match names with
  | [] => Some []
  | name :: names =>
      match sm_units cur !! name with
      | None => compareNames old cur names
      | Some newUnits =>
          let oldUnits := default ∅ (sm_units old !! name) in
          let units := sortBy bytesLe (List.filter (fun u => bool_decide (is_Some (newUnits !! u))) (map fst (map_to_list oldUnits))) in
          a ← compareUnits name oldUnits newUnits units;
          b ← compareNames old cur names;
          Some (a ++ b)
      end
  end.
Definition compare (old cur : samples) : option (list row) := compareNames old cur (sm_order old).
End Compare.

(** ** Specification *)

(** The orders of [n1] observations of x and [n2] of y, largest first. *)
Fixpoint arrangements (n1 : nat) : nat -> list (list bool) :=
  fix go n2 :=
    match n1, n2 with
    | O, _ => [repeat false n2]
    | S i, O => map (cons true) (arrangements i O)
    | S i, S j => map (cons true) (arrangements i (S j)) ++ map (cons false) (go j)
    end.

Definition ys (l : list bool) : Z := len (List.filter negb l).

(** U of an order: the pairs in which the one of x is the larger. *)
Fixpoint orderU (l : list bool) : Z :=
  match l with [] => 0 | b :: l => (if b then ys l else 0) + orderU l end.

Definition sumZ {A} (f : A -> Z) (l : list A) : Z := foldr (fun a s => f a + s) 0 l.

(** How many satisfy [f]. *)
Definition countZ {A} (f : A -> bool) (l : list A) : Z := sumZ (fun a => if f a then 1 else 0) l.

(** Twice U as it is defined: 2 for a pair in which x is larger, 1 for a tie. *)
Definition score (a b : Z) : Z := if b <? a then 2 else if b =? a then 1 else 0.
Definition scores (xs ys : list Z) : Z := sumZ (fun a => sumZ (score a) ys) xs.

(** ** Sums *)

Lemma sumZ_app {A} (f : A -> Z) l1 l2 : sumZ f (l1 ++ l2) = sumZ f l1 + sumZ f l2.
Proof. induction l1 as [|a l1 IH]; cbn; [done|]. unfold sumZ in *. lia. Qed.
Lemma sumZ_map {A B} (f : B -> Z) (g : A -> B) l : sumZ f (map g l) = sumZ (fun a => f (g a)) l.
Proof. induction l as [|a l IH]; cbn; [done|]. unfold sumZ in *. lia. Qed.
Lemma sumZ_ext {A} (f g : A -> Z) l : (forall a, a ∈ l -> f a = g a) -> sumZ f l = sumZ g l.
Proof.
  induction l as [|a l IH]; cbn; [done|]. intros H. rewrite (H a) by set_solver. f_equal. apply IH. set_solver.
Qed.
Lemma sumZ_plus {A} (f g : A -> Z) l : sumZ (fun a => f a + g a) l = sumZ f l + sumZ g l.
Proof. induction l as [|a l IH]; cbn; [done|]. unfold sumZ in *. lia. Qed.
Lemma sumZ_const {A} (c : Z) (l : list A) : sumZ (fun _ => c) l = c * len l.
Proof. induction l as [|a l IH]; [cbn; unfold len; cbn; lia|]. rewrite len_cons. cbn. unfold sumZ in *. lia. Qed.
Lemma sumZ_perm {A} (f : A -> Z) l1 l2 : l1 ≡ₚ l2 -> sumZ f l1 = sumZ f l2.
Proof. induction 1; cbn; unfold sumZ in *; lia. Qed.

(** Every observation against its own sample. *)
Lemma scores_self l : scores l l = len l * len l.
Proof.
  unfold scores. induction l as [|a l IH]; [done|]. cbn [sumZ foldr]. fold (sumZ (score a) l).
  assert (E : sumZ (fun b => sumZ (score b) (a :: l)) l = sumZ (fun b => score b a) l + sumZ (fun b => sumZ (score b) l) l).
  { rewrite <- sumZ_plus. by apply sumZ_ext. }
  change (foldr _ 0 l) with (sumZ (fun b => sumZ (score b) (a :: l)) l). rewrite E, IH, len_cons.
  assert (E2 : sumZ (score a) l + sumZ (fun b => score b a) l = 2 * len l).
  { rewrite <- sumZ_plus, <- sumZ_const. apply sumZ_ext. intros b _. unfold score. repeat case_match; lia. }
  assert (score a a = 1) by (unfold score; repeat case_match; lia). lia.
Qed.

(** ** Ranks *)

Lemma insertSorted_perm {A} (le : A -> A -> bool) x l : insertSorted le x l ≡ₚ x :: l.
Proof. induction l as [|y l IH]; cbn; [done|]. destruct (le x y); [done|]. rewrite IH. constructor. Qed.
Lemma sortBy_perm {A} (le : A -> A -> bool) l : sortBy le l ≡ₚ l.
Proof. induction l as [|x l IH]; cbn; [done|]. by rewrite insertSorted_perm, IH. Qed.

Definition obsLe (a b : obs) : bool := ob_v a <=? ob_v b.
Lemma insertSorted_sorted x l :
  StronglySorted (fun a b => ob_v a <= ob_v b) l -> StronglySorted (fun a b => ob_v a <= ob_v b) (insertSorted obsLe x l).
Proof.
  induction 1 as [|y l Hs IH Hy]; cbn [insertSorted]; [constructor; constructor|].
  unfold obsLe at 1. destruct (Z.leb_spec (ob_v x) (ob_v y)).
  - constructor; [by constructor|]. constructor; [done|]. eapply Forall_impl; [exact Hy|]. cbn. lia.
  - constructor; [done|]. rewrite insertSorted_perm. constructor; [lia|done].
Qed.
Lemma sortBy_sorted l : StronglySorted (fun a b => ob_v a <= ob_v b) (sortBy obsLe l).
Proof. induction l as [|x l IH]; [constructor|]. by apply insertSorted_sorted. Qed.

Lemma equalTo_split v l : exists rest, l = equalTo v l ++ rest /\ Forall (fun o => ob_v o = v) (equalTo v l) /\ match rest with o :: _ => ob_v o <> v | [] => True end.
Proof.
  induction l as [|o l (rest & E & Hf & Hr)]; cbn [equalTo]; [by exists []|].
  destruct (Z.eqb_spec (ob_v o) v); [|by exists (o :: l)]. exists rest. split; [cbn; by f_equal|]. split; [by constructor|done].
Qed.

(** The doubled rank of an observation among all, less one. *)
Definition rankAmong (all : list obs) (o : obs) : Z := sumZ (fun p => score (ob_v o) (ob_v p)) all.

Lemma sumZ_filter {A} (f : A -> bool) (g : A -> Z) l : sumZ (fun a => if f a then g a else 0) l = sumZ g (List.filter f l).
Proof. induction l as [|a l IH]; cbn; [done|]. destruct (f a); cbn; unfold sumZ in *; lia. Qed.

Lemma rankAmong_group pre g rest v o :
  Forall (fun p => ob_v p < v) pre -> Forall (fun p => ob_v p = v) g -> Forall (fun p => v < ob_v p) rest -> ob_v o = v ->
  rankAmong (pre ++ g ++ rest) o = 2 * len pre + len g.
Proof.
  intros Hp Hg Hr Ho. unfold rankAmong. rewrite !sumZ_app. rewrite Forall_forall in Hp, Hg, Hr.
  rewrite (sumZ_ext _ (fun _ => 2) pre), (sumZ_ext _ (fun _ => 1) g), (sumZ_ext _ (fun _ => 0) rest), !sumZ_const; [lia|..];
    intros p Hin; [specialize (Hr p Hin)|specialize (Hg p Hin)|specialize (Hp p Hin)]; cbn in *; unfold score; repeat case_match; lia.
Qed.

(** The group of the first observation of a sorted list, and what follows. *)
Lemma group_split o l :
  StronglySorted (fun a b => ob_v a <= ob_v b) (o :: l) ->
  exists g rest, equalTo (ob_v o) (o :: l) = o :: g /\ o :: l = (o :: g) ++ rest /\ Forall (fun p => ob_v p = ob_v o) (o :: g) /\
    Forall (fun p => ob_v o < ob_v p) rest /\ StronglySorted (fun a b => ob_v a <= ob_v b) rest.
Proof.
  intros Hs. destruct (equalTo_split (ob_v o) (o :: l)) as (rest & E & Hf & Hr).
  exists (equalTo (ob_v o) l), rest. cbn [equalTo] in *. rewrite Z.eqb_refl in *. split; [done|]. split; [exact E|]. split; [done|].
  rewrite E in Hs. cbn [app] in Hs. inversion Hs as [|? ? Hs1 Hs2]; subst. apply Forall_app in Hs2 as [_ Hle].
  assert (Hsr : StronglySorted (fun a b => ob_v a <= ob_v b) rest).
  { clear -Hs1. induction (equalTo (ob_v o) l); [done|]. inversion Hs1; auto. }
  split; [|done]. destruct rest as [|q rest]; [done|]. inversion Hsr as [|? ? _ Hq]; subst. apply Forall_cons in Hle as [Hle _].
  constructor; [lia|]. eapply Forall_impl; [exact Hq|]. cbn. lia.
Qed.

Lemma fromX_sum (c : Z) l : sumZ (fun o => if ob_fromX o then c else 0) l = c * fromX l.
Proof. rewrite sumZ_filter. apply sumZ_const. Qed.

Lemma rankLoop_rank fuel pre l r :
  (length l <= fuel)%nat -> StronglySorted (fun a b => ob_v a <= ob_v b) l -> (forall p o, p ∈ pre -> o ∈ l -> ob_v p < ob_v o) ->
  rk_rankX2 (rankLoop fuel (len pre) l r) = rk_rankX2 r + sumZ (fun o => if ob_fromX o then rankAmong (pre ++ l) o + 1 else 0) l.
Proof.
  revert pre l r. induction fuel as [|fuel IH]; intros pre l r Hf Hs Hlt; (destruct l as [|o l]; [cbn; lia|cbn in Hf; try lia]).
  destruct (group_split o l Hs) as (g & rest & Eg & El & Hg & Hr & Hsr). cbn [rankLoop]. rewrite Eg.
  assert (Hd : drop (length (o :: g)) (o :: l) = rest) by (rewrite El; apply drop_app_length).
  rewrite Hd. rewrite <- len_app. rewrite IH; [|apply (f_equal length) in El; rewrite length_app in El; cbn in El; lia|done|].
  - cbn [rk_rankX2]. rewrite El, sumZ_app, <- app_assoc.
    rewrite (sumZ_ext _ (fun p => if ob_fromX p then len pre + len (pre ++ o :: g) + 1 else 0) (o :: g)).
    { rewrite fromX_sum. lia. }
    intros p Hp. rewrite Forall_forall in Hg. rewrite (rankAmong_group pre (o :: g) rest (ob_v o));
      [rewrite len_app; destruct (ob_fromX p); lia| |by apply Forall_forall|done|by apply Hg].
    apply Forall_forall. intros q Hq. apply Hlt; set_solver.
  - intros p q Hp Hq. rewrite Forall_forall in Hg, Hr. apply elem_of_app in Hp as [Hp|Hp].
    + apply Hlt; [done|]. rewrite El. set_solver.
    + rewrite (Hg p Hp). by apply Hr.
Qed.

Lemma rankLoop_ties fuel i l r :
  (length l <= fuel)%nat -> StronglySorted (fun a b => ob_v a <= ob_v b) l ->
  rk_ties (rankLoop fuel i l r) = false <-> rk_ties r = false /\ NoDup (map ob_v l).
Proof.
  revert i l r. induction fuel as [|fuel IH]; intros i l r Hf Hs; (destruct l as [|o l]; [cbn; split; [split; [done|constructor]|tauto]|cbn in Hf; try lia]).
  destruct (group_split o l Hs) as (g & rest & Eg & El & Hg & Hr & Hsr). cbn [rankLoop]. rewrite Eg.
  assert (Hd : drop (length (o :: g)) (o :: l) = rest) by (rewrite El; apply drop_app_length).
  rewrite Hd, IH; [|apply (f_equal length) in El; rewrite length_app in El; cbn in El; lia|done]. cbn [rk_ties]. rewrite El, orb_false_iff, len_cons.
  rewrite Forall_forall in Hr. destruct g as [|o2 g].
  - change (len []) with 0. cbn [app map]. rewrite NoDup_cons. split; [|tauto]. intros [[? _] ?]. split_and!; [done| |done].
    intros (q & Eq & Hq)%list_elem_of_fmap. specialize (Hr q Hq). cbn in Hr. lia.
  - rewrite len_cons. pose proof (len_nonneg g). split; [intros [[_ H0] _]; destruct (Z.gtb_spec (1 + (1 + len g)) 1); [done|lia]|].
    intros [_ Hn]. exfalso. cbn [app map] in Hn. apply NoDup_cons in Hn as [Hn _]. apply Hn. apply Forall_cons in Hg as [_ [-> _]%Forall_cons]. set_solver.
Qed.

(** *** Rank sums are pair counts *)

Lemma rankX_scores x y (all := map (fun v => Obs v true) x ++ map (fun v => Obs v false) y) :
  sumZ (fun o => if ob_fromX o then rankAmong all o + 1 else 0) all = scores x y + len x * (len x + 1).
Proof.
  subst all. rewrite sumZ_app, !sumZ_map. cbn [ob_fromX]. rewrite (sumZ_const 0 y).
  rewrite (sumZ_ext _ (fun a => sumZ (score a) x + (sumZ (score a) y + 1)) x).
  { rewrite !sumZ_plus, sumZ_const. fold (scores x x). rewrite scores_self. unfold scores. lia. }
  intros a _. unfold rankAmong. rewrite sumZ_app, !sumZ_map. cbn [ob_v].
  rewrite (sumZ_ext (fun b => score a b) (score a) x), (sumZ_ext (fun b => score a b) (score a) y); done || lia.
Qed.

(** ** The exact distribution *)

(** The orders of [i] and [j] observations that reach [k]. *)
Definition reach (i j k : nat) : Z := countZ (fun l => orderU l =? Z.of_nat k) (arrangements i j).

Lemma arrangements_0 j : arrangements 0 j = [repeat false j].
Proof. by destruct j. Qed.
Lemma arrangements_S0 i : arrangements (S i) 0 = map (cons true) (arrangements i 0).
Proof. done. Qed.
Lemma arrangements_SS i j : arrangements (S i) (S j) = map (cons true) (arrangements i (S j)) ++ map (cons false) (arrangements (S i) j).
Proof. done. Qed.

Lemma arrangements_ys i j l : l ∈ arrangements i j -> ys l = Z.of_nat j.
Proof.
  revert j l. induction i as [|i IH]; intros j; [|induction j as [|j IHj]]; intros l; cbn [arrangements].
  - destruct j; intros ->%list_elem_of_singleton; [done|]. unfold ys. rewrite filter_all by (apply Forall_forall; intros b Hb%list_elem_of_In%repeat_spec; by subst).
    unfold len. by rewrite repeat_length.
  - intros (l' & -> & H)%list_elem_of_fmap. by apply IH in H.
  - intros [(l' & -> & H)%list_elem_of_fmap|(l' & -> & H)%list_elem_of_fmap]%elem_of_app; [by apply IH in H|].
    apply IHj in H. unfold ys in *. cbn [List.filter negb]. rewrite len_cons. lia.
Qed.

Lemma countZ_map {A B} (f : B -> bool) (g : A -> B) l : countZ f (map g l) = countZ (fun a => f (g a)) l.
Proof. apply sumZ_map. Qed.
Lemma countZ_app {A} (f : A -> bool) l1 l2 : countZ f (l1 ++ l2) = countZ f l1 + countZ f l2.
Proof. apply sumZ_app. Qed.
Lemma countZ_ext {A} (f g : A -> bool) l : (forall a, a ∈ l -> f a = g a) -> countZ f l = countZ g l.
Proof. intros H. apply sumZ_ext. intros a Ha. by rewrite H. Qed.

(** The largest of an order is of x. *)
Lemma reach_true i j k :
  countZ (fun l => orderU l =? Z.of_nat k) (map (cons true) (arrangements i j)) = if (j <=? k)%nat then reach i j (k - j) else 0.
Proof.
  rewrite countZ_map. destruct (Nat.leb_spec j k) as [Hk|Hk].
  - apply countZ_ext. intros l Hl%arrangements_ys. cbn [orderU]. rewrite Hl.
    destruct (Z.eqb_spec (Z.of_nat j + orderU l) (Z.of_nat k)), (Z.eqb_spec (orderU l) (Z.of_nat (k - j))); done || lia.
  - rewrite <- (sumZ_const 0 (arrangements i j)) at 1. apply sumZ_ext. intros l Hl%arrangements_ys. cbn [orderU]. rewrite Hl.
    assert (0 <= orderU l) by (clear; induction l as [|[] l IH]; cbn; [lia|pose proof (len_nonneg (List.filter negb l)); unfold ys; lia|lia]).
    destruct (Z.eqb_spec (Z.of_nat j + orderU l) (Z.of_nat k)); lia.
Qed.

Lemma orderU_ys j : orderU (repeat false j) = 0.
Proof. induction j; cbn; lia. Qed.
Lemma reach_first j k : reach 0 j k = if (k =? 0)%nat then 1 else 0.
Proof.
  unfold reach. rewrite arrangements_0.
  unfold countZ. cbn [sumZ foldr]. rewrite orderU_ys. by destruct k.
Qed.
Lemma reach_next i j k : reach (S i) j k = (if (j <=? k)%nat then reach i j (k - j) else 0) + (if (j =? 0)%nat then 0 else reach (S i) (j - 1) k).
Proof.
  unfold reach at 1. destruct j as [|j]; cbn [arrangements].
  - rewrite reach_true. cbn. lia.
  - rewrite countZ_app, reach_true, countZ_map. f_equal. cbn [Nat.eqb Nat.sub]. by rewrite Nat.sub_0_r.
Qed.

Definition reachRow (maxU i j : nat) : list Z := map (reach i j) (seq 0 (S maxU)).

Lemma nth_reachRow maxU i j k : (k <= maxU)%nat -> nth k (reachRow maxU i j) 0 = reach i j k.
Proof.
  intros Hk. unfold reachRow. rewrite (nth_indep _ 0 (reach i j 0)) by (rewrite length_map, length_seq; lia).
  by rewrite map_nth, seq_nth by lia.
Qed.

Lemma nextRow_reach maxU i j :
  nextRow maxU (reachRow maxU i j) (if (j =? 0)%nat then None else Some (reachRow maxU (S i) (j - 1))) j = reachRow maxU (S i) j.
Proof.
  unfold nextRow. apply map_ext_in. intros k Hk%in_seq. rewrite reach_next. f_equal.
  - destruct (Nat.leb_spec j k); [|done]. apply nth_reachRow. lia.
  - destruct (j =? 0)%nat; [done|]. apply nth_reachRow. lia.
Qed.

Lemma nextRows_reach maxU i j n :
  nextRows maxU (map (reachRow maxU i) (seq j n)) (if (j =? 0)%nat then None else Some (reachRow maxU (S i) (j - 1))) j
  = map (reachRow maxU (S i)) (seq j n).
Proof.
  revert j. induction n as [|n IH]; intros j; cbn [seq map nextRows]; [done|]. rewrite nextRow_reach. f_equal.
  rewrite <- (IH (S j)). cbn [Nat.eqb Nat.sub]. by rewrite Nat.sub_0_r.
Qed.

Lemma reach_zeros j m k : (0 < k)%nat -> map (reach 0 j) (seq k m) = repeat 0 m.
Proof.
  revert k. induction m as [|m IH]; intros k Hk; cbn [repeat seq map]; [done|]. rewrite reach_first. destruct k; [lia|]. f_equal. apply IH. lia.
Qed.
Lemma firstRows_reach maxU n2 : firstRows maxU n2 = map (reachRow maxU 0) (seq 0 (S n2)).
Proof.
  unfold firstRows. generalize (S n2) as n. intros n. generalize 0%nat at 2 as j. induction n as [|n IH]; intros j; cbn [repeat seq map]; [done|].
  f_equal; [|apply IH]. unfold reachRow. cbn [seq map]. rewrite reach_first, reach_zeros by lia. done.
Qed.

Lemma distribution_reach n1 n2 : distribution n1 n2 = reachRow (n1 * n2) n1 n2.
Proof.
  unfold distribution. generalize (n1 * n2)%nat as maxU. intros maxU.
  assert (E : Nat.iter n1 (fun prev => nextRows maxU prev None 0) (firstRows maxU n2) = map (reachRow maxU n1) (seq 0 (S n2))).
  { induction n1 as [|i IH]; [apply firstRows_reach|]. cbn [Nat.iter]. change (nextRows maxU (Nat.iter i (fun prev => nextRows maxU prev None 0) (firstRows maxU n2)) None 0 = map (reachRow maxU (S i)) (seq 0 (S n2))).
    rewrite IH. apply (nextRows_reach maxU i 0). }
  rewrite E. rewrite (nth_indep _ [] (reachRow maxU n1 0)) by (rewrite length_map, length_seq; lia). by rewrite map_nth, seq_nth by lia.
Qed.

(** U of an order is between 0 and the number of pairs. *)
Lemma orderU_range i j l : l ∈ arrangements i j -> 0 <= orderU l <= Z.of_nat (i * j).
Proof.
  revert j l. induction i as [|i IH]; intros j; [|induction j as [|j IHj]]; intros l Hin.
  - rewrite arrangements_0 in Hin. apply list_elem_of_singleton in Hin as ->. rewrite orderU_ys. lia.
  - cbn [arrangements] in Hin. apply list_elem_of_fmap in Hin as (l' & -> & H). pose proof (arrangements_ys _ _ _ H). apply IH in H. cbn [orderU]. lia.
  - cbn [arrangements] in Hin. apply elem_of_app in Hin as [(l' & -> & H)%list_elem_of_fmap|(l' & -> & H)%list_elem_of_fmap].
    + pose proof (arrangements_ys _ _ _ H). apply IH in H. cbn [orderU]. lia.
    + apply IHj in H. cbn [orderU]. lia.
Qed.

(** Summing a property of U over the distribution counts the orders. *)
Lemma reach_sum (f : Z -> bool) (ls : list (list bool)) n k0 :
  (forall l, l ∈ ls -> Z.of_nat k0 <= orderU l < Z.of_nat (k0 + n)) ->
  sumZ (fun k => if f (Z.of_nat k) then countZ (fun l => orderU l =? Z.of_nat k) ls else 0) (seq k0 n) = countZ (fun l => f (orderU l)) ls.
Proof.
  intros H. induction ls as [|l ls IH].
  { cbn. rewrite (sumZ_ext _ (fun _ => 0)), sumZ_const; [lia|]. intros k _. by destruct (f _). }
  unfold countZ at 2. cbn [sumZ foldr]. fold (sumZ (fun l => if f (orderU l) then 1 else 0) ls). fold (countZ (fun l => f (orderU l)) ls).
  rewrite <- IH by set_solver. clear IH.
  rewrite (sumZ_ext _ (fun k => (if f (Z.of_nat k) && (orderU l =? Z.of_nat k) then 1 else 0) + (if f (Z.of_nat k) then countZ (fun l => orderU l =? Z.of_nat k) ls else 0))).
  2: { intros k _. unfold countZ at 1. cbn [sumZ foldr]. change (foldr _ 0 ls) with (countZ (fun l => orderU l =? Z.of_nat k) ls). destruct (f _), (_ =? _); cbn; lia. }
  rewrite sumZ_plus. f_equal. specialize (H l ltac:(set_solver)). clear ls. revert k0 H. induction n as [|n IH]; intros k0 H; [lia|].
  cbn [seq sumZ foldr]. fold (sumZ (fun k => if f (Z.of_nat k) && (orderU l =? Z.of_nat k) then 1 else 0) (seq (S k0) n)).
  destruct (Z.eqb_spec (orderU l) (Z.of_nat k0)) as [E|E].
  - rewrite andb_true_r, E, (sumZ_ext _ (fun _ => 0)), sumZ_const; [lia|]. intros k Hk%elem_of_seq.
    destruct (Z.eqb_spec (Z.of_nat k0) (Z.of_nat k)); [lia|]. by rewrite andb_false_r.
  - rewrite andb_false_r, IH by lia. done.
Qed.

Lemma tailTotal_sum maxU u2 (g : nat -> Z) n k0 tail total :
  tailTotal maxU u2 (Z.of_nat k0) (map g (seq k0 n)) tail total
  = (tail + sumZ (fun k => if extreme maxU u2 (Z.of_nat k) then g k else 0) (seq k0 n), total + sumZ g (seq k0 n)).
Proof.
  revert k0 tail total. induction n as [|n IH]; intros k0 tail total; cbn [seq map tailTotal sumZ foldr]; [f_equal; lia|].
  replace (Z.of_nat k0 + 1) with (Z.of_nat (S k0)) by lia. rewrite IH. unfold sumZ. f_equal; [destruct (extreme _ _ _)|]; lia.
Qed.

Lemma exactU_counts u2 n1 n2 :
  exactU u2 n1 n2 = (countZ (fun l => extreme (Z.of_nat (n1 * n2)) u2 (orderU l)) (arrangements n1 n2), len (arrangements n1 n2)).
Proof.
  unfold exactU. rewrite distribution_reach. unfold reachRow. change 0 with (Z.of_nat 0) at 1. rewrite tailTotal_sum.
  assert (Hr : forall l, l ∈ arrangements n1 n2 -> Z.of_nat 0 <= orderU l < Z.of_nat (0 + S (n1 * n2))) by (intros l Hl%orderU_range; lia).
  f_equal.
  - apply (reach_sum (extreme (Z.of_nat (n1 * n2)) u2)), Hr.
  - rewrite Z.add_0_l. etransitivity; [apply (reach_sum (fun _ => true) _ _ _ Hr)|]. unfold countZ. rewrite sumZ_const. lia.
Qed.

(** *** The orders are all of them *)

Lemma arrangements_spec i j l : l ∈ arrangements i j <-> length (List.filter id l) = i /\ length (List.filter negb l) = j.
Proof.
  revert i j. induction l as [|b l IH]; intros i j.
  - destruct i, j; cbn; rewrite ?elem_of_app, ?list_elem_of_fmap; set_solver.
  - destruct i as [|i], j as [|j]; rewrite ?arrangements_SS, ?arrangements_S0, ?arrangements_0, ?elem_of_app, ?list_elem_of_singleton, ?list_elem_of_fmap.
    + destruct b; cbn; (split; [done|lia]).
    + change (repeat false (S j)) with (false :: repeat false j). specialize (IH 0%nat j).
      rewrite arrangements_0, list_elem_of_singleton in IH.
      destruct b; cbn; [split; [done|lia]|]. split; [intros [= ->]; destruct (proj1 IH eq_refl) as [H1 H2]; cbn in *; lia|]. intros [H1 H2]. f_equal. apply IH. lia.
    + split; [intros (l' & [= -> ->] & H%IH); cbn; lia|]. destruct b; cbn; [|lia]. intros [H1 H2]. exists l. split; [done|]. apply IH. lia.
    + split; [intros [(l' & [= -> ->] & H%IH)|(l' & [= -> ->] & H%IH)]; cbn; lia|].
      destruct b; cbn [List.filter id negb length]; intros [H1 H2]; [left|right]; exists l; (split; [done|apply IH; lia]).
Qed.
Lemma arrangements_nodup i j : NoDup (arrangements i j).
Proof.
  revert j. induction i as [|i IH]; intros j; [|induction j as [|j IHj]].
  - rewrite arrangements_0. apply NoDup_singleton.
  - cbn [arrangements]. apply NoDup_fmap_2; [by intros ? ? [= ->]|apply IH].
  - rewrite arrangements_SS. apply NoDup_app. split_and!; [apply NoDup_fmap_2; [by intros ? ? [= ->]|apply IH]| |apply NoDup_fmap_2; [by intros ? ? [= ->]|apply IHj]].
    intros l (l1 & -> & _)%list_elem_of_fmap (l2 & [=] & _)%list_elem_of_fmap.
Qed.

(** ** The test *)

(** The Mann-Whitney test of two samples. Without ties and with at most 400
    pairs the p-value is, of all orders of as many observations, the part
    whose U is at least as far from its mean as that of the samples, which is
    the number of pairs in which x is larger; otherwise the approximation is of
    the same U, a tie counting half. *)
Theorem mannWhitney_correct x y :
  x <> [] -> y <> [] ->
  (NoDup (x ++ y) /\ len x * len y <= 400 ->
   mannWhitney x y = PExact (countZ (fun l => extreme (len x * len y) (scores x y) (orderU l)) (arrangements (length x) (length y)))
                       (len (arrangements (length x) (length y)))) /\
  (~ (NoDup (x ++ y) /\ len x * len y <= 400) ->
   mannWhitney x y = POne \/ exists tieTerm, mannWhitney x y = PNormal (Z.abs (scores x y - len x * len y)) (len x) (len y) tieTerm).
Proof.
  intros Hx Hy. unfold mannWhitney. cbv zeta.
  destruct (Z.eqb_spec (len x) 0) as [E|_]; [by destruct x; [|rewrite len_cons in E; pose proof (len_nonneg x); lia]|].
  destruct (Z.eqb_spec (len y) 0) as [E|_]; [by destruct y; [|rewrite len_cons in E; pose proof (len_nonneg y); lia]|]. cbn [orb].
  set (all0 := map _ x ++ map _ y). set (all := sortBy _ all0). set (r := rankLoop _ _ _ _).
  pose proof (sortBy_perm obsLe all0 : all ≡ₚ all0) as Hp. pose proof (sortBy_sorted all0 : StronglySorted _ all) as Hs.
  assert (Hu : rk_rankX2 r - len x * (len x + 1) = scores x y).
  { subst r. change 0 with (len (A := obs) []) at 1. rewrite (rankLoop_rank _ [] all); [|done|done|set_solver]. cbn [rk_rankX2 app].
    rewrite (sumZ_ext _ (fun o => if ob_fromX o then rankAmong all0 o + 1 else 0)).
    - rewrite (sumZ_perm _ _ _ Hp). subst all0. rewrite rankX_scores. lia.
    - intros o _. unfold rankAmong. by rewrite (sumZ_perm _ _ _ Hp). }
  assert (Ht : rk_ties r = false <-> NoDup (x ++ y)).
  { subst r. rewrite rankLoop_ties by done. cbn [rk_ties]. rewrite Hp. subst all0. rewrite map_app, !map_map. cbn [ob_v]. rewrite !map_id. tauto. }
  rewrite Hu, exactU_counts. replace (Z.of_nat (length x * length y)) with (len x * len y) by (unfold len; lia).
  destruct (Z.leb_spec (len x * len y) 400), (rk_ties r); cbn [negb andb]; split; intros H'; try tauto; try lia;
    try (destruct H' as [H' _]; apply Ht in H'; done);
    try (exfalso; apply H'; split; [by apply Ht|done]);
    (destruct (negb _); [by left|right; by eexists]).
Qed.

(** Six against six, apart but for one pair. *)
Example mannWhitney_example : mannWhitney [1; 2; 3; 4; 5; 8] [7; 9; 10; 11; 12; 13] = PExact 4 924.
Proof. by vm_compute. Qed.

(** ** Counts in float64 *)

(** The number of orders, by rows: running sums of the row before. *)
Fixpoint runningSums (s : Z) (l : list Z) : list Z := match l with [] => [] | a :: l => (s + a) :: runningSums (s + a) l end.

Lemma runningSums_orders i j n :
  runningSums (if (j =? 0)%nat then 0 else len (arrangements (S i) (j - 1))) (map (fun j => len (arrangements i j)) (seq j n))
  = map (fun j => len (arrangements (S i) j)) (seq j n).
Proof.
  revert j. induction n as [|n IH]; intros j; cbn [seq map runningSums]; [done|].
  assert (E : (if (j =? 0)%nat then 0 else len (arrangements (S i) (j - 1))) + len (arrangements i j) = len (arrangements (S i) j)).
  { destruct j as [|j]; [cbn [Nat.eqb]; rewrite arrangements_S0; unfold len; rewrite length_map; lia|].
    cbn [Nat.eqb]. rewrite arrangements_SS, len_app. replace (S j - 1)%nat with j by lia. unfold len. rewrite !length_map. lia. }
  rewrite E. f_equal. rewrite <- (IH (S j)). cbn [Nat.eqb]. by replace (S j - 1)%nat with j by lia.
Qed.

Lemma orders_rows i n : Nat.iter i (runningSums 0) (repeat 1 n) = map (fun j => len (arrangements i j)) (seq 0 n).
Proof.
  induction i as [|i IH].
  - change (repeat 1 n = map (fun j => len (arrangements 0 j)) (seq 0 n)). generalize 0%nat at 2 as j.
    induction n as [|n IH]; intros j; cbn [repeat seq map]; [done|]. rewrite arrangements_0. f_equal. apply IH.
  - change (Nat.iter (S i) (runningSums 0) (repeat 1 n)) with (runningSums 0 (Nat.iter i (runningSums 0) (repeat 1 n))). rewrite IH. apply (runningSums_orders i 0).
Qed.

Lemma rows_below : forallb (fun i => forallb (fun c => c <? 2 ^ 53) (Nat.iter i (runningSums 0) (repeat 1 (S (400 / i))))) (seq 1 400) = true.
Proof. by vm_compute. Qed.

(** Wherever the exact test is used the total, and so every count that adds up
    to it, is a whole number that float64 holds. *)
Theorem exact_counts_fit n1 n2 : (0 < n1)%nat -> (0 < n2)%nat -> (n1 * n2 <= 400)%nat -> (exactU 0 n1 n2).2 < 2 ^ 53.
Proof.
  intros H1 H2 Hle. rewrite exactU_counts. cbn [snd]. pose proof rows_below as H. rewrite forallb_forall in H.
  assert (Hn : (n1 <= 400)%nat) by (clear H; destruct n2; nia).
  assert (Hin : In n1 (seq 1 400)) by (apply in_seq; clear H; lia). specialize (H n1 Hin). clear Hin. rewrite forallb_forall in H. apply Z.ltb_lt, H. clear H.
  rewrite orders_rows. apply in_map_iff. exists n2. split; [done|]. apply in_seq.
  assert (n2 <= 400 / n1)%nat by (apply Nat.div_le_lower_bound; lia). lia.
Qed.
