(* ===== verification/Schema.v ===== *)
(** The protocol messages by their fields: each has its keys in the order they
    are encoded, their types and which of them are left out when empty. The
    laws tie the fields of a message to its encoder and its field switch of
    [src/internal/wire/wire.go]. *)

From S2P Require Import Prelude Msgpack Wire.

(** ** Fields *)

Inductive ftype := FU32 | FU16 | FU8 | FInt | FBool | FStr | FBytes | FBuf.
#[global] Instance ftype_eq_dec : EqDecision ftype.
Proof. solve_decision. Defined.

Inductive fval := VNum (v : Z) | VBool (v : bool) | VStr (v : string) | VBytes (v : slice).

Definition numOf (a : fval) : Z := match a with VNum v => v | _ => 0 end.
Definition boolOf (a : fval) : bool := match a with VBool v => v | _ => false end.
Definition strOf (a : fval) : string := match a with VStr v => v | _ => "" end.
Definition bytesOf (a : fval) : slice := match a with VBytes v => v | _ => None end.

Definition decV (t : ftype) : decoder -> result error (fval * decoder) :=
  match t with
  | FU32 => setting decU32 VNum
  | FU16 => setting decU16 VNum
  | FU8 => setting decU8 VNum
  | FInt => setting decInt VNum
  | FBool => setting decBool VBool
  | FStr => setting decString VStr
  | FBytes => setting (decBytes MaxFieldBytes) VBytes
  | FBuf => setting (decBytes MaxCompressedBytes) VBytes
  end.

Definition encV (t : ftype) (a : fval) : bytes :=
  match t, a with
  | FInt, _ => AppendInt [] (numOf a)
  | _, VNum v => AppendUint [] v
  | _, VBool v => AppendBool [] v
  | _, VStr v => AppendString [] v
  | _, VBytes v => AppendBytes [] v
  end.

(** [a] is a value of the type, in range. *)
Definition typed (t : ftype) (a : fval) : Prop :=
  match t, a with
  | FU32, VNum v => u32_ok v
  | FU16, VNum v => u16_ok v
  | FU8, VNum v => u8_ok v
  | FInt, VNum v => int_ok v
  | FBool, VBool _ => True
  | FStr, VStr v => str_ok v
  | FBytes, VBytes v => bytes_ok v
  | FBuf, VBytes v => cbytes_ok v
  | _, _ => False
  end.

Definition isZero (a : fval) : bool :=
  match a with
  | VNum v => v =? 0
  | VBool v => negb v
  | VStr v => String.eqb v ""
  | VBytes v => len (slice_bytes v) =? 0
  end.

(** Up to nil and empty slices. *)
Definition nilled (a : fval) : fval := match a with VBytes v => VBytes (emptyAsNil v) | a => a end.

Record field := Field { f_key : string; f_type : ftype; f_omitempty : bool }.

(** A message as the values of its fields, in the order they are encoded. *)
Class Schema (M : Type) := {
  fields : list field;
  get : M -> string -> fval;
  zero : M;
}.

Definition entriesOf {M} `{Schema M} (m : M) : list (string * bytes) :=
  omap (fun f => if f_omitempty f && isZero (get m (f_key f)) then None else Some (f_key f, encV (f_type f) (get m (f_key f)))) fields.

Class SchemaLaws (M : Type) `{Schema M} `{FieldDecoder M} : Prop := {
  keys_short f : f ∈ fields -> 0 < len (str2b (f_key f)) <= maxKeyLen;
  keys_other f : f ∈ fields -> take 7 (str2b (f_key f)) <> str2b "Unknown";
  fields_few : len fields < 16;
  known_field f m : f ∈ fields -> exists read store, decodeField m (Some (str2b (f_key f))) = Some read /\
    (forall d, read d = setting (decV (f_type f)) store d) /\
    (forall a, typed (f_type f) a -> get (store a) (f_key f) = a /\ forall k, k <> f_key f -> get (store a) k = get m k);
  unknown_field k m : b2str (slice_bytes k) ∉ map f_key fields -> decodeField m k = None;
  zero_field f : f ∈ fields -> typed (f_type f) (get zero (f_key f)) /\ isZero (get zero (f_key f)) = true;
}.

(** Every slice that is empty is nil. *)
Definition forgetNil (m : message) : message :=
  match m with
  | MPing m => MPing (MkPing (Ping_SeqNo m) (Ping_Node m) (emptyAsNil (Ping_SourceAddr m)) (Ping_SourcePort m) (Ping_SourceNode m))
  | MIndirectPingReq m =>
      MIndirectPingReq (MkIndirectPingReq (Ind_SeqNo m) (emptyAsNil (Ind_Target m)) (Ind_Port m) (Ind_Node m) (Ind_Nack m)
        (emptyAsNil (Ind_SourceAddr m)) (Ind_SourcePort m) (Ind_SourceNode m))
  | MAckResp m => MAckResp (MkAckResp (Ack_SeqNo m) (emptyAsNil (Ack_Payload m)))
  | MAlive m =>
      MAlive (MkAlive (Alive_Incarnation m) (Alive_Node m) (emptyAsNil (Alive_Addr m)) (Alive_Port m) (emptyAsNil (Alive_Meta m)) (emptyAsNil (Alive_Vsn m)))
  | MPushNodeState m =>
      MPushNodeState (MkPushNodeState (PNS_Name m) (emptyAsNil (PNS_Addr m)) (PNS_Port m) (emptyAsNil (PNS_Meta m)) (PNS_Incarnation m) (PNS_State m) (emptyAsNil (PNS_Vsn m)))
  | MCompress m => MCompress (MkCompress (Compress_Algo m) (emptyAsNil (Compress_Buf m)))
  | m => m
  end.

(** ** The messages *)

#[export] Instance Ping_schema : Schema Ping := {
  fields := [Field "Node" FStr false; Field "SeqNo" FU32 false; Field "SourceAddr" FBytes true; Field "SourceNode" FStr true; Field "SourcePort" FU16 true]%string;
  get m k :=
    if String.eqb k "Node" then VStr (Ping_Node m) else
    if String.eqb k "SeqNo" then VNum (Ping_SeqNo m) else
    if String.eqb k "SourceAddr" then VBytes (Ping_SourceAddr m) else
    if String.eqb k "SourceNode" then VStr (Ping_SourceNode m) else
    if String.eqb k "SourcePort" then VNum (Ping_SourcePort m) else
    VNum 0;
  zero := Ping_zero;
}.

#[export] Instance IndirectPingReq_schema : Schema IndirectPingReq := {
  fields := [Field "Nack" FBool false; Field "Node" FStr false; Field "Port" FU16 false; Field "SeqNo" FU32 false; Field "SourceAddr" FBytes true; Field "SourceNode" FStr true; Field "SourcePort" FU16 true; Field "Target" FBytes false]%string;
  get m k :=
    if String.eqb k "Nack" then VBool (Ind_Nack m) else
    if String.eqb k "Node" then VStr (Ind_Node m) else
    if String.eqb k "Port" then VNum (Ind_Port m) else
    if String.eqb k "SeqNo" then VNum (Ind_SeqNo m) else
    if String.eqb k "SourceAddr" then VBytes (Ind_SourceAddr m) else
    if String.eqb k "SourceNode" then VStr (Ind_SourceNode m) else
    if String.eqb k "SourcePort" then VNum (Ind_SourcePort m) else
    if String.eqb k "Target" then VBytes (Ind_Target m) else
    VNum 0;
  zero := IndirectPingReq_zero;
}.

#[export] Instance AckResp_schema : Schema AckResp := {
  fields := [Field "Payload" FBytes false; Field "SeqNo" FU32 false]%string;
  get m k :=
    if String.eqb k "Payload" then VBytes (Ack_Payload m) else
    if String.eqb k "SeqNo" then VNum (Ack_SeqNo m) else
    VNum 0;
  zero := AckResp_zero;
}.

#[export] Instance NackResp_schema : Schema NackResp := {
  fields := [Field "SeqNo" FU32 false]%string;
  get m k :=
    if String.eqb k "SeqNo" then VNum (Nack_SeqNo m) else
    VNum 0;
  zero := NackResp_zero;
}.

#[export] Instance ErrResp_schema : Schema ErrResp := {
  fields := [Field "Error" FStr false]%string;
  get m k :=
    if String.eqb k "Error" then VStr (ErrResp_Error m) else
    VNum 0;
  zero := ErrResp_zero;
}.

#[export] Instance Suspect_schema : Schema Suspect := {
  fields := [Field "From" FStr false; Field "Incarnation" FU32 false; Field "Node" FStr false]%string;
  get m k :=
    if String.eqb k "From" then VStr (Suspect_From m) else
    if String.eqb k "Incarnation" then VNum (Suspect_Incarnation m) else
    if String.eqb k "Node" then VStr (Suspect_Node m) else
    VNum 0;
  zero := Suspect_zero;
}.

#[export] Instance Alive_schema : Schema Alive := {
  fields := [Field "Addr" FBytes false; Field "Incarnation" FU32 false; Field "Meta" FBytes false; Field "Node" FStr false; Field "Port" FU16 false; Field "Vsn" FBytes false]%string;
  get m k :=
    if String.eqb k "Addr" then VBytes (Alive_Addr m) else
    if String.eqb k "Incarnation" then VNum (Alive_Incarnation m) else
    if String.eqb k "Meta" then VBytes (Alive_Meta m) else
    if String.eqb k "Node" then VStr (Alive_Node m) else
    if String.eqb k "Port" then VNum (Alive_Port m) else
    if String.eqb k "Vsn" then VBytes (Alive_Vsn m) else
    VNum 0;
  zero := Alive_zero;
}.

#[export] Instance Dead_schema : Schema Dead := {
  fields := [Field "From" FStr false; Field "Incarnation" FU32 false; Field "Node" FStr false]%string;
  get m k :=
    if String.eqb k "From" then VStr (Dead_From m) else
    if String.eqb k "Incarnation" then VNum (Dead_Incarnation m) else
    if String.eqb k "Node" then VStr (Dead_Node m) else
    VNum 0;
  zero := Dead_zero;
}.

#[export] Instance PushPullHeader_schema : Schema PushPullHeader := {
  fields := [Field "Join" FBool false; Field "Nodes" FInt false; Field "UserStateLen" FInt false]%string;
  get m k :=
    if String.eqb k "Join" then VBool (PPH_Join m) else
    if String.eqb k "Nodes" then VNum (PPH_Nodes m) else
    if String.eqb k "UserStateLen" then VNum (PPH_UserStateLen m) else
    VNum 0;
  zero := PushPullHeader_zero;
}.

#[export] Instance UserMsgHeader_schema : Schema UserMsgHeader := {
  fields := [Field "UserMsgLen" FInt false]%string;
  get m k :=
    if String.eqb k "UserMsgLen" then VNum (UMH_UserMsgLen m) else
    VNum 0;
  zero := UserMsgHeader_zero;
}.

#[export] Instance PushNodeState_schema : Schema PushNodeState := {
  fields := [Field "Addr" FBytes false; Field "Incarnation" FU32 false; Field "Meta" FBytes false; Field "Name" FStr false; Field "Port" FU16 false; Field "State" FInt false; Field "Vsn" FBytes false]%string;
  get m k :=
    if String.eqb k "Addr" then VBytes (PNS_Addr m) else
    if String.eqb k "Incarnation" then VNum (PNS_Incarnation m) else
    if String.eqb k "Meta" then VBytes (PNS_Meta m) else
    if String.eqb k "Name" then VStr (PNS_Name m) else
    if String.eqb k "Port" then VNum (PNS_Port m) else
    if String.eqb k "State" then VNum (PNS_State m) else
    if String.eqb k "Vsn" then VBytes (PNS_Vsn m) else
    VNum 0;
  zero := PushNodeState_zero;
}.

#[export] Instance Compress_schema : Schema Compress := {
  fields := [Field "Algo" FU8 false; Field "Buf" FBuf false]%string;
  get m k :=
    if String.eqb k "Algo" then VNum (Compress_Algo m) else
    if String.eqb k "Buf" then VBytes (Compress_Buf m) else
    VNum 0;
  zero := Compress_zero;
}.

Definition hasBool (k : kind) : bool := match k with KIndirectPingReq | KPushPullHeader => true | _ => false end.

(** What ties a record's fields to its encoder and its decoder. *)
Class WireSchema (M : Type) `{Schema M} `{FieldDecoder M} (mk : M -> message) (k : kind) (msg : string) : Prop := {
  ws_laws : SchemaLaws M;
  ws_kind m : kind_of (mk m) = k;
  ws_encode m : AppendMsgpack (mk m) [] = encodeFields (entriesOf m);
  ws_decode d : DecodeMsgpack k d = setting (decodeMap msg zero) mk d;
  ws_typed m : valid (mk m) -> Forall (fun f => typed (f_type f) (get m (f_key f))) fields;
  ws_equal m m' : Forall (fun f => nilled (get m' (f_key f)) = nilled (get m (f_key f))) fields -> forgetNil (mk m') = forgetNil (mk m);
  ws_bool : hasBool k = false -> Forall (fun f => f_type f <> FBool) (fields (M := M));
}.

Lemma known_of {M A} `{Schema M} `{FieldDecoder M} (dec : decoder -> result error (A * decoder)) (V : A -> fval) (un : fval -> A) f (m : M) st :
  decodeField m (Some (str2b (f_key f))) = Some (setting dec st) -> decV (f_type f) = setting dec V -> (forall a, un (V a) = a) ->
  (forall a, typed (f_type f) a -> get (st (un a)) (f_key f) = a /\ forall k, k <> f_key f -> get (st (un a)) k = get m k) ->
  exists read store, decodeField m (Some (str2b (f_key f))) = Some read /\ (forall d, read d = setting (decV (f_type f)) store d) /\
    (forall a, typed (f_type f) a -> get (store a) (f_key f) = a /\ forall k, k <> f_key f -> get (store a) k = get m k).
Proof.
  intros Ed Ev Hun Hst. exists (setting dec st), (fun a => st (un a)). split_and!; [done| |done].
  intros d. rewrite Ev. unfold setting. destruct (dec d) as [[a d']|]; [cbn; by rewrite Hun|done].
Qed.

(** The fields of a record one by one. *)
Ltac each_field Hf tac :=
  match type of Hf with _ ∈ ?l => let l' := eval hnf in l in change l with l' in Hf end;
  repeat (apply elem_of_cons in Hf as [->|Hf]; [tac|]); by apply not_elem_of_nil in Hf.

Ltac known_as sch dec V un :=
  eapply (known_of dec V un); [reflexivity|reflexivity|reflexivity|];
  intros [] Ht; cbn [f_type typed] in Ht; try done;
  (split; [reflexivity|]); cbn [f_key]; intros k Hk; cbv beta iota delta [get sch];
  repeat (match goal with |- context [String.eqb k ?s] => destruct (String.eqb_spec k s); [by subst|] end); reflexivity.

Ltac known sch :=
  first [known_as sch decU32 VNum numOf|known_as sch decU16 VNum numOf|known_as sch decU8 VNum numOf|known_as sch decInt VNum numOf
        |known_as sch decBool VBool boolOf|known_as sch decString VStr strOf|known_as sch (decBytes MaxFieldBytes) VBytes bytesOf
        |known_as sch (decBytes MaxCompressedBytes) VBytes bytesOf].

Ltac unknown inst dec Hk :=
  cbv beta iota delta [decodeField inst dec]; cbv zeta;
  repeat (match goal with |- context [String.eqb (b2str (slice_bytes ?k)) ?s] => destruct (String.eqb_spec (b2str (slice_bytes k)) s) as [E|];
    [exfalso; apply Hk; rewrite E; apply (bool_decide_unpack _); vm_compute; exact I|] end); reflexivity.

Ltac schema_laws sch inst dec :=
  constructor;
  [intros f Hf; each_field Hf ltac:(split; vm_compute; congruence)
  |intros f Hf; each_field Hf ltac:(vm_compute; congruence)
  |vm_compute; reflexivity
  |intros f [] Hf; each_field Hf ltac:(known sch)
  |intros k [] Hk; unknown inst dec Hk
  |intros f Hf; each_field Hf ltac:(vm_compute; intuition congruence)].

#[export] Instance Ping_laws : SchemaLaws Ping.
Proof. schema_laws Ping_schema Ping_fieldDecoder Ping_decodeField. Qed.
#[export] Instance IndirectPingReq_laws : SchemaLaws IndirectPingReq.
Proof. schema_laws IndirectPingReq_schema IndirectPingReq_fieldDecoder IndirectPingReq_decodeField. Qed.
#[export] Instance AckResp_laws : SchemaLaws AckResp.
Proof. schema_laws AckResp_schema AckResp_fieldDecoder AckResp_decodeField. Qed.
#[export] Instance NackResp_laws : SchemaLaws NackResp.
Proof. schema_laws NackResp_schema NackResp_fieldDecoder NackResp_decodeField. Qed.
#[export] Instance ErrResp_laws : SchemaLaws ErrResp.
Proof. schema_laws ErrResp_schema ErrResp_fieldDecoder ErrResp_decodeField. Qed.
#[export] Instance Suspect_laws : SchemaLaws Suspect.
Proof. schema_laws Suspect_schema Suspect_fieldDecoder Suspect_decodeField. Qed.
#[export] Instance Alive_laws : SchemaLaws Alive.
Proof. schema_laws Alive_schema Alive_fieldDecoder Alive_decodeField. Qed.
#[export] Instance Dead_laws : SchemaLaws Dead.
Proof. schema_laws Dead_schema Dead_fieldDecoder Dead_decodeField. Qed.
#[export] Instance PushPullHeader_laws : SchemaLaws PushPullHeader.
Proof. schema_laws PushPullHeader_schema PushPullHeader_fieldDecoder PushPullHeader_decodeField. Qed.
#[export] Instance UserMsgHeader_laws : SchemaLaws UserMsgHeader.
Proof. schema_laws UserMsgHeader_schema UserMsgHeader_fieldDecoder UserMsgHeader_decodeField. Qed.
#[export] Instance PushNodeState_laws : SchemaLaws PushNodeState.
Proof. schema_laws PushNodeState_schema PushNodeState_fieldDecoder PushNodeState_decodeField. Qed.
#[export] Instance Compress_laws : SchemaLaws Compress.
Proof. schema_laws Compress_schema Compress_fieldDecoder Compress_decodeField. Qed.

Lemma sourceEntries_fields (addr : slice) (port : Z) (node : string) :
  sourceEntries addr port node =
  omap (fun x : string * bytes * bool => if x.2 then None else Some x.1)
    [("SourceAddr"%string, AppendBytes [] addr, len (slice_bytes addr) =? 0); ("SourceNode"%string, AppendString [] node, String.eqb node "");
     ("SourcePort"%string, AppendUint [] port, port =? 0)].
Proof. unfold sourceEntries. by destruct (len (slice_bytes addr) =? 0), (String.eqb node ""), (port =? 0). Qed.

Ltac open_encoders :=
  cbv beta iota zeta delta [Ping_AppendMsgpack IndirectPingReq_AppendMsgpack AckResp_AppendMsgpack
      NackResp_AppendMsgpack ErrResp_AppendMsgpack Suspect_AppendMsgpack Alive_AppendMsgpack
      Dead_AppendMsgpack PushPullHeader_AppendMsgpack UserMsgHeader_AppendMsgpack
      PushNodeState_AppendMsgpack Compress_AppendMsgpack].

Ltac open_valid :=
  cbv beta iota delta [valid Ping_valid IndirectPingReq_valid AckResp_valid NackResp_valid ErrResp_valid Suspect_valid Alive_valid Dead_valid
      PushPullHeader_valid UserMsgHeader_valid PushNodeState_valid Compress_valid].

Ltac wire_schema laws :=
  constructor; [exact laws|reflexivity
    |intros []; cbn [AppendMsgpack]; open_encoders; autorewrite with written; cbn [app]
    |reflexivity
    |intros []; open_valid; cbn; intros; destruct_and?; repeat (apply Forall_cons_2; [done|]); apply Forall_nil_2
    |intros [] [] Hx; repeat (let Hy := fresh in apply Forall_cons in Hx as [Hy Hx]; cbn in Hy); cbn; congruence
    |try done; intros _; repeat (apply Forall_cons_2; [done|]); apply Forall_nil_2].

#[export] Instance AckResp_wire : WireSchema AckResp MAckResp KAckResp "ack".
Proof. wire_schema AckResp_laws. by apply written_all. Qed.
#[export] Instance NackResp_wire : WireSchema NackResp MNackResp KNackResp "nack".
Proof. wire_schema NackResp_laws. by apply written_all. Qed.
#[export] Instance ErrResp_wire : WireSchema ErrResp MErrResp KErrResp "error response".
Proof. wire_schema ErrResp_laws. by apply written_all. Qed.
#[export] Instance Suspect_wire : WireSchema Suspect MSuspect KSuspect "suspect".
Proof. wire_schema Suspect_laws. by apply written_all. Qed.
#[export] Instance Alive_wire : WireSchema Alive MAlive KAlive "alive".
Proof. wire_schema Alive_laws. by apply written_all. Qed.
#[export] Instance Dead_wire : WireSchema Dead MDead KDead "dead".
Proof. wire_schema Dead_laws. by apply written_all. Qed.
#[export] Instance PushPullHeader_wire : WireSchema PushPullHeader MPushPullHeader KPushPullHeader "push/pull header".
Proof. wire_schema PushPullHeader_laws. by apply written_all. Qed.
#[export] Instance UserMsgHeader_wire : WireSchema UserMsgHeader MUserMsgHeader KUserMsgHeader "user message header".
Proof. wire_schema UserMsgHeader_laws. by apply written_all. Qed.
#[export] Instance PushNodeState_wire : WireSchema PushNodeState MPushNodeState KPushNodeState "push node state".
Proof. wire_schema PushNodeState_laws. by apply written_all. Qed.
#[export] Instance Compress_wire : WireSchema Compress MCompress KCompress "compress".
Proof. wire_schema Compress_laws. by apply written_all. Qed.

Lemma omitted_len addr port node : omitted addr port node = 3 - len (sourceEntries addr port node).
Proof. rewrite sourceEntries_len. lia. Qed.

#[export] Instance Ping_wire : WireSchema Ping MPing KPing "ping".
Proof.
  wire_schema Ping_laws. cbn. rewrite omitted_len, written_all by (rewrite !len_cons; lia). unfold entriesOf. cbn. rewrite sourceEntries_fields. cbn. done.
Qed.

#[export] Instance IndirectPingReq_wire : WireSchema IndirectPingReq MIndirectPingReq KIndirectPingReq "indirect ping".
Proof.
  wire_schema IndirectPingReq_laws. cbn. rewrite omitted_len, written_all by (rewrite ?len_cons, ?len_app, ?len_cons, ?len_nil; lia).
  unfold entriesOf. cbn. rewrite sourceEntries_fields. cbn.
  by destruct (len (slice_bytes _) =? 0), (String.eqb _ ""), (_ =? 0).
Qed.

