(* ===== verification/Alternatives.v ===== *)
(** The encodings a message may have: every width of an integer, the string and
    binary families, nil for an empty value, any order of the fields, repeated
    and unknown ones. Decoding any of them fills the same fields.

    [intFormats] is the table of [appendIntAlt] in
    [src/internal/wire/testdata/oracle/main.go], the program that draws such
    encodings; the rest is the specification of what it draws. *)

From S2P Require Import Prelude Msgpack Wire Schema.

(** A key and its encoded value. *)
Abbreviation entry := (bytes * bytes)%type.

(** The formats of an integer: format byte, width and whether it fits. *)
Definition intFormats (i : Z) : list (Z * nat * bool) := [
  (0x00, 0%nat, (i >=? 0) && (i <=? 127));
  (0xe0, 0%nat, (i >=? -32) && (i <? 0));
  (0xcc, 1%nat, (i >=? 0) && (i <=? MaxUint8));
  (0xcd, 2%nat, (i >=? 0) && (i <=? MaxUint16));
  (0xce, 4%nat, (i >=? 0) && (i <=? MaxUint32));
  (0xcf, 8%nat, i >=? 0);
  (0xd0, 1%nat, (i >=? MinInt8) && (i <=? MaxInt8));
  (0xd1, 2%nat, (i >=? MinInt16) && (i <=? MaxInt16));
  (0xd2, 4%nat, (i >=? MinInt32) && (i <=? MaxInt32));
  (0xd3, 8%nat, true)].

(** The encodings of scalar values that the program writes. *)
Inductive scalar := SInt (i : Z) | SBool (b : bool) | SRaw (p : bytes) | SNil.

Inductive RawHeader : Z -> bytes -> Prop :=
| RH_fix n : 0 <= n < 32 -> RawHeader n [z2b (Z.lor 0xa0 n)]
| RH_sized c w n : sized_payload c w 0 -> 0 <= n < 256 ^ Z.of_nat w -> RawHeader n (z2b c :: be w n).

Inductive IntEnc : Z -> bytes -> Prop :=
| IE_fix i : -32 <= i <= 127 -> IntEnc i [z2b i]
| IE_wide c w i : (c, S w, true) ∈ intFormats i -> MinInt64 <= i <= MaxInt64 -> IntEnc i (z2b c :: be (S w) (u64 i)).

Inductive Scalar : scalar -> bytes -> Prop :=
| Sc_int i e : IntEnc i e -> Scalar (SInt i) e
| Sc_bool (b : bool) : Scalar (SBool b) [z2b (if b then 0xc3 else 0xc2)]
| Sc_raw p h : RawHeader (len p) h -> len p <= MaxInt32 -> Scalar (SRaw p) (h ++ p)
| Sc_nil : Scalar SNil [z2b 0xc0].

(** A value that altering leaves alone or replaces by another encoding. *)
Definition opaqueByte (c : Z) : bool := ((0x80 <=? c) && (c <=? 0x9f)) || (c =? 0xcb).

Inductive Extra : bytes -> Prop :=
| Ex_scalar s v : Scalar s v -> Extra v
| Ex_opaque c v : opaqueByte (b2z c) = true -> Value 3 (c :: v) -> Extra (c :: v).

(** What altering a scalar makes of it. *)
Definition altered (s s' : scalar) : Prop :=
  s' = s \/ (exists b : bool, s = SBool b /\ s' = SInt (Z.b2z b)) \/ (s = SRaw [] /\ s' = SNil).

(** What a scalar stands for in a field. *)
Definition denotes (t : ftype) (a : fval) (s : scalar) : Prop :=
  match t, a, s with
  | (FU32 | FU16 | FU8 | FInt), VNum v, SInt i => i = v
  | FBool, VBool b, SBool b' => b' = b
  | FBool, VBool b, SInt i => i = Z.b2z b
  | FStr, VStr v, SRaw p => p = str2b v
  | FStr, VStr v, SNil => v = ""%string
  | (FBytes | FBuf), VBytes v, SRaw p => p = slice_bytes v
  | (FBytes | FBuf), VBytes v, SNil => slice_bytes v = []
  | _, _, _ => False
  end.

(** ** Lemmas *)

(** *** Encodings *)

Lemma be_mod n v : (n <= 8)%nat -> be n (v mod 256 ^ Z.of_nat n) = be n v.
Proof. intros Hn. pose proof (be_be_value (be n v)) as H. rewrite length_be, be_value_be in H by done. by apply H. Qed.

Lemma z2b_mod v : z2b (v mod 256) = z2b v.
Proof. apply b2z_inj. rewrite !b2z_z2b. apply Z.mod_mod. lia. Qed.

Lemma fixstr_byte n : 0 <= n < 32 -> Z.lor 0xa0 n = 0xa0 + n.
Proof. intros Hn. change 0xa0 with (5 * 2 ^ 5). by rewrite lor_low_bits by lia. Qed.

Lemma RawHeader_reads want n h : RawHeader n h -> reads (rawLen want) h (n, false).
Proof.
  intros [? Hn|c w ? Hc Hn]; unfold rawLen; apply reads_cons; cbv zeta; open_formats.
  - rewrite fixstr_byte, b2z_z2b_small by lia. lia_ifs. change 0x1f with (Z.ones 5). rewrite Z.land_ones by lia.
    replace ((0xa0 + n0) mod 2 ^ 5) with n0 by ints. apply reads_ret.
  - inversion Hc as [? [->| ->]|? [->| ->]|? [->| ->]| | |]; subst; eval_ifs;
      (apply (reads_fixed_last _ _ _ _ (fun n => (n, false))); [done|lia|f_equal; by apply Z.mod_small]).
Qed.

Lemma RawHeader_pos n h : RawHeader n h -> 1 <= len h.
Proof. intros []; rewrite len_cons; match goal with |- context [len ?l] => pose proof (len_nonneg l) end; lia. Qed.

Lemma appendRawHeader_RawHeader n : 0 <= n < 4294967296 -> RawHeader n (appendRawHeader [] n).
Proof.
  intros Hn. unfold appendRawHeader. cbn [app]. destruct (Z.ltb_spec n 32); [apply RH_fix; lia|]. destruct (Z.ltb_spec n 65536).
  - unfold u16. rewrite Z.mod_small by lia. apply (RH_sized _ 2); [apply sp_16; by left|lia].
  - unfold u32. rewrite Z.mod_small by lia. apply (RH_sized _ 4); [apply sp_32; by left|lia].
Qed.

Lemma IntEnc_reads want i e : IntEnc i e -> reads (readInteger want) e (u64 i, i <? 0).
Proof.
  intros [? Hi|c w ? Hc Hi]; unfold readInteger; apply reads_cons; cbv zeta; open_formats.
  - rewrite b2z_z2b. destruct (Z.ltb_spec i0 0).
    + replace (i0 mod 256) with (i0 + 256) by ints. unfold_ints. lia_ifs.
      replace ((i0 + 256 + 128) mod 256 - 128) with i0 by ints. apply reads_ret.
    + rewrite Z.mod_small, (u64_small i0) by (unfold_ints; lia). unfold_ints. lia_ifs. apply reads_ret.
  - unfold intFormats in Hc. repeat (apply elem_of_cons in Hc as [Hc|Hc]; [simplify_eq|]); [..|by apply not_elem_of_nil in Hc].
    all: eval_ifs.
    all: first [apply (reads_fixed_last _ _ _ _ (fun v => (v, false)))
               |apply (reads_fixed_last _ _ _ _ (fun v => (u64 (i8 v), i8 v <? 0)))
               |apply (reads_fixed_last _ _ _ _ (fun v => (u64 (i16 v), i16 v <? 0)))
               |apply (reads_fixed_last _ _ _ _ (fun v => (u64 (i32 v), i32 v <? 0)))
               |apply (reads_fixed_last _ _ _ _ (fun v => (v, i64 v <? 0)))]; [done|lia|].
    1-4: rewrite u64_small, Z.mod_small by (unfold_ints; lia); f_equal; lia.
    + replace (i8 (u64 i0 mod 256 ^ 1)) with i0 by ints. done.
    + replace (i16 (u64 i0 mod 256 ^ 2)) with i0 by ints. done.
    + replace (i32 (u64 i0 mod 256 ^ 4)) with i0 by ints. done.
    + replace (u64 i0 mod 256 ^ 8) with (u64 i0) by ints. by replace (i64 (u64 i0)) with i0 by ints.
Qed.

(** A format that fits is one of those that [appendIntAlt] draws from. *)
Ltac fits_format := unfold intFormats; repeat (apply elem_of_cons; first [left; apply f_equal2; [reflexivity|unfold_ints; lia]|right]).

Lemma wide_enc c w i e :
  (c, S w, true) ∈ intFormats i -> int_ok i -> (w <= 7)%nat -> e = be (S w) (i mod 256 ^ Z.of_nat (S w)) -> IntEnc i (z2b c :: e).
Proof.
  intros Hc Hi Hw ->. replace (i mod _) with (u64 i mod 256 ^ Z.of_nat (S w)).
  - rewrite be_mod by lia. by apply IE_wide.
  - unfold u64. destruct w as [|[|[|[|[|[|[|[|]]]]]]]]; [..|lia]; cbn [Z.of_nat Pos.of_succ_nat Pos.succ]; ints.
Qed.

Lemma AppendUint_enc v : 0 <= v <= MaxUint32 -> IntEnc v (AppendUint [] v).
Proof.
  intros Hv. unfold AppendUint, posFixintMax. cbn [app].
  destruct (Z.leb_spec v 127); [apply IE_fix; lia|]. destruct (Z.leb_spec v MaxUint8).
  { eapply (wide_enc _ 0); [fits_format|unfold int_ok; unfold_ints; lia|lia|]. symmetry. exact (f_equal (fun c => [c]) (z2b_mod v)). }
  destruct (Z.leb_spec v MaxUint16); [eapply (wide_enc _ 1); [fits_format|unfold int_ok; unfold_ints; lia|lia|done]|].
  rewrite (proj2 (Z.leb_le _ _)) by lia. eapply (wide_enc _ 3); [fits_format|unfold int_ok; unfold_ints; lia|lia|done].
Qed.

Lemma AppendInt_enc v : int_ok v -> IntEnc v (AppendInt [] v).
Proof.
  intros Hv. assert (H8 : u64 v = v mod 256 ^ 8) by done. unfold int_ok in *. unfold AppendInt. cbn [app].
  destruct (Z.gtb_spec v MaxInt8).
  - destruct (Z.leb_spec v MaxInt16); [eapply (wide_enc _ 1); [fits_format|done|lia|done]|].
    destruct (Z.leb_spec v MaxInt32); [eapply (wide_enc _ 3)|eapply (wide_enc _ 7)]; first [done|lia|fits_format].
  - rewrite !Z.geb_leb. destruct (Z.leb_spec (-32) v); [apply IE_fix; unfold_ints; lia|].
    destruct (Z.leb_spec MinInt8 v).
    { eapply (wide_enc _ 0); [fits_format|done|lia|]. symmetry. exact (f_equal (fun c => [c]) (z2b_mod v)). }
    destruct (Z.leb_spec MinInt16 v); [eapply (wide_enc _ 1); [fits_format|done|lia|done]|].
    destruct (Z.leb_spec MinInt32 v); [eapply (wide_enc _ 3)|eapply (wide_enc _ 7)]; first [done|lia|fits_format].
Qed.

Lemma IntEnc_Value k i e : IntEnc i e -> Value k e.
Proof.
  intros [? Hi|c w ? Hc Hi].
  - rewrite <- z2b_mod. apply V_atom. unfold atom_byte. ints.
  - unfold intFormats in Hc. repeat (apply elem_of_cons in Hc as [Hc|Hc]; [simplify_eq|]); [..|by apply not_elem_of_nil in Hc];
      (eapply V_fixed; [|apply len_be]); first [apply fp_8; by auto|apply fp_16; by auto|apply fp_32; by auto|apply fp_64; by auto].
Qed.

Lemma RawHeader_Value k p h : RawHeader (len p) h -> Value k (h ++ p).
Proof.
  intros Hh. inversion Hh as [? Hn|c w ? Hc Hn]; subst; cbn [app].
  - rewrite fixstr_byte by done. eapply V_fixed; [by apply fp_fixstr|done].
  - eapply V_sized; [exact Hc|done|lia].
Qed.

Lemma Scalar_Value k s e : Scalar s e -> Value k e.
Proof.
  intros [i ? He|b|p h Hh _|]; [by eapply IntEnc_Value|..|by apply RawHeader_Value|apply V_atom; unfold atom_byte; lia].
  apply V_atom. unfold atom_byte. destruct b; lia.
Qed.

Lemma Scalar_pos s e : Scalar s e -> 1 <= len e.
Proof. intros H. eapply (Value_pos 0), Scalar_Value, H. Qed.

Lemma Value_deeper :
  (forall k v, Value k v -> forall k', (k <= k')%nat -> Value k' v) /\
  (forall k n b, Values k n b -> forall k', (k <= k')%nat -> Values k' n b).
Proof.
  apply Value_Values_ind; intros; try by (econstructor; eauto).
  destruct k' as [|k']; [lia|]. apply Vs_cons; [done|..]; auto with lia.
Qed.

Lemma Values_snoc k n b v : Values (S k) n b -> Value k v -> Values (S k) (n + 1) (b ++ v).
Proof.
  intros Hb Hv. remember (S k) as k' eqn:E. induction Hb as [k'|k' n w b Hn Hw Hb IH]; subst.
  - rewrite app_nil_l, <- (app_nil_r v). apply Vs_cons; [lia|done|apply Vs_nil].
  - injection E as ->. rewrite <- app_assoc. apply Vs_cons; [lia|done|by apply IH].
Qed.

Lemma IntEnc_first i e : IntEnc i e -> exists c e', e = c :: e' /\ len e <= 9 /\
  (b2z c <= 0x7f \/ b2z c >= 0xe0 \/ 0xcc <= b2z c <= 0xd3).
Proof.
  intros [? Hi|c w ? Hc Hi].
  - exists (z2b i0), []. split_and!; [done|done|]. rewrite b2z_z2b. ints.
  - exists (z2b c), (be (S w) (u64 i0)). unfold intFormats in Hc.
    repeat (apply elem_of_cons in Hc as [Hc|Hc]; [simplify_eq|]); [..|by apply not_elem_of_nil in Hc];
      (split_and!; [done|rewrite len_cons, len_be; lia|rewrite b2z_z2b_small by lia; lia]).
Qed.

Lemma RawHeader_first n h : RawHeader n h -> exists c h', h = c :: h' /\ len h <= 5 /\
  (0xa0 <= b2z c <= 0xbf \/ 0xd9 <= b2z c <= 0xdb \/ 0xc4 <= b2z c <= 0xc6).
Proof.
  intros [? Hn|c w ? Hc Hn].
  - eexists _, []. split_and!; [done|done|]. rewrite fixstr_byte, b2z_z2b_small by lia. lia.
  - exists (z2b c), (be w n0). inversion Hc as [? [->| ->]|? [->| ->]|? [->| ->]| | |]; subst;
      (split_and!; [done|rewrite len_cons, len_be; lia|rewrite b2z_z2b_small by lia; lia]).
Qed.

Lemma container_Extra c n k b : c = 0x90 \/ c = 0x80 -> 0 <= n < 4 -> (k <= 3)%nat -> Values k (if c =? 0x90 then n else 2 * n) b ->
  Value k (z2b (Z.lor c n) :: b) /\ Extra (z2b (Z.lor c n) :: b).
Proof.
  intros Hc Hn Hk Hb. replace (Z.lor c n) with (c + n).
  2: { destruct Hc as [->| ->]; [change 0x90 with (36 * 2 ^ 2)|change 0x80 with (32 * 2 ^ 2)]; by rewrite lor_low_bits by lia. }
  assert (Hv : Value k (z2b (c + n) :: b)) by (destruct Hc as [->| ->]; cbn in Hb; [apply V_fixarray|apply V_fixmap]; first [lia|done]).
  split; [done|]. apply Ex_opaque; [|by eapply (proj1 Value_deeper)]. rewrite b2z_z2b_small by lia. unfold opaqueByte. lia.
Qed.

Lemma denotes_altered t a s s' : altered s s' -> denotes t a s -> denotes t a s'.
Proof.
  intros [->|[(b & -> & ->)|[-> ->]]] Hd; [done|..]; destruct t, a; cbn in *; try done.
  - by subst.
  - symmetry in Hd. by apply (str2b_inj v "").
Qed.

Lemma encV_scalar t a : typed t a -> exists s, Scalar s (encV t a) /\ denotes t a s /\ (t = FBool -> exists b, s = SBool b).
Proof.
  assert (Hraw : forall p, len p <= 67108864 -> Scalar (SRaw p) (appendRawHeader [] (len p) ++ p)).
  { intros p Hp. pose proof (len_nonneg p). apply Sc_raw; [apply appendRawHeader_RawHeader; lia|unfold_ints; lia]. }
  assert (Hbytes : forall v, len (slice_bytes v) <= 67108864 -> exists s, Scalar s (AppendBytes [] v) /\ denotes FBytes (VBytes v) s /\ denotes FBuf (VBytes v) s).
  { intros [p|] Hp; cbn [AppendBytes slice_bytes] in *; [exists (SRaw p); split; [by apply Hraw|done]|exists SNil; split; [apply Sc_nil|done]]. }
  destruct t, a as [v|v|v|v]; cbn [typed encV numOf]; try done; intros Hv.
  1-3: exists (SInt v); split_and!; [apply Sc_int, AppendUint_enc|done|done].
  - unfold u32_ok in Hv. lia.
  - unfold u16_ok in Hv. unfold_ints. lia.
  - unfold u8_ok in Hv. unfold_ints. lia.
  - exists (SInt v). split_and!; [by apply Sc_int, AppendInt_enc|done|done].
  - exists (SBool v). split_and!; [destruct v; apply (Sc_bool true) || apply (Sc_bool false)|done|by exists v].
  - exists (SRaw (str2b v)). split_and!; [apply Hraw; unfold str_ok in Hv; change MaxFieldBytes with 1048576 in Hv; lia|done|done].
  - destruct (Hbytes v) as (s & Hs & Hd & _); [unfold bytes_ok in Hv; change MaxFieldBytes with 1048576 in Hv; lia|by exists s].
  - destruct (Hbytes v) as (s & Hs & _ & Hd); [by unfold cbytes_ok in Hv; change MaxCompressedBytes with 67108864 in Hv|by exists s].
Qed.

Lemma reads_uint_of limit v e : IntEnc v e -> 0 <= v <= limit -> limit <= MaxUint32 -> reads (ReadUint limit) e v.
Proof.
  intros He Hv Hl. apply reads_ReadUint_of; [|lia]. pose proof (IntEnc_reads "unsigned integer" v e He) as H.
  rewrite u64_small in H by (unfold MaxUint32 in *; lia). by replace (v <? 0) with false in H by lia.
Qed.

(** An integer in a boolean's place is read when it is the byte 0 or 1. *)
Lemma IntEnc_bool b e : IntEnc (Z.b2z b) e ->
  (len e = 1 -> reads decBool e b) /\
  (len e <> 1 -> forall d rest, dec_ok d -> pending d = e ++ rest -> exists err, decBool d = Err err).
Proof.
  inversion 1 as [? Hi|c w ? Hc Hi]; subst; split; intros Hl; try done.
  - unfold decBool, ReadBool. apply reads_cons. cbv zeta. destruct b; cbn [Z.b2z]; eval_ifs; apply reads_ret.
  - rewrite len_cons, len_be in Hl. lia.
  - intros d rest Hd E. unfold decBool, ReadBool. rewrite readByte_eq, E by done. cbn [app rbind]. cbv zeta.
    unfold intFormats in Hc. repeat (apply elem_of_cons in Hc as [Hc|Hc]; [simplify_eq|]); [..|by apply not_elem_of_nil in Hc];
      eval_ifs; eauto.
Qed.

Lemma denotes_reads t a s v : typed t a -> denotes t a s -> Scalar s v -> (t = FBool -> len v = 1) ->
  exists a', reads (decV t) v a' /\ typed t a' /\ nilled a' = nilled a.
Proof.
  intros Ht Hd Hs Hb. assert (Hbytes : forall w p limit, len (slice_bytes w) <= limit <= MaxInt64 -> denotes FBytes (VBytes w) p -> Scalar p v ->
    exists w', reads (setting (decBytes limit) VBytes) v (VBytes w') /\ len (slice_bytes w') <= limit /\ emptyAsNil w' = emptyAsNil w).
  { intros w p limit Hl Hw Hp. unfold decBytes. inversion Hp; subst; cbn in Hw; try done.
    - subst. exists (Some (slice_bytes w)). split_and!; [apply reads_setting, reads_ReadBytes_of; [by apply RawHeader_reads|done]|cbn; lia|].
      by destruct w.
    - exists None. rewrite Hw in Hl. split_and!; [apply reads_setting, reads_ReadBytes_nil|cbn; lia|unfold emptyAsNil; by rewrite Hw]. }
  destruct t, a as [w|w|w|w]; cbn [typed] in Ht; try done.
  1-4: destruct s; cbn in Hd; try done; subst i; inversion Hs as [? ? He| | |]; subst; exists (VNum w); (split_and!; [|done|done]).
  - apply (reads_setting decU32). rewrite <- (u32_small w) by (unfold u32_ok in Ht; ints). apply (reads_setting _ _ _ u32). by apply reads_uint_of.
  - apply (reads_setting decU16). rewrite <- (u16_small w) by (unfold u16_ok in Ht; ints). apply (reads_setting _ _ _ u16). by apply reads_uint_of.
  - apply (reads_setting decU8). rewrite <- (u8_small w) by (unfold u8_ok in Ht; ints). apply (reads_setting _ _ _ u8). by apply reads_uint_of.
  - apply (reads_setting decInt). rewrite <- (i64_small w) by done. apply (reads_setting _ _ _ i64).
    apply reads_ReadInt_of; [by apply IntEnc_reads|done|done].
  - exists (VBool w). split_and!; [|done|done]. apply reads_setting. destruct s; cbn in Hd; try done; subst; inversion Hs as [? ? He|b'| |]; subst.
    + by apply (IntEnc_bool _ _ He), Hb.
    + destruct w; apply (reads_decBool true) || apply (reads_decBool false).
  - exists (VStr w). split_and!; [|done|done]. apply reads_setting. unfold str_ok in Ht. destruct s; cbn in Hd; try done; subst; inversion Hs; subst.
    + apply reads_ReadString_of; [by apply RawHeader_reads|]. change MaxFieldBytes with 1048576 in *. unfold_ints. lia.
    + apply reads_ReadString_nil.
  - destruct (Hbytes w s MaxFieldBytes) as (w' & Hr & Hl & He); [unfold bytes_ok in Ht; change MaxFieldBytes with 1048576 in *; unfold_ints; lia|done|done|].
    exists (VBytes w'). split_and!; [done|done|cbn; by f_equal].
  - destruct (Hbytes w s MaxCompressedBytes) as (w' & Hr & Hl & He); [unfold cbytes_ok in Ht; change MaxCompressedBytes with 67108864 in *; unfold_ints; lia|done|done|].
    exists (VBytes w'). split_and!; [done|done|cbn; by f_equal].
Qed.

(** *** Decoding entries in any order *)

Definition keys {M} `{Schema M} : list string := map f_key (fields (M := M)).

(** An entry written for the message [m0]: one of its fields, or one it does
    not have. *)
Definition spells {M} `{Schema M} (m0 : M) (f : field) (v : bytes) : Prop :=
  exists s, Scalar s v /\ denotes (f_type f) (get m0 (f_key f)) s.

Definition good {M} `{Schema M} (m0 : M) (e : entry) : Prop :=
  (exists f, f ∈ fields /\ e.1 = str2b (f_key f) /\ spells m0 f e.2 /\ (f_type f = FBool -> len e.2 = 1)) \/
  ((b2str e.1 ∉ keys (M := M)) /\ len e.1 <= MaxInt32 /\ Extra e.2).

(** How an entry is written. *)
Definition writes (e : entry) (b : bytes) : Prop := exists h, RawHeader (len e.1) h /\ b = h ++ e.1 ++ e.2.

(** [m] holds the values of [m0] for the keys [ks] and else those it started with. *)
Definition filled {M} `{Schema M} (m0 : M) (ks : list bytes) (m : M) : Prop :=
  forall f, f ∈ fields -> nilled (get m (f_key f)) = nilled (get (if decide (str2b (f_key f) ∈ ks) then m0 else zero) (f_key f)).

Section Filling.
Context {M : Type} `{SL : SchemaLaws M} (msg : string) (m0 : M).
Hypothesis m0_typed : forall f, f ∈ fields (M := M) -> typed (f_type f) (get m0 (f_key f)).

Lemma Extra_Value v : Extra v -> Value (Z.to_nat maxSkipDepth) v.
Proof. intros [s ? Hs|c ? _ Hv]; [by eapply Scalar_Value|]. eapply (proj1 Value_deeper); [exact Hv|]. change (Z.to_nat maxSkipDepth) with 32%nat. lia. Qed.

Lemma writes_key e b : writes e b -> len e.1 <= MaxInt32 ->
  exists h, b = h ++ e.1 ++ e.2 /\ reads ReadKey (h ++ e.1) (if len e.1 <=? maxKeyLen then Some e.1 else None) /\ 1 <= len h.
Proof.
  intros (h & Hh & ->) Hl. exists h. split_and!; [done| |by eapply RawHeader_pos]. apply reads_ReadKey_of; [by apply RawHeader_reads|unfold_ints; lia].
Qed.

Lemma step_good e b ks m : good m0 e -> writes e b -> filled m0 ks m ->
  exists m1, reads (decodeEntry msg m) b m1 /\ filled m0 (e.1 :: ks) m1 /\ 2 <= len b.
Proof.
  intros [(f & Hf & Ek & (s & Hs & Hd) & Hb)|(Hk & Hl & Hv)] Hw Hm.
  - pose proof (keys_short f Hf) as Hshort. rewrite <- Ek in Hshort. unfold maxKeyLen in Hshort.
    destruct (writes_key e b Hw ltac:(unfold MaxInt32; lia)) as (h & -> & Hr & Hp). rewrite (proj2 (Z.leb_le _ _)) in Hr by (unfold maxKeyLen; lia).
    destruct (denotes_reads _ _ _ _ (m0_typed f Hf) Hd Hs Hb) as (a & Ha & Hat & Hn).
    destruct (known_field f m Hf) as (read & store & Ed & Er & Hst). destruct (Hst a Hat) as [Hget Hother].
    exists (store a). split_and!.
    + rewrite app_assoc. eapply reads_entry_of; [exact Hr|]. rewrite Ek, Ed. eapply reads_ext; [by intros; apply Er|]. by apply reads_setting.
    + intros f' Hf'. destruct (decide (f_key f' = f_key f)) as [E|E].
      * rewrite E, Hget, decide_True by (rewrite Ek; apply elem_of_cons; by left). done.
      * rewrite Hother by done. rewrite (Hm f' Hf'). f_equal. f_equal. apply decide_ext. rewrite elem_of_cons.
        split; [by right|]. intros [Hx|Hx]; [|done]. exfalso. apply E, str2b_inj. by rewrite Hx.
    + rewrite !len_app. pose proof (Scalar_pos _ _ Hs). pose proof (len_nonneg e.1). lia.
  - destruct (writes_key e b Hw Hl) as (h & -> & Hr & Hp). exists m. split_and!.
    + rewrite app_assoc. eapply reads_entry_of; [exact Hr|].
      assert (En : decodeField m (if len e.1 <=? maxKeyLen then Some e.1 else None) = None).
      { apply unknown_field. destruct (len e.1 <=? maxKeyLen); [done|]. cbn. intros (f & E & Hf)%list_elem_of_fmap.
        apply keys_short in Hf. rewrite <- E in Hf. by destruct Hf. }
      rewrite En. split; [done|by apply Extra_Value].
    + intros f Hf. rewrite (Hm f Hf). f_equal. f_equal. apply decide_ext. rewrite elem_of_cons. split; [by right|]. intros [Hx|Hx]; [|done].
      exfalso. apply Hk. rewrite <- Hx, b2str_str2b. apply list_elem_of_fmap. by exists f.
    + rewrite !len_app. pose proof (Value_pos _ _ (Extra_Value _ Hv)). pose proof (len_nonneg e.1). lia.
Qed.

Lemma filled_ext ks ks' m : (forall k, k ∈ ks <-> k ∈ ks') -> filled m0 ks m -> filled m0 ks' m.
Proof. intros He Hm f Hf. rewrite (Hm f Hf). f_equal. f_equal. by apply decide_ext. Qed.

Lemma steps_good es bs ks m : Forall (good m0) es -> Forall2 writes es bs -> filled m0 ks m ->
  exists m', Steps msg m bs m' /\ filled m0 (map fst es ++ ks) m' /\ Forall (fun b : bytes => 2 <= len b) bs.
Proof.
  intros Hes Hbs. revert ks m. induction Hbs as [|e b es bs Hw Hbs IH]; intros ks m Hm.
  { exists m. split_and!; [apply Steps_nil|done|done]. }
  inversion Hes as [|? ? He Hes']; subst. destruct (step_good e b ks m He Hw Hm) as (m1 & Hr & Hm1 & Hl).
  destruct (IH Hes' _ _ Hm1) as (m' & HS & Hm' & Hls). exists m'. split_and!; [eapply Steps_cons; [lia|done|done]| |by constructor].
  eapply filled_ext; [|exact Hm']. intros k. cbn [map]. rewrite !elem_of_app, !elem_of_cons. tauto.
Qed.

Lemma filled_zero : filled m0 [] zero.
Proof. intros f Hf. by rewrite decide_False by apply not_elem_of_nil. Qed.

Lemma zero_unique t a b : typed t a -> typed t b -> isZero a = true -> isZero b = true -> nilled a = nilled b.
Proof.
  destruct t, a as [v|v|v|v], b as [w|w|w|w]; cbn [typed isZero nilled]; try done; intros _ _ Ha Hb;
    rewrite ?Z.eqb_eq, ?String.eqb_eq in *; try congruence.
  - by destruct v, w.
  - unfold emptyAsNil. by rewrite Ha, Hb.
  - unfold emptyAsNil. by rewrite Ha, Hb.
Qed.

Lemma filled_all ks m : filled m0 ks m ->
  (forall f, f ∈ fields -> str2b (f_key f) ∈ ks \/ isZero (get m0 (f_key f)) = true) ->
  forall f, f ∈ fields -> nilled (get m (f_key f)) = nilled (get m0 (f_key f)).
Proof.
  intros Hm Hks f Hf. rewrite (Hm f Hf). destruct (decide _) as [|Hn]; [done|]. destruct (Hks f Hf) as [|Hz]; [done|].
  destruct (zero_field f Hf). by apply (zero_unique (f_type f)); [|apply m0_typed|..].
Qed.

(** A boolean whose integer was widened is refused. *)
Definition widened (e : entry) : Prop :=
  exists f, f ∈ fields (M := M) /\ e.1 = str2b (f_key f) /\ spells m0 f e.2 /\ f_type f = FBool /\ len e.2 <> 1.

Lemma widened_refused e b m : widened e -> writes e b ->
  2 <= len b /\ forall d rest, dec_ok d -> pending d = b ++ rest -> exists err, decodeEntry msg m d = Err err.
Proof.
  intros (f & Hf & Ek & (s & Hs & Hd) & Ht & Hl) Hw.
  pose proof (keys_short f Hf) as Hshort. rewrite <- Ek in Hshort. unfold maxKeyLen in Hshort.
  destruct (writes_key e b Hw ltac:(unfold MaxInt32; lia)) as (h & -> & Hr & Hp). rewrite (proj2 (Z.leb_le _ _)) in Hr by (unfold maxKeyLen; lia).
  split; [rewrite !len_app; pose proof (Scalar_pos _ _ Hs); pose proof (len_nonneg e.1); lia|].
  destruct (known_field f m Hf) as (read & store & Ed & Er & _). rewrite Ht in *.
  destruct (get m0 (f_key f)) as [| b0 | |]; try done. destruct s as [i|b'| |]; cbn in Hd; try done; inversion Hs as [? ? He| | |]; subst.
  2: { match goal with Hx : [_] = e.2 |- _ => by rewrite <- Hx in Hl end. }
  intros d rest Hdok E. rewrite app_assoc, <- app_assoc in E. unfold decodeEntry. rewrite (Hr d _ Hdok E). cbn [rmap_err rbind].
  rewrite Ek, Ed, Er. unfold setting at 1. cbn [decV].
  destruct (proj2 (IntEnc_bool _ _ He) Hl (consume (len (h ++ e.1)) d) rest) as [err Eerr]; [by eapply dec_ok_consume_app|by eapply pending_consume_app|].
  rewrite <- Ek. unfold setting. rewrite Eerr. cbn. eauto.
Qed.
End Filling.

(** *** The rewritten message *)

Lemma announces_sized c w n : (c = 0xde /\ w = 2%nat) \/ (c = 0xdf /\ w = 4%nat) -> 0 <= n < 65536 -> announces (z2b c :: be w n) n.
Proof.
  intros Hc Hn d rest Hd E Hl. rewrite ReadMapHeader_eq.
  assert (Hr : reads mapCount (z2b c :: be w n) (n, true)).
  { unfold mapCount. apply reads_cons. cbv zeta. open_formats. destruct Hc as [[-> ->]|[-> ->]]; eval_ifs.
    - eapply reads_last; [apply (reads_fixed 2); [done|lia]|]. rewrite Z.mod_small by (cbn; lia). replace (n >? MaxInt32) with false by (unfold_ints; lia). apply reads_ret.
    - eapply reads_last; [apply (reads_fixed 4); [done|lia]|]. rewrite Z.mod_small by (cbn; lia). replace (n >? MaxInt32) with false by (unfold_ints; lia). apply reads_ret. }
  rewrite (Hr d rest Hd E). cbn [rbind fst snd andb]. rewrite Remaining_eq by (by eapply dec_ok_consume_app).
  rewrite (pending_consume_app d _ rest Hd E). assert (n <= len rest / 2) by (apply Z.div_le_lower_bound; lia).
  replace (_ && _) with false by (destruct (d_src _); lia). done.
Qed.

Lemma omap_len {A B} (h : A -> option B) l : len (omap h l) <= len l.
Proof. induction l as [|x l IH]; [done|]. cbn. destruct (h x); rewrite ?len_cons; lia. Qed.

Lemma Scalar_len s v : Scalar s v -> len v <= 2147483660.
Proof.
  intros [i e He|b|p h Hh Hp|]; try done.
  - destruct (IntEnc_first _ _ He) as (c & e' & -> & Hl & _). lia.
  - destruct (RawHeader_first _ _ Hh) as (c & h' & -> & Hl & _). rewrite len_app. unfold MaxInt32 in Hp. lia.
Qed.

Section Rewritten.
Context {M : Type} `{SL : SchemaLaws M} (m0 : M).
Hypothesis m0_typed : forall f, f ∈ fields (M := M) -> typed (f_type f) (get m0 (f_key f)).

Definition plain (e : string * bytes) : Prop :=
  exists f, f ∈ fields (M := M) /\ e = (f_key f, encV (f_type f) (get m0 (f_key f))).

Lemma entriesOf_plain : Forall plain (entriesOf m0).
Proof.
  apply Forall_forall. intros e (f & Hf & E)%list_elem_of_omap. destruct (_ && _); [done|]. injection E as <-. by exists f.
Qed.

Lemma entriesOf_keys f : f ∈ fields (M := M) -> str2b (f_key f) ∈ map (fun e => str2b e.1) (entriesOf m0) \/ isZero (get m0 (f_key f)) = true.
Proof.
  intros Hf. destruct (isZero (get m0 (f_key f))) eqn:Ez; [by right|]. left. apply list_elem_of_fmap.
  exists (f_key f, encV (f_type f) (get m0 (f_key f))). split; [done|]. apply list_elem_of_omap. exists f. split; [done|]. by rewrite Ez, andb_false_r.
Qed.

Lemma encodeEntries_bound es : Forall plain es -> len (encodeEntries es) <= 2147484000 * len es.
Proof.
  induction 1 as [|e es (f & Hf & ->) Hes IH]; [done|]. rewrite encodeEntries_concat in *. cbn [map concat fst snd].
  rewrite !len_app, len_cons. destruct (encV_scalar _ _ (m0_typed f Hf)) as (s & Hs & _). pose proof (Scalar_len _ _ Hs).
  pose proof (keys_short f Hf) as Hk. unfold maxKeyLen in Hk.
  assert (len (AppendString [] (f_key f)) <= 69); [|lia]. unfold AppendString. rewrite len_app.
  destruct (RawHeader_first _ _ (appendRawHeader_RawHeader (len (str2b (f_key f))) ltac:(lia))) as (c & h' & -> & Hl & _). lia.
Qed.

(** What the steps of rewriting keep. *)
Definition kept (n : Z) (es : list entry) : Prop :=
  Forall (good m0) es /\ len es <= n /\ forall f, f ∈ fields -> str2b (f_key f) ∈ map fst es \/ isZero (get m0 (f_key f)) = true.

(** What decoding the rewritten map gives, in either mode. *)
Definition tolerated (msg : string) (alt : bytes) : Prop :=
  forall d, dec_ok d -> pending d = alt ->
  match decodeMap msg zero d with
  | Ok (m, d') => pending d' = [] /\ forall f, f ∈ fields -> nilled (get m (f_key f)) = nilled (get m0 (f_key f))
  | Err _ => exists f, f ∈ fields (M := M) /\ f_type f = FBool
  end.

Lemma kept_tolerated msg n es h bs : kept n es -> announces h (len es) -> Forall2 writes es bs -> tolerated msg (h ++ concat bs).
Proof.
  intros (Hg & _ & Hk) Hh Hbs d Hd E. destruct (steps_good msg m0 m0_typed es bs [] zero Hg Hbs (filled_zero m0)) as (m & HS & Hm & Hl).
  replace (len es) with (len bs) in Hh by (unfold len; by rewrite (Forall2_length _ _ _ Hbs)).
  pose proof (reads_map_of msg zero m h bs Hh HS (entries_len bs Hl)) as Hr.
  rewrite (Hr d [] Hd) by (by rewrite app_nil_r). split.
  - apply (pending_consume_app d _ []); [done|by rewrite app_nil_r].
  - apply (filled_all m0 m0_typed _ _ Hm). intros f Hf. rewrite app_nil_r. by apply Hk.
Qed.

Lemma widened_tolerated msg n e es h bs : widened m0 e -> kept n es -> announces h (len (e :: es)) -> Forall2 writes (e :: es) bs ->
  tolerated msg (h ++ concat bs).
Proof.
  intros Hw (Hg & _ & Hk) Hh Hbs d Hd E. inversion Hbs as [|? b ? bs' Hb Hbs']; subst.
  destruct (widened_refused msg m0 e b zero Hw Hb) as [Hlb Hfail].
  destruct (steps_good msg m0 m0_typed es bs' [] zero Hg Hbs' (filled_zero m0)) as (_ & _ & _ & Hl). pose proof (entries_len bs' Hl).
  assert (Elen : len es = len bs') by (unfold len; by rewrite (Forall2_length _ _ _ Hbs')).
  cbn [concat] in E. unfold decodeMap. rewrite (Hh d (b ++ concat bs') Hd E) by (rewrite len_cons, len_app; lia). cbn [rmap_err rbind].
  cbn [repeatR]. pose proof (len_nonneg es). rewrite (proj2 (Z.leb_gt _ _)) by (rewrite len_cons; lia).
  destruct (Hfail (consume (len h) d) (concat bs')) as [err ->]; [by eapply dec_ok_consume_app|by eapply pending_consume_app|].
  cbn [rbind]. destruct Hw as (f & Hf & _ & _ & Ht & _). by exists f.
Qed.

Lemma good_short e : good m0 e -> len e.1 <= MaxInt32.
Proof.
  intros [(f & Hf & -> & _)|(_ & H1 & _)]; [|done]. pose proof (keys_short f Hf) as Hx. unfold maxKeyLen, MaxInt32 in *. lia.
Qed.

End Rewritten.

Lemma AppendMsgpack_bound_of {M} `{Schema M} `{FieldDecoder M} (mk : M -> message) k msg `{!WireSchema M mk k msg} (m : M) :
  valid (mk m) -> len (AppendMsgpack (mk m) []) <= MaxInt64.
Proof.
  intros Hv. pose proof (ws_laws (mk := mk)) as Hlaws. rewrite (ws_encode (mk := mk)). unfold encodeFields. rewrite len_app.
  assert (Hn : len (entriesOf m) <= len (fields (M := M))) by apply omap_len. pose proof (fields_few (M := M)). pose proof (len_nonneg (entriesOf m)).
  pose proof (encodeEntries_bound m (proj1 (Forall_forall _ _) (ws_typed (mk := mk) m Hv)) _ (entriesOf_plain m)).
  assert (len (AppendMapHeader [] (len (entriesOf m))) = 1) by (unfold AppendMapHeader; by rewrite (proj2 (Z.ltb_lt _ _)) by lia).
  unfold MaxInt64. lia.
Qed.

Lemma AppendMsgpack_bound m : valid m -> len (AppendMsgpack m []) <= MaxInt64.
Proof.
  destruct m; intros Hv.
  - by apply (AppendMsgpack_bound_of MPing KPing "ping").
  - by apply (AppendMsgpack_bound_of MIndirectPingReq KIndirectPingReq "indirect ping").
  - by apply (AppendMsgpack_bound_of MAckResp KAckResp "ack").
  - by apply (AppendMsgpack_bound_of MNackResp KNackResp "nack").
  - by apply (AppendMsgpack_bound_of MErrResp KErrResp "error response").
  - by apply (AppendMsgpack_bound_of MSuspect KSuspect "suspect").
  - by apply (AppendMsgpack_bound_of MAlive KAlive "alive").
  - by apply (AppendMsgpack_bound_of MDead KDead "dead").
  - by apply (AppendMsgpack_bound_of MPushPullHeader KPushPullHeader "push/pull header").
  - by apply (AppendMsgpack_bound_of MUserMsgHeader KUserMsgHeader "user message header").
  - by apply (AppendMsgpack_bound_of MPushNodeState KPushNodeState "push node state").
  - by apply (AppendMsgpack_bound_of MCompress KCompress "compress").
Qed.

