(* ===== verification/Oracle.v ===== *)
(** The interoperability oracle, [src/internal/wire/testdata/oracle/main.go]:
    drawing messages at random, rewriting an encoding with equivalent
    alternatives, and comparing the codec with the one memberlist peers use,
    which is a parameter.

    The program panics where the model is [None]. The golden vectors it
    writes are left out: they are JSON, which is the standard library's. *)

From S2P Require Import Prelude Msgpack Wire Schema Alternatives NetAddr Nodes.

#[local] Instance Ping_eq_dec : EqDecision Ping.
Proof. solve_decision. Defined.
#[local] Instance IndirectPingReq_eq_dec : EqDecision IndirectPingReq.
Proof. solve_decision. Defined.
#[local] Instance AckResp_eq_dec : EqDecision AckResp.
Proof. solve_decision. Defined.
#[local] Instance NackResp_eq_dec : EqDecision NackResp.
Proof. solve_decision. Defined.
#[local] Instance ErrResp_eq_dec : EqDecision ErrResp.
Proof. solve_decision. Defined.
#[local] Instance Suspect_eq_dec : EqDecision Suspect.
Proof. solve_decision. Defined.
#[local] Instance Alive_eq_dec : EqDecision Alive.
Proof. solve_decision. Defined.
#[local] Instance Dead_eq_dec : EqDecision Dead.
Proof. solve_decision. Defined.
#[local] Instance PushPullHeader_eq_dec : EqDecision PushPullHeader.
Proof. solve_decision. Defined.
#[local] Instance UserMsgHeader_eq_dec : EqDecision UserMsgHeader.
Proof. solve_decision. Defined.
#[local] Instance PushNodeState_eq_dec : EqDecision PushNodeState.
Proof. solve_decision. Defined.
#[local] Instance Compress_eq_dec : EqDecision Compress.
Proof. solve_decision. Defined.
#[global] Instance message_eq_dec : EqDecision message.
Proof. solve_decision. Defined.

(** ** Draws *)

Section Draws.
Context {G : Type} {RG : Rand G}.

Definition draw (A : Type) : Type := G -> option (A * G).
Definition ret {A} (a : A) : draw A := fun g => Some (a, g).
Definition bind {A B} (e : draw A) (k : A -> draw B) : draw B := fun g => '(a, g) ← e g; k a g.
Definition panic {A} : draw A := fun _ => None.
Definition orPanic {A} (e : option A) : draw A := fun g => a ← e; Some (a, g).

Notation "'let~' x ':=' e 'in' k" := (bind e (fun x => k))
  (at level 10, x pattern, e at level 100, k at level 200).

Definition intN (n : Z) : draw Z := fun g => Some (IntN n g).
(** The draws below [n] of [math/rand/v2] share one function. *)
Definition uintN (n : Z) : draw Z := intN n.
Definition uint64N (n : Z) : draw Z := intN n.
Definition uint64 : draw Z := fun g => Some (Uint64 g).
Definition int64 : draw Z := let~ v := uint64 in ret (Z.land v MaxInt64).
Definition heads : draw bool := let~ c := intN 2 in ret (c =? 0).

(** [for range n] *)
Fixpoint times {A} (n : nat) (f : A -> draw A) (a : A) : draw A :=
  match n with
  | O => ret a
  | S n => let~ a := f a in times n f a
  end.

(** ** Values: [gen] *)

Definition genU64 (max : Z) : draw Z :=
  let edges := [0; 1; 31; 32; 127; 128; 255; 256; 32767; 32768; 65535; 65536; MaxInt32; MaxInt32 + 1; MaxUint32; MaxInt64; MaxUint64] in
  let wide :=
    let~ v := if max =? MaxUint64 then uint64 else uint64N (max + 1) in
    let~ s := intN 64 in
    ret (Z.shiftr v s) in
  let~ c := intN 3 in
  if c =? 0 then
    let~ i := intN (len edges) in
    let~ e := orPanic (edges !! Z.to_nat i) in
    if e <=? max then ret e else wide
  else wide.

Definition genInt : draw Z :=
  let edges := [0; 1; -1; 31; 32; -32; -33; 127; 128; -128; -129; 255; 256; 32767; 32768; -32768; -32769; 65535; 65536;
                MaxInt32; MinInt32; MaxInt32 + 1; MinInt32 - 1; MaxInt64; MinInt64] in
  let~ c := intN 3 in
  if c =? 0 then
    let~ i := intN (len edges) in
    orPanic (edges !! Z.to_nat i)
  else
    let~ v := int64 in
    let~ s := intN 64 in
    let v := Z.shiftr v s in
    let~ minus := heads in
    ret (if minus : bool then i64 (- v) else v).

Definition genLength : draw Z :=
  let edges := [0; 1; 15; 16; 31; 32; 33; 255; 256; 65535; 65536] in
  let~ c := intN 4 in
  if c =? 0 then
    let~ i := intN (len edges) in
    let~ n := orPanic (edges !! Z.to_nat i) in
    if n >? 256 then
      let~ r := intN 20 in
      if negb (r =? 0) then intN 64 else ret n
    else ret n
  else intN 64.

(** Filling a buffer of [n] bytes. *)
Definition fill (n : Z) (f : draw Z) : draw bytes :=
  times (Z.to_nat n) (fun b => let~ c := f in ret (b ++ [z2b c])) [].

Definition genBytes : draw slice :=
  let~ c := intN 6 in
  if c =? 0 then ret None
  else if c =? 1 then ret (Some [])
  else
    let~ n := genLength in
    let~ b := fill n (uintN 256) in
    ret (Some b).

Definition genStr : draw string :=
  let~ n := genLength in
  let~ ascii := heads in
  let~ b := fill n (if ascii : bool then let~ c := uintN 95 in ret (32 + c) else uintN 256) in
  ret (b2str b).

Definition boolean : draw bool := heads.

(** [kinds[k].gen]; the mirror structs have the fields of the wire messages, so
    that [conv] and [back] are the identity. *)
Definition genMessage (k : kind) : draw message :=
  let u32v := let~ v := genU64 MaxUint32 in ret (u32 v) in
  let u16v := let~ v := genU64 MaxUint16 in ret (u16 v) in
  match k with
  | KPing =>
      let~ seqNo := u32v in let~ node := genStr in let~ addr := genBytes in let~ port := u16v in let~ src := genStr in
      ret (MPing (MkPing seqNo node addr port src))
  | KIndirectPingReq =>
      let~ seqNo := u32v in let~ target := genBytes in let~ port := u16v in let~ node := genStr in let~ nack := boolean in
      let~ addr := genBytes in let~ sport := u16v in let~ src := genStr in
      ret (MIndirectPingReq (MkIndirectPingReq seqNo target port node nack addr sport src))
  | KAckResp => let~ seqNo := u32v in let~ payload := genBytes in ret (MAckResp (MkAckResp seqNo payload))
  | KNackResp => let~ seqNo := u32v in ret (MNackResp (MkNackResp seqNo))
  | KErrResp => let~ e := genStr in ret (MErrResp (MkErrResp e))
  | KSuspect => let~ inc := u32v in let~ node := genStr in let~ from := genStr in ret (MSuspect (MkSuspect inc node from))
  | KAlive =>
      let~ inc := u32v in let~ node := genStr in let~ addr := genBytes in let~ port := u16v in let~ meta := genBytes in
      let~ vsn := genBytes in
      ret (MAlive (MkAlive inc node addr port meta vsn))
  | KDead => let~ inc := u32v in let~ node := genStr in let~ from := genStr in ret (MDead (MkDead inc node from))
  | KPushPullHeader =>
      let~ nodes := genInt in let~ n := genInt in let~ join := boolean in ret (MPushPullHeader (MkPushPullHeader nodes n join))
  | KUserMsgHeader => let~ n := genInt in ret (MUserMsgHeader (MkUserMsgHeader n))
  | KPushNodeState =>
      let~ name := genStr in let~ addr := genBytes in let~ port := u16v in let~ meta := genBytes in let~ inc := u32v in
      let~ state := genInt in let~ vsn := genBytes in
      ret (MPushNodeState (MkPushNodeState name addr port meta inc state vsn))
  | KCompress =>
      let~ algo := genU64 MaxUint8 in let~ buf := genBytes in ret (MCompress (MkCompress (u8 algo) buf))
  end.

(** ** Alternative encodings *)

Definition appendIntAlt (i : Z) : draw bytes :=
  let u := u64 i in
  let fit := List.filter snd (intFormats i) in
  let~ j := intN (len fit) in
  let~ (c, n, _) := orPanic (fit !! Z.to_nat j) in
  ret (match n with O => [z2b i] | _ => z2b c :: be n u end).

(** What [appendRaw] appends. *)
Definition appendRaw (out b : bytes) (bin : bool) : draw bytes :=
  let n := len b in
  let low := [z2b n] in
  let two := [z2b (Z.shiftr n 8); z2b n] in
  let four := [z2b (Z.shiftr n 24); z2b (Z.shiftr n 16); z2b (Z.shiftr n 8); z2b n] in
  let long := if bin then out ++ z2b 0xc6 :: four else out ++ z2b 0xdb :: four in
  let~ out :=
    if bin then
      let~ small := if n <? 256 then heads else ret false in
      if small : bool then ret (out ++ z2b 0xc4 :: low)
      else
        let~ medium := if n <? 65536 then heads else ret false in
        if medium : bool then ret (out ++ z2b 0xc5 :: two) else ret long
    else
      let~ tiny := if n <? 32 then heads else ret false in
      if tiny : bool then ret (out ++ [z2b (Z.lor 0xa0 n)])
      else
        let~ small := if n <? 256 then heads else ret false in
        if small : bool then ret (out ++ z2b 0xd9 :: low)
        else
          let~ medium := if n <? 65536 then heads else ret false in
          if medium : bool then ret (out ++ z2b 0xda :: two) else ret long in
  ret (out ++ b).

(** [more] is three less the depth. *)
Fixpoint randomValue (more : nat) : draw bytes :=
  let~ k := intN 8 in
  let other :=
    if k =? 2 then ret (map z2b [0xcb; 0x40; 0x09; 0x21; 0xfb; 0x54; 0x44; 0x2d; 0x18])
    else if k =? 3 then ret [z2b 0xc0]
    else if k =? 4 then let~ bin := heads in appendRaw [] (str2b "some text") bin
    else let~ i := genInt in appendIntAlt i in
  match more with
  | O => other
  | S more =>
      if k =? 0 then
        let~ n := intN 4 in
        times (Z.to_nat n) (fun out => let~ v := randomValue more in ret (out ++ v)) [z2b (Z.lor 0x90 n)]
      else if k =? 1 then
        let~ n := intN 4 in
        times (Z.to_nat n) (fun out =>
          let~ d := intN 9 in
          let~ out := appendRaw out (str2b "k" ++ [z2b (48 + d)]) false in
          let~ v := randomValue more in ret (out ++ v)) [z2b (Z.lor 0x80 n)]
      else other
  end.

Definition altValue (v : bytes) : draw bytes :=
  match v with
  | [] => panic
  | cb :: _ =>
      let c := b2z cb in
      if (c =? 0xc2) || (c =? 0xc3) then
        let~ r := intN 3 in
        ret (if r =? 0 then [z2b (c - 0xc2)] else v)
      else if (c <=? 0x7f) || (c >=? 0xe0) || ((c >=? 0xcc) && (c <=? 0xd3)) then
        match ReadInt MinInt64 MaxInt64 (NewDecoder v) with
        | Err _ => ret v
        | Ok (i, _) => appendIntAlt i
        end
      else if ((c >=? 0xa0) && (c <=? 0xbf)) || (c =? 0xd9) || (c =? 0xda) || (c =? 0xdb) || ((c >=? 0xc4) && (c <=? 0xc6)) then
        match ReadBytes MaxInt32 (NewDecoder v) with
        | Err _ => panic
        | Ok (b, _) =>
            let b := slice_bytes b in
            let~ r := if len b =? 0 then intN 4 else ret 1 in
            if r =? 0 then ret [z2b 0xc0]
            else let~ bin := heads in appendRaw [] b bin
        end
      else ret v
  end.

(** The entries of the map, with their values rewritten. *)
Fixpoint readEntries (n : nat) (b : bytes) (d : decoder) (entries : list entry) : draw (list entry) :=
  match n with
  | O => ret entries
  | S n =>
      match ReadKey d with
      | Err _ => panic
      | Ok (k, d) =>
          let start := len b - Remaining d in
          match Skip d with
          | Err _ => panic
          | Ok (_, d) =>
              let~ v := altValue (subslice b start (len b - Remaining d)) in
              readEntries n b d (entries ++ [(slice_bytes k, v)])
          end
      end
  end.

Definition mapHeaderAlt (n : Z) : draw bytes :=
  let~ short := if n <? 16 then heads else ret false in
  if short : bool then ret [z2b (Z.lor 0x80 n)]
  else
    let~ medium := heads in
    ret (if medium : bool then [z2b 0xde; z2b (Z.shiftr n 8); z2b n]
         else [z2b 0xdf; z2b 0; z2b 0; z2b (Z.shiftr n 8); z2b n]).

Fixpoint appendEntries (out : bytes) (entries : list entry) : draw bytes :=
  match entries with
  | [] => ret out
  | (key, val) :: entries =>
      let~ bin := heads in
      let~ out := appendRaw out key bin in
      appendEntries (out ++ val) entries
  end.

Definition reencode (b : bytes) : draw bytes :=
  match ReadMapHeader (NewDecoder b) with
  | Err _ => panic
  | Ok (n, d) =>
      let~ entries := readEntries (Z.to_nat n) b d [] in
      let~ entries := fun g => Some (shuffleNodes entries g) in
      let~ r := intN 3 in
      let~ entries :=
        if r =? 0 then
          let~ x := intN 80 in
          let~ v := randomValue 3 in
          ret (entries ++ [(str2b "Unknown" ++ replicate (Z.to_nat x) (ch "x"), v)])
        else ret entries in
      let~ r := if len entries >? 0 then intN 4 else ret 1 in
      let~ entries :=
        if r =? 0 then
          let~ i := intN (len entries) in
          let~ e := orPanic (entries !! Z.to_nat i) in
          let~ v := altValue e.2 in
          ret ((e.1, v) :: entries)
        else ret entries in
      let~ out := mapHeaderAlt (len entries) in
      appendEntries out entries
  end.

(** ** The comparison: the loop of [main] *)

Context (goEncode : message -> bytes) (goDecode : kind -> bytes -> option message).

Inductive verdict :=
| EncodeDiffers
| PeerRefusesItself
| WireRefuses
| DecodeDiffers
| AltDiffers
| AltRefusedByOne
| Agreed.

Definition checkMessage (k : kind) : draw verdict :=
  let~ v := genMessage k in
  let want := goEncode v in
  if negb (bool_decide (want = AppendMsgpack v [])) then ret EncodeDiffers
  else
    match goDecode k want, DecodeMsgpack k (NewDecoder want) with
    | None, _ => ret PeerRefusesItself
    | Some _, Err _ => ret WireRefuses
    | Some goVal, Ok (w, _) =>
        if negb (bool_decide (w = goVal)) then ret DecodeDiffers
        else
          let~ alt := reencode want in
          ret (match goDecode k alt, DecodeMsgpack k (NewDecoder alt) with
               | Some goAlt, Ok (wAlt, _) => if bool_decide (wAlt = goAlt) then Agreed else AltDiffers
               | None, Err _ => Agreed
               | _, _ => AltRefusedByOne
               end)
    end.

(** The three counters of a kind: encodings, decodings and alternatives. *)
Definition score (v : verdict) : Z * Z * Z :=
  match v with
  | EncodeDiffers => (0, 0, 0)
  | PeerRefusesItself | WireRefuses | DecodeDiffers => (1, 0, 0)
  | AltDiffers | AltRefusedByOne => (1, 1, 0)
  | Agreed => (1, 1, 1)
  end.

Definition failed (v : verdict) : Z := match v with Agreed => 0 | _ => 1 end.

Definition kinds : list kind :=
  [KPing; KIndirectPingReq; KAckResp; KNackResp; KErrResp; KSuspect; KAlive; KDead; KPushPullHeader; KUserMsgHeader; KPushNodeState; KCompress].

Definition checkKind (n : nat) (k : kind) (failures : Z) : draw (Z * Z * Z * Z) :=
  times n (fun '(e, d, a, failures) =>
    let~ v := checkMessage k in
    let '(e', d', a') := score v in
    ret (e + e', d + d', a + a', failures + failed v)) (0, 0, 0, failures).

(** The counters of each kind and whether the run passes. *)
Fixpoint checkKinds (n : nat) (ks : list kind) (stats : list (kind * (Z * Z * Z))) (failures : Z) : draw (list (kind * (Z * Z * Z)) * bool) :=
  match ks with
  | [] => ret (stats, negb (failures >? 0))
  | k :: ks =>
      let~ (st, failures) := checkKind n k failures in
      checkKinds n ks (stats ++ [(k, st)]) failures
  end.

Definition oracle (n : nat) : draw (list (kind * (Z * Z * Z)) * bool) := checkKinds n kinds [] 0.
End Draws.

(** ** Specification *)

(** Every draw gives a value, which satisfies [P]. *)
Definition gives {G A} (e : draw (G := G) A) (P : A -> Prop) : Prop := forall g, exists a g', e g = Some (a, g') /\ P a.

(** ** Lemmas *)

(** *** Draws *)

Section Giving.
Context {G : Type} {RG : Rand G} {RL : RandLaws G}.

Lemma gives_ret {A} (a : A) (P : A -> Prop) : P a -> gives (ret (G := G) a) P.
Proof. intros H g. by exists a, g. Qed.

Lemma gives_bind {A B} (e : draw (G := G) A) (k : A -> draw B) P Q :
  gives e P -> (forall a, P a -> gives (k a) Q) -> gives (bind e k) Q.
Proof. intros He Hk g. destruct (He g) as (a & g' & E & Ha). unfold bind. rewrite E. cbn [mbind option_bind]. by apply Hk. Qed.

Lemma gives_weaken {A} (e : draw (G := G) A) (P Q : A -> Prop) : gives e P -> (forall a, P a -> Q a) -> gives e Q.
Proof. intros He HPQ g. destruct (He g) as (a & g' & E & Ha). eauto. Qed.

Lemma gives_assoc {A B C} (e : draw (G := G) A) (f : A -> draw B) (k : B -> draw C) P :
  gives (bind (bind e f) k) P -> gives (bind e (fun a => bind (f a) k)) P.
Proof. intros Hx g. destruct (Hx g) as (c & g' & E & Hc). exists c, g'. split; [|done]. rewrite <- E. unfold bind. by destruct (e g) as [[]|]. Qed.

Lemma gives_intN n : 0 < n -> gives (G := G) (intN n) (fun v => 0 <= v < n).
Proof. intros Hn g. destruct (IntN n g) as [v g'] eqn:E. exists v, g'. split; [by unfold intN; rewrite E|]. pose proof (IntN_range n g Hn) as H. by rewrite E in H. Qed.

Lemma gives_heads : gives (G := G) heads (fun _ => True).
Proof. eapply gives_bind; [by apply gives_intN|]. intros. by apply gives_ret. Qed.

Lemma gives_heads_if (b : bool) : gives (G := G) (if b then heads else ret false) (fun r => r = true -> b = true).
Proof. destruct b; [eapply gives_weaken; [apply gives_heads|done]|by apply gives_ret]. Qed.

Lemma gives_index {A} (l : list A) i : 0 <= i < len l -> gives (G := G) (orPanic (l !! Z.to_nat i)) (fun a => a ∈ l).
Proof.
  intros Hi g. destruct (lookup_lt_is_Some_2 l (Z.to_nat i)) as [a E]; [unfold len in Hi; lia|].
  exists a, g. split; [by unfold orPanic; rewrite E|]. by eapply list_elem_of_lookup_2.
Qed.

Lemma gives_times {A} (P : nat -> A -> Prop) n (f : A -> draw (G := G) A) i a :
  P i a -> (forall j a, P j a -> gives (f a) (P (S j))) -> gives (times n f a) (P (n + i)%nat).
Proof.
  intros Ha Hf. revert i a Ha. induction n as [|n IH]; intros i a Ha; [by apply gives_ret|]. cbn [times].
  eapply gives_bind; [by apply Hf|]. intros a' Ha'. replace (S n + i)%nat with (n + S i)%nat by lia. by apply IH.
Qed.

(** *** Drawn values are in range *)

Lemma gives_genU64 max : 0 <= max <= MaxUint64 -> gives (G := G) (genU64 max) (fun v => 0 <= v <= max).
Proof.
  intros Hm. unfold genU64. set (wide := bind (if _ : bool then _ else _) _). assert (Hw : gives wide (fun v => 0 <= v <= max)).
  { eapply (gives_bind _ _ (fun v => 0 <= v <= max)).
    - destruct (Z.eqb_spec max MaxUint64) as [->|].
      + intros g. destruct (Uint64 g) as [v g'] eqn:E. exists v, g'. split; [by unfold uint64; rewrite E|]. pose proof (Uint64_range g) as H. by rewrite E in H.
      + eapply gives_weaken; [apply gives_intN; lia|]. cbn. lia.
    - intros v Hv. eapply gives_bind; [apply gives_intN; lia|]. intros s Hs. cbn beta in *. apply gives_ret.
      rewrite Z.shiftr_div_pow2 by lia. pose proof (Z.pow_pos_nonneg 2 s). split; [apply Z.div_pos; lia|].
      etransitivity; [apply Z.div_le_upper_bound with (q := v); nia|lia]. }
  eapply gives_bind; [apply gives_intN; lia|]. intros c _. destruct (c =? 0); [|done].
  eapply gives_bind; [apply gives_intN; by vm_compute|]. intros i Hi. eapply gives_bind; [by apply gives_index|].
  intros e He. cbn beta in *. destruct (Z.leb_spec e max); [|done]. apply gives_ret. split; [|done].
  repeat (apply elem_of_cons in He as [->|He]; [unfold int_ok in *; unfold_ints; lia|]). by apply not_elem_of_nil in He.
Qed.

Lemma gives_genInt : gives (G := G) genInt int_ok.
Proof.
  unfold genInt. eapply gives_bind; [apply gives_intN; lia|]. intros c _. destruct (c =? 0).
  - eapply gives_bind; [apply gives_intN; by vm_compute|]. intros i Hi. eapply gives_weaken; [by apply gives_index|].
    intros e He. cbn beta in *. repeat (apply elem_of_cons in He as [->|He]; [unfold int_ok in *; unfold_ints; lia|]). by apply not_elem_of_nil in He.
  - eapply (gives_bind _ _ (fun v => 0 <= v <= MaxInt64)).
    { eapply (gives_bind _ _ (fun v => 0 <= v <= MaxUint64)).
      - intros g. destruct (Uint64 g) as [v g'] eqn:E. exists v, g'. split; [by unfold uint64; rewrite E|]. pose proof (Uint64_range g) as H. by rewrite E in H.
      - intros v Hv. apply gives_ret. change MaxInt64 with (Z.ones 63). rewrite Z.land_ones by lia.
        pose proof (Z.mod_pos_bound v (2 ^ 63)). change (Z.ones 63) with (2 ^ 63 - 1). lia. }
    intros v Hv. eapply gives_bind; [apply gives_intN; lia|]. intros s Hs. cbn beta in *.
    eapply gives_bind; [apply gives_heads|]. intros minus _. apply gives_ret.
    assert (Hd : 0 <= Z.shiftr v s <= v).
    { rewrite Z.shiftr_div_pow2 by lia. pose proof (Z.pow_pos_nonneg 2 s). split; [apply Z.div_pos; lia|apply Z.div_le_upper_bound; nia]. }
    unfold int_ok. destruct minus; [rewrite i64_small|]; unfold_ints; lia.
Qed.

Lemma gives_genLength : gives (G := G) genLength (fun n => 0 <= n <= 65536).
Proof.
  assert (H64 : gives (G := G) (intN 64) (fun n => 0 <= n <= 65536)) by (eapply gives_weaken; [apply gives_intN; lia|cbn; lia]).
  unfold genLength. eapply gives_bind; [apply gives_intN; lia|]. intros c _. destruct (c =? 0); [|done].
  eapply gives_bind; [apply gives_intN; by vm_compute|]. intros i Hi. eapply gives_bind; [by apply gives_index|].
  intros n Hn. assert (0 <= n <= 65536).
  { repeat (apply elem_of_cons in Hn as [->|Hn]; [lia|]). by apply not_elem_of_nil in Hn. }
  destruct (n >? 256); [|by apply gives_ret]. eapply gives_bind; [apply gives_intN; lia|]. intros r _.
  destruct (negb _); [done|by apply gives_ret].
Qed.

Lemma gives_fill n (f : draw (G := G) Z) P : 0 <= n -> gives f P -> gives (fill n f) (fun b => len b = n).
Proof.
  intros Hn Hf. unfold fill. eapply gives_weaken.
  - apply (gives_times (fun i b => len b = Z.of_nat i) _ _ 0%nat); [done|]. intros j b Hb. eapply gives_bind; [exact Hf|].
    intros c _. apply gives_ret. rewrite len_app, len_cons, len_nil. lia.
  - cbn beta. intros b ->. lia.
Qed.

Lemma gives_genBytes : gives (G := G) genBytes (fun p => len (slice_bytes p) <= 65536).
Proof.
  unfold genBytes. eapply gives_bind; [apply gives_intN; lia|]. intros c _.
  destruct (c =? 0); [by apply gives_ret|]. destruct (c =? 1); [by apply gives_ret|].
  eapply gives_bind; [apply gives_genLength|]. intros n Hn. cbn beta in *.
  eapply gives_bind; [apply (gives_fill _ _ (fun _ => True)); [lia|]|intros b Hb; apply gives_ret; cbn in *; lia].
  eapply gives_weaken; [by apply gives_intN|done].
Qed.

Lemma gives_genStr : gives (G := G) genStr (fun s => len (str2b s) <= 65536).
Proof.
  unfold genStr. eapply gives_bind; [apply gives_genLength|]. intros n Hn. cbn beta in *. eapply gives_bind; [apply gives_heads|]. intros ascii _.
  eapply gives_bind; [apply (gives_fill _ _ (fun _ => True)); [lia|]|intros b Hb; apply gives_ret; rewrite str2b_b2str; cbn beta in *; lia].
  destruct ascii; [eapply gives_bind; [by apply gives_intN|intros; by apply gives_ret]|eapply gives_weaken; [by apply gives_intN|done]].
Qed.

Lemma gives_genMessage k : gives (G := G) (genMessage k) (fun m => kind_of m = k /\ valid m).
Proof.
  assert (Hu32 : gives (G := G) (bind (genU64 MaxUint32) (fun v => ret (u32 v))) u32_ok).
  { eapply gives_bind; [by apply gives_genU64|]. intros v Hv. apply gives_ret. unfold u32_ok in *. cbn beta in *. ints. }
  assert (Hu16 : gives (G := G) (bind (genU64 MaxUint16) (fun v => ret (u16 v))) u16_ok).
  { eapply gives_bind; [by apply gives_genU64|]. intros v Hv. apply gives_ret. unfold u16_ok in *. cbn beta in *. ints. }
  assert (Hb : gives (G := G) genBytes (fun p => bytes_ok p /\ cbytes_ok p)).
  { eapply gives_weaken; [apply gives_genBytes|]. intros p Hp. unfold bytes_ok, cbytes_ok. change MaxFieldBytes with 1048576. change MaxCompressedBytes with 67108864. cbn beta in *. lia. }
  assert (Hs : gives (G := G) genStr str_ok).
  { eapply gives_weaken; [apply gives_genStr|]. intros p Hp. unfold str_ok. change MaxFieldBytes with 1048576. cbn beta in *. lia. }
  pose proof gives_genInt as Hi. pose proof gives_heads as Hh.
  unfold genMessage, boolean. destruct k; cbv zeta;
    repeat (eapply gives_bind; [first [exact Hu32|exact Hu16|exact Hb|exact Hs|exact Hi|exact Hh|by apply gives_genU64]|intros]);
    apply gives_ret; split; [reflexivity|..]; cbn beta in *; cbn [valid];
    unfold Ping_valid, IndirectPingReq_valid, AckResp_valid, NackResp_valid, ErrResp_valid, Suspect_valid, Alive_valid, Dead_valid,
      PushPullHeader_valid, UserMsgHeader_valid, PushNodeState_valid, Compress_valid; cbn -[u8 u16 u32]; intuition.
  unfold u8_ok. ints.
Qed.
End Giving.

(** *** Drawing alternatives *)

Section Alternatives.
Context {G : Type} {RG : Rand G} {RL : RandLaws G}.

Lemma gives_appendIntAlt i : int_ok i -> gives (G := G) (appendIntAlt i) (IntEnc i).
Proof.
  intros Hi. unfold appendIntAlt. cbv zeta. set (fit := List.filter snd (intFormats i)).
  assert (Hf : forall f, f ∈ fit -> f ∈ intFormats i /\ f.2 = true) by (intros f; unfold fit; rewrite list_elem_of_In, filter_In, list_elem_of_In; done).
  assert (Hlen : 0 < len fit).
  { assert (H : (0xd3, 8%nat, true) ∈ fit) by (unfold fit; rewrite list_elem_of_In, filter_In, <- list_elem_of_In; split; [unfold int_ok in Hi; fits_format|done]).
    destruct fit; [by apply not_elem_of_nil in H|]. rewrite len_cons. pose proof (len_nonneg fit). lia. }
  eapply gives_bind; [by apply gives_intN|]. intros j Hj. eapply gives_bind; [by apply gives_index|].
  intros [[c n] b] Hin. apply Hf in Hin as [Hin Hb]. cbn in Hb. subst b. destruct n as [|w]; apply gives_ret; [|by apply IE_wide].
  apply IE_fix. unfold intFormats in Hin.
  repeat (apply elem_of_cons in Hin as [Hin|Hin]; [first [discriminate Hin|injection Hin as Ec Eb; lia]|]). by apply not_elem_of_nil in Hin.
Qed.

Lemma gives_appendRaw out b bin : len b < 4294967296 ->
  gives (G := G) (appendRaw out b bin) (fun r => exists h, RawHeader (len b) h /\ r = out ++ h ++ b).
Proof.
  intros Hb. pose proof (len_nonneg b) as Hn. unfold appendRaw. cbv zeta.
  assert (Hl : forall c w e, sized_payload c w 0 -> len b < 256 ^ Z.of_nat w -> e = z2b c :: be w (len b) ->
    exists h, RawHeader (len b) h /\ out ++ e = out ++ h) by (intros c w e Hc Hw ->; exists (z2b c :: be w (len b)); split; [by apply RH_sized|done]).
  eapply (gives_bind _ _ (fun r => exists h, RawHeader (len b) h /\ r = out ++ h)).
  2: { intros r (h & Hh & ->). apply gives_ret. exists h. by rewrite <- app_assoc. }
  destruct bin.
  - eapply gives_bind; [apply gives_heads_if|]. intros small Hs. cbn beta in Hs. destruct small.
    { apply gives_ret, (Hl 0xc4 1%nat); [apply sp_8; by right|cbn; lia|done]. }
    eapply gives_bind; [apply gives_heads_if|]. intros medium Hm. cbn beta in Hm. destruct medium; apply gives_ret.
    + apply (Hl 0xc5 2%nat); [apply sp_16; by right|cbn; lia|done].
    + apply (Hl 0xc6 4%nat); [apply sp_32; by right|cbn; lia|done].
  - eapply gives_bind; [apply gives_heads_if|]. intros tiny Ht. cbn beta in Ht. destruct tiny.
    { apply gives_ret. eexists. split; [apply RH_fix; lia|done]. }
    eapply gives_bind; [apply gives_heads_if|]. intros small Hs. cbn beta in Hs. destruct small.
    { apply gives_ret, (Hl 0xd9 1%nat); [apply sp_8; by left|cbn; lia|done]. }
    eapply gives_bind; [apply gives_heads_if|]. intros medium Hm. cbn beta in Hm. destruct medium; apply gives_ret.
    + apply (Hl 0xda 2%nat); [apply sp_16; by left|cbn; lia|done].
    + apply (Hl 0xdb 4%nat); [apply sp_32; by left|cbn; lia|done].
Qed.

Lemma decode_whole {A} (f : decoder -> result error (A * decoder)) v a :
  reads f v a -> len v <= MaxInt64 -> exists d, f (NewDecoder v) = Ok (a, d).
Proof.
  intros Hf Hl. eexists. apply (Hf (NewDecoder v) []); [|by rewrite app_nil_r].
  cbn. pose proof (len_nonneg v). lia.
Qed.

Lemma gives_altValue s v : Scalar s v ->
  gives (G := G) (altValue v) (fun v' => exists s', Scalar s' v' /\ altered s s' /\ (forall b, s = SBool b -> len v' = 1)).
Proof.
  intros [i e He|b|p h Hh Hp|].
  - destruct (IntEnc_first _ _ He) as (c & e' & Ee & Hlen & Hc). assert (Hi : int_ok i) by (destruct He; unfold int_ok in *; unfold_ints; lia).
    destruct (decode_whole (ReadInt MinInt64 MaxInt64) e i) as [d Ed]; [by apply reads_ReadInt_of; [apply IntEnc_reads|..]|unfold_ints; lia|].
    rewrite Ee in *. unfold altValue. lia_ifs. rewrite Ed. eapply gives_weaken; [by apply gives_appendIntAlt|].
    intros v' Hv'. exists (SInt i). split_and!; [by apply Sc_int|by left|done].
  - unfold altValue. rewrite b2z_z2b_small by (destruct b; lia). replace (_ || _) with true by (by destruct b).
    eapply gives_bind; [by apply gives_intN|]. intros r _. apply gives_ret. destruct (r =? 0).
    + exists (SInt (Z.b2z b)). split_and!; [|right; left; eauto|done]. destruct b; apply Sc_int, IE_fix; cbn; lia.
    + exists (SBool b). split_and!; [apply Sc_bool|by left|done].
  - destruct (RawHeader_first _ _ Hh) as (c & h' & Eh & Hlen & Hc).
    destruct (decode_whole (ReadBytes MaxInt32) (h ++ p) (Some p)) as [d Ed].
    { apply reads_ReadBytes_of; [by apply RawHeader_reads|unfold_ints; lia]. }
    { rewrite len_app. unfold_ints. lia. }
    rewrite Eh in *. cbn [app] in *. unfold altValue. lia_ifs. rewrite Ed. cbn [slice_bytes]. cbv zeta.
    eapply (gives_bind _ _ (fun r => r = 0 -> p = [])).
    { destruct (Z.eqb_spec (len p) 0) as [E|E]; [|by apply gives_ret]. eapply gives_weaken; [by apply gives_intN|]. intros. by apply len_0_nil. }
    intros r Hr. destruct (Z.eqb_spec r 0) as [E|_].
    { apply gives_ret. exists SNil. split_and!; [apply Sc_nil|right; right; by rewrite Hr|done]. }
    eapply gives_bind; [apply gives_heads|]. intros bin _. eapply gives_weaken; [apply gives_appendRaw; unfold MaxInt32 in *; lia|].
    intros v' (h2 & Hh2 & ->). cbn [app]. exists (SRaw p). split_and!; [by apply Sc_raw|by left|done].
  - apply gives_ret. exists SNil. split_and!; [apply Sc_nil|by left|done].
Qed.

Lemma gives_altExtra v : Extra v -> gives (G := G) (altValue v) Extra.
Proof.
  intros [s ? Hs|c v' Hc Hv].
  - eapply gives_weaken; [by apply gives_altValue|]. intros v' (s' & Hs' & _). by eapply Ex_scalar.
  - unfold opaqueByte in Hc. unfold altValue. cbv zeta. pose proof (b2z_range c).
    replace ((b2z c =? 194) || (b2z c =? 195)) with false by lia. destruct (Z.eqb_spec (b2z c) 0xcb) as [E|].
    + rewrite E. cbn. apply gives_ret, Ex_opaque; [|done]. by rewrite E.
    + lia_ifs. apply gives_ret, Ex_opaque; [|done]. unfold opaqueByte. lia.
Qed.

Lemma gives_leaf k r : gives (G := G)
  (if r =? 2 then ret (map z2b [0xcb; 0x40; 0x09; 0x21; 0xfb; 0x54; 0x44; 0x2d; 0x18])
   else if r =? 3 then ret [z2b 0xc0]
   else if r =? 4 then bind heads (fun bin => appendRaw [] (str2b "some text") bin)
   else bind genInt (fun i => appendIntAlt i)) (fun v => Value k v /\ Extra v).
Proof.
  assert (Hs : forall s v, Scalar s v -> Value k v /\ Extra v) by (intros; split; [by eapply Scalar_Value|by eapply Ex_scalar]).
  destruct (r =? 2).
  { apply gives_ret. assert (H : forall k, Value k (map z2b [0xcb; 0x40; 0x09; 0x21; 0xfb; 0x54; 0x44; 0x2d; 0x18]))
      by (intros k'; apply (V_fixed _ 0xcb 8); [apply fp_64; auto|done]). split; [apply H|by apply Ex_opaque]. }
  destruct (r =? 3); [apply gives_ret, (Hs SNil), Sc_nil|]. destruct (r =? 4).
  - eapply gives_bind; [apply gives_heads|]. intros bin _. eapply gives_weaken; [by apply gives_appendRaw|].
    intros v (h & Hh & ->). cbn [app]. by apply (Hs (SRaw (str2b "some text"))), Sc_raw.
  - eapply gives_bind; [apply gives_genInt|]. intros i Hi. eapply gives_weaken; [by apply gives_appendIntAlt|].
    intros v Hv. by apply (Hs (SInt i)), Sc_int.
Qed.

Lemma gives_randomValue more : (more <= 3)%nat -> gives (G := G) (randomValue more) (fun v => Value more v /\ Extra v).
Proof.
  induction more as [|more IH]; intros Hm; cbn [randomValue]; (eapply gives_bind; [by apply gives_intN|]); intros r _; [apply gives_leaf|].
  destruct (r =? 0); [|destruct (r =? 1); [|apply gives_leaf]].
  - eapply gives_bind; [by apply gives_intN|]. intros n Hn. cbn beta in Hn. eapply gives_weaken.
    + apply (gives_times (fun i v => exists b, v = z2b (Z.lor 0x90 n) :: b /\ Values (S more) (Z.of_nat i) b) _ _ 0%nat).
      * exists []. split; [done|apply Vs_nil].
      * intros j v (b & -> & Hb). eapply gives_bind; [apply IH; lia|]. intros w [Hw _]. apply gives_ret. exists (b ++ w). split; [done|].
        replace (Z.of_nat (S j)) with (Z.of_nat j + 1) by lia. by apply Values_snoc.
    + cbn beta. intros v (b & -> & Hb). apply container_Extra; [by left|lia|lia|]. cbn. by replace n with (Z.of_nat (Z.to_nat n + 0)) by lia.
  - eapply gives_bind; [by apply gives_intN|]. intros n Hn. cbn beta in Hn. eapply gives_weaken.
    + apply (gives_times (fun i v => exists b, v = z2b (Z.lor 0x80 n) :: b /\ Values (S more) (2 * Z.of_nat i) b) _ _ 0%nat).
      * exists []. split; [done|apply Vs_nil].
      * intros j v (b & -> & Hb). eapply gives_bind; [by apply gives_intN|]. intros d _.
        eapply gives_bind; [by apply gives_appendRaw|]. intros w (h & Hh & ->). eapply gives_bind; [apply IH; lia|]. intros w [Hw _].
        apply gives_ret. exists ((b ++ h ++ str2b "k" ++ [z2b (48 + d)]) ++ w). split; [done|].
        replace (2 * Z.of_nat (S j)) with (2 * Z.of_nat j + 1 + 1) by lia. apply Values_snoc; [|done].
        apply Values_snoc; [done|]. by apply RawHeader_Value.
    + cbn beta. intros v (b & -> & Hb). apply container_Extra; [by right|lia|lia|]. cbn. by replace n with (Z.of_nat (Z.to_nat n + 0)) by lia.
Qed.
End Alternatives.

(** *** Rewriting *)

Section Rewriting.
Context {G : Type} {RG : Rand G} {RL : RandLaws G}.

Lemma gives_mapHeaderAlt n : 0 <= n < 65536 -> gives (G := G) (mapHeaderAlt n) (fun h => announces h n).
Proof.
  intros Hn. unfold mapHeaderAlt. eapply gives_bind; [apply gives_heads_if|]. intros short Hs. cbn beta in Hs. destruct short.
  - apply gives_ret. pose proof (AppendMapHeader_announces n) as H. unfold AppendMapHeader in H.
    rewrite (Hs eq_refl) in H. apply H. lia.
  - eapply gives_bind; [apply gives_heads|]. intros medium _. apply gives_ret. destruct medium.
    + apply (announces_sized 0xde 2 n); [by left|done].
    + replace [z2b 0xdf; z2b 0; z2b 0; z2b (Z.shiftr n 8); z2b n] with (z2b 0xdf :: be 4 n); [apply announces_sized; [by right|done]|].
      change (be 4 n) with [z2b (Z.shiftr n 24); z2b (Z.shiftr n 16); z2b (Z.shiftr n 8); z2b n].
      rewrite (Z.shiftr_div_pow2 n 24), (Z.shiftr_div_pow2 n 16), (Z.div_small n (2 ^ 24)), (Z.div_small n (2 ^ 16)) by lia. done.
Qed.

Lemma gives_appendEntries es out : Forall (fun e => len e.1 <= MaxInt32) es ->
  gives (G := G) (appendEntries out es) (fun r => exists bs, Forall2 writes es bs /\ r = out ++ concat bs).
Proof.
  intros Hes. revert out. induction Hes as [|[key val] es He Hes IH]; intros out; cbn [appendEntries].
  { apply gives_ret. exists []. by rewrite app_nil_r. }
  eapply gives_bind; [apply gives_heads|]. intros bin _. cbn in He. eapply gives_bind; [apply gives_appendRaw; unfold MaxInt32 in *; lia|].
  intros r (h & Hh & ->). eapply gives_weaken; [apply IH|]. intros r (bs & Hbs & ->). exists ((h ++ key ++ val) :: bs).
  split; [constructor; [by exists h|done]|]. cbn [concat]. by rewrite <- !app_assoc.
Qed.

Context {M : Type} `{SL : SchemaLaws M} (m0 : M).
Hypothesis m0_typed : forall f, f ∈ fields (M := M) -> typed (f_type f) (get m0 (f_key f)).

Lemma altered_good f v s : f ∈ fields (M := M) -> Scalar s v -> denotes (f_type f) (get m0 (f_key f)) s ->
  gives (G := G) (altValue v) (fun v' => spells m0 f v' /\ (forall b, s = SBool b -> len v' = 1)).
Proof.
  intros Hf Hs Hd. eapply gives_weaken; [by apply gives_altValue|]. intros v' (s' & Hs' & Ha & Hb). split; [|done].
  exists s'. split; [done|by eapply denotes_altered].
Qed.

Lemma gives_readEntries es : forall b off acc, Forall (plain m0) es -> 0 <= off <= len b -> len b <= MaxInt64 ->
  drop (Z.to_nat off) b = encodeEntries es ->
  gives (G := G) (readEntries (length es) b (Decoder b off None) acc)
    (fun r => exists new, r = acc ++ new /\ map fst new = map (fun e => str2b e.1) es /\ Forall (good m0) new).
Proof.
  induction es as [|[k v] es IH]; intros b off acc Hes Hoff Hb E; cbn [length readEntries].
  { apply gives_ret. exists []. by rewrite app_nil_r. }
  inversion Hes as [|? ? He Hes']; subst. destruct He as (f & Hf & He). injection He as -> ->. destruct (encV_scalar _ _ (m0_typed f Hf)) as (s & Hs & Hd & Hbool).
  set (key := f_key f) in *. set (v := encV _ _) in *. pose proof (keys_short f Hf) as Hshort. fold key in Hshort.
  assert (Hdok : dec_ok (Decoder b off None)) by (cbn; lia).
  assert (Ep : pending (Decoder b off None) = AppendString [] key ++ v ++ encodeEntries es).
  { cbn [pending d_src d_off d_buf]. rewrite E. cbn. by rewrite <- app_assoc. }
  rewrite (reads_ReadKey key (proj2 Hshort) _ _ Hdok Ep). pose proof (dec_ok_consume_app _ _ _ Hdok Ep) as Hdok1.
  pose proof (pending_consume_app _ _ _ Hdok Ep) as Ep1. set (d1 := consume _ _) in *.
  rewrite (reads_Skip v (Scalar_Value _ _ _ Hs) _ _ Hdok1 Ep1). pose proof (dec_ok_consume_app _ _ _ Hdok1 Ep1) as Hdok2.
  pose proof (pending_consume_app _ _ _ Hdok1 Ep1) as Ep2.
  set (off1 := off + len (AppendString [] key)). assert (Ed1 : d1 = Decoder b off1 None) by done. rewrite Ed1 in *. clearbody d1.
  change (consume (len v) (Decoder b off1 None)) with (Decoder b (off1 + len v) None) in *.
  cbn [Remaining d_src d_buf d_off]. replace (len b - (len b - off1)) with off1 by lia. replace (len b - (len b - (off1 + len v))) with (off1 + len v) by lia.
  assert (Esub : subslice b off1 (off1 + len v) = v).
  { unfold subslice. cbn [pending d_src d_off d_buf] in Ep1. rewrite Ep1. replace (off1 + len v - off1) with (len v) by lia.
    unfold len. by rewrite Nat2Z.id, take_app_length. }
  rewrite Esub. cbn [slice_bytes]. eapply gives_bind; [by eapply altered_good|]. intros v' [Hsp Hone]. cbn in Hdok2.
  eapply gives_weaken; [apply (IH b (off1 + len v) _ Hes'); [lia|done|exact Ep2]|].
  intros r (new & -> & Hk & Hnew). exists ((str2b key, v') :: new). split_and!; [by rewrite <- app_assoc|cbn; by rewrite Hk|].
  constructor; [|done]. left. exists f. split_and!; [done..|]. intros Ht. destruct (Hbool Ht) as [b' ->]. by eapply Hone.
Qed.

Lemma gives_duplicate n es : kept m0 n es -> 0 <= n ->
  gives (G := G) (bind (if len es >? 0 then intN 4 else ret 1) (fun r =>
      if r =? 0 then bind (intN (len es)) (fun i => bind (orPanic (es !! Z.to_nat i)) (fun e => bind (altValue e.2) (fun v => ret ((e.1, v) :: es)))) else ret es))
    (fun es' => kept m0 (n + 1) es' \/ exists e, widened m0 e /\ es' = e :: es).
Proof.
  intros (Hg & Hl & Hk) Hn. assert (Hsame : kept m0 (n + 1) es) by (split_and!; [done|lia|done]).
  eapply (gives_bind _ _ (fun r => r = 0 -> 0 < len es)).
  { destruct (Z.gtb_spec (len es) 0); [|by apply gives_ret]. eapply gives_weaken; [by apply gives_intN|done]. }
  intros r Hr. destruct (Z.eqb_spec r 0) as [E|_]; [|apply gives_ret; by left].
  eapply gives_bind; [by apply gives_intN, Hr|]. intros i Hi. eapply gives_bind; [by apply gives_index|]. intros e He.
  assert (Hkept : forall v, good m0 (e.1, v) -> kept m0 (n + 1) ((e.1, v) :: es)).
  { intros v Hv. split_and!; [by constructor|rewrite len_cons; lia|]. intros f Hf. destruct (Hk f Hf); [left; cbn; apply elem_of_cons; by right|by right]. }
  destruct (proj1 (Forall_forall _ _) Hg e He) as [(f & Hf & Ek & (s & Hs & Hd) & _)|(Hu & Hlen & Hx)].
  - eapply gives_bind; [by eapply altered_good|]. intros v [Hsp _]. apply gives_ret.
    destruct (decide (f_type f = FBool /\ len v <> 1)) as [[Ht Hv]|Hno].
    + right. exists (e.1, v). split; [|done]. by exists f.
    + left. apply Hkept. left. exists f. split_and!; [done..|]. intros Ht. destruct (decide (len v = 1)); [done|]. exfalso. by apply Hno.
  - eapply gives_bind; [by apply gives_altExtra|]. intros v Hv. apply gives_ret. left. apply Hkept. right. done.
Qed.

Lemma gives_unknown n es : kept m0 n es ->
  gives (G := G) (bind (intN 3) (fun r =>
      if r =? 0 then bind (intN 80) (fun x => bind (randomValue 3) (fun v => ret (es ++ [(str2b "Unknown" ++ replicate (Z.to_nat x) (ch "x"), v)])))
      else ret es)) (kept m0 (n + 1)).
Proof.
  intros (Hg & Hl & Hk). eapply gives_bind; [by apply gives_intN|]. intros r _. destruct (r =? 0); [|by apply gives_ret; split_and!; [|lia|]].
  eapply gives_bind; [by apply gives_intN|]. intros x Hx. eapply gives_bind; [by apply gives_randomValue|]. intros v [_ Hv]. apply gives_ret.
  set (key := str2b "Unknown" ++ _). split_and!.
  - apply Forall_app. split; [done|]. constructor; [|done]. right. cbn [fst snd]. split_and!; [| |done].
    + intros (f & E & Hf)%list_elem_of_fmap. apply (keys_other f Hf). by rewrite <- E, str2b_b2str.
    + unfold key. rewrite len_app. unfold len at 2. rewrite length_replicate. change (len (str2b "Unknown")) with 7. unfold MaxInt32. cbn beta in Hx. lia.
  - rewrite len_app, len_cons, len_nil. lia.
  - intros f Hf. destruct (Hk f Hf); [left; rewrite map_app; apply elem_of_app; by left|by right].
Qed.

Lemma gives_reencode msg : gives (G := G) (reencode (encodeFields (entriesOf m0))) (tolerated m0 msg).
Proof.
  pose proof (entriesOf_plain m0) as Hp. pose proof (encodeEntries_bound m0 m0_typed _ Hp) as Hb.
  assert (Hn : len (entriesOf m0) <= len (fields (M := M))) by apply omap_len. pose proof (fields_few (M := M)) as Hfew. pose proof (len_nonneg (entriesOf m0)) as Hes0.
  set (es := entriesOf m0) in *. set (b := encodeFields es). set (h := AppendMapHeader [] (len es)).
  assert (Hh : len h = 1) by (unfold h, AppendMapHeader; by rewrite (proj2 (Z.ltb_lt _ _)) by lia).
  assert (Hlen : len b = 1 + len (encodeEntries es)) by (unfold b, encodeFields; rewrite len_app; fold h; lia).
  pose proof (len_nonneg (encodeEntries es)). assert (Hd : dec_ok (NewDecoder b)) by (cbn; unfold_ints; lia).
  unfold reencode. rewrite (reads_ReadMapHeader_fix (len es) ltac:(lia) (NewDecoder b) (encodeEntries es) Hd eq_refl). fold h.
  change (consume (len h) (NewDecoder b)) with (Decoder b (len h) None).
  eapply (gives_bind _ _ (kept m0 15)).
  { replace (Z.to_nat (len es)) with (length es) by (unfold len; lia). eapply gives_weaken.
    - apply (gives_readEntries es b (len h) [] Hp); [lia|unfold_ints; lia|]. unfold b, encodeFields. fold h. unfold len. by rewrite Nat2Z.id, drop_app_length.
    - intros r (new & -> & Hk & Hg). cbn [app]. split_and!; [done|apply (f_equal length) in Hk; rewrite !length_map in Hk; unfold len in *; lia|].
      intros f Hf. rewrite Hk. by apply entriesOf_keys. }
  intros es1 (Hg1 & Hl1 & Hk1). eapply (gives_bind _ _ (kept m0 15)).
  { intros g. pose proof (shuffleNodes_perm es1 g) as Hperm. destruct (shuffleNodes es1 g) as [es2 g'] eqn:E. exists es2, g'. split; [done|]. cbn in Hperm.
    split_and!; [by rewrite Hperm|unfold len in *; by rewrite Hperm|]. intros f Hf. by rewrite Hperm; apply Hk1. }
  intros es2 Hes2. eapply gives_assoc, gives_bind; [by apply (gives_unknown 15)|]. intros es3 Hes3.
  eapply gives_assoc, gives_bind; [by apply (gives_duplicate 16)|]. intros es4 Hes4.
  assert (Hshort : Forall (fun e => len e.1 <= MaxInt32) es4 /\ len es4 <= 17).
  { destruct Hes3 as (Hg3 & Hl3 & _). destruct Hes4 as [(Hg4 & Hl4 & _)|(e & (f & Hf & Ek & _) & ->)].
    - split; [|exact Hl4]. eapply Forall_impl; [exact Hg4|]. apply (good_short m0).
    - split; [|rewrite len_cons; lia]. constructor; [|eapply Forall_impl; [exact Hg3|]; apply (good_short m0)].
      rewrite Ek. pose proof (keys_short f Hf) as Hx. unfold maxKeyLen, MaxInt32 in *. lia. }
  destruct Hshort as [Hshort Hl4]. pose proof (len_nonneg es4). eapply gives_bind; [apply gives_mapHeaderAlt; lia|]. intros hd Hhd.
  eapply gives_weaken; [by apply gives_appendEntries|]. intros alt (bs & Hbs & ->). destruct Hes4 as [Hes4|(e & He & ->)].
  - by eapply kept_tolerated.
  - by eapply widened_tolerated.
Qed.
End Rewriting.

(** ** Properties *)

(** What decoding an alternative encoding of [m] gives, in either mode. *)
Definition decodesAs (m : message) (alt : bytes) : Prop :=
  forall d, dec_ok d -> pending d = alt ->
  match DecodeMsgpack (kind_of m) d with
  | Ok (m', d') => forgetNil m' = forgetNil m /\ pending d' = []
  | Err _ => hasBool (kind_of m) = true
  end.

Lemma gives_decodesAs {G} `{RandLaws G} {M} `{Schema M} `{FieldDecoder M} (mk : M -> message) k msg `{!WireSchema M mk k msg} (m : M) :
  valid (mk m) -> gives (G := G) (reencode (AppendMsgpack (mk m) [])) (decodesAs (mk m)).
Proof.
  intros Hv. pose proof (ws_laws (mk := mk)) as Hlaws. rewrite (ws_encode (mk := mk)). eapply gives_weaken.
  - apply (gives_reencode m (proj1 (Forall_forall _ _) (ws_typed (mk := mk) m Hv)) msg).
  - intros alt Ht d Hd E. specialize (Ht d Hd E). rewrite (ws_kind (mk := mk)), (ws_decode (mk := mk)). unfold setting.
    destruct (decodeMap msg zero d) as [[m' d']|err]; cbn [rbind].
    + destruct Ht as [Hp Hf]. split; [|done]. apply (ws_equal (mk := mk)), Forall_forall. exact Hf.
    + destruct Ht as (f & Hf & Hb). destruct (hasBool k) eqn:Ek; [done|]. exfalso.
      by apply (proj1 (Forall_forall _ _) (ws_bool (mk := mk) Ek) f Hf).
Qed.

Lemma reencode_decodesAs {G} `{RandLaws G} m : valid m -> gives (G := G) (reencode (AppendMsgpack m [])) (decodesAs m).
Proof.
  destruct m; intros Hv.
  - by apply (gives_decodesAs MPing KPing "ping").
  - by apply (gives_decodesAs MIndirectPingReq KIndirectPingReq "indirect ping").
  - by apply (gives_decodesAs MAckResp KAckResp "ack").
  - by apply (gives_decodesAs MNackResp KNackResp "nack").
  - by apply (gives_decodesAs MErrResp KErrResp "error response").
  - by apply (gives_decodesAs MSuspect KSuspect "suspect").
  - by apply (gives_decodesAs MAlive KAlive "alive").
  - by apply (gives_decodesAs MDead KDead "dead").
  - by apply (gives_decodesAs MPushPullHeader KPushPullHeader "push/pull header").
  - by apply (gives_decodesAs MUserMsgHeader KUserMsgHeader "user message header").
  - by apply (gives_decodesAs MPushNodeState KPushNodeState "push node state").
  - by apply (gives_decodesAs MCompress KCompress "compress").
Qed.

(** C36: The decoder takes what peers may write. Every rewriting of the encoding
    of a message by other integer widths, string and binary families, nil for
    empty values, a shuffled order, an unknown field with a nested value and a
    repeated field decodes to the message, up to nil and empty slices, with
    nothing left over, in both decoder modes; rewriting itself never fails.
    Only a message with a boolean can be refused instead: a repeated boolean
    may have been rewritten twice, as an integer and then to a wider one. *)
Theorem alternatives_tolerated {G} `{RandLaws G} m (g : G) :
  valid m ->
  exists alt g', reencode (AppendMsgpack m []) g = Some (alt, g') /\
    forall d, dec_ok d -> pending d = alt ->
    match DecodeMsgpack (kind_of m) d with
    | Ok (m', d') => forgetNil m' = forgetNil m /\ pending d' = []
    | Err _ => hasBool (kind_of m) = true
    end.
Proof.
  intros Hv. by apply reencode_decodesAs.
Qed.

Lemma alternatives_tolerated_witness :
  exists alt g', reencode (AppendMsgpack example_alive []) 3 = Some (alt, g') /\ alt <> AppendMsgpack example_alive [] /\
    forall d, dec_ok d -> pending d = alt ->
    match DecodeMsgpack KAlive d with Ok (m', d') => forgetNil m' = forgetNil example_alive /\ pending d' = [] | Err _ => false = true end.
Proof.
  destruct (alternatives_tolerated (G := Z) example_alive 3) as (alt & g' & E & Hd); [vm_compute; intuition congruence|].
  exists alt, g'. split; [exact E|]. split; [|exact Hd]. intros ->. vm_compute in E. discriminate.
Defined.

(** The refusal happens: the repeated boolean of this header is the integer 1
    in a format that is not the byte 1. *)
Lemma repeated_boolean_refused :
  exists (g : Z) alt g', reencode (AppendMsgpack (MPushPullHeader (MkPushPullHeader 3 0 true)) []) g = Some (alt, g') /\
    is_ok (DecodeMsgpack KPushPullHeader (NewDecoder alt)) = false.
Proof.
  exists 47. destruct (reencode (AppendMsgpack (MPushPullHeader (MkPushPullHeader 3 0 true)) []) 47) as [[alt g']|] eqn:E; [|vm_compute in E; discriminate].
  exists alt, g'. split; [done|]. vm_compute in E. injection E as <- <-. vm_compute. reflexivity.
Qed.

(** What a passing comparison establishes of the other codec: it writes the
    message as this one does, reads its own encoding back, and reads the
    alternative one as the same message, up to nil and empty slices; or it
    refuses it, as this one does, which needs a boolean. This codec never
    refuses the encoding of the other when they are equal. *)
Theorem oracle_agreement {G} `{RandLaws G} goEncode goDecode k (g : G) :
  exists v g', checkMessage goEncode goDecode k g = Some (v, g') /\ v <> WireRefuses /\
    (v = Agreed -> exists m g1 alt g2, genMessage k g = Some (m, g1) /\ kind_of m = k /\ valid m /\
       goEncode m = AppendMsgpack m [] /\ goDecode k (goEncode m) = Some (normal m) /\ reencode (goEncode m) g1 = Some (alt, g2) /\
       (len alt <= MaxInt64 -> match goDecode k alt with Some m' => forgetNil m' = forgetNil m | None => hasBool k = true end)).
Proof.
  destruct (gives_genMessage k g) as (m & g1 & Em & Hk & Hv). unfold checkMessage, bind at 1. rewrite Em. cbn [mbind option_bind].
  destruct (bool_decide_reflect (goEncode m = AppendMsgpack m [])) as [Ee|_]; [cbn [negb]|by eexists _, _].
  assert (Hd : forall b, len b <= MaxInt64 -> dec_ok (NewDecoder b)) by (intros b Hb; cbn; pose proof (len_nonneg b); lia).
  destruct (goDecode k (goEncode m)) as [goVal|] eqn:Eg; [|by eexists _, _]. rewrite Ee.
  pose proof (message_reads m Hv (NewDecoder (AppendMsgpack m [])) [] (Hd _ (AppendMsgpack_bound m Hv))) as Er.
  rewrite app_nil_r, Hk in Er. rewrite Er by done. destruct (bool_decide_reflect (normal m = goVal)) as [En|_]; [cbn [negb]|by eexists _, _].
  destruct (reencode_decodesAs m Hv g1) as (alt & g2 & Ea & Halt). unfold bind. rewrite Ea. cbn [mbind option_bind ret].
  eexists _, g2. split; [done|]. split; [by repeat case_match|]. intros Hv'. exists m, g1, alt, g2. rewrite Ee in Eg |- *. subst goVal.
  split_and!; [done..|]. intros Hl. specialize (Halt (NewDecoder alt) (Hd _ Hl) eq_refl). rewrite Hk in Halt.
  destruct (goDecode k alt) as [goAlt|], (DecodeMsgpack k (NewDecoder alt)) as [[w d]|err]; try done.
  destruct (bool_decide_reflect (w = goAlt)); [|done]. subst. by destruct Halt.
Qed.

(** A run always ends in a verdict. *)
Lemma oracle_total {G} `{RandLaws G} goEncode goDecode n : gives (G := G) (oracle goEncode goDecode n) (fun _ => True).
Proof.
  assert (Hm : forall k, gives (G := G) (checkMessage goEncode goDecode k) (fun _ => True)).
  { intros k g. destruct (oracle_agreement goEncode goDecode k g) as (v & g' & E & _). eauto. }
  unfold oracle. generalize kinds (@nil (kind * (Z * Z * Z))) 0. intros ks. induction ks as [|k ks IH]; intros stats failures; cbn [checkKinds]; [by apply gives_ret|].
  eapply (gives_bind _ _ (fun _ => True)); [|intros [st f] _; apply IH]. eapply gives_weaken; [|done].
  apply (gives_times (fun _ _ => True) n _ 0%nat); [done|]. intros j [[[e d] a] f] _. eapply gives_bind; [apply Hm|]. intros v _.
  destruct (score v) as [[e' d'] a']. by apply gives_ret.
Qed.
