(* ===== verification/Observers.v ===== *)
(** What a node tells its application: membership events over a channel,
    [src/event_delegate.go], and metrics, [src/metrics.go].

    A channel is the list of what was sent on it, and so is a metric sink: the
    calls it got, in order. Slices of labels are values, since the code copies
    them when it makes a [telemetry]. A metric's value is a float32 that holds
    an integer, rounded as the conversion rounds. *)

From S2P Require Import Prelude Msgpack Wire Treap Timing Queue NetAddr Nodes Events Packet State Lifecycle Membership Protocol Merge Security HostPort Acks Net Streams.

(** ** Events over a channel *)

Inductive NodeEventType := NodeJoin | NodeLeave | NodeUpdate.

Record NodeEvent := MkNodeEvent { ne_Event : NodeEventType; ne_Node : Node }.

(** The methods of [ChannelEventDelegate]: a send that is made. *)
Definition NotifyJoin (ch : list NodeEvent) (n : Node) : list NodeEvent := ch ++ [MkNodeEvent NodeJoin n].
Definition NotifyLeave (ch : list NodeEvent) (n : Node) : list NodeEvent := ch ++ [MkNodeEvent NodeLeave n].
Definition NotifyUpdate (ch : list NodeEvent) (n : Node) : list NodeEvent := ch ++ [MkNodeEvent NodeUpdate n].

(** The callback [deliverEvent] makes when [Config.Events] is the channel; a
    conflict goes to the conflict delegate. *)
Definition callback (ch : list NodeEvent) (ev : queuedEvent) : list NodeEvent :=
  match ev_kind ev with
  | eventJoin => NotifyJoin ch (ev_node ev)
  | eventUpdate => NotifyUpdate ch (ev_node ev)
  | eventLeave => NotifyLeave ch (ev_node ev)
  | eventConflict => ch
  end.

(** What the delivered events put on the channel. *)
Definition channelOf (delivered : list queuedEvent) : list NodeEvent := fold_left callback delivered [].

(** What a reader of the channel makes of it: who is a member. *)
Definition heard (name : string) (b : bool) (e : NodeEvent) : bool :=
  if String.eqb (n_Name (ne_Node e)) name then
    match ne_Event e with NodeJoin => true | NodeLeave => false | NodeUpdate => b end
  else b.
Definition heardOf (ch : list NodeEvent) (name : string) : bool := fold_left (heard name) ch false.

(** ** Metrics *)

(** [float32(n)]: [n] rounded to 24 significant bits, to even when in the
    middle. *)
Definition roundShift (n e : Z) : Z :=
  let q := n / 2 ^ e in
  let r := n mod 2 ^ e in
  if (r <? 2 ^ (e - 1)) || ((r =? 2 ^ (e - 1)) && Z.even q) then q else q + 1.

Definition float32 (n : Z) : Z :=
  if Z.abs n <? 2 ^ 24 then n
  else let e := Z.log2 (Z.abs n) - 23 in Z.sgn n * (roundShift (Z.abs n) e * 2 ^ e).

Record Label := MkLabel { l_Name : string; l_Value : string }.

(** The calls of a [MetricSink]. *)
Inductive metricCall :=
| IncrCounter (key : list string) (val : Z) (labels : list Label)
| SetGauge (key : list string) (val : Z) (labels : list Label)
| AddSample (key : list string) (val : Z) (labels : list Label)
| MeasureSince (key : list string) (start : Z) (labels : list Label).

Definition keyNodeInstances : list string := ["memberlist"; "node"; "instances"]%string.
Definition keySizeLocal : list string := ["memberlist"; "size"; "local"]%string.
Definition keyQueueBroadcasts : list string := ["memberlist"; "queue"; "broadcasts"]%string.

(** Every key, in the order of the source. *)
Definition metricKeys : list (list string) :=
  map (cons "memberlist")
    [["tcp"; "accept"]; ["tcp"; "connect"]; ["tcp"; "sent"]; ["udp"; "sent"]; ["udp"; "received"]; ["msg"; "alive"]; ["msg"; "suspect"];
     ["msg"; "dead"]; ["degraded"; "probe"]; ["degraded"; "timeout"]; ["event"; "delivered"]; ["event"; "pending"]; ["health"; "score"];
     ["node"; "instances"]; ["size"; "local"]; ["size"; "remote"]; ["queue"; "broadcasts"]; ["probeNode"]; ["gossip"]; ["pushPullNode"]]%string.

(** [metricsString] of a state's number. *)
Definition metricsString (t : Z) : string :=
  match toNodeStateType t with
  | Some StateAlive => "alive"
  | Some StateDead => "dead"
  | Some StateSuspect => "suspect"
  | Some StateLeft => "left"
  | None => "unhandled-value-" ++ (if (t <? 0)%Z then "-" ++ b2str (itoa (- t)%Z) else b2str (itoa t))
  end%string.

Definition nodeStates : list NodeStateType := [StateAlive; StateSuspect; StateDead; StateLeft].

(** [tl_sink] is whether there is a sink. *)
Record telemetry := MkTelemetry {
  tl_sink : bool;
  tl_labels : list Label;
  tl_stateLabels : list (list Label);
}.

Definition newTelemetry (sink : bool) (labels : list Label) : telemetry :=
  MkTelemetry sink labels (map (fun s => labels ++ [MkLabel "node_state" (metricsString (stateNumber s))]) nodeStates).

(** A nil [*telemetry] is [None]. *)
Definition emit (t : option telemetry) (call : telemetry -> list metricCall) : list metricCall :=
  match t with
  | Some t => if tl_sink t then call t else []
  | None => []
  end.

Definition counter (t : option telemetry) (key : list string) (val : Z) : list metricCall :=
  emit t (fun t => [IncrCounter key val (tl_labels t)]).
Definition gauge (t : option telemetry) (key : list string) (val : Z) : list metricCall :=
  emit t (fun t => [SetGauge key val (tl_labels t)]).
Definition sample (t : option telemetry) (key : list string) (val : Z) : list metricCall :=
  emit t (fun t => [AddSample key val (tl_labels t)]).
Definition since (t : option telemetry) (key : list string) (start : Z) : list metricCall :=
  emit t (fun t => [MeasureSince key start (tl_labels t)]).

Definition nodeInstances (t : option telemetry) (counts : list Z) : list metricCall :=
  emit t (fun t => zip_with (fun n labels => SetGauge keyNodeInstances (float32 n) labels) counts (tl_stateLabels t)).

(** The counts of [sendLocalState]: a state beyond the known ones is not
    counted, and a negative one is an index out of range. *)
Definition countState (counts : list Z) (s : PushNodeState) : option (list Z) :=
  if PNS_State s <? len counts then
    if PNS_State s <? 0 then None else Some (alter (fun n => n + 1) (Z.to_nat (PNS_State s)) counts)
  else Some counts.

Fixpoint countStates (counts : list Z) (localNodes : list PushNodeState) : option (list Z) :=
  match localNodes with
  | [] => Some counts
  | s :: localNodes => counts ← countState counts s; countStates counts localNodes
  end.

(** What [sendLocalState] reports of the nodes it sends and of their encoding. *)
Definition localStateMetrics (t : option telemetry) (localNodes : list PushNodeState) (out : bytes) : option (list metricCall) :=
  counts ← countStates (replicate 4 0) localNodes;
  Some (nodeInstances t counts ++ gauge t keySizeLocal (float32 (len out))).

(** [checkBroadcastQueueDepth]: what its select gets, the queue's length at a
    tick or the end of the node, in order. *)
Inductive depthEvent := DepthTick (numq : Z) | DepthShutdown.

Fixpoint checkBroadcastQueueDepth (t : option telemetry) (evs : list depthEvent) : list metricCall :=
  match evs with
  | DepthTick numq :: evs => sample t keyQueueBroadcasts (float32 numq) ++ checkBroadcastQueueDepth t evs
  | DepthShutdown :: _ | [] => []
  end.

(** ** Lemmas *)

Lemma channelOf_app l l' : channelOf (l ++ l') = channelOf l ++ channelOf l'.
Proof.
  assert (Hacc : forall ch, fold_left callback l' ch = ch ++ channelOf l').
  { unfold channelOf. induction l' as [|ev l' IH]; intros ch; cbn; [by rewrite app_nil_r|].
    rewrite (IH (callback ch ev)), (IH (callback [] ev)), app_assoc. f_equal. unfold callback. destruct (ev_kind ev); cbn; by rewrite ?app_nil_r. }
  unfold channelOf at 1. rewrite fold_left_app. apply Hacc.
Qed.

Lemma heardOf_channel evs name : heardOf (channelOf evs) name = announced evs name.
Proof.
  induction evs as [|ev evs IH] using rev_ind; [done|]. rewrite announced_app, <- IH, channelOf_app. unfold heardOf. rewrite fold_left_app.
  set (b := fold_left _ _ false). unfold channelOf, callback, announce, heard. cbn. destruct (ev_kind ev); cbn; by destruct (String.eqb _ _).
Qed.

Lemma roundShift_error n e : 0 < e -> Z.abs (roundShift n e * 2 ^ e - n) <= 2 ^ (e - 1).
Proof.
  intros He. unfold roundShift. assert (Hp : 2 ^ e = 2 * 2 ^ (e - 1)) by (rewrite <- Z.pow_succ_r by lia; f_equal; lia).
  pose proof (Z.pow_pos_nonneg 2 (e - 1)). pose proof (Z.div_mod n (2 ^ e)). pose proof (Z.mod_pos_bound n (2 ^ e)).
  destruct (Z.ltb_spec (n mod 2 ^ e) (2 ^ (e - 1))); cbn [orb]; [lia|].
  destruct (Z.eqb_spec (n mod 2 ^ e) (2 ^ (e - 1))); cbn [andb]; [destruct (Z.even _)|]; lia.
Qed.

(** A conversion is exact up to 24 bits, and else off by at most one part in
    two to the 24. *)
Lemma float32_error n : Z.abs (float32 n - n) * 2 ^ 24 <= Z.abs n /\ (Z.abs n < 2 ^ 24 -> float32 n = n).
Proof.
  unfold float32. destruct (Z.ltb_spec (Z.abs n) (2 ^ 24)) as [Hs|Hb]; [split; [|done]; rewrite Z.sub_diag; lia|]. split; [|lia].
  destruct (Z.log2_spec (Z.abs n)) as [Hl _]; [lia|]. pose proof (Z.log2_le_mono _ _ Hb) as Hm. change (Z.log2 (2 ^ 24)) with 24 in Hm.
  set (e := Z.log2 (Z.abs n) - 23). pose proof (roundShift_error (Z.abs n) e ltac:(lia)) as Hr.
  replace (Z.sgn n * (roundShift (Z.abs n) e * 2 ^ e) - n) with (Z.sgn n * (roundShift (Z.abs n) e * 2 ^ e - Z.abs n)) by (rewrite Z.mul_sub_distr_l; destruct n; cbn [Z.sgn Z.abs]; lia).
  rewrite Z.abs_mul. assert (Hsg : Z.abs (Z.sgn n) = 1) by (destruct n; cbn; lia). rewrite Hsg, Z.mul_1_l.
  etransitivity; [apply Z.mul_le_mono_nonneg_r; [lia|exact Hr]|]. rewrite <- Z.pow_add_r by lia. by replace (e - 1 + 24) with (Z.log2 (Z.abs n)) by lia.
Qed.

(** The nodes of [l] in the state. *)
Definition inState (t : NodeStateType) (l : list PushNodeState) : Z := len (List.filter (fun s => PNS_State s =? stateNumber t) l).

Lemma countStates_spec l a b c d : Forall (fun s => exists t, PNS_State s = stateNumber t) l ->
  countStates [a; b; c; d] l = Some [a + inState StateAlive l; b + inState StateSuspect l; c + inState StateDead l; d + inState StateLeft l].
Proof.
  intros Hl. revert a b c d. induction Hl as [|s l [t Ht] Hl IH]; intros a b c d; cbn [countStates].
  { unfold inState. cbn. by rewrite !Z.add_0_r. }
  assert (Hs : countState [a; b; c; d] s = Some (match t with
    StateAlive => [a + 1; b; c; d] | StateSuspect => [a; b + 1; c; d] | StateDead => [a; b; c + 1; d] | StateLeft => [a; b; c; d + 1] end))
    by (unfold countState; rewrite Ht; by destruct t).
  rewrite Hs. cbn [mbind option_bind]. unfold inState in *. cbn [List.filter]. rewrite Ht.
  destruct t; rewrite IH; cbn [stateNumber Z.eqb Pos.eqb]; rewrite len_cons, <- Z.add_assoc; done.
Qed.

Lemma inState_total l : Forall (fun s => exists t, PNS_State s = stateNumber t) l ->
  inState StateAlive l + inState StateSuspect l + inState StateDead l + inState StateLeft l = len l.
Proof.
  induction 1 as [|s l [t Ht] Hl IH]; [done|]. unfold inState in *. cbn [List.filter]. rewrite Ht. destruct t; cbn [stateNumber Z.eqb Pos.eqb] in *; rewrite !len_cons; lia.
Qed.

(** ** Properties *)

(** What is on the channel is what was committed. In every interleaving of
    producers and dispatcher the channel holds, in commit order and each once,
    the joins, leaves and updates delivered so far, and the ones that are
    missing are those under way. A reader that keeps track of the joins and
    leaves knows, once nothing is under way, who is a member. *)
Theorem channel_history s :
  rtc event_step initialSystem s ->
  channelOf (ds_committed s) = channelOf (e_delivered (ds_q s)) ++ channelOf (inflight (ds_d s) ++ e_events (ds_q s)) /\
  (inflight (ds_d s) = [] -> e_events (ds_q s) = [] -> forall name,
     heardOf (channelOf (e_delivered (ds_q s))) name = announced (ds_committed s) name).
Proof.
  intros Hr. pose proof (ok_history _ (event_reachable_ok s Hr)) as Hh. rewrite Hh. split; [apply channelOf_app|].
  intros -> -> name. rewrite app_nil_l, app_nil_r. apply heardOf_channel.
Qed.

(** The reader's view of a node that has delivered its events is [Members]. *)
Theorem channel_tells_members {G} `{RandLaws G} `{MathLog} cfg aw mult (g : G) m name :
  c_Events cfg = true -> rtc (step cfg) (newMemberlist aw mult g) m -> name <> c_Name cfg ->
  name ∈ map n_Name (Members m) <-> heardOf (channelOf (e_events (m_events m))) name = true.
Proof. intros He Hr Hn. rewrite heardOf_channel. by apply (members_announced cfg aw mult g). Qed.

(** The gauges of the local state. Reporting never fails; with a sink there is
    one gauge per state, with the instance's labels and the state's name, whose
    value is the number of nodes in it, exact below 2^24, and the four numbers
    add up to the nodes known. Without a sink nothing is reported. *)
Theorem instances_reported (t : option telemetry) (nodes : list nodeState) out labels :
  exists calls, localStateMetrics t (map localNode nodes) out = Some calls /\
    (t = None \/ t = Some (newTelemetry false labels) -> calls = []) /\
    (t = Some (newTelemetry true labels) ->
       calls = map (fun s => SetGauge keyNodeInstances (float32 (inState s (map localNode nodes)))
                               (labels ++ [MkLabel "node_state" (metricsString (stateNumber s))])) nodeStates
               ++ [SetGauge keySizeLocal (float32 (len out)) labels]) /\
    fold_left (fun n s => n + inState s (map localNode nodes)) nodeStates 0 = len nodes.
Proof.
  assert (Hl : Forall (fun s => exists t, PNS_State s = stateNumber t) (map localNode nodes)).
  { apply Forall_forall. intros s (n & -> & _)%list_elem_of_fmap. by eexists. }
  unfold localStateMetrics. change (replicate 4 0) with [0; 0; 0; 0]. rewrite countStates_spec by done. cbn [mbind option_bind].
  eexists. split_and!; [done|by intros [->| ->]|by intros ->|].
  pose proof (inState_total _ Hl) as Ht. cbn [fold_left nodeStates]. unfold len in Ht. rewrite length_map in Ht. unfold len at 1. lia.
Qed.

(** No two metrics share a key, and no two states a label. *)
Lemma metrics_distinct :
  NoDup metricKeys /\ NoDup (map (fun s => metricsString (stateNumber s)) nodeStates) /\ keyNodeInstances ∈ metricKeys /\ keySizeLocal ∈ metricKeys /\ keyQueueBroadcasts ∈ metricKeys.
Proof. split_and!; apply (bool_decide_unpack _); vm_compute; exact I. Qed.

(** The sampler reports the queue's length at every tick until the node ends. *)
Theorem queue_depth_sampled labels ticks rest :
  checkBroadcastQueueDepth (Some (newTelemetry true labels)) (map DepthTick ticks ++ DepthShutdown :: rest)
  = map (fun n => AddSample keyQueueBroadcasts (float32 n) labels) ticks.
Proof. induction ticks as [|n ticks IH]; [done|]. cbn. by f_equal. Qed.
