(* ===== verification/Stack.v ===== *)
(** The methods a node calls to send, down to the transport it was given: the
    wrappers of [src/memberlist.go] and [src/transport.go] and the writes of
    [src/net_transport.go]. The theorems tie the layers to what [Net] and
    [Streams] take them to do. *)

From S2P Require Import Prelude Msgpack Wire Treap Timing Queue NetAddr Nodes Events Packet State Lifecycle Membership Protocol Merge Security HostPort Acks Net Streams Ingest Probe NetTransport Setup.

(** ** Sending *)

Section Sending.
Context {G : Type} {RG : Rand G} {ML : MathLog} {LZ : LZW} {GC : GCM} {TR : Transport} {D : Type} {DL : Delegates D}.
Context (cfg : Config) (nc : NetConfig) (nonceAt : Z -> bytes).
Implicit Types x : Net (G := G) (D := D).

(** [to] is the text of the address. *)
Definition SendTo x (to msg : bytes) : option (result sendError unit * Net) := SendToAddress cfg nc nonceAt x (to, ""%string) msg.
Definition SendToUDP x (to : Node) (msg : bytes) : option (result sendError unit * Net) := SendBestEffort cfg nc nonceAt x to msg.
Definition SendReliable x (to : Node) (msg : bytes) (peer : option dialled) : option (result exchangeError bytes * Net) :=
  sendUserMsg cfg nc nonceAt x (FullAddress to) msg peer.
Definition SendToTCP x (to : Node) (msg : bytes) (peer : option dialled) : option (result exchangeError bytes * Net) :=
  SendReliable x to msg peer.
End Sending.

(** ** The layers of a transport *)

(** The calls that reach the transport a node was given. *)
Inductive packetCall := WriteToCall (b addr : bytes) | WriteToAddressCall (b : bytes) (a : PeerAddress).
Inductive dialCall := DialTimeoutCall (addr : bytes) | DialAddressTimeoutCall (a : PeerAddress).

Fixpoint WriteTo (t : transport) (buf addr : bytes) : result labelError packetCall :=
  match t with
  | plainTransport _ => Ok (WriteToCall buf addr)
  | shimNodeAwareTransport t => WriteTo t buf addr
  | labelWrappedTransport label t => let! buf := AddLabelHeaderToPacket buf label in WriteTo t buf addr
  end.

Fixpoint layeredWrite (t : transport) (buf : bytes) (a : PeerAddress) : result labelError packetCall :=
  match t with
  | plainTransport _ => Ok (WriteToAddressCall buf a)
  | shimNodeAwareTransport t => WriteTo t buf a.1
  | labelWrappedTransport label t => let! buf := AddLabelHeaderToPacket buf label in layeredWrite t buf a
  end.

Section Dialling.
Context (dial : dialCall -> option dialled).

(** The label is the first thing written to a connection. *)
Definition labelConn (label : string) (p : dialled) : result exchangeError dialled :=
  match AddLabelHeaderToStream (dl_conn p) label with
  | Err e => Err (LabelNotSent e)
  | Ok c => Ok (Dialled c (dl_answer p))
  end.

Definition dialBase (c : dialCall) : result exchangeError dialled :=
  match dial c with Some p => Ok p | None => Err DialFailed end.

Fixpoint DialTimeout (t : transport) (addr : bytes) : result exchangeError dialled :=
  match t with
  | plainTransport _ => dialBase (DialTimeoutCall addr)
  | shimNodeAwareTransport t => DialTimeout t addr
  | labelWrappedTransport label t => let! p := DialTimeout t addr in labelConn label p
  end.

Fixpoint layeredDial (t : transport) (a : PeerAddress) : result exchangeError dialled :=
  match t with
  | plainTransport _ => dialBase (DialAddressTimeoutCall a)
  | shimNodeAwareTransport t => DialTimeout t a.1
  | labelWrappedTransport label t => let! p := layeredDial t a in labelConn label p
  end.
End Dialling.

(** ** The standard transport *)

(** [net.ResolveUDPAddr], the write on a socket and [net.Dialer.Dial]. *)
Class Internet := {
  udpAddr : Type;
  ResolveUDPAddr : bytes -> result transportError udpAddr;
  writePacketTo : Z -> bytes -> udpAddr -> option transportError;
  dialTCP : Z -> bytes -> result transportError outConn;
}.

Section Standard.
Context `{Internet}.

(** A write that was made, and the error it gave, if any; an index out of range
    panics. *)
Definition netWriteToAddress (t : NetTransport) (b : bytes) (a : PeerAddress) : option (result transportError (Z * udpAddr) * option transportError) :=
  match ResolveUDPAddr a.1 with
  | Err e => Some (Err e, Some e)
  | Ok u => l ← nt_udpListeners t !! 0%nat; Some (Ok (l, u), writePacketTo l b u)
  end.

Definition netWriteTo (t : NetTransport) (b addr : bytes) : option (result transportError (Z * udpAddr) * option transportError) :=
  netWriteToAddress t b (addr, ""%string).

Definition netDialAddressTimeout (a : PeerAddress) (timeout : Z) : result transportError outConn := dialTCP timeout a.1.
Definition netDialTimeout (addr : bytes) (timeout : Z) : result transportError outConn := netDialAddressTimeout (addr, ""%string) timeout.
End Standard.

(** ** Properties *)

Definition callBytes (c : packetCall) : bytes := match c with WriteToCall b _ => b | WriteToAddressCall b _ => b end.
Definition callAddr (c : packetCall) : bytes := match c with WriteToCall _ addr => addr | WriteToAddressCall _ a => a.1 end.

(** A packet that the layers of a built node pass on is the one [writePacket]
    takes the transport to get, to the same address, by name when the transport
    takes names; a label that is refused stops both. Whether the caller names
    the node or not makes no difference to the bytes. *)
Theorem layers_write {G D} `{GCM} `{Transport} c ti nc (x : Net (G := G) (D := D)) a b :
  nc_Label nc = cf_Label c ->
  match layeredWrite (wrapTransport c ti) b a with
  | Ok call =>
      x_sent (writePacket nc x a b).2 = x_sent x ++ [(a, callBytes call)] /\ callAddr call = a.1 /\
      (ti_nodeAware ti = true -> call = WriteToAddressCall (callBytes call) a) /\
      WriteTo (wrapTransport c ti) b a.1 = Ok (WriteToCall (callBytes call) a.1)
  | Err e => writePacket nc x a b = (Err (LabelFailed e), x) /\ WriteTo (wrapTransport c ti) b a.1 = Err e
  end.
Proof.
  intros El. unfold writePacket, wrapTransport. rewrite El. destruct (String.eqb_spec (cf_Label c) "") as [Ee|Ee].
  - rewrite Ee. unfold AddLabelHeaderToPacket. cbn [String.eqb]. by destruct (ti_nodeAware ti).
  - cbn [layeredWrite WriteTo]. destruct (AddLabelHeaderToPacket b (cf_Label c)) as [wire|e]; cbn [rbind]; by destruct (ti_nodeAware ti).
Qed.

(** A connection dialled through the layers is the one [dialLabelled] makes of
    what the transport dials, with or without the node's name. *)
Theorem layers_dial `{GCM} c ti nc dial a :
  nc_Label nc = cf_Label c ->
  layeredDial dial (wrapTransport c ti) a =
    dialLabelled nc (dial (if ti_nodeAware ti then DialAddressTimeoutCall a else DialTimeoutCall a.1)) /\
  DialTimeout dial (wrapTransport c ti) a.1 = dialLabelled nc (dial (DialTimeoutCall a.1)).
Proof.
  intros El. assert (Hc : forall call, dialLabelled nc (dial call) =
    if String.eqb (cf_Label c) "" then dialBase dial call else rbind (dialBase dial call) (labelConn (cf_Label c))).
  { intros call. unfold dialLabelled, dialBase, labelConn. rewrite El. destruct (dial call) as [[conn answer]|]; [|by destruct (String.eqb _ _)].
    destruct (String.eqb_spec (cf_Label c) "") as [->|Ee]; done. }
  rewrite !Hc. unfold wrapTransport. destruct (String.eqb (cf_Label c) ""), (ti_nodeAware ti); done.
Qed.

(** The standard transport writes on its first UDP socket, which is open: a
    transport that started always has one. *)
Theorem standard_write `{Internet} `{SocketLaws} s bindAddrs bindPort t s' b a :
  Forall (fun i => i < sk_next s) (sk_open s) -> NewNetTransport s bindAddrs bindPort = (Ok t, s') ->
  exists r e, netWriteToAddress t b a = Some (r, e) /\
    match r with
    | Ok (l, u) => l ∈ sk_open s' /\ ResolveUDPAddr a.1 = Ok u /\ e = writePacketTo l b u
    | Err e' => ResolveUDPAddr a.1 = Err e' /\ e = Some e'
    end.
Proof.
  intros Hs. unfold NewNetTransport. destruct bindAddrs as [|addr addrs] eqn:Ea; [done|]. rewrite <- Ea.
  destruct (listenAll s [] [] bindPort bindAddrs) as [[[s1 tcp] udp] e] eqn:El.
  destruct (listenAll_sockets (sk_open s) bindAddrs s [] [] bindPort s1 tcp udp e (holds_nothing s Hs) El) as [HL Hmore].
  destruct e as [e|]; [done|]. intros [= <- <-]. destruct (Hmore eq_refl) as (more & moreU & p & -> & -> & _ & E2 & _).
  unfold netWriteToAddress. destruct (ResolveUDPAddr a.1) as [u|e'] eqn:Er; [|by eexists _, _].
  cbn [app nt_udpListeners]. rewrite Ea in E2. destruct moreU as [|l moreU]; [done|]. cbn. eexists _, _. split; [done|]. split_and!; [|done|done].
  apply (ho_open _ _ _ _ HL). right. unfold owned. apply elem_of_app. right. apply elem_of_cons. by left.
Qed.

(** A network that resolves what is not empty and carries packets of up to
    1400 bytes. *)
#[local] Instance exampleInternet : Internet := {|
  udpAddr := bytes;
  ResolveUDPAddr a := match a with [] => Err (OtherError "missing address") | _ => Ok a end;
  writePacketTo _ b _ := if len b <=? 1400 then None else Some (OpError "udp" "write");
  dialTCP timeout a := if timeout <=? 0 then Err (OpError "tcp" "dial") else Ok (OutConn [] 8);
|}.

(** A write goes out on the first socket, a failed one reports its error, and
    without an address nothing is written. *)
Example standard_examples :
  let t := MkNetTransport [] [] [4; 7] in
  let a := (str2b "127.0.0.1:7946", "peer"%string) in
  netWriteToAddress t [z2b 1] a = Some (Ok (4, a.1), None) /\
  netWriteTo t (replicate 1401 (z2b 1)) a.1 = Some (Ok (4, a.1), Some (OpError "udp" "write")) /\
  netWriteTo t [z2b 1] [] = Some (Err (OtherError "missing address"), Some (OtherError "missing address")) /\
  netDialTimeout a.1 0 = Err (OpError "tcp" "dial").
Proof. vm_compute. repeat split; reflexivity. Qed.
