(* ===== verification/Cidr.v ===== *)
(** The allow-list of networks as text: [ParseCIDRs] of [src/config.go], with
    [strings.TrimSpace] and [net.ParseCIDR] of the standard library. The
    theorem says which sources a list of IPv4 networks lets through. *)

From S2P Require Import Prelude Msgpack Wire NetAddr HostPort.

(** ** The standard library *)

(** White space in UTF-8, as [unicode.IsSpace] has it. *)
Definition spaces : list bytes :=
  map (map z2b)
    ([[9]; [10]; [11]; [12]; [13]; [32]; [0xc2; 0x85]; [0xc2; 0xa0]; [0xe1; 0x9a; 0x80]] ++
     map (fun i => [0xe2; 0x80; 0x80 + Z.of_nat i]) (seq 0 11) ++
     [[0xe2; 0x80; 0xa8]; [0xe2; 0x80; 0xa9]; [0xe2; 0x80; 0xaf]; [0xe2; 0x81; 0x9f]; [0xe3; 0x80; 0x80]]).

(** [s] without one of the sequences at its front. *)
Fixpoint cutPrefix (seqs : list bytes) (s : bytes) : option bytes :=
  match seqs with
  | [] => None
  | p :: seqs => if bool_decide (take (length p) s = p) then Some (drop (length p) s) else cutPrefix seqs s
  end.

(** Every round cuts at least a byte: the length of [s] is fuel enough. *)
Fixpoint trimFront (fuel : nat) (seqs : list bytes) (s : bytes) : bytes :=
  match fuel with
  | O => s
  | S fuel => match cutPrefix seqs s with Some s => trimFront fuel seqs s | None => s end
  end.

Definition TrimSpace (s : bytes) : bytes :=
  let s := trimFront (length s) spaces s in
  rev (trimFront (length s) (map (@rev byte) spaces) (rev s)).

(** [dtoi]: the number at the front, how many digits it has, or failure. *)
Fixpoint dtoiLoop (s : bytes) (n i : Z) : option (Z * Z) :=
  match s with
  | c :: s' =>
      if isDigit c then
        let n := n * 10 + (b2z c - 48) in
        if n >=? 0xFFFFFF then None else dtoiLoop s' n (i + 1)
      else Some (n, i)
  | [] => Some (n, i)
  end.
Definition dtoi (s : bytes) : option (Z * Z) :=
  '(n, i) ← dtoiLoop s 0 0; if i =? 0 then None else Some (n, i).

(** [CIDRMask] of [l] bytes. *)
Fixpoint CIDRMask (n : Z) (l : nat) : bytes :=
  match l with
  | O => []
  | S l => if n >=? 8 then z2b 0xff :: CIDRMask (n - 8) l else z2b (255 - Z.shiftr 255 n) :: CIDRMask 0 l
  end.

(** [IP.Mask] of sixteen bytes; a mask of four is for an IPv4 address. *)
Definition maskIP (ip m : bytes) : bytes :=
  let ip := if (len m =? 4) && bool_decide (take 12 ip = v4InV6Prefix) then drop 12 ip else ip in
  if len ip =? len m then zip_with (fun a b => z2b (maskByte a b)) ip m else [].

(** The bits of an address by the first separator of its text. *)
Fixpoint addrBytes (s : bytes) : nat :=
  match s with
  | [] => 16
  | c :: s => if Byte.eqb c dot then 4 else if Byte.eqb c colon then 16 else addrBytes s
  end.

Definition ParseCIDR (s : bytes) : option IPNet :=
  let i := IndexByte s (ch "/") in
  if i <? 0 then None
  else
    let addr := take (Z.to_nat i) s in
    let mask := drop (Z.to_nat (i + 1)) s in
    ip ← ParseIP addr;
    '(n, j) ← dtoi mask;
    if negb (j =? len mask) || (n >? 8 * Z.of_nat (addrBytes addr)) then None
    else let m := CIDRMask n (addrBytes addr) in Some (MkIPNet (maskIP ip m) m).

(** ** [ParseCIDRs] *)

(** The networks that parsed and the entries that did not. *)
Fixpoint ParseCIDRs (v : list bytes) : list IPNet * list bytes :=
  match v with
  | [] => ([], [])
  | p :: v =>
      let '(nets, errs) := ParseCIDRs v in
      match ParseCIDR (TrimSpace p) with
      | None => (nets, p :: errs)
      | Some n => (n :: nets, errs)
      end
  end.

(** ** Specification *)

(** An address as a number. *)
Fixpoint addrValue (l : bytes) : Z :=
  match l with
  | [] => 0
  | c :: l => b2z c * 2 ^ (8 * len l) + addrValue l
  end.

(** The first [n] bits of two IPv4 addresses agree. *)
Definition samePrefix (n : Z) (a b : bytes) : Prop := addrValue a / 2 ^ (32 - n) = addrValue b / 2 ^ (32 - n).

(** An IPv4 network as text. *)
Definition cidrText (ip : bytes) (n : Z) : bytes := ip4String ip ++ ch "/" :: itoa n.

(** ** Lemmas *)

Lemma addrValue_range l : 0 <= addrValue l < 2 ^ (8 * len l).
Proof.
  induction l as [|c l IH]; [done|]. cbn [addrValue]. rewrite len_cons. pose proof (len_nonneg l). pose proof (b2z_range c).
  replace (8 * (1 + len l)) with (8 + 8 * len l) by lia. rewrite Z.pow_add_r by lia. change (2 ^ 8) with 256. nia.
Qed.

Lemma CIDRMask_len n l : len (CIDRMask n l) = Z.of_nat l.
Proof. revert n. induction l as [|l IH]; intros n; [done|]. cbn [CIDRMask]. destruct (n >=? 8); rewrite len_cons, IH; lia. Qed.

(** A mask byte keeps the high bits. *)
Lemma mask_high n a : 0 <= n <= 8 -> maskByte a (z2b (255 - Z.shiftr 255 n)) = b2z a / 2 ^ (8 - n) * 2 ^ (8 - n).
Proof.
  intros Hn. assert (H : forallb (fun i => forallb (fun c => maskByte c (z2b (255 - Z.shiftr 255 (Z.of_nat i))) =? b2z c / 2 ^ (8 - Z.of_nat i) * 2 ^ (8 - Z.of_nat i))
    (map (fun j => z2b (Z.of_nat j)) (seq 0 256))) (seq 0 9) = true) by (vm_compute; reflexivity).
  rewrite forallb_forall in H. specialize (H (Z.to_nat n)). rewrite forallb_forall in H. rewrite Z2Nat.id in H by lia. apply Z.eqb_eq, H.
  - apply in_seq. lia.
  - apply in_map_iff. exists (Z.to_nat (b2z a)). pose proof (b2z_range a). rewrite Z2Nat.id by lia. split; [apply z2b_b2z|apply in_seq; lia].
Qed.

Lemma mask_twice a m : maskByte (z2b (maskByte a m)) m = maskByte a m.
Proof.
  assert (Hr : 0 <= maskByte a m < 256).
  { unfold maskByte. pose proof (b2z_range a). pose proof (b2z_range m). split; [apply Z.land_nonneg; lia|].
    destruct (Z.eq_dec (Z.land (b2z a) (b2z m)) 0); [lia|]. apply Z.log2_lt_cancel.
    eapply Z.le_lt_trans; [apply Z.log2_land; lia|]. destruct (Z.eq_dec (b2z a) 0) as [->|]; [cbn; lia|].
    eapply Z.le_lt_trans; [apply Z.le_min_l|]. pose proof (Z.log2_le_mono (b2z a) 255 ltac:(lia)). cbn in *. lia. }
  unfold maskByte at 1. rewrite b2z_z2b_small by done. unfold maskByte. by rewrite <- Z.land_assoc, Z.land_diag.
Qed.

Lemma masked_prefix l n a b : length a = l -> length b = l -> 0 <= n <= 8 * Z.of_nat l ->
  maskedEqual (zip_with (fun x y => z2b (maskByte x y)) a (CIDRMask n l)) (CIDRMask n l) b = true <->
  addrValue a / 2 ^ (8 * Z.of_nat l - n) = addrValue b / 2 ^ (8 * Z.of_nat l - n).
Proof.
  revert n a b. induction l as [|l IH]; intros n a b Ha Hb Hn.
  { destruct a, b; try done. }
  destruct a as [|x a], b as [|y b]; try done. injection Ha as Ha. injection Hb as Hb. cbn [CIDRMask].
  assert (La : len a = Z.of_nat l) by (unfold len; lia). assert (Lb : len b = Z.of_nat l) by (unfold len; lia).
  pose proof (addrValue_range a) as Ra. pose proof (addrValue_range b) as Rb. rewrite La in Ra. rewrite Lb in Rb.
  cbn [addrValue]. rewrite La, Lb. set (p := 2 ^ (8 * Z.of_nat l)) in *. assert (0 < p) by (apply Z.pow_pos_nonneg; lia).
  destruct (Z.geb_spec n 8) as [H8|H8].
  - cbn [zip_with maskedEqual]. rewrite andb_true_iff, mask_twice, Z.eqb_eq. change (z2b 0xff) with (z2b (255 - Z.shiftr 255 8)).
    rewrite !mask_high by lia. change (2 ^ (8 - 8)) with 1. rewrite !Z.div_1_r, !Z.mul_1_r, IH by (done || lia).
    replace (8 * Z.of_nat l - (n - 8)) with (8 * Z.of_nat (S l) - n) by lia. set (e := 8 * Z.of_nat (S l) - n).
    assert (Ep : p = 2 ^ (n - 8) * 2 ^ e) by (unfold p, e; rewrite <- Z.pow_add_r by lia; f_equal; lia).
    assert (0 < 2 ^ e) by (apply Z.pow_pos_nonneg; lia). assert (0 < 2 ^ (n - 8)) by (apply Z.pow_pos_nonneg; lia).
    assert (Hq : forall z, 0 <= z < p -> 0 <= z / 2 ^ e < 2 ^ (n - 8)) by (intros z Hz; split; [apply Z.div_pos; lia|apply Z.div_lt_upper_bound; lia]).
    rewrite Ep, !Z.mul_assoc, !Z.div_add_l by lia. pose proof (Hq _ Ra). pose proof (Hq _ Rb). split; [intros [-> ->]; done|].
    intros E. apply (Z.div_mod_unique (2 ^ (n - 8))); [left; lia|left; lia|lia].
  - cbn [zip_with maskedEqual]. rewrite andb_true_iff, mask_twice, Z.eqb_eq, !mask_high by lia.
    rewrite IH by (done || lia). replace (8 * Z.of_nat l - 0) with (8 * Z.of_nat l) by lia. fold p. rewrite (Z.div_small (addrValue a)), (Z.div_small (addrValue b)) by lia.
    replace (2 ^ (8 * Z.of_nat (S l) - n)) with (p * 2 ^ (8 - n)) by (unfold p; rewrite <- Z.pow_add_r by lia; f_equal; lia).
    rewrite <- !Z.div_div by (try (apply Z.pow_nonzero || apply Z.pow_pos_nonneg); lia). rewrite !Z.div_add_l, (Z.div_small (addrValue a)), (Z.div_small (addrValue b)), !Z.add_0_r by lia.
    assert (0 < 2 ^ (8 - n)) by (apply Z.pow_pos_nonneg; lia). split; [intros [E _]; nia|intros ->; done].
Qed.

(** *** Text *)

(** A digit neither starts nor ends a white space. *)
Definition clearOf (seqs : list bytes) (c : byte) : bool :=
  forallb (fun p => match p with x :: _ => negb (Byte.eqb x c) | [] => false end) seqs.

Lemma digit_clear c : isDigit c = true -> clearOf spaces c = true /\ clearOf (map (@rev byte) spaces) c = true.
Proof.
  assert (H : forall c, negb (isDigit c) || (clearOf spaces c && clearOf (map (@rev byte) spaces) c) = true) by (intros []; vm_compute; reflexivity).
  intros Hc. specialize (H c). rewrite Hc in H. by apply andb_prop in H.
Qed.

Lemma trimFront_blanks seqs fuel i c s : clearOf seqs c = true -> (forall s, cutPrefix seqs (ch " " :: s) = Some s) -> (i <= fuel)%nat ->
  trimFront fuel seqs (replicate i (ch " ") ++ c :: s) = c :: s.
Proof.
  intros Hc Hb. revert i. induction fuel as [|fuel IH]; intros i Hi; [by destruct i; [|lia]|]. cbn [trimFront]. destruct i as [|i]; cbn [replicate app].
  - assert (E : cutPrefix seqs (c :: s) = None); [|by rewrite E]. clear -Hc. induction seqs as [|[|x p] seqs IHs]; [done|done|].
    cbn [clearOf forallb] in Hc. apply andb_prop in Hc as [Hx Hc]. cbn [cutPrefix length take]. rewrite bool_decide_false; [by apply IHs|].
    intros [= -> _]. by rewrite (proj2 (byte_eqb_spec x x) eq_refl) in Hx.
  - rewrite Hb. apply IH. lia.
Qed.

Lemma rev_replicate {A} n (x : A) : rev (replicate n x) = replicate n x.
Proof. induction n as [|n IH]; [done|]. cbn [replicate rev]. rewrite IH. symmetry. apply replicate_cons_app. Qed.

Lemma TrimSpace_blanks i j c s d t : isDigit c = true -> isDigit d = true -> c :: s = t ++ [d] ->
  TrimSpace (replicate i (ch " ") ++ (c :: s) ++ replicate j (ch " ")) = c :: s.
Proof.
  intros Hc Hd E. destruct (digit_clear c Hc) as [H1 _]. destruct (digit_clear d Hd) as [_ H2]. unfold TrimSpace. cbn [app].
  rewrite (trimFront_blanks spaces); [|done|done|rewrite length_app, length_replicate; lia].
  rewrite app_comm_cons, E, !rev_app_distr, rev_replicate. cbn [rev app].
  rewrite (trimFront_blanks (map (@rev byte) spaces)); [|done|done|rewrite !length_app, length_replicate; lia].
  cbn [rev]. by rewrite rev_involutive.
Qed.

Lemma itoa_byte c : itoa (b2z c) <> [] /\ Forall (fun d => isDigit d = true) (itoa (b2z c)).
Proof.
  assert (H : forall c, negb (bool_decide (itoa (b2z c) = [])) && forallb isDigit (itoa (b2z c)) = true) by (intros []; vm_compute; reflexivity).
  specialize (H c). apply andb_prop in H as [H1 H2]. split; [intros E; by rewrite E in H1|]. apply Forall_forall. intros d Hd.
  rewrite forallb_forall in H2. apply H2. by apply list_elem_of_In.
Qed.

Lemma itoa_bits n : 0 <= n <= 32 -> dtoi (itoa n) = Some (n, len (itoa n)) /\ exists t d, itoa n = t ++ [d] /\ isDigit d = true.
Proof.
  intros Hn. assert (H : forallb (fun i => bool_decide (dtoi (itoa (Z.of_nat i)) = Some (Z.of_nat i, len (itoa (Z.of_nat i)))) &&
    match rev (itoa (Z.of_nat i)) with d :: _ => isDigit d | [] => false end) (seq 0 33) = true) by (vm_compute; reflexivity).
  rewrite forallb_forall in H. specialize (H (Z.to_nat n) ltac:(apply in_seq; lia)). rewrite Z2Nat.id in H by lia.
  apply andb_prop in H as [H1 H2]. split; [by apply bool_decide_eq_true in H1|].
  destruct (rev (itoa n)) as [|d t] eqn:E; [done|]. exists (rev t), d. split; [|done]. rewrite <- (rev_involutive (itoa n)), E. done.
Qed.

Lemma ip4_text a b c d : exists x s, ip4String [a; b; c; d] = x :: s /\ isDigit x = true /\ addrBytes (x :: s) = 4%nat /\ (ch "/" ∉ x :: s).
Proof.
  unfold ip4String. cbn [map]. destruct (itoa_byte a) as [Ha Fa]. destruct (itoa (b2z a)) as [|x s]; [done|]. exists x, (s ++ ch "." :: itoa (b2z b) ++ ch "." :: itoa (b2z c) ++ ch "." :: itoa (b2z d)).
  split; [done|]. apply Forall_cons in Fa as [Hx Fs]. assert (Hsep : forall y, isDigit y = true -> Byte.eqb y dot = false /\ Byte.eqb y colon = false /\ y <> ch "/")
    by (intros y Hy; split_and!; [apply byte_eqb_neq; intros ->; done|apply byte_eqb_neq; intros ->; done|intros ->; done]).
  split_and!; [done| |].
  - destruct (Hsep x Hx) as (E1 & E2 & _). cbn [addrBytes]. rewrite E1, E2. clear Hx Ha E1 E2. induction Fs as [|y s Hy Fs IH]; [done|].
    cbn [app addrBytes]. destruct (Hsep y Hy) as (-> & -> & _). apply IH.
  - assert (Hn : forall k, ch "/" ∉ itoa (b2z k)) by (intros k Hin; destruct (itoa_byte k) as [_ Fk]; rewrite Forall_forall in Fk; specialize (Fk _ Hin); done).
    rewrite not_elem_of_cons, !not_elem_of_app, !not_elem_of_cons, !not_elem_of_app, !not_elem_of_cons, !not_elem_of_app, !not_elem_of_cons. split_and!; try apply Hn; try done.
    + destruct (Hsep x Hx) as (_ & _ & Hne). congruence.
    + intros Hin. rewrite Forall_forall in Fs. specialize (Fs _ Hin). done.
Qed.

Lemma maskIP_mapped ip m : len ip = 4 -> len m = 4 -> maskIP (v4InV6Prefix ++ ip) m = zip_with (fun x y => z2b (maskByte x y)) ip m.
Proof.
  intros Hip Hm. unfold maskIP. rewrite Hm. change (4 =? 4) with true. cbn [andb].
  rewrite bool_decide_true by (by rewrite (take_app_length' v4InV6Prefix ip)). rewrite (drop_app_length' v4InV6Prefix ip) by done. by rewrite Hip.
Qed.

Lemma NetContains_masked ip n q : len ip = 4 -> len q = 4 -> 0 <= n <= 32 ->
  NetContains (MkIPNet (zip_with (fun x y => z2b (maskByte x y)) ip (CIDRMask n 4)) (CIDRMask n 4)) q = true <-> samePrefix n ip q.
Proof.
  intros Hip Hq Hn. pose proof (CIDRMask_len n 4) as Hm. change (Z.of_nat 4) with 4 in Hm. set (m := CIDRMask n 4) in *.
  assert (Hz : len (zip_with (fun x y => z2b (maskByte x y)) ip m) = 4) by (unfold len in *; rewrite length_zip_with; lia).
  unfold NetContains, networkNumberAndMask, To4. cbn [net_IP net_Mask]. rewrite Hz. change (4 =? 4) with true. cbv iota. rewrite Hz, Hm, Hq. change (4 =? 4) with true.
  change (4 =? 16) with false. cbn [negb andb]. cbv iota. rewrite Hq, Hz. change (4 =? 4) with true. cbn [negb]. cbv iota.
  apply masked_prefix; [unfold len in Hip; lia|unfold len in Hq; lia|lia].
Qed.

(** A network that is written out parses to the addresses that share its prefix. *)
Lemma ParseCIDR_text ip n i j : len ip = 4 -> 0 <= n <= 32 ->
  exists net, ParseCIDR (TrimSpace (replicate i (ch " ") ++ cidrText ip n ++ replicate j (ch " "))) = Some net /\
    forall q, len q = 4 -> NetContains net q = true <-> samePrefix n ip q.
Proof.
  intros Hip Hn. destruct ip as [|a [|b [|c [|d [|]]]]]; unfold len in Hip; cbn [length] in Hip; try lia. clear Hip. set (ip := [a; b; c; d]).
  destruct (ip4_text a b c d) as (x & s & Et & Hx & Hbytes & Hslash). fold ip in Et. destruct (itoa_bits n Hn) as (Hdtoi & t & dd & Ei & Hdd).
  assert (Ec : cidrText ip n = x :: s ++ ch "/" :: itoa n) by (unfold cidrText; by rewrite Et).
  rewrite Ec, (TrimSpace_blanks i j x _ dd (x :: s ++ ch "/" :: t)); [|done|done|rewrite Ei; cbn; by rewrite <- app_assoc].
  exists (MkIPNet (zip_with (fun x y => z2b (maskByte x y)) ip (CIDRMask n 4)) (CIDRMask n 4)). split.
  - unfold ParseCIDR. cbv zeta. rewrite app_comm_cons, (IndexByte_at (x :: s) (ch "/") (itoa n) Hslash). pose proof (len_nonneg (x :: s)).
    rewrite (proj2 (Z.ltb_ge _ _)) by lia. replace (Z.to_nat (len (x :: s))) with (length (x :: s)) by (unfold len; lia).
    replace (Z.to_nat (len (x :: s) + 1)) with (length (x :: s) + 1)%nat by (unfold len; lia). rewrite take_app_length, drop_app_add.
    rewrite <- Et at 1. rewrite ParseIP_ip4String by done. cbn [mbind option_bind].
    change (drop 1 (ch "/" :: itoa n)) with (itoa n). rewrite Hdtoi, Hbytes. cbn [mbind option_bind].
    rewrite Z.eqb_refl. destruct (Z.gtb_spec n (8 * Z.of_nat 4)); [lia|]. cbn [negb orb]. by rewrite maskIP_mapped by (done || apply CIDRMask_len).
  - intros q Hq. by apply NetContains_masked.
Qed.

(** ** Properties *)

(** A list of IPv4 networks parses without an error, blanks around an entry
    ignored, and a connection or packet from an IPv4 address is then let
    through exactly when the list is empty or the address shares the prefix of
    one of the networks. An entry that does not parse is reported and the
    others are kept. *)
Theorem cidrs_admit (nets : list (bytes * Z)) (i j : nat) q port :
  Forall (fun e => len e.1 = 4 /\ 0 <= e.2 <= 32) nets -> len q = 4 -> 0 <= port ->
  let '(parsed, errs) := ParseCIDRs (map (fun e => replicate i (ch " ") ++ cidrText e.1 e.2 ++ replicate j (ch " ")) nets) in
  errs = [] /\
  (ensureCanConnect parsed (joinHostPort (ipString q) port) = true <-> nets = [] \/ exists e, e ∈ nets /\ samePrefix e.2 e.1 q).
Proof.
  intros Hn Hq Hp. assert (H : exists parsed, ParseCIDRs (map (fun e => replicate i (ch " ") ++ cidrText e.1 e.2 ++ replicate j (ch " ")) nets) = (parsed, []) /\
    length parsed = length nets /\ (existsb (fun n => NetContains n q) parsed = true <-> exists e, e ∈ nets /\ samePrefix e.2 e.1 q)).
  { induction Hn as [|[ip n] nets [Hip Hbits] Hn IH]; cbn [map ParseCIDRs fst snd] in *.
    { exists []. split_and!; [done|done|]. split; [done|]. by intros (e & He%elem_of_nil & _). }
    destruct IH as (parsed & -> & El & IH). destruct (ParseCIDR_text ip n i j Hip Hbits) as (net & -> & Hnet).
    exists (net :: parsed). split_and!; [done|cbn; lia|]. cbn [existsb]. rewrite orb_true_iff, Hnet, IH by done. split.
    - intros [Hs|(e & He & Hs)]; [exists (ip, n); split; [by left|done]|exists e; split; [by right|done]].
    - intros (e & [->|He]%elem_of_cons & Hs); [by left|right; by exists e]. }
  destruct H as (parsed & -> & El & Hx). split; [done|]. rewrite ensureCanConnect_ip4 by done. unfold IPAllowed, IPMustBeChecked.
  destruct parsed as [|p parsed], nets as [|e nets]; try done.
  - split; [by left|done].
  - rewrite len_cons. pose proof (len_nonneg parsed). rewrite (proj2 (Z.gtb_gt _ _)) by lia. cbn [negb]. rewrite Hx. split; [by right|by intros [?|?]].
Qed.

Example cidr_examples :
  let nets := [(map z2b [10; 0; 0; 0], 8); (map z2b [192; 168; 7; 0], 24)] in
  ensureCanConnect (ParseCIDRs (map (fun e => cidrText e.1 e.2) nets)).1 (str2b "192.168.7.33:7946") = true /\
  ensureCanConnect (ParseCIDRs (map (fun e => cidrText e.1 e.2) nets)).1 (str2b "192.168.8.33:7946") = false /\
  (ParseCIDRs [str2b "10.0.0.0/33"; str2b "fe80::/10 "; str2b "x"]).2 = [str2b "10.0.0.0/33"; str2b "x"].
Proof. vm_compute. done. Qed.
