(* ===== verification/Goid.v ===== *)
(** Goroutine ids, [goid] of [src/util.go]: by them the code tells whether a
    call of Shutdown runs on a goroutine it would wait for. What
    [runtime.Stack] writes is an argument. *)

From S2P Require Import Prelude Msgpack Wire Treap Timing Queue NetAddr Nodes Events Packet State Lifecycle Membership Protocol Merge Security HostPort Acks Net Streams Ingest Exchange Join.

Fixpoint goidLoop (s : bytes) (id : Z) : Z :=
  match s with
  | [] => id
  | c :: s => if (b2z c <? 48) || (b2z c >? 57) then id else goidLoop s (u64 (u64 (id * 10) + (b2z c - 48)))
  end.

Definition goroutineHeader : bytes := str2b "goroutine ".

(** [stack] is what is written in full, of which the buffer takes 64 bytes;
    [None] is the slice out of range of a text that is too short. *)
Definition goid (stack : bytes) : option Z :=
  let buf := take 64 stack in
  if len buf <? len goroutineHeader then None else Some (goidLoop (drop (length goroutineHeader) buf) 0).

(** ** Lemmas *)

Lemma goidLoop_digits fuel n rest :
  0 <= n <= MaxUint64 -> n < 10 ^ Z.of_nat fuel -> goidLoop (digits fuel 10 n ++ rest) 0 = goidLoop rest n.
Proof.
  revert n rest. induction fuel as [|fuel IH]; intros n rest Hn Hf; [change (10 ^ Z.of_nat 0) with 1 in Hf; by replace n with 0 by lia|].
  assert (Hd : forall id d s, 0 <= d < 10 -> 0 <= id -> id * 10 + d <= MaxUint64 -> goidLoop (digit d :: s) id = goidLoop s (id * 10 + d)).
  { intros id d s Hd Hid Hle. cbn [goidLoop]. destruct (digit_value d Hd) as [H1 H2]. unfold isDigit in H1. apply andb_true_iff in H1 as [H1 H1'].
    apply Z.leb_le in H1, H1'. destruct (Z.ltb_spec (b2z (digit d)) 48); [lia|]. destruct (Z.gtb_spec (b2z (digit d)) 57); [lia|]. cbn [orb].
    rewrite H2. unfold MaxUint64 in Hle. rewrite !u64_small by (rewrite ?u64_small; lia). done. }
  cbn [digits]. destruct (Z.ltb_spec n 10) as [Hs|Hs]; [cbn [app]; rewrite Hd by lia; f_equal; lia|].
  rewrite Nat2Z.inj_succ, Z.pow_succ_r in Hf by lia. pose proof (Z.div_mod n 10). pose proof (Z.mod_pos_bound n 10).
  rewrite <- app_assoc, IH; [|split; [apply Z.div_pos; lia|pose proof (Z.div_le_upper_bound n 10 n); lia]|apply Z.div_lt_upper_bound; lia].
  cbn [app]. assert (0 <= n / 10) by (apply Z.div_pos; lia). rewrite Hd by lia. f_equal. lia.
Qed.

Lemma digits_length fuel base n : (length (digits fuel base n) <= fuel)%nat.
Proof.
  revert n. induction fuel as [|fuel IH]; intros n; cbn [digits]; [done|]. destruct (n <? base); [cbn; lia|]. rewrite length_app. specialize (IH (n / base)). cbn. lia.
Qed.

(** The id of the header the runtime writes. *)
Theorem goid_header id rest : 0 < id <= MaxUint64 -> goid (goroutineHeader ++ itoa id ++ ch " " :: rest) = Some id.
Proof.
  intros Hid. pose proof (digits_length 20 10 id). fold (itoa id) in *. unfold goid. cbv zeta.
  assert (Hh : length goroutineHeader = 10%nat) by done. rewrite !take_app, Hh, (take_ge goroutineHeader) by (rewrite Hh; lia).
  rewrite (take_ge (itoa id)) by lia. destruct (64 - 10 - length (itoa id))%nat eqn:E; [lia|]. cbn [take].
  set (tail := take n rest). destruct (Z.ltb_spec (len (goroutineHeader ++ itoa id ++ ch " " :: tail)) (len goroutineHeader)) as [Hlt|_].
  { rewrite len_app in Hlt. pose proof (len_nonneg (itoa id ++ ch " " :: tail)). lia. }
  rewrite <- Hh, drop_app_length. unfold itoa. rewrite goidLoop_digits; [done|lia|]. unfold MaxUint64 in Hid. cbn. lia.
Qed.

Example goid_example : goid (str2b "goroutine 123 [running]:") = Some 123.
Proof. by vm_compute. Qed.
